(* ===== verification/_CoqProject ===== *)
-Q . S2P
Prelude.v
Endian.v
Buffer.v
BufferSpec.v
Format.v
Timestamp.v
StdSet.v
TimerQueue.v
TimerQueueInv.v
TimerQueueSpec.v
TimerQueueFate.v
TimerQueueArmed.v
TimerQueueExamples.v
Channel.v
Poller.v
EPollPoller.v
EPollPollerSpec.v
PollPoller.v
PollPollerSpec.v
EventLoop.v
EventLoopSpec.v
TcpConnection.v
TcpConnectionInv.v
TcpConnectionSpec.v
TcpConnectionExamples.v
Connector.v
ConnectorSpec.v
EventLoopThreadPool.v
TcpServer.v
TcpServerSpec.v
InetAddress.v
Acceptor.v
TcpClient.v
Date.v
Monitor.v
Mutex.v
BlockingQueue.v
CountDownLatch.v
ThreadPool.v
LogStream.v
TimeZone.v
TimeZoneSpec.v
FileUtil.v
LogFile.v
AsyncLogging.v
Logging.v
CppString.v
Strops.v
StropsSpec.v
Config.v
ReactorBuffer.v
ReactorTimer.v
ReactorTimerSpec.v
ReactorPoller.v
ReactorActor.v
ReactorWorkers.v
ReactorConnection.v
ReactorServer.v
EasyTcp.v
EasyTcpSpec.v
SpinLock.v
RefPtr.v
ThreadLoop.v
ThreadLoopSpec.v
HttpContext.v
HttpServer.v
HttpServerSpec.v
EasyEvent.v
LeeCode.v
EventLoopThread.v
ThreadRunner.v
StringPiece.v
Skel.v
ZlibStream.v
MysqlPool.v
Redis.v
ZkClient.v
ProcessInfo.v
ThreadData.v
TcpPair.v
