(* ===== verification/Prelude.v ===== *)
(** * Verification of the EasyLib network library

    EasyLib's own code is a reactor network library in the style of muduo
    (src/mynetlib/base and src/mynetlib/net). An [EventLoop] runs in one
    thread: it asks a poller which descriptors are ready, lets their
    [Channel]s call their owners back, runs the functors other threads
    queued, and starts over. Owners are the [TimerQueue], the [Acceptor] and
    the [Connector] that make connections, and the [TcpConnection]s
    themselves, each with an input and an output [Buffer]; a [TcpServer]
    spreads its connections over the loops of an [EventLoopThreadPool].
    The base library below it has timestamps, dates, text formatting and the
    threading classes. Around it the repository has an earlier reactor library
    (src/Reactors/net), an event loop, a TCP worker pool and an HTTP server on
    libevent (src/thread, src/easytcp, src/http), a process supervisor
    (src/frame), and helpers and clients (src/common, src/zkclient).

    ** Conventions

    Member functions that can stop the process return an [outcome]: a failed
    assert, an access outside a vector, a use of a deleted object and so on
    are faults. Machine integers are [Z] with their wrap-around written out
    ([s32], [u64]). State is passed explicitly; systems of threads and
    kernels are step functions over labels, and theorems quantify over every
    sequence of labels the environment may produce. System calls are
    arguments of the definitions that make them, or operations of a class
    whose laws are their documented behaviour ([Epoll], [FdKernel],
    [InetText]), with an instance that shows the laws can hold. User
    callbacks are parameters or lists of the calls they make, and the calls of
    them that matter are recorded where they are made. A member function that
    another thread calls without a lock is taken access by access. Memory the
    code does not initialise is an argument. Log output has no effect on the
    modelled state.

    Where the code is correct only when it is used in a certain way, the
    condition is a named predicate of the theorem, its comment says so, and a
    lemma shows what happens outside it.

    ** Files

    - Prelude, Format: faults, machine integers, bytes, vectors; printf.
    - Endian, Buffer, BufferSpec: net/Endian.h, Buffer.h, Buffer.cc. The
      buffer with its prependable area refines a byte queue ([ByteQueue] is
      the interface the connection uses), integers round-trip, shrink and
      readFd, searching for line ends.
    - Timestamp, StdSet, TimerQueue*: base/Timestamp.*, net/Timer.*,
      TimerQueue.*. Timers as heap objects in two ordered sets: no interleaving
      of adding, cancelling and firing corrupts them, where addTimer of another
      thread hands its timer over and then reads its sequence number; the log
      of the callbacks that ran, cancelled timers, the armed timerfd.
    - Channel, Poller, EPollPoller*, PollPoller*: net/Channel.*, Poller.*,
      poller/. The two pollers implement the class [Poller]; what the kernel
      watches is what the channels ask for.
    - EventLoop, EventLoopSpec: net/EventLoop.*. The loop interleaved with
      other threads: no wakeup is lost, pending functors run in order.
    - TcpConnection*: net/TcpConnection.*. The byte stream, the life cycle
      and the channel calls of a connection for every behaviour of peer and
      kernel and every use that [history_ok] admits; calls from other threads
      test, store and queue in separate steps.
    - TcpPair: two connections composed over a network: what one end's users
      send is what the other end's users receive, up to the end of the stream.
    - Connector, ConnectorSpec, Acceptor: net/Connector.*, Acceptor.*,
      sockets::accept. Sockets are closed or handed over once, retry delays,
      stopping; running out of descriptors.
    - EventLoopThreadPool, TcpServer, TcpServerSpec: net/EventLoopThreadPool.*,
      TcpServer.*. Round robin; connections shared between loops.
    - InetAddress: net/InetAddress.*, address functions of SocketsOps.cc.
    - Date: base/Date.*: Julian day numbers are the Gregorian calendar.
    - Monitor, Mutex, BlockingQueue, CountDownLatch, ThreadPool: base/Mutex.h,
      Condition.* and the classes built on them, as monitors under an
      arbitrary scheduler with spurious wakeups. Mutex has the lock with its
      holder, access by access, and proves that it implements the monitors.
    - TcpClient: net/TcpClient.*. The client over the connector's model: one
      connection at a time, each destroyed once, reconnecting.
    - LogStream, Logging, FileUtil, LogFile, AsyncLogging: base/. The log
      statements of a thread from their pieces to the lines, with the cached
      text of the second, the level and the zone, the fixed buffer, files rolled by
      size and day, and the logging thread with its four buffers ([LogSink] is
      what it asks of its destination).
    - TimeZone, TimeZoneSpec: base/TimeZone.*. Zone files, the search for the
      offset in force, local and UTC time.
    - CppString, Strops, StropsSpec, Config: src/common. The searches of
      std::string, the string helpers built on them, and the configuration
      file with its two maps (src/frame/Config.cpp is the same text).
    - ReactorBuffer, ReactorTimer, ReactorTimerSpec, ReactorPoller,
      ReactorActor, ReactorWorkers, ReactorConnection, ReactorServer:
      src/Reactors/net, an earlier and simpler reactor library: a buffer
      without room in front, timers in a map of lists, a select poller, loops
      with a pending flag, worker threads, connections and the server. Its
      streams, queues and timers are correct under stated conditions; what
      happens outside them is proved too.
    - StringPiece, ProcessInfo, ThreadData, ZlibStream: the
      rest of mynetlib. String pieces against the lexicographic order; what is
      read from /proc; objects per thread and per process, the atomic counter, [Thread];
      compression into a buffer over any zlib that satisfies [DeflateLaws].
    - EventLoopThread, ThreadRunner (and [Explore] of Prelude): net/EventLoopThread.* and
      src/thread/Thread.*, EventLoopThread.*. Starting and ending a thread
      with its loop, one access at a time; the joint states are finitely many
      and are all enumerated.
    - EasyTcp, EasyTcpSpec: src/easytcp. Workers that send and receive over
      libevent (class [Libevent]).
    - SpinLock, RefPtr, MysqlPool, Redis: src/common.
      A spin lock (with the storage it is made in) and reference counts under
      every interleaving of their atomic accesses; the connection pool (with the factory and the double
      buffer); the Redis client over a library whose connections break at will.
    - ThreadLoop, ThreadLoopSpec, EasyEvent: src/thread. The loop
      with its pipe and pending functors, and the wrappers of libevent events
      over a base in which a freed event is known.
    - HttpContext, HttpServer, HttpServerSpec: src/http. Requests from their
      URI and their body, read through an uninitialised array, to the reply,
      dispatched over worker loops and back.
    - Skel: src/frame. The supervisor of worker processes, which reads its
      configuration with Config, and its commands.
    - ZkClient: src/zkclient. LeeCode: the exercises of src/leecode that
      compile.

    ** Bounds and fuel

    Definitions recurse on lists or on fuel computed from the argument
    (decimal digits: one more than the binary logarithm, proved to be
    enough). Loops whose length the environment decides (files, compression)
    take fuel and return [None] without it; the theorems say how much is
    enough. Explorations of finite systems use more rounds than they have
    states on a path, and the result is checked to be closed. Buffers are
    bounded by what [std::vector] and [int] can index, where the theorems say
    so; connection ids stay below 2^31; dates run to the year 1000000, and
    gmtime_r fails where the year leaves [int].

    ** Not modelled

    Sockets and files beyond what the classes above need of them, and what
    libevent, zlib, hiredis, MySQL and ZooKeeper do inside. Of the sources:
    base/Exception.cc, Types.h and GzipFile.h (backtraces, casts, calls of
    zlib), functions of ProcessInfo.cc that pass on one system call's answer,
    and the exercises of src/leecode that do not compile. The directories src/muduo, src/include,
    src/lib, src/vim hold third-party code; src/Reactors/base is a copy of
    mynetlib/base; src/test, src/template, src/designmode and src/boost are
    exercises of the language and of libraries. *)

From stdpp Require Export base option list sets.
From stdpp Require Import tactics countable.
From Stdlib Require Export ZArith Lia.
From Stdlib Require Import Strings.Byte.

Declare Scope easylib_scope.
Delimit Scope easylib_scope with easy.
Open Scope Z_scope.

(** ** Faults

    A C++ member function either returns, or stops the process in one of the
    ways the sources can: a failed [assert], an access outside a vector, a
    [std::length_error] from [vector::resize], a use of a deleted object, a
    failed allocation, a null pointer that is followed, the use of a value the
    C library or the language leaves unspecified, or a [LOG_FATAL] /
    [abort()]. *)

Inductive fault : Set :=
| AssertFail
| OutOfBounds
| LengthError
| UseAfterFree
| BadAlloc
| NullPointer
| Unspecified
| Fatal.

Inductive outcome (A : Type) : Type :=
| Ok (a : A)
| Fail (f : fault).

Arguments Ok {A} a.
Arguments Fail {A} f.

#[export] Instance outcome_ret : MRet outcome := @Ok.

#[export] Instance outcome_bind : MBind outcome := fun A B k m =>
  match m with
  | Ok a => k a
  | Fail f => Fail f
  end.

#[export] Instance outcome_fmap : FMap outcome := fun A B g m =>
  match m with
  | Ok a => Ok (g a)
  | Fail f => Fail f
  end.

#[export] Instance fault_eq_dec : EqDecision fault.
Proof. solve_decision. Defined.

(** [assert(b)] of <assert.h>, with assertions enabled. *)
Definition c_assert (b : bool) : outcome unit :=
  if b then Ok tt else Fail AssertFail.

Definition is_ok {A} (m : outcome A) : Prop := exists a, m = Ok a.

(** A function that may fault, run on every element in turn (a [for] loop). *)
Fixpoint foldM {S A} (step : S -> A -> outcome S) (s : S) (l : list A) : outcome S :=
  match l with
  | [] => Ok s
  | a :: l' => s' ← step s a; foldM step s' l'
  end.

(** ** Machine integers

    A [w]-bit value is a [Z]; [u64] and its siblings reduce to the unsigned
    range, [s32] and its siblings to the two's complement range. *)

Definition u64 (z : Z) : Z := z mod 2 ^ 64.
Definition u32 (z : Z) : Z := z mod 2 ^ 32.
Definition u16 (z : Z) : Z := z mod 2 ^ 16.
Definition signed (w z : Z) : Z := (z + 2 ^ (w - 1)) mod 2 ^ w - 2 ^ (w - 1).
Definition s64 (z : Z) : Z := signed 64 z.
Definition s32 (z : Z) : Z := signed 32 z.
Definition s16 (z : Z) : Z := signed 16 z.
Definition s8 (z : Z) : Z := signed 8 z.

(** [std::vector<char>::max_size()] on a 64-bit target. *)
Definition max_size : Z := 2 ^ 63 - 1.

(** ** Bytes *)

Abbreviation byte := Byte.byte.

Definition byte_to_Z (b : byte) : Z := Z.of_N (Byte.to_N b).

Definition byte_of_Z (z : Z) : byte :=
  default Byte.x00 (Byte.of_N (Z.to_N (z mod 256))).

Definition byte_eqb (a b : byte) : bool := Byte.eqb a b.

#[export] Instance byte_eq_dec : EqDecision byte := Byte.byte_eq_dec.

#[export] Instance byte_countable : Countable byte := inj_countable Byte.to_N Byte.of_N Byte.of_to_N.

Definition byte_list_eqb (a b : list byte) : bool := bool_decide (a = b).

(** ** Vectors

    [zlen l] is [v.size()]; [copy_into] is [std::copy] of [data] onto the
    elements of [l] from index [pos], which is undefined when it runs past
    the end; [resize] is [vector::resize]. *)

Definition zlen {A} (l : list A) : Z := Z.of_nat (length l).

Definition slice {A} (l : list A) (i j : Z) : list A :=
  take (Z.to_nat (j - i)) (drop (Z.to_nat i) l).

Definition copy_into {A} (l : list A) (pos : Z) (data : list A) : outcome (list A) :=
  if (0 <=? pos) && (pos + zlen data <=? zlen l)
  then Ok (take (Z.to_nat pos) l ++ data ++ drop (Z.to_nat (pos + zlen data)) l)
  else Fail OutOfBounds.

Definition vec_resize {A} (fill : A) (l : list A) (n : Z) : outcome (list A) :=
  if n <=? max_size
  then Ok (take (Z.to_nat n) l ++ replicate (Z.to_nat (n - zlen l)) fill)
  else Fail LengthError.

(** ** Tactics *)

(** Splits on every integer comparison the goal or a hypothesis tests. *)
Ltac zcases :=
  repeat match goal with
  | |- context [(?a <? ?b)%Z] => destruct (Z.ltb_spec a b)
  | |- context [(?a <=? ?b)%Z] => destruct (Z.leb_spec a b)
  | |- context [(?a =? ?b)%Z] => destruct (Z.eqb_spec a b)
  | H : context [(?a <? ?b)%Z] |- _ => destruct (Z.ltb_spec a b)
  | H : context [(?a <=? ?b)%Z] |- _ => destruct (Z.leb_spec a b)
  | H : context [(?a =? ?b)%Z] |- _ => destruct (Z.eqb_spec a b)
  end.

(** Evaluates [Z.of_nat] of numerals. *)
Ltac is_nat_numeral n :=
  lazymatch n with
  | O => idtac
  | S ?m => is_nat_numeral m
  end.

Ltac znat :=
  repeat match goal with
  | H : context [Z.of_nat ?n] |- _ =>
      is_nat_numeral n; let v := eval vm_compute in (Z.of_nat n) in
      change (Z.of_nat n) with v in H
  | |- context [Z.of_nat ?n] =>
      is_nat_numeral n; let v := eval vm_compute in (Z.of_nat n) in
      change (Z.of_nat n) with v
  end.

(** Runs an [outcome] computation symbolically. *)
Ltac run :=
  repeat (unfold c_assert in *;
          cbn [mbind outcome_bind mret outcome_ret fmap outcome_fmap] in *;
          simplify_eq).

(** ** Generic lemmas *)

Lemma foldM_app {S A} (step : S -> A -> outcome S) s l1 l2 :
  foldM step s (l1 ++ l2) = (s' ← foldM step s l1; foldM step s' l2).
Proof.
  revert s. induction l1 as [|a l1 IH]; intros s; [done|].
  cbn. destruct (step s a); cbn; [apply IH | done].
Qed.

(** A loop whose body preserves [I] never faults and ends in [I]. *)
Lemma foldM_inv {S A} (step : S -> A -> outcome S) (I : S -> list A -> Prop) :
  (forall s a l, I s (a :: l) -> exists s', step s a = Ok s' /\ I s' l) ->
  forall l s, I s l -> exists s', foldM step s l = Ok s' /\ I s' [].
Proof.
  intros Hstep l. induction l as [|a l IH]; intros s Hs; [by exists s|].
  cbn. destruct (Hstep _ _ _ Hs) as (s' & -> & Hs'). cbn. by apply IH.
Qed.

Lemma u64_small z : 0 <= z < 2 ^ 64 -> u64 z = z.
Proof. apply Z.mod_small. Qed.

Lemma u64_range z : 0 <= u64 z < 2 ^ 64.
Proof. apply Z.mod_pos_bound. lia. Qed.

Lemma u64_idemp z : u64 (u64 z) = u64 z.
Proof. apply Z.mod_mod. lia. Qed.

Lemma signed_small w z : 0 < w -> - 2 ^ (w - 1) <= z < 2 ^ (w - 1) -> signed w z = z.
Proof.
  intros Hw Hz. unfold signed.
  replace (2 ^ w) with (2 * 2 ^ (w - 1))
    by (rewrite <- Z.pow_succ_r by lia; f_equal; lia).
  rewrite Z.mod_small; lia.
Qed.

Lemma signed_range w z : 0 < w -> - 2 ^ (w - 1) <= signed w z < 2 ^ (w - 1).
Proof.
  intros Hw. unfold signed.
  assert (2 ^ w = 2 * 2 ^ (w - 1)) as ->
    by (rewrite <- Z.pow_succ_r by lia; f_equal; lia).
  pose proof (Z.mod_pos_bound (z + 2 ^ (w - 1)) (2 * 2 ^ (w - 1))). lia.
Qed.

Lemma signed_mod w z : 0 < w -> signed w (z mod 2 ^ w) = signed w z.
Proof.
  intros Hw. unfold signed. f_equal.
  rewrite Z.add_mod_idemp_l by lia. done.
Qed.

Lemma s32_small z : - 2 ^ 31 <= z < 2 ^ 31 -> s32 z = z.
Proof. intros. apply signed_small; cbn in *; lia. Qed.

(** Removes the wrap of every result that lia finds in range, innermost first. *)
Ltac unwrap32 :=
  repeat match goal with
  | |- context [s32 ?z] =>
      lazymatch z with context [s32 _] => fail | _ => rewrite (s32_small z) by lia end
  end.

Lemma byte_to_Z_range b : 0 <= byte_to_Z b < 256.
Proof.
  unfold byte_to_Z. pose proof (Byte.to_N_bounded b). lia.
Qed.

Lemma byte_to_of_Z z : byte_to_Z (byte_of_Z z) = z mod 256.
Proof.
  unfold byte_to_Z, byte_of_Z.
  pose proof (Z.mod_pos_bound z 256 ltac:(lia)) as Hz.
  destruct (Byte.of_N (Z.to_N (z mod 256))) as [b|] eqn:E; cbn.
  - apply Byte.to_of_N in E. rewrite E. lia.
  - apply Byte.of_N_None_iff in E. lia.
Qed.

Lemma byte_of_to_Z b : byte_of_Z (byte_to_Z b) = b.
Proof.
  unfold byte_of_Z. rewrite Z.mod_small by apply byte_to_Z_range.
  unfold byte_to_Z. rewrite N2Z.id, Byte.of_to_N. done.
Qed.

Lemma byte_eqb_eq a b : byte_eqb a b = true <-> a = b.
Proof. split; [apply Byte.byte_dec_bl | apply Byte.byte_dec_lb]. Qed.

Lemma zlen_nonneg {A} (l : list A) : 0 <= zlen l.
Proof. unfold zlen. lia. Qed.

Lemma zlen_app {A} (l1 l2 : list A) : zlen (l1 ++ l2) = zlen l1 + zlen l2.
Proof. unfold zlen. rewrite length_app. lia. Qed.

Lemma zlen_cons {A} (x : A) (l : list A) : zlen (x :: l) = 1 + zlen l.
Proof. unfold zlen. cbn [length]. lia. Qed.

Lemma zlen_nil {A} : zlen (@nil A) = 0.
Proof. done. Qed.

Lemma zlen_singleton {A} (x : A) : zlen [x] = 1.
Proof. done. Qed.

Lemma zlen_nil_iff {A} (l : list A) : zlen l = 0 <-> l = [].
Proof. unfold zlen. destruct l; cbn; split; intros; try done; lia. Qed.

Lemma zlen_slice {A} (l : list A) i j :
  0 <= i <= j -> j <= zlen l -> zlen (slice l i j) = j - i.
Proof. unfold zlen, slice. rewrite length_take, length_drop. lia. Qed.

Lemma copy_into_ok {A} (l : list A) pos data :
  0 <= pos -> pos + zlen data <= zlen l ->
  copy_into l pos data =
    Ok (take (Z.to_nat pos) l ++ data ++ drop (Z.to_nat (pos + zlen data)) l).
Proof.
  intros. unfold copy_into. zcases; try lia. done.
Qed.

Lemma zlen_copy_into {A} (l l' : list A) pos data :
  copy_into l pos data = Ok l' -> zlen l' = zlen l.
Proof.
  unfold copy_into. zcases; cbn; try done. intros [= <-].
  unfold zlen in *. rewrite !length_app, length_take, length_drop. lia.
Qed.

(** What [copy_into] wrote is what a later read of the range sees. *)
Lemma slice_copy_into {A} (l l' : list A) pos data :
  copy_into l pos data = Ok l' -> slice l' pos (pos + zlen data) = data.
Proof.
  unfold copy_into. zcases; cbn; try done. intros [= <-]. unfold slice.
  rewrite drop_app_length' by (rewrite length_take; unfold zlen in *; lia).
  rewrite take_app_length' by (unfold zlen; lia). done.
Qed.

Lemma slice_copy_before {A} (l l' : list A) pos data i j :
  copy_into l pos data = Ok l' -> 0 <= i <= j -> j <= pos -> slice l' i j = slice l i j.
Proof.
  unfold copy_into. zcases; cbn; try done. intros [= <-] ??. unfold slice.
  rewrite drop_app_le by (rewrite length_take; unfold zlen in *; lia).
  rewrite take_app_le by (rewrite length_drop, length_take; unfold zlen in *; lia).
  rewrite skipn_firstn_comm, take_take. f_equal. lia.
Qed.

Lemma slice_copy_after {A} (l l' : list A) pos data i j :
  copy_into l pos data = Ok l' -> pos + zlen data <= i -> slice l' i j = slice l i j.
Proof.
  unfold copy_into. zcases; cbn; try done. intros [= <-] ?. unfold slice. f_equal.
  rewrite app_assoc, drop_app_ge
    by (rewrite length_app, length_take; unfold zlen in *; lia).
  rewrite drop_drop. f_equal.
  rewrite length_app, length_take. unfold zlen in *. lia.
Qed.

Lemma slice_split {A} (l : list A) i j k :
  0 <= i <= j -> j <= k -> slice l i k = slice l i j ++ slice l j k.
Proof.
  intros ??. unfold slice.
  replace (Z.to_nat (k - i)) with (Z.to_nat (j - i) + Z.to_nat (k - j))%nat by lia.
  rewrite <- take_take_drop. f_equal. rewrite drop_drop. do 2 f_equal. lia.
Qed.

Lemma slice_drop {A} (l : list A) i j n :
  0 <= i -> 0 <= n -> i + n <= j -> slice l (i + n) j = drop (Z.to_nat n) (slice l i j).
Proof.
  intros. unfold slice. rewrite skipn_firstn_comm, drop_drop. f_equal; [lia|]. f_equal. lia.
Qed.

Lemma slice_take {A} (l : list A) i j n :
  0 <= n -> i + n <= j -> slice l i (i + n) = take (Z.to_nat n) (slice l i j).
Proof.
  intros. unfold slice. rewrite take_take. f_equal. lia.
Qed.

Lemma slice_all {A} (l : list A) : slice l 0 (zlen l) = l.
Proof. unfold slice, zlen. rewrite Z.sub_0_r, Nat2Z.id. by rewrite firstn_all. Qed.

Lemma slice_nil {A} (l : list A) i : slice l i i = [].
Proof. unfold slice. rewrite Z.sub_diag. done. Qed.

Create HintDb easylib.
Create Rewrite HintDb easylib.
#[export] Hint Resolve zlen_nonneg u64_range byte_to_Z_range : easylib.
#[export] Hint Rewrite @zlen_app @zlen_cons @zlen_nil @slice_nil u64_idemp byte_to_of_Z byte_of_to_Z : easylib.

(** ** Exploring a finite system of threads

    Where the threads of a component have finitely many joint states, the
    reachable ones are enumerated, and the enumeration is proved to contain
    every run. *)

Module Explore.
Section Explore.
Context {S : Type} `{!EqDecision S} (next : S -> list S).

Inductive reachable (s0 : S) : S -> Prop :=
| reach_refl : reachable s0 s0
| reach_step s s' : reachable s0 s -> s' ∈ next s -> reachable s0 s'.

(** One round: the successors that are new. *)
Definition add_new (seen : list S) (s : S) : list S := if bool_decide (s ∈ seen) then seen else seen ++ [s].

Fixpoint explore (fuel : nat) (seen : list S) : list S :=
  match fuel with
  | O => seen
  | Datatypes.S fuel' => explore fuel' (foldl add_new seen (seen ≫= next))
  end.

Definition closed (seen : list S) : bool := forallb (fun s => forallb (fun s' => bool_decide (s' ∈ seen)) (next s)) seen.

Lemma closed_contains s0 seen s : s0 ∈ seen -> closed seen = true -> reachable s0 s -> s ∈ seen.
Proof.
  intros H0 Hc H. induction H as [|s s' _ IH Hn]; [done|]. unfold closed in Hc. rewrite forallb_forall in Hc.
  specialize (Hc s). rewrite <- list_elem_of_In in Hc. specialize (Hc IH). rewrite forallb_forall in Hc.
  specialize (Hc s'). rewrite <- list_elem_of_In in Hc. specialize (Hc Hn). by apply bool_decide_eq_true in Hc.
Qed.

(** A property of all reachable states, by evaluation. *)
Lemma explore_all s0 fuel (P : S -> bool) : bool_decide (s0 ∈ explore fuel [s0]) && closed (explore fuel [s0]) && forallb P (explore fuel [s0]) = true ->
  forall s, reachable s0 s -> P s = true.
Proof.
  rewrite !andb_true_iff, bool_decide_eq_true. intros [[H0 Hc] HP] s Hs. rewrite forallb_forall in HP. apply HP, list_elem_of_In.
  by eapply closed_contains.
Qed.

(** Some state with [P] can be reached from [s] in at most [fuel] steps. *)
Fixpoint can_reach (fuel : nat) (P : S -> bool) (s : S) : bool :=
  P s || match fuel with O => false | Datatypes.S fuel' => existsb (can_reach fuel' P) (next s) end.

Lemma can_reach_sound fuel P s : can_reach fuel P s = true -> exists s', reachable s s' /\ P s' = true.
Proof.
  revert s. induction fuel as [|fuel IH]; intros s; cbn [can_reach]; rewrite orb_true_iff; (intros [H|H]; [exists s; split; [constructor|done]|]); [done|].
  apply existsb_exists in H as (s1 & Hin & H1). apply list_elem_of_In in Hin. destruct (IH s1 H1) as (s2 & H2 & HP). exists s2. split; [|done].
  clear -Hin H2. induction H2 as [|x y _ IH2 Hn]; [eapply reach_step; [constructor|done]|by eapply reach_step].
Qed.
End Explore.
End Explore.
