(* ===== verification/Endian.v ===== *)
(** * Byte order: src/mynetlib/net/Endian.h

    The host is little endian (the Makefiles build for x86-64): an [n]-byte
    integer lies in memory as [le_bytes n], and [htobe64] and its siblings
    reverse those bytes. *)

From S2P Require Import Prelude.

(** The memory image of an [n]-byte integer, and the integer a memory image holds. *)
Fixpoint le_bytes (n : nat) (z : Z) : list byte :=
  match n with
  | O => []
  | S n' => byte_of_Z z :: le_bytes n' (z / 256)
  end.

Fixpoint le_value (l : list byte) : Z :=
  match l with
  | [] => 0
  | b :: l' => byte_to_Z b + 256 * le_value l'
  end.

(** [htobe64], [be64toh] and the narrower ones, on an [n]-byte unsigned value. *)
Definition bswap (n : nat) (z : Z) : Z := le_value (rev (le_bytes n z)).

Definition hostToNetwork64 (host64 : Z) : Z := bswap 8 host64.
Definition hostToNetwork32 (host32 : Z) : Z := bswap 4 host32.
Definition hostToNetwork16 (host16 : Z) : Z := bswap 2 host16.
Definition networkToHost64 (net64 : Z) : Z := bswap 8 net64.
Definition networkToHost32 (net32 : Z) : Z := bswap 4 net32.
Definition networkToHost16 (net16 : Z) : Z := bswap 2 net16.

Lemma length_le_bytes n z : length (le_bytes n z) = n.
Proof. revert z. induction n; intros; cbn; auto. Qed.

Lemma zlen_le_bytes n z : zlen (le_bytes n z) = Z.of_nat n.
Proof. unfold zlen. by rewrite length_le_bytes. Qed.

Lemma pow256_S n : 256 ^ Z.of_nat (S n) = 256 * 256 ^ Z.of_nat n.
Proof. rewrite Nat2Z.inj_succ, Z.pow_succ_r by lia. done. Qed.

Lemma le_value_range l : 0 <= le_value l < 256 ^ zlen l.
Proof.
  unfold zlen. induction l as [|b l IH]; cbn [le_value length]; [lia|].
  rewrite pow256_S. pose proof (byte_to_Z_range b). nia.
Qed.

Lemma le_value_bytes n z : le_value (le_bytes n z) = z mod 256 ^ Z.of_nat n.
Proof.
  revert z. induction n as [|n IH]; intros z; cbn [le_value le_bytes].
  - by rewrite Z.mod_1_r.
  - rewrite IH, byte_to_of_Z, pow256_S, Z.rem_mul_r by lia. done.
Qed.

Lemma le_bytes_value l : le_bytes (length l) (le_value l) = l.
Proof.
  induction l as [|b l IH]; [done|]. cbn [le_value le_bytes length].
  pose proof (byte_to_Z_range b) as Hb. f_equal.
  - rewrite <- (byte_of_to_Z b) at 2. unfold byte_of_Z. do 3 f_equal.
    rewrite Z.mul_comm, Z.mod_add by lia. done.
  - rewrite Z.add_comm, Z.mul_comm, Z.div_add_l by lia.
    rewrite (Z.div_small (byte_to_Z b)) by lia. by rewrite Z.add_0_r.
Qed.

Lemma le_bytes_mod n z : le_bytes n (z mod 256 ^ Z.of_nat n) = le_bytes n z.
Proof.
  rewrite <- le_value_bytes. rewrite <- (length_le_bytes n z) at 1.
  apply le_bytes_value.
Qed.

Lemma bswap_range n z : 0 <= bswap n z < 256 ^ Z.of_nat n.
Proof.
  unfold bswap. pose proof (le_value_range (rev (le_bytes n z))) as H.
  unfold zlen in H. by rewrite length_rev, length_le_bytes in H.
Qed.

(** The image of a swapped value is the reversed image. *)
Lemma le_bytes_bswap n z : le_bytes n (bswap n z) = rev (le_bytes n z).
Proof.
  unfold bswap.
  rewrite <- (le_bytes_value (rev (le_bytes n z))) at 2.
  by rewrite length_rev, length_le_bytes.
Qed.

Lemma bswap_involutive n z : bswap n (bswap n z) = z mod 256 ^ Z.of_nat n.
Proof.
  unfold bswap at 1. rewrite le_bytes_bswap, rev_involutive. apply le_value_bytes.
Qed.

(** Reading back the image of a signed [n]-byte value. *)
Lemma le_value_signed n z :
  le_value (le_bytes n (signed (8 * Z.of_nat n) z)) = z mod 256 ^ Z.of_nat n.
Proof.
  rewrite le_value_bytes. unfold signed.
  replace (2 ^ (8 * Z.of_nat n)) with (256 ^ Z.of_nat n)
    by (change 256 with (2 ^ 8); rewrite <- Z.pow_mul_r by lia; done).
  rewrite Zminus_mod_idemp_l. f_equal. lia.
Qed.

Lemma le_bytes_signed n z :
  le_bytes n (signed (8 * Z.of_nat n) z) = le_bytes n z.
Proof.
  rewrite <- le_bytes_mod, <- le_value_bytes, le_value_signed. apply le_bytes_mod.
Qed.

#[export] Hint Rewrite zlen_le_bytes length_le_bytes le_bytes_bswap : easylib.
