(* ===== verification/Buffer.v ===== *)
(** * Buffer: src/mynetlib/net/Buffer.h and Buffer.cc

    The growable byte buffer between sockets and message handlers. The
    record keeps the vector and the two [size_t] indexes of the class; a
    [const char*] into the vector is the index of the byte it points at.
    Arithmetic on [size_t] wraps at 64 bits, assertions are checked, and a
    copy that leaves the vector is a fault. *)

From S2P Require Import Prelude Endian.

Record Buffer : Type := mkBuffer {
  buffer_ : list byte;
  readerIndex_ : Z;
  writerIndex_ : Z;
}.

Definition kCheapPrepend : Z := 8.
Definition kInitialSize : Z := 1024.
Definition kCRLF : list byte := [Byte.x0d; Byte.x0a].

(** [vector(n)] value-initialises its chars to zero. *)
Definition zero_vector (n : Z) : list byte := replicate (Z.to_nat n) Byte.x00.

Definition readableBytes (b : Buffer) : Z := u64 (writerIndex_ b - readerIndex_ b).
Definition writableBytes (b : Buffer) : Z := u64 (zlen (buffer_ b) - writerIndex_ b).
Definition prependableBytes (b : Buffer) : Z := readerIndex_ b.
Definition peek (b : Buffer) : Z := readerIndex_ b.
Definition beginWrite (b : Buffer) : Z := writerIndex_ b.

Definition Buffer_ctor (initialSize : Z) : outcome Buffer :=
  let n := u64 (kCheapPrepend + initialSize) in
  vec ← (if n <=? max_size then Ok (zero_vector n) else Fail LengthError);
  let b := mkBuffer vec kCheapPrepend kCheapPrepend in
  c_assert (readableBytes b =? 0);;
  c_assert (writableBytes b =? initialSize);;
  c_assert (prependableBytes b =? kCheapPrepend);;
  Ok b.

(** [a.swap(b)] as the pair of new values. *)
Definition swap (a b : Buffer) : Buffer * Buffer :=
  (mkBuffer (buffer_ b) (readerIndex_ b) (writerIndex_ b),
   mkBuffer (buffer_ a) (readerIndex_ a) (writerIndex_ a)).

(** [std::search(first, last, pat, pat+m)] as an offset from [first]; the
    length of [hay] stands for [last], the not-found answer. *)
Fixpoint std_search (hay pat : list byte) : Z :=
  if byte_list_eqb (take (length pat) hay) pat then 0
  else match hay with
       | [] => 0
       | _ :: hay' => 1 + std_search hay' pat
       end.

(** [memchr(first, c, n)] as an offset from [first]. *)
Fixpoint memchr (hay : list byte) (c : byte) : option Z :=
  match hay with
  | [] => None
  | x :: hay' => if byte_eqb x c then Some 0 else Z.succ <$> memchr hay' c
  end.

Definition search_crlf (b : Buffer) (start : Z) : option Z :=
  let crlf := start + std_search (slice (buffer_ b) start (beginWrite b)) kCRLF in
  if crlf =? beginWrite b then None else Some crlf.

Definition findCRLF (b : Buffer) : option Z := search_crlf b (peek b).

Definition findCRLF_from (b : Buffer) (start : Z) : outcome (option Z) :=
  c_assert (peek b <=? start);;
  c_assert (start <=? beginWrite b);;
  Ok (search_crlf b start).

Definition findEOL (b : Buffer) : option Z :=
  Z.add (peek b) <$> memchr (slice (buffer_ b) (peek b) (peek b + readableBytes b)) Byte.x0a.

Definition findEOL_from (b : Buffer) (start : Z) : outcome (option Z) :=
  c_assert (peek b <=? start);;
  c_assert (start <=? beginWrite b);;
  Ok (Z.add start <$> memchr (slice (buffer_ b) start (beginWrite b)) Byte.x0a).

Definition retrieveAll (b : Buffer) : Buffer :=
  mkBuffer (buffer_ b) kCheapPrepend kCheapPrepend.

Definition retrieve (b : Buffer) (len : Z) : outcome Buffer :=
  c_assert (len <=? readableBytes b);;
  if len <? readableBytes b
  then Ok (mkBuffer (buffer_ b) (u64 (readerIndex_ b + len)) (writerIndex_ b))
  else Ok (retrieveAll b).

Definition retrieveUntil (b : Buffer) (end_ : Z) : outcome Buffer :=
  c_assert (peek b <=? end_);;
  c_assert (end_ <=? beginWrite b);;
  retrieve b (end_ - peek b).

Definition retrieveInt64 (b : Buffer) : outcome Buffer := retrieve b 8.
Definition retrieveInt32 (b : Buffer) : outcome Buffer := retrieve b 4.
Definition retrieveInt16 (b : Buffer) : outcome Buffer := retrieve b 2.
Definition retrieveInt8 (b : Buffer) : outcome Buffer := retrieve b 1.

(** Reading [len] bytes from an index of the vector. *)
Definition read_at (b : Buffer) (pos len : Z) : outcome (list byte) :=
  if (0 <=? pos) && (pos + len <=? zlen (buffer_ b))
  then Ok (slice (buffer_ b) pos (pos + len))
  else Fail OutOfBounds.

Definition retrieveAsString (b : Buffer) (len : Z) : outcome (list byte * Buffer) :=
  c_assert (len <=? readableBytes b);;
  result ← read_at b (peek b) len;
  b' ← retrieve b len;
  Ok (result, b').

Definition retrieveAllAsString (b : Buffer) : outcome (list byte * Buffer) :=
  retrieveAsString b (readableBytes b).

(** A [StringPiece]: the memory from its pointer on, and its [int] length. *)
Definition toStringPiece (b : Buffer) : list byte * Z :=
  (slice (buffer_ b) (peek b) (writerIndex_ b), s32 (readableBytes b)).

Definition makeSpace (b : Buffer) (len : Z) : outcome Buffer :=
  if u64 (writableBytes b + prependableBytes b) <? u64 (len + kCheapPrepend)
  then
    vec ← vec_resize Byte.x00 (buffer_ b) (u64 (writerIndex_ b + len));
    Ok (mkBuffer vec (readerIndex_ b) (writerIndex_ b))
  else
    c_assert (kCheapPrepend <? readerIndex_ b);;
    let readable := readableBytes b in
    vec ← copy_into (buffer_ b) kCheapPrepend
            (slice (buffer_ b) (readerIndex_ b) (writerIndex_ b));
    let b' := mkBuffer vec kCheapPrepend (u64 (kCheapPrepend + readable)) in
    c_assert (readable =? readableBytes b');;
    Ok b'.

Definition ensureWritableBytes (b : Buffer) (len : Z) : outcome Buffer :=
  b' ← (if writableBytes b <? len then makeSpace b len else Ok b);
  c_assert (len <=? writableBytes b');;
  Ok b'.

Definition hasWritten (b : Buffer) (len : Z) : outcome Buffer :=
  c_assert (len <=? writableBytes b);;
  Ok (mkBuffer (buffer_ b) (readerIndex_ b) (u64 (writerIndex_ b + len))).

Definition unwrite (b : Buffer) (len : Z) : outcome Buffer :=
  c_assert (len <=? readableBytes b);;
  Ok (mkBuffer (buffer_ b) (readerIndex_ b) (u64 (writerIndex_ b - len))).

(** [append(data, len)]; [data] is the memory the pointer leads to. *)
Definition append (b : Buffer) (data : list byte) (len : Z) : outcome Buffer :=
  b1 ← ensureWritableBytes b len;
  src ← (if len <=? zlen data then Ok (take (Z.to_nat len) data) else Fail OutOfBounds);
  vec ← copy_into (buffer_ b1) (beginWrite b1) src;
  hasWritten (mkBuffer vec (readerIndex_ b1) (writerIndex_ b1)) len.

(** [append(const StringPiece&)]: the [int] size becomes a [size_t]. *)
Definition append_piece (b : Buffer) (str : list byte * Z) : outcome Buffer :=
  append b str.1 (u64 str.2).

(** [append] of an object: all of its bytes. *)
Definition append_obj (b : Buffer) (data : list byte) : outcome Buffer :=
  append b data (zlen data).

Definition appendInt64 (b : Buffer) (x : Z) : outcome Buffer :=
  let be64 := s64 (hostToNetwork64 (u64 x)) in append_obj b (le_bytes 8 be64).

Definition appendInt32 (b : Buffer) (x : Z) : outcome Buffer :=
  let be32 := s32 (hostToNetwork32 (u32 x)) in append_obj b (le_bytes 4 be32).

Definition appendInt16 (b : Buffer) (x : Z) : outcome Buffer :=
  let be16 := s16 (hostToNetwork16 (u16 x)) in append_obj b (le_bytes 2 be16).

Definition appendInt8 (b : Buffer) (x : Z) : outcome Buffer :=
  append_obj b (le_bytes 1 x).

Definition peekInt64 (b : Buffer) : outcome Z :=
  c_assert (8 <=? readableBytes b);;
  mem ← read_at b (peek b) 8;
  let be64 := s64 (le_value mem) in Ok (s64 (networkToHost64 (u64 be64))).

Definition peekInt32 (b : Buffer) : outcome Z :=
  c_assert (4 <=? readableBytes b);;
  mem ← read_at b (peek b) 4;
  let be32 := s32 (le_value mem) in Ok (s32 (networkToHost32 (u32 be32))).

Definition peekInt16 (b : Buffer) : outcome Z :=
  c_assert (2 <=? readableBytes b);;
  mem ← read_at b (peek b) 2;
  let be16 := s16 (le_value mem) in Ok (s16 (networkToHost16 (u16 be16))).

Definition peekInt8 (b : Buffer) : outcome Z :=
  c_assert (1 <=? readableBytes b);;
  mem ← read_at b (peek b) 1;
  Ok (s8 (le_value mem)).

Definition readInt64 (b : Buffer) : outcome (Z * Buffer) :=
  result ← peekInt64 b; b' ← retrieveInt64 b; Ok (result, b').

Definition readInt32 (b : Buffer) : outcome (Z * Buffer) :=
  result ← peekInt32 b; b' ← retrieveInt32 b; Ok (result, b').

Definition readInt16 (b : Buffer) : outcome (Z * Buffer) :=
  result ← peekInt16 b; b' ← retrieveInt16 b; Ok (result, b').

Definition readInt8 (b : Buffer) : outcome (Z * Buffer) :=
  result ← peekInt8 b; b' ← retrieveInt8 b; Ok (result, b').

Definition prepend (b : Buffer) (data : list byte) : outcome Buffer :=
  let len := zlen data in
  c_assert (len <=? prependableBytes b);;
  let r := u64 (readerIndex_ b - len) in
  vec ← copy_into (buffer_ b) r data;
  Ok (mkBuffer vec r (writerIndex_ b)).

Definition prependInt64 (b : Buffer) (x : Z) : outcome Buffer :=
  let be64 := s64 (hostToNetwork64 (u64 x)) in prepend b (le_bytes 8 be64).

Definition prependInt32 (b : Buffer) (x : Z) : outcome Buffer :=
  let be32 := s32 (hostToNetwork32 (u32 x)) in prepend b (le_bytes 4 be32).

Definition prependInt16 (b : Buffer) (x : Z) : outcome Buffer :=
  let be16 := s16 (hostToNetwork16 (u16 x)) in prepend b (le_bytes 2 be16).

Definition prependInt8 (b : Buffer) (x : Z) : outcome Buffer :=
  prepend b (le_bytes 1 x).

Definition shrink (b : Buffer) (reserve : Z) : outcome Buffer :=
  other ← Buffer_ctor kInitialSize;
  other ← ensureWritableBytes other (u64 (readableBytes b + reserve));
  other ← append_piece other (toStringPiece b);
  Ok (swap b other).1.

(** What [readv(2)] answers for a list of iovec lengths: its return value,
    [errno] when that is negative, and the bytes it scatters. *)
Record readv_result : Type := mkReadv {
  rv_n : Z;
  rv_errno : Z;
  rv_data : list byte;
}.

Definition sizeof_extrabuf : Z := 65536.

Definition readFd_iov (b : Buffer) : list Z :=
  let writable := writableBytes b in
  if writable <? sizeof_extrabuf then [writable; sizeof_extrabuf] else [writable].

(** [readFd(fd, &savedErrno)]: the return value, the saved errno when it is
    written, and the new buffer. [readv] stands for the kernel's answer. *)
Definition readFd (readv : list Z -> readv_result) (b : Buffer) :
    outcome (Z * option Z * Buffer) :=
  let writable := writableBytes b in
  let r := readv (readFd_iov b) in
  let n := rv_n r in
  vec ← copy_into (buffer_ b) (writerIndex_ b) (take (Z.to_nat writable) (rv_data r));
  let b0 := mkBuffer vec (readerIndex_ b) (writerIndex_ b) in
  let extrabuf := drop (Z.to_nat writable) (rv_data r) in
  if n <? 0 then Ok (n, Some (rv_errno r), b0)
  else if n <=? writable
  then Ok (n, None, mkBuffer vec (readerIndex_ b) (u64 (writerIndex_ b + n)))
  else
    b' ← append (mkBuffer vec (readerIndex_ b) (zlen vec)) extrabuf (u64 (n - writable));
    Ok (n, None, b').

(** ** The class invariant and what the buffer holds *)

(** The diagram of the class comment: [0 <= readerIndex <= writerIndex <= size]. *)
Definition wf (b : Buffer) : Prop :=
  0 <= readerIndex_ b <= writerIndex_ b /\
  writerIndex_ b <= zlen (buffer_ b) /\
  kCheapPrepend <= zlen (buffer_ b) <= max_size.

(** The readable bytes (CONTENT in the diagram). *)
Definition readable (b : Buffer) : list byte :=
  slice (buffer_ b) (readerIndex_ b) (writerIndex_ b).

Ltac buf :=
  unfold wf, max_size, kCheapPrepend, kInitialSize in *; cbn [buffer_ readerIndex_ writerIndex_] in *.

Lemma readableBytes_wf b : wf b -> readableBytes b = writerIndex_ b - readerIndex_ b.
Proof. intros. unfold readableBytes. buf. apply u64_small. lia. Qed.

Lemma writableBytes_wf b : wf b -> writableBytes b = zlen (buffer_ b) - writerIndex_ b.
Proof. intros. unfold writableBytes. buf. apply u64_small. lia. Qed.

Lemma zlen_readable b : wf b -> zlen (readable b) = readableBytes b.
Proof.
  intros H. rewrite readableBytes_wf by done. unfold readable. buf. apply zlen_slice; lia.
Qed.

Lemma zlen_zero_vector n : 0 <= n -> zlen (zero_vector n) = n.
Proof. intros. unfold zlen, zero_vector. rewrite length_replicate. lia. Qed.

Lemma zlen_vec_resize {A} (x : A) l n l' :
  vec_resize x l n = Ok l' -> zlen l <= n -> zlen l' = n.
Proof.
  unfold vec_resize. zcases; try done. intros [= <-] ?.
  unfold zlen in *. rewrite length_app, length_take, length_replicate. lia.
Qed.

(** Growing a vector leaves its old elements in place. *)
Lemma slice_vec_resize {A} (x : A) l n l' i j :
  vec_resize x l n = Ok l' -> zlen l <= n -> 0 <= i <= j -> j <= zlen l ->
  slice l' i j = slice l i j.
Proof.
  unfold vec_resize. zcases; try done. intros [= <-] ???.
  unfold slice, zlen in *. rewrite (take_ge l) by lia.
  rewrite drop_app_le by lia. rewrite take_app_le by (rewrite length_drop; lia). done.
Qed.

Lemma Buffer_ctor_ok n : 0 <= n -> n + 8 <= max_size ->
  exists b, Buffer_ctor n = Ok b /\ wf b /\ readable b = [] /\
    readerIndex_ b = kCheapPrepend /\ zlen (buffer_ b) = n + 8.
Proof.
  intros Hn Hm. unfold Buffer_ctor. unfold max_size in *.
  rewrite (u64_small (kCheapPrepend + n)) by (buf; lia).
  destruct (Z.leb_spec (kCheapPrepend + n) (2 ^ 63 - 1)); [|buf; lia].
  run. set (b := mkBuffer (zero_vector (kCheapPrepend + n)) kCheapPrepend kCheapPrepend).
  assert (zlen (buffer_ b) = n + 8) as Hl
    by (subst b; cbn; rewrite zlen_zero_vector by (buf; lia); buf; lia).
  assert (wf b) as Hwf by (unfold wf; rewrite Hl; subst b; buf; lia).
  rewrite readableBytes_wf, writableBytes_wf, Hl by done.
  exists b. subst b. buf. rewrite Z.sub_diag.
  replace (n + 8 - 8 =? n) with true by lia.
  repeat split; try done; lia.
Qed.

Lemma retrieveAll_wf b : wf b -> wf (retrieveAll b) /\ readable (retrieveAll b) = [].
Proof. intros. unfold retrieveAll, readable. buf. split; [lia | apply slice_nil]. Qed.

Lemma retrieve_ok b len : wf b -> 0 <= len <= readableBytes b ->
  exists b', retrieve b len = Ok b' /\ wf b' /\
    readable b' = drop (Z.to_nat len) (readable b) /\ buffer_ b' = buffer_ b.
Proof.
  intros Hwf Hlen. unfold retrieve. run.
  destruct (Z.leb_spec len (readableBytes b)); [run|lia].
  pose proof (zlen_readable b Hwf) as Hz. pose proof (readableBytes_wf b Hwf) as Hr.
  destruct (Z.ltb_spec len (readableBytes b)).
  - eexists. split; [done|]. unfold readable. buf. rewrite u64_small by lia.
    repeat split; try lia. rewrite slice_drop by lia. done.
  - exists (retrieveAll b). pose proof (retrieveAll_wf b Hwf) as [? ->].
    split; [done|]. split; [done|]. split; [|done].
    symmetry. apply drop_ge. unfold zlen in Hz. lia.
Qed.

Lemma read_at_ok b len : wf b -> 0 <= len <= readableBytes b ->
  read_at b (peek b) len = Ok (take (Z.to_nat len) (readable b)).
Proof.
  intros Hwf Hlen. unfold read_at, readable, peek.
  rewrite readableBytes_wf in Hlen by done.
  destruct (Z.leb_spec 0 (readerIndex_ b)); [|buf; lia].
  destruct (Z.leb_spec (readerIndex_ b + len) (zlen (buffer_ b))); [|buf; lia].
  cbn. f_equal. apply slice_take; lia.
Qed.

(** [makeSpace] is called only when the tail is too short. *)
Lemma makeSpace_ok b len :
  wf b -> writableBytes b < len -> writerIndex_ b + len <= max_size ->
  exists b', makeSpace b len = Ok b' /\ wf b' /\ readable b' = readable b /\
    len <= writableBytes b' /\ Z.min kCheapPrepend (readerIndex_ b) <= readerIndex_ b' /\
    zlen (buffer_ b') <= Z.max (zlen (buffer_ b)) (writerIndex_ b + len).
Proof.
  intros Hwf Hlt Hmax. unfold makeSpace, prependableBytes.
  pose proof (writableBytes_wf b Hwf) as Hw. pose proof (readableBytes_wf b Hwf) as Hr.
  rewrite Hr, Hw in *. unfold max_size in *.
  rewrite (u64_small (writerIndex_ b + len)) by (buf; lia).
  rewrite (u64_small (_ + readerIndex_ b)) by (buf; lia).
  rewrite (u64_small (len + _)) by (buf; lia).
  destruct (Z.ltb_spec (zlen (buffer_ b) - writerIndex_ b + readerIndex_ b) (len + kCheapPrepend)).
  - destruct (vec_resize Byte.x00 (buffer_ b) (writerIndex_ b + len)) as [vec|] eqn:E.
    2: { unfold vec_resize in E. destruct (Z.leb_spec (writerIndex_ b + len) max_size);
         [done | buf; lia]. }
    pose proof (zlen_vec_resize _ _ _ _ E ltac:(buf; lia)) as Hl. run.
    eexists. split; [done|].
    assert (wf (mkBuffer vec (readerIndex_ b) (writerIndex_ b))) as Hwf' by (buf; lia).
    rewrite (writableBytes_wf _ Hwf'). unfold readable. cbn.
    rewrite (slice_vec_resize _ _ _ _ _ _ E) by (buf; lia).
    repeat split; try done; buf; lia.
  - destruct (Z.ltb_spec kCheapPrepend (readerIndex_ b)); [|buf; lia]. run.
    assert (zlen (slice (buffer_ b) (readerIndex_ b) (writerIndex_ b))
            = writerIndex_ b - readerIndex_ b) as Hs by (apply zlen_slice; buf; lia).
    destruct (copy_into (buffer_ b) kCheapPrepend _) as [vec|] eqn:E.
    2: { rewrite copy_into_ok in E by (rewrite ?Hs; buf; lia). done. }
    pose proof (zlen_copy_into _ _ _ _ E) as Hl. apply slice_copy_into in E. run.
    rewrite (u64_small (kCheapPrepend + _)) by (buf; lia).
    set (b' := mkBuffer vec kCheapPrepend (kCheapPrepend + (writerIndex_ b - readerIndex_ b))).
    assert (wf b') as Hwf' by (subst b'; buf; lia).
    rewrite (readableBytes_wf _ Hwf').
    replace (writerIndex_ b - readerIndex_ b =? writerIndex_ b' - readerIndex_ b')
      with true by (subst b'; cbn; lia).
    exists b'. rewrite (writableBytes_wf _ Hwf'). unfold readable.
    repeat split; try done; try (subst b'; buf; lia).
    subst b'. cbn [buffer_ readerIndex_ writerIndex_]. by rewrite Hs in E.
Qed.

Lemma ensureWritableBytes_ok b len :
  wf b -> 0 <= len -> writerIndex_ b + len <= max_size ->
  exists b', ensureWritableBytes b len = Ok b' /\ wf b' /\ readable b' = readable b /\
    len <= writableBytes b' /\ Z.min kCheapPrepend (readerIndex_ b) <= readerIndex_ b' /\
    zlen (buffer_ b') <= Z.max (zlen (buffer_ b)) (writerIndex_ b + len).
Proof.
  intros Hwf H0 Hmax. unfold ensureWritableBytes.
  destruct (Z.ltb_spec (writableBytes b) len).
  - destruct (makeSpace_ok b len) as (b' & -> & Hwf' & Hr & Hw & Hh & Hl); try done.
    run. destruct (Z.leb_spec len (writableBytes b')); [|lia]. run.
    exists b'. split_and!; done.
  - run. destruct (Z.leb_spec len (writableBytes b)); [|lia]. run.
    exists b. split_and!; first [done | lia].
Qed.

(** Bytes written directly behind the content, then made readable. *)
Lemma write_tail_ok b data :
  wf b -> zlen data <= writableBytes b ->
  exists vec, copy_into (buffer_ b) (beginWrite b) data = Ok vec /\
    writableBytes (mkBuffer vec (readerIndex_ b) (writerIndex_ b)) = writableBytes b /\
    let b' := mkBuffer vec (readerIndex_ b) (writerIndex_ b + zlen data) in
    hasWritten (mkBuffer vec (readerIndex_ b) (writerIndex_ b)) (zlen data) = Ok b' /\
    wf b' /\ readable b' = readable b ++ data /\ zlen vec = zlen (buffer_ b).
Proof.
  intros Hwf Hw. rewrite (writableBytes_wf b Hwf) in *. pose proof (zlen_nonneg data).
  destruct (copy_into (buffer_ b) (beginWrite b) data) as [vec|] eqn:E.
  2: { rewrite copy_into_ok in E; [done | |]; unfold beginWrite; buf; lia. }
  unfold beginWrite in *.
  pose proof (zlen_copy_into _ _ _ _ E) as Hl. pose proof (slice_copy_into _ _ _ _ E) as Hnew.
  pose proof (slice_copy_before _ _ _ _ (readerIndex_ b) (writerIndex_ b) E
    ltac:(buf; lia) ltac:(buf; lia)) as Hold.
  assert (wf (mkBuffer vec (readerIndex_ b) (writerIndex_ b))) as Hwf2 by (buf; lia).
  exists vec. split; [done|]. unfold hasWritten.
  rewrite (writableBytes_wf _ Hwf2). cbn [buffer_ readerIndex_ writerIndex_].
  rewrite (u64_small (writerIndex_ b + _)) by (buf; lia).
  destruct (Z.leb_spec (zlen data) (zlen vec - writerIndex_ b)); [run|lia].
  split; [lia|]. split; [done|]. split; [buf; lia|]. split; [|done].
  unfold readable. cbn [buffer_ readerIndex_ writerIndex_].
  by rewrite (slice_split _ _ (writerIndex_ b)), Hnew, Hold by (buf; lia).
Qed.

Lemma append_ok b data len :
  wf b -> 0 <= len <= zlen data -> writerIndex_ b + len <= max_size ->
  exists b', append b data len = Ok b' /\ wf b' /\
    readable b' = readable b ++ take (Z.to_nat len) data /\
    Z.min kCheapPrepend (readerIndex_ b) <= readerIndex_ b' /\
    zlen (buffer_ b') <= Z.max (zlen (buffer_ b)) (writerIndex_ b + len).
Proof.
  intros Hwf Hlen Hmax. unfold append.
  destruct (ensureWritableBytes_ok b len) as (b1 & -> & Hwf1 & Hr1 & Hw1 & Hh1 & Hl1); try done; try lia.
  run. destruct (Z.leb_spec len (zlen data)); [run|lia].
  assert (zlen (take (Z.to_nat len) data) = len) as Ht
    by (unfold zlen in *; rewrite length_take; lia).
  destruct (write_tail_ok b1 (take (Z.to_nat len) data)) as (vec & -> & _ & Hh & Hwf2 & Hr2 & Hl); [done|lia|].
  run. rewrite Ht in *. rewrite Hh. eexists. split; [done|].
  split; [done|]. split; [by rewrite Hr2, Hr1|]. cbn [buffer_ readerIndex_]. lia.
Qed.

Lemma append_obj_ok b data :
  wf b -> writerIndex_ b + zlen data <= max_size ->
  exists b', append_obj b data = Ok b' /\ wf b' /\ readable b' = readable b ++ data /\
    Z.min kCheapPrepend (readerIndex_ b) <= readerIndex_ b' /\
    zlen (buffer_ b') <= Z.max (zlen (buffer_ b)) (writerIndex_ b + zlen data).
Proof.
  intros Hwf Hm. pose proof (zlen_nonneg data).
  destruct (append_ok b data (zlen data)) as (b' & Ha & ? & Hr & ? & ?); [done|lia|done|].
  exists b'. split_and!; try done. rewrite Hr. f_equal. apply take_ge. unfold zlen. lia.
Qed.

Lemma prepend_ok b data :
  wf b -> zlen data <= prependableBytes b ->
  exists b', prepend b data = Ok b' /\ wf b' /\ readable b' = data ++ readable b /\
    readerIndex_ b' = readerIndex_ b - zlen data /\ zlen (buffer_ b') = zlen (buffer_ b).
Proof.
  intros Hwf Hlen. unfold prepend. pose proof (zlen_nonneg data) as H0.
  destruct (Z.leb_spec (zlen data) (prependableBytes b)); [run|lia].
  unfold prependableBytes in *. rewrite u64_small by (buf; lia).
  destruct (copy_into (buffer_ b) (readerIndex_ b - zlen data) data) as [vec|] eqn:E.
  2: { rewrite copy_into_ok in E by (buf; lia). done. }
  pose proof (zlen_copy_into _ _ _ _ E) as Hl.
  pose proof (slice_copy_into _ _ _ _ E) as Hnew. rewrite Z.sub_add in Hnew.
  pose proof (slice_copy_after _ _ _ _ (readerIndex_ b) (writerIndex_ b) E ltac:(lia)) as Hold.
  run. eexists. split_and!; [done| buf; lia | | done | done].
  unfold readable at 1. cbn [buffer_ readerIndex_ writerIndex_].
  rewrite (slice_split _ _ (readerIndex_ b)), Hnew, Hold by (buf; lia). done.
Qed.

Lemma unwrite_ok b len : wf b -> 0 <= len <= readableBytes b ->
  exists b', unwrite b len = Ok b' /\ wf b' /\
    readable b' = take (Z.to_nat (zlen (readable b) - len)) (readable b) /\
    readerIndex_ b' = readerIndex_ b /\ buffer_ b' = buffer_ b.
Proof.
  intros Hwf Hlen. unfold unwrite.
  destruct (Z.leb_spec len (readableBytes b)); [run|lia].
  rewrite zlen_readable, readableBytes_wf in * by done.
  rewrite u64_small by (buf; lia). eexists. split_and!; [done | buf; lia | | done | done].
  unfold readable at 1. cbn [buffer_ readerIndex_ writerIndex_]. unfold readable.
  rewrite <- slice_take by lia. f_equal. lia.
Qed.

Lemma retrieveAsString_ok b len : wf b -> 0 <= len <= readableBytes b ->
  exists b', retrieveAsString b len = Ok (take (Z.to_nat len) (readable b), b') /\
    retrieve b len = Ok b'.
Proof.
  intros Hwf Hlen. unfold retrieveAsString.
  destruct (Z.leb_spec len (readableBytes b)); [run|lia].
  rewrite read_at_ok by done. run.
  destruct (retrieve_ok b len) as (b' & E & _); [done..|]. rewrite E. run. eauto.
Qed.

Lemma retrieve_headroom b b' len : wf b -> 0 <= len -> retrieve b len = Ok b' ->
  Z.min kCheapPrepend (readerIndex_ b) <= readerIndex_ b'.
Proof.
  intros Hwf H0. unfold retrieve. run.
  destruct (Z.leb_spec len (readableBytes b)); run; [|done].
  destruct (Z.ltb_spec len (readableBytes b)); intros [= <-]; cbn; [|buf; lia].
  rewrite readableBytes_wf in * by done. rewrite u64_small by (buf; lia). buf. lia.
Qed.

(** ** Integers in network order *)

(** The [n] bytes of [x], most significant first. *)
Definition be_bytes (n : nat) (x : Z) : list byte := rev (le_bytes n x).

Lemma zlen_be_bytes n x : zlen (be_bytes n x) = Z.of_nat n.
Proof. unfold be_bytes, zlen. by rewrite length_rev, length_le_bytes. Qed.

(** What goes through memory when an integer is converted and stored. *)
Lemma stored_be n x :
  le_bytes n (signed (8 * Z.of_nat n) (bswap n (x mod 256 ^ Z.of_nat n))) = be_bytes n x.
Proof. by rewrite le_bytes_signed, le_bytes_bswap, le_bytes_mod. Qed.

(** What comes back when those bytes are loaded and converted. *)
Lemma loaded_be n x : (0 < n)%nat ->
  let w := 8 * Z.of_nat n in
  signed w (bswap n (signed w (le_value (be_bytes n x)) mod 256 ^ Z.of_nat n)) = signed w x.
Proof.
  intros Hn w.
  assert (256 ^ Z.of_nat n = 2 ^ w) as Hp
    by (subst w; change 256 with (2 ^ 8); rewrite <- Z.pow_mul_r by lia; done).
  rewrite Hp. assert (signed w (le_value (be_bytes n x)) mod 2 ^ w = bswap n x) as ->.
  { unfold signed. rewrite Zminus_mod_idemp_l, Z.add_simpl_r.
    change (le_value (be_bytes n x)) with (bswap n x).
    apply Z.mod_small. rewrite <- Hp. apply bswap_range. }
  rewrite bswap_involutive, Hp. apply signed_mod. subst w. lia.
Qed.

Inductive width : Set := W8 | W16 | W32 | W64.

Definition width_bytes (w : width) : nat :=
  match w with W8 => 1 | W16 => 2 | W32 => 4 | W64 => 8 end.

Definition width_bits (w : width) : Z := 8 * Z.of_nat (width_bytes w).

Definition in_width (w : width) (x : Z) : Prop :=
  - 2 ^ (width_bits w - 1) <= x < 2 ^ (width_bits w - 1).

Definition appendInt (w : width) : Buffer -> Z -> outcome Buffer :=
  match w with W8 => appendInt8 | W16 => appendInt16 | W32 => appendInt32 | W64 => appendInt64 end.

Definition prependInt (w : width) : Buffer -> Z -> outcome Buffer :=
  match w with W8 => prependInt8 | W16 => prependInt16 | W32 => prependInt32 | W64 => prependInt64 end.

Definition readInt (w : width) : Buffer -> outcome (Z * Buffer) :=
  match w with W8 => readInt8 | W16 => readInt16 | W32 => readInt32 | W64 => readInt64 end.

Lemma appendInt_obj w b x : appendInt w b x = append_obj b (be_bytes (width_bytes w) x).
Proof.
  destruct w; [done | ..];
    cbn [appendInt width_bytes]; rewrite <- stored_be; done.
Qed.

Lemma prependInt_bytes w b x : prependInt w b x = prepend b (be_bytes (width_bytes w) x).
Proof.
  destruct w; [done | ..];
    cbn [prependInt width_bytes]; rewrite <- stored_be; done.
Qed.

Lemma readInt_ok w b x rest :
  wf b -> in_width w x -> readable b = be_bytes (width_bytes w) x ++ rest ->
  exists b', readInt w b = Ok (x, b') /\ wf b' /\ readable b' = rest.
Proof.
  intros Hwf Hx Hr.
  assert (Z.of_nat (width_bytes w) <= readableBytes b) as Hlen.
  { rewrite <- zlen_readable, Hr, zlen_app, zlen_be_bytes by done.
    pose proof (zlen_nonneg rest). lia. }
  destruct (retrieve_ok b (Z.of_nat (width_bytes w))) as (b' & E & Hwf' & Hr' & _); [done|lia|].
  assert (take (width_bytes w) (readable b) = be_bytes (width_bytes w) x) as Ht.
  { rewrite Hr. apply take_app_length'. unfold be_bytes. by rewrite length_rev, length_le_bytes. }
  rewrite Nat2Z.id, Hr, drop_app_length' in Hr'
    by (unfold be_bytes; by rewrite length_rev, length_le_bytes).
  exists b'. split; [|done].
  pose proof (read_at_ok b (Z.of_nat (width_bytes w)) Hwf ltac:(lia)) as Hread.
  rewrite Nat2Z.id, Ht in Hread. apply Z.leb_le in Hlen.
  pose proof (loaded_be (width_bytes w) x) as Hl. cbv zeta in Hl.
  fold (width_bits w) in Hl. rewrite (signed_small _ x) in Hl; [|destruct w; done|done].
  destruct w; cbn [readInt width_bytes] in *; znat;
    unfold readInt8, readInt16, readInt32, readInt64, peekInt8, peekInt16, peekInt32, peekInt64,
      retrieveInt8, retrieveInt16, retrieveInt32, retrieveInt64, c_assert in *;
    rewrite Hlen, Hread, E; cbn [mbind outcome_bind]; do 2 f_equal;
    [| apply Hl; lia ..].
  change (be_bytes 1 x) with (le_bytes 1 x). rewrite le_value_bytes.
  unfold s8. rewrite (signed_mod 8) by lia. by apply (signed_small 8).
Qed.
