(* ===== verification/BufferSpec.v ===== *)
(** * What the Buffer promises

    The abstract byte queue a Buffer implements, the refinement theorem over
    sequences of operations, the interface [ByteQueue] other components rely
    on with its Buffer instance, and the round trips of the integer fields,
    [readFd], [shrink] and the line searches. *)

From S2P Require Import Prelude Endian Buffer.

(** ** The abstract byte queue *)

(** [sq_bytes] is the content; [sq_headroom] the number of bytes that can
    certainly be prepended; [sq_cap] a bound on the vector's size. *)
Record squeue : Type := mkSqueue {
  sq_bytes : list byte;
  sq_headroom : Z;
  sq_cap : Z;
}.

Inductive buf_op : Type :=
| OAppend (data : list byte)
| OPrepend (data : list byte)
| ORetrieve (len : Z)
| ORetrieveUntil (off : Z)
| ORetrieveAll
| ORetrieveAsString (len : Z)
| OEnsureWritable (len : Z)
| OUnwrite (len : Z).

(** One operation of the class, with the string it returns. *)
Definition buf_exec (b : Buffer) (o : buf_op) : outcome (Buffer * list byte) :=
  match o with
  | OAppend data => b' ← append_obj b data; Ok (b', [])
  | OPrepend data => b' ← prepend b data; Ok (b', [])
  | ORetrieve len => b' ← retrieve b len; Ok (b', [])
  | ORetrieveUntil off => b' ← retrieveUntil b (peek b + off); Ok (b', [])
  | ORetrieveAll => Ok (retrieveAll b, [])
  | ORetrieveAsString len => r ← retrieveAsString b len; Ok (r.2, r.1)
  | OEnsureWritable len => b' ← ensureWritableBytes b len; Ok (b', [])
  | OUnwrite len => b' ← unwrite b len; Ok (b', [])
  end.

Definition sq_drop (q : squeue) (len : Z) : squeue :=
  let rest := drop (Z.to_nat len) (sq_bytes q) in
  mkSqueue rest (sq_headroom q) (sq_cap q).

(** The same operation on the abstract queue; [None] when its precondition
    (the assertions of the class, room in the address space) does not hold. *)
Definition sq_exec (q : squeue) (o : buf_op) : option (squeue * list byte) :=
  let n := zlen (sq_bytes q) in
  match o with
  | OAppend data =>
      if sq_cap q + zlen data <=? max_size
      then Some (mkSqueue (sq_bytes q ++ data) (sq_headroom q) (sq_cap q + zlen data), [])
      else None
  | OPrepend data =>
      if zlen data <=? sq_headroom q
      then Some (mkSqueue (data ++ sq_bytes q) (sq_headroom q - zlen data) (sq_cap q), [])
      else None
  | ORetrieve len | ORetrieveUntil len =>
      if (0 <=? len) && (len <=? n) then Some (sq_drop q len, []) else None
  | ORetrieveAll => Some (mkSqueue [] kCheapPrepend (sq_cap q), [])
  | ORetrieveAsString len =>
      if (0 <=? len) && (len <=? n)
      then Some (sq_drop q len, take (Z.to_nat len) (sq_bytes q)) else None
  | OEnsureWritable len =>
      if (0 <=? len) && (sq_cap q + len <=? max_size)
      then Some (mkSqueue (sq_bytes q) (sq_headroom q) (sq_cap q + len), []) else None
  | OUnwrite len =>
      if (0 <=? len) && (len <=? n)
      then Some (mkSqueue (take (Z.to_nat (n - len)) (sq_bytes q)) (sq_headroom q) (sq_cap q), [])
      else None
  end.

Fixpoint buf_run (b : Buffer) (os : list buf_op) : outcome (Buffer * list (list byte)) :=
  match os with
  | [] => Ok (b, [])
  | o :: os' =>
      r ← buf_exec b o;
      r' ← buf_run r.1 os';
      Ok (r'.1, r.2 :: r'.2)
  end.

Fixpoint sq_run (q : squeue) (os : list buf_op) : option (squeue * list (list byte)) :=
  match os with
  | [] => Some (q, [])
  | o :: os' =>
      r ← sq_exec q o;
      r' ← sq_run r.1 os';
      Some (r'.1, r.2 :: r'.2)
  end.

(** The abstraction relation. *)
Definition buf_rel (b : Buffer) (q : squeue) : Prop :=
  wf b /\ readable b = sq_bytes q /\
  0 <= sq_headroom q <= Z.min kCheapPrepend (readerIndex_ b) /\
  zlen (buffer_ b) <= sq_cap q.

(** ** The interface other components use *)

Class ByteQueue (B : Type) : Type := {
  bq_wf : B -> Prop;
  bq_contents : B -> list byte;
  bq_size : B -> Z;
  bq_readable : B -> Z;
  bq_append : B -> list byte -> outcome B;
  bq_retrieve : B -> Z -> outcome B;
  bq_readable_spec : forall b, bq_wf b -> bq_readable b = zlen (bq_contents b);
  bq_append_spec : forall b data, bq_wf b -> bq_size b + zlen data <= max_size ->
    exists b', bq_append b data = Ok b' /\ bq_wf b' /\
      bq_contents b' = bq_contents b ++ data /\ bq_size b' <= bq_size b + zlen data;
  bq_retrieve_spec : forall b n, bq_wf b -> 0 <= n <= zlen (bq_contents b) ->
    exists b', bq_retrieve b n = Ok b' /\ bq_wf b' /\
      bq_contents b' = drop (Z.to_nat n) (bq_contents b) /\ bq_size b' = bq_size b;
}.

#[export] Instance Buffer_ByteQueue : ByteQueue Buffer.
Proof.
  refine {| bq_wf := wf; bq_contents := readable; bq_size b := zlen (buffer_ b);
            bq_readable := readableBytes; bq_append := append_obj; bq_retrieve := retrieve |}.
  - intros b Hb. symmetry. by apply zlen_readable.
  - intros b data Hb Hm. pose proof (zlen_nonneg data).
    destruct (append_obj_ok b data) as (b' & ? & ? & ? & ? & ?); [done| buf; lia |].
    exists b'. split_and!; try done. buf. lia.
  - intros b n Hb Hn. rewrite zlen_readable in Hn by done.
    destruct (retrieve_ok b n) as (b' & ? & ? & ? & Hl); [done..|].
    exists b'. rewrite Hl. split_and!; done.
Defined.

(** ** Fields in network order *)

(** A message is a list of integer fields of given widths. *)
Definition appendFields (b : Buffer) (fs : list (width * Z)) : outcome Buffer :=
  foldM (fun b f => appendInt f.1 b f.2) b fs.

Fixpoint readFields (b : Buffer) (ws : list width) : outcome (list Z * Buffer) :=
  match ws with
  | [] => Ok ([], b)
  | w :: ws' =>
      r ← readInt w b;
      r' ← readFields r.2 ws';
      Ok (r.1 :: r'.1, r'.2)
  end.

Definition fields_bytes (fs : list (width * Z)) : list byte :=
  fs ≫= (fun f => be_bytes (width_bytes f.1) f.2).

(** ** Lemmas *)

Lemma buf_rel_init n : 0 <= n -> n + 8 <= max_size ->
  exists b, Buffer_ctor n = Ok b /\ buf_rel b (mkSqueue [] kCheapPrepend (n + 8)).
Proof.
  intros Hn Hm. destruct (Buffer_ctor_ok n Hn Hm) as (b & E & Hwf & Hr & Hi & Hl).
  exists b. split; [done|]. unfold buf_rel. cbn [sq_bytes sq_headroom sq_cap].
  rewrite Hi, Hl. buf. split_and!; try done; lia.
Qed.

Lemma retrieve_rel b q len : buf_rel b q -> 0 <= len <= zlen (sq_bytes q) ->
  exists b', retrieve b len = Ok b' /\ buf_rel b' (sq_drop q len).
Proof.
  intros (Hwf & Hr & Hh & Hc) Hlen. rewrite <- Hr, zlen_readable in Hlen by done.
  destruct (retrieve_ok b len) as (b' & E & Hwf' & Hr' & Hl); [done..|].
  pose proof (retrieve_headroom b b' len Hwf ltac:(lia) E) as Hh'.
  exists b'. split; [done|]. unfold buf_rel, sq_drop. cbn [sq_bytes sq_headroom sq_cap].
  rewrite Hr', Hr, Hl. split_and!; try done; lia.
Qed.

(** Case split of a specification's guard. *)
Ltac spec_guard H :=
  repeat match type of H with
  | context [Z.leb ?a ?b] => destruct (Z.leb_spec a b)
  end; cbn [andb] in H; try discriminate H; injection H as <- <-.

(** One operation allowed by the abstract queue does the same on the Buffer. *)
Lemma buf_exec_refines b q o q' out :
  buf_rel b q -> sq_exec q o = Some (q', out) ->
  exists b', buf_exec b o = Ok (b', out) /\ buf_rel b' q'.
Proof.
  intros Hrel Hs. pose proof Hrel as (Hwf & Hr & Hh & Hc).
  assert (zlen (sq_bytes q) = readableBytes b) as Hz by (rewrite <- Hr; by apply zlen_readable).
  destruct o as [data|data|len|len| |len|len|len]; cbn [sq_exec buf_exec] in *.
  - spec_guard Hs. pose proof (zlen_nonneg data).
    destruct (append_obj_ok b data) as (b' & -> & ? & Hr' & ? & ?); [done|buf; lia|].
    exists b'. split; [done|]. unfold buf_rel. cbn [sq_bytes sq_headroom sq_cap].
    rewrite Hr', Hr. split_and!; try done; buf; lia.
  - spec_guard Hs. pose proof (zlen_nonneg data).
    destruct (prepend_ok b data) as (b' & -> & ? & Hr' & Hi & Hl);
      [done|unfold prependableBytes; lia|].
    exists b'. split; [done|]. unfold buf_rel. cbn [sq_bytes sq_headroom sq_cap].
    rewrite Hr', Hr, Hi, Hl. split_and!; try done; lia.
  - spec_guard Hs. destruct (retrieve_rel b q len) as (b' & -> & ?); [done|lia|]. by exists b'.
  - spec_guard Hs. destruct (retrieve_rel b q len) as (b' & E & ?); [done|lia|]. exists b'.
    split; [|done]. unfold retrieveUntil, peek, beginWrite in *. rewrite readableBytes_wf in Hz by done.
    destruct (Z.leb_spec (readerIndex_ b) (readerIndex_ b + len)); [|lia].
    destruct (Z.leb_spec (readerIndex_ b + len) (writerIndex_ b)); [|lia].
    cbn. by rewrite Z.add_simpl_l, E.
  - injection Hs as <- <-. exists (retrieveAll b). split; [done|].
    destruct (retrieveAll_wf b Hwf) as [? ?]. unfold buf_rel. cbn. buf. split_and!; try done; lia.
  - spec_guard Hs. destruct (retrieve_rel b q len) as (b' & E & ?); [done|lia|].
    destruct (retrieveAsString_ok b len) as (b'' & -> & E'); [done|lia|].
    rewrite E in E'. injection E' as <-. rewrite Hr. by exists b'.
  - spec_guard Hs.
    destruct (ensureWritableBytes_ok b len) as (b' & -> & ? & Hr' & ? & ? & ?); [done|lia|buf; lia|].
    exists b'. split; [done|]. unfold buf_rel. cbn [sq_bytes sq_headroom sq_cap].
    rewrite Hr', Hr. split_and!; try done; buf; lia.
  - spec_guard Hs. destruct (unwrite_ok b len) as (b' & -> & ? & Hr' & Hi & Hl); [done|lia|].
    exists b'. split; [done|]. unfold buf_rel. cbn [sq_bytes sq_headroom sq_cap].
    rewrite Hr', Hr, Hi, Hl. split_and!; done || lia.
Qed.

Lemma buf_run_refines os : forall b q q' outs,
  buf_rel b q -> sq_run q os = Some (q', outs) ->
  exists b', buf_run b os = Ok (b', outs) /\ buf_rel b' q'.
Proof.
  induction os as [|o os IH]; intros b q q' outs Hrel Hs; cbn in Hs |- *.
  - injection Hs as <- <-. by exists b.
  - destruct (sq_exec q o) as [[q1 out]|] eqn:E; [|done]. cbn in Hs.
    destruct (sq_run q1 os) as [[q2 outs']|] eqn:E'; [|done]. injection Hs as <- <-.
    destruct (buf_exec_refines b q o q1 out) as (b1 & -> & Hrel1); [done..|].
    destruct (IH b1 q1 q2 outs') as (b2 & Hb2 & Hrel2); [done..|].
    exists b2. cbn. by rewrite Hb2.
Qed.

(** ** Refinement *)

(** C6: a Buffer constructed with any initial size implements the abstract
    byte queue: every sequence of append, prepend, retrieve, retrieveUntil,
    retrieveAll, retrieveAsString, ensureWritableBytes and unwrite calls whose
    abstract preconditions hold runs to the end (no assertion fails, no copy
    leaves the vector) and returns the strings the queue returns, leaving the
    queue's bytes readable. *)
Theorem buffer_refines_queue (n : Z) (os : list buf_op) (q : squeue) (outs : list (list byte)) :
  0 <= n -> n + 8 <= max_size ->
  sq_run (mkSqueue [] kCheapPrepend (n + 8)) os = Some (q, outs) ->
  exists b0 b, Buffer_ctor n = Ok b0 /\ buf_run b0 os = Ok (b, outs) /\
    wf b /\ readable b = sq_bytes q.
Proof.
  intros Hn Hm Hs. destruct (buf_rel_init n Hn Hm) as (b0 & E & Hrel).
  destruct (buf_run_refines os b0 _ q outs Hrel Hs) as (b & Hb & Hwf & Hr & _). eauto 6.
Qed.

Definition demo_ops : list buf_op :=
  [OAppend [Byte.x61; Byte.x62; Byte.x63]; ORetrieve 1; OPrepend [Byte.x00; Byte.x02];
   OEnsureWritable 2000; OUnwrite 1; ORetrieveAsString 2; ORetrieveAll].

Lemma buffer_refines_queue_witness :
  exists b0 b, Buffer_ctor 16 = Ok b0 /\
    buf_run b0 demo_ops = Ok (b, [[]; []; []; []; []; [Byte.x00; Byte.x02]; []]) /\
    wf b /\ readable b = [].
Proof.
  apply (buffer_refines_queue 16 demo_ops (mkSqueue [] 8 2027)); [lia | done |].
  vm_compute. reflexivity.
Defined.

(** ** Integer fields *)

Lemma zlen_fields_cons f fs :
  zlen (fields_bytes (f :: fs)) = Z.of_nat (width_bytes f.1) + zlen (fields_bytes fs).
Proof.
  unfold fields_bytes. cbn. unfold mbind. by rewrite zlen_app, zlen_be_bytes.
Qed.

Lemma appendFields_ok fs : forall b, wf b ->
  zlen (buffer_ b) + zlen (fields_bytes fs) <= max_size ->
  exists b', appendFields b fs = Ok b' /\ wf b' /\ readable b' = readable b ++ fields_bytes fs.
Proof.
  induction fs as [|f fs IH]; intros b Hwf Hm.
  - exists b. split_and!; [done..|]. by rewrite app_nil_r.
  - rewrite zlen_fields_cons in Hm. pose proof (zlen_nonneg (fields_bytes fs)).
    unfold appendFields. cbn. rewrite appendInt_obj.
    destruct (append_obj_ok b (be_bytes (width_bytes f.1) f.2)) as (b1 & -> & Hwf1 & Hr1 & _ & Hl1);
      [done | rewrite zlen_be_bytes; buf; lia |].
    rewrite zlen_be_bytes in Hl1.
    destruct (IH b1) as (b2 & E & Hwf2 & Hr2); [done | buf; lia |].
    exists b2. split_and!; [done..|]. rewrite Hr2, Hr1, <- app_assoc. done.
Qed.

Lemma readFields_ok fs rest : forall b, wf b ->
  Forall (fun f => in_width f.1 f.2) fs -> readable b = fields_bytes fs ++ rest ->
  exists b', readFields b (fs.*1) = Ok (fs.*2, b') /\ wf b' /\ readable b' = rest.
Proof.
  induction fs as [|[w x] fs IH]; intros b Hwf Hf Hr.
  - exists b. done.
  - inversion_clear Hf as [|? ? Hx Hfs]. cbn in Hx.
    destruct (readInt_ok w b x (fields_bytes fs ++ rest)) as (b1 & E1 & Hwf1 & Hr1); try done.
    { rewrite Hr. unfold fields_bytes. cbn. by rewrite <- app_assoc. }
    destruct (IH b1) as (b2 & E2 & Hwf2 & Hr2); try done.
    exists b2. cbn. rewrite E1. cbn. by rewrite E2.
Qed.

(** C7: integers of 8, 16, 32 and 64 bits travel in network byte order and
    come back unchanged: any list of fields, negative ones included, appended
    to an empty buffer with appendInt8/16/32/64 and read back with
    readInt8/16/32/64 in the same widths yields the same values and leaves the
    buffer empty; the bytes in between are the big-endian images. *)
Theorem fields_roundtrip (b : Buffer) (fs : list (width * Z)) :
  wf b -> readable b = [] ->
  zlen (buffer_ b) + zlen (fields_bytes fs) <= max_size ->
  Forall (fun f => in_width f.1 f.2) fs ->
  exists b1 b2, appendFields b fs = Ok b1 /\ readable b1 = fields_bytes fs /\
    readFields b1 (fs.*1) = Ok (fs.*2, b2) /\ wf b2 /\ readable b2 = [].
Proof.
  intros Hwf He Hm Hf.
  destruct (appendFields_ok fs b Hwf Hm) as (b1 & E1 & Hwf1 & Hr1). rewrite He in Hr1.
  destruct (readFields_ok fs [] b1 Hwf1 Hf) as (b2 & E2 & Hwf2 & Hr2).
  { rewrite Hr1. by rewrite app_nil_r. }
  exists b1, b2. done.
Qed.

Definition empty_buffer : Buffer := mkBuffer (zero_vector 24) 8 8.
Definition demo_fields : list (width * Z) := [(W32, 258); (W16, -2); (W8, -128); (W64, 2 ^ 40 + 7)].

Lemma fields_roundtrip_witness :
  exists b1 b2, appendFields empty_buffer demo_fields = Ok b1 /\
    readable b1 = fields_bytes demo_fields /\
    readFields b1 [W32; W16; W8; W64] = Ok ([258; -2; -128; 2 ^ 40 + 7], b2) /\
    wf b2 /\ readable b2 = [].
Proof.
  apply (fields_roundtrip empty_buffer demo_fields).
  - unfold wf. vm_compute. intuition discriminate.
  - reflexivity.
  - vm_compute. discriminate.
  - repeat constructor; vm_compute; intuition discriminate.
Defined.

(** Prepending a length header, as codecs do, costs no copy of the
    content: with at least as much headroom as the field is wide,
    prependInt8/16/32/64 puts the big-endian field in front of the content and
    keeps the vector's size, and the next read of that width returns the value
    and the original content. *)
Lemma prepend_header_roundtrip (w : width) (b : Buffer) (x : Z) :
  wf b -> in_width w x -> Z.of_nat (width_bytes w) <= prependableBytes b ->
  exists b1 b2, prependInt w b x = Ok b1 /\ zlen (buffer_ b1) = zlen (buffer_ b) /\
    readable b1 = be_bytes (width_bytes w) x ++ readable b /\
    readInt w b1 = Ok (x, b2) /\ wf b2 /\ readable b2 = readable b.
Proof.
  intros Hwf Hx Hp. rewrite prependInt_bytes.
  destruct (prepend_ok b (be_bytes (width_bytes w) x)) as (b1 & -> & Hwf1 & Hr1 & _ & Hl);
    [done | by rewrite zlen_be_bytes |].
  destruct (readInt_ok w b1 x (readable b)) as (b2 & E & Hwf2 & Hr2); try done.
  exists b1, b2. done.
Qed.

Lemma prepend_header_roundtrip_witness :
  exists b1 b2, prependInt W32 empty_buffer 77 = Ok b1 /\ zlen (buffer_ b1) = 24 /\
    readable b1 = be_bytes 4 77 ++ [] /\ readInt W32 b1 = Ok (77, b2) /\
    wf b2 /\ readable b2 = [].
Proof.
  apply (prepend_header_roundtrip W32 empty_buffer 77).
  - unfold wf. vm_compute. intuition discriminate.
  - vm_compute. intuition discriminate.
  - vm_compute. discriminate.
Defined.

(** ** Reading from a socket *)

(** What readv(2) promises: it fails with a negative value and writes
    nothing, or returns how many bytes it scattered, never more than the
    iovecs hold. *)
Definition readv_spec (readv : list Z -> readv_result) : Prop :=
  forall iov, let r := readv iov in
    (rv_n r < 0 /\ rv_data r = []) \/
    (rv_n r = zlen (rv_data r) /\ rv_n r <= foldr Z.add 0 iov).

(** The kernel's scatter into the writable tail. *)
Lemma readFd_scatter (b : Buffer) (data : list byte) : wf b ->
  let first := take (Z.to_nat (writableBytes b)) data in
  exists vec, copy_into (buffer_ b) (writerIndex_ b) first = Ok vec /\
    zlen vec = zlen (buffer_ b) /\
    slice vec (readerIndex_ b) (writerIndex_ b) = readable b /\
    slice vec (writerIndex_ b) (writerIndex_ b + Z.min (writableBytes b) (zlen data)) = first.
Proof.
  intros Hwf first. pose proof (writableBytes_wf b Hwf) as Hw.
  assert (zlen first = Z.min (writableBytes b) (zlen data)) as Hf
    by (subst first; buf; unfold zlen in *; rewrite length_take; lia).
  destruct (copy_into (buffer_ b) (writerIndex_ b) first) as [vec|] eqn:E.
  2: { rewrite copy_into_ok in E by (rewrite ?Hf; buf; lia). done. }
  exists vec. split; [done|]. rewrite <- Hf. split_and!.
  - by eapply zlen_copy_into.
  - eapply slice_copy_before; [done|buf; lia..].
  - by eapply slice_copy_into.
Qed.

(** The spill: the tail is full and the rest sits in the stack buffer. *)
Lemma readFd_spill (b : Buffer) (vec data : list byte) :
  wf b -> zlen vec = zlen (buffer_ b) ->
  writableBytes b < zlen data <= writableBytes b + sizeof_extrabuf ->
  zlen (buffer_ b) + sizeof_extrabuf <= max_size ->
  exists b', append (mkBuffer vec (readerIndex_ b) (zlen vec))
      (drop (Z.to_nat (writableBytes b)) data) (u64 (zlen data - writableBytes b)) = Ok b' /\
    wf b' /\
    readable b' = slice vec (readerIndex_ b) (zlen vec) ++ drop (Z.to_nat (writableBytes b)) data /\
    zlen (buffer_ b') <= zlen (buffer_ b) + sizeof_extrabuf.
Proof.
  intros Hwf Hl Hd Hm. pose proof (writableBytes_wf b Hwf) as Hw. unfold sizeof_extrabuf in *.
  rewrite u64_small by (buf; lia).
  assert (zlen (drop (Z.to_nat (writableBytes b)) data) = zlen data - writableBytes b) as Hz
    by (buf; unfold zlen in *; rewrite length_drop; lia).
  destruct (append_ok (mkBuffer vec (readerIndex_ b) (zlen vec))
              (drop (Z.to_nat (writableBytes b)) data) (zlen data - writableBytes b))
    as (b2 & -> & Hwf2 & Hr2 & _ & Hl2); [buf; lia | lia | cbn; buf; lia |].
  exists b2. cbn [buffer_ writerIndex_] in Hl2. split_and!; [done|done| |lia].
  rewrite Hr2, <- Hz. unfold readable. cbn. f_equal. apply take_ge. unfold zlen. lia.
Qed.

Lemma readFd_iov_bound (b : Buffer) n : n <= foldr Z.add 0 (readFd_iov b) ->
  n <= writableBytes b + sizeof_extrabuf /\
  (length (readFd_iov b) = 2%nat -> n <= 128 * 1024 - 1).
Proof.
  unfold readFd_iov, sizeof_extrabuf.
  destruct (Z.ltb_spec (writableBytes b) 65536); cbn; intros; split; intros; lia.
Qed.

Section ReadFd.

Context (readv : list Z -> readv_result).
Hypothesis Hreadv : readv_spec readv.

Lemma readFd_ok (b : Buffer) :
  wf b -> zlen (buffer_ b) + sizeof_extrabuf <= max_size ->
  let r := readv (readFd_iov b) in
  exists saved b', readFd readv b = Ok (rv_n r, saved, b') /\ wf b' /\
    readable b' = readable b ++ rv_data r /\
    saved = (if rv_n r <? 0 then Some (rv_errno r) else None) /\
    (length (readFd_iov b) = 2%nat -> rv_n r <= 128 * 1024 - 1) /\
    zlen (buffer_ b') <= zlen (buffer_ b) + sizeof_extrabuf.
Proof.
  intros Hwf Hm r. specialize (Hreadv (readFd_iov b)). cbv zeta in Hreadv.
  unfold readFd. fold r in Hreadv |- *. pose proof (writableBytes_wf b Hwf) as Hw.
  destruct (readFd_scatter b (rv_data r) Hwf) as (vec & -> & Hl & Hold & Hnew).
  cbn [mbind outcome_bind].
  destruct Hreadv as [[Hneg Hnil] | [Hn Hle]].
  - destruct (Z.ltb_spec (rv_n r) 0); [|lia]. do 2 eexists. split; [done|]. rewrite Hnil, app_nil_r.
    split_and!; [buf; lia | done | done | lia | cbn; unfold sizeof_extrabuf; lia].
  - apply readFd_iov_bound in Hle as [Hmax H128]. pose proof (zlen_nonneg (rv_data r)).
    destruct (Z.ltb_spec (rv_n r) 0); [lia|]. unfold sizeof_extrabuf in *.
    destruct (Z.leb_spec (rv_n r) (writableBytes b)).
    + rewrite u64_small by (buf; lia).
      do 2 eexists. split_and!; [done|buf; lia| |done|done|cbn; lia].
      unfold readable at 1. cbn [buffer_ readerIndex_ writerIndex_].
      rewrite (slice_split _ _ (writerIndex_ b)), Hold by (buf; lia). f_equal.
      rewrite <- Hn, Z.min_r in Hnew by lia. rewrite Hnew. apply take_ge. unfold zlen in *. lia.
    + rewrite Hn in *. destruct (readFd_spill b vec (rv_data r)) as (b2 & -> & ? & Hr2 & ?);
        [done|done|unfold sizeof_extrabuf; lia|done|].
      cbn [mbind outcome_bind]. do 2 eexists. split_and!; [done|done| |done|done|done].
      rewrite Hr2, (slice_split _ _ (writerIndex_ b)), Hold by (buf; lia).
      rewrite Z.min_l in Hnew by lia.
      replace (zlen vec) with (writerIndex_ b + writableBytes b) by lia.
      by rewrite Hnew, <- app_assoc, take_drop.
Qed.

(** C8: readFd appends exactly the bytes the kernel delivered, whether they
    fit the writable tail or spill into the 64 KiB stack buffer; on an error
    it reports errno and leaves the content alone. One call never needs more
    than 65536 bytes beyond the tail, and when the stack buffer is offered at
    most 128k-1 bytes are read. *)
Theorem readFd_appends (b : Buffer) :
  wf b -> zlen (buffer_ b) + sizeof_extrabuf <= max_size ->
  let r := readv (readFd_iov b) in
  exists saved b', readFd readv b = Ok (rv_n r, saved, b') /\ wf b' /\
    readable b' = readable b ++ rv_data r /\
    saved = (if rv_n r <? 0 then Some (rv_errno r) else None) /\
    (length (readFd_iov b) = 2%nat -> rv_n r <= 128 * 1024 - 1) /\
    zlen (buffer_ b') <= zlen (buffer_ b) + sizeof_extrabuf.
Proof. apply readFd_ok. Qed.

End ReadFd.

(** A kernel that always delivers the same three bytes, space permitting. *)
Definition three_bytes_kernel (iov : list Z) : readv_result :=
  if 3 <=? foldr Z.add 0 iov then mkReadv 3 0 [Byte.x61; Byte.x62; Byte.x63]
  else mkReadv (-1) 11 [].

Lemma readFd_appends_witness :
  exists saved b', readFd three_bytes_kernel (mkBuffer (zero_vector 10) 8 8) = Ok (3, saved, b') /\
    wf b' /\ readable b' = [] ++ [Byte.x61; Byte.x62; Byte.x63] /\ saved = None /\
    (length (readFd_iov (mkBuffer (zero_vector 10) 8 8)) = 2%nat -> 3 <= 128 * 1024 - 1) /\
    zlen (buffer_ b') <= 10 + sizeof_extrabuf.
Proof.
  apply (readFd_appends three_bytes_kernel).
  - intros iov r. subst r. unfold three_bytes_kernel. destruct (Z.leb_spec 3 (foldr Z.add 0 iov)).
    + right. cbn. split; [reflexivity | assumption].
    + left. split; reflexivity.
  - unfold wf. vm_compute. intuition discriminate.
  - vm_compute. discriminate.
Defined.

(** ** Shrinking *)

Lemma append_fits b data len :
  wf b -> 0 <= len <= zlen data -> len <= writableBytes b ->
  exists vec, append b data len = Ok (mkBuffer vec (readerIndex_ b) (writerIndex_ b + len)) /\
    zlen vec = zlen (buffer_ b).
Proof.
  intros Hwf Hlen Hfit. unfold append, ensureWritableBytes.
  destruct (Z.ltb_spec (writableBytes b) len); [lia|]. run.
  destruct (Z.leb_spec len (writableBytes b)); [|lia]. run.
  destruct (Z.leb_spec len (zlen data)); [|lia]. run.
  rewrite (writableBytes_wf b Hwf) in Hfit.
  assert (zlen (take (Z.to_nat len) data) = len) as Ht by (unfold zlen in *; rewrite length_take; lia).
  unfold beginWrite.
  destruct (copy_into (buffer_ b) (writerIndex_ b) (take (Z.to_nat len) data)) as [vec|] eqn:E.
  2: { rewrite copy_into_ok in E by (rewrite ?Ht; buf; lia). done. }
  pose proof (zlen_copy_into _ _ _ _ E) as Hl. run. unfold hasWritten.
  assert (wf (mkBuffer vec (readerIndex_ b) (writerIndex_ b))) as Hwf2 by (buf; lia).
  rewrite (writableBytes_wf _ Hwf2). cbn [buffer_ readerIndex_ writerIndex_].
  destruct (Z.leb_spec len (zlen vec - writerIndex_ b)); [run|lia].
  rewrite u64_small by (buf; lia). eauto.
Qed.

(** With no spare prefix, making room never moves the content. *)
Lemma ensureWritableBytes_index b len b' :
  readerIndex_ b <= kCheapPrepend -> ensureWritableBytes b len = Ok b' ->
  readerIndex_ b' = readerIndex_ b /\ writerIndex_ b' = writerIndex_ b.
Proof.
  intros Hr. unfold ensureWritableBytes, makeSpace.
  destruct (Z.ltb_spec (writableBytes b) len).
  - destruct (_ <? u64 (len + kCheapPrepend)).
    + destruct (vec_resize _ _ _); cbn; [|done].
      destruct (len <=? _); cbn; [|done]. by intros [= <-].
    + destruct (Z.ltb_spec kCheapPrepend (readerIndex_ b)); [lia|]. done.
  - cbn. destruct (len <=? _); cbn; [|done]. by intros [= <-].
Qed.

(** The scratch buffer of [shrink], after [ensureWritableBytes]. *)
Lemma shrink_other need : 0 <= need -> 8 + need <= max_size ->
  exists other0 other, Buffer_ctor kInitialSize = Ok other0 /\
    ensureWritableBytes other0 need = Ok other /\ wf other /\ readable other = [] /\
    readerIndex_ other = 8 /\ writerIndex_ other = 8 /\ need <= writableBytes other /\
    zlen (buffer_ other) <= Z.max 1032 (8 + need).
Proof.
  intros H0 Hm. destruct (Buffer_ctor_ok kInitialSize) as (o & -> & Hwf & Hr & Hi & Hl); [done..|].
  assert (readableBytes o = 0) as Hz by (rewrite <- zlen_readable, Hr by done; done).
  rewrite readableBytes_wf, Hi in Hz by done. unfold kCheapPrepend, kInitialSize in *.
  destruct (ensureWritableBytes_ok o need) as (o' & E & Hwf' & Hr' & Hw' & _ & Hl');
    [done|done|lia|].
  destruct (ensureWritableBytes_index o need o') as [Hi1 Hi2]; [unfold kCheapPrepend; lia|done|].
  exists o, o'. split_and!; try done; [congruence | lia..].
Qed.

(** Shrink keeps the content, gives back the headroom of eight bytes and
    at least [reserve] writable bytes, and drops every byte of slack: the new
    vector is no larger than the initial size or what content and reserve
    need. This holds for content below 2 GiB. *)
Lemma shrink_preserves (b : Buffer) (reserve : Z) :
  wf b -> 0 <= reserve -> readableBytes b < 2 ^ 31 ->
  8 + readableBytes b + reserve <= max_size ->
  exists b', shrink b reserve = Ok b' /\ wf b' /\ readable b' = readable b /\
    readerIndex_ b' = 8 /\ reserve <= writableBytes b' /\
    zlen (buffer_ b') <= Z.max 1032 (8 + readableBytes b + reserve).
Proof.
  intros Hwf Hres H31 Hm.
  assert (0 <= readableBytes b) as H0 by (rewrite readableBytes_wf by done; buf; lia).
  unfold shrink. unfold max_size in Hm. rewrite u64_small by lia.
  destruct (shrink_other (readableBytes b + reserve))
    as (o0 & o & -> & Ho & Hwfo & Hro & Hi & Hj & Hw & Hl); [lia|unfold max_size; lia|].
  cbn. rewrite Ho. cbn. unfold append_piece, toStringPiece. cbn [fst snd].
  unfold s32. rewrite (signed_small 32), u64_small by lia.
  change (slice (buffer_ b) (peek b) (writerIndex_ b)) with (readable b).
  destruct (append_fits o (readable b) (readableBytes b)) as (vec & E & Hv);
    [done | rewrite zlen_readable by done; lia | lia |].
  destruct (append_ok o (readable b) (readableBytes b)) as (b2 & E2 & Hwf2 & Hr2 & _);
    [done | rewrite zlen_readable by done; lia | unfold max_size; lia |].
  rewrite E in E2 |- *. injection E2 as <-. cbn.
  exists (mkBuffer vec (readerIndex_ o) (writerIndex_ o + readableBytes b)).
  rewrite (writableBytes_wf _ Hwfo) in Hw. rewrite (writableBytes_wf _ Hwf2).
  split_and!; [done | done | | done | cbn; lia | cbn; lia].
  rewrite Hr2, Hro. cbn. apply take_ge. rewrite <- zlen_readable by done. unfold zlen. lia.
Qed.

Lemma shrink_preserves_witness :
  exists b', shrink (mkBuffer (zero_vector 3000) 2000 2003) 5 = Ok b' /\ wf b' /\
    readable b' = [Byte.x00; Byte.x00; Byte.x00] /\
    readerIndex_ b' = 8 /\ 5 <= writableBytes b' /\ zlen (buffer_ b') <= 1032.
Proof.
  apply (shrink_preserves (mkBuffer (zero_vector 3000) 2000 2003) 5).
  - unfold wf. vm_compute. intuition discriminate.
  - lia.
  - reflexivity.
  - vm_compute. discriminate.
Defined.

(** The int length of StringPiece makes shrink throw: with between 2 GiB
    and 4 GiB of content the length passed to append turns negative as an int
    and then into a huge size_t, and the vector refuses to grow to it
    (std::length_error), whatever the reserve. *)
Lemma shrink_large_throws (b : Buffer) (reserve : Z) :
  wf b -> 0 <= reserve -> 2 ^ 31 <= readableBytes b < 2 ^ 32 - 8 ->
  8 + readableBytes b + reserve <= max_size ->
  shrink b reserve = Fail LengthError.
Proof.
  intros Hwf Hres H31 Hm. unfold shrink. unfold max_size in Hm. rewrite u64_small by lia.
  destruct (shrink_other (readableBytes b + reserve))
    as (o0 & o & -> & Ho & Hwfo & Hro & Hi & Hj & Hw & Hl); [lia|unfold max_size; lia|].
  cbn. rewrite Ho. cbn. unfold append_piece, toStringPiece. cbn [fst snd].
  assert (u64 (s32 (readableBytes b)) = readableBytes b - 2 ^ 32 + 2 ^ 64) as ->.
  { unfold s32, signed. replace (readableBytes b + 2 ^ (32 - 1))
      with (readableBytes b - 2 ^ 31 + 1 * 2 ^ 32) by lia.
    rewrite Z.mod_add, Z.mod_small by lia. unfold u64.
    rewrite <- (Z.mod_add _ 1) by lia. rewrite Z.mod_small; lia. }
  pose proof (writableBytes_wf _ Hwfo) as Hwr.
  unfold append, ensureWritableBytes.
  destruct (Z.ltb_spec (writableBytes o) (readableBytes b - 2 ^ 32 + 2 ^ 64)); [|buf; lia].
  unfold makeSpace, prependableBytes.
  rewrite (u64_small (writableBytes o + _)), (u64_small (_ + kCheapPrepend)) by (buf; lia).
  destruct (Z.ltb_spec (writableBytes o + readerIndex_ o)
             (readableBytes b - 2 ^ 32 + 2 ^ 64 + kCheapPrepend)); [|buf; lia].
  unfold vec_resize. rewrite Hj, u64_small by lia.
  destruct (Z.leb_spec (8 + (readableBytes b - 2 ^ 32 + 2 ^ 64)) max_size); [buf; lia|done].
Qed.

(** Three GiB of content. *)
Definition big_buffer : Buffer := mkBuffer (zero_vector (8 + 3 * 2 ^ 30)) 8 (8 + 3 * 2 ^ 30).

Lemma big_buffer_facts : wf big_buffer /\ readableBytes big_buffer = 3 * 2 ^ 30.
Proof.
  assert (wf big_buffer) as H.
  { unfold wf, big_buffer. cbn [buffer_ readerIndex_ writerIndex_].
    rewrite zlen_zero_vector by lia. unfold max_size, kCheapPrepend. lia. }
  split; [done|]. rewrite readableBytes_wf by done. cbn [big_buffer readerIndex_ writerIndex_]. lia.
Qed.

Lemma shrink_large_throws_witness : shrink big_buffer 0 = Fail LengthError.
Proof.
  destruct big_buffer_facts as [Hwf Hr].
  apply (shrink_large_throws big_buffer 0); rewrite ?Hr; unfold max_size; auto; lia.
Defined.

(** ** Finding the end of a line *)

Lemma byte_list_eqb_eq a b : byte_list_eqb a b = true <-> a = b.
Proof. unfold byte_list_eqb. apply bool_decide_eq_true. Qed.

(** The offset [std::search] answers: the first match, or the length. *)
Lemma std_search_spec pat hay : pat <> [] ->
  (exists l r, hay = l ++ pat ++ r /\ std_search hay pat = zlen l /\
     forall l' r', hay = l' ++ pat ++ r' -> zlen l <= zlen l') \/
  (std_search hay pat = zlen hay /\ forall l' r', hay <> l' ++ pat ++ r').
Proof.
  intros Hp. induction hay as [|x hay IH]; cbn [std_search].
  - right. rewrite take_nil. destruct (byte_list_eqb [] pat); (split; [done|]);
      intros [|? ?] [|? ?]; destruct pat; done.
  - destruct (byte_list_eqb (take (length pat) (x :: hay)) pat) eqn:E.
    + apply byte_list_eqb_eq in E. left. exists [], (drop (length pat) (x :: hay)). split_and!.
      * cbn [app]. rewrite <- E at 1. symmetry. apply take_drop.
      * done.
      * intros. pose proof (zlen_nonneg l'). done.
    + assert (forall r', x :: hay <> pat ++ r') as Hne.
      { intros r' H. apply not_true_iff_false in E. apply E, byte_list_eqb_eq.
        rewrite H. by apply take_app_length. }
      destruct IH as [(l & r & -> & Hs & Hmin) | [Hs Hnone]]; rewrite Hs.
      * left. exists (x :: l), r. split_and!; [done | unfold zlen; cbn; lia |].
        intros [|y l'] r' H; cbn in H; [by destruct (Hne r')|]. injection H as _ H.
        specialize (Hmin l' r' H). unfold zlen in *. cbn. lia.
      * right. split; [unfold zlen; cbn; lia|].
        intros [|y l'] r' H; cbn in H; [by destruct (Hne r')|]. injection H as _ H.
        by apply Hnone in H.
Qed.

Lemma memchr_spec hay c :
  match memchr hay c with
  | Some i => exists l r, hay = l ++ c :: r /\ i = zlen l /\ c ∉ l
  | None => c ∉ hay
  end.
Proof.
  induction hay as [|x hay IH]; cbn [memchr]; [apply not_elem_of_nil|].
  destruct (byte_eqb x c) eqn:E.
  - apply byte_eqb_eq in E as ->. exists [], hay. split_and!; [done..|apply not_elem_of_nil].
  - assert (x <> c) as Hx by (intros ->; by rewrite (proj2 (byte_eqb_eq c c) eq_refl) in E).
    destruct (memchr hay c) as [i|]; cbn.
    + destruct IH as (l & r & -> & -> & Hn). exists (x :: l), r. split_and!; [done| |].
      * unfold zlen. cbn. lia.
      * rewrite not_elem_of_cons. split; congruence.
    + rewrite not_elem_of_cons. split; congruence.
Qed.

(** FindCRLF answers the first CRLF of the content, and NULL exactly when
    there is none: the pointer it returns splits the content into a line, the
    CRLF and the rest, and no CRLF starts earlier. *)
Lemma findCRLF_first (b : Buffer) : wf b ->
  match findCRLF b with
  | Some p => exists line rest, readable b = line ++ kCRLF ++ rest /\ p = peek b + zlen line /\
      forall line' rest', readable b = line' ++ kCRLF ++ rest' -> zlen line <= zlen line'
  | None => forall line rest, readable b <> line ++ kCRLF ++ rest
  end.
Proof.
  intros Hwf. unfold findCRLF, search_crlf. pose proof (zlen_readable b Hwf) as Hz.
  rewrite readableBytes_wf in Hz by done. unfold peek, beginWrite. fold (readable b).
  destruct (std_search_spec kCRLF (readable b)) as [(l & r & Hl & -> & Hmin) | [-> Hnone]]; [done|..].
  - assert (zlen l + 2 <= zlen (readable b)) as Hle.
    { rewrite Hl, !zlen_app. pose proof (zlen_nonneg r). change (zlen kCRLF) with 2. lia. }
    destruct (Z.eqb_spec (readerIndex_ b + zlen l) (writerIndex_ b)); [lia|].
    exists l, r. done.
  - destruct (Z.eqb_spec (readerIndex_ b + zlen (readable b)) (writerIndex_ b)); [done|lia].
Qed.

Definition http_buffer : Buffer :=
  mkBuffer (zero_vector 8 ++ [Byte.x47; Byte.x0d; Byte.x0d; Byte.x0a; Byte.x41; Byte.x0d; Byte.x0a]) 8 15.

Lemma findCRLF_first_witness :
  exists line rest, readable http_buffer = line ++ kCRLF ++ rest /\ 10 = peek http_buffer + zlen line /\
    forall line' rest', readable http_buffer = line' ++ kCRLF ++ rest' -> zlen line <= zlen line'.
Proof.
  apply (findCRLF_first http_buffer).
  unfold wf. vm_compute. intuition discriminate.
Defined.

(** reading a line: findEOL finds the first newline of the content (NULL
    when there is none), and retrieveUntil just past it consumes exactly that
    line and keeps the rest. *)
Lemma findEOL_retrieve_line (b : Buffer) : wf b ->
  match findEOL b with
  | Some p => exists line rest b', readable b = line ++ (Byte.x0a :: rest) /\ (Byte.x0a ∉ line) /\
      p = peek b + zlen line /\
      retrieveUntil b (p + 1) = Ok b' /\ wf b' /\ readable b' = rest
  | None => Byte.x0a ∉ readable b
  end.
Proof.
  intros Hwf. unfold findEOL. pose proof (zlen_readable b Hwf) as Hz.
  rewrite readableBytes_wf in Hz by done. rewrite readableBytes_wf by done. unfold peek.
  replace (readerIndex_ b + (writerIndex_ b - readerIndex_ b)) with (writerIndex_ b) by lia.
  fold (readable b). pose proof (memchr_spec (readable b) Byte.x0a) as H.
  destruct (memchr (readable b) Byte.x0a) as [i|]; cbn; [|done].
  destruct H as (l & r & Hl & -> & Hn). pose proof (zlen_nonneg l) as Hl0.
  assert (zlen l + 1 <= zlen (readable b)) as Hle.
  { rewrite Hl, zlen_app. unfold zlen. cbn. lia. }
  destruct (retrieve_ok b (zlen l + 1)) as (b' & E & Hwf' & Hr & _);
    [done | rewrite readableBytes_wf by done; lia |].
  exists l, r, b'. split_and!; try done.
  - unfold retrieveUntil, peek, beginWrite.
    destruct (Z.leb_spec (readerIndex_ b) (readerIndex_ b + zlen l + 1)); [|lia].
    destruct (Z.leb_spec (readerIndex_ b + zlen l + 1) (writerIndex_ b)); [|lia].
    cbn. rewrite <- E. f_equal. lia.
  - rewrite Hr, Hl. unfold zlen. rewrite cons_middle, app_assoc.
    apply drop_app_length'. rewrite length_app. cbn. lia.
Qed.

Lemma findEOL_retrieve_line_witness :
  exists line rest b', readable http_buffer = line ++ (Byte.x0a :: rest) /\ (Byte.x0a ∉ line) /\
    11 = peek http_buffer + zlen line /\
    retrieveUntil http_buffer (11 + 1) = Ok b' /\ wf b' /\ readable b' = rest.
Proof.
  apply (findEOL_retrieve_line http_buffer).
  unfold wf. vm_compute. intuition discriminate.
Defined.
