(* ===== verification/Format.v ===== *)
(** * Decimal text, as [snprintf] produces it

    The conversions of the C library the sources use: [%d], [%u], [%0Nd],
    [%Nd] and [%s] into a bounded buffer. A string is a list of bytes. *)

From S2P Require Import Prelude.
From Stdlib Require Strings.String.
Delimit Scope string_scope with string.
Export Strings.String.StringSyntax.

(** A string literal as bytes. *)
Definition str (s : String.string) : list byte := String.list_byte_of_string s.
Arguments str s%_string.

Definition digit_byte (d : Z) : byte := byte_of_Z (48 + d).

(** The decimal digits of [n >= 0], least significant first; [fuel] bounds
    the number of digits. *)
Fixpoint digits_rev (fuel : nat) (n : Z) : list byte :=
  match fuel with
  | O => []
  | S f => digit_byte (n mod 10) :: (if n <? 10 then [] else digits_rev f (n / 10))
  end.

(** Enough fuel for any [n >= 0]: one digit per bit at most. *)
Definition dec_fuel (n : Z) : nat := S (Z.to_nat (Z.log2 n)).

(** [%u] *)
Definition fmt_u (n : Z) : list byte := rev (digits_rev (dec_fuel n) n).

(** [%d] *)
Definition fmt_d (n : Z) : list byte :=
  if n <? 0 then Byte.x2d :: fmt_u (- n) else fmt_u n.

Definition pad (c : byte) (w : nat) (s : list byte) : list byte :=
  replicate (w - length s) c ++ s.

(** [%0<w>d]: zeros go between the sign and the digits. *)
Definition fmt_0d (w : nat) (n : Z) : list byte :=
  if n <? 0 then Byte.x2d :: pad Byte.x30 (w - 1) (fmt_u (- n)) else pad Byte.x30 w (fmt_u n).

(** [%<w>d] *)
Definition fmt_wd (w : nat) (n : Z) : list byte := pad Byte.x20 w (fmt_d n).

(** [snprintf(buf, size, ...)]: what [buf] holds as a C string afterwards. *)
Definition snprintf (size : Z) (s : list byte) : list byte := take (Z.to_nat (size - 1)) s.

(** The value of a digit string, for the round trips. *)
Definition is_digit (b : byte) : bool := (48 <=? byte_to_Z b) && (byte_to_Z b <=? 57).

Definition digit_value (b : byte) : Z := byte_to_Z b - 48.

Definition parse_u (s : list byte) : Z := foldl (fun acc b => 10 * acc + digit_value b) 0 s.

Definition parse_d (s : list byte) : Z :=
  match s with
  | b :: s' => if byte_eqb b Byte.x2d then - parse_u s' else parse_u s
  | [] => 0
  end.

(** ** Lemmas *)

Lemma digit_byte_value d : 0 <= d < 10 -> digit_value (digit_byte d) = d.
Proof.
  intros. unfold digit_value, digit_byte. rewrite byte_to_of_Z, Z.mod_small; lia.
Qed.

Lemma digit_byte_is_digit d : 0 <= d < 10 -> is_digit (digit_byte d) = true.
Proof.
  intros. unfold is_digit, digit_byte. rewrite byte_to_of_Z, Z.mod_small by lia.
  apply andb_true_intro. split; apply Z.leb_le; lia.
Qed.

Lemma parse_u_snoc s b : parse_u (s ++ [b]) = 10 * parse_u s + digit_value b.
Proof. unfold parse_u. by rewrite foldl_app. Qed.

Lemma digits_rev_parse f : forall n, 0 <= n < 10 ^ Z.of_nat f ->
  parse_u (rev (digits_rev f n)) = n /\ Forall (fun b => is_digit b = true) (digits_rev f n).
Proof.
  induction f as [|f IH]; intros n Hn; [cbn in *; split; [lia|constructor]|].
  rewrite Nat2Z.inj_succ, Z.pow_succ_r in Hn by lia. cbn [digits_rev rev].
  pose proof (Z.mod_pos_bound n 10 ltac:(lia)) as Hm.
  pose proof (Z.div_mod n 10 ltac:(lia)) as Hd.
  rewrite parse_u_snoc, digit_byte_value by done.
  destruct (Z.ltb_spec n 10).
  - cbn. rewrite Z.mod_small by lia. split; [done|].
    repeat constructor. apply digit_byte_is_digit. lia.
  - destruct (IH (n / 10)) as [-> Hf].
    { split; [apply Z.div_pos; lia | apply Z.div_lt_upper_bound; lia]. }
    split; [lia|]. constructor; [by apply digit_byte_is_digit | done].
Qed.

Lemma log2_digits n : 0 <= n -> n < 10 ^ Z.of_nat (dec_fuel n).
Proof.
  intros Hn. unfold dec_fuel. destruct (Z.eq_dec n 0) as [->|]; [cbn; lia|].
  pose proof (Z.log2_spec n ltac:(lia)) as [_ H]. pose proof (Z.log2_nonneg n).
  rewrite Nat2Z.inj_succ, Z2Nat.id by lia.
  apply (Z.lt_le_trans _ _ _ H). apply Z.pow_le_mono_l. lia.
Qed.

(** The printed digits denote the number. *)
Lemma fmt_u_parse n : 0 <= n -> parse_u (fmt_u n) = n.
Proof. intros. apply digits_rev_parse. split; [done | by apply log2_digits]. Qed.

Lemma fmt_u_digits n : 0 <= n -> Forall (fun b => is_digit b = true) (fmt_u n).
Proof.
  intros. unfold fmt_u. apply Forall_rev, digits_rev_parse. split; [done | by apply log2_digits].
Qed.

Lemma digits_rev_length f : forall n k, 0 <= n < 10 ^ Z.of_nat k -> (0 < k)%nat ->
  (length (digits_rev f n) <= k)%nat.
Proof.
  induction f as [|f IH]; intros n k Hn Hk; cbn; [lia|].
  destruct (Z.ltb_spec n 10); cbn; [lia|].
  destruct k as [|[|k]]; [lia | cbn in Hn; lia |].
  assert (length (digits_rev f (n / 10)) <= S k)%nat; [|lia].
  apply IH; [|lia]. rewrite Nat2Z.inj_succ, Z.pow_succ_r in Hn by lia.
  split; [apply Z.div_pos; lia | apply Z.div_lt_upper_bound; lia].
Qed.

(** A number below [10^k] prints in at most [k] digits. *)
Lemma fmt_u_length n k : 0 <= n < 10 ^ Z.of_nat k -> (0 < k)%nat -> (length (fmt_u n) <= k)%nat.
Proof. intros. unfold fmt_u. rewrite length_rev. by apply digits_rev_length. Qed.

Lemma fmt_u_nonempty n : (0 < length (fmt_u n))%nat.
Proof. unfold fmt_u, dec_fuel. rewrite length_rev. cbn. lia. Qed.

Lemma parse_u_pad0 w s : parse_u (pad Byte.x30 w s) = parse_u s.
Proof.
  unfold pad, parse_u. rewrite foldl_app. f_equal.
  induction (w - length s)%nat as [|k IH]; [done|]. exact IH.
Qed.

Lemma length_pad c w s : length (pad c w s) = Nat.max w (length s).
Proof. unfold pad. rewrite length_app, length_replicate. lia. Qed.

Lemma is_digit_not_minus b : is_digit b = true -> b <> Byte.x2d.
Proof. intros H ->. by vm_compute in H. Qed.

Lemma fmt_d_parse n : parse_d (fmt_d n) = n.
Proof.
  unfold fmt_d. destruct (Z.ltb_spec n 0).
  - change (- parse_u (fmt_u (- n)) = n). rewrite fmt_u_parse by lia. lia.
  - pose proof (fmt_u_digits n ltac:(lia)) as Hd. pose proof (fmt_u_nonempty n) as Hl.
    pose proof (fmt_u_parse n ltac:(lia)) as Hp. unfold parse_d.
    destruct (fmt_u n) as [|b s]; [cbn in Hl; lia|]. inversion_clear Hd as [|? ? Hb _].
    destruct (byte_eqb b Byte.x2d) eqn:E; [|done].
    apply byte_eqb_eq in E. by apply is_digit_not_minus in Hb.
Qed.

(** Two numbers that print alike are equal. *)
Lemma fmt_d_inj a b : fmt_d a = fmt_d b -> a = b.
Proof. intros H. rewrite <- (fmt_d_parse a), <- (fmt_d_parse b). by f_equal. Qed.

#[export] Hint Rewrite length_pad parse_u_pad0 fmt_d_parse : easylib.
