(* ===== verification/Timestamp.v ===== *)
(** * Timestamps: src/mynetlib/base/Timestamp.h and Timestamp.cc

    A Timestamp is its [int64_t] count of microseconds since the epoch. A
    [double] is an IEEE 754 binary64 value of the standard library's
    [SpecFloat], rounded to nearest even. *)

From S2P Require Import Prelude Format.
From Stdlib Require Import SpecFloat.

Definition kMicroSecondsPerSecond : Z := 1000 * 1000.

Abbreviation Timestamp := Z (only parsing).

(** ** Doubles *)

Definition double : Type := spec_float.

Definition double_of_Z (n : Z) : double := binary_normalize 53 1024 n 0 false.
Definition double_mul (x y : double) : double := SFmul 53 1024 x y.
Definition double_div (x y : double) : double := SFdiv 53 1024 x y.
Definition double_zero : double := S754_zero false.
Definition double_gtb (x y : double) : bool := SFltb y x.

(** The integer part, toward zero. *)
Definition double_trunc (x : double) : option Z :=
  match x with
  | S754_zero _ => Some 0
  | S754_finite s m e =>
      let v := if 0 <=? e then Z.pos m * 2 ^ e else Z.pos m / 2 ^ (- e) in
      Some (if s then - v else v)
  | _ => None
  end.

(** [static_cast<int64_t>(x)]: truncation; the conversion instruction of
    x86-64 answers [INT64_MIN] when the result does not fit. *)
Definition double_to_int64 (x : double) : Z :=
  match double_trunc x with
  | Some v => if (- 2 ^ 63 <=? v) && (v <? 2 ^ 63) then v else - 2 ^ 63
  | None => - 2 ^ 63
  end.

(** ** The class *)

Definition invalid : Timestamp := 0.
Definition valid (t : Timestamp) : bool := 0 <? t.
Definition secondsSinceEpoch (t : Timestamp) : Z := Z.quot t kMicroSecondsPerSecond.

Definition fromUnixTime_us (t microseconds : Z) : Timestamp :=
  s64 (t * kMicroSecondsPerSecond + microseconds).
Definition fromUnixTime (t : Z) : Timestamp := fromUnixTime_us t 0.

(** [Timestamp::now()] from what [gettimeofday] fills in. *)
Definition now_of_timeval (tv_sec tv_usec : Z) : Timestamp :=
  s64 (tv_sec * kMicroSecondsPerSecond + tv_usec).

Definition ts_lt (lhs rhs : Timestamp) : bool := lhs <? rhs.
Definition ts_eq (lhs rhs : Timestamp) : bool := lhs =? rhs.

Definition timeDifference (high low : Timestamp) : double :=
  double_div (double_of_Z (s64 (high - low))) (double_of_Z kMicroSecondsPerSecond).

Definition delta_of (seconds : double) : Z :=
  double_to_int64 (double_mul seconds (double_of_Z kMicroSecondsPerSecond)).

Definition addTime (timestamp : Timestamp) (seconds : double) : Timestamp :=
  s64 (timestamp + delta_of seconds).

Definition toString (t : Timestamp) : list byte :=
  let seconds := Z.quot t kMicroSecondsPerSecond in
  let microseconds := Z.rem t kMicroSecondsPerSecond in
  snprintf (32 - 1) (fmt_d seconds ++ str "." ++ fmt_0d 6 microseconds).

(** [struct tm], with the fields the sources read or write. *)
Record tm : Type := mkTm {
  tm_year : Z;
  tm_mon : Z;
  tm_mday : Z;
  tm_hour : Z;
  tm_min : Z;
  tm_sec : Z;
  tm_wday : Z;
  tm_yday : Z;
  tm_isdst : Z;
  tm_gmtoff : Z;
  tm_zone : list byte;
}.

(** [toFormattedString]; [gmtime_r] is the C library's. *)
Definition toFormattedString (gmtime_r : Z -> tm) (t : Timestamp) (showMicroseconds : bool) :
    list byte :=
  let seconds := Z.quot t kMicroSecondsPerSecond in
  let tm_time := gmtime_r seconds in
  let date := fmt_wd 4 (tm_year tm_time + 1900) ++ fmt_0d 2 (tm_mon tm_time + 1) ++
              fmt_0d 2 (tm_mday tm_time) ++ str " " ++ fmt_0d 2 (tm_hour tm_time) ++ str ":" ++
              fmt_0d 2 (tm_min tm_time) ++ str ":" ++ fmt_0d 2 (tm_sec tm_time) in
  if showMicroseconds
  then snprintf 32 (date ++ str "." ++ fmt_0d 6 (Z.rem t kMicroSecondsPerSecond))
  else snprintf 32 date.

(** ** Facts *)

Lemma ts_lt_spec a b : ts_lt a b = true <-> a < b.
Proof. apply Z.ltb_lt. Qed.

(** Reading a printed timestamp back: split at the point, both parts decimal. *)
Definition parse_ts (s : list byte) : Z :=
  let n := (length s - 7)%nat in
  parse_d (take n s) * kMicroSecondsPerSecond + parse_u (drop (n + 1) s).

Lemma pad0_length6 n : 0 <= n < 10 ^ 6 -> length (pad Byte.x30 6 (fmt_u n)) = 6%nat.
Proof.
  intros H. rewrite length_pad. pose proof (fmt_u_length n 6 H ltac:(lia)). lia.
Qed.

(** For every timestamp at or after the epoch, toString prints all its
    digits (nothing is cut by the 32-byte buffer) and the text denotes the
    timestamp to the microsecond. *)
Lemma toString_roundtrip (t : Timestamp) : 0 <= t < 2 ^ 63 -> parse_ts (toString t) = t.
Proof.
  intros Ht. unfold toString, parse_ts, kMicroSecondsPerSecond.
  set (q := Z.quot t (1000 * 1000)). set (r := Z.rem t (1000 * 1000)).
  assert (0 <= r < 10 ^ 6) as Hr by (subst r; apply Z.rem_bound_pos; lia).
  assert (t = 1000000 * q + r) as Hqr by (subst q r; apply Z.quot_rem; lia).
  assert (0 <= q < 10 ^ 13) as Hq by lia.
  assert (fmt_0d 6 r = pad Byte.x30 6 (fmt_u r)) as ->
    by (unfold fmt_0d; destruct (Z.ltb_spec r 0); [lia|done]).
  assert (fmt_d q = fmt_u q) as Hd by (unfold fmt_d; destruct (Z.ltb_spec q 0); [lia|done]).
  pose proof (pad0_length6 r Hr) as H6. pose proof (fmt_u_length q 13 Hq ltac:(lia)) as H13.
  unfold snprintf. rewrite (take_ge (_ ++ _)) 
    by (rewrite Hd, !length_app, H6; change (length (str ".")) with 1%nat; lia).
  rewrite !length_app, H6.
  replace (_ + (length (str ".") + 6) - 7)%nat with (length (fmt_d q))
    by (change (length (str ".")) with 1%nat; lia).
  rewrite take_app_length, fmt_d_parse.
  replace (length (fmt_d q) + 1)%nat with (length (fmt_d q ++ str "."))
    by (rewrite length_app; done).
  rewrite app_assoc, drop_app_length, parse_u_pad0, fmt_u_parse by lia. lia.
Qed.

Lemma toString_roundtrip_witness :
  parse_ts (toString 1700000000000042) = 1700000000000042.
Proof. apply (toString_roundtrip 1700000000000042). lia. Defined.
