(* ===== verification/StdSet.v ===== *)
(** * [std::set] as the sources use it

    An ordered set is the list of its elements in iteration order. The
    operations follow the comparator only, as the red-black tree does:
    [find], [insert] (with the inserted flag), [erase] by key (with the
    count) and [lower_bound] (the elements before it, and from it on). *)

From S2P Require Import Prelude.
From Stdlib Require Import Sorted.

(** [operator<] of the element type. *)
Class StdLess (T : Type) : Type := less : T -> T -> bool.

(** What the standard asks of it, with no two different equivalent keys. *)
Class StdOrder (T : Type) `{!StdLess T} : Prop := {
  less_irrefl : forall x : T, less x x = false;
  less_trans : forall x y z : T, less x y = true -> less y z = true -> less x z = true;
  less_total : forall x y : T, less x y = false -> less y x = false -> x = y;
}.

#[export] Instance Z_less : StdLess Z := Z.ltb.

(** [operator<] of [std::pair]. *)
#[export] Instance pair_less {A B} `{!StdLess A, !StdLess B} : StdLess (A * B) := fun p q =>
  less p.1 q.1 || (negb (less q.1 p.1) && less p.2 q.2).

Section Set_ops.

Context {T : Type} `{!StdLess T}.

Fixpoint set_mem (x : T) (s : list T) : bool :=
  match s with
  | [] => false
  | y :: s' => if less y x then set_mem x s' else negb (less x y)
  end.

Fixpoint set_insert (x : T) (s : list T) : list T * bool :=
  match s with
  | [] => ([x], true)
  | y :: s' =>
      if less x y then (x :: s, true)
      else if less y x then let r := set_insert x s' in (y :: r.1, r.2)
      else (s, false)
  end.

Fixpoint set_erase (x : T) (s : list T) : list T * Z :=
  match s with
  | [] => ([], 0)
  | y :: s' =>
      if less y x then let r := set_erase x s' in (y :: r.1, r.2)
      else if less x y then (s, 0)
      else (s', 1)
  end.

Fixpoint set_lower_bound (x : T) (s : list T) : list T * list T :=
  match s with
  | [] => ([], [])
  | y :: s' =>
      if less y x then let r := set_lower_bound x s' in (y :: r.1, r.2) else ([], s)
  end.

(** The invariant of the container: strictly increasing. *)
Definition set_sorted (s : list T) : Prop := StronglySorted (fun x y => less x y = true) s.

End Set_ops.

#[export] Instance Z_order : StdOrder Z.
Proof.
  constructor; unfold less, Z_less; intros *; rewrite ?Z.ltb_lt, ?Z.ltb_ge; lia.
Qed.

#[export] Instance pair_order {A B} `{StdOrder A, StdOrder B} : StdOrder (A * B).
Proof.
  constructor; unfold less, pair_less.
  - intros [a b]. cbn. by rewrite !less_irrefl.
  - intros [a1 b1] [a2 b2] [a3 b3]; cbn.
    destruct (less a1 a2) eqn:E12, (less a2 a3) eqn:E23; cbn; intros H12 H23.
    + by rewrite (less_trans _ _ _ E12 E23).
    + apply andb_true_iff in H23 as [E32%negb_true_iff _].
      rewrite <- (less_total a2 a3 E23 E32), E12. done.
    + apply andb_true_iff in H12 as [E21%negb_true_iff _].
      rewrite (less_total a1 a2 E12 E21), E23. done.
    + apply andb_true_iff in H12 as [E21%negb_true_iff H12].
      apply andb_true_iff in H23 as [E32%negb_true_iff H23].
      rewrite (less_total a1 a2 E12 E21), (less_total a2 a3 E23 E32), less_irrefl. cbn.
      by eapply less_trans.
  - intros [a1 b1] [a2 b2]; cbn. intros [E12 H12]%orb_false_iff [E21 H21]%orb_false_iff.
    rewrite E21 in H12. rewrite E12 in H21. cbn in *.
    by rewrite (less_total a1 a2), (less_total b1 b2).
Qed.

Section Set_facts.

Context {T : Type} `{StdOrder T}.
Implicit Types (x y : T) (s : list T).

Lemma less_asym x y : less x y = true -> less y x = false.
Proof.
  intros Hxy. destruct (less y x) eqn:E; [|done].
  pose proof (less_trans _ _ _ Hxy E). by rewrite less_irrefl in *.
Qed.

Lemma less_ne x y : less x y = true -> x <> y.
Proof. intros E ->. by rewrite less_irrefl in E. Qed.

Lemma set_sorted_cons y s :
  set_sorted (y :: s) <-> set_sorted s /\ forall z, z ∈ s -> less y z = true.
Proof.
  unfold set_sorted. split.
  - intros [? Hf]%StronglySorted_inv. split; [done|]. by rewrite Forall_forall in Hf.
  - intros [? Hf]. constructor; [done|]. by rewrite Forall_forall.
Qed.

Lemma set_sorted_nil : set_sorted (@nil T).
Proof. constructor. Qed.

(** Below the head means not in the set. *)
Lemma set_sorted_head_not_in x y s :
  set_sorted (y :: s) -> less x y = true -> x ∉ y :: s.
Proof.
  intros [_ Hy]%set_sorted_cons Hx. rewrite not_elem_of_cons. split; [by apply less_ne|].
  intros Hin%Hy. pose proof (less_trans _ _ _ Hx Hin) as Hc. by rewrite less_irrefl in Hc.
Qed.

Lemma set_mem_spec x s : set_sorted s -> set_mem x s = true <-> x ∈ s.
Proof.
  induction s as [|y s IH]; intros Hs; cbn; [split; [done | by intros ?%not_elem_of_nil]|].
  pose proof Hs as [Hs' Hy]%set_sorted_cons.
  destruct (less y x) eqn:E.
  - rewrite IH, elem_of_cons by done. split; [tauto|]. intros [->|?]; [|done].
    by rewrite less_irrefl in E.
  - destruct (less x y) eqn:E'; cbn.
    + split; [done|]. intros Hin. by destruct (set_sorted_head_not_in x y s Hs E').
    + rewrite (less_total x y), elem_of_cons by done. tauto.
Qed.

Lemma set_mem_false x s : set_sorted s -> set_mem x s = false <-> x ∉ s.
Proof. intros. rewrite <- not_true_iff_false. by rewrite set_mem_spec. Qed.

Lemma set_insert_elem x y s : y ∈ (set_insert x s).1 <-> y = x \/ y ∈ s.
Proof.
  induction s as [|z s IH]; cbn; [set_solver|].
  destruct (less x z) eqn:E; cbn; [set_solver|].
  destruct (less z x) eqn:E'; cbn; [set_solver|].
  rewrite (less_total x z) by done. set_solver.
Qed.

Lemma set_insert_sorted x s : set_sorted s -> set_sorted (set_insert x s).1.
Proof.
  induction s as [|z s IH]; intros Hs; cbn; [by apply set_sorted_cons; split; [|intros ? ?%not_elem_of_nil]|].
  pose proof Hs as [Hs' Hz]%set_sorted_cons.
  destruct (less x z) eqn:E; cbn.
  - apply set_sorted_cons. split; [done|]. intros w [->|Hw]%elem_of_cons; [done|].
    eapply less_trans; eauto.
  - destruct (less z x) eqn:E'; cbn; [|done].
    apply set_sorted_cons. split; [auto|]. intros w [->|Hw]%set_insert_elem; auto.
Qed.

(** The inserted flag, and the size. *)
Lemma set_insert_flag x s : set_sorted s -> (set_insert x s).2 = negb (set_mem x s).
Proof.
  induction s as [|z s IH]; intros Hs; cbn; [done|].
  pose proof Hs as [Hs' Hz]%set_sorted_cons.
  destruct (less x z) eqn:E; cbn.
  - by rewrite (less_asym _ _ E).
  - destruct (less z x) eqn:E'; cbn; auto.
Qed.

Lemma set_insert_length x s : set_sorted s -> x ∉ s ->
  zlen (set_insert x s).1 = zlen s + 1 /\ (set_insert x s).2 = true.
Proof.
  intros Hs Hx. rewrite set_insert_flag, (proj2 (set_mem_false x s Hs) Hx) by done. split; [|done].
  induction s as [|z s IH]; cbn; [done|].
  pose proof Hs as [Hs' Hz]%set_sorted_cons. rewrite not_elem_of_cons in Hx.
  unfold zlen in *. destruct (less x z) eqn:E; cbn; [lia|].
  destruct (less z x) eqn:E'; cbn; [rewrite ?Nat2Z.inj_succ, IH by tauto; lia|].
  destruct Hx as [[] _]. by apply less_total.
Qed.

Lemma set_erase_elem x y s : set_sorted s -> y ∈ (set_erase x s).1 <-> y ∈ s /\ y <> x.
Proof.
  induction s as [|z s IH]; intros Hs; cbn; [set_solver|].
  pose proof Hs as [Hs' Hz]%set_sorted_cons.
  destruct (less z x) eqn:E; cbn.
  - rewrite !elem_of_cons, IH by done. pose proof (less_ne _ _ E). naive_solver.
  - destruct (less x z) eqn:E'; cbn.
    + pose proof (set_sorted_head_not_in x z s Hs E') as Hx.
      split; [|tauto]. intros Hy. split; [done|]. by intros ->.
    + assert (z = x) as -> by (by apply less_total). rewrite elem_of_cons.
      split; [|naive_solver]. intros Hy. split; [by right|].
      intros ->. pose proof (Hz _ Hy) as Hc. by rewrite less_irrefl in Hc.
Qed.

Lemma set_erase_sorted x s : set_sorted s -> set_sorted (set_erase x s).1.
Proof.
  induction s as [|z s IH]; intros Hs; cbn; [done|].
  pose proof Hs as [Hs' Hz]%set_sorted_cons.
  destruct (less z x); cbn; [|by destruct (less x z)].
  apply set_sorted_cons. split; [auto|]. intros w [Hw _]%set_erase_elem; auto.
Qed.

Lemma set_erase_count x s : set_sorted s ->
  (set_erase x s).2 = (if set_mem x s then 1 else 0) /\
  zlen (set_erase x s).1 = zlen s - (set_erase x s).2.
Proof.
  unfold zlen. induction s as [|z s IH]; intros Hs; cbn; [done|].
  pose proof Hs as [Hs' Hz]%set_sorted_cons.
  destruct (less z x); cbn; [|destruct (less x z); cbn; lia].
  destruct (IH Hs') as [-> Hl]. split; [done|]. lia.
Qed.

(** [lower_bound] cuts the iteration order in two. *)
Lemma set_lower_bound_spec x s : set_sorted s ->
  s = (set_lower_bound x s).1 ++ (set_lower_bound x s).2 /\
  (forall y, y ∈ (set_lower_bound x s).1 -> less y x = true) /\
  (forall y, y ∈ (set_lower_bound x s).2 -> less y x = false).
Proof.
  induction s as [|z s IH]; intros Hs; cbn; [set_solver|].
  pose proof Hs as [Hs' Hz]%set_sorted_cons. destruct (less z x) eqn:E; cbn.
  - destruct (IH Hs') as (He & Hl & Hr). split_and!; [by f_equal| |done].
    intros y [->|?]%elem_of_cons; auto.
  - split_and!; [done | by intros ? ?%not_elem_of_nil |].
    intros y [->|Hy%Hz]%elem_of_cons; [done|].
    destruct (less y x) eqn:Ey; [|done]. by rewrite (less_trans _ _ _ Hy Ey) in E.
Qed.

Lemma set_sorted_app s1 s2 :
  set_sorted (s1 ++ s2) <->
  set_sorted s1 /\ set_sorted s2 /\ forall x y, x ∈ s1 -> y ∈ s2 -> less x y = true.
Proof.
  induction s1 as [|z s1 IH]; cbn.
  - split; [|tauto]. intros. split_and!; [apply set_sorted_nil | done | by intros ? ? ?%not_elem_of_nil].
  - rewrite !set_sorted_cons, IH. set_solver.
Qed.

Lemma set_sorted_NoDup s : set_sorted s -> NoDup s.
Proof.
  induction s as [|z s IH]; intros Hs; [constructor|].
  apply set_sorted_cons in Hs as [Hs Hz]. constructor; [|auto].
  intros Hin%Hz. by rewrite less_irrefl in Hin.
Qed.

(** A set is determined by its elements. *)
Lemma set_sorted_ext s1 s2 :
  set_sorted s1 -> set_sorted s2 -> (forall x, x ∈ s1 <-> x ∈ s2) -> s1 = s2.
Proof.
  revert s2. induction s1 as [|a s1 IH]; intros [|b s2] H1 H2 He; [done|set_solver|set_solver|].
  assert (a = b) as ->.
  { apply less_total.
    - destruct (less a b) eqn:E; [|done]. destruct (set_sorted_head_not_in a b s2 H2 E). set_solver.
    - destruct (less b a) eqn:E; [|done]. destruct (set_sorted_head_not_in b a s1 H1 E). set_solver. }
  f_equal. apply set_sorted_cons in H1 as [H1 Ha]. apply set_sorted_cons in H2 as [H2 Hb].
  apply IH; [done..|]. intros x. specialize (He x). rewrite !elem_of_cons in He.
  split; intros Hx.
  - destruct (proj1 He (or_intror Hx)) as [->|]; [|done].
    pose proof (Ha _ Hx) as Hc. by rewrite less_irrefl in Hc.
  - destruct (proj2 He (or_intror Hx)) as [->|]; [|done].
    pose proof (Hb _ Hx) as Hc. by rewrite less_irrefl in Hc.
Qed.

(** Iteration order is the order of the comparator. *)
Lemma set_sorted_lookup s : set_sorted s -> forall i j x y,
  (i < j)%nat -> s !! i = Some x -> s !! j = Some y -> less x y = true.
Proof.
  intros Hs i j x y Hij Hx Hy. rewrite <- (take_drop j s) in Hs.
  apply set_sorted_app in Hs as (_ & _ & Hl). apply Hl.
  - apply list_elem_of_lookup. exists i. by rewrite lookup_take_lt.
  - apply list_elem_of_lookup. exists 0%nat. by rewrite lookup_drop, Nat.add_0_r.
Qed.

End Set_facts.

Lemma pair_less_fst (x y : Z * Z) : less x y = true -> x.1 <= y.1.
Proof.
  unfold less, pair_less, less, Z_less. rewrite orb_true_iff, andb_true_iff, negb_true_iff.
  rewrite Z.ltb_lt, Z.ltb_ge. lia.
Qed.

#[export] Hint Resolve set_insert_sorted set_erase_sorted set_sorted_nil set_sorted_NoDup : easylib.
