(* ===== verification/TimerQueue.v ===== *)
(** * Timers: src/mynetlib/net/Timer.h, Timer.cc, TimerId.h, TimerQueue.h, TimerQueue.cc

    Timer objects live in a heap of their own, so that a dangling pointer is
    visible: dereferencing or deleting an address that is not allocated is a
    fault. The queue keeps the two ordered sets of the class, the flags for
    cancellation inside a callback, and what the timerfd was armed with (the
    expiration, the clock at the call, the relative time). User
    callbacks are sequences of loop operations (cancel, add a timer, let time
    pass); operations called from other threads go through the loop's queue of
    pending functors, and a thread that has handed a timer over reads its
    sequence number afterwards, in a step of its own. *)

From stdpp Require Import gmap.
From S2P Require Import Prelude Timestamp StdSet.

(** ** Timer *)

Record Timer : Type := mkTimer {
  callback_ : Z;
  expiration_ : Timestamp;
  interval_ : double;
  repeat_ : bool;
  sequence_ : Z;
}.

Definition Timer_ctor (cb : Z) (when : Timestamp) (interval : double) (sequence : Z) : Timer :=
  mkTimer cb when interval (double_gtb interval double_zero) sequence.

Definition restart (now : Timestamp) (t : Timer) : Timer :=
  mkTimer (callback_ t)
    (if repeat_ t then addTime now (interval_ t) else invalid)
    (interval_ t) (repeat_ t) (sequence_ t).

(** [TimerId] and [ActiveTimer]: a pointer with a sequence number. *)
Abbreviation TimerId := (Z * Z)%type (only parsing).
Abbreviation ActiveTimer := (Z * Z)%type (only parsing).
(** [Entry]: an expiration with a pointer. *)
Abbreviation Entry := (Z * Z)%type (only parsing).

Definition TimerId_default : TimerId := (0, 0).

(** ** The queue's state *)

Definition UINTPTR_MAX : Z := 2 ^ 64 - 1.

Record timespec : Type := mkTimespec { tv_sec : Z; tv_nsec : Z }.

Record TimerQueue : Type := mkTimerQueue {
  heap : gmap Z Timer;
  s_numCreated_ : Z;
  timers_ : list Entry;
  activeTimers_ : list ActiveTimer;
  callingExpiredTimers_ : bool;
  cancelingTimers_ : list ActiveTimer;
  clock : Timestamp;
  armed : option (Timestamp * Timestamp * timespec);
}.

Definition set_heap h q := mkTimerQueue h (s_numCreated_ q) (timers_ q) (activeTimers_ q)
  (callingExpiredTimers_ q) (cancelingTimers_ q) (clock q) (armed q).
Definition set_numCreated n q := mkTimerQueue (heap q) n (timers_ q) (activeTimers_ q)
  (callingExpiredTimers_ q) (cancelingTimers_ q) (clock q) (armed q).
Definition set_sets ts acts q := mkTimerQueue (heap q) (s_numCreated_ q) ts acts
  (callingExpiredTimers_ q) (cancelingTimers_ q) (clock q) (armed q).
Definition set_calling c q := mkTimerQueue (heap q) (s_numCreated_ q) (timers_ q) (activeTimers_ q)
  c (cancelingTimers_ q) (clock q) (armed q).
Definition set_canceling cs q := mkTimerQueue (heap q) (s_numCreated_ q) (timers_ q) (activeTimers_ q)
  (callingExpiredTimers_ q) cs (clock q) (armed q).
Definition set_clock t q := mkTimerQueue (heap q) (s_numCreated_ q) (timers_ q) (activeTimers_ q)
  (callingExpiredTimers_ q) (cancelingTimers_ q) t (armed q).
Definition set_armed a q := mkTimerQueue (heap q) (s_numCreated_ q) (timers_ q) (activeTimers_ q)
  (callingExpiredTimers_ q) (cancelingTimers_ q) (clock q) a.

(** The constructor's state, at the time the loop is created. *)
Definition TimerQueue_ctor (t : Timestamp) : TimerQueue :=
  mkTimerQueue ∅ 0 [] [] false [] t None.

(** [*p] and [delete p]. *)
Definition deref (q : TimerQueue) (p : Z) : outcome Timer :=
  match heap q !! p with Some t => Ok t | None => Fail UseAfterFree end.

Definition delete_timer (q : TimerQueue) (p : Z) : outcome TimerQueue :=
  match heap q !! p with
  | Some _ => Ok (set_heap (delete p (heap q)) q)
  | None => Fail UseAfterFree
  end.

(** ** timerfd *)

Definition howMuchTimeFromNow (when now : Timestamp) : timespec :=
  let d := s64 (when - now) in
  let microseconds := if d <? 100 then 100 else d in
  mkTimespec (Z.quot microseconds kMicroSecondsPerSecond)
             (Z.rem microseconds kMicroSecondsPerSecond * 1000).

Definition resetTimerfd (q : TimerQueue) (expiration : Timestamp) : TimerQueue :=
  set_armed (Some (expiration, clock q, howMuchTimeFromNow expiration (clock q))) q.

(** [read(timerfd)]: [fired] says whether the timer had expired; an expired
    one-shot timerfd is no longer armed. *)
Definition readTimerfd (q : TimerQueue) (fired : bool) : TimerQueue :=
  if fired then set_armed None q else q.

(** ** Queue operations, all in the loop's thread *)

Definition insert (q : TimerQueue) (p : Z) : outcome (TimerQueue * bool) :=
  c_assert (zlen (timers_ q) =? zlen (activeTimers_ q));;
  timer ← deref q p;
  let when := expiration_ timer in
  let earliestChanged :=
    match timers_ q with [] => true | it :: _ => ts_lt when it.1 end in
  let r1 := set_insert (when, p) (timers_ q) in
  c_assert r1.2;;
  let r2 := set_insert (p, sequence_ timer) (activeTimers_ q) in
  c_assert r2.2;;
  c_assert (zlen r1.1 =? zlen r2.1);;
  Ok (set_sets r1.1 r2.1 q, earliestChanged).

Definition addTimerInLoop (q : TimerQueue) (p : Z) : outcome TimerQueue :=
  r ← insert q p;
  if (r.2 : bool) then timer ← deref r.1 p; Ok (resetTimerfd r.1 (expiration_ timer))
  else Ok r.1.

Definition cancelInLoop (q : TimerQueue) (timerId : TimerId) : outcome TimerQueue :=
  c_assert (zlen (timers_ q) =? zlen (activeTimers_ q));;
  q' ← (if set_mem timerId (activeTimers_ q)
        then
          timer ← deref q timerId.1;
          let r := set_erase (expiration_ timer, timerId.1) (timers_ q) in
          c_assert (r.2 =? 1);;
          q1 ← delete_timer (set_sets r.1 (activeTimers_ q) q) timerId.1;
          Ok (set_sets (timers_ q1) (set_erase timerId (activeTimers_ q1)).1 q1)
        else if callingExpiredTimers_ q
        then Ok (set_canceling (set_insert timerId (cancelingTimers_ q)).1 q)
        else Ok q);
  c_assert (zlen (timers_ q') =? zlen (activeTimers_ q'));;
  Ok q'.

(** The loop of [getExpired] over the entries it moved out. *)
Definition erase_expired (q : TimerQueue) (it : Entry) : outcome TimerQueue :=
  t ← deref q it.2;
  let r := set_erase (it.2, sequence_ t) (activeTimers_ q) in
  c_assert (r.2 =? 1);;
  Ok (set_sets (timers_ q) r.1 q).

Definition getExpired (q : TimerQueue) (now : Timestamp) : outcome (list Entry * TimerQueue) :=
  c_assert (zlen (timers_ q) =? zlen (activeTimers_ q));;
  let sentry := (now, UINTPTR_MAX) in
  let lb := set_lower_bound sentry (timers_ q) in
  c_assert (match lb.2 with [] => true | e :: _ => ts_lt now e.1 end);;
  let expired := lb.1 in
  q' ← foldM erase_expired (set_sets lb.2 (activeTimers_ q) q) expired;
  c_assert (zlen (timers_ q') =? zlen (activeTimers_ q'));;
  Ok (expired, q').

(** The loop of [reset]: a repeating timer that was not cancelled meanwhile is
    restarted and inserted again, any other is deleted. *)
Definition reset_one (now : Timestamp) (q : TimerQueue) (it : Entry) : outcome TimerQueue :=
  t ← deref q it.2;
  if repeat_ t && negb (set_mem (it.2, sequence_ t) (cancelingTimers_ q))
  then
    r ← insert (set_heap (<[it.2 := restart now t]> (heap q)) q) it.2;
    Ok r.1
  else delete_timer q it.2.

Definition reset (q : TimerQueue) (expired : list Entry) (now : Timestamp) : outcome TimerQueue :=
  q' ← foldM (reset_one now) q expired;
  match timers_ q' with
  | [] => Ok q'
  | it :: _ =>
      t ← deref q' it.2;
      Ok (if valid (expiration_ t) then resetTimerfd q' (expiration_ t) else q')
  end.

(** ** Callbacks and threads *)

(** What code running in the loop thread does with the queue. *)
Inductive action : Type :=
| ACancel (timerId : TimerId)
| AAdd (cb : Z) (when : Timestamp) (interval : double)
| ATick (t : Timestamp).

Inductive functor : Type :=
| FAddTimerInLoop (p : Z)
| FCancelInLoop (timerId : TimerId).

Section Queue.

(** [operator new]: an unused non-null address, or [bad_alloc]. *)
Context (alloc : gmap Z Timer -> option Z).
(** The user's callbacks, by their identity. *)
Context (user : Z -> list action).

Definition new_timer (q : TimerQueue) (cb : Z) (when : Timestamp) (interval : double) :
    outcome (TimerQueue * Z) :=
  match alloc (heap q) with
  | None => Fail BadAlloc
  | Some p =>
      let seq := s64 (s_numCreated_ q + 1) in
      Ok (set_numCreated seq (set_heap (<[p := Timer_ctor cb when interval seq]> (heap q)) q), p)
  end.

(** [addTimer] called in the loop thread: [runInLoop] runs it at once, then
    the sequence number is read. *)
Definition addTimer (q : TimerQueue) (cb : Z) (when : Timestamp) (interval : double) :
    outcome (TimerQueue * TimerId) :=
  r ← new_timer q cb when interval;
  q' ← addTimerInLoop r.1 r.2;
  t ← deref q' r.2;
  Ok (q', (r.2, sequence_ t)).

Definition run_action (q : TimerQueue) (a : action) : outcome TimerQueue :=
  match a with
  | ACancel timerId => cancelInLoop q timerId
  | AAdd cb when interval => r ← addTimer q cb when interval; Ok r.1
  | ATick t => Ok (set_clock t q)
  end.

(** [Timer::run]: the user's callback is called; each call is logged with the
    identity of the timer. *)
Definition Timer_run (p : Z) (t : Timer) (s : TimerQueue * list ActiveTimer) :
    outcome (TimerQueue * list ActiveTimer) :=
  q' ← foldM run_action s.1 (user (callback_ t));
  Ok (q', s.2 ++ [(p, sequence_ t)]).

Definition run_timer (s : TimerQueue * list ActiveTimer) (it : Entry) :
    outcome (TimerQueue * list ActiveTimer) :=
  t ← deref s.1 it.2;
  Timer_run it.2 t s.

(** [handleRead], with the log of the callbacks it called. *)
Definition handleRead (q : TimerQueue) (fired : bool) : outcome (TimerQueue * list ActiveTimer) :=
  let now := clock q in
  let q0 := readTimerfd q fired in
  r ← getExpired q0 now;
  let expired := r.1 in
  let q1 := set_canceling [] (set_calling true r.2) in
  r2 ← foldM run_timer (q1, []) expired;
  q3 ← reset (set_calling false r2.1) expired now;
  Ok (q3, r2.2).

(** ** The queue with the loop's pending functors *)

(** [returning]: the calls of [addTimer] in other threads that have handed
    their timer over and not read its sequence number yet, by the timers'
    identities; [handed]: the identities these calls returned. *)
Record sys : Type := mkSys {
  tq : TimerQueue;
  pending : list functor;
  returning : list ActiveTimer;
  handed : list TimerId;
}.

(** One step of the process: another thread adds a timer (up to the hand-over
    to the loop), an [addTimer] of another thread reads the sequence number
    and returns, another thread cancels a timer, the loop runs its oldest
    pending functor, code in the loop uses the queue, or the timerfd becomes
    readable. *)
Inductive label : Type :=
| LAddRemote (cb : Z) (when : Timestamp) (interval : double)
| LAddReturn (i : nat)
| LCancelRemote (timerId : TimerId)
| LFunctor
| LAction (a : action)
| LHandleRead (fired : bool).

Definition set_tq q s := mkSys q (pending s) (returning s) (handed s).
Definition set_pending fs s := mkSys (tq s) fs (returning s) (handed s).

(** The rest of [addTimer] in another thread, after [runInLoop]: it reads the
    sequence number of the timer it handed over. *)
Definition addTimer_return (s : sys) (p : Z) : outcome TimerId :=
  t ← deref (tq s) p; Ok (p, sequence_ t).

(** A step, with the timers whose callbacks it ran. *)
Definition sys_exec (s : sys) (l : label) : outcome (sys * list ActiveTimer) :=
  match l with
  | LAddRemote cb when interval =>
      r ← new_timer (tq s) cb when interval;
      Ok (mkSys r.1 (pending s ++ [FAddTimerInLoop r.2]) (returning s ++ [(r.2, s_numCreated_ r.1)]) (handed s), [])
  | LAddReturn i =>
      match returning s !! i with
      | Some timer =>
          timerId ← addTimer_return s timer.1;
          Ok (mkSys (tq s) (pending s) (delete i (returning s)) (handed s ++ [timerId]), [])
      | None => Ok (s, [])
      end
  | LCancelRemote timerId => Ok (set_pending (pending s ++ [FCancelInLoop timerId]) s, [])
  | LFunctor =>
      match pending s with
      | [] => Ok (s, [])
      | FAddTimerInLoop p :: fs => q ← addTimerInLoop (tq s) p; Ok (set_pending fs (set_tq q s), [])
      | FCancelInLoop timerId :: fs => q ← cancelInLoop (tq s) timerId; Ok (set_pending fs (set_tq q s), [])
      end
  | LAction a => q ← run_action (tq s) a; Ok (set_tq q s, [])
  | LHandleRead fired =>
      r ← handleRead (tq s) fired; Ok (set_tq r.1 s, r.2)
  end.

(** A run of the process, with the timers that fired at each step. *)
Fixpoint sys_run (s : sys) (ls : list label) : outcome (sys * list (list ActiveTimer)) :=
  match ls with
  | [] => Ok (s, [])
  | l :: ls' =>
      r ← sys_exec s l;
      r' ← sys_run r.1 ls';
      Ok (r'.1, r.2 :: r'.2)
  end.

End Queue.

(** [~TimerQueue]: every timer still queued is deleted. *)
Definition TimerQueue_dtor (q : TimerQueue) : outcome TimerQueue :=
  foldM (fun q it => delete_timer q it.2) q (timers_ q).
