(* ===== verification/TimerQueueInv.v ===== *)
(** * The TimerQueue invariant and what each operation does to it

    [inv q own]: both sets are sorted, have the same size and describe the
    same timers, and every allocated timer is either in the queue or owned by
    someone outside it ([own]: a pending functor, or the vector of expired
    entries while callbacks run). Each operation is shown not to fault and to
    carry the invariant over. *)

From stdpp Require Import gmap.
From S2P Require Import Prelude Timestamp StdSet TimerQueue.

Record inv (q : TimerQueue) (own : list Z) : Prop := mkInv {
  inv_timers_sorted : set_sorted (timers_ q);
  inv_active_sorted : set_sorted (activeTimers_ q);
  inv_canceling_sorted : set_sorted (cancelingTimers_ q);
  inv_size : zlen (timers_ q) = zlen (activeTimers_ q);
  inv_entry : forall w p, (w, p) ∈ timers_ q ->
    exists t, heap q !! p = Some t /\ expiration_ t = w /\ (p, sequence_ t) ∈ activeTimers_ q;
  inv_active : forall p s, (p, s) ∈ activeTimers_ q ->
    exists t, heap q !! p = Some t /\ sequence_ t = s /\ (expiration_ t, p) ∈ timers_ q;
  inv_own_NoDup : NoDup own;
  inv_heap : forall p, is_Some (heap q !! p) <-> (exists s, (p, s) ∈ activeTimers_ q) \/ p ∈ own;
  inv_disjoint : forall p s, (p, s) ∈ activeTimers_ q -> p ∉ own;
  inv_addr : forall p t, heap q !! p = Some t -> 0 < p < UINTPTR_MAX;
  inv_seq : forall p t, heap q !! p = Some t -> 1 <= sequence_ t <= s_numCreated_ q;
  inv_seq_inj : forall p p' t t', heap q !! p = Some t -> heap q !! p' = Some t' ->
    sequence_ t = sequence_ t' -> p = p';
}.

(** What [operator new] promises. *)
Definition alloc_spec (alloc : gmap Z Timer -> option Z) : Prop :=
  forall h p, alloc h = Some p -> h !! p = None /\ 0 < p < UINTPTR_MAX.

Lemma inv_ctor t : inv (TimerQueue_ctor t) [].
Proof.
  constructor; cbn; try (by intros * ?%not_elem_of_nil); auto using set_sorted_nil.
  - constructor.
  - intros p. rewrite lookup_empty. split; [by intros []|].
    intros [[? ?%not_elem_of_nil]|?%not_elem_of_nil]; done.
  - intros *. by rewrite lookup_empty.
  - intros *. by rewrite lookup_empty.
  - intros *. by rewrite lookup_empty.
Qed.

(** The fields [inv] does not read. *)
Lemma inv_frame q q' own :
  inv q own -> heap q' = heap q -> s_numCreated_ q' = s_numCreated_ q ->
  timers_ q' = timers_ q -> activeTimers_ q' = activeTimers_ q ->
  set_sorted (cancelingTimers_ q') -> inv q' own.
Proof.
  intros [] Hh Hn Ht Ha Hc. constructor; rewrite ?Hh, ?Hn, ?Ht, ?Ha; done.
Qed.

Lemma inv_own_alive q own p : inv q own -> p ∈ own -> exists t, heap q !! p = Some t.
Proof. intros Hi Hp. apply (inv_heap _ _ Hi). by right. Qed.

(** A pointer owned outside is in neither set. *)
Lemma inv_own_not_entry q own p w : inv q own -> p ∈ own -> (w, p) ∉ timers_ q.
Proof.
  intros Hi Hp (t & _ & _ & Ha)%(inv_entry _ _ Hi). by apply (inv_disjoint _ _ Hi) in Ha.
Qed.

Lemma inv_own_not_active q own p s : inv q own -> p ∈ own -> (p, s) ∉ activeTimers_ q.
Proof. intros Hi Hp Ha. by apply (inv_disjoint _ _ Hi) in Ha. Qed.

Lemma inv_perm q own own' : inv q own -> own ≡ₚ own' -> inv q own'.
Proof.
  intros Hi Hp. destruct Hi. constructor; try done.
  - by rewrite <- Hp.
  - intros p. by rewrite <- Hp.
  - intros p s Ha. rewrite <- Hp. eauto.
Qed.

(** ** insert *)

Definition earliest_changed (q : TimerQueue) (when : Timestamp) : bool :=
  match timers_ q with [] => true | it :: _ => ts_lt when it.1 end.

Definition inserted (q : TimerQueue) (p : Z) (t : Timer) : TimerQueue :=
  set_sets (set_insert (expiration_ t, p) (timers_ q)).1
           (set_insert (p, sequence_ t) (activeTimers_ q)).1 q.

Lemma insert_eq q own p t :
  inv q (p :: own) -> heap q !! p = Some t ->
  insert q p = Ok (inserted q p t, earliest_changed q (expiration_ t)).
Proof.
  intros Hi Ht. unfold insert, deref. rewrite Ht, (inv_size _ _ Hi), Z.eqb_refl. cbn.
  destruct (set_insert_length (expiration_ t, p) (timers_ q)) as [Hl1 ->].
  { apply Hi. } { eapply inv_own_not_entry; [done|by left]. }
  destruct (set_insert_length (p, sequence_ t) (activeTimers_ q)) as [Hl2 ->].
  { apply Hi. } { eapply inv_own_not_active; [done|by left]. }
  cbn. rewrite Hl1, Hl2, (inv_size _ _ Hi), Z.eqb_refl. done.
Qed.

Lemma inv_inserted q own p t :
  inv q (p :: own) -> heap q !! p = Some t -> inv (inserted q p t) own.
Proof.
  intros Hi Ht.
  assert (p ∉ own) as Hp by (pose proof (inv_own_NoDup _ _ Hi) as H; by inversion_clear H).
  assert (forall w, (w, p) ∉ timers_ q) as Hw by (intros w; eapply inv_own_not_entry; [done|by left]).
  assert (forall s, (p, s) ∉ activeTimers_ q) as Hs
    by (intros s; eapply inv_own_not_active; [done|by left]).
  destruct (set_insert_length (expiration_ t, p) (timers_ q)) as [Hl1 _]; [apply Hi|auto|].
  destruct (set_insert_length (p, sequence_ t) (activeTimers_ q)) as [Hl2 _]; [apply Hi|auto|].
  constructor; cbn; try apply Hi.
  - apply set_insert_sorted, Hi.
  - apply set_insert_sorted, Hi.
  - rewrite Hl1, Hl2, (inv_size _ _ Hi). done.
  - intros w p'. rewrite set_insert_elem. intros [[= -> ->]|Hin].
    + exists t. rewrite set_insert_elem. auto.
    + destruct (inv_entry _ _ Hi _ _ Hin) as (t' & ? & ? & ?).
      exists t'. rewrite set_insert_elem. auto.
  - intros p' s'. rewrite set_insert_elem. intros [[= -> ->]|Hin].
    + exists t. rewrite set_insert_elem. auto.
    + destruct (inv_active _ _ Hi _ _ Hin) as (t' & ? & ? & ?).
      exists t'. rewrite set_insert_elem. auto.
  - pose proof (inv_own_NoDup _ _ Hi) as H. by inversion_clear H.
  - intros p'. rewrite (inv_heap _ _ Hi). setoid_rewrite set_insert_elem. rewrite elem_of_cons.
    split; [intros [[s ?]|[->|?]]|intros [[s [[= -> ->]|?]]|?]]; eauto.
  - intros p' s'. rewrite set_insert_elem. intros [[= -> _]|Hin]; [done|].
    apply (inv_disjoint _ _ Hi) in Hin. set_solver.
Qed.

Lemma addTimerInLoop_ok q own p :
  inv q (p :: own) ->
  exists t q', heap q !! p = Some t /\ addTimerInLoop q p = Ok q' /\ inv q' own /\
    heap q' = heap q /\
    timers_ q' = (set_insert (expiration_ t, p) (timers_ q)).1 /\
    activeTimers_ q' = (set_insert (p, sequence_ t) (activeTimers_ q)).1 /\
    q' = (if earliest_changed q (expiration_ t)
          then resetTimerfd (inserted q p t) (expiration_ t) else inserted q p t).
Proof.
  intros Hi. destruct (inv_own_alive _ _ p Hi ltac:(by left)) as [t Ht].
  pose proof (inv_inserted _ _ _ _ Hi Ht) as Hi'.
  exists t. unfold addTimerInLoop. rewrite (insert_eq q own p t) by done. cbn.
  destruct (earliest_changed q (expiration_ t)); cbn; eexists.
  - unfold deref. cbn. rewrite Ht. cbn. split_and!; try done.
    eapply inv_frame; [apply Hi'|done..|]. apply Hi.
  - split_and!; done.
Qed.

(** ** new Timer *)

Definition created (q : TimerQueue) (p : Z) (t : Timer) : TimerQueue :=
  set_numCreated (sequence_ t) (set_heap (<[p := t]> (heap q)) q).

(** Room for [n] more timers in the int64_t sequence counter. *)
Definition few_timers (q : TimerQueue) (n : Z) : Prop :=
  0 <= s_numCreated_ q /\ s_numCreated_ q + n < 2 ^ 63.

Lemma inv_created q own p t :
  inv q own -> heap q !! p = None -> 0 < p < UINTPTR_MAX -> 0 <= s_numCreated_ q ->
  sequence_ t = s_numCreated_ q + 1 -> inv (created q p t) (p :: own).
Proof.
  intros Hi Hnone Haddr Hpos Hseq.
  assert (p ∉ own) as Hown.
  { intros Hin. destruct (inv_own_alive _ _ _ Hi Hin) as [t' Ht]. congruence. }
  assert (forall p' t', <[p:=t]> (heap q) !! p' = Some t' ->
    (p' = p /\ t' = t) \/ (p' <> p /\ heap q !! p' = Some t')) as Hl.
  { intros p' t'. rewrite lookup_insert. case_decide; [intros [= <-]; subst; by left|by right]. }
  constructor; cbn; try apply Hi; rewrite ?Hseq.
  - intros w p' (t' & Ht & ? & ?)%(inv_entry _ _ Hi). exists t'.
    rewrite lookup_insert_ne by congruence. done.
  - intros p' s (t' & Ht & ? & ?)%(inv_active _ _ Hi). exists t'.
    rewrite lookup_insert_ne by congruence. done.
  - constructor; [done|apply Hi].
  - intros p'. rewrite lookup_insert, elem_of_cons. case_decide; [subst; split; eauto|].
    rewrite (inv_heap _ _ Hi). naive_solver.
  - intros p' s Hin. rewrite not_elem_of_cons. split; [|by eapply inv_disjoint].
    destruct (inv_active _ _ Hi _ _ Hin) as (t' & Ht & _). congruence.
  - intros p' t' [[-> _]|[_ Ht]]%Hl; [done|by eapply inv_addr].
  - intros p' t' [[-> ->]|[_ Ht]]%Hl; [lia|]. pose proof (inv_seq _ _ Hi _ _ Ht). lia.
  - intros p1 p2 t1 t2 [[-> ->]|[_ H1]]%Hl [[-> ->]|[_ H2]]%Hl Heq; [done| | |].
    + pose proof (inv_seq _ _ Hi _ _ H2). lia.
    + pose proof (inv_seq _ _ Hi _ _ H1). lia.
    + by eapply (inv_seq_inj _ _ Hi).
Qed.

Lemma new_timer_ok alloc q own cb when interval p :
  alloc_spec alloc -> inv q own -> few_timers q 1 -> alloc (heap q) = Some p ->
  let t := Timer_ctor cb when interval (s_numCreated_ q + 1) in
  new_timer alloc q cb when interval = Ok (created q p t, p) /\ inv (created q p t) (p :: own).
Proof.
  intros Ha Hi [Hpos Hmax] Hp t. destruct (Ha _ _ Hp) as [Hnone Haddr].
  split; [|by apply inv_created].
  unfold new_timer. rewrite Hp. unfold s64. rewrite (signed_small 64) by lia. done.
Qed.

(** ** cancel *)

Definition removed (q : TimerQueue) (id : TimerId) (t : Timer) : TimerQueue :=
  set_sets (set_erase (expiration_ t, id.1) (timers_ q)).1
           (set_erase id (activeTimers_ q)).1
           (set_heap (delete id.1 (heap q)) q).

Lemma inv_removed q own id t :
  inv q own -> id ∈ activeTimers_ q -> heap q !! id.1 = Some t ->
  (set_erase (expiration_ t, id.1) (timers_ q)).2 = 1 /\ inv (removed q id t) own.
Proof.
  intros Hi Hid Ht. destruct id as [p s]. cbn [fst] in *.
  destruct (inv_active _ _ Hi _ _ Hid) as (t' & Ht' & Hs & Hin).
  rewrite Ht in Ht'. injection Ht' as <-.
  pose proof (inv_timers_sorted _ _ Hi) as Hts. pose proof (inv_active_sorted _ _ Hi) as Has.
  destruct (set_erase_count (expiration_ t, p) (timers_ q) Hts) as [Hn1 Hl1].
  destruct (set_erase_count (p, s) (activeTimers_ q) Has) as [Hn2 Hl2].
  rewrite (proj2 (set_mem_spec _ _ Hts) Hin) in Hn1. rewrite (proj2 (set_mem_spec _ _ Has) Hid) in Hn2.
  split; [done|].
  assert (forall p' w, (w, p') ∈ timers_ q -> (w, p') <> (expiration_ t, p) -> p' <> p) as Hp.
  { intros p' w (t' & Ht' & <- & _)%(inv_entry _ _ Hi) Hne ->. congruence. }
  assert (forall p' s', (p', s') ∈ activeTimers_ q -> (p', s') <> (p, s) -> p' <> p) as Hp2.
  { intros p' s' (t' & Ht' & <- & _)%(inv_active _ _ Hi) Hne ->. congruence. }
  constructor; cbn; try apply Hi.
  - by apply set_erase_sorted.
  - by apply set_erase_sorted.
  - rewrite Hl1, Hl2, Hn1, Hn2, (inv_size _ _ Hi). done.
  - intros w p'. rewrite set_erase_elem by done. intros [Hw Hne].
    destruct (inv_entry _ _ Hi _ _ Hw) as (t' & ? & ? & ?). pose proof (Hp _ _ Hw Hne).
    exists t'. rewrite lookup_delete_ne, set_erase_elem by done. split_and!; congruence.
  - intros p' s'. rewrite set_erase_elem by done. intros [Hw Hne].
    destruct (inv_active _ _ Hi _ _ Hw) as (t' & ? & ? & ?). pose proof (Hp2 _ _ Hw Hne).
    exists t'. rewrite lookup_delete_ne, set_erase_elem by done. split_and!; congruence.
  - intros p'. setoid_rewrite (set_erase_elem (p, s)); [|done].
    rewrite lookup_delete. case_decide as E; [subst p'|].
    + split; [by intros []|]. intros [[s' [H1 H2]]|Hown]; [by destruct (Hp2 _ _ H1 H2)|].
      by destruct (inv_disjoint _ _ Hi _ _ Hid).
    + rewrite (inv_heap _ _ Hi). split; intros [[s' H1]|?]; eauto.
      * left. exists s'. split; [done|congruence].
      * left. exists s'. tauto.
  - intros p' s'. rewrite set_erase_elem by done. intros [? _]. by eapply inv_disjoint.
  - intros p' t' [_ ?]%lookup_delete_Some. by eapply inv_addr.
  - intros p' t' [_ ?]%lookup_delete_Some. by eapply inv_seq.
  - intros p1 p2 t1 t2 [_ ?]%lookup_delete_Some [_ ?]%lookup_delete_Some. by eapply inv_seq_inj.
Qed.

(** The three branches of [cancelInLoop]. *)
Lemma cancelInLoop_ok q own id :
  inv q own ->
  exists q', cancelInLoop q id = Ok q' /\ inv q' own /\
    ((exists t, id ∈ activeTimers_ q /\ heap q !! id.1 = Some t /\ q' = removed q id t) \/
     (~ (id ∈ activeTimers_ q) /\ callingExpiredTimers_ q = true /\
        q' = set_canceling (set_insert id (cancelingTimers_ q)).1 q) \/
     (~ (id ∈ activeTimers_ q) /\ callingExpiredTimers_ q = false /\ q' = q)).
Proof.
  intros Hi. unfold cancelInLoop. rewrite (inv_size _ _ Hi), Z.eqb_refl. cbn.
  destruct (set_mem id (activeTimers_ q)) eqn:E.
  - apply set_mem_spec in E; [|apply Hi]. pose proof E as E'. destruct id as [p s]. cbn [fst].
    apply (inv_active _ _ Hi) in E' as (t & Ht & _ & _).
    destruct (inv_removed q own (p, s) t Hi E Ht) as [Hn Hi']. cbn [fst] in Hn.
    unfold deref. rewrite Ht. cbn. rewrite Hn. cbn. unfold delete_timer. cbn. rewrite Ht. cbn.
    pose proof (inv_size _ _ Hi') as Hsz. cbn in Hsz. rewrite Hsz, Z.eqb_refl. cbn.
    eexists. split; [done|]. split; [done|]. left. exists t. done.
  - apply set_mem_false in E; [|apply Hi]. destruct (callingExpiredTimers_ q) eqn:Ec; cbn;
      rewrite (inv_size _ _ Hi), Z.eqb_refl; cbn; eexists; (split; [done|]); split; auto.
    eapply inv_frame; [done..|]. cbn. apply set_insert_sorted, Hi.
Qed.

(** ** Loop-thread actions *)

(** Everything an action or a whole callback leaves alone. *)
Definition keeps (q q' : TimerQueue) (own : list Z) : Prop :=
  (forall p, p ∈ own -> heap q' !! p = heap q !! p) /\
  callingExpiredTimers_ q' = callingExpiredTimers_ q /\
  s_numCreated_ q <= s_numCreated_ q'.

Lemma keeps_refl q own : keeps q q own.
Proof. done. Qed.

Lemma keeps_trans q1 q2 q3 own : keeps q1 q2 own -> keeps q2 q3 own -> keeps q1 q3 own.
Proof.
  intros (H1 & H2 & H3) (H4 & H5 & H6). split_and!; [|congruence|lia].
  intros p Hp. rewrite H4, H1; done.
Qed.

Section Actions.

Context (alloc : gmap Z Timer -> option Z).
Hypothesis Halloc : alloc_spec alloc.

(** The only faults the environment can cause are an exhausted heap and a
    sequence counter at its end. *)
Definition benign {A} (m : outcome A) (P : A -> Prop) : Prop :=
  match m with
  | Ok a => P a
  | Fail f => f = BadAlloc
  end.

Definition action_adds (a : action) : Z := match a with AAdd _ _ _ => 1 | _ => 0 end.

Fixpoint adds (l : list action) : Z :=
  match l with [] => 0 | a :: l' => action_adds a + adds l' end.

Lemma action_adds_nonneg a : 0 <= action_adds a.
Proof. destruct a; cbn; lia. Qed.

Lemma adds_nonneg l : 0 <= adds l.
Proof. induction l as [|a l IH]; cbn [adds]; [lia|]. pose proof (action_adds_nonneg a). lia. Qed.

Lemma addTimer_ok q own cb when interval :
  inv q own -> few_timers q 1 ->
  benign (addTimer alloc q cb when interval) (fun r =>
    inv r.1 own /\ keeps q r.1 own /\ s_numCreated_ r.1 = s_numCreated_ q + 1 /\
    exists p, alloc (heap q) = Some p /\ r.2 = (p, s_numCreated_ q + 1) /\
      heap r.1 = <[p := Timer_ctor cb when interval (s_numCreated_ q + 1)]> (heap q) /\
      timers_ r.1 = (set_insert (when, p) (timers_ q)).1 /\
      activeTimers_ r.1 = (set_insert (p, s_numCreated_ q + 1) (activeTimers_ q)).1 /\
      cancelingTimers_ r.1 = cancelingTimers_ q).
Proof.
  intros Hi Hf. unfold addTimer. destruct (alloc (heap q)) as [p|] eqn:Ep.
  2: { unfold new_timer. rewrite Ep. done. }
  destruct (new_timer_ok alloc q own cb when interval p) as [-> Hi1]; [done..|]. cbn.
  destruct (addTimerInLoop_ok _ own p Hi1) as (t & q2 & Hp & -> & Hi2 & Hh2 & Ht2 & Ha2 & Hq2).
  cbn [mbind outcome_bind]. unfold deref. rewrite Hh2, Hp. cbn in Hp. rewrite lookup_insert_eq in Hp. injection Hp as <-. cbn.
  split_and!; [done| | |].
  - split_and!.
    + intros p' Hp'. rewrite Hh2. cbn. rewrite lookup_insert_ne; [done|].
      intros ->. destruct (inv_own_alive _ _ _ Hi Hp') as [t Ht].
      apply Halloc in Ep as [? _]. congruence.
    + rewrite Hq2. by destruct (earliest_changed _ _).
    + rewrite Hq2. destruct (earliest_changed _ _); cbn; lia.
  - rewrite Hq2. by destruct (earliest_changed _ _).
  - exists p. split_and!; try done. rewrite Hq2. by destruct (earliest_changed _ _).
Qed.

Lemma run_action_ok q own a :
  inv q own -> few_timers q (action_adds a) ->
  benign (run_action alloc q a) (fun q' =>
    inv q' own /\ keeps q q' own /\ s_numCreated_ q' = s_numCreated_ q + action_adds a).
Proof.
  intros Hi Hf. destruct a as [id|cb when interval|t]; cbn.
  - destruct (cancelInLoop_ok q own id Hi) as (q' & -> & Hi' & Hq'). cbn.
    split_and!; [done| |].
    + destruct Hq' as [(t & Hid & _ & ->)|[(_ & _ & ->)|(_ & _ & ->)]]; [|done..].
      split_and!; [|done|done]. intros p Hp. cbn. apply lookup_delete_ne.
      intros <-. destruct id as [p s]. by apply (inv_disjoint _ _ Hi) in Hid.
    + destruct Hq' as [(t & _ & _ & ->)|[(_ & _ & ->)|(_ & _ & ->)]]; cbn; lia.
  - pose proof (addTimer_ok q own cb when interval Hi Hf) as H.
    destruct (addTimer alloc q cb when interval); cbn in *; [|done]. tauto.
  - split_and!; [|done|lia]. eapply inv_frame; [done..|]. apply Hi.
Qed.

Lemma run_actions_ok l : forall q own,
  inv q own -> few_timers q (adds l) ->
  benign (foldM (run_action alloc) q l) (fun q' =>
    inv q' own /\ keeps q q' own /\ s_numCreated_ q' = s_numCreated_ q + adds l).
Proof.
  induction l as [|a l IH]; intros q own Hi Hf; cbn [adds foldM].
  - cbn. split_and!; [done..|lia].
  - pose proof (action_adds_nonneg a). pose proof (adds_nonneg l). cbn [adds] in Hf.
    pose proof (run_action_ok q own a Hi ltac:(unfold few_timers in *; lia)) as H1.
    destruct (run_action alloc q a) as [q1|]; cbn in H1 |- *; [|done].
    destruct H1 as (Hi1 & Hk1 & Hn1).
    specialize (IH q1 own Hi1 ltac:(unfold few_timers in *; lia)).
    destruct (foldM _ q1 l) as [q2|]; cbn in *; [|done].
    destruct IH as (Hi2 & Hk2 & Hn2). split_and!; [done|by eapply keeps_trans|lia].
Qed.

End Actions.

(** ** getExpired *)

Definition expired_of (q : TimerQueue) (now : Timestamp) : list Entry :=
  (set_lower_bound (now, UINTPTR_MAX) (timers_ q)).1.

Definition later_of (q : TimerQueue) (now : Timestamp) : list Entry :=
  (set_lower_bound (now, UINTPTR_MAX) (timers_ q)).2.

(** The sentry separates the entries due by [now] from the later ones. *)
Lemma expired_split q own now : inv q own ->
  timers_ q = expired_of q now ++ later_of q now /\
  (forall w p, (w, p) ∈ expired_of q now <-> (w, p) ∈ timers_ q /\ w <= now) /\
  (forall w p, (w, p) ∈ later_of q now <-> (w, p) ∈ timers_ q /\ now < w).
Proof.
  intros Hi. unfold expired_of, later_of.
  destruct (set_lower_bound_spec (now, UINTPTR_MAX) (timers_ q)) as (He & Hl & Hr); [apply Hi|].
  set (E := (set_lower_bound _ _).1) in *. set (L := (set_lower_bound _ _).2) in *.
  assert (forall w p, (w, p) ∈ timers_ q -> less (w, p) (now, UINTPTR_MAX) = true <-> w <= now) as Hlt.
  { intros w p (t & Ht & _)%(inv_entry _ _ Hi). apply (inv_addr _ _ Hi) in Ht.
    unfold less, pair_less. cbn. unfold less, Z_less. rewrite orb_true_iff, andb_true_iff, negb_true_iff.
    rewrite !Z.ltb_lt, Z.ltb_ge. lia. }
  assert (forall x, x ∈ timers_ q <-> x ∈ E \/ x ∈ L) as Hel
    by (intros x; rewrite He; apply elem_of_app).
  split_and!; [done| |]; intros w p; (split; [intros Hin|intros [Hin Hle]]).
  - assert ((w, p) ∈ timers_ q) by (apply Hel; by left). split; [done|]. apply (Hlt w p); auto.
  - pose proof Hin as [?|Hx]%Hel; [done|]. apply (Hlt w p) in Hle; [|done].
    apply Hr in Hx. congruence.
  - assert ((w, p) ∈ timers_ q) by (apply Hel; by right). split; [done|].
    apply Hr in Hin. destruct (Z.le_gt_cases w now) as [Hle|]; [|lia].
    apply (Hlt w p) in Hle; [congruence|done].
  - pose proof Hin as [Hx|?]%Hel; [|done]. apply Hl, Hlt in Hx; [lia|done].
Qed.

Lemma timers_ptr_NoDup q own : inv q own -> NoDup ((timers_ q).*2).
Proof.
  intros Hi. apply NoDup_fmap_2_strong; [|apply set_sorted_NoDup, Hi].
  intros [w p] [w' p'] (t & Ht & <- & _)%(inv_entry _ _ Hi) (t' & Ht' & <- & _)%(inv_entry _ _ Hi).
  cbn. intros ->. congruence.
Qed.

(** The invariant of the erasing loop: [l] is still to be erased. *)
Definition erase_inv (q : TimerQueue) (now : Timestamp) (s : TimerQueue) (l : list Entry) : Prop :=
  s = set_sets (later_of q now) (activeTimers_ s) q /\
  set_sorted (activeTimers_ s) /\
  zlen (activeTimers_ s) = zlen (later_of q now) + zlen l /\
  NoDup (l.*2) /\ (forall e, e ∈ l -> e ∈ expired_of q now) /\
  (forall p n, (p, n) ∈ activeTimers_ s <->
     (p, n) ∈ activeTimers_ q /\ (p ∈ l.*2 \/ p ∉ (expired_of q now).*2)).

Lemma erase_expired_step q own now s it l :
  inv q own -> erase_inv q now s (it :: l) ->
  exists s', erase_expired s it = Ok s' /\ erase_inv q now s' l.
Proof.
  intros Hi (Hs & Hsort & Hlen & Hnd & Hin & Hact). destruct it as [w p].
  pose proof (Hin (w, p) ltac:(by left)) as Hexp.
  destruct (expired_split q own now Hi) as (_ & He & _).
  apply He in Hexp as [Hexp _]. destruct (inv_entry _ _ Hi _ _ Hexp) as (t & Ht & _ & Ha).
  cbn [fmap list_fmap] in Hnd. apply NoDup_cons in Hnd as [Hp Hnd].
  assert ((p, sequence_ t) ∈ activeTimers_ s) as Hmem.
  { apply Hact. split; [done|]. left. by left. }
  unfold erase_expired, deref. rewrite Hs. cbn. rewrite Ht. cbn.
  destruct (set_erase_count (p, sequence_ t) (activeTimers_ s) Hsort) as [Hn Hl].
  rewrite (proj2 (set_mem_spec _ _ Hsort) Hmem) in Hn. rewrite Hn. cbn.
  eexists. split; [done|]. split_and!; cbn.
  - done.
  - by apply set_erase_sorted.
  - rewrite Hl, Hlen, Hn. unfold zlen. cbn. lia.
  - done.
  - intros e ?. apply Hin. by right.
  - intros p' n. rewrite set_erase_elem, Hact by done. cbn. rewrite elem_of_cons.
    assert (p ∈ (expired_of q now).*2) as Hpe
      by (apply list_elem_of_fmap; exists (w, p); split; [done|]; apply Hin; by left).
    split.
    + intros [[Ha' [[->|?]|?]] Hne]; auto. exfalso. apply Hne. f_equal.
      destruct (inv_active _ _ Hi _ _ Ha') as (t' & ? & <- & _). congruence.
    + intros [Ha' Hor]. split; [tauto|]. intros [= -> ->]. tauto.
Qed.

(** Once every expired entry is erased, the expired timers are owned by the
    vector that [getExpired] returns. *)
Lemma erase_inv_done q own now q' :
  inv q own -> erase_inv q now q' [] -> inv q' ((expired_of q now).*2 ++ own).
Proof.
  intros Hi (Hq & Hsort & Hlen & _ & _ & Hact).
  destruct (expired_split q own now Hi) as (Hsplit & He & Hlat).
  pose proof (timers_ptr_NoDup q own Hi) as Hnd. rewrite Hsplit, fmap_app in Hnd.
  apply NoDup_app in Hnd as (Hnd & Hdis & _).
  assert (forall p n, (p, n) ∈ activeTimers_ q' <->
    (p, n) ∈ activeTimers_ q /\ p ∉ (expired_of q now).*2) as Hact'.
  { intros p n. rewrite Hact. cbn. set_solver. }
  assert (forall p, p ∈ (expired_of q now).*2 -> exists t, heap q !! p = Some t /\
    (p, sequence_ t) ∈ activeTimers_ q) as Hptr.
  { intros p ([w p'] & -> & [Hin _]%He)%list_elem_of_fmap.
    destruct (inv_entry _ _ Hi _ _ Hin) as (t & ? & _ & ?). eauto. }
  rewrite Hq. constructor; cbn; try apply Hi; try done.
  - eapply set_sorted_app. rewrite <- Hsplit. apply Hi.
  - rewrite Hlen. apply eq_sym, Z.add_0_r.
  - intros w p Hin. pose proof Hin as [Hin' _]%Hlat.
    destruct (inv_entry _ _ Hi _ _ Hin') as (t & ? & ? & ?). exists t. split_and!; [done..|].
    apply Hact'. split; [done|]. intros Hx. apply (Hdis p Hx).
    apply list_elem_of_fmap. by exists (w, p).
  - intros p n [Ha Hx]%Hact'. destruct (inv_active _ _ Hi _ _ Ha) as (t & ? & ? & Hin).
    exists t. split_and!; [done..|]. apply Hlat. split; [done|].
    destruct (Z.le_gt_cases (expiration_ t) now) as [Hle|]; [|lia]. destruct Hx.
    apply list_elem_of_fmap. exists (expiration_ t, p). split; [done|]. by apply He.
  - apply NoDup_app. split_and!; [done| |apply Hi].
    intros p (t & _ & Ha)%Hptr. by eapply inv_disjoint.
  - intros p. rewrite (inv_heap _ _ Hi). setoid_rewrite Hact'. rewrite elem_of_app.
    split; [intros [[n Ha]|?]|intros [[n [Ha _]]|[(t & _ & Ha)%Hptr|?]]]; eauto.
    destruct (decide (p ∈ (expired_of q now).*2)); eauto.
  - intros p n [Ha Hx]%Hact'. rewrite not_elem_of_app. split; [done|]. by eapply inv_disjoint.
Qed.

Lemma getExpired_ok q own now : inv q own ->
  exists q', getExpired q now = Ok (expired_of q now, q') /\
    q' = set_sets (later_of q now) (activeTimers_ q') q /\
    inv q' ((expired_of q now).*2 ++ own).
Proof.
  intros Hi. destruct (expired_split q own now Hi) as (Hsplit & He & Hlat).
  pose proof (timers_ptr_NoDup q own Hi) as Hnd. rewrite Hsplit, fmap_app in Hnd.
  apply NoDup_app in Hnd as (Hnd & _ & _).
  unfold getExpired. rewrite (inv_size _ _ Hi), Z.eqb_refl. cbn.
  fold (expired_of q now) (later_of q now).
  assert (match later_of q now with [] => true | e :: _ => ts_lt now e.1 end = true) as ->.
  { destruct (later_of q now) as [|[w p] L] eqn:E; [done|]. cbn. apply Z.ltb_lt.
    apply (Hlat w p). by left. }
  cbn. destruct (foldM_inv erase_expired (erase_inv q now)
         ltac:(intros; eapply erase_expired_step; eauto) (expired_of q now)
         (set_sets (later_of q now) (activeTimers_ q) q)) as (q' & -> & Herase).
  { split_and!; cbn; [done|apply Hi| |done|done|].
    - rewrite <- (inv_size _ _ Hi), Hsplit, zlen_app. lia.
    - intros p n. destruct (decide (p ∈ (expired_of q now).*2)); tauto. }
  pose proof (erase_inv_done q own now q' Hi Herase) as Hi'.
  cbn. rewrite (inv_size _ _ Hi'), Z.eqb_refl. cbn.
  exists q'. split; [done|]. split; [apply Herase|done].
Qed.

(** ** reset *)

Lemma inv_deleted q own p :
  inv q (p :: own) -> exists q', delete_timer q p = Ok q' /\ inv q' own /\
    q' = set_heap (delete p (heap q)) q.
Proof.
  intros Hi. destruct (inv_own_alive _ _ p Hi ltac:(by left)) as [t Ht].
  pose proof (inv_own_NoDup _ _ Hi) as Hnd. apply NoDup_cons in Hnd as [Hp Hnd].
  assert (forall s, (p, s) ∉ activeTimers_ q) as Hna
    by (intros s; eapply inv_own_not_active; [done|by left]).
  unfold delete_timer. rewrite Ht. eexists. split; [done|]. split; [|done].
  constructor; cbn; try apply Hi; try done.
  - intros w p' Hin. pose proof Hin as (t' & ? & ? & ?)%(inv_entry _ _ Hi).
    exists t'. rewrite lookup_delete_ne; [done|]. intros <-. by eapply Hna.
  - intros p' s' Hin. pose proof Hin as (t' & ? & ? & ?)%(inv_active _ _ Hi).
    exists t'. rewrite lookup_delete_ne; [done|]. intros <-. by eapply Hna.
  - intros p'. rewrite lookup_delete. case_decide; [subst p'|].
    + split; [by intros []|]. intros [[s ?]|?]; [by destruct (Hna s)|done].
    + rewrite (inv_heap _ _ Hi), elem_of_cons. naive_solver.
  - intros p' s Hin. apply (inv_disjoint _ _ Hi) in Hin. set_solver.
  - intros p' t' [_ ?]%lookup_delete_Some. by eapply inv_addr.
  - intros p' t' [_ ?]%lookup_delete_Some. by eapply inv_seq.
  - intros p1 p2 t1 t2 [_ ?]%lookup_delete_Some [_ ?]%lookup_delete_Some. by eapply inv_seq_inj.
Qed.

(** Changing a timer owned outside the queue, but not its sequence number. *)
Lemma inv_owned_update q own p t t' :
  inv q own -> p ∈ own -> heap q !! p = Some t -> sequence_ t' = sequence_ t ->
  inv (set_heap (<[p := t']> (heap q)) q) own.
Proof.
  intros Hi Hp Ht Hs.
  assert (forall s, (p, s) ∉ activeTimers_ q) as Hna by (intros s; by eapply inv_own_not_active).
  assert (forall p1 t1, <[p:=t']> (heap q) !! p1 = Some t1 ->
    exists t0, heap q !! p1 = Some t0 /\ sequence_ t1 = sequence_ t0) as Hl.
  { intros p1 t1. rewrite lookup_insert. case_decide; [intros [= <-]; subst; eauto|eauto]. }
  constructor; cbn; try apply Hi.
  - intros w p' Hin. pose proof Hin as (t1 & ? & ? & ?)%(inv_entry _ _ Hi).
    exists t1. rewrite lookup_insert_ne; [done|]. intros <-. by eapply Hna.
  - intros p' s' Hin. pose proof Hin as (t1 & ? & ? & ?)%(inv_active _ _ Hi).
    exists t1. rewrite lookup_insert_ne; [done|]. intros <-. by eapply Hna.
  - intros p'. rewrite lookup_insert. case_decide; [subst p'|apply (inv_heap _ _ Hi)].
    rewrite <- (inv_heap _ _ Hi), Ht. split; eauto.
  - intros p' t1 (t0 & ? & _)%Hl. by eapply inv_addr.
  - intros p' t1 (t0 & ? & ->)%Hl. by eapply inv_seq.
  - intros p1 p2 t1 t2 (t3 & ? & ->)%Hl (t4 & ? & ->)%Hl. by eapply inv_seq_inj.
Qed.

(** One turn of the loop in [reset]. *)
Lemma reset_one_ok q own now it :
  inv q (it.2 :: own) ->
  exists t q', heap q !! it.2 = Some t /\ reset_one now q it = Ok q' /\ inv q' own /\
    (forall p, p <> it.2 -> heap q' !! p = heap q !! p) /\
    s_numCreated_ q' = s_numCreated_ q /\ cancelingTimers_ q' = cancelingTimers_ q /\
    callingExpiredTimers_ q' = callingExpiredTimers_ q /\ clock q' = clock q /\ armed q' = armed q /\
    (if repeat_ t && negb (set_mem (it.2, sequence_ t) (cancelingTimers_ q))
     then heap q' !! it.2 = Some (restart now t) /\
          timers_ q' = (set_insert (addTime now (interval_ t), it.2) (timers_ q)).1 /\
          activeTimers_ q' = (set_insert (it.2, sequence_ t) (activeTimers_ q)).1
     else heap q' !! it.2 = None /\ timers_ q' = timers_ q /\ activeTimers_ q' = activeTimers_ q).
Proof.
  intros Hi. destruct (inv_own_alive _ _ it.2 Hi ltac:(by left)) as [t Ht]. exists t.
  unfold reset_one, deref. rewrite Ht. cbn [mbind outcome_bind].
  destruct (repeat_ t && negb (set_mem (it.2, sequence_ t) (cancelingTimers_ q))) eqn:E.
  - apply andb_true_iff in E as [Er _].
    set (q1 := set_heap (<[it.2:=restart now t]> (heap q)) q).
    assert (inv q1 (it.2 :: own)) as Hi1
      by (eapply inv_owned_update; [done|by left|done|done]).
    assert (heap q1 !! it.2 = Some (restart now t)) as Ht1 by apply lookup_insert_eq.
    rewrite (insert_eq q1 own it.2 _ Hi1 Ht1). cbn.
    eexists. split_and!; try done; [by apply inv_inserted | |by cbn; rewrite Er].
    intros p Hp. by apply lookup_insert_ne.
  - destruct (inv_deleted q own it.2 Hi) as (q' & -> & Hi' & ->).
    eexists. split_and!; try done; [|apply lookup_delete_eq].
    intros p Hp. cbn. by apply lookup_delete_ne.
Qed.

Lemma reset_loop_ok now l : forall q own,
  inv q (l.*2 ++ own) ->
  exists q', foldM (reset_one now) q l = Ok q' /\ inv q' own /\
    s_numCreated_ q' = s_numCreated_ q /\ clock q' = clock q /\ armed q' = armed q /\
    callingExpiredTimers_ q' = callingExpiredTimers_ q.
Proof.
  induction l as [|it l IH]; intros q own Hi; cbn.
  - exists q. done.
  - cbn in Hi. destruct (reset_one_ok q (l.*2 ++ own) now it Hi)
      as (t & q1 & _ & -> & Hi1 & _ & Hn & _ & Hc & Hk & Ha & _). cbn.
    destruct (IH q1 own Hi1) as (q2 & -> & Hi2 & ? & ? & ? & ?).
    exists q2. split_and!; congruence.
Qed.
