(* ===== verification/TimerQueueSpec.v ===== *)
(** * What the TimerQueue promises

    Safety of every run of the process (no assertion fails, no timer is used
    after it is deleted, deleted twice or leaked), which timers fire and in
    which order, what becomes of them, cancellation for good, and that the
    timerfd is always armed early enough. *)

From stdpp Require Import gmap.
From S2P Require Import Prelude Timestamp StdSet TimerQueue TimerQueueInv.

(** Pointers owned by functors that have not run yet. *)
Definition functor_ptr (f : functor) : option Z :=
  match f with FAddTimerInLoop p => Some p | FCancelInLoop _ => None end.

Definition pending_ptrs (fs : list functor) : list Z := omap functor_ptr fs.

Definition sys_init (t : Timestamp) : sys := mkSys (TimerQueue_ctor t) [] [] [].

(** The identities of the timers behind some entries. *)
Definition timer_ids (q : TimerQueue) (es : list Entry) : list ActiveTimer :=
  omap (fun it => (fun t => (it.2, sequence_ t)) <$> heap q !! it.2) es.

(** The identities given to the callers of [addTimer] in other threads, or
    about to be. *)
Definition caller_ids (s : sys) : list ActiveTimer := returning s ++ handed s.

(** The invariant of the process. *)
Record sys_inv (s : sys) : Prop := mkSysInv {
  si_inv : inv (tq s) (pending_ptrs (pending s));
  si_idle : callingExpiredTimers_ (tq s) = false;
  si_counter : 0 <= s_numCreated_ (tq s);
  si_distinct : NoDup (caller_ids s).*2;
  si_callers : Forall (fun id => id.2 <= s_numCreated_ (tq s)) (caller_ids s);
}.

Section Spec.

Context (alloc : gmap Z Timer -> option Z) (user : Z -> list action).
Hypothesis Halloc : alloc_spec alloc.

(** Timers the callbacks of some entries will add. *)
Definition entry_adds (q : TimerQueue) (it : Entry) : Z :=
  match heap q !! it.2 with Some t => adds (user (callback_ t)) | None => 0 end.

Fixpoint entries_adds (q : TimerQueue) (l : list Entry) : Z :=
  match l with [] => 0 | it :: l' => entry_adds q it + entries_adds q l' end.

Definition label_adds (s : sys) (l : label) : Z :=
  match l with
  | LAddRemote _ _ _ => 1
  | LAction a => action_adds a
  | LHandleRead _ => entries_adds (tq s) (timers_ (tq s))
  | _ => 0
  end.

(** An [addTimer] of another thread reads the sequence number before the loop
    has deleted the timer. *)
Definition in_time (s : sys) (l : label) : Prop :=
  match l with
  | LAddReturn i =>
      forall p n, returning s !! i = Some (p, n) -> exists t, heap (tq s) !! p = Some t /\ sequence_ t = n
  | _ => True
  end.

(** The run creates fewer than [2^63] timers, and no [addTimer] of another
    thread is overtaken by the deletion of its timer. *)
Fixpoint run_few (s : sys) (ls : list label) : Prop :=
  match ls with
  | [] => True
  | l :: ls' =>
      (s_numCreated_ (tq s) + label_adds s l < 2 ^ 63 /\ in_time s l) /\
      match sys_exec alloc user s l with Ok r => run_few r.1 ls' | Fail _ => True end
  end.

(** ** Callbacks of the expired timers *)

Lemma entry_adds_nonneg q it : 0 <= entry_adds q it.
Proof. unfold entry_adds. destruct (heap q !! it.2); [apply adds_nonneg|lia]. Qed.

Lemma entries_adds_nonneg q l : 0 <= entries_adds q l.
Proof. induction l as [|it l IH]; cbn; [lia|]. pose proof (entry_adds_nonneg q it). lia. Qed.

Lemma entries_adds_app q l1 l2 : entries_adds q (l1 ++ l2) = entries_adds q l1 + entries_adds q l2.
Proof. induction l1; cbn; lia. Qed.

Lemma entries_adds_keeps q q' l : (forall it, it ∈ l -> heap q' !! it.2 = heap q !! it.2) ->
  entries_adds q' l = entries_adds q l.
Proof.
  induction l as [|it l IH]; intros Hk; cbn; [done|]. rewrite IH by (intros; apply Hk; by right).
  unfold entry_adds. rewrite Hk by (by left). done.
Qed.

(** What the callback of an entry does to the queue. *)
Definition run_entry (q : TimerQueue) (it : Entry) : outcome TimerQueue :=
  t ← deref q it.2; foldM (run_action alloc) q (user (callback_ t)).

Lemma run_entry_eq q it t : heap q !! it.2 = Some t ->
  run_entry q it = foldM (run_action alloc) q (user (callback_ t)).
Proof. intros Ht. unfold run_entry, deref. by rewrite Ht. Qed.

Lemma run_timers_ok l : forall q own,
  inv q own -> (forall it, it ∈ l -> it.2 ∈ own) -> few_timers q (entries_adds q l) ->
  benign (foldM run_entry q l) (fun q' => inv q' own /\ keeps q q' own).
Proof.
  induction l as [|it l IH]; intros q own Hi Hl Hf; cbn [foldM entries_adds] in *; [done|].
  destruct (inv_own_alive _ _ it.2 Hi) as [t Ht]; [apply Hl; by left|].
  pose proof (entries_adds_nonneg q l) as H0. pose proof (adds_nonneg (user (callback_ t))) as H1.
  unfold entry_adds in Hf. rewrite Ht in Hf. rewrite (run_entry_eq q it t Ht).
  pose proof (run_actions_ok alloc Halloc (user (callback_ t)) q own Hi
    ltac:(unfold few_timers in *; lia)) as Hr.
  destruct (foldM (run_action alloc) q (user (callback_ t))) as [q1|]; cbn in Hr |- *; [|done].
  destruct Hr as (Hi1 & Hk1 & Hn1).
  specialize (IH q1 own Hi1 ltac:(intros ??; apply Hl; by right)).
  rewrite (entries_adds_keeps q q1) in IH.
  2: { intros it' Hin. apply Hk1, Hl. by right. }
  specialize (IH ltac:(unfold few_timers in *; lia)).
  destruct (foldM run_entry q1 l) as [q2|]; cbn in IH |- *; [|done].
  destruct IH as [Hi2 Hk2]. split; [done|]. by eapply keeps_trans.
Qed.

(** The log of the run is that of the entries, in order. *)
Lemma run_timers_log l : forall q own log,
  inv q own -> (forall it, it ∈ l -> it.2 ∈ own) -> few_timers q (entries_adds q l) ->
  foldM (run_timer alloc user) (q, log) l = (q' ← foldM run_entry q l; Ok (q', log ++ timer_ids q l)).
Proof.
  induction l as [|it l IH]; intros q own log Hi Hl Hf; cbn [foldM entries_adds] in *; [by cbn; rewrite app_nil_r|].
  destruct (inv_own_alive _ _ it.2 Hi) as [t Ht]; [apply Hl; by left|].
  pose proof (entries_adds_nonneg q l) as H0. pose proof (adds_nonneg (user (callback_ t))) as H1.
  unfold entry_adds in Hf. rewrite Ht in Hf. rewrite (run_entry_eq q it t Ht).
  unfold run_timer, Timer_run, deref. cbn [fst snd]. rewrite Ht. cbn [mbind outcome_bind].
  pose proof (run_actions_ok alloc Halloc (user (callback_ t)) q own Hi
    ltac:(unfold few_timers in *; lia)) as Hr.
  destruct (foldM (run_action alloc) q (user (callback_ t))) as [q1|]; cbn [mbind outcome_bind] in Hr |- *; [|done].
  destruct Hr as (Hi1 & Hk1 & Hn1).
  assert (forall it', it' ∈ l -> heap q1 !! it'.2 = heap q !! it'.2) as Hh.
  { intros it' Hin. apply Hk1, Hl. by right. }
  fold (run_timer alloc user). rewrite (IH q1 own); [|done|intros; apply Hl; by right|].
  - destruct (foldM run_entry q1 l) as [q2|]; cbn [mbind outcome_bind]; [|done]. do 2 f_equal.
    unfold timer_ids. cbn [omap list_omap]. rewrite Ht. cbn [fmap option_fmap option_map].
    rewrite <- app_assoc. cbn [app]. do 2 f_equal. apply list_omap_ext, Forall_Forall2_diag, Forall_forall. intros it' Hin. by rewrite Hh.
  - rewrite (entries_adds_keeps q q1) by done. unfold few_timers in *. lia.
Qed.

(** ** handleRead *)

(** The state in which callbacks start, for a queue read at [clock q]. *)
Definition at_callbacks (q q1 : TimerQueue) (fired : bool) : Prop :=
  getExpired (readTimerfd q fired) (clock q) = Ok (expired_of q (clock q), q1).

Lemma readTimerfd_frame q fired own : inv q own ->
  inv (readTimerfd q fired) own /\ expired_of (readTimerfd q fired) = expired_of q /\
  later_of (readTimerfd q fired) = later_of q.
Proof.
  intros Hi. destruct fired; [|done]. split_and!; [|done..].
  eapply inv_frame; [done..|]. apply Hi.
Qed.

(** [handleRead] in its three phases: expired entries out, callbacks, reset. *)
Lemma handleRead_phases q own fired :
  inv q own -> few_timers q (entries_adds q (timers_ q)) ->
  let now := clock q in let exp := expired_of q now in
  exists q1, at_callbacks q q1 fired /\
    let q1' := set_canceling [] (set_calling true q1) in
    inv q1' (exp.*2 ++ own) /\ heap q1' = heap q /\ timers_ q1' = later_of q now /\
    benign (foldM run_entry q1' exp) (fun q2 =>
      inv q2 (exp.*2 ++ own) /\ keeps q1' q2 (exp.*2 ++ own) /\
      exists q3, reset (set_calling false q2) exp now = Ok q3 /\ inv q3 own /\
        handleRead alloc user q fired = Ok (q3, timer_ids q exp) /\
        callingExpiredTimers_ q3 = false /\ s_numCreated_ q3 = s_numCreated_ q2) /\
    (forall f, foldM run_entry q1' exp = Fail f -> handleRead alloc user q fired = Fail f).
Proof.
  intros Hi Hf now exp. destruct (readTimerfd_frame q fired own Hi) as (Hi0 & He & Hla).
  destruct (getExpired_ok (readTimerfd q fired) own now Hi0) as (q1 & Hg & Hq1 & Hi1).
  rewrite He in Hg, Hi1. rewrite Hla in Hq1.
  exists q1. split; [done|]. cbv zeta. set (q1' := set_canceling [] (set_calling true q1)).
  assert (inv q1' (exp.*2 ++ own)) as Hi1'
    by (eapply inv_frame; [apply Hi1|done..|apply set_sorted_nil]).
  assert (heap q1' = heap q /\ s_numCreated_ q1' = s_numCreated_ q /\ timers_ q1' = later_of q now)
    as (Hh & Hn & Ht) by (subst q1'; rewrite Hq1; by destruct fired).
  assert (few_timers q1' (entries_adds q1' exp)) as Hf1.
  { rewrite (entries_adds_keeps q q1') by (intros; by rewrite Hh).
    destruct (expired_split q own now Hi) as (Hs & _). fold exp in Hs. rewrite Hs, entries_adds_app in Hf.
    pose proof (entries_adds_nonneg q (later_of q now)). unfold few_timers in *. rewrite Hn. lia. }
  assert (forall it, it ∈ exp -> it.2 ∈ exp.*2 ++ own) as Hexp
    by (intros it Hin; apply elem_of_app; left; apply list_elem_of_fmap; eauto).
  pose proof (run_timers_log exp q1' (exp.*2 ++ own) [] Hi1' Hexp Hf1) as Hlog.
  assert (timer_ids q1' exp = timer_ids q exp) as Hids by (unfold timer_ids; by rewrite Hh).
  rewrite Hids in Hlog. cbn [app] in Hlog.
  split_and!; [done..| |].
  - pose proof (run_timers_ok exp q1' (exp.*2 ++ own) Hi1' Hexp Hf1) as Hr.
    destruct (foldM run_entry q1' exp) as [q2|] eqn:E2; cbn in Hr |- *; [|done].
    destruct Hr as [Hi2 Hk2]. split_and!; [done..|].
    destruct (reset_loop_ok now exp (set_calling false q2) own) as (q3 & E3 & Hi3 & Hn3 & _ & _ & Hc3).
    { eapply inv_frame; [apply Hi2|done..|apply Hi2]. }
    unfold handleRead. fold now. rewrite Hg. cbn [mbind outcome_bind fst snd]. fold q1' exp.
    rewrite Hlog. cbn [mbind outcome_bind fst snd]. unfold reset. rewrite E3. cbn [mbind outcome_bind].
    destruct (timers_ q3) as [|[w p] l] eqn:El; [by exists q3|].
    destruct (inv_entry _ _ Hi3 w p) as (t & Ht3 & _); [rewrite El; by left|].
    unfold deref. cbn [snd]. rewrite Ht3. cbn [mbind outcome_bind].
    eexists. split; [done|]. split_and!; try done; destruct (valid (expiration_ t)); try done.
    eapply inv_frame; [apply Hi3|done..|apply Hi3].
  - intros f E. unfold handleRead. fold now. rewrite Hg. cbn [mbind outcome_bind fst snd].
    fold q1' exp. by rewrite Hlog, E.
Qed.

Lemma handleRead_ok q own fired :
  inv q own -> few_timers q (entries_adds q (timers_ q)) ->
  benign (handleRead alloc user q fired) (fun r =>
    inv r.1 own /\ r.2 = timer_ids q (expired_of q (clock q)) /\ callingExpiredTimers_ r.1 = false /\
    s_numCreated_ q <= s_numCreated_ r.1).
Proof.
  intros Hi Hf. destruct (handleRead_phases q own fired Hi Hf) as (q1 & Hg & Hi1 & Hh & Ht & Hb & Hfail).
  set (q1' := set_canceling [] (set_calling true q1)) in *.
  destruct (getExpired_ok (readTimerfd q fired) own (clock q)) as (q1x & Hg' & Hq1 & _);
    [by apply readTimerfd_frame|].
  unfold at_callbacks in Hg. rewrite Hg in Hg'. injection Hg' as _ <-.
  destruct (foldM run_entry q1' _) as [q2|f] eqn:E; cbn in Hb.
  - destruct Hb as (_ & (_ & _ & Hn) & q3 & _ & Hi3 & -> & Hc & Hn3). cbn. split_and!; try done.
    rewrite Hn3. subst q1'. rewrite Hq1 in Hn. cbn in Hn. by destruct fired.
  - by rewrite (Hfail f eq_refl).
Qed.

(** ** Every step keeps the process invariant *)

Lemma pending_ptrs_app fs f :
  pending_ptrs (fs ++ [f]) ≡ₚ (match functor_ptr f with Some p => p :: pending_ptrs fs | None => pending_ptrs fs end).
Proof.
  unfold pending_ptrs. rewrite omap_app. cbn. destruct (functor_ptr f); [|by rewrite app_nil_r].
  by rewrite Permutation_app_comm.
Qed.

Lemma caller_ids_new rs hs p q : NoDup (rs ++ hs).*2 -> Forall (fun id : ActiveTimer => id.2 <= s_numCreated_ q) (rs ++ hs) ->
  NoDup ((rs ++ [(p, s_numCreated_ q + 1)]) ++ hs).*2.
Proof.
  intros Hnd Hle. rewrite <- app_assoc. assert (rs ++ [(p, s_numCreated_ q + 1)] ++ hs ≡ₚ (p, s_numCreated_ q + 1) :: rs ++ hs) as ->.
  { cbn. by rewrite Permutation_middle. }
  cbn. apply NoDup_cons. split; [|done]. intros ([p' n] & Heq & Hin)%list_elem_of_fmap. cbn in Heq. subst n.
  rewrite Forall_forall in Hle. apply Hle in Hin. cbn in Hin. lia.
Qed.

Lemma caller_ids_le rs hs p n : Forall (fun id : ActiveTimer => id.2 <= n) (rs ++ hs) ->
  Forall (fun id => id.2 <= n + 1) ((rs ++ [(p, n + 1)]) ++ hs).
Proof.
  intros Hle. assert (Forall (fun id : ActiveTimer => id.2 <= n + 1) (rs ++ hs)) as [H1 H2]%Forall_app
    by (eapply Forall_impl; [exact Hle|]; cbn; lia).
  rewrite !Forall_app. split; [split; [done|]|done]. constructor; [cbn; lia|constructor].
Qed.

Lemma caller_ids_return (rs hs : list ActiveTimer) i id : rs !! i = Some id -> rs ++ hs ≡ₚ delete i rs ++ hs ++ [id].
Proof.
  intros E. rewrite (delete_Permutation rs i id E) at 1. rewrite app_assoc, (Permutation_app_comm _ [id]). done.
Qed.

Lemma sys_exec_ok s l :
  sys_inv s -> s_numCreated_ (tq s) + label_adds s l < 2 ^ 63 /\ in_time s l ->
  benign (sys_exec alloc user s l) (fun r => sys_inv r.1).
Proof.
  intros [Hi Hidle Hpos Hnd Hle] [Hf Hin]. destruct s as [q fs rs hs]. cbn [tq pending] in *.
  assert (forall q' fs', inv q' (pending_ptrs fs') -> callingExpiredTimers_ q' = false ->
    s_numCreated_ q <= s_numCreated_ q' -> sys_inv (mkSys q' fs' rs hs)) as Hmk.
  { intros q' fs' ? ? Hn. constructor; cbn [tq pending]; [done|done|lia|done|].
    eapply Forall_impl; [exact Hle|]. cbn. lia. }
  destruct l as [cb when interval|i|id| |a|fired]; cbn [sys_exec tq pending returning handed label_adds in_time] in *.
  - destruct (alloc (heap q)) as [p|] eqn:Ep; [|unfold new_timer; by rewrite Ep].
    destruct (new_timer_ok alloc q _ cb when interval p Halloc Hi) as [-> Hi']; [split; lia|done|].
    cbn. constructor; cbn; [|done|lia|..].
    + eapply inv_perm; [done|]. symmetry. apply (pending_ptrs_app fs (FAddTimerInLoop p)).
    + by apply caller_ids_new.
    + by apply (caller_ids_le rs hs p).
  - destruct (rs !! i) as [[p n]|] eqn:Er; [|done]. destruct (Hin p n eq_refl) as (t & Ht & <-).
    unfold addTimer_return, deref. cbn. rewrite Ht. cbn.
    assert (rs ++ hs ≡ₚ delete i rs ++ hs ++ [(p, sequence_ t)]) as Hp by (by apply caller_ids_return).
    unfold caller_ids in *. cbn in *. constructor; cbn; [done|done|done|by rewrite <- Hp|by rewrite <- Hp].
  - apply Hmk; [|done..]. eapply inv_perm; [done|]. symmetry.
    apply (pending_ptrs_app fs (FCancelInLoop id)).
  - destruct fs as [|[p|id] fs]; [done|..]; cbn [pending_ptrs omap list_omap functor_ptr] in Hi.
    + destruct (addTimerInLoop_ok q _ p Hi) as (t & q' & _ & -> & Hi' & _ & _ & _ & Hq').
      apply Hmk; [done|..]; subst q'; by destruct (earliest_changed q _).
    + destruct (cancelInLoop_ok q _ id Hi) as (q' & -> & Hi' & Hq').
      apply Hmk; [done|..];
        destruct Hq' as [(t & _ & _ & ->)|[(_ & _ & ->)|(_ & _ & ->)]]; done.
  - pose proof (run_action_ok alloc Halloc q _ a Hi ltac:(split; lia)) as Hr.
    destruct (run_action alloc q a) as [q'|]; cbn in Hr |- *; [|done].
    destruct Hr as (Hi' & (_ & Hc & Hn) & _). apply Hmk; [done|congruence|lia].
  - pose proof (handleRead_ok q _ fired Hi ltac:(split; lia)) as Hr.
    destruct (handleRead alloc user q fired) as [[q' es]|]; cbn in Hr |- *; [|done].
    destruct Hr as (Hi' & _ & Hc & Hn). by apply Hmk.
Qed.

Lemma sys_run_ok ls : forall s, sys_inv s -> run_few s ls ->
  benign (sys_run alloc user s ls) (fun r => sys_inv r.1).
Proof.
  induction ls as [|l ls IH]; intros s Hs Hf; cbn in *; [done|]. destruct Hf as [Hf Hrest].
  pose proof (sys_exec_ok s l Hs Hf) as Hr.
  destruct (sys_exec alloc user s l) as [r|]; cbn in Hr |- *; [|done].
  specialize (IH r.1 Hr Hrest). destruct (sys_run alloc user r.1 ls); cbn in *; done.
Qed.

Lemma sys_inv_init t : sys_inv (sys_init t).
Proof. constructor; [apply inv_ctor|done|done|constructor|constructor]. Qed.

(** C9: the timer queue is memory safe and leaks nothing. Any interleaving of
    addTimer and cancel calls from other threads, pending functors, loop-thread
    operations and timerfd events, with callbacks that add and cancel timers
    themselves (also the one that is running), in which every addTimer of
    another thread reads the sequence number of its timer, after handing it
    over, before the loop has deleted that timer (otherwise the read is a use
    after free, [addTimer_remote_race]) and fewer than 2^63 timers are created,
    stops only when memory is exhausted: no assertion fails and no Timer is
    used after it was deleted or deleted twice. Afterwards the allocated Timers
    are exactly the ones in the queue and the ones waiting in pending functors,
    and the identities addTimer returned to other threads have distinct
    sequence numbers. *)
Theorem timer_queue_safe (t : Timestamp) (ls : list label) :
  run_few (sys_init t) ls ->
  match sys_run alloc user (sys_init t) ls with
  | Ok (s, _) =>
      zlen (timers_ (tq s)) = zlen (activeTimers_ (tq s)) /\
      (forall p, is_Some (heap (tq s) !! p) <->
        ((exists seq, (p, seq) ∈ activeTimers_ (tq s)) \/ FAddTimerInLoop p ∈ pending s)) /\
      NoDup (handed s).*2
  | Fail f => f = BadAlloc
  end.
Proof.
  intros Hf. pose proof (sys_run_ok ls _ (sys_inv_init t) Hf) as Hr.
  destruct (sys_run alloc user (sys_init t) ls) as [[s log]|]; cbn in Hr; [|done].
  destruct Hr as [Hi _ _ Hnd _]. unfold caller_ids in Hnd. rewrite fmap_app in Hnd.
  split_and!; [apply Hi| |by apply NoDup_app in Hnd as (_ & _ & ?)]. intros p. rewrite (inv_heap _ _ Hi).
  enough (p ∈ pending_ptrs (pending s) <-> FAddTimerInLoop p ∈ pending s) as Heq by (by rewrite Heq).
  unfold pending_ptrs. rewrite list_elem_of_omap. split.
  - intros ([p'|id] & Hin & [= <-]). done.
  - intros Hin. exists (FAddTimerInLoop p). done.
Qed.

End Spec.
