(* ===== verification/TimerQueueFate.v ===== *)
(** * What becomes of timers: restart, deletion, cancellation for good

    Callbacks of one [handleRead] are one sequence of loop-thread actions
    ([callbacks]); an expired timer's fate depends on whether that sequence
    cancelled it. A cancelled [TimerId] is dead for the rest of the run,
    because sequence numbers are never used twice. *)

From stdpp Require Import gmap.
From S2P Require Import Prelude Timestamp StdSet TimerQueue TimerQueueInv TimerQueueSpec.

Section Fate.

Context (alloc : gmap Z Timer -> option Z) (user : Z -> list action).
Hypothesis Halloc : alloc_spec alloc.

(** ** The callbacks of one [handleRead] as one sequence of actions *)

Definition entry_actions (q : TimerQueue) (it : Entry) : list action :=
  match heap q !! it.2 with Some t => user (callback_ t) | None => [] end.

Definition callbacks (q : TimerQueue) (l : list Entry) : list action := l ≫= entry_actions q.

Lemma callbacks_cons q it l : callbacks q (it :: l) = entry_actions q it ++ callbacks q l.
Proof. done. Qed.

Lemma callbacks_heap q q' l :
  (forall it, it ∈ l -> heap q' !! it.2 = heap q !! it.2) -> callbacks q' l = callbacks q l.
Proof.
  induction l as [|it l IH]; intros Hk; [done|]. rewrite !callbacks_cons. f_equal.
  - unfold entry_actions. rewrite Hk by (by left). done.
  - apply IH. intros; apply Hk. by right.
Qed.

Lemma adds_app l1 l2 : adds (l1 ++ l2) = adds l1 + adds l2.
Proof. induction l1; cbn [adds app]; lia. Qed.

Lemma entries_adds_callbacks q l : entries_adds user q l = adds (callbacks q l).
Proof.
  induction l as [|it l IH]; [done|]. rewrite callbacks_cons, adds_app, <- IH. cbn. f_equal.
  unfold entry_adds, entry_actions. by destruct (heap q !! it.2).
Qed.

Lemma run_timers_flat l : forall q own,
  inv q own -> (forall it, it ∈ l -> it.2 ∈ own) -> few_timers q (adds (callbacks q l)) ->
  foldM (run_entry alloc user) q l = foldM (run_action alloc) q (callbacks q l).
Proof.
  induction l as [|it l IH]; intros q own Hi Hl Hf; [done|].
  rewrite callbacks_cons in *. cbn [foldM].
  destruct (inv_own_alive _ _ it.2 Hi) as [t Ht]; [apply Hl; by left|].
  rewrite foldM_app. rewrite adds_app in Hf.
  assert (entry_actions q it = user (callback_ t)) as Ea by (unfold entry_actions; by rewrite Ht).
  rewrite (run_entry_eq alloc user q it t Ht). rewrite Ea in *.
  pose proof (adds_nonneg (user (callback_ t))). pose proof (adds_nonneg (callbacks q l)).
  pose proof (run_actions_ok alloc Halloc (user (callback_ t)) q own Hi
    ltac:(unfold few_timers in *; lia)) as Hr.
  destruct (foldM (run_action alloc) q (user (callback_ t))) as [q1|]; cbn in Hr |- *; [|done].
  destruct Hr as (Hi1 & Hk1 & Hn1).
  assert (callbacks q1 l = callbacks q l) as Hc
    by (apply callbacks_heap; intros; apply Hk1, Hl; by right).
  rewrite (IH q1 own); [by rewrite Hc|done|intros; apply Hl; by right|].
  rewrite Hc. unfold few_timers in *. lia.
Qed.

(** Induction over the actions a callback sequence has run so far. *)
Lemma run_actions_ind (P : list action -> TimerQueue -> Prop) q own :
  inv q own -> P [] q ->
  (forall l a q1 q2, inv q1 own -> few_timers q1 (action_adds a) -> keeps q q1 own ->
     P l q1 -> run_action alloc q1 a = Ok q2 -> P (l ++ [a]) q2) ->
  forall l q', few_timers q (adds l) -> foldM (run_action alloc) q l = Ok q' -> P l q'.
Proof.
  intros Hi H0 Hstep l. induction l as [|a l IH] using rev_ind; intros q' Hf Hr.
  - by injection Hr as <-.
  - rewrite foldM_app in Hr. rewrite adds_app in Hf. cbn [adds] in Hf.
    pose proof (adds_nonneg l). pose proof (action_adds_nonneg a).
    pose proof (run_actions_ok alloc Halloc l q own Hi ltac:(unfold few_timers in *; lia)) as Hok.
    destruct (foldM (run_action alloc) q l) as [q1|] eqn:E1; cbn in Hok, Hr; [|done].
    destruct Hok as (Hi1 & Hk1 & Hn1). specialize (IH q1 ltac:(unfold few_timers in *; lia) eq_refl).
    destruct (run_action alloc q1 a) as [q2|] eqn:E2; cbn in Hr; [|done]. injection Hr as <-.
    eapply Hstep; eauto. unfold few_timers in *. lia.
Qed.

(** ** Cancellation inside callbacks *)

Lemma run_action_canceling q own a q' id :
  inv q own -> few_timers q (action_adds a) -> callingExpiredTimers_ q = true -> id.1 ∈ own ->
  run_action alloc q a = Ok q' ->
  id ∈ cancelingTimers_ q' <-> id ∈ cancelingTimers_ q \/ a = ACancel id.
Proof.
  intros Hi Hf Hc Hown Hr. destruct a as [id'|cb when interval|t]; cbn in Hr.
  - destruct (cancelInLoop_ok q own id' Hi) as (q1 & E & _ & Hq). rewrite E in Hr. injection Hr as <-.
    destruct Hq as [(t & Hin & _ & ->)|[(_ & _ & ->)|(_ & Hc' & _)]]; [|cbn|congruence].
    + cbn. split; [by left|]. intros [|[= ->]]; [done|]. destruct id as [p s].
      by destruct (inv_disjoint _ _ Hi _ _ Hin).
    + rewrite set_insert_elem. naive_solver.
  - pose proof (addTimer_ok alloc Halloc q own cb when interval Hi Hf) as H.
    destruct (addTimer alloc q cb when interval) as [r|]; cbn in H, Hr; [|done].
    injection Hr as <-. destruct H as (_ & _ & _ & p & _ & _ & _ & _ & _ & ->). naive_solver.
  - injection Hr as <-. cbn. naive_solver.
Qed.

(** Exactly the expired timers some callback cancelled are marked. *)
Lemma callbacks_canceling q own l q' id :
  inv q own -> few_timers q (adds l) -> callingExpiredTimers_ q = true ->
  cancelingTimers_ q = [] -> id.1 ∈ own -> foldM (run_action alloc) q l = Ok q' ->
  id ∈ cancelingTimers_ q' <-> ACancel id ∈ l.
Proof.
  intros Hi Hf Hc H0 Hown Hr.
  apply (run_actions_ind (fun l q' => id ∈ cancelingTimers_ q' <-> ACancel id ∈ l) q own);
    [done|by rewrite H0; set_solver| |done|done].
  intros l1 a q1 q2 Hi1 Hf1 (_ & Hc1 & _) IH Ha.
  rewrite (run_action_canceling q1 own a q2 id), IH by (done || congruence). set_solver.
Qed.

(** ** The fate of an expired timer in [reset] *)

Lemma reset_loop_fate now l : forall q own,
  inv q (l.*2 ++ own) ->
  exists q', foldM (reset_one now) q l = Ok q' /\ inv q' own /\
    (forall p, p ∉ l.*2 -> heap q' !! p = heap q !! p) /\
    (forall it t, it ∈ l -> heap q !! it.2 = Some t ->
       if repeat_ t && negb (set_mem (it.2, sequence_ t) (cancelingTimers_ q))
       then heap q' !! it.2 = Some (restart now t) else heap q' !! it.2 = None).
Proof.
  induction l as [|it l IH]; intros q own Hi; cbn in *.
  - exists q. split_and!; [done..|by intros ?? ?%not_elem_of_nil].
  - destruct (reset_one_ok q (l.*2 ++ own) now it Hi)
      as (t & q1 & Ht & -> & Hi1 & Hh & _ & Hcs & _ & _ & _ & Hfate). cbn.
    destruct (IH q1 own Hi1) as (q2 & -> & Hi2 & Hh2 & Hf2). exists q2.
    assert (it.2 ∉ l.*2) as Hnot.
    { pose proof (inv_own_NoDup _ _ Hi) as Hnd. apply NoDup_cons in Hnd as [Hnd _].
      rewrite not_elem_of_app in Hnd. tauto. }
    split_and!; [done..| |].
    + intros p [? ?]%not_elem_of_cons. rewrite Hh2 by done. by apply Hh.
    + intros it' t' [->|Hin]%elem_of_cons Ht'.
      * rewrite Ht in Ht'. injection Ht' as <-. rewrite Hh2 by done.
        destruct (repeat_ t && _); tauto.
      * rewrite <- Hcs. apply Hf2; [done|]. rewrite Hh; [done|].
        intros Heq. apply Hnot. rewrite <- Heq. apply list_elem_of_fmap. eauto.
Qed.

(** ** One [handleRead], taken apart *)

Lemma length_omap_all {A B} (f : A -> option B) l : (forall x, x ∈ l -> is_Some (f x)) -> length (omap f l) = length l.
Proof.
  induction l as [|x l IH]; intros H; [done|]. cbn. destruct (H x ltac:(by left)) as [y ->]. cbn.
  f_equal. apply IH. intros; apply H. by right.
Qed.

Record handleRead_run (q : TimerQueue) (own : list Z) (q' : TimerQueue) (es : list Entry)
    (q1 q2 : TimerQueue) : Prop := mkRun {
  hr_expired : es = expired_of q (clock q);
  hr_inv1 : inv q1 (es.*2 ++ own);
  hr_heap1 : heap q1 = heap q;
  hr_timers1 : timers_ q1 = later_of q (clock q);
  hr_clock1 : clock q1 = clock q;
  hr_counter1 : s_numCreated_ q1 = s_numCreated_ q;
  hr_calling1 : callingExpiredTimers_ q1 = true;
  hr_canceling1 : cancelingTimers_ q1 = [];
  hr_few : few_timers q1 (adds (callbacks q es));
  hr_run : foldM (run_action alloc) q1 (callbacks q es) = Ok q2;
  hr_inv2 : inv q2 (es.*2 ++ own);
  hr_keeps : keeps q1 q2 (es.*2 ++ own);
  hr_reset : reset (set_calling false q2) es (clock q) = Ok q';
  hr_inv3 : inv q' own;
  hr_counter3 : s_numCreated_ q' = s_numCreated_ q2;
  hr_other : forall p, p ∉ es.*2 -> heap q' !! p = heap q2 !! p;
  hr_fate : forall it t, it ∈ es -> heap q2 !! it.2 = Some t ->
    if repeat_ t && negb (set_mem (it.2, sequence_ t) (cancelingTimers_ q2))
    then heap q' !! it.2 = Some (restart (clock q) t) else heap q' !! it.2 = None;
}.

Lemma reset_heap q es now q' q3 :
  foldM (reset_one now) q es = Ok q3 -> reset q es now = Ok q' ->
  heap q' = heap q3 /\ timers_ q' = timers_ q3 /\ s_numCreated_ q' = s_numCreated_ q3.
Proof.
  intros E. unfold reset. rewrite E. cbn. destruct (timers_ q3) as [|it l] eqn:El; [by intros [= <-]|].
  unfold deref. destruct (heap q3 !! it.2) as [t|]; cbn; [|done]. intros [= <-].
  by destruct (valid (expiration_ t)).
Qed.

Lemma handleRead_unfold q own fired q' log :
  inv q own -> few_timers q (entries_adds user q (timers_ q)) ->
  handleRead alloc user q fired = Ok (q', log) ->
  log = timer_ids q (expired_of q (clock q)) /\
  exists q1 q2, handleRead_run q own q' (expired_of q (clock q)) q1 q2.
Proof.
  intros Hi Hf Hrun.
  destruct (handleRead_phases alloc user Halloc q own fired Hi Hf)
    as (q0 & Hg & Hi1 & Hh & Ht & Hb & Hfail).
  set (q1 := set_canceling [] (set_calling true q0)) in *.
  set (es0 := expired_of q (clock q)) in *.
  destruct (getExpired_ok (readTimerfd q fired) own (clock q)) as (q0x & Hg' & Hq0 & _);
    [by apply readTimerfd_frame|].
  unfold at_callbacks in Hg. rewrite Hg in Hg'. injection Hg' as _ <-.
  assert (s_numCreated_ q1 = s_numCreated_ q) as Hn1
    by (subst q1; rewrite Hq0; by destruct fired).
  assert (few_timers q1 (adds (callbacks q es0))) as Hf1.
  { rewrite <- entries_adds_callbacks. unfold few_timers in *. rewrite Hn1.
    destruct (expired_split q own (clock q) Hi) as (Hs & _). fold es0 in Hs.
    rewrite Hs, entries_adds_app in Hf.
    pose proof (entries_adds_nonneg user q (later_of q (clock q))). lia. }
  assert (callbacks q1 es0 = callbacks q es0) as Hcb by (apply callbacks_heap; intros; by rewrite Hh).
  assert (forall it, it ∈ es0 -> it.2 ∈ es0.*2 ++ own) as Hown
    by (intros it Hin; apply elem_of_app; left; apply list_elem_of_fmap; eauto).
  rewrite (run_timers_flat es0 q1 _ Hi1 Hown) in Hb, Hfail by (by rewrite Hcb).
  rewrite Hcb in Hb, Hfail.
  destruct (foldM (run_action alloc) q1 (callbacks q es0)) as [q2|] eqn:E2; cbn in Hb.
  2: { rewrite (Hfail f eq_refl) in Hrun. done. }
  destruct Hb as (Hi2 & Hk2 & q3 & E3 & Hi3 & Hr & _ & Hn3).
  rewrite Hrun in Hr. injection Hr as -> ->. split; [done|]. exists q1, q2.
  destruct (reset_loop_fate (clock q) es0 (set_calling false q2) own) as (q4 & E4 & _ & Ho & Hfate).
  { eapply inv_frame; [apply Hi2|done..|apply Hi2]. }
  destruct (reset_heap _ _ _ _ _ E4 E3) as (Hh3 & _ & _).
  constructor; try done; [subst q1; rewrite Hq0; by destruct fired|..]; intros; rewrite Hh3; auto. by apply (Hfate it t).
Qed.

(** ** Which timers fire *)

(** C14: when the timerfd is readable, handleRead calls the callbacks of the
    timers whose expiration is not after now, each once, in order of
    expiration (equal expirations in address order), and no others: the log
    that Timer::run leaves is that of the due timers, what the callbacks do is
    done in this order on the queue with the due entries taken out, and the
    queue is then reset with them. The only failure is exhausted memory; the
    queue satisfies its invariant and the callbacks create fewer than 2^63
    timers in all. *)
Theorem handleRead_fires_due (q : TimerQueue) (own : list Z) (fired : bool) :
  inv q own -> few_timers q (entries_adds user q (timers_ q)) ->
  match handleRead alloc user q fired with
  | Ok (q', log) =>
      exists due, log = timer_ids q due /\ length log = length due /\
      (forall w p, (w, p) ∈ due <-> (w, p) ∈ timers_ q /\ w <= clock q) /\
      NoDup due /\ set_sorted due /\
      (forall i j e1 e2, due !! i = Some e1 -> due !! j = Some e2 -> (i < j)%nat -> e1.1 <= e2.1) /\
      exists q1 q2, heap q1 = heap q /\ (forall w p, (w, p) ∈ timers_ q1 <-> (w, p) ∈ timers_ q /\ clock q < w) /\
        foldM (run_action alloc) q1 (callbacks q due) = Ok q2 /\ reset (set_calling false q2) due (clock q) = Ok q'
  | Fail f => f = BadAlloc
  end.
Proof.
  intros Hi Hf. pose proof (handleRead_ok alloc user Halloc q own fired Hi Hf) as Hr.
  destruct (handleRead alloc user q fired) as [[q' log]|] eqn:E; [|done]. clear Hr.
  destruct (handleRead_unfold _ _ _ _ _ Hi Hf E) as (-> & q1 & q2 & R).
  destruct (expired_split q own (clock q) Hi) as (Hs & He & Hl).
  exists (expired_of q (clock q)).
  assert (set_sorted (expired_of q (clock q))) as Hsort.
  { pose proof (inv_timers_sorted _ _ Hi) as H. rewrite Hs in H. by apply set_sorted_app in H as [H _]. }
  split_and!; [done| |done|by apply set_sorted_NoDup|done| |].
  - unfold timer_ids. apply length_omap_all. intros [w p] [Hin _]%He.
    destruct (inv_entry _ _ Hi _ _ Hin) as (t & Ht & _). cbn. rewrite Ht. by eexists.
  - intros i j e1 e2 H1 H2 Hij. pose proof (set_sorted_lookup _ Hsort i j e1 e2 Hij H1 H2) as Hlt.
    by apply pair_less_fst.
  - exists q1, q2. split_and!; [apply R| |apply R|apply R]. by rewrite (hr_timers1 _ _ _ _ _ _ R).
Qed.

(** What becomes of a timer whose callback ran in handleRead. A repeating
    timer is queued again for its interval after the time the event was
    handled, unless one of the callbacks of this very event (its own included)
    cancelled it; a one-shot timer and a repeating timer that was cancelled
    are deleted. *)
Lemma expired_timer_fate (q q' : TimerQueue) (own : list Z) (fired : bool) (log : list ActiveTimer)
    (w p : Z) (t : Timer) :
  let es := expired_of q (clock q) in
  inv q own -> few_timers q (entries_adds user q (timers_ q)) ->
  handleRead alloc user q fired = Ok (q', log) -> (w, p) ∈ es -> heap q !! p = Some t ->
  (repeat_ t = true -> ACancel (p, sequence_ t) ∉ callbacks q es ->
     heap q' !! p = Some (restart (clock q) t) /\
     (addTime (clock q) (interval_ t), p) ∈ timers_ q' /\ (p, sequence_ t) ∈ activeTimers_ q') /\
  (repeat_ t = false \/ ACancel (p, sequence_ t) ∈ callbacks q es -> heap q' !! p = None).
Proof.
  intros es Hi Hf Hrun Hin Ht. destruct (handleRead_unfold _ _ _ _ _ Hi Hf Hrun) as (_ & q1 & q2 & R). fold es in R.
  assert (p ∈ es.*2) as Hp by (apply list_elem_of_fmap; by exists (w, p)).
  assert (p ∈ es.*2 ++ own) as Hpo by (apply elem_of_app; by left).
  assert (heap q2 !! p = Some t) as Ht2.
  { rewrite (proj1 (hr_keeps _ _ _ _ _ _ R) p Hpo), (hr_heap1 _ _ _ _ _ _ R). done. }
  pose proof (hr_fate _ _ _ _ _ _ R _ _ Hin Ht2) as Hfate. cbn in Hfate.
  assert (set_mem (p, sequence_ t) (cancelingTimers_ q2) = true <->
    ACancel (p, sequence_ t) ∈ callbacks q es) as Hc.
  { rewrite set_mem_spec by apply (hr_inv2 _ _ _ _ _ _ R).
    by apply (callbacks_canceling q1 (es.*2 ++ own)); try apply R. }
  split.
  - intros Hrep Hnc. rewrite Hrep in Hfate.
    destruct (set_mem _ _); [by destruct Hnc; apply Hc|]. cbn in Hfate. split; [done|].
    destruct (proj1 (inv_heap _ _ (hr_inv3 _ _ _ _ _ _ R) p)) as [[n Ha]|Ho]; [by eexists| |].
    + destruct (inv_active _ _ (hr_inv3 _ _ _ _ _ _ R) _ _ Ha) as (t' & Ht' & <- & He).
      rewrite Hfate in Ht'. injection Ht' as <-. cbn in He, Ha. by rewrite Hrep in He.
    + pose proof (inv_own_NoDup _ _ (hr_inv1 _ _ _ _ _ _ R)) as Hnd.
      apply NoDup_app in Hnd as (_ & Hd & _). by destruct (Hd p Hp).
  - intros [Hrep|Hcan%Hc]; [by rewrite Hrep in Hfate|].
    rewrite Hcan, andb_false_r in Hfate. done.
Qed.

(** ** Sequence numbers are never used twice *)

(** Every timer of [q'] was in [q] at the same address, or is newer than [q]. *)
Definition ages (q q' : TimerQueue) : Prop :=
  s_numCreated_ q <= s_numCreated_ q' /\
  forall p t', heap q' !! p = Some t' ->
    (exists t, heap q !! p = Some t /\ sequence_ t = sequence_ t') \/ s_numCreated_ q < sequence_ t'.

Lemma ages_refl q : ages q q.
Proof. split; [lia|eauto]. Qed.

Lemma ages_trans q1 q2 q3 : ages q1 q2 -> ages q2 q3 -> ages q1 q3.
Proof.
  intros [Hn1 H1] [Hn2 H2]. split; [lia|]. intros p t3 Ht3.
  destruct (H2 p t3 Ht3) as [(t2 & Ht2 & Heq)|?]; [|right; lia].
  destruct (H1 p t2 Ht2) as [(t1 & Ht1 & ?)|?]; [left; exists t1; split; congruence|right; lia].
Qed.

Lemma ages_same_heap q q' : heap q' = heap q -> s_numCreated_ q' = s_numCreated_ q -> ages q q'.
Proof. intros Hh Hn. split; [lia|]. rewrite Hh. eauto. Qed.

Lemma ages_created q p t : sequence_ t = s_numCreated_ q + 1 -> ages q (created q p t).
Proof.
  intros Hs. split; cbn; [lia|]. intros p' t'. rewrite lookup_insert.
  case_decide; [intros [= <-]; right; lia|eauto].
Qed.

Lemma ages_addTimerInLoop q own p q' : inv q (p :: own) -> addTimerInLoop q p = Ok q' -> ages q q'.
Proof.
  intros Hi Hr. destruct (addTimerInLoop_ok q own p Hi) as (t & q1 & _ & E & _ & Hh & _ & _ & Hq).
  rewrite E in Hr. injection Hr as <-. apply ages_same_heap; [done|].
  rewrite Hq. by destruct (earliest_changed _ _).
Qed.

Lemma ages_cancelInLoop q own id q' : inv q own -> cancelInLoop q id = Ok q' -> ages q q'.
Proof.
  intros Hi Hr. destruct (cancelInLoop_ok q own id Hi) as (q1 & E & _ & Hq).
  rewrite E in Hr. injection Hr as <-.
  destruct Hq as [(t & _ & _ & ->)|[(_ & _ & ->)|(_ & _ & ->)]]; try by apply ages_same_heap.
  split; cbn; [lia|]. intros p' t' [_ ?]%lookup_delete_Some. eauto.
Qed.

Lemma ages_run_action q own a q' :
  inv q own -> few_timers q (action_adds a) -> run_action alloc q a = Ok q' -> ages q q'.
Proof.
  intros Hi Hf Hr. destruct a as [id|cb when interval|t]; cbn in Hr.
  - by eapply ages_cancelInLoop.
  - pose proof (addTimer_ok alloc Halloc q own cb when interval Hi Hf) as H.
    destruct (addTimer alloc q cb when interval) as [r|]; cbn in H, Hr; [|done]. injection Hr as <-.
    destruct H as (_ & _ & Hn & p & _ & _ & Hh & _). split; [lia|]. intros p' t'.
    rewrite Hh, lookup_insert. case_decide; [intros [= <-]; cbn; right; lia|eauto].
  - injection Hr as <-. by apply ages_same_heap.
Qed.

Lemma ages_run_actions q own l q' :
  inv q own -> few_timers q (adds l) -> foldM (run_action alloc) q l = Ok q' -> ages q q'.
Proof.
  intros Hi Hf Hr. apply (run_actions_ind (fun _ q' => ages q q') q own) with (l := l);
    [done|apply ages_refl| |done|done].
  intros l1 a q1 q2 Hi1 Hf1 _ IH Ha. eapply ages_trans; [done|]. by eapply ages_run_action.
Qed.

Lemma ages_reset q own q' es q1 q2 : handleRead_run q own q' es q1 q2 -> ages q2 q'.
Proof.
  intros R. split; [rewrite (hr_counter3 _ _ _ _ _ _ R); lia|]. intros p t' Ht'. left.
  destruct (decide (p ∈ es.*2)) as [Hp|Hp].
  - destruct (inv_own_alive _ _ p (hr_inv2 _ _ _ _ _ _ R)) as [t Ht]; [apply elem_of_app; by left|].
    apply list_elem_of_fmap in Hp as (it & -> & Hin).
    pose proof (hr_fate _ _ _ _ _ _ R _ _ Hin Ht) as Hfate.
    destruct (repeat_ t && _); [|congruence]. rewrite Hfate in Ht'. injection Ht' as <-. eauto.
  - rewrite (hr_other _ _ _ _ _ _ R p Hp) in Ht'. eauto.
Qed.

Lemma ages_handleRead q own q' es q1 q2 : handleRead_run q own q' es q1 q2 -> ages q q'.
Proof.
  intros R. apply ages_trans with q1; [apply ages_same_heap; apply R|].
  apply ages_trans with q2; [|by eapply ages_reset].
  eapply ages_run_actions; [apply R|apply R|apply R].
Qed.

Lemma ages_sys_exec s l r :
  sys_inv s -> s_numCreated_ (tq s) + label_adds user s l < 2 ^ 63 ->
  sys_exec alloc user s l = Ok r -> ages (tq s) (tq r.1).
Proof.
  intros [Hi Hidle Hpos _ _] Hf Hr. destruct s as [q fs rs hs]. cbn [tq pending] in *.
  destruct l as [cb when interval|i|id| |a|fired]; cbn [sys_exec tq pending returning handed label_adds] in *.
  - destruct (alloc (heap q)) as [p|] eqn:Ep; [|unfold new_timer in Hr; by rewrite Ep in Hr].
    destruct (new_timer_ok alloc q _ cb when interval p Halloc Hi) as [E _]; [split; lia|done|].
    rewrite E in Hr. injection Hr as <-. by apply ages_created.
  - destruct (rs !! i) as [id|]; [|injection Hr as <-; apply ages_refl].
    destruct (addTimer_return _ _); [|done]. injection Hr as <-. apply ages_refl.
  - injection Hr as <-. apply ages_refl.
  - destruct fs as [|[p|id] fs]; cbn [pending_ptrs omap list_omap functor_ptr] in Hi.
    + injection Hr as <-. apply ages_refl.
    + destruct (addTimerInLoop q p) as [q'|] eqn:E; [|done]. injection Hr as <-.
      by eapply ages_addTimerInLoop.
    + destruct (cancelInLoop q id) as [q'|] eqn:E; [|done]. injection Hr as <-.
      by eapply ages_cancelInLoop.
  - destruct (run_action alloc q a) as [q'|] eqn:E; [|done]. injection Hr as <-.
    eapply ages_run_action; [done|by split|done].
  - destruct (handleRead alloc user q fired) as [[q' es]|] eqn:E; [|done]. injection Hr as <-.
    destruct (handleRead_unfold _ _ _ _ _ Hi ltac:(split; lia) E) as (_ & q1 & q2 & R).
    by eapply ages_handleRead.
Qed.

(** ** Cancellation is for good *)

(** An identity that was handed out and that no allocated timer has. *)
Definition dead (q : TimerQueue) (id : TimerId) : Prop :=
  id.2 <= s_numCreated_ q /\ forall t, heap q !! id.1 = Some t -> sequence_ t <> id.2.

Lemma dead_ages q q' id : ages q q' -> dead q id -> dead q' id.
Proof.
  intros [Hn Hh] [Hs Hd]. split; [lia|]. intros t' Ht'.
  destruct (Hh _ _ Ht') as [(t & Ht & <-)|?]; [by apply Hd|lia].
Qed.

Lemma dead_not_fired q id es : dead q id -> id ∉ timer_ids q es.
Proof.
  intros [_ Hd]. unfold timer_ids. rewrite list_elem_of_omap. intros ([w p] & _ & Hx). cbn in Hx.
  destruct (heap q !! p) as [t|] eqn:Et; [|done]. injection Hx as <-. by apply (Hd t).
Qed.

Lemma cancelInLoop_kills q own id q' :
  inv q own -> id.2 <= s_numCreated_ q -> id.1 ∉ own -> cancelInLoop q id = Ok q' -> dead q' id.
Proof.
  intros Hi Hs Hown Hr. destruct (cancelInLoop_ok q own id Hi) as (q1 & E & _ & Hq).
  rewrite E in Hr. injection Hr as <-.
  assert (id ∉ activeTimers_ q -> forall t, heap q !! id.1 = Some t -> sequence_ t <> id.2) as Hn.
  { intros Hna t Ht Heq. destruct (proj1 (inv_heap _ _ Hi id.1)) as [[n Ha]|?]; [eauto| |done].
    destruct (inv_active _ _ Hi _ _ Ha) as (t' & Ht' & <- & _). destruct id as [p s]. cbn in *.
    rewrite Ht in Ht'. injection Ht' as <-. by subst s. }
  destruct Hq as [(t & _ & _ & ->)|[(Hna & _ & ->)|(Hna & _ & ->)]]; split; cbn; auto.
  intros t'. by rewrite lookup_delete_eq.
Qed.

(** The step runs [cancelInLoop] for [id]: called in the loop thread, queued by
    another thread, or called by a timer's callback. *)
Definition cancels (s : sys) (l : label) (id : TimerId) : Prop :=
  match l with
  | LAction a => a = ACancel id
  | LFunctor => head (pending s) = Some (FCancelInLoop id)
  | LHandleRead _ => ACancel id ∈ callbacks (tq s) (expired_of (tq s) (clock (tq s)))
  | _ => False
  end.

Lemma callbacks_kill q own q' es q1 q2 id :
  handleRead_run q own q' es q1 q2 -> id.2 <= s_numCreated_ q -> id.1 ∉ own ->
  ACancel id ∈ callbacks q es -> dead q' id.
Proof.
  intros R Hs Hown Hin. destruct (decide (id.1 ∈ es.*2)) as [Hp|Hp].
  - assert (s_numCreated_ q <= s_numCreated_ q') as Hn by (eapply ages_handleRead; eauto).
    split; [lia|]. intros t' Ht' Heq.
    assert (id.1 ∈ es.*2 ++ own) as Hpo by (apply elem_of_app; by left).
    assert (id ∈ cancelingTimers_ q2) as Hc.
    { apply (callbacks_canceling q1 (es.*2 ++ own) (callbacks q es)); try apply R; done. }
    destruct (inv_own_alive _ _ id.1 (hr_inv2 _ _ _ _ _ _ R) Hpo) as [t Ht].
    apply list_elem_of_fmap in Hp as (it & Hit & Hel). rewrite Hit in Ht.
    pose proof (hr_fate _ _ _ _ _ _ R it t Hel Ht) as Hfate. rewrite Hit in Ht'.
    destruct (repeat_ t); cbn in Hfate; [|congruence].
    destruct (set_mem _ _) eqn:Em; cbn in Hfate; [congruence|].
    rewrite Hfate in Ht'. injection Ht' as <-. cbn in Heq.
    apply set_mem_false in Em; [|apply (hr_inv2 _ _ _ _ _ _ R)].
    apply Em. rewrite Heq, <- Hit. by destruct id.
  - apply dead_ages with q2; [by eapply ages_reset|]. revert Hin.
    apply (run_actions_ind (fun l q2 => ACancel id ∈ l -> dead q2 id) q1 (es.*2 ++ own));
      [apply R|by intros ?%not_elem_of_nil| |apply R|apply R].
    intros l a qa qb Hia Hfa (_ & _ & Hna) IH Ha. rewrite elem_of_app, list_elem_of_singleton.
    intros [Hl|<-]; [eapply dead_ages; [by eapply ages_run_action|auto]|].
    apply (cancelInLoop_kills qa (es.*2 ++ own)); [done| | |done].
    + rewrite (hr_counter1 _ _ _ _ _ _ R) in Hna. lia.
    + rewrite not_elem_of_app. done.
Qed.

Lemma cancels_kill s l r id :
  sys_inv s -> s_numCreated_ (tq s) + label_adds user s l < 2 ^ 63 ->
  id.2 <= s_numCreated_ (tq s) -> id.1 ∉ pending_ptrs (pending s) ->
  cancels s l id -> sys_exec alloc user s l = Ok r -> dead (tq r.1) id.
Proof.
  intros [Hi Hidle Hpos _ _] Hf Hs Hown Hc Hr. destruct s as [q fs rs hs]. cbn [tq pending] in *.
  destruct l as [cb when interval|i|id'| |a|fired]; cbn [sys_exec cancels tq pending label_adds] in *;
    [done|done|done|..].
  - destruct fs as [|f fs]; [done|]. cbn in Hc. injection Hc as ->.
    destruct (cancelInLoop q id) as [q'|] eqn:E; [|done]. injection Hr as <-.
    eapply cancelInLoop_kills; [exact Hi|done..].
  - subst a. cbn in Hr. destruct (cancelInLoop q id) as [q'|] eqn:E; [|done]. injection Hr as <-.
    by eapply cancelInLoop_kills.
  - destruct (handleRead alloc user q fired) as [[q' es]|] eqn:E; [|done]. injection Hr as <-.
    destruct (handleRead_unfold _ _ _ _ _ Hi ltac:(split; lia) E) as (_ & q1 & q2 & R).
    by eapply callbacks_kill.
Qed.

Lemma dead_run id : forall ls s r, sys_inv s -> run_few alloc user s ls -> dead (tq s) id ->
  sys_run alloc user s ls = Ok r -> Forall (fun fired => id ∉ fired) r.2.
Proof.
  induction ls as [|l ls IH]; intros s r Hs Hf Hd Hr; cbn in Hr.
  - injection Hr as <-. constructor.
  - destruct Hf as [Hf Hrest]. pose proof (sys_exec_ok alloc user Halloc s l Hs Hf) as Hok. destruct Hf as [Hf _].
    destruct (sys_exec alloc user s l) as [r1|] eqn:E1; [|done]. cbn in Hok, Hr.
    destruct (sys_run alloc user r1.1 ls) as [r2|] eqn:E2; [|done]. injection Hr as <-.
    constructor.
    + destruct l; cbn in E1; try solve [repeat case_match; simplify_eq/=; set_solver].
      * destruct (new_timer _ _ _ _ _); [|done]. injection E1 as <-. set_solver.
      * destruct (returning s !! i); [|injection E1 as <-; set_solver].
        destruct (addTimer_return _ _); [|done]. injection E1 as <-. set_solver.
      * destruct (pending s) as [|[p|id'] fs].
        -- injection E1 as <-. set_solver.
        -- destruct (addTimerInLoop _ _); [|done]. injection E1 as <-. set_solver.
        -- destruct (cancelInLoop _ _); [|done]. injection E1 as <-. set_solver.
      * destruct (run_action _ _ _); [|done]. injection E1 as <-. set_solver.
      * pose proof (handleRead_ok alloc user Halloc (tq s) (pending_ptrs (pending s)) fired (si_inv _ Hs)
          ltac:(split; [apply Hs|done])) as Hlog.
        destruct (handleRead _ _ _ _) as [[q' es]|]; [|done]. injection E1 as <-. cbn in Hlog |- *.
        destruct Hlog as (_ & -> & _). by apply dead_not_fired.
    + eapply IH; [done|done| |done]. eapply dead_ages; [|done]. by eapply ages_sys_exec.
Qed.

(** C13: once cancel has run in the loop for a TimerId that addTimer handed out
    (directly, as a functor queued by another thread, or from inside a timer
    callback, also the timer's own), that timer's callback runs in no later
    event, whatever happens afterwards, and even though its address may be
    reused by new timers. Condition: the timer's own addTimerInLoop is not
    still queued when the cancel runs; a cancel before it is lost and the timer
    fires ([cancel_before_add_lost]). *)
Theorem cancel_permanent (s s' : sys) (l : label) (ls : list label) (id : TimerId)
    (fired_now : list ActiveTimer) (s'' : sys) (log : list (list ActiveTimer)) :
  sys_inv s -> run_few alloc user s (l :: ls) ->
  id.2 <= s_numCreated_ (tq s) -> FAddTimerInLoop id.1 ∉ pending s -> cancels s l id ->
  sys_exec alloc user s l = Ok (s', fired_now) -> sys_run alloc user s' ls = Ok (s'', log) ->
  Forall (fun fired => id ∉ fired) log.
Proof.
  intros Hs [Hf Hrest] Hid Hp Hc Hx Hr.
  pose proof (sys_exec_ok alloc user Halloc s l Hs Hf) as Hok. rewrite Hx in Hok, Hrest. cbn in Hok.
  eapply (dead_run id ls s' (s'', log)); [done|done| |done].
  eapply (cancels_kill s l (s', fired_now)); [done|apply Hf|done| |done|done].
  unfold pending_ptrs. rewrite list_elem_of_omap. intros ([p|id'] & Hin & [= ->]). done.
Qed.

End Fate.
