(* ===== verification/TimerQueueArmed.v ===== *)
(** * The timerfd is armed early enough

    Between events, whenever a timer is queued the timerfd is armed for an
    instant not after the earliest expiration, with a relative time that the
    kernel accepts and that cannot disarm it. *)

From stdpp Require Import gmap.
From S2P Require Import Prelude Timestamp StdSet TimerQueue TimerQueueInv TimerQueueSpec TimerQueueFate.

(** ** The relative time given to timerfd_settime *)

(** howMuchTimeFromNow is always a normalised, non-zero timespec of at
    least 100 microseconds (a zero it_value would disarm the timerfd), and it
    is the exact distance when the expiration is at least that far away. *)
Lemma howMuchTimeFromNow_ok (when now : Timestamp) :
  let ts := howMuchTimeFromNow when now in
  let ns := tv_sec ts * 1000000000 + tv_nsec ts in
  0 <= tv_sec ts /\ 0 <= tv_nsec ts < 1000000000 /\ 100000 <= ns /\
  (- 2 ^ 63 <= when - now < 2 ^ 63 -> ns = 1000 * Z.max 100 (when - now)).
Proof.
  cbv zeta. unfold howMuchTimeFromNow, kMicroSecondsPerSecond.
  set (d := s64 (when - now)). cbn [tv_sec tv_nsec].
  assert (- 2 ^ 63 <= when - now < 2 ^ 63 -> d = when - now) as Hd
    by (intros; subst d; unfold s64; rewrite (signed_small 64); lia).
  set (m := if d <? 100 then 100 else d).
  assert (m = Z.max 100 d) as Hm by (subst m; zcases; lia). clearbody m.
  rewrite Z.quot_div_nonneg, Z.rem_mod_nonneg by lia. change (1000 * 1000) with 1000000.
  pose proof (Z.div_mod m 1000000 ltac:(lia)).
  pose proof (Z.mod_pos_bound m 1000000 ltac:(lia)). lia.
Qed.

(** ** Sane times *)

Definition interval_ok (interval : double) : Prop :=
  double_gtb interval double_zero = true -> 0 <= delta_of interval < 2 ^ 62.

Definition time_ok (t : Timestamp) : Prop := 0 < t < 2 ^ 62.

Definition when_ok (t : Timestamp) : Prop := - 2 ^ 62 <= t < 2 ^ 62.

Definition action_ok (a : action) : Prop :=
  match a with
  | AAdd _ when interval => when_ok when /\ interval_ok interval
  | ATick t => time_ok t
  | ACancel _ => True
  end.

Definition label_ok (l : label) : Prop :=
  match l with
  | LAddRemote _ when interval => when_ok when /\ interval_ok interval
  | LAction a => action_ok a
  | _ => True
  end.

Definition timer_ok (t : Timer) : Prop :=
  (repeat_ t = true -> 0 <= delta_of (interval_ t) < 2 ^ 62) /\ - 2 ^ 62 <= expiration_ t < 2 ^ 63.

Definition sane (q : TimerQueue) : Prop :=
  time_ok (clock q) /\ forall p t, heap q !! p = Some t -> timer_ok t.

Lemma timer_ok_ctor cb when interval n : when_ok when -> interval_ok interval ->
  timer_ok (Timer_ctor cb when interval n).
Proof. unfold timer_ok, when_ok. cbn. intros ? ?. split; [done|lia]. Qed.

Lemma addTime_ok now t : time_ok now -> timer_ok t -> repeat_ t = true ->
  addTime now (interval_ t) = now + delta_of (interval_ t).
Proof. intros Hn [Ht _] Hr. specialize (Ht Hr). unfold time_ok in Hn. unfold addTime, s64. apply (signed_small 64); lia. Qed.

Lemma timer_ok_restart now t : time_ok now -> timer_ok t -> repeat_ t = true -> timer_ok (restart now t).
Proof.
  intros Hn Ht Hr. split; [apply Ht|]. cbn. rewrite Hr, addTime_ok by done.
  destruct Ht as [Ht _]. specialize (Ht Hr). unfold time_ok in Hn. lia.
Qed.

Lemma sane_frame q q' : sane q -> clock q' = clock q -> heap q' = heap q -> sane q'.
Proof. intros [H1 H2] Hc Hh. split; [by rewrite Hc|by rewrite Hh]. Qed.

Lemma sane_insert q q' p t : sane q -> timer_ok t -> clock q' = clock q ->
  heap q' = <[p := t]> (heap q) -> sane q'.
Proof.
  intros [H1 H2] Ht Hc Hh. split; [by rewrite Hc|]. rewrite Hh. intros p' t'.
  rewrite lookup_insert. case_decide; [intros [= <-]; done|apply H2].
Qed.

Lemma sane_delete q q' p : sane q -> clock q' = clock q -> heap q' = delete p (heap q) -> sane q'.
Proof.
  intros [H1 H2] Hc Hh. split; [by rewrite Hc|]. rewrite Hh.
  intros p' t' [_ ?]%lookup_delete_Some. by eapply H2.
Qed.

(** ** Coverage: entries up to a bound are announced by the timerfd *)

(** The timerfd was set at clock [c], for the expiration [a], to a normalised
    relative time that is the distance in nanoseconds, at least 100
    microseconds. *)
Definition armed_at (q : TimerQueue) (a : Timestamp) : Prop :=
  exists c ts, armed q = Some (a, c, ts) /\ time_ok c /\ 0 <= tv_sec ts /\ 0 <= tv_nsec ts < 1000000000 /\
    tv_sec ts * 1000000000 + tv_nsec ts = 1000 * Z.max 100 (a - c).

Definition armed_by (q : TimerQueue) (w : Timestamp) : Prop := exists a, armed_at q a /\ a <= w.

Lemma armed_at_reset q q' a : time_ok (clock q) -> - 2 ^ 62 <= a < 2 ^ 63 ->
  armed q' = Some (a, clock q, howMuchTimeFromNow a (clock q)) -> armed_at q' a.
Proof.
  intros Hc Ha E. destruct (howMuchTimeFromNow_ok a (clock q)) as (H1 & H2 & _ & H3).
  exists (clock q), (howMuchTimeFromNow a (clock q)). split_and!; [done|done|done|lia|lia|].
  apply H3. unfold time_ok in Hc. lia.
Qed.

Lemma armed_at_frame q q' a : armed q' = armed q -> armed_at q a -> armed_at q' a.
Proof. intros E (c & ts & Ha & H). exists c, ts. by rewrite E. Qed.

Lemma armed_by_frame q q' w : armed q' = armed q -> armed_by q w -> armed_by q' w.
Proof. intros E (a & Ha & H). exists a. split; [by eapply armed_at_frame|done]. Qed.

(** Every entry in the downward closed [P] is covered. *)
Definition covered (P : Timestamp -> Prop) (q : TimerQueue) : Prop :=
  forall w p, (w, p) ∈ timers_ q -> P w -> armed_by q w.

Definition down_closed (P : Timestamp -> Prop) : Prop := forall w w', w <= w' -> P w' -> P w.

Lemma head_le (w p : Z) l w' p' : set_sorted ((w, p) :: l) -> (w', p') ∈ (w, p) :: l -> w <= w'.
Proof.
  intros [_ Hh]%set_sorted_cons [[= -> ->]|Hin]%elem_of_cons; [lia|].
  apply Hh in Hin. by apply pair_less_fst in Hin.
Qed.

Lemma armed_by_le q w w' : w <= w' -> armed_by q w -> armed_by q w'.
Proof. intros Hle (a & ? & ?). exists a. split; [done|lia]. Qed.

Lemma covered_subset P q q' : covered P q -> armed q' = armed q ->
  (forall e, e ∈ timers_ q' -> e ∈ timers_ q) -> covered P q'.
Proof.
  intros Hc Ha Hs w p Hin HP. by apply (armed_by_frame q), (Hc w p (Hs _ Hin) HP).
Qed.

(** Inserting an entry and rearming when it is the new earliest. *)
Lemma covered_add P q q' own p t :
  down_closed P -> inv q own -> covered P q -> time_ok (clock q) -> timer_ok t ->
  timers_ q' = (set_insert (expiration_ t, p) (timers_ q)).1 ->
  armed q' = (if earliest_changed q (expiration_ t)
              then Some (expiration_ t, clock q, howMuchTimeFromNow (expiration_ t) (clock q)) else armed q) ->
  covered P q'.
Proof.
  intros HP Hi Hc Hclk [_ Htok] Ht Ha w p' Hin Hw. rewrite Ht, set_insert_elem in Hin.
  unfold earliest_changed in Ha. pose proof (inv_timers_sorted _ _ Hi) as Hs.
  destruct (timers_ q) as [|[wh ph] l] eqn:El.
  - destruct Hin as [[= -> ->]|[]%not_elem_of_nil]. eexists. split; [by eapply armed_at_reset|lia].
  - cbn in Ha. destruct (ts_lt (expiration_ t) wh) eqn:E.
    + apply Z.ltb_lt in E. eexists. split; [by eapply armed_at_reset|].
      destruct Hin as [[= -> ->]|Hin]; [lia|]. pose proof (head_le _ _ _ _ _ Hs Hin). lia.
    + apply Z.ltb_ge in E. destruct Hin as [[= -> ->]|Hin].
      * apply (armed_by_frame q), (armed_by_le _ wh); [done|lia|].
        apply (Hc wh ph); [rewrite El; by left|by eapply HP].
      * apply (armed_by_frame q); [done|]. apply (Hc w p'); [by rewrite El|done].
Qed.

(** ** Operations *)

Section Armed.

Context (alloc : gmap Z Timer -> option Z) (user : Z -> list action).
Hypothesis Halloc : alloc_spec alloc.
Hypothesis Huser : forall cb, Forall action_ok (user cb).

Lemma addTimerInLoop_covered P q own p q' :
  down_closed P -> inv q (p :: own) -> sane q -> covered P q -> addTimerInLoop q p = Ok q' ->
  sane q' /\ covered P q'.
Proof.
  intros HP Hi Hs Hc Hr. destruct (addTimerInLoop_ok q own p Hi) as (t & q1 & Ht & E & _ & Hh & Hts & _ & Hq).
  rewrite E in Hr. injection Hr as <-. split.
  - apply sane_frame with q; [done| |done]. rewrite Hq. by destruct (earliest_changed _ _).
  - eapply covered_add; [done|done|done|apply Hs|by eapply Hs|done|]. rewrite Hq. by destruct (earliest_changed _ _).
Qed.

Lemma cancelInLoop_covered P q own id q' :
  inv q own -> sane q -> covered P q -> cancelInLoop q id = Ok q' -> sane q' /\ covered P q'.
Proof.
  intros Hi Hs Hc Hr. destruct (cancelInLoop_ok q own id Hi) as (q1 & E & _ & Hq).
  rewrite E in Hr. injection Hr as <-.
  destruct Hq as [(t & _ & _ & ->)|[(_ & _ & ->)|(_ & _ & ->)]]; [|split; [by eapply sane_frame|done]|done].
  split; [by eapply sane_delete|]. eapply covered_subset; [done|done|].
  intros e. cbn. rewrite set_erase_elem by apply Hi. tauto.
Qed.

Lemma run_action_covered P q own a q' :
  down_closed P -> inv q own -> few_timers q (action_adds a) -> action_ok a -> sane q -> covered P q ->
  run_action alloc q a = Ok q' -> sane q' /\ covered P q'.
Proof.
  intros HP Hi Hf Ha Hs Hc Hr. destruct a as [id|cb when interval|t]; cbn in Hr.
  - by eapply cancelInLoop_covered.
  - unfold addTimer in Hr. destruct (alloc (heap q)) as [p|] eqn:Ep;
      [|unfold new_timer in Hr; by rewrite Ep in Hr].
    destruct (new_timer_ok alloc q own cb when interval p) as [E1 Hi1]; [done..|].
    rewrite E1 in Hr. cbn in Hr. destruct (addTimerInLoop _ p) as [q2|] eqn:E2; [|done]. cbn in Hr.
    destruct (deref q2 p); [|done]. injection Hr as <-.
    eapply addTimerInLoop_covered; [done|done| |done|done].
    eapply (sane_insert q _ p (Timer_ctor cb when interval (s_numCreated_ q + 1))); [done|by apply timer_ok_ctor; apply Ha|done..].
  - injection Hr as <-. destruct Hs as [_ Hs]. split; [by split|done].
Qed.

Lemma run_actions_covered P q own l q' :
  down_closed P -> inv q own -> few_timers q (adds l) -> Forall action_ok l -> sane q -> covered P q ->
  foldM (run_action alloc) q l = Ok q' -> sane q' /\ covered P q'.
Proof.
  intros HP Hi Hf Hl Hs Hc Hr. revert Hl.
  apply (run_actions_ind alloc Halloc (fun l q' => Forall action_ok l -> sane q' /\ covered P q') q own);
    [done|done| |done|done].
  intros l1 a q1 q2 Hi1 Hf1 _ IH Ha [Hl1 Ha1]%Forall_app.
  rewrite Forall_singleton in Ha1. destruct (IH Hl1). by eapply run_action_covered.
Qed.

Lemma callbacks_ok q l : Forall action_ok (callbacks user q l).
Proof.
  induction l as [|it l IH]; [constructor|]. rewrite callbacks_cons. apply Forall_app. split; [|done].
  unfold entry_actions. destruct (heap q !! it.2); [apply Huser|constructor].
Qed.

(** The loop of [reset] inserts only positive expirations. *)
Lemma reset_loop_covered now l : forall q own q', time_ok now ->
  inv q (l.*2 ++ own) -> sane q -> covered (fun w => w <= 0) q ->
  foldM (reset_one now) q l = Ok q' -> sane q' /\ covered (fun w => w <= 0) q' /\ inv q' own.
Proof.
  induction l as [|it l IH]; intros q own q' Hnow Hi Hs Hc Hr; cbn in *; [by injection Hr as <-|].
  destruct (reset_one_ok q (l.*2 ++ own) now it Hi)
    as (t & q1 & Ht & E1 & Hi1 & Hh & _ & _ & _ & Hk & Ha & Hfate).
  rewrite E1 in Hr. cbn in Hr. pose proof (proj2 Hs _ _ Ht) as Htok.
  eapply IH; [done|done| | |done].
  - destruct Hs as [Hclk Hs]. split; [by rewrite Hk|]. intros p t'.
    destruct (decide (p = it.2)) as [->|Hne]; [|rewrite Hh by done; apply Hs].
    destruct (repeat_ t) eqn:Erep; cbn in Hfate; [|by destruct Hfate as [-> _]].
    destruct (negb _); destruct Hfate as [-> _]; [|done]. intros [= <-].
    by apply timer_ok_restart.
  - intros w p Hin Hw. apply (armed_by_le q1 w w); [lia|].
    destruct (repeat_ t) eqn:Erep; cbn in Hfate.
    2: { destruct Hfate as (_ & Hts & _). rewrite Hts in Hin.
         by apply (armed_by_frame q), (Hc w p). }
    destruct (negb _); destruct Hfate as (_ & Hts & _); rewrite Hts in Hin.
    + apply set_insert_elem in Hin as [[= -> ->]|Hin].
      * exfalso. revert Hw. rewrite addTime_ok by done. destruct Htok as [Htok _]. specialize (Htok Erep).
        unfold time_ok in Hnow. lia.
      * by apply (armed_by_frame q), (Hc w p).
    + by apply (armed_by_frame q), (Hc w p).
Qed.

Lemma reset_covers q own es now q' :
  time_ok now -> inv q (es.*2 ++ own) -> sane q -> covered (fun w => w <= 0) q ->
  reset q es now = Ok q' -> sane q' /\ covered (fun _ => True) q'.
Proof.
  intros Hnow Hi Hs Hc Hr. unfold reset in Hr.
  destruct (foldM (reset_one now) q es) as [q3|] eqn:E3; cbn in Hr; [|done].
  destruct (reset_loop_covered now es q own q3 Hnow Hi Hs Hc E3) as (Hs3 & Hc3 & Hi3).
  pose proof (inv_timers_sorted _ _ Hi3) as Hsort.
  destruct (timers_ q3) as [|[w p] l] eqn:El.
  { injection Hr as <-. split; [done|]. intros w p. rewrite El. by intros ?%not_elem_of_nil. }
  destruct (inv_entry _ _ Hi3 w p) as (t & Ht & Hw & _); [rewrite El; by left|].
  unfold deref in Hr. cbn in Hr. rewrite Ht in Hr. cbn in Hr. injection Hr as <-. rewrite Hw.
  unfold valid. destruct (Z.ltb_spec 0 w) as [Hpos|Hneg].
  - split; [by eapply sane_frame|]. intros w' p' Hin _. cbn in Hin. rewrite El in Hin.
    exists w. split; [|by eapply head_le]. eapply armed_at_reset; [apply Hs3| |done].
    rewrite <- Hw. by eapply Hs3.
  - split; [done|]. intros w' p' Hin _. apply (armed_by_le q3 w).
    + rewrite El in Hin. by eapply head_le.
    + apply (Hc3 w p); [rewrite El; by left|done].
Qed.

Lemma handleRead_covered q own fired q' es :
  inv q own -> few_timers q (entries_adds user q (timers_ q)) -> sane q ->
  handleRead alloc user q fired = Ok (q', es) -> sane q' /\ covered (fun _ => True) q'.
Proof.
  intros Hi Hf Hs Hr.
  destruct (handleRead_unfold alloc user Halloc _ _ _ _ _ Hi Hf Hr) as (_ & q1 & q2 & R).
  set (due := expired_of q (clock q)) in R. assert (sane q1) as Hs1 by (apply sane_frame with q; [done|apply R|apply R]).
  destruct (expired_split q own (clock q) Hi) as (_ & _ & Hlat).
  destruct (run_actions_covered (fun w => w <= 0) q1 (due.*2 ++ own) (callbacks user q due) q2)
    as [Hs2 Hc2]; [intros ???; lia|apply R|apply R|apply callbacks_ok|done| |apply R|].
  - intros w p Hin Hw. rewrite (hr_timers1 _ _ _ _ _ _ _ _ R) in Hin. apply Hlat in Hin as [_ Hgt].
    destruct Hs as [Hclk _]. unfold time_ok in Hclk. lia.
  - eapply reset_covers; [apply Hs| | | |apply R].
    + pose proof (hr_inv2 _ _ _ _ _ _ _ _ R) as Hi2. eapply inv_frame; [exact Hi2|done..|apply Hi2].
    + by eapply sane_frame.
    + done.
Qed.

Lemma sys_exec_covered s l r :
  sys_inv s -> s_numCreated_ (tq s) + label_adds user s l < 2 ^ 63 -> label_ok l ->
  sane (tq s) -> covered (fun _ => True) (tq s) -> sys_exec alloc user s l = Ok r ->
  sane (tq r.1) /\ covered (fun _ => True) (tq r.1).
Proof.
  intros [Hi Hidle Hpos _ _] Hf Hl Hs Hc Hr. destruct s as [q fs rs hs]. cbn [tq pending] in *.
  destruct l as [cb when interval|i|id| |a|fired]; cbn [sys_exec tq pending returning handed label_adds] in *.
  - destruct (alloc (heap q)) as [p|] eqn:Ep; [|unfold new_timer in Hr; by rewrite Ep in Hr].
    destruct (new_timer_ok alloc q _ cb when interval p Halloc Hi) as [E _]; [split; lia|done|].
    rewrite E in Hr. injection Hr as <-. split; [|done].
    eapply (sane_insert q _ p (Timer_ctor cb when interval (s_numCreated_ q + 1))); [done|by apply timer_ok_ctor; apply Hl|done..].
  - destruct (rs !! i); [|by injection Hr as <-]. destruct (addTimer_return _ _); [|done]. by injection Hr as <-.
  - by injection Hr as <-.
  - destruct fs as [|[p|id] fs]; cbn [pending_ptrs omap list_omap functor_ptr] in Hi.
    + by injection Hr as <-.
    + destruct (addTimerInLoop q p) as [q'|] eqn:E; [|done]. injection Hr as <-.
      eapply addTimerInLoop_covered; [by intros ???|exact Hi|done..].
    + destruct (cancelInLoop q id) as [q'|] eqn:E; [|done]. injection Hr as <-.
      eapply cancelInLoop_covered; [exact Hi|done..].
  - destruct (run_action alloc q a) as [q'|] eqn:E; [|done]. injection Hr as <-.
    eapply run_action_covered; [by intros ???|done|by split|done..].
  - destruct (handleRead alloc user q fired) as [[q' es]|] eqn:E; [|done]. injection Hr as <-.
    eapply handleRead_covered; [done|by split|done|done].
Qed.

(** C27: no timer is ever forgotten by the timerfd. In every reachable state
    between loop events in which a timer is queued, the timerfd is armed: for
    an expiration that is not after any queued one, with a normalised, non-zero
    relative time that is exactly the distance from the clock at the call of
    timerfd_settime to that expiration, or 100 microseconds when it is nearer
    than that (so the event comes at most 100 microseconds after the later of
    the expiration and the call). Assumed of the process: clock values are
    positive and below [2^62] microseconds, the intervals of repeating timers
    are non-negative and below [2^62], the times given to addTimer are within
    [2^62] (so that the int64 arithmetic does not overflow), fewer than 2^63
    timers are created, and addTimer of other threads is not overtaken by the
    deletion of its timer. *)
Theorem timerfd_armed (t : Timestamp) (ls : list label) (s : sys) (log : list (list ActiveTimer)) :
  time_ok t -> Forall label_ok ls -> run_few alloc user (sys_init t) ls ->
  sys_run alloc user (sys_init t) ls = Ok (s, log) ->
  forall w p, (w, p) ∈ timers_ (tq s) ->
    exists a c ts, armed (tq s) = Some (a, c, ts) /\ a <= w /\ 0 < c /\
      0 <= tv_sec ts /\ 0 <= tv_nsec ts < 1000000000 /\
      tv_sec ts * 1000000000 + tv_nsec ts = 1000 * Z.max 100 (a - c).
Proof.
  intros Ht Hl Hf Hr.
  enough (covered (fun _ => True) (tq (s, log).1)) as Hc.
  { intros w p Hin. destruct (Hc w p Hin I) as (a & (c & ts & Ha & Hclk & Hts) & Hle). exists a, c, ts.
    destruct Hts as (? & ? & ?). unfold time_ok in Hclk. split_and!; try done; lia. }
  assert (sane (tq (sys_init t))) as Hs by (split; [done|intros p t'; cbn; by rewrite lookup_empty]).
  assert (covered (fun _ => True) (tq (sys_init t))) as Hc by (intros w p ?%not_elem_of_nil; done).
  pose proof (sys_inv_init t) as Hi.
  revert Hi Hs Hc Hl Hf Hr. generalize (sys_init t) (s, log). clear -Halloc Huser.
  induction ls as [|l ls IH]; intros s r Hi Hs Hc Hl Hf Hr; cbn in Hr.
  - by injection Hr as <-.
  - destruct Hf as [Hf Hrest]. apply Forall_cons in Hl as [Hl Hls].
    pose proof (sys_exec_ok alloc user Halloc s l Hi Hf) as Hok. destruct Hf as [Hf _].
    destruct (sys_exec alloc user s l) as [r1|] eqn:E1; [|done]. cbn in Hok, Hr.
    destruct (sys_run alloc user r1.1 ls) as [r2|] eqn:E2; [|done]. injection Hr as <-.
    destruct (sys_exec_covered s l r1) as [Hs1 Hc1]; [done..|].
    by apply (IH r1.1 r2).
Qed.

End Armed.
