(* ===== verification/TimerQueueExamples.v ===== *)
(** * A concrete run of the timer queue

    A bump allocator, three callbacks (one cancels its own repeating timer,
    one adds a timer, one cancels another) and a trace over two threads, on
    which the theorems of the timer files are applied. *)

From stdpp Require Import gmap.
From S2P Require Import Prelude Timestamp StdSet TimerQueue TimerQueueInv TimerQueueSpec.
From S2P Require Import TimerQueueFate TimerQueueArmed.

Definition max_addr (h : gmap Z Timer) : Z := map_fold (fun k _ acc => Z.max k acc) 0 h.

Definition bump_alloc (h : gmap Z Timer) : option Z :=
  if max_addr h + 1 <? UINTPTR_MAX then Some (max_addr h + 1) else None.

Lemma max_addr_spec h : 0 <= max_addr h /\ forall k t, h !! k = Some t -> k <= max_addr h.
Proof.
  unfold max_addr. apply (map_fold_weak_ind (fun r m => 0 <= r /\ forall k t, m !! k = Some t -> k <= r)).
  - split; [lia|]. intros k t. by rewrite lookup_empty.
  - intros k t m r Hk [H0 IH]. split; [lia|]. intros k' t'.
    rewrite lookup_insert. case_decide; [lia|]. intros ?%IH. lia.
Qed.

Lemma bump_alloc_spec : alloc_spec bump_alloc.
Proof.
  intros h p. unfold bump_alloc. destruct (max_addr_spec h) as [H0 Hmax].
  destruct (Z.ltb_spec (max_addr h + 1) UINTPTR_MAX); [|done]. intros [= <-]. split; [|lia].
  destruct (h !! (max_addr h + 1)) as [t|] eqn:E; [|done]. apply Hmax in E. lia.
Qed.

Definition one_second : double := double_of_Z 1.

Definition demo_user (cb : Z) : list action :=
  if cb =? 1 then [ACancel (1, 1)]
  else if cb =? 2 then [AAdd 3 5000 double_zero; ATick 3100]
  else [].

(** Thread A queues a repeating timer (1,1); the loop adds a repeating timer
    (2,2) itself; both expire at the same event. *)
Definition demo_trace : list label :=
  [LAddRemote 1 2000 one_second; LFunctor; LAddReturn 0; LAction (AAdd 2 2500 one_second);
   LAction (ATick 3000); LHandleRead true].

Definition demo_state (n : nat) : sys :=
  match sys_run bump_alloc demo_user (sys_init 1000) (take n demo_trace) with
  | Ok r => r.1
  | Fail _ => sys_init 0
  end.

Lemma demo_user_ok cb : Forall action_ok (demo_user cb).
Proof.
  unfold demo_user. destruct (cb =? 1); [repeat constructor|].
  destruct (cb =? 2); [|constructor]. repeat constructor; cbn; unfold time_ok, when_ok; try lia; done.
Qed.

Lemma run_few_cons s s' l log ls :
  s_numCreated_ (tq s) + label_adds demo_user s l < 2 ^ 63 -> in_time s l ->
  sys_exec bump_alloc demo_user s l = Ok (s', log) -> run_few bump_alloc demo_user s' ls ->
  run_few bump_alloc demo_user s (l :: ls).
Proof. intros H1 H2 E Hr. cbn. rewrite E. done. Qed.

Ltac demo_in_time :=
  cbn [in_time]; first [exact I | intros ? ? [= <- <-]; eexists; split; [vm_compute; reflexivity|reflexivity]].

Lemma demo_few n : (n <= 6)%nat -> run_few bump_alloc demo_user (sys_init 1000) (take n demo_trace).
Proof.
  intros Hn. assert (n = 0 \/ n = 1 \/ n = 2 \/ n = 3 \/ n = 4 \/ n = 5 \/ n = 6)%nat as Hc by lia.
  destruct Hc as [->|[->|[->|[->|[->|[->| ->]]]]]]; cbn [take demo_trace].
  all: repeat (eapply run_few_cons; [vm_compute; done|demo_in_time|vm_compute; reflexivity|]); exact I.
Qed.

Lemma demo_state_inv n : (n <= 6)%nat -> sys_inv (demo_state n).
Proof.
  intros Hn. pose proof (sys_run_ok bump_alloc demo_user bump_alloc_spec _ _ (sys_inv_init 1000)
    (demo_few n Hn)) as H.
  unfold demo_state. destruct (sys_run _ _ _ (take n demo_trace)) as [r|]; [done|].
  apply sys_inv_init.
Qed.

(** ** The theorems on this run *)

Lemma timer_queue_safe_witness :
  match sys_run bump_alloc demo_user (sys_init 1000) demo_trace with
  | Ok (s, _) =>
      zlen (timers_ (tq s)) = zlen (activeTimers_ (tq s)) /\
      (forall p, is_Some (heap (tq s) !! p) <->
        ((exists seq, (p, seq) ∈ activeTimers_ (tq s)) \/ FAddTimerInLoop p ∈ pending s)) /\
      NoDup (handed s).*2
  | Fail f => f = BadAlloc
  end.
Proof.
  apply (timer_queue_safe bump_alloc demo_user bump_alloc_spec 1000 demo_trace).
  apply (demo_few 6). lia.
Defined.

(** The second timer repeats; the first cancelled itself. *)
Definition demo_t1 : Timer := Timer_ctor 1 2000 one_second 1.
Definition demo_t2 : Timer := Timer_ctor 2 2500 one_second 2.

Lemma demo_facts :
  let q := tq (demo_state 5) in
  inv q [] /\ few_timers q (entries_adds demo_user q (timers_ q)) /\ clock q = 3000 /\
  heap q !! 1 = Some demo_t1 /\ heap q !! 2 = Some demo_t2 /\
  callbacks demo_user q [(2000, 1); (2500, 2)] = [ACancel (1, 1); AAdd 3 5000 double_zero; ATick 3100] /\
  expired_of q (clock q) = [(2000, 1); (2500, 2)] /\
  exists q', handleRead bump_alloc demo_user q true = Ok (q', [(1, 1); (2, 2)]).
Proof.
  cbv zeta. split_and!; [apply (demo_state_inv 5); lia|vm_compute; done..|].
  destruct (handleRead bump_alloc demo_user (tq (demo_state 5)) true) as [[q' es]|] eqn:E;
    vm_compute in E; [|done].
  exists q'. congruence.
Qed.

Lemma handleRead_fires_due_witness :
  exists q q' due, clock q = 3000 /\ handleRead bump_alloc demo_user q true = Ok (q', [(1, 1); (2, 2)]) /\
    timer_ids q due = [(1, 1); (2, 2)] /\ (forall w p, (w, p) ∈ due <-> (w, p) ∈ timers_ q /\ w <= clock q).
Proof.
  destruct demo_facts as (Hi & Hf & Hclk & _ & _ & _ & _ & q' & E). revert Hi Hf Hclk E.
  generalize (tq (demo_state 5)) as q. intros q Hi Hf Hclk E.
  pose proof (handleRead_fires_due bump_alloc demo_user bump_alloc_spec q [] true Hi Hf) as H.
  rewrite E in H. destruct H as (due & Hlog & _ & Hdue & _). exists q, q', due.
  split; [exact Hclk|]. split; [exact E|]. split; [symmetry; exact Hlog|exact Hdue].
Defined.

Lemma expired_timer_fate_witness :
  exists q q' es, clock q = 3000 /\ heap q !! 2 = Some demo_t2 /\ heap q !! 1 = Some demo_t1 /\
    handleRead bump_alloc demo_user q true = Ok (q', es) /\
    heap q' !! 2 = Some (restart 3000 demo_t2) /\ heap q' !! 1 = None.
Proof.
  destruct demo_facts as (Hi & Hf & Hclk & H1 & H2 & Hcb & Hexp & q' & E). revert Hi Hf Hclk H1 H2 Hcb Hexp E.
  generalize (tq (demo_state 5)) as q. intros q Hi Hf Hclk H1 H2 Hcb Hexp E.
  exists q, q', [(1, 1); (2, 2)]. do 4 (split; [assumption|]).
  rewrite <- Hclk. split.
  - apply (expired_timer_fate bump_alloc demo_user bump_alloc_spec q q' [] true _ 2500 2 demo_t2 Hi Hf E
      ltac:(rewrite Hexp; right; left) H2); [reflexivity|].
    rewrite Hexp, Hcb. set_solver.
  - apply (expired_timer_fate bump_alloc demo_user bump_alloc_spec q q' [] true _ 2000 1 demo_t1 Hi Hf E
      ltac:(rewrite Hexp; left) H1). right. rewrite Hexp, Hcb. left.
Defined.

(** The remote thread cancels the repeating timer (2,2) before it expires. *)
Lemma cancel_permanent_witness :
  exists s' s'' log,
    sys_exec bump_alloc demo_user (demo_state 5) (LAction (ACancel (2, 2))) = Ok (s', []) /\
    sys_run bump_alloc demo_user s' [LHandleRead true; LAction (ATick 9000000); LHandleRead true]
      = Ok (s'', log) /\
    Forall (fun fired => (2, 2) ∉ fired) log.
Proof.
  destruct (sys_exec bump_alloc demo_user (demo_state 5) (LAction (ACancel (2, 2))))
    as [[s' now]|] eqn:E; [|vm_compute in E; done].
  assert (now = []) as -> by (vm_compute in E; congruence).
  destruct (sys_run bump_alloc demo_user s'
    [LHandleRead true; LAction (ATick 9000000); LHandleRead true]) as [[s'' log]|] eqn:E2;
    [|vm_compute in E; injection E as <-; vm_compute in E2; done].
  exists s', s'', log. split_and!; [done|done|].
  apply (cancel_permanent bump_alloc demo_user bump_alloc_spec (demo_state 5) s'
    (LAction (ACancel (2, 2))) [LHandleRead true; LAction (ATick 9000000); LHandleRead true]
    (2, 2) [] s'' log); [apply demo_state_inv; lia|..|done|done|done].
  - repeat (eapply run_few_cons; [vm_compute; done|demo_in_time|vm_compute; reflexivity|]); exact I.
  - vm_compute. done.
  - assert (pending (demo_state 5) = []) as -> by (vm_compute; done). set_solver.
Defined.

Lemma timerfd_armed_witness :
  exists s log, sys_run bump_alloc demo_user (sys_init 1000) demo_trace = Ok (s, log) /\
    (5000, 3) ∈ timers_ (tq s) /\
    exists a c ts, armed (tq s) = Some (a, c, ts) /\ a <= 5000 /\ 0 < c /\
      0 <= tv_sec ts /\ 0 <= tv_nsec ts < 1000000000 /\
      tv_sec ts * 1000000000 + tv_nsec ts = 1000 * Z.max 100 (a - c).
Proof.
  destruct (sys_run bump_alloc demo_user (sys_init 1000) demo_trace) as [[s log]|] eqn:E;
    [|vm_compute in E; done].
  assert ((5000, 3) ∈ timers_ (tq s)) as Hin
    by (vm_compute in E; injection E as <- <-; cbn; set_solver).
  exists s, log. split_and!; [done|done|].
  apply (timerfd_armed bump_alloc demo_user bump_alloc_spec demo_user_ok 1000 demo_trace s log)
    with (p := 3); [unfold time_ok; lia| |apply (demo_few 6); lia|done|done].
  repeat constructor; cbn; unfold time_ok, when_ok; try lia; vm_compute; repeat split; done.
Defined.

Lemma howMuchTimeFromNow_ok_witness :
  let ts := howMuchTimeFromNow 2500000 1000000 in
  tv_sec ts * 1000000000 + tv_nsec ts = 1500000000.
Proof.
  cbv zeta. rewrite (proj2 (proj2 (proj2 (howMuchTimeFromNow_ok 2500000 1000000)))); lia.
Defined.

(** ** A race in addTimer *)

(** AddTimer called from another thread can read a deleted Timer. The
    thread hands the new Timer to the loop and only then reads its sequence
    number for the TimerId it returns. If it is preempted in between, the loop
    may insert the timer, run it and delete it; the read is then a use after
    free. When the loop has not got that far the read gives the new identity. *)
Lemma addTimer_remote_race :
  (exists s log, sys_run bump_alloc demo_user (sys_init 1000) [LAddRemote 3 900 double_zero; LAddReturn 0] = Ok (s, log) /\
     handed s = [(1, 1)]) /\
  sys_run bump_alloc demo_user (sys_init 1000) [LAddRemote 3 900 double_zero; LFunctor; LHandleRead true; LAddReturn 0]
    = Fail UseAfterFree.
Proof. split; [do 2 eexists; split; vm_compute; reflexivity|vm_compute; reflexivity]. Qed.

(** ** A cancellation that is lost *)

(** The TimerId is known to its owner before the loop has run addTimerInLoop;
    a cancel that runs in the loop first finds no such timer, and the timer is
    added and fires afterwards. *)
Lemma cancel_before_add_lost :
  exists s, sys_run bump_alloc demo_user (sys_init 1000)
    [LAddRemote 3 900 double_zero; LAddReturn 0; LAction (ACancel (1, 1)); LFunctor; LHandleRead true]
    = Ok (s, [[]; []; []; []; [(1, 1)]]).
Proof. eexists. vm_compute. reflexivity. Qed.
