(* ===== verification/Channel.v ===== *)
(** * Channels: src/mynetlib/net/Channel.h, Channel.cc, and the Poller interface

    A channel binds a file descriptor to the callbacks of its owner. Channels
    are objects shared between their owner and the poller, so they live in a
    store indexed by address; [Poller] is the abstract class of Poller.h. *)

From stdpp Require Import gmap.
From S2P Require Import Prelude Format.

(** ** Poll events of <poll.h> *)

Definition POLLIN : Z := 1.
Definition POLLPRI : Z := 2.
Definition POLLOUT : Z := 4.
Definition POLLERR : Z := 8.
Definition POLLHUP : Z := 16.
Definition POLLNVAL : Z := 32.
Definition POLLRDHUP : Z := 8192.

Definition kNoneEvent : Z := 0.
Definition kReadEvent : Z := Z.lor POLLIN POLLPRI.
Definition kWriteEvent : Z := POLLOUT.

(** [ev & mask] as a condition. *)
Definition has (ev mask : Z) : bool := negb (Z.land ev mask =? 0).

(** ** The class *)

Inductive callback : Set := ReadCallback | WriteCallback | CloseCallback | ErrorCallback.

#[export] Instance callback_eq_dec : EqDecision callback.
Proof. solve_decision. Defined.

Record Channel : Type := mkChannel {
  fd_ : Z;
  events_ : Z;
  revents_ : Z;
  index_ : Z;
  logHup_ : bool;
  tied_ : bool;
  eventHandling_ : bool;
  addedToLoop_ : bool;
  callbacks_ : list callback;
}.

Definition Channel_ctor (fd : Z) : Channel :=
  mkChannel fd 0 0 (-1) true false false false [].

Definition set_callback (cb : callback) (c : Channel) : Channel :=
  mkChannel (fd_ c) (events_ c) (revents_ c) (index_ c) (logHup_ c) (tied_ c)
    (eventHandling_ c) (addedToLoop_ c) (cb :: callbacks_ c).
Definition set_events (ev : Z) (c : Channel) : Channel :=
  mkChannel (fd_ c) ev (revents_ c) (index_ c) (logHup_ c) (tied_ c)
    (eventHandling_ c) (addedToLoop_ c) (callbacks_ c).
Definition set_revents (revt : Z) (c : Channel) : Channel :=
  mkChannel (fd_ c) (events_ c) revt (index_ c) (logHup_ c) (tied_ c)
    (eventHandling_ c) (addedToLoop_ c) (callbacks_ c).
Definition set_index (idx : Z) (c : Channel) : Channel :=
  mkChannel (fd_ c) (events_ c) (revents_ c) idx (logHup_ c) (tied_ c)
    (eventHandling_ c) (addedToLoop_ c) (callbacks_ c).
Definition set_added (b : bool) (c : Channel) : Channel :=
  mkChannel (fd_ c) (events_ c) (revents_ c) (index_ c) (logHup_ c) (tied_ c)
    (eventHandling_ c) b (callbacks_ c).
Definition set_eventHandling (b : bool) (c : Channel) : Channel :=
  mkChannel (fd_ c) (events_ c) (revents_ c) (index_ c) (logHup_ c) (tied_ c)
    b (addedToLoop_ c) (callbacks_ c).
Definition tie (c : Channel) : Channel :=
  mkChannel (fd_ c) (events_ c) (revents_ c) (index_ c) (logHup_ c) true
    (eventHandling_ c) (addedToLoop_ c) (callbacks_ c).
Definition doNotLogHup (c : Channel) : Channel :=
  mkChannel (fd_ c) (events_ c) (revents_ c) (index_ c) false (tied_ c)
    (eventHandling_ c) (addedToLoop_ c) (callbacks_ c).

Definition isNoneEvent (c : Channel) : bool := events_ c =? kNoneEvent.
Definition isWriting (c : Channel) : bool := has (events_ c) kWriteEvent.
Definition isReading (c : Channel) : bool := has (events_ c) kReadEvent.

Definition eventsToString (fd ev : Z) : list byte :=
  fmt_d fd ++ str ": " ++
  (if has ev POLLIN then str "IN " else []) ++
  (if has ev POLLPRI then str "PRI " else []) ++
  (if has ev POLLOUT then str "OUT " else []) ++
  (if has ev POLLHUP then str "HUP " else []) ++
  (if has ev POLLRDHUP then str "RDHUP " else []) ++
  (if has ev POLLERR then str "ERR " else []) ++
  (if has ev POLLNVAL then str "NVAL " else []).

(** ** The store of channels and the poller interface *)

Abbreviation chans := (gmap Z Channel) (only parsing).

Definition chan_deref (st : chans) (p : Z) : outcome Channel :=
  match st !! p with Some c => Ok c | None => Fail UseAfterFree end.

Definition chan_modify (st : chans) (p : Z) (f : Channel -> Channel) : outcome chans :=
  c ← chan_deref st p; Ok (<[p := f c]> st).

(** Poller.h: what a poller offers to channels. *)
Class Poller (P : Type) : Type := {
  channels_of : P -> gmap Z Z;
  updateChannel : P -> chans -> Z -> outcome (P * chans);
  removeChannel : P -> chans -> Z -> outcome (P * chans);
}.

Section Channel.

Context {P : Type} `{!Poller P}.

Definition hasChannel (pl : P) (st : chans) (p : Z) : outcome bool :=
  c ← chan_deref st p;
  Ok (bool_decide (channels_of pl !! fd_ c = Some p)).

Definition update (s : P * chans) (p : Z) : outcome (P * chans) :=
  st ← chan_modify s.2 p (set_added true);
  updateChannel s.1 st p.

Definition with_events (f : Z -> Z) (s : P * chans) (p : Z) : outcome (P * chans) :=
  st ← chan_modify s.2 p (fun c => set_events (f (events_ c)) c);
  update (s.1, st) p.

Definition enableReading := with_events (fun ev => Z.lor ev kReadEvent).
Definition disableReading := with_events (fun ev => Z.land ev (Z.lnot kReadEvent)).
Definition enableWriting := with_events (fun ev => Z.lor ev kWriteEvent).
Definition disableWriting := with_events (fun ev => Z.land ev (Z.lnot kWriteEvent)).
Definition disableAll := with_events (fun _ => kNoneEvent).

Definition remove (s : P * chans) (p : Z) : outcome (P * chans) :=
  c ← chan_deref s.2 p;
  c_assert (isNoneEvent c);;
  st ← chan_modify s.2 p (set_added false);
  removeChannel s.1 st p.

(** [~Channel], in the loop's thread. *)
Definition Channel_dtor (s : P * chans) (p : Z) : outcome (P * chans) :=
  c ← chan_deref s.2 p;
  c_assert (negb (eventHandling_ c));;
  c_assert (negb (addedToLoop_ c));;
  b ← hasChannel s.1 s.2 p;
  c_assert (negb b);;
  Ok (s.1, delete p s.2).

End Channel.

(** ** Event dispatch

    [run cb] is what the owner's callback does to the program state [S], in
    which the channel is found by [get] and written back by [put]. *)
Section Dispatch.

Context {S : Type} (get : S -> Channel) (put : Channel -> S -> S).
Context (run : callback -> S -> outcome S).

(** [if (xxxCallback_) xxxCallback_();] under a condition on [revents_]. *)
Definition fire (cond : Z -> bool) (cb : callback) (s : S) : outcome S :=
  if cond (revents_ (get s)) && bool_decide (cb ∈ callbacks_ (get s)) then run cb s else Ok s.

Definition handleEventWithGuard (s : S) : outcome S :=
  let s0 := put (set_eventHandling true (get s)) s in
  s1 ← fire (fun r => has r POLLHUP && negb (has r POLLIN)) CloseCallback s0;
  s2 ← fire (fun r => has r (Z.lor POLLERR POLLNVAL)) ErrorCallback s1;
  s3 ← fire (fun r => has r (Z.lor POLLIN (Z.lor POLLPRI POLLRDHUP))) ReadCallback s2;
  s4 ← fire (fun r => has r POLLOUT) WriteCallback s3;
  Ok (put (set_eventHandling false (get s4)) s4).

(** [owner_alive]: whether [tie_.lock()] gives an object. *)
Definition handleEvent (owner_alive : bool) (s : S) : outcome S :=
  if tied_ (get s) then if owner_alive then handleEventWithGuard s else Ok s
  else handleEventWithGuard s.

(** What every callback and every change of the channel keeps, a whole event
    keeps. *)
Lemma handleEvent_inv (I : S -> Prop) b s s' :
  (forall ch s, I s -> I (put ch s)) ->
  (forall cb s s', I s -> run cb s = Ok s' -> I s') ->
  I s -> handleEvent b s = Ok s' -> I s'.
Proof.
  intros Hput Hrun Hi.
  assert (forall cond cb s s', I s -> fire cond cb s = Ok s' -> I s') as Hf.
  { intros cond cb s1 s2 H1. unfold fire. destruct (_ && _); [by apply Hrun|by intros [= <-]]. }
  assert (handleEventWithGuard s = Ok s' -> I s') as Hg.
  { unfold handleEventWithGuard.
    destruct (fire _ CloseCallback _) as [s1|] eqn:E1; cbn; [|done].
    destruct (fire _ ErrorCallback _) as [s2|] eqn:E2; cbn; [|done].
    destruct (fire _ ReadCallback _) as [s3|] eqn:E3; cbn; [|done].
    destruct (fire _ WriteCallback _) as [s4|] eqn:E4; cbn; [|done].
    intros [= <-]. apply Hput. eauto 8. }
  unfold handleEvent. destruct (tied_ (get s)), b; auto; by intros [= <-].
Qed.

End Dispatch.

(** ** Facts *)

Lemma has_lor ev m1 m2 : has ev (Z.lor m1 m2) = has ev m1 || has ev m2.
Proof.
  unfold has. rewrite Z.land_lor_distr_r.
  destruct (Z.eqb_spec (Z.land ev m1) 0) as [->|H1]; cbn; [by rewrite Z.lor_0_l|].
  destruct (Z.eqb_spec (Z.lor (Z.land ev m1) (Z.land ev m2)) 0) as [E|]; cbn; [|done].
  apply Z.lor_eq_0_iff in E. tauto.
Qed.

Lemma isNoneEvent_spec c : isNoneEvent c = true <-> events_ c = 0.
Proof. apply Z.eqb_eq. Qed.

Lemma chan_modify_ok st p c f : st !! p = Some c -> chan_modify st p f = Ok (<[p := f c]> st).
Proof. intros E. unfold chan_modify, chan_deref. by rewrite E. Qed.
