(* ===== verification/Poller.v ===== *)
(** * Use of a poller by the channels of one loop

    The operations channel owners perform, the protocol they have to follow
    (Channel.h), and what a poller has to promise in return. *)

From stdpp Require Import gmap.
From S2P Require Import Prelude Channel.

Inductive chan_op : Type :=
| ONew (p fd : Z)
| OEnableReading (p : Z)
| ODisableReading (p : Z)
| OEnableWriting (p : Z)
| ODisableWriting (p : Z)
| ODisableAll (p : Z)
| ORemove (p : Z)
| ODelete (p : Z).

Section Ops.

Context {P : Type} `{!Poller P}.

Definition chan_exec (s : P * chans) (o : chan_op) : outcome (P * chans) :=
  match o with
  | ONew p fd => Ok (s.1, <[p := Channel_ctor fd]> s.2)
  | OEnableReading p => enableReading s p
  | ODisableReading p => disableReading s p
  | OEnableWriting p => enableWriting s p
  | ODisableWriting p => disableWriting s p
  | ODisableAll p => disableAll s p
  | ORemove p => remove s p
  | ODelete p => Channel_dtor s p
  end.

End Ops.

(** The new event mask of an operation that changes it. *)
Definition op_events (o : chan_op) : option (Z * (Z -> Z)) :=
  match o with
  | OEnableReading p => Some (p, fun ev => Z.lor ev kReadEvent)
  | ODisableReading p => Some (p, fun ev => Z.land ev (Z.lnot kReadEvent))
  | OEnableWriting p => Some (p, fun ev => Z.lor ev kWriteEvent)
  | ODisableWriting p => Some (p, fun ev => Z.land ev (Z.lnot kWriteEvent))
  | ODisableAll p => Some (p, fun _ => kNoneEvent)
  | _ => None
  end.

(** The owners' protocol: one live channel per registered descriptor, a
    channel is registered with a non-empty event mask, removed when it has no
    events left, and deleted when it is not registered. *)
Definition op_ok (st : chans) (o : chan_op) : Prop :=
  match o with
  | ONew p fd => st !! p = None /\ 0 <= fd < 2 ^ 31
  | ORemove p => exists c, st !! p = Some c /\ addedToLoop_ c = true /\ events_ c = 0
  | ODelete p => exists c, st !! p = Some c /\ addedToLoop_ c = false
  | _ =>
      exists p f c, op_events o = Some (p, f) /\ st !! p = Some c /\
        (addedToLoop_ c = false ->
           f (events_ c) <> 0 /\
           forall p' c', st !! p' = Some c' -> fd_ c' = fd_ c -> addedToLoop_ c' = false)
  end.

(** The protocol as a check. *)
Definition fd_free (st : chans) (c : Channel) : bool :=
  forallb (fun pc => negb (fd_ pc.2 =? fd_ c) || negb (addedToLoop_ pc.2)) (map_to_list st).

Definition op_okb (st : chans) (o : chan_op) : bool :=
  match o with
  | ONew p fd => bool_decide (st !! p = None) && (0 <=? fd) && (fd <? 2 ^ 31)
  | ORemove p => match st !! p with Some c => addedToLoop_ c && (events_ c =? 0) | None => false end
  | ODelete p => match st !! p with Some c => negb (addedToLoop_ c) | None => false end
  | _ =>
      match op_events o with
      | Some (p, f) =>
          match st !! p with
          | Some c => addedToLoop_ c || (negb (f (events_ c) =? 0) && fd_free st c)
          | None => false
          end
      | None => false
      end
  end.

Lemma fd_free_spec st c : fd_free st c = true ->
  forall p' c', st !! p' = Some c' -> fd_ c' = fd_ c -> addedToLoop_ c' = false.
Proof.
  unfold fd_free. rewrite forallb_forall. intros H p' c' Hc' Hf.
  specialize (H (p', c')). rewrite <- list_elem_of_In, elem_of_map_to_list in H.
  specialize (H Hc'). cbn in H. rewrite Hf, Z.eqb_refl in H. by apply negb_true_iff in H.
Qed.

Lemma op_okb_sound st o : op_okb st o = true -> op_ok st o.
Proof.
  assert (forall p f, op_events o = Some (p, f) ->
    match st !! p with Some c => addedToLoop_ c || (negb (f (events_ c) =? 0) && fd_free st c)
    | None => false end = true ->
    exists p f c, op_events o = Some (p, f) /\ st !! p = Some c /\
        (addedToLoop_ c = false -> f (events_ c) <> 0 /\
           forall p' c', st !! p' = Some c' -> fd_ c' = fd_ c -> addedToLoop_ c' = false)) as Hev.
  { intros p f E. destruct (st !! p) as [c|] eqn:Ec; [|done]. intros Hb. exists p, f, c.
    split_and!; [done..|]. intros Ha. rewrite Ha in Hb. cbn in Hb.
    apply andb_true_iff in Hb as [Hb1 Hb2]. split; [by apply negb_true_iff, Z.eqb_neq in Hb1|].
    by apply fd_free_spec. }
  destruct o as [p fd|p|p|p|p|p|p|p]; cbn; intros Hb; try (eapply Hev; [reflexivity|exact Hb]).
  - rewrite !andb_true_iff, bool_decide_eq_true, Z.leb_le, Z.ltb_lt in Hb. tauto.
  - destruct (st !! p) as [c|] eqn:Ec; [|done]. apply andb_true_iff in Hb as [Ha H0%Z.eqb_eq]. eauto.
  - destruct (st !! p) as [c|] eqn:Ec; [|done]. apply negb_true_iff in Hb. eauto.
Qed.

Section Runs.

Context {P : Type} `{!Poller P}.

(** A sequence of operations that follows a protocol [ok]. *)
Fixpoint runs_ok (ok : P * chans -> chan_op -> Prop) (s : P * chans) (ops : list chan_op) : Prop :=
  match ops with
  | [] => True
  | o :: ops' =>
      ok s o /\ match chan_exec s o with Ok s' => runs_ok ok s' ops' | Fail _ => True end
  end.

Definition ops_ok : P * chans -> list chan_op -> Prop := runs_ok (fun s => op_ok s.2).

Fixpoint runs_okb (ok : P * chans -> chan_op -> bool) (s : P * chans) (ops : list chan_op) : bool :=
  match ops with
  | [] => true
  | o :: ops' =>
      ok s o && match chan_exec s o with Ok s' => runs_okb ok s' ops' | Fail _ => true end
  end.

Lemma runs_okb_sound ok okb :
  (forall s o, okb s o = true -> ok s o) ->
  forall ops s, runs_okb okb s ops = true -> runs_ok ok s ops.
Proof.
  intros Hok ops. induction ops as [|o ops IH]; intros s Hb; cbn in *; [done|].
  apply andb_true_iff in Hb as [H1%Hok H2]. split; [done|].
  destruct (chan_exec s o); [by apply IH|done].
Qed.

Lemma with_events_exec s o p f :
  op_events o = Some (p, f) -> chan_exec s o = with_events f s p.
Proof. destruct o; cbn; intros [= <- <-]; done. Qed.

Lemma op_events_ok st o p f : op_events o = Some (p, f) -> op_ok st o ->
  exists c, st !! p = Some c /\ (addedToLoop_ c = false -> f (events_ c) <> 0 /\
    forall p' c', st !! p' = Some c' -> fd_ c' = fd_ c -> addedToLoop_ c' = false).
Proof.
  intros E Hok. destruct o; cbn in E; try done; destruct Hok as (p' & f' & c & E' & ? & ?);
    cbn in E'; simplify_eq; eauto.
Qed.

(** A run from a state with an invariant that every allowed operation keeps. *)
Lemma ops_inv (ok : P * chans -> chan_op -> Prop) (I : P * chans -> Prop) :
  (forall s o, I s -> ok s o -> exists s', chan_exec s o = Ok s' /\ I s') ->
  forall ops s, I s -> runs_ok ok s ops -> exists s', foldM chan_exec s ops = Ok s' /\ I s'.
Proof.
  intros Hstep ops. induction ops as [|o ops IH]; intros s Hs Hok; cbn in *; [by exists s|].
  destruct Hok as [Ho Hrest]. destruct (Hstep s o Hs Ho) as (s' & E & Hs').
  rewrite E in Hrest |- *. cbn. by apply IH.
Qed.

(** The channel as [updateChannel] sees it: new events, [addedToLoop_] set. *)
Definition touched (f : Z -> Z) (c : Channel) : Channel :=
  set_added true (set_events (f (events_ c)) c).

Lemma with_events_eq f (s : P * chans) p c : s.2 !! p = Some c ->
  with_events f s p = updateChannel s.1 (<[p := touched f c]> s.2) p.
Proof.
  intros Hc. unfold with_events, update. rewrite (chan_modify_ok _ _ c _ Hc). cbn.
  rewrite (chan_modify_ok _ _ _ _ (lookup_insert_eq _ _ _)). cbn. by rewrite insert_insert_eq.
Qed.

End Runs.
