(* ===== verification/EPollPollerSpec.v ===== *)
(** * The epoll poller watches what the channels ask for

    The invariant ties the poller's map, the channels and the kernel's
    interest list together; every operation that follows the owners' protocol
    keeps it and does not fault. *)

From stdpp Require Import gmap.
From S2P Require Import Prelude Channel Poller EPollPoller.

Section Spec.

Context {K : Type} `{!Epoll K, !EpollLaws K}.

Record ep_inv (s : EPollPoller K * chans) : Prop := mkEpInv {
  ei_map : forall fd p, channels_ s.1 !! fd = Some p ->
    exists c, s.2 !! p = Some c /\ fd_ c = fd /\ addedToLoop_ c = true;
  ei_added : forall p c, s.2 !! p = Some c -> addedToLoop_ c = true ->
    channels_ s.1 !! fd_ c = Some p /\ (index_ c = kAdded \/ index_ c = kDeleted /\ events_ c = 0);
  ei_new : forall p c, s.2 !! p = Some c -> addedToLoop_ c = false -> index_ c = kNew /\ events_ c = 0;
  ei_idle : forall p c, s.2 !! p = Some c -> eventHandling_ c = false;
  ei_interest : forall fd ev p, interest (epollfd_ s.1) !! fd = Some (ev, p) <->
    exists c, s.2 !! p = Some c /\ fd_ c = fd /\ index_ c = kAdded /\ events_ c = ev;
}.

(** A channel with index [kAdded] is registered. *)
Lemma ei_kAdded s p c : ep_inv s -> s.2 !! p = Some c -> index_ c = kAdded ->
  addedToLoop_ c = true /\ channels_ s.1 !! fd_ c = Some p.
Proof.
  intros Hi Hc Hx. destruct (addedToLoop_ c) eqn:E.
  - split; [done|]. by apply (ei_added s Hi).
  - destruct (ei_new s Hi p c Hc E) as [Hk _]. rewrite Hx in Hk. done.
Qed.

Lemma ei_interest_none s fd p : ep_inv s -> channels_ s.1 !! fd = Some p ->
  (forall c, s.2 !! p = Some c -> index_ c <> kAdded) -> interest (epollfd_ s.1) !! fd = None.
Proof.
  intros Hi Hp Hx. destruct (interest _ !! fd) as [[ev p']|] eqn:E; [|done].
  apply (ei_interest s Hi) in E as (c & Hc & <- & Hk & _).
  destruct (ei_kAdded s p' c Hi Hc Hk) as [_ Hm]. rewrite Hp in Hm. injection Hm as ->.
  by destruct (Hx c Hc).
Qed.

(** The effect of [updateChannel] on the three structures. *)
Lemma ep_inv_updated pl st k p c c' :
  ep_inv (pl, st) -> st !! p = Some c -> fd_ c' = fd_ c -> addedToLoop_ c' = true ->
  eventHandling_ c' = false ->
  (index_ c' = kAdded \/ index_ c' = kDeleted /\ events_ c' = 0) ->
  (forall p', channels_ pl !! fd_ c = Some p' -> p' = p) ->
  interest k = (if index_ c' =? kAdded then <[fd_ c := (events_ c', p)]> (interest (epollfd_ pl))
                else delete (fd_ c) (interest (epollfd_ pl))) ->
  ep_inv (mkEPoll k (<[fd_ c := p]> (channels_ pl)) (ep_events pl), <[p := c']> st).
Proof.
  intros Hi Hc Hfd Hadd Hev Hidx Huniq Hk.
  assert (forall p2 c2, st !! p2 = Some c2 -> addedToLoop_ c2 = true -> p2 <> p -> fd_ c2 <> fd_ c) as Hne.
  { intros p2 c2 Hc2 Ha2 Hp Heq. destruct (ei_added _ Hi _ _ Hc2 Ha2) as [Hm _]. cbn in Hm.
    rewrite Heq in Hm. by apply Huniq in Hm. }
  constructor; cbn.
  - intros fd q. rewrite lookup_insert. case_decide as Ef; [intros [= <-]|intros Hq].
    + exists c'. rewrite lookup_insert_eq. subst fd. done.
    + destruct (ei_map _ Hi fd q Hq) as (c2 & Hc2 & Hf2 & Ha2). exists c2.
      rewrite lookup_insert_ne; [done|]. intros <-. cbn in Hc2. congruence.
  - intros q c2. rewrite lookup_insert. case_decide as Ep; [intros [= <-] _; subst q|intros Hc2 Ha2].
    + by rewrite Hfd, lookup_insert_eq.
    + rewrite lookup_insert_ne by (intros E; by eapply (Hne q c2); eauto). by apply (ei_added _ Hi).
  - intros q c2. rewrite lookup_insert. case_decide; [intros [= <-]; congruence|apply (ei_new _ Hi)].
  - intros q c2. rewrite lookup_insert. case_decide; [by intros [= <-]|apply (ei_idle _ Hi)].
  - intros fd ev q. rewrite Hk. split.
    + intros Hl. assert (fd_ c = fd /\ index_ c' = kAdded /\ (events_ c', p) = (ev, q) \/
        fd_ c <> fd /\ interest (epollfd_ pl) !! fd = Some (ev, q)) as [(<- & Hx & [= <- <-])|[Hf Hl']].
      { destruct (Z.eqb_spec (index_ c') kAdded); revert Hl;
          rewrite ?lookup_insert, ?lookup_delete; case_decide; naive_solver. }
      * exists c'. by rewrite lookup_insert_eq.
      * apply (ei_interest _ Hi) in Hl' as (c2 & Hc2 & <- & Hx & <-). exists c2. cbn in Hc2.
        rewrite lookup_insert_ne; [done|]. intros <-. congruence.
    + intros (c2 & Hc2 & <- & Hx & <-). rewrite lookup_insert in Hc2. case_decide as Ep.
      * injection Hc2 as <-. subst q. rewrite Hx, Z.eqb_refl, Hfd. apply lookup_insert_eq.
      * destruct (ei_kAdded _ _ _ Hi Hc2 Hx) as [Ha2 _].
        assert (fd_ c <> fd_ c2) by (intros E; eapply Hne; eauto).
        assert (interest (epollfd_ pl) !! fd_ c2 = Some (events_ c2, q)) as Hin
          by (apply (ei_interest _ Hi); eauto).
        destruct (index_ c' =? kAdded); rewrite ?lookup_insert_ne, ?lookup_delete_ne by done; done.
Qed.

(** The effect of [removeChannel]. *)
Lemma ep_inv_removed pl st k p c c' :
  ep_inv (pl, st) -> st !! p = Some c -> addedToLoop_ c = true ->
  addedToLoop_ c' = false -> index_ c' = kNew -> events_ c' = 0 -> eventHandling_ c' = false ->
  interest k = delete (fd_ c) (interest (epollfd_ pl)) ->
  ep_inv (mkEPoll k (delete (fd_ c) (channels_ pl)) (ep_events pl), <[p := c']> st).
Proof.
  intros Hi Hc Ha Ha' Hx' He' Hev Hk.
  destruct (ei_added _ Hi _ _ Hc Ha) as [Hm _]. cbn in Hm.
  assert (forall p2 c2, st !! p2 = Some c2 -> addedToLoop_ c2 = true -> p2 <> p -> fd_ c2 <> fd_ c) as Hne.
  { intros p2 c2 Hc2 Ha2 Hp Heq. destruct (ei_added _ Hi _ _ Hc2 Ha2) as [Hm2 _]. cbn in Hm2. congruence. }
  constructor; cbn.
  - intros fd q [Hf Hq]%lookup_delete_Some. destruct (ei_map _ Hi fd q Hq) as (c2 & Hc2 & Hf2 & Ha2).
    exists c2. rewrite lookup_insert_ne; [done|]. intros <-. cbn in Hc2. congruence.
  - intros q c2. rewrite lookup_insert. case_decide; [intros [= <-]; congruence|intros Hc2 Ha2].
    rewrite lookup_delete_ne; [by apply (ei_added _ Hi)|]. intros E. by eapply (Hne q c2); eauto.
  - intros q c2. rewrite lookup_insert. case_decide; [intros [= <-]; done|apply (ei_new _ Hi)].
  - intros q c2. rewrite lookup_insert. case_decide; [by intros [= <-]|apply (ei_idle _ Hi)].
  - intros fd ev q. rewrite Hk. rewrite lookup_delete_Some, (ei_interest _ Hi). cbn. split.
    + intros (Hf & c2 & Hc2 & <- & Hx & <-). exists c2. rewrite lookup_insert_ne; [done|].
      intros <-. congruence.
    + intros (c2 & Hc2 & <- & Hx & <-). rewrite lookup_insert in Hc2. case_decide as Ep.
      * injection Hc2 as <-. rewrite Hx' in Hx. done.
      * destruct (ei_kAdded _ _ _ Hi Hc2 Hx) as [Ha2 _]. split; [|eauto].
        intros E. by eapply (Hne q c2); eauto.
Qed.

(** ** Each operation *)

Lemma map_insert_same (m : gmap Z Z) k v : m !! k = Some v -> <[k := v]> m = m.
Proof. apply insert_id. Qed.

(** [epoll_update] on a descriptor in the state the operation expects. *)
Lemma epoll_update_ok (pl : EPollPoller K) op c p :
  (match op with EPOLL_CTL_ADD => interest (epollfd_ pl) !! fd_ c = None
   | _ => is_Some (interest (epollfd_ pl) !! fd_ c) end) ->
  exists k, epoll_update pl op c p = Ok (mkEPoll k (channels_ pl) (ep_events pl)) /\
    interest k = match op with EPOLL_CTL_DEL => delete (fd_ c) (interest (epollfd_ pl))
                 | _ => <[fd_ c := (events_ c, p)]> (interest (epollfd_ pl)) end.
Proof.
  intros H. unfold epoll_update. destruct op.
  - destruct (ctl_add (epollfd_ pl) (fd_ c) (events_ c, p) H) as (k & -> & ?). eauto.
  - destruct (ctl_mod (epollfd_ pl) (fd_ c) (events_ c, p) H) as (k & -> & ?). eauto.
  - destruct (ctl_del (epollfd_ pl) (fd_ c) (events_ c, p) H) as (k & -> & ?). eauto.
Qed.

Lemma with_events_ok f s p c :
  ep_inv s -> s.2 !! p = Some c ->
  (addedToLoop_ c = false -> f (events_ c) <> 0 /\
     forall p' c', s.2 !! p' = Some c' -> fd_ c' = fd_ c -> addedToLoop_ c' = false) ->
  exists s' i, with_events f s p = Ok s' /\ ep_inv s' /\ s'.2 = <[p := set_index i (touched f c)]> s.2.
Proof.
  intros Hi Hc Hproto. destruct s as [pl st]. cbn in Hc, Hproto.
  rewrite (with_events_eq f (pl, st) p c Hc). cbn [fst snd updateChannel EPollPoller_Poller].
  unfold ep_updateChannel, chan_deref. rewrite lookup_insert_eq. cbn [mbind outcome_bind].
  set (c1 := touched f c). change (fd_ c1) with (fd_ c). change (index_ c1) with (index_ c).
  destruct (addedToLoop_ c) eqn:Ha.
  - destruct (ei_added _ Hi p c Hc Ha) as [Hm [Hx|[Hx H0]]]; cbn in Hm; rewrite Hx; cbn.
    + rewrite (bool_decide_eq_true_2 _ Hm). cbn.
      assert (is_Some (interest (epollfd_ pl) !! fd_ c1)) as Hs.
      { exists (events_ c, p). apply (ei_interest _ Hi). eauto. }
      destruct (isNoneEvent c1) eqn:En.
      * destruct (epoll_update_ok pl EPOLL_CTL_DEL c1 p Hs) as (k & -> & Hk). cbn.
        rewrite (chan_modify_ok _ _ c1 _ (lookup_insert_eq _ _ _)). cbn. rewrite insert_insert_eq.
        eexists _, kDeleted. split; [done|]. split; [|done]. rewrite <- (map_insert_same _ _ _ Hm).
        apply (ep_inv_updated pl st k p c); try done; [by apply (ei_idle _ Hi p c)| |congruence].
        right. split; [done|]. by apply isNoneEvent_spec.
      * destruct (epoll_update_ok pl EPOLL_CTL_MOD c1 p Hs) as (k & -> & Hk). cbn.
        eexists _, kAdded. split; [done|]. split; [|cbn; subst c1; unfold touched; f_equal; destruct c; cbn in *; by subst]. rewrite <- (map_insert_same _ _ _ Hm).
        apply (ep_inv_updated pl st k p c); try done;
          [by apply (ei_idle _ Hi p c)|by left|congruence|].
        change (index_ c1) with (index_ c). by rewrite Hx.
    + rewrite (bool_decide_eq_true_2 _ Hm). cbn.
      rewrite (chan_modify_ok _ _ c1 _ (lookup_insert_eq _ _ _)). cbn. rewrite insert_insert_eq.
      destruct (epoll_update_ok pl EPOLL_CTL_ADD c1 p) as (k & -> & Hk).
      { apply (ei_interest_none _ _ _ Hi Hm). intros c2 Hc2. cbn in Hc2.
        assert (c2 = c) as -> by congruence. by rewrite Hx. }
      cbn. eexists _, kAdded. split; [done|]. split; [|done]. rewrite <- (map_insert_same _ _ _ Hm).
      apply (ep_inv_updated pl st k p c); try done;
        [by apply (ei_idle _ Hi p c)|by left|congruence].
  - destruct (ei_new _ Hi p c Hc Ha) as [Hx _]. rewrite Hx. cbn.
    destruct (Hproto eq_refl) as [_ Hu].
    assert (channels_ pl !! fd_ c = None) as Hm.
    { destruct (channels_ pl !! fd_ c) as [p'|] eqn:E; [|done].
      destruct (ei_map _ Hi _ _ E) as (c' & Hc' & Hf & Ha'). cbn in Hc'.
      rewrite (Hu p' c' Hc' Hf) in Ha'. done. }
    rewrite (bool_decide_eq_true_2 _ Hm). cbn.
    rewrite (chan_modify_ok _ _ c1 _ (lookup_insert_eq _ _ _)). cbn. rewrite insert_insert_eq.
    destruct (epoll_update_ok (mkEPoll (epollfd_ pl) (<[fd_ c:=p]> (channels_ pl)) (ep_events pl))
      EPOLL_CTL_ADD c1 p) as (k & -> & Hk).
    { cbn. destruct (interest _ !! fd_ c) as [[ev p']|] eqn:E; [|done].
      apply (ei_interest _ Hi) in E as (c' & Hc' & Hf & Hx' & _).
      destruct (ei_kAdded _ _ _ Hi Hc' Hx') as [Ha' _]. rewrite (Hu p' c' Hc' Hf) in Ha'. done. }
    cbn. eexists _, kAdded. split; [done|]. split; [|done].
    apply (ep_inv_updated pl st k p c); try done;
      [by apply (ei_idle _ Hi p c)|by left|by rewrite Hm].
Qed.

Lemma ep_remove_ok s p c :
  ep_inv s -> s.2 !! p = Some c -> addedToLoop_ c = true -> events_ c = 0 ->
  exists s', remove s p = Ok s' /\ ep_inv s' /\ s'.2 = <[p := set_index kNew (set_added false c)]> s.2.
Proof.
  intros Hi Hc Ha H0. destruct s as [pl st]. cbn in Hc.
  unfold remove, chan_deref. cbn. rewrite Hc. cbn.
  rewrite (proj2 (isNoneEvent_spec c) H0). cbn. rewrite (chan_modify_ok _ _ c _ Hc). cbn.
  unfold ep_removeChannel, chan_deref. rewrite lookup_insert_eq. cbn.
  destruct (ei_added _ Hi p c Hc Ha) as [Hm Hx]. cbn in Hm. rewrite (bool_decide_eq_true_2 _ Hm). cbn.
  assert (isNoneEvent (set_added false c) = true) as -> by (by apply isNoneEvent_spec).
  cbn. set (pl1 := mkEPoll (epollfd_ pl) (delete (fd_ c) (channels_ pl)) (ep_events pl)).
  assert ((index_ c =? kAdded) || (index_ c =? kDeleted) = true) as ->
    by (destruct Hx as [->|[-> _]]; done).
  cbn. assert (exists k, (if index_ c =? kAdded then epoll_update pl1 EPOLL_CTL_DEL (set_added false c) p
    else Ok pl1) = Ok (mkEPoll k (channels_ pl1) (ep_events pl1)) /\
    interest k = delete (fd_ c) (interest (epollfd_ pl))) as (k & -> & Hk).
  { destruct Hx as [Hx|[Hx _]]; rewrite Hx; cbn.
    - apply (epoll_update_ok pl1 EPOLL_CTL_DEL (set_added false c) p). cbn.
      exists (events_ c, p). apply (ei_interest _ Hi). eauto.
    - exists (epollfd_ pl). split; [done|]. symmetry. apply delete_id.
      apply (ei_interest_none _ _ _ Hi Hm). intros c2 Hc2. cbn in Hc2.
      assert (c2 = c) as -> by congruence. by rewrite Hx. }
  cbn. rewrite (chan_modify_ok _ _ _ _ (lookup_insert_eq _ _ _)). cbn. rewrite insert_insert_eq.
  eexists. split; [done|]. split; [|done]. apply (ep_inv_removed pl st k p c); try done.
  by apply (ei_idle _ Hi p c).
Qed.

Lemma ep_inv_frame pl st p c : ep_inv (pl, st) -> st !! p = None -> c = Channel_ctor (fd_ c) ->
  ep_inv (pl, <[p := c]> st).
Proof.
  intros Hi Hp Hc. constructor; cbn.
  - intros fd q (c2 & Hc2 & ? & ?)%(ei_map _ Hi). exists c2. cbn in Hc2.
    rewrite lookup_insert_ne by congruence. done.
  - intros q c2. rewrite lookup_insert. case_decide; [intros [= <-]; rewrite Hc; done|apply (ei_added _ Hi)].
  - intros q c2. rewrite lookup_insert. case_decide; [intros [= <-]; by rewrite Hc|apply (ei_new _ Hi)].
  - intros q c2. rewrite lookup_insert. case_decide; [intros [= <-]; by rewrite Hc|apply (ei_idle _ Hi)].
  - intros fd ev q. rewrite (ei_interest _ Hi). cbn. split; intros (c2 & Hc2 & Hrest); exists c2.
    + by rewrite lookup_insert_ne by congruence.
    + rewrite lookup_insert in Hc2. case_decide; [injection Hc2 as <-|done].
      rewrite Hc in Hrest. by destruct Hrest as (_ & ? & _).
Qed.

Lemma ep_dtor_ok s p c : ep_inv s -> s.2 !! p = Some c -> addedToLoop_ c = false ->
  exists s', Channel_dtor s p = Ok s' /\ ep_inv s'.
Proof.
  intros Hi Hc Ha. destruct s as [pl st]. cbn in Hc.
  unfold Channel_dtor, hasChannel, chan_deref. cbn. rewrite Hc. cbn.
  assert (eventHandling_ c = false) as -> by apply (ei_idle _ Hi p c Hc).
  rewrite Ha. cbn. rewrite bool_decide_eq_false_2.
  2: { intros (c2 & Hc2 & _ & Ha2)%(ei_map _ Hi). cbn in Hc2. congruence. }
  cbn. eexists. split; [done|]. constructor; cbn.
  - intros fd q (c2 & Hc2 & Hf & Ha2)%(ei_map _ Hi). exists c2. cbn in Hc2.
    rewrite lookup_delete_ne by congruence. done.
  - intros q c2 [_ ?]%lookup_delete_Some. by apply (ei_added _ Hi).
  - intros q c2 [_ ?]%lookup_delete_Some. by apply (ei_new _ Hi q).
  - intros q c2 [_ ?]%lookup_delete_Some. by apply (ei_idle _ Hi q).
  - intros fd ev q. rewrite (ei_interest _ Hi). cbn. split; intros (c2 & Hc2 & Hrest); exists c2.
    + rewrite lookup_delete_ne; [done|]. intros <-. assert (c2 = c) as -> by congruence.
      destruct (ei_new _ Hi p c Hc Ha) as [Hx _]. destruct Hrest as (_ & Hx' & _).
      rewrite Hx in Hx'. done.
    + by apply lookup_delete_Some in Hc2 as [_ ?].
Qed.

Lemma ep_step s o : ep_inv s -> op_ok s.2 o -> exists s', chan_exec s o = Ok s' /\ ep_inv s'.
Proof.
  intros Hi Hok. destruct (op_events o) as [[p f]|] eqn:E.
  - destruct (op_events_ok s.2 o p f E Hok) as (c & Hc & Hproto).
    rewrite (with_events_exec s o p f E).
    destruct (with_events_ok f s p c) as (s' & _ & ? & ? & _); eauto.
  - destruct o as [p fd| | | | | |p|p]; try done; cbn in Hok |- *.
    + eexists. split; [done|]. destruct s, Hok. by apply ep_inv_frame.
    + destruct Hok as (c & Hc & Ha & H0). destruct (ep_remove_ok s p c) as (s' & ? & ? & _); eauto.
    + destruct Hok as (c & Hc & Ha). by apply (ep_dtor_ok s p c).
Qed.

Lemma ep_inv_init (k : K) : interest k = ∅ -> ep_inv (EPollPoller_ctor k, ∅).
Proof.
  intros Hk. constructor; cbn; try (by intros *; rewrite lookup_empty).
  intros fd ev p. rewrite Hk, lookup_empty. split; [done|]. intros (c & Hc & _).
  by rewrite lookup_empty in Hc.
Qed.

(** C29: the epoll poller and the kernel agree with the channels. After any
    sequence of channel operations that follows the owners' protocol (one live
    channel per registered descriptor, removed before it is deleted), no
    assertion has failed, no epoll_ctl has failed, and the kernel's interest
    list has for every channel with a non-empty event mask its descriptor with
    exactly these events and this channel's address. Every address in the
    interest list is that of a live channel with that descriptor. *)
Theorem epoll_interest_exact (k : K) (ops : list chan_op) :
  interest k = ∅ -> ops_ok (EPollPoller_ctor k, ∅) ops ->
  exists pl st, foldM chan_exec (EPollPoller_ctor k, ∅) ops = Ok (pl, st) /\
    (forall p c, st !! p = Some c -> events_ c <> 0 ->
       interest (epollfd_ pl) !! fd_ c = Some (events_ c, p)) /\
    (forall fd ev p, interest (epollfd_ pl) !! fd = Some (ev, p) ->
       exists c, st !! p = Some c /\ fd_ c = fd /\ events_ c = ev).
Proof.
  intros Hk Hok.
  destruct (ops_inv _ ep_inv ep_step ops _ (ep_inv_init k Hk) Hok) as ([pl st] & -> & Hi).
  exists pl, st. split_and!; [done| |].
  - intros p c Hc Hev. apply (ei_interest _ Hi). exists c. split_and!; try done.
    destruct (addedToLoop_ c) eqn:Ha.
    + by destruct (ei_added _ Hi p c Hc Ha) as [_ [?|[_ ?]]].
    + by destruct (ei_new _ Hi p c Hc Ha).
  - intros fd ev p (c & Hc & Hf & _ & Hev)%(ei_interest _ Hi). eauto.
Qed.

(** ** poll *)

(** What epoll_wait may return: events of descriptors in the interest list,
    each descriptor once, no more than the buffer holds. *)
Definition ready_ok (pl : EPollPoller K) (events : list epoll_event) : Prop :=
  NoDup (events.*2) /\ zlen events <= ep_events pl /\
  forall rev p, (rev, p) ∈ events -> exists fd ev, interest (epollfd_ pl) !! fd = Some (ev, p).

Definition with_revents (st : chans) (events : list epoll_event) : chans :=
  foldl (fun st e => alter (set_revents e.1) e.2 st) st events.

Lemma with_revents_lookup events : forall st p c, st !! p = Some c ->
  exists r, with_revents st events !! p = Some (set_revents r c).
Proof.
  induction events as [|[rev q] events IH]; intros st p c Hc; cbn.
  - exists (revents_ c). rewrite Hc. by destruct c.
  - destruct (decide (p = q)) as [->|Hne].
    + destruct (IH (alter (set_revents rev) q st) q (set_revents rev c)) as [r Hr];
        [by rewrite lookup_alter_eq, Hc|]. by exists r.
    + apply IH. by rewrite lookup_alter_ne.
Qed.

Lemma ep_fill_ok pl events : forall st active, ep_inv (pl, st) ->
  (forall rev p, (rev, p) ∈ events -> exists fd ev, interest (epollfd_ pl) !! fd = Some (ev, p)) ->
  foldM (ep_fill_one pl) (st, active) events = Ok (with_revents st events, active ++ events.*2) /\
  ep_inv (pl, with_revents st events).
Proof.
  induction events as [|[rev p] events IH]; intros st active Hi Hev; cbn.
  - by rewrite app_nil_r.
  - destruct (Hev rev p ltac:(by left)) as (fd & ev & (c & Hc & Hf & Hx & _)%(ei_interest _ Hi)).
    cbn in Hc. destruct (ei_kAdded _ _ _ Hi Hc Hx) as [_ Hm]. cbn in Hm.
    assert (ep_fill_one pl (st, active) (rev, p) = Ok (<[p := set_revents rev c]> st, active ++ [p])) as ->.
    { unfold ep_fill_one, chan_deref. cbn. rewrite Hc. cbn.
    rewrite (bool_decide_eq_true_2 _ Hm). cbn. rewrite (chan_modify_ok _ _ c _ Hc). done. }
    cbn.
    assert (alter (set_revents rev) p st = <[p := set_revents rev c]> st) as ->.
    { apply map_eq. intros q. rewrite lookup_insert. case_decide; [subst q|by rewrite lookup_alter_ne].
      by rewrite lookup_alter_eq, Hc. }
    destruct (IH (<[p := set_revents rev c]> st) (active ++ [p])) as [E Hi'].
    + assert (forall q c2, <[p := set_revents rev c]> st !! q = Some c2 ->
        exists r c0, st !! q = Some c0 /\ c2 = set_revents r c0) as Hl.
      { intros q c2. rewrite lookup_insert. case_decide; [intros [= <-]; subst; eauto|].
        intros Hq. exists (revents_ c2), c2. split; [done|by destruct c2]. }
      constructor; cbn.
      * intros fd' q (c2 & Hc2 & ? & ?)%(ei_map _ Hi). cbn in Hc2. rewrite lookup_insert.
        case_decide; [subst q; exists (set_revents rev c); assert (c2 = c) as -> by congruence; done|eauto].
      * intros q c2 (r & c0 & Hq & ->)%Hl. by apply (ei_added _ Hi q c0).
      * intros q c2 (r & c0 & Hq & ->)%Hl. by apply (ei_new _ Hi q c0).
      * intros q c2 (r & c0 & Hq & ->)%Hl. by apply (ei_idle _ Hi q c0).
      * intros fd' ev' q. rewrite (ei_interest _ Hi). cbn. split.
        -- intros (c2 & Hc2 & Hr). rewrite lookup_insert. case_decide; [subst q|eauto].
           exists (set_revents rev c). assert (c2 = c) as -> by congruence. done.
        -- intros (c2 & (r & c0 & Hq & ->)%Hl & Hr). eauto.
    + intros rev' p' Hin. eapply Hev. by right.
    + rewrite E. split; [by rewrite <- app_assoc|done].
Qed.

(** C30: the epoll poller delivers the ready events. When epoll_wait reports
    events for descriptors in its interest list, poll runs none of its
    assertions false, hands the channels to the loop in the order reported,
    and sets the received events of exactly these channels; a full event
    buffer is doubled. On an error or a timeout nothing changes. *)
Theorem epoll_poll_delivers (pl : EPollPoller K) (st : chans) (events : list epoll_event)
    (active : list Z) :
  ep_inv (pl, st) -> ready_ok pl events ->
  exists pl', ep_poll pl st (inl events) active = Ok (pl', with_revents st events, active ++ events.*2) /\
    ep_inv (pl', with_revents st events) /\
    (zlen events = ep_events pl -> events <> [] -> ep_events pl' = ep_events pl * 2) /\
    (forall rev p, (rev, p) ∈ events -> revents_ <$> with_revents st events !! p = Some rev) /\
    (forall p, p ∉ events.*2 -> with_revents st events !! p = st !! p) /\
    (forall e, ep_poll pl st (inr e) active = Ok (pl, st, active)).
Proof.
  intros Hi (Hnd & Hlen & Hev). destruct (ep_fill_ok pl events st active Hi Hev) as [E Hi'].
  assert (forall p, p ∉ events.*2 -> with_revents st events !! p = st !! p) as Hother.
  { clear -Hnd. intros p. revert st. induction events as [|[rev q] events IH]; intros st Hp; cbn; [done|].
    cbn in Hp, Hnd. apply NoDup_cons in Hnd as [_ Hnd]. apply not_elem_of_cons in Hp as [Hne Hp].
    rewrite IH by done. by rewrite lookup_alter_ne. }
  assert (forall rev p, (rev, p) ∈ events -> revents_ <$> with_revents st events !! p = Some rev) as Hset.
  { intros rev p Hin. apply list_elem_of_split in Hin as (l1 & l2 & ->).
    destruct (Hev rev p ltac:(set_solver)) as (fd & ev & (c & Hc & _)%(ei_interest _ Hi)). cbn in Hc.
    unfold with_revents. rewrite foldl_app. cbn. fold (with_revents st l1).
    destruct (with_revents_lookup l1 st p c Hc) as [r Hr]. rewrite fmap_app in Hnd. cbn in Hnd.
    apply NoDup_app in Hnd as (_ & _ & Hnd). apply NoDup_cons in Hnd as [Hp Hnd].
    fold (with_revents (alter (set_revents rev) p (with_revents st l1)) l2).
    assert (forall s, with_revents s l2 !! p = s !! p) as ->.
    { clear -Hp. intros s. revert s. induction l2 as [|[r q] l2 IH]; intros s; cbn; [done|].
      cbn in Hp. apply not_elem_of_cons in Hp as [Hne Hp]. rewrite (IH Hp). by rewrite lookup_alter_ne. }
    by rewrite lookup_alter_eq, Hr. }
  destruct (decide (events = [])) as [->|Hne].
  - exists pl. cbn. rewrite app_nil_r. done.
  - assert (0 < zlen events) as Hpos.
    { pose proof (zlen_nonneg events). destruct (Z.eq_dec (zlen events) 0) as [E0|]; [|lia].
      by apply zlen_nil_iff in E0. }
    unfold ep_poll, ep_fillActiveChannels. destruct (Z.ltb_spec 0 (zlen events)); [|lia].
    destruct (Z.leb_spec (zlen events) (ep_events pl)); [|lia]. cbn. rewrite E. cbn.
    eexists. split; [done|]. split_and!; try done.
    + destruct (zlen events =? ep_events pl); [|done]. destruct Hi'. constructor; done.
    + intros ->. rewrite Z.eqb_refl. done.
Qed.

End Spec.

(** ** An epoll instance that is its interest list *)

#[export] Instance map_Epoll : Epoll (gmap Z epoll_event) := {
  interest := id;
  epoll_ctl k op fd ev :=
    match op, k !! fd with
    | EPOLL_CTL_ADD, None | EPOLL_CTL_MOD, Some _ => Some (<[fd := ev]> k)
    | EPOLL_CTL_DEL, Some _ => Some (delete fd k)
    | _, _ => None
    end;
}.

#[export] Instance map_EpollLaws : EpollLaws (gmap Z epoll_event).
Proof.
  constructor; cbn; intros k fd ev; try (intros [x ->]; eauto); try (intros ->; eauto).
Qed.

Definition ep_demo_ops : list chan_op :=
  [ONew 100 5; OEnableReading 100; ONew 101 6; OEnableReading 101; OEnableWriting 101;
   ODisableAll 100; ORemove 100; ODelete 100].

Definition ep_demo : EPollPoller (gmap Z epoll_event) * chans :=
  match foldM chan_exec (EPollPoller_ctor ∅, ∅) ep_demo_ops with
  | Ok s => s
  | Fail _ => (EPollPoller_ctor ∅, ∅)
  end.

Lemma ep_demo_ok : ops_ok (EPollPoller_ctor (∅ : gmap Z epoll_event), ∅) ep_demo_ops.
Proof.
  apply (runs_okb_sound _ (fun s => op_okb s.2)); [intros; by apply op_okb_sound|].
  vm_compute. reflexivity.
Qed.

Lemma epoll_interest_exact_witness :
  exists pl st, foldM chan_exec (EPollPoller_ctor (∅ : gmap Z epoll_event), ∅) ep_demo_ops = Ok (pl, st) /\
    (forall p c, st !! p = Some c -> events_ c <> 0 ->
       interest (epollfd_ pl) !! fd_ c = Some (events_ c, p)) /\
    (forall fd ev p, interest (epollfd_ pl) !! fd = Some (ev, p) ->
       exists c, st !! p = Some c /\ fd_ c = fd /\ events_ c = ev).
Proof.
  apply (epoll_interest_exact (∅ : gmap Z epoll_event) ep_demo_ops); [reflexivity|].
  exact ep_demo_ok.
Defined.

Lemma ep_demo_inv : ep_inv ep_demo.
Proof.
  assert (ep_inv (EPollPoller_ctor (∅ : gmap Z epoll_event), ∅)) as H0 by (by apply ep_inv_init).
  destruct (ops_inv _ ep_inv ep_step ep_demo_ops _ H0 ep_demo_ok) as (s & E & Hi).
  unfold ep_demo. rewrite E. done.
Qed.

Lemma epoll_poll_delivers_witness :
  exists pl', ep_poll ep_demo.1 ep_demo.2 (inl [(POLLIN, 101)]) [] =
    Ok (pl', with_revents ep_demo.2 [(POLLIN, 101)], [101]).
Proof.
  destruct (epoll_poll_delivers ep_demo.1 ep_demo.2 [(POLLIN, 101)] []) as (pl' & E & _).
  - destruct ep_demo eqn:E. rewrite <- E. exact ep_demo_inv.
  - split; [apply NoDup_singleton|]. split; [vm_compute; discriminate|].
    intros rev p Hin%list_elem_of_singleton. injection Hin as -> ->. exists 6, 7. vm_compute. reflexivity.
  - exists pl'. exact E.
Defined.
