(* ===== verification/PollPoller.v ===== *)
(** * PollPoller: src/mynetlib/net/poller/PollPoller.h, PollPoller.cc

    The poller keeps the [struct pollfd] array that poll(2) gets; a channel's
    [index_] is its position in the array. A negative descriptor makes poll(2)
    ignore the entry. *)

From stdpp Require Import gmap.
From S2P Require Import Prelude Channel Poller.

Record pollfd : Type := mkPollfd { pfd_fd : Z; pfd_events : Z; pfd_revents : Z }.

Record PollPoller : Type := mkPollPoller {
  pollfds_ : list pollfd;
  pp_channels : gmap Z Z;
}.

Definition PollPoller_ctor : PollPoller := mkPollPoller [] ∅.

(** [pollfds_[idx]] *)
Definition pfd_at (l : list pollfd) (idx : Z) : outcome pollfd :=
  if 0 <=? idx then
    match l !! Z.to_nat idx with Some pfd => Ok pfd | None => Fail OutOfBounds end
  else Fail OutOfBounds.

Definition pop_back (l : list pollfd) : list pollfd := take (length l - 1) l.

Definition pp_updateChannel (pl : PollPoller) (st : chans) (p : Z) : outcome (PollPoller * chans) :=
  c ← chan_deref st p;
  if index_ c <? 0 then
    c_assert (bool_decide (pp_channels pl !! fd_ c = None));;
    let pfds := pollfds_ pl ++ [mkPollfd (fd_ c) (s16 (events_ c)) 0] in
    let idx := s32 (zlen pfds) - 1 in
    st1 ← chan_modify st p (set_index idx);
    Ok (mkPollPoller pfds (<[fd_ c := p]> (pp_channels pl)), st1)
  else
    c_assert (bool_decide (pp_channels pl !! fd_ c = Some p));;
    let idx := index_ c in
    c_assert ((0 <=? idx) && (idx <? s32 (zlen (pollfds_ pl))));;
    pfd ← pfd_at (pollfds_ pl) idx;
    c_assert ((pfd_fd pfd =? fd_ c) || (pfd_fd pfd =? - fd_ c - 1));;
    let fd := if isNoneEvent c then - fd_ c - 1 else pfd_fd pfd in
    Ok (mkPollPoller (<[Z.to_nat idx := mkPollfd fd (s16 (events_ c)) 0]> (pollfds_ pl))
          (pp_channels pl), st).

Definition pp_removeChannel (pl : PollPoller) (st : chans) (p : Z) : outcome (PollPoller * chans) :=
  c ← chan_deref st p;
  c_assert (bool_decide (pp_channels pl !! fd_ c = Some p));;
  c_assert (isNoneEvent c);;
  let idx := index_ c in
  c_assert ((0 <=? idx) && (idx <? s32 (zlen (pollfds_ pl))));;
  pfd ← pfd_at (pollfds_ pl) idx;
  c_assert ((pfd_fd pfd =? - fd_ c - 1) && (pfd_events pfd =? events_ c));;
  let chs := delete (fd_ c) (pp_channels pl) in
  if idx =? zlen (pollfds_ pl) - 1 then
    Ok (mkPollPoller (pop_back (pollfds_ pl)) chs, st)
  else
    back ← pfd_at (pollfds_ pl) (zlen (pollfds_ pl) - 1);
    let channelAtEnd := if pfd_fd back <? 0 then - pfd_fd back - 1 else pfd_fd back in
    match chs !! channelAtEnd with
    | None => Fail UseAfterFree
    | Some q =>
        st1 ← chan_modify st q (set_index idx);
        Ok (mkPollPoller (pop_back (<[Z.to_nat idx := back]> (pollfds_ pl))) chs, st1)
    end.

#[export] Instance PollPoller_Poller : Poller PollPoller := {
  channels_of := pp_channels;
  updateChannel := pp_updateChannel;
  removeChannel := pp_removeChannel;
}.

(** [fillActiveChannels]; [n] counts the events still to be found. *)
Fixpoint pp_fillActiveChannels (pl : PollPoller) (pfds : list pollfd) (n : Z) (st : chans)
    (activeChannels : list Z) : outcome (chans * list Z) :=
  match pfds with
  | [] => Ok (st, activeChannels)
  | pfd :: pfds' =>
      if 0 <? n then
        if 0 <? pfd_revents pfd then
          match pp_channels pl !! pfd_fd pfd with
          | None => Fail AssertFail
          | Some p =>
              c ← chan_deref st p;
              c_assert (fd_ c =? pfd_fd pfd);;
              st1 ← chan_modify st p (set_revents (pfd_revents pfd));
              pp_fillActiveChannels pl pfds' (n - 1) st1 (activeChannels ++ [p])
          end
        else pp_fillActiveChannels pl pfds' n st activeChannels
      else Ok (st, activeChannels)
  end.

(** [poll], given what poll(2) does: the received events it writes into the
    array with its positive count, or nothing, or an errno. *)
Definition pp_poll (pl : PollPoller) (st : chans) (ready : list Z * Z + Z) (activeChannels : list Z) :
    outcome (PollPoller * chans * list Z) :=
  match ready with
  | inl (revents, numEvents) =>
      let pfds := zip_with (fun pfd r => mkPollfd (pfd_fd pfd) (pfd_events pfd) r)
                    (pollfds_ pl) revents in
      let pl' := mkPollPoller pfds (pp_channels pl) in
      if 0 <? numEvents then
        r ← pp_fillActiveChannels pl' pfds numEvents st activeChannels;
        Ok (pl', r.1, r.2)
      else Ok (pl', st, activeChannels)
  | inr savedErrno => Ok (pl, st, activeChannels)
  end.
