(* ===== verification/PollPollerSpec.v ===== *)
(** * The pollfd array and the channels stay in step

    Every registered channel has its own slot; removal moves the last slot
    into the hole and renumbers its channel. The slots do not, however, follow
    a channel that is enabled again. *)

From stdpp Require Import gmap.
From S2P Require Import Prelude Channel Poller PollPoller.

(** ** The invariant *)

(** The slot of a registered channel. *)
Definition slot_of (pl : PollPoller) (c : Channel) (pfd : pollfd) : Prop :=
  0 <= index_ c /\ pollfds_ pl !! Z.to_nat (index_ c) = Some pfd /\
  (pfd_fd pfd = fd_ c \/ pfd_fd pfd = - fd_ c - 1) /\ pfd_events pfd = events_ c /\
  (events_ c = 0 -> pfd_fd pfd = - fd_ c - 1).

Record pp_inv (s : PollPoller * chans) : Prop := mkPpInv {
  pi_map : forall fd p, pp_channels s.1 !! fd = Some p ->
    exists c, s.2 !! p = Some c /\ fd_ c = fd /\ addedToLoop_ c = true;
  pi_added : forall p c, s.2 !! p = Some c -> addedToLoop_ c = true ->
    pp_channels s.1 !! fd_ c = Some p /\ exists pfd, slot_of s.1 c pfd;
  pi_new : forall p c, s.2 !! p = Some c -> addedToLoop_ c = false -> events_ c = 0;
  pi_chan : forall p c, s.2 !! p = Some c ->
    0 <= fd_ c < 2 ^ 31 /\ 0 <= events_ c < 8 /\ eventHandling_ c = false;
  pi_slot : forall i pfd, pollfds_ s.1 !! i = Some pfd ->
    exists p c, s.2 !! p = Some c /\ addedToLoop_ c = true /\ index_ c = Z.of_nat i;
  pi_size : zlen (pollfds_ s.1) < 2 ^ 31 - 1;
}.

(** Beyond the owners' protocol, this poller needs a channel that is
    registered to be new (removal does not reset the index), and room in the
    array. *)
Definition pp_op_ok (s : PollPoller * chans) (o : chan_op) : Prop :=
  op_ok s.2 o /\
  (forall p f c, op_events o = Some (p, f) -> s.2 !! p = Some c -> addedToLoop_ c = false ->
     index_ c < 0 /\ zlen (pollfds_ s.1) < 2 ^ 31 - 2).

Definition pp_op_okb (s : PollPoller * chans) (o : chan_op) : bool :=
  op_okb s.2 o &&
  match op_events o with
  | Some (p, _) =>
      match s.2 !! p with
      | Some c => addedToLoop_ c || ((index_ c <? 0) && (zlen (pollfds_ s.1) <? 2 ^ 31 - 2))
      | None => false
      end
  | None => true
  end.

Lemma pp_op_okb_sound s o : pp_op_okb s o = true -> pp_op_ok s o.
Proof.
  intros [H1%op_okb_sound H2]%andb_true_iff. split; [done|]. intros p f c Ho Hc Ha.
  rewrite Ho, Hc, Ha in H2. cbn in H2. apply andb_true_iff in H2 as [?%Z.ltb_lt ?%Z.ltb_lt]. done.
Qed.

(** The index determines the channel: two registered channels never share a
    slot. *)
Lemma pi_index_inj s p1 p2 c1 c2 : pp_inv s ->
  s.2 !! p1 = Some c1 -> s.2 !! p2 = Some c2 -> addedToLoop_ c1 = true -> addedToLoop_ c2 = true ->
  index_ c1 = index_ c2 -> p1 = p2.
Proof.
  intros Hi H1 H2 A1 A2 Hx.
  destruct (pi_added _ Hi _ _ H1 A1) as [M1 (f1 & _ & S1 & D1 & _)].
  destruct (pi_added _ Hi _ _ H2 A2) as [M2 (f2 & _ & S2 & D2 & _)].
  destruct (pi_chan _ Hi _ _ H1) as [R1 _]. destruct (pi_chan _ Hi _ _ H2) as [R2 _].
  rewrite Hx, S2 in S1. injection S1 as <-. assert (fd_ c1 = fd_ c2) as Heq by lia.
  rewrite Heq, M2 in M1. by injection M1.
Qed.

Lemma pi_fd_inj s p1 p2 c1 c2 : pp_inv s ->
  s.2 !! p1 = Some c1 -> s.2 !! p2 = Some c2 -> addedToLoop_ c1 = true -> addedToLoop_ c2 = true ->
  fd_ c1 = fd_ c2 -> p1 = p2.
Proof.
  intros Hi H1 H2 A1 A2 Hx. destruct (pi_added _ Hi _ _ H1 A1) as [M1 _].
  destruct (pi_added _ Hi _ _ H2 A2) as [M2 _]. rewrite Hx, M2 in M1. by injection M1.
Qed.

Lemma s16_small ev : 0 <= ev < 8 -> s16 ev = ev.
Proof. intros. unfold s16. apply signed_small; lia. Qed.

(** The masks the operations produce. *)
Lemma op_events_range o p f ev : op_events o = Some (p, f) -> 0 <= ev < 8 -> 0 <= f ev < 8.
Proof.
  intros Ho Hev. assert (exists n : nat, (n < 8)%nat /\ ev = Z.of_nat n) as (n & Hn & ->)
    by (exists (Z.to_nat ev); lia).
  destruct o; cbn in Ho; try done; injection Ho as <- <-;
    do 8 (destruct n as [|n]; [vm_compute; split; congruence|]); lia.
Qed.

(** ** updateChannel *)

Lemma pp_register_ok f s p c :
  pp_inv s -> s.2 !! p = Some c -> addedToLoop_ c = false -> index_ c < 0 ->
  zlen (pollfds_ s.1) < 2 ^ 31 - 2 -> 0 <= f (events_ c) < 8 -> f (events_ c) <> 0 ->
  (forall p' c', s.2 !! p' = Some c' -> fd_ c' = fd_ c -> addedToLoop_ c' = false) ->
  exists s', with_events f s p = Ok s' /\ pp_inv s'.
Proof.
  intros Hi Hc Ha Hx Hsz Hev Hne Hu. destruct s as [pl st]. cbn in Hc, Hsz, Hu.
  rewrite (with_events_eq f (pl, st) p c Hc). cbn [fst snd updateChannel PollPoller_Poller].
  unfold pp_updateChannel, chan_deref. rewrite lookup_insert_eq. cbn [mbind outcome_bind].
  set (c1 := touched f c). change (fd_ c1) with (fd_ c). change (index_ c1) with (index_ c).
  change (events_ c1) with (f (events_ c)). destruct (Z.ltb_spec (index_ c) 0); [|lia].
  assert (pp_channels pl !! fd_ c = None) as Hm.
  { destruct (pp_channels pl !! fd_ c) as [p'|] eqn:E; [|done].
    destruct (pi_map _ Hi _ _ E) as (c' & Hc' & Hf & Ha'). cbn in Hc'. rewrite (Hu p' c' Hc' Hf) in Ha'. done. }
  rewrite (bool_decide_eq_true_2 _ Hm). cbn [c_assert mbind outcome_bind].
  rewrite (chan_modify_ok _ _ c1 _ (lookup_insert_eq _ _ _)). cbn [mbind outcome_bind].
  rewrite insert_insert_eq, s16_small by done.
  pose proof (zlen_nonneg (pollfds_ pl)). rewrite s32_small by (rewrite zlen_app, zlen_singleton; lia).
  set (n := zlen (_ ++ _) - 1). assert (n = zlen (pollfds_ pl)) as Hn
    by (subst n; rewrite zlen_app, zlen_singleton; lia). clearbody n.
  eexists. split; [done|]. destruct (pi_chan _ Hi p c Hc) as (Hfd & _ & Heh).
  constructor; cbn [fst snd pollfds_ pp_channels].
  - intros fd q. rewrite lookup_insert. case_decide as Ef; [intros [= <-]|intros Hq].
    + exists (set_index n c1). rewrite lookup_insert_eq. subst fd. done.
    + destruct (pi_map _ Hi fd q Hq) as (c2 & Hc2 & Hf2 & Ha2). exists c2.
      rewrite lookup_insert_ne; [done|]. intros <-. cbn in Hc2. congruence.
  - intros q c2. rewrite lookup_insert. case_decide as Ep; [intros [= <-] _; subst q|intros Hc2 Ha2].
    + split; [by rewrite lookup_insert_eq|]. eexists. split; [cbn; lia|]. split_and!; cbn.
      * rewrite lookup_app_r by (unfold zlen in Hn; lia).
        replace (Z.to_nat n - _)%nat with 0%nat by (unfold zlen in Hn; lia). done.
      * by left. * done. * done.
    + destruct (pi_added _ Hi _ _ Hc2 Ha2) as [Hm2 (pfd & H1 & H2 & H3)].
      split; [rewrite lookup_insert_ne; [done|cbn in Hm2; congruence]|].
      exists pfd. split; [done|]. split; [|done]. by apply lookup_app_l_Some.
  - intros q c2. rewrite lookup_insert. case_decide; [intros [= <-]; done|apply (pi_new _ Hi)].
  - intros q c2. rewrite lookup_insert. case_decide; [intros [= <-]; done|apply (pi_chan _ Hi)].
  - intros i pfd [Hl|[Hge [Hl _]%list_lookup_singleton_Some]]%lookup_app_Some.
    + destruct (pi_slot _ Hi i pfd Hl) as (q & c2 & Hc2 & Ha2 & Hx2). exists q, c2. cbn in Hc2.
      rewrite lookup_insert_ne; [done|]. intros <-. congruence.
    + exists p, (set_index n c1). rewrite lookup_insert_eq. cbn. unfold zlen in Hn. split_and!; [done..|lia].
  - rewrite zlen_app, zlen_singleton. lia.
Qed.

Lemma pp_change_ok f s p c :
  pp_inv s -> s.2 !! p = Some c -> addedToLoop_ c = true -> 0 <= f (events_ c) < 8 ->
  exists s' pfd, with_events f s p = Ok s' /\ pp_inv s' /\ slot_of s.1 c pfd /\
    s' = (mkPollPoller (<[Z.to_nat (index_ c) :=
            mkPollfd (if f (events_ c) =? 0 then - fd_ c - 1 else pfd_fd pfd) (f (events_ c)) 0]>
            (pollfds_ s.1)) (pp_channels s.1), <[p := touched f c]> s.2).
Proof.
  intros Hi Hc Ha Hev. destruct s as [pl st]. cbn in Hc.
  rewrite (with_events_eq f (pl, st) p c Hc). cbn [fst snd updateChannel PollPoller_Poller].
  unfold pp_updateChannel, chan_deref. rewrite lookup_insert_eq. cbn [mbind outcome_bind].
  set (c1 := touched f c). change (fd_ c1) with (fd_ c). change (index_ c1) with (index_ c).
  change (events_ c1) with (f (events_ c)). change (isNoneEvent c1) with (f (events_ c) =? 0).
  destruct (pi_added _ Hi p c Hc Ha) as [Hm (pfd & Hpos & Hslot & Hfd & Hevp & H0)]. cbn in Hm, Hslot.
  destruct (Z.ltb_spec (index_ c) 0); [lia|]. rewrite (bool_decide_eq_true_2 _ Hm). cbn [c_assert mbind outcome_bind].
  pose proof (lookup_lt_Some _ _ _ Hslot) as Hlt. pose proof (pi_size _ Hi) as Hsz. cbn in Hsz.
  rewrite s32_small by (unfold zlen in *; lia).
  destruct (Z.leb_spec 0 (index_ c)); [|lia].
  destruct (Z.ltb_spec (index_ c) (zlen (pollfds_ pl))); [|unfold zlen in *; lia]. cbn [andb c_assert mbind outcome_bind].
  unfold pfd_at. destruct (Z.leb_spec 0 (index_ c)); [|lia]. rewrite Hslot. cbn [mbind outcome_bind].
  assert ((pfd_fd pfd =? fd_ c) || (pfd_fd pfd =? - fd_ c - 1) = true) as ->
    by (rewrite orb_true_iff, !Z.eqb_eq; done).
  cbn [c_assert mbind outcome_bind]. rewrite s16_small by done.
  eexists _, pfd. split; [done|]. split; [|split; [done|done]].
  destruct (pi_chan _ Hi p c Hc) as (Hfr & _ & Heh).
  constructor; cbn [fst snd pollfds_ pp_channels].
  - intros fd q (c2 & Hc2 & Hf2 & Ha2)%(pi_map _ Hi). cbn in Hc2. rewrite lookup_insert.
    case_decide; [subst q; exists c1; assert (c2 = c) as -> by congruence; done|eauto].
  - intros q c2. rewrite lookup_insert. case_decide as Ep; [intros [= <-] _; subst q|intros Hc2 Ha2].
    + split; [done|]. eexists. split; [done|]. split_and!.
      * cbn. apply list_lookup_insert_eq. done.
      * cbn. destruct (f (events_ c) =? 0); auto.
      * done.
      * cbn. intros ->. done.
    + destruct (pi_added _ Hi _ _ Hc2 Ha2) as [Hm2 (pfd2 & Hp2 & Hs2 & Hr2)]. split; [done|].
      exists pfd2. split; [done|]. split; [|done]. cbn. rewrite list_lookup_insert_ne; [done|].
      intros E. apply Ep. symmetry. eapply (pi_index_inj _ q p); [exact Hi|exact Hc2|exact Hc|done|done|lia].
  - intros q c2. rewrite lookup_insert. case_decide; [intros [= <-]; done|apply (pi_new _ Hi)].
  - intros q c2. rewrite lookup_insert. case_decide; [intros [= <-]; done|apply (pi_chan _ Hi)].
  - intros i pfd2 Hl. assert (is_Some (pollfds_ pl !! i)) as [pfd3 Hl3].
    { apply lookup_lt_is_Some. apply lookup_lt_Some in Hl. by rewrite length_insert in Hl. }
    destruct (pi_slot _ Hi i pfd3 Hl3) as (q & c2 & Hc2 & Ha2 & Hx2). cbn in Hc2.
    destruct (decide (q = p)) as [->|Hne].
    + exists p, c1. rewrite lookup_insert_eq. assert (c2 = c) as -> by congruence. done.
    + exists q, c2. rewrite lookup_insert_ne by done. done.
  - unfold zlen. rewrite length_insert. apply Hsz.
Qed.

(** ** removeChannel *)

(** A channel as it was, up to its index. *)
Definition same_but_index (c c' : Channel) : Prop := c' = set_index (index_ c') c.

(** Dropping the slot of [p]: every other registered channel keeps its slot,
    perhaps at another index, and every slot left belongs to one of them. *)
Lemma pp_inv_dropped pl st p c pfds' st' :
  pp_inv (pl, st) -> st !! p = Some c -> addedToLoop_ c = true -> events_ c = 0 ->
  st' !! p = Some (set_added false c) -> zlen pfds' <= zlen (pollfds_ pl) ->
  (forall q c2, q <> p -> st !! q = Some c2 -> exists c2', st' !! q = Some c2' /\ same_but_index c2 c2' /\
     (addedToLoop_ c2 = true -> 0 <= index_ c2' /\
        pfds' !! Z.to_nat (index_ c2') = pollfds_ pl !! Z.to_nat (index_ c2))) ->
  (forall q c2', q <> p -> st' !! q = Some c2' -> is_Some (st !! q)) ->
  (forall i, (i < length pfds')%nat -> exists q c2', q <> p /\ st' !! q = Some c2' /\
     addedToLoop_ c2' = true /\ index_ c2' = Z.of_nat i) ->
  pp_inv (mkPollPoller pfds' (delete (fd_ c) (pp_channels pl)), st').
Proof.
  intros Hi Hc Ha H0 Hp' Hlen Hkeep Hback Hslots.
  assert (forall q c2', st' !! q = Some c2' -> q = p /\ c2' = set_added false c \/
    q <> p /\ exists c2, st !! q = Some c2 /\ same_but_index c2 c2' /\
      (addedToLoop_ c2 = true -> 0 <= index_ c2' /\
        pfds' !! Z.to_nat (index_ c2') = pollfds_ pl !! Z.to_nat (index_ c2))) as Hinv.
  { intros q c2' Hq. destruct (decide (q = p)) as [->|Hne]; [left; split; [done|congruence]|right].
    split; [done|]. destruct (Hback q c2' Hne Hq) as [c2 Hc2].
    destruct (Hkeep q c2 Hne Hc2) as (c3 & Hc3 & Hs & Hx). assert (c3 = c2') as -> by congruence. eauto. }
  constructor; cbn [fst snd pollfds_ pp_channels].
  - intros fd q [Hf Hq]%lookup_delete_Some. destruct (pi_map _ Hi fd q Hq) as (c2 & Hc2 & <- & Ha2).
    cbn in Hc2. assert (q <> p) as Hne by (intros ->; congruence).
    destruct (Hkeep q c2 Hne Hc2) as (c2' & Hc2' & Hs & _). exists c2'. rewrite Hs in *. done.
  - intros q c2' [[-> ->]|(Hne & c2 & Hc2 & Hs & Hx)]%Hinv Ha2; [done|]. rewrite Hs in Ha2. cbn in Ha2.
    destruct (pi_added _ Hi q c2 Hc2 Ha2) as [Hm (pfd & Hpos & Hsl & Hrest)]. cbn in Hm, Hsl.
    destruct (Hx Ha2) as [Hpos' Hsl'].
    split; [rewrite Hs; cbn; rewrite lookup_delete_ne; [done|]|].
    + intros E. apply Hne. by apply (pi_fd_inj (pl, st) q p c2 c).
    + exists pfd. split; [done|]. cbn. rewrite Hsl'. split; [done|]. rewrite Hs. cbn. done.
  - intros q c2' [[-> ->]|(Hne & c2 & Hc2 & Hs & _)]%Hinv Ha2; [done|].
    rewrite Hs in Ha2 |- *. by apply (pi_new _ Hi q c2).
  - intros q c2' [[-> ->]|(Hne & c2 & Hc2 & Hs & _)]%Hinv; [by apply (pi_chan _ Hi p c)|].
    rewrite Hs. by apply (pi_chan _ Hi q c2).
  - intros i pfd Hl. destruct (Hslots i) as (q & c2 & _ & ? & ? & ?); [by eapply lookup_lt_Some|eauto].
  - pose proof (pi_size _ Hi) as Hsz. cbn in Hsz. lia.
Qed.

Lemma lookup_pop_back l i : (i < length l - 1)%nat -> pop_back l !! i = l !! i.
Proof. intros. unfold pop_back. by apply lookup_take_lt. Qed.

Lemma zlen_pop_back l : zlen (pop_back l) <= zlen l.
Proof. unfold pop_back, zlen. rewrite length_take. lia. Qed.

Lemma same_but_index_refl c : same_but_index c c.
Proof. by destruct c. Qed.

Lemma pfd_at_ok l idx pfd : 0 <= idx -> l !! Z.to_nat idx = Some pfd -> pfd_at l idx = Ok pfd.
Proof. intros H E. unfold pfd_at. destruct (Z.leb_spec 0 idx); [|lia]. by rewrite E. Qed.

(** The assertions of [removeChannel] hold, and what is left of it. *)
Lemma pp_removeChannel_asserts pl st p c :
  pp_inv (pl, st) -> st !! p = Some c -> addedToLoop_ c = true -> events_ c = 0 ->
  let st0 := <[p := set_added false c]> st in let chs := delete (fd_ c) (pp_channels pl) in
  0 <= index_ c < zlen (pollfds_ pl) /\
  pp_removeChannel pl st0 p =
    (if index_ c =? zlen (pollfds_ pl) - 1 then Ok (mkPollPoller (pop_back (pollfds_ pl)) chs, st0)
    else
      back ← pfd_at (pollfds_ pl) (zlen (pollfds_ pl) - 1);
      match chs !! (if pfd_fd back <? 0 then - pfd_fd back - 1 else pfd_fd back) with
      | None => Fail UseAfterFree
      | Some q =>
          st1 ← chan_modify st0 q (set_index (index_ c));
          Ok (mkPollPoller (pop_back (<[Z.to_nat (index_ c) := back]> (pollfds_ pl))) chs, st1)
      end).
Proof.
  intros Hi Hc Ha H0 st0 chs. destruct (pi_added _ Hi p c Hc Ha) as [Hm (pfd & Hpos & Hsl & _ & Hevp & Hfd)].
  cbn in Hm, Hsl. specialize (Hfd H0). pose proof (lookup_lt_Some _ _ _ Hsl) as Hlt.
  pose proof (pi_size _ Hi) as Hsz. cbn in Hsz. split; [unfold zlen in *; lia|].
  unfold pp_removeChannel, chan_deref. subst st0. rewrite lookup_insert_eq. cbn [mbind outcome_bind].
  change (fd_ (set_added false c)) with (fd_ c). change (index_ (set_added false c)) with (index_ c).
  change (events_ (set_added false c)) with (events_ c).
  assert (isNoneEvent (set_added false c) = true) as -> by (by apply isNoneEvent_spec).
  rewrite (bool_decide_eq_true_2 _ Hm), (pfd_at_ok _ (index_ c) pfd) by done.
  rewrite s32_small by (unfold zlen in *; lia). unfold c_assert.
  destruct (Z.leb_spec 0 (index_ c)); [|lia].
  destruct (Z.ltb_spec (index_ c) (zlen (pollfds_ pl))); [|unfold zlen in *; lia].
  cbn [andb mbind outcome_bind]. rewrite Hfd, Hevp, !Z.eqb_refl. done.
Qed.

(** Indexes of the other registered channels. *)
Lemma pi_other_index pl st p c q c2 :
  pp_inv (pl, st) -> st !! p = Some c -> addedToLoop_ c = true -> q <> p ->
  st !! q = Some c2 -> addedToLoop_ c2 = true ->
  0 <= index_ c2 < zlen (pollfds_ pl) /\ index_ c2 <> index_ c.
Proof.
  intros Hi Hc Ha Hne Hc2 Ha2. destruct (pi_added _ Hi q c2 Hc2 Ha2) as [_ (pfd2 & Hp2 & Hs2 & _)].
  cbn in Hs2. apply lookup_lt_Some in Hs2. split; [unfold zlen; lia|].
  intros E. apply Hne. by apply (pi_index_inj (pl, st) q p c2 c).
Qed.

Lemma pp_inv_remove_last pl st p c :
  pp_inv (pl, st) -> st !! p = Some c -> addedToLoop_ c = true -> events_ c = 0 ->
  index_ c = zlen (pollfds_ pl) - 1 ->
  pp_inv (mkPollPoller (pop_back (pollfds_ pl)) (delete (fd_ c) (pp_channels pl)),
          <[p := set_added false c]> st).
Proof.
  intros Hi Hc Ha H0 Elast.
  eapply pp_inv_dropped; [exact Hi|done..|apply lookup_insert_eq| | | |].
  - apply zlen_pop_back.
  - intros q c2 Hne Hc2. exists c2. rewrite lookup_insert_ne by done.
    split; [done|]. split; [apply same_but_index_refl|]. intros Ha2.
    destruct (pi_other_index pl st p c q c2) as [? ?]; [done..|]. split; [lia|].
    apply lookup_pop_back. unfold zlen in *. lia.
  - intros q c2' Hne. rewrite lookup_insert_ne by done. eauto.
  - intros i Hil. unfold pop_back in Hil. rewrite length_take in Hil.
    destruct (lookup_lt_is_Some_2 (pollfds_ pl) i ltac:(lia)) as [pfd2 Hp2].
    destruct (pi_slot _ Hi i pfd2 Hp2) as (q & c2 & Hc2 & Ha2 & Hx2). cbn in Hc2.
    assert (q <> p) by (intros ->; assert (c2 = c) as -> by congruence; unfold zlen in *; lia).
    exists q, c2. rewrite lookup_insert_ne by done. done.
Qed.

Lemma pp_inv_remove_mid pl st p c q c2 back :
  pp_inv (pl, st) -> st !! p = Some c -> addedToLoop_ c = true -> events_ c = 0 ->
  0 <= index_ c < zlen (pollfds_ pl) - 1 -> q <> p -> st !! q = Some c2 -> addedToLoop_ c2 = true ->
  index_ c2 = zlen (pollfds_ pl) - 1 -> pollfds_ pl !! Z.to_nat (index_ c2) = Some back ->
  pp_inv (mkPollPoller (pop_back (<[Z.to_nat (index_ c) := back]> (pollfds_ pl)))
            (delete (fd_ c) (pp_channels pl)),
          <[q := set_index (index_ c) c2]> (<[p := set_added false c]> st)).
Proof.
  intros Hi Hc Ha H0 Hidx Hqp Hc2 Ha2 Hx2 Hback.
  eapply pp_inv_dropped; [exact Hi|done..| | | | |].
  - rewrite lookup_insert_ne by done. apply lookup_insert_eq.
  - unfold zlen, pop_back. rewrite length_take, length_insert. lia.
  - intros q' c3 Hne Hc3. destruct (decide (q' = q)) as [->|Hq'].
    + exists (set_index (index_ c) c2). rewrite lookup_insert_eq. assert (c3 = c2) as -> by congruence.
      split; [done|]. split; [done|]. intros _. split; [cbn; lia|]. cbn.
      rewrite lookup_pop_back by (rewrite length_insert; unfold zlen in *; lia).
      rewrite list_lookup_insert_eq by (unfold zlen in *; lia). done.
    + exists c3. rewrite !lookup_insert_ne by done. split; [done|]. split; [apply same_but_index_refl|].
      intros Ha3. destruct (pi_other_index pl st p c q' c3) as [? ?]; [done..|]. split; [lia|].
      assert (index_ c3 <> index_ c2) by (intros E; apply Hq'; by apply (pi_index_inj (pl, st) q' q c3 c2)).
      rewrite lookup_pop_back by (rewrite length_insert; unfold zlen in *; lia).
      by rewrite list_lookup_insert_ne by lia.
  - intros q' c3 Hne. rewrite lookup_insert. case_decide; [subst; eauto|].
    rewrite lookup_insert_ne by done. eauto.
  - intros i Hil. unfold pop_back in Hil. rewrite length_take, length_insert in Hil.
    destruct (decide (i = Z.to_nat (index_ c))) as [->|Hi2].
    + exists q, (set_index (index_ c) c2). rewrite lookup_insert_eq. cbn. split_and!; [done..|lia].
    + destruct (lookup_lt_is_Some_2 (pollfds_ pl) i ltac:(lia)) as [pfd3 Hp3].
      destruct (pi_slot _ Hi i pfd3 Hp3) as (q' & c3 & Hc3 & Ha3 & Hx3). cbn in Hc3.
      assert (q' <> p) by (intros ->; assert (c3 = c) as -> by congruence; lia).
      assert (q' <> q) by (intros ->; assert (c3 = c2) as -> by congruence; unfold zlen in *; lia).
      exists q', c3. rewrite !lookup_insert_ne by done. done.
Qed.

Lemma pp_removeChannel_ok pl st p c :
  pp_inv (pl, st) -> st !! p = Some c -> addedToLoop_ c = true -> events_ c = 0 ->
  exists s', pp_removeChannel pl (<[p := set_added false c]> st) p = Ok s' /\ pp_inv s'.
Proof.
  intros Hi Hc Ha H0. destruct (pp_removeChannel_asserts pl st p c) as [Hidx ->]; [done..|].
  destruct (Z.eqb_spec (index_ c) (zlen (pollfds_ pl) - 1)) as [Elast|Elast].
  - eexists. split; [done|]. by apply pp_inv_remove_last.
  - set (n := (length (pollfds_ pl) - 1)%nat).
    assert (Z.of_nat n = zlen (pollfds_ pl) - 1) as Hn by (unfold zlen in *; lia).
    destruct (lookup_lt_is_Some_2 (pollfds_ pl) n ltac:(unfold zlen in *; lia)) as [back Hback].
    destruct (pi_slot _ Hi n back Hback) as (q & c2 & Hc2 & Ha2 & Hx2). cbn in Hc2.
    assert (q <> p) as Hqp by (intros ->; assert (c2 = c) as -> by congruence; lia).
    destruct (pi_added _ Hi q c2 Hc2 Ha2) as [Hm2 (pfd2 & _ & Hs2 & Hfd2 & _)]. cbn in Hm2, Hs2.
    rewrite Hx2, Nat2Z.id, Hback in Hs2. injection Hs2 as <-.
    destruct (pi_chan _ Hi q c2 Hc2) as [Hr2 _].
    rewrite <- Hn, (pfd_at_ok _ _ back) by (rewrite ?Nat2Z.id; done || lia). cbn [mbind outcome_bind].
    assert ((if pfd_fd back <? 0 then - pfd_fd back - 1 else pfd_fd back) = fd_ c2) as ->
      by (destruct (Z.ltb_spec (pfd_fd back) 0); lia).
    rewrite lookup_delete_ne by (intros E; apply Hqp; by apply (pi_fd_inj (pl, st) q p c2 c)).
    rewrite Hm2. rewrite (chan_modify_ok _ _ c2) by (by rewrite lookup_insert_ne).
    cbn [mbind outcome_bind]. eexists. split; [done|].
    eapply pp_inv_remove_mid; try done; [lia|lia|]. by rewrite Hx2, Nat2Z.id.
Qed.

(** ** Every step, and the theorems *)

(** Changes of the store that concern no registered channel. *)
Lemma pp_inv_unregistered pl st st' :
  pp_inv (pl, st) ->
  (forall p c, st !! p = Some c -> addedToLoop_ c = true -> st' !! p = Some c) ->
  (forall p c, st' !! p = Some c -> st !! p = Some c \/ exists fd, c = Channel_ctor fd /\ 0 <= fd < 2 ^ 31) ->
  pp_inv (pl, st').
Proof.
  intros Hi Hk Hn. constructor; cbn.
  - intros fd p (c & Hc & ? & ?)%(pi_map _ Hi). eauto.
  - intros p c [Hc|(fd & -> & _)]%Hn Ha; [by apply (pi_added _ Hi)|done].
  - intros p c [Hc|(fd & -> & _)]%Hn Ha; [by apply (pi_new _ Hi p)|done].
  - intros p c [Hc|(fd & -> & Hfd)]%Hn; [by apply (pi_chan _ Hi p)|]. cbn. split_and!; done || lia.
  - intros i pfd (p & c & Hc & Ha & ?)%(pi_slot _ Hi). exists p, c. split; [by apply Hk|done].
  - apply (pi_size _ Hi).
Qed.

Lemma pp_step s o : pp_inv s -> pp_op_ok s o -> exists s', chan_exec s o = Ok s' /\ pp_inv s'.
Proof.
  intros Hi [Hok Hnew]. destruct (op_events o) as [[p f]|] eqn:E.
  - destruct (op_events_ok s.2 o p f E Hok) as (c & Hc & Hproto).
    destruct (pi_chan _ Hi p c Hc) as (_ & Hev & _).
    pose proof (op_events_range o p f _ E Hev) as Hev'.
    rewrite (with_events_exec s o p f E). destruct (addedToLoop_ c) eqn:Ha.
    + destruct (pp_change_ok f s p c) as (s' & _ & -> & Hi' & _); [done..|]. eauto.
    + destruct (Hproto eq_refl) as [Hne Hu]. destruct (Hnew p f c eq_refl Hc Ha) as [Hx Hsz].
      by apply (pp_register_ok f s p c).
  - destruct s as [pl st]. destruct o as [p fd| | | | | |p|p]; try done; cbn in Hok |- *.
    + eexists. split; [done|]. destruct Hok as [Hp Hfd]. eapply pp_inv_unregistered; [done|..].
      * intros q c Hc _. rewrite lookup_insert_ne; [done|]. intros <-. congruence.
      * intros q c. rewrite lookup_insert. case_decide; [intros [= <-]; eauto|by left].
    + destruct Hok as (c & Hc & Ha & H0). unfold remove, chan_deref. cbn. rewrite Hc. cbn.
      rewrite (proj2 (isNoneEvent_spec c) H0). cbn. rewrite (chan_modify_ok _ _ c _ Hc).
      by apply pp_removeChannel_ok.
    + destruct Hok as (c & Hc & Ha). unfold Channel_dtor, hasChannel, chan_deref. cbn. rewrite Hc. cbn.
      destruct (pi_chan _ Hi p c Hc) as (_ & _ & ->). rewrite Ha. cbn. rewrite bool_decide_eq_false_2.
      2: { intros (c2 & Hc2 & _ & Ha2)%(pi_map _ Hi). cbn in Hc2. congruence. }
      cbn. eexists. split; [done|]. eapply pp_inv_unregistered; [done|..].
      * intros q c2 Hc2 Ha2. rewrite lookup_delete_ne; [done|]. intros <-. congruence.
      * intros q c2 [_ Hc2]%lookup_delete_Some. by left.
Qed.

Lemma pp_inv_init : pp_inv (PollPoller_ctor, ∅).
Proof. constructor; cbn; try (by intros *; rewrite ?lookup_empty, ?lookup_nil). Qed.

(** C31: the pollfd array and the channels stay in step. Whatever channel
    operations the owners perform within the protocol (with channels that are
    new when they are registered), no assertion of PollPoller fails, no
    channel pointer dangles, and afterwards every registered channel has a
    slot of its own at its index with its events, disabled exactly as
    documented when the channel has none; slots and registered channels
    correspond one to one, also after removals from the middle of the array. *)
Theorem pollfds_consistent (ops : list chan_op) :
  runs_ok pp_op_ok (PollPoller_ctor, ∅) ops ->
  exists pl st, foldM chan_exec (PollPoller_ctor, ∅) ops = Ok (pl, st) /\
    (forall p c, st !! p = Some c -> addedToLoop_ c = true -> exists pfd,
       pollfds_ pl !! Z.to_nat (index_ c) = Some pfd /\ pfd_events pfd = events_ c /\
       (pfd_fd pfd = fd_ c \/ pfd_fd pfd = - fd_ c - 1) /\
       (events_ c = 0 -> pfd_fd pfd < 0)) /\
    (forall i, (i < length (pollfds_ pl))%nat -> exists p c, st !! p = Some c /\
       addedToLoop_ c = true /\ index_ c = Z.of_nat i /\
       forall p' c', st !! p' = Some c' -> addedToLoop_ c' = true -> index_ c' = Z.of_nat i -> p' = p).
Proof.
  intros Hok. destruct (ops_inv _ pp_inv pp_step ops _ pp_inv_init Hok) as ([pl st] & -> & Hi).
  exists pl, st. split_and!; [done| |].
  - intros p c Hc Ha. destruct (pi_added _ Hi p c Hc Ha) as [_ (pfd & _ & Hs & Hfd & Hev & H0)].
    destruct (pi_chan _ Hi p c Hc) as [Hr _]. exists pfd. split_and!; [done..|]. intros E. specialize (H0 E). lia.
  - intros i Hlt. destruct (lookup_lt_is_Some_2 _ _ Hlt) as [pfd Hp].
    destruct (pi_slot _ Hi i pfd Hp) as (p & c & Hc & Ha & Hx). exists p, c. split_and!; [done..|].
    intros p' c' Hc' Ha' Hx'. cbn in Hc. eapply (pi_index_inj (pl, st)); [done|exact Hc'|exact Hc|done|done|congruence].
Qed.

(** PollPoller forgets a channel that is enabled again. A registered
    channel without events (after disableAll, say) that calls enableReading or
    enableWriting keeps the negative descriptor in its pollfd: the update does
    not fail, the channel's event mask is set, but no entry of the array
    watches its descriptor, so poll(2) never reports it. EPollPoller handles
    the same sequence (kDeleted). *)
Lemma pollpoller_reenable_ignored (s : PollPoller * chans) (p : Z) (c : Channel) (o : chan_op) (f : Z -> Z) :
  pp_inv s -> s.2 !! p = Some c -> addedToLoop_ c = true -> events_ c = 0 ->
  op_events o = Some (p, f) -> f 0 <> 0 ->
  exists s', chan_exec s o = Ok s' /\ s'.2 !! p = Some (set_events (f 0) c) /\
    forall pfd, pfd ∈ pollfds_ s'.1 -> pfd_fd pfd <> fd_ c.
Proof.
  intros Hi Hc Ha H0 Ho Hf. destruct (pi_chan _ Hi p c Hc) as (Hfd & Hev & _).
  rewrite (with_events_exec s o p f Ho).
  destruct (pp_change_ok f s p c) as (s' & pfd & -> & Hi' & Hslot & Es');
    [done..|by apply (op_events_range o p)|]. exists s'.
  destruct Hslot as (Hpos & Hs & _ & _ & Hneg). specialize (Hneg H0).
  split; [done|]. rewrite Es'. split.
  { cbn. rewrite lookup_insert_eq. unfold touched. rewrite H0. destruct c; cbn in *. by subst. }
  intros pfd' Hin. apply list_elem_of_lookup in Hin as [i Hl]. intros Heq. rewrite Es' in Hi'.
  destruct (pi_slot _ Hi' i pfd' Hl) as (q & c2 & Hc2 & Ha2 & Hx2). cbn in Hc2.
  destruct (pi_added _ Hi' q c2 Hc2 Ha2) as [_ (pfd2 & _ & Hs2 & Hfd2 & _)].
  rewrite Hx2, Nat2Z.id, Hl in Hs2. injection Hs2 as <-.
  destruct (pi_chan _ Hi' q c2 Hc2) as (Hr2 & _).
  assert (q = p) as ->.
  { eapply (pi_fd_inj _ q p c2 (touched f c) Hi'); [done|cbn; apply lookup_insert_eq|done|done|cbn; lia]. }
  rewrite lookup_insert_eq in Hc2. injection Hc2 as <-. cbn in Hx2, Hl.
  assert (i = Z.to_nat (index_ c)) as -> by lia.
  rewrite list_lookup_insert_eq in Hl by (by eapply lookup_lt_Some). injection Hl as <-. cbn in Heq.
  rewrite H0 in Heq. destruct (Z.eqb_spec (f 0) 0); lia.
Qed.

(** ** Witnesses *)

Definition pp_demo_ops : list chan_op :=
  [ONew 100 5; OEnableReading 100; ONew 101 6; OEnableReading 101; ONew 102 7; OEnableWriting 102;
   ODisableAll 100; ORemove 100; ODelete 100; ODisableAll 101].

Lemma pp_demo_ok : runs_ok pp_op_ok (PollPoller_ctor, ∅) pp_demo_ops.
Proof. apply (runs_okb_sound _ _ pp_op_okb_sound). vm_compute. reflexivity. Qed.

Lemma pollfds_consistent_witness :
  exists pl st, foldM chan_exec (PollPoller_ctor, ∅) pp_demo_ops = Ok (pl, st) /\
    forall p c, st !! p = Some c -> addedToLoop_ c = true -> exists pfd,
       pollfds_ pl !! Z.to_nat (index_ c) = Some pfd /\ pfd_events pfd = events_ c.
Proof.
  destruct (pollfds_consistent pp_demo_ops pp_demo_ok) as (pl & st & E & H & _).
  exists pl, st. split; [exact E|]. intros p c Hc Ha.
  destruct (H p c Hc Ha) as (pfd & H1 & H2 & _). exists pfd. split; assumption.
Defined.

Definition pp_demo : PollPoller * chans :=
  match foldM chan_exec (PollPoller_ctor, ∅) pp_demo_ops with
  | Ok s => s
  | Fail _ => (PollPoller_ctor, ∅)
  end.

Lemma pp_demo_inv : pp_inv pp_demo.
Proof.
  destruct (ops_inv _ pp_inv pp_step pp_demo_ops _ pp_inv_init pp_demo_ok) as (s & E & Hi).
  unfold pp_demo. by rewrite E.
Qed.

Lemma pollpoller_reenable_ignored_witness :
  exists s' c, chan_exec pp_demo (OEnableReading 101) = Ok s' /\ s'.2 !! 101 = Some c /\
    events_ c = 3 /\ forall pfd, pfd ∈ pollfds_ s'.1 -> pfd_fd pfd <> 6.
Proof.
  destruct (pp_demo.2 !! 101) as [c|] eqn:Ec; [|vm_compute in Ec; discriminate].
  assert (fd_ c = 6 /\ events_ c = 0 /\ addedToLoop_ c = true) as (Hf & H0 & Ha)
    by (vm_compute in Ec; injection Ec as <-; split; [|split]; reflexivity).
  destruct (pollpoller_reenable_ignored pp_demo 101 c (OEnableReading 101)
    (fun ev => Z.lor ev kReadEvent) pp_demo_inv Ec Ha H0 eq_refl ltac:(vm_compute; discriminate))
    as (s' & E & Hc & Hw).
  exists s', (set_events 3 c). rewrite Hf in Hw. split; [exact E|]. split; [exact Hc|].
  split; [reflexivity|exact Hw].
Defined.
