(* ===== verification/EventLoop.v ===== *)
(** * EventLoop: src/mynetlib/net/EventLoop.h, EventLoop.cc

    The reactor: one thread runs [loop()]; every thread may queue functors and
    ask it to quit. The eventfd is its counter. The loop's program counter is
    explicit ([phase]), so that steps of other threads interleave with the
    loop's at every point where it matters: the mutex-protected push and the
    write to the eventfd of [queueInLoop] are two steps. *)

From stdpp Require Import gmap.
From S2P Require Import Prelude Timestamp TimerQueue Channel Poller.

(** Functors are identified by numbers; [fbody f] is what [f] does to the loop
    when it runs in the loop's thread. *)
Inductive cmd : Type :=
| CQueue (f : Z)
| CQuit.

(** An active channel: the wakeup channel, or one whose callbacks run code. *)
Inductive event : Type :=
| EvWakeup
| EvUser (cmds : list cmd).

Inductive phase : Type :=
| Idle
| AtTest
| Polling
| Handling (events : list event)
| Draining (functors : list Z).

Record EventLoop : Type := mkLoop {
  looping_ : bool;
  quit_ : bool;
  el_eventHandling_ : bool;
  callingPendingFunctors_ : bool;
  iteration_ : Z;
  pendingFunctors_ : list Z;
  wakeupFd_ : Z;
  pc : phase;
  waking : Z;
  pushed : list Z;
  ran : list Z;
}.

(** The state after construction: [waking] counts the threads between their
    push (or quit flag) and their wakeup; [pushed] and [ran] are histories. *)
Definition EventLoop_ctor : EventLoop :=
  mkLoop false false false false 0 [] 0 Idle 0 [] [].

Definition set_quit b s := mkLoop (looping_ s) b (el_eventHandling_ s) (callingPendingFunctors_ s)
  (iteration_ s) (pendingFunctors_ s) (wakeupFd_ s) (pc s) (waking s) (pushed s) (ran s).
Definition set_looping b s := mkLoop b (quit_ s) (el_eventHandling_ s) (callingPendingFunctors_ s)
  (iteration_ s) (pendingFunctors_ s) (wakeupFd_ s) (pc s) (waking s) (pushed s) (ran s).
Definition set_handling b s := mkLoop (looping_ s) (quit_ s) b (callingPendingFunctors_ s)
  (iteration_ s) (pendingFunctors_ s) (wakeupFd_ s) (pc s) (waking s) (pushed s) (ran s).
Definition set_callingPending b s := mkLoop (looping_ s) (quit_ s) (el_eventHandling_ s) b
  (iteration_ s) (pendingFunctors_ s) (wakeupFd_ s) (pc s) (waking s) (pushed s) (ran s).
Definition next_iteration s := mkLoop (looping_ s) (quit_ s) (el_eventHandling_ s) (callingPendingFunctors_ s)
  (s64 (iteration_ s + 1)) (pendingFunctors_ s) (wakeupFd_ s) (pc s) (waking s) (pushed s) (ran s).
Definition set_pending fs s := mkLoop (looping_ s) (quit_ s) (el_eventHandling_ s) (callingPendingFunctors_ s)
  (iteration_ s) fs (wakeupFd_ s) (pc s) (waking s) (pushed s) (ran s).
Definition set_wakeupFd n s := mkLoop (looping_ s) (quit_ s) (el_eventHandling_ s) (callingPendingFunctors_ s)
  (iteration_ s) (pendingFunctors_ s) n (pc s) (waking s) (pushed s) (ran s).
Definition set_pc p s := mkLoop (looping_ s) (quit_ s) (el_eventHandling_ s) (callingPendingFunctors_ s)
  (iteration_ s) (pendingFunctors_ s) (wakeupFd_ s) p (waking s) (pushed s) (ran s).
Definition set_waking n s := mkLoop (looping_ s) (quit_ s) (el_eventHandling_ s) (callingPendingFunctors_ s)
  (iteration_ s) (pendingFunctors_ s) (wakeupFd_ s) (pc s) n (pushed s) (ran s).
Definition log_push f s := mkLoop (looping_ s) (quit_ s) (el_eventHandling_ s) (callingPendingFunctors_ s)
  (iteration_ s) (pendingFunctors_ s) (wakeupFd_ s) (pc s) (waking s) (pushed s ++ [f]) (ran s).
Definition log_ran f s := mkLoop (looping_ s) (quit_ s) (el_eventHandling_ s) (callingPendingFunctors_ s)
  (iteration_ s) (pendingFunctors_ s) (wakeupFd_ s) (pc s) (waking s) (pushed s) (ran s ++ [f]).

(** [wakeup]: a write of 1 to the eventfd; at the maximum the write fails with
    EAGAIN, which is only logged. *)
Definition wakeup (s : EventLoop) : EventLoop :=
  set_wakeupFd (if wakeupFd_ s <? 2 ^ 64 - 2 then wakeupFd_ s + 1 else wakeupFd_ s) s.

(** [handleRead]: a read resets the eventfd. *)
Definition loop_handleRead (s : EventLoop) : EventLoop := set_wakeupFd 0 s.

(** The critical section of [queueInLoop]. *)
Definition push_functor (f : Z) (s : EventLoop) : EventLoop :=
  log_push f (set_pending (pendingFunctors_ s ++ [f]) s).

(** [queueInLoop] called in the loop's thread. *)
Definition queueInLoop (f : Z) (s : EventLoop) : EventLoop :=
  let s1 := push_functor f s in
  if callingPendingFunctors_ s1 then wakeup s1 else s1.

(** [quit] called in the loop's thread. *)
Definition quit (s : EventLoop) : EventLoop := set_quit true s.

Definition exec_cmd (s : EventLoop) (c : cmd) : EventLoop :=
  match c with
  | CQueue f => queueInLoop f s
  | CQuit => quit s
  end.

Definition exec_cmds (cs : list cmd) (s : EventLoop) : EventLoop := foldl exec_cmd s cs.

(** [currentActiveChannel_->handleEvent(...)] *)
Definition exec_event (e : event) (s : EventLoop) : EventLoop :=
  match e with
  | EvWakeup => loop_handleRead s
  | EvUser cs => exec_cmds cs s
  end.

Section Loop.

Context (fbody : Z -> list cmd).

(** [runInLoop] called in the loop's thread calls the functor. *)
Definition runInLoop (f : Z) (s : EventLoop) : EventLoop := exec_cmds (fbody f) s.

(** Steps of the process. *)
Inductive loop_label : Type :=
| SEnter
| STest
| SPoll (events : list event)
| SEvent
| SDrain
| SFunctor
| SIdle (cs : list cmd)
| RPush (f : Z)
| RQuit
| RWake.

(** The loop's thread walks through [loop()] and [doPendingFunctors()]; other
    threads call [queueInLoop] and [quit]. A step whose turn it is not does
    nothing. *)
Definition loop_step (s : EventLoop) (l : loop_label) : outcome EventLoop :=
  match l, pc s with
  | SEnter, Idle =>
      c_assert (negb (looping_ s));;
      Ok (set_pc AtTest (set_quit false (set_looping true s)))
  | STest, AtTest =>
      if quit_ s then Ok (set_pc Idle (set_looping false s)) else Ok (set_pc Polling s)
  | SPoll events, Polling =>
      let ready := List.filter (fun e => match e with EvWakeup => 0 <? wakeupFd_ s | EvUser _ => true end) events in
      Ok (set_pc (Handling ready) (set_handling true (next_iteration s)))
  | SEvent, Handling (e :: es) => Ok (set_pc (Handling es) (exec_event e s))
  | SDrain, Handling [] =>
      Ok (set_pc (Draining (pendingFunctors_ s))
            (set_pending [] (set_callingPending true (set_handling false s))))
  | SFunctor, Draining (f :: fs) => Ok (set_pc (Draining fs) (log_ran f (exec_cmds (fbody f) s)))
  | SFunctor, Draining [] => Ok (set_pc AtTest (set_callingPending false s))
  | SIdle cs, Idle => Ok (exec_cmds cs s)
  | RPush f, _ => Ok (set_waking (waking s + 1) (push_functor f s))
  | RQuit, _ => Ok (set_waking (waking s + 1) (set_quit true s))
  | RWake, _ => if 0 <? waking s then Ok (wakeup (set_waking (waking s - 1) s)) else Ok s
  | _, _ => Ok s
  end.

Definition loop_run : EventLoop -> list loop_label -> outcome EventLoop := foldM loop_step.

(** [doPendingFunctors] without interference. *)
Definition doPendingFunctors (s : EventLoop) : EventLoop :=
  let functors := pendingFunctors_ s in
  let s1 := set_pending [] (set_callingPending true s) in
  let s2 := foldl (fun s f => log_ran f (exec_cmds (fbody f) s)) s1 functors in
  set_callingPending false s2.

(** The body of the while loop without interference. *)
Definition loop_iteration (events : list event) (s : EventLoop) : EventLoop :=
  let s1 := set_handling true (next_iteration s) in
  let s2 := foldl (fun s e => exec_event e s) s1 events in
  doPendingFunctors (set_handling false s2).

End Loop.

(** ** Channels and timers of the loop *)

Section Loop_channels.

Context {P : Type} `{!Poller P}.

(** [removeChannel]: while events are handled, only the current channel or one
    that is not active may go. *)
Definition el_removeChannel (handling : bool) (current : option Z) (active : list Z)
    (s : P * chans) (p : Z) : outcome (P * chans) :=
  (if handling then c_assert (bool_decide (current = Some p) || bool_decide (p ∉ active)) else Ok tt);;
  removeChannel s.1 s.2 p.

Definition el_updateChannel (s : P * chans) (p : Z) : outcome (P * chans) :=
  updateChannel s.1 s.2 p.

End Loop_channels.

Section Loop_timers.

Context (alloc : gmap Z Timer -> option Z).

Definition runAt (q : TimerQueue) (time : Timestamp) (cb : Z) : outcome (TimerQueue * TimerId) :=
  addTimer alloc q cb time double_zero.

Definition runAfter (q : TimerQueue) (delay : double) (cb : Z) : outcome (TimerQueue * TimerId) :=
  runAt q (addTime (clock q) delay) cb.

Definition runEvery (q : TimerQueue) (interval : double) (cb : Z) : outcome (TimerQueue * TimerId) :=
  addTimer alloc q cb (addTime (clock q) interval) interval.

Definition loop_cancel (q : TimerQueue) (timerId : TimerId) : outcome TimerQueue := cancelInLoop q timerId.

End Loop_timers.
