(* ===== verification/EventLoopSpec.v ===== *)
(** * What the EventLoop promises to other threads

    Functors run in the order they were queued, once each; the loop never
    blocks in poll with work queued or quit requested without the eventfd
    being readable or a wakeup under way. *)

From stdpp Require Import gmap.
From S2P Require Import Prelude EventLoop.

Section Spec.

Context (fbody : Z -> list cmd).

(** Functors taken by [doPendingFunctors] and not run yet. *)
Definition in_hand (p : phase) : list Z := match p with Draining fs => fs | _ => [] end.

(** A wakeup has arrived or will. *)
Definition woken (s : EventLoop) : Prop := 0 < wakeupFd_ s \/ 0 < waking s.

(** Where the loop may not go to sleep over queued functors. *)
Definition must_wake (s : EventLoop) : Prop :=
  match pc s with
  | Handling _ => False
  | Polling => pendingFunctors_ s <> [] \/ quit_ s = true
  | _ => pendingFunctors_ s <> []
  end.

(** What the flags of the class say about the program counter. *)
Definition is_idle (p : phase) : bool := match p with Idle => true | _ => false end.
Definition is_draining (p : phase) : bool := match p with Draining _ => true | _ => false end.
Definition is_handling (p : phase) : bool := match p with Handling _ => true | _ => false end.

Record loop_inv (s : EventLoop) : Prop := mkLoopInv {
  li_order : pushed s = ran s ++ in_hand (pc s) ++ pendingFunctors_ s;
  li_wake : must_wake s -> woken s;
  li_looping : looping_ s = negb (is_idle (pc s));
  li_calling : callingPendingFunctors_ s = is_draining (pc s);
  li_handling : el_eventHandling_ s = is_handling (pc s);
  li_counters : 0 <= wakeupFd_ s /\ 0 <= waking s;
}.

(** Code outside [loop()] that queues nothing. *)
Definition idle_ok (l : loop_label) : Prop :=
  match l with SIdle cs => forall f, CQueue f ∉ cs | _ => True end.

Lemma woken_wakeup s : 0 <= wakeupFd_ s -> woken (wakeup s).
Proof. intros. left. unfold wakeup. cbn. zcases; lia. Qed.

(** What commands in the loop's thread leave alone. *)
Record cmd_frame (s s' : EventLoop) : Prop := mkFrame {
  cf_pc : pc s' = pc s;
  cf_ran : ran s' = ran s;
  cf_looping : looping_ s' = looping_ s;
  cf_calling : callingPendingFunctors_ s' = callingPendingFunctors_ s;
  cf_handling : el_eventHandling_ s' = el_eventHandling_ s;
  cf_waking : waking s' = waking s;
  cf_wakeup : wakeupFd_ s <= wakeupFd_ s';
  cf_pushed : exists fs, pushed s' = pushed s ++ fs /\ pendingFunctors_ s' = pendingFunctors_ s ++ fs /\
    (fs <> [] -> callingPendingFunctors_ s = true -> 0 <= wakeupFd_ s -> 0 < wakeupFd_ s');
}.

Lemma cmd_frame_refl s : cmd_frame s s.
Proof. constructor; try done. exists []. by rewrite !app_nil_r. Qed.

Lemma cmd_frame_trans s1 s2 s3 : cmd_frame s1 s2 -> cmd_frame s2 s3 -> cmd_frame s1 s3.
Proof.
  intros [] []. constructor; try congruence; [lia|].
  destruct cf_pushed0 as (f1 & P1 & Q1 & W1), cf_pushed1 as (f2 & P2 & Q2 & W2).
  exists (f1 ++ f2). rewrite P2, P1, Q2, Q1, !app_assoc. split_and!; [done..|].
  intros Hne Hc Hpos. destruct (decide (f1 = [])) as [->|H1].
  - apply W2; [done|congruence|lia].
  - specialize (W1 H1 Hc Hpos). lia.
Qed.

Lemma exec_cmd_frame s c : cmd_frame s (exec_cmd s c).
Proof.
  destruct c as [f|]; cbn.
  - unfold queueInLoop. cbn. destruct (callingPendingFunctors_ s) eqn:Ec.
    + constructor; cbn; try done; [zcases; lia|]. exists [f]. split_and!; [done..|].
      intros _ _ Hpos. zcases; lia.
    + constructor; cbn; try done. exists [f]. split_and!; [done..|]. congruence.
  - constructor; cbn; try done. exists []. by rewrite !app_nil_r.
Qed.

Lemma exec_cmds_frame cs : forall s, cmd_frame s (exec_cmds cs s).
Proof.
  induction cs as [|c cs IH]; intros s; cbn; [apply cmd_frame_refl|].
  eapply cmd_frame_trans; [apply exec_cmd_frame|apply IH].
Qed.

Lemma exec_cmds_quiet cs : forall s, (forall f, CQueue f ∉ cs) ->
  pendingFunctors_ (exec_cmds cs s) = pendingFunctors_ s /\ pushed (exec_cmds cs s) = pushed s /\
  wakeupFd_ (exec_cmds cs s) = wakeupFd_ s.
Proof.
  induction cs as [|c cs IH]; intros s Hq; cbn; [done|].
  destruct (IH (exec_cmd s c)) as (E1 & E2 & E3); [intros f Hin; apply (Hq f); by right|].
  fold (exec_cmds cs (exec_cmd s c)). rewrite E1, E2, E3.
  destruct c as [f|]; [|done]. destruct (Hq f). by left.
Qed.

(** ** Preservation *)

Lemma inv_event s e es : loop_inv s -> pc s = Handling (e :: es) ->
  loop_inv (set_pc (Handling es) (exec_event e s)).
Proof.
  intros Hi Hpc. destruct Hi as [Ho _ Hl Hc Hh [Hw0 Hw1]]. rewrite Hpc in *.
  destruct e as [|cs]; cbn.
  - constructor; cbn; done.
  - destruct (exec_cmds_frame cs s) as [Fp Fr Fl Fc Fh Fw Fk (fs & P & Q & _)].
    constructor; cbn; rewrite ?Fl, ?Fc, ?Fh, ?Fr, ?Fw, ?P, ?Q; try done.
    + cbn in Ho. rewrite Ho. by rewrite !app_assoc.
    + split; [|done]. lia.
Qed.

Lemma inv_functor s f fs : loop_inv s -> pc s = Draining (f :: fs) ->
  loop_inv (set_pc (Draining fs) (log_ran f (exec_cmds (fbody f) s))).
Proof.
  intros Hi Hpc. destruct Hi as [Ho Hw Hl Hc Hh [Hw0 Hw1]]. unfold must_wake in Hw. rewrite Hpc in *.
  destruct (exec_cmds_frame (fbody f) s) as [Fp Fr Fl Fc Fh Fw Fk (gs & P & Q & W)].
  constructor; cbn; rewrite ?Fl, ?Fc, ?Fh, ?Fr, ?Fw, ?P, ?Q; try done.
  - cbn in Ho. rewrite Ho, <- !app_assoc. cbn. by rewrite <- app_assoc.
  - unfold must_wake, woken. cbn. rewrite ?Q, ?Fw. intros Hne.
    destruct (decide (gs = [])) as [->|Hg].
    + rewrite app_nil_r in Hne. destruct (Hw Hne); [left; lia|by right].
    + left. apply W; [done|by rewrite Hc|done].
  - split; [lia|done].
Qed.

Lemma inv_idle s cs : loop_inv s -> pc s = Idle -> (forall f, CQueue f ∉ cs) -> loop_inv (exec_cmds cs s).
Proof.
  intros Hi Hpc Hq. destruct (exec_cmds_quiet cs s Hq) as (E1 & E2 & E3).
  destruct (exec_cmds_frame cs s) as [Fp Fr Fl Fc Fh Fw _ _].
  destruct Hi as [Ho Hw Hl Hc Hh Hcn].
  constructor; rewrite ?Fp, ?Fr, ?Fl, ?Fc, ?Fh, ?Fw, ?E1, ?E2, ?E3; try done.
  unfold must_wake, woken in *. rewrite Fp, Hpc, E1, E3, Fw in *. done.
Qed.

Lemma inv_remote s s' : loop_inv s -> pc s' = pc s -> ran s' = ran s -> looping_ s' = looping_ s ->
  callingPendingFunctors_ s' = callingPendingFunctors_ s -> el_eventHandling_ s' = el_eventHandling_ s ->
  pushed s' = ran s ++ in_hand (pc s) ++ pendingFunctors_ s' -> woken s' ->
  0 <= wakeupFd_ s' /\ 0 <= waking s' -> loop_inv s'.
Proof.
  intros [] Ep Er El Ec Eh Ho Hw Hn. constructor; rewrite ?Ep, ?Er, ?El, ?Ec, ?Eh; done.
Qed.

Lemma loop_step_inv s l : loop_inv s -> idle_ok l ->
  exists s', loop_step fbody s l = Ok s' /\ loop_inv s'.
Proof.
  intros Hi Hok. pose proof Hi as [Ho Hw Hl Hc Hh [Hw0 Hw1]].
  destruct l as [| |evs| | | |cs|f| |].
  - cbn. destruct (pc s) eqn:Hpc; try (by exists s). rewrite Hl. cbn.
    eexists. split; [done|]. constructor; cbn; try done.
    unfold must_wake in Hw. by rewrite Hpc in Hw.
  - cbn. destruct (pc s) eqn:Hpc; try (by exists s). unfold must_wake in Hw. rewrite Hpc in Hw.
    destruct (quit_ s) eqn:Hq; eexists; (split; [done|]); constructor; cbn; try done.
    unfold must_wake, woken in *. cbn. rewrite Hq. intros [?|]; [auto|done].
  - cbn. destruct (pc s) eqn:Hpc; try (by exists s). eexists. split; [done|].
    constructor; cbn; done.
  - cbn. destruct (pc s) as [| | |[|e es]|] eqn:Hpc; try (by exists s).
    eexists. split; [done|]. by apply inv_event.
  - cbn. destruct (pc s) as [| | |[|e es]|] eqn:Hpc; try (by exists s).
    eexists. split; [done|]. constructor; cbn; try done. by rewrite app_nil_r.
  - cbn. destruct (pc s) as [| | | |[|f fs]] eqn:Hpc; try (by exists s).
    + eexists. split; [done|]. constructor; cbn; try done.
      unfold must_wake in Hw. by rewrite Hpc in Hw.
    + eexists. split; [done|]. by apply inv_functor.
  - cbn. destruct (pc s) eqn:Hpc; try (by exists s). eexists. split; [done|]. by apply inv_idle.
  - cbn. eexists. split; [by destruct (pc s)|]. apply (inv_remote s); try done.
    + cbn. rewrite Ho, !app_assoc. done.
    + right. cbn. lia.
    + cbn. lia.
  - cbn. eexists. split; [by destruct (pc s)|]. apply (inv_remote s); try done; [right; cbn; lia|cbn; lia].
  - cbn. destruct (0 <? waking s) eqn:E; (eexists; split; [by destruct (pc s)|]); [|done].
    apply Z.ltb_lt in E. apply (inv_remote s); try done.
    + by apply woken_wakeup.
    + cbn. zcases; lia.
Qed.

Lemma loop_inv_ctor : loop_inv EventLoop_ctor.
Proof. constructor; cbn; try done. Qed.

Lemma loop_run_inv ls : forall s, loop_inv s -> Forall idle_ok ls ->
  exists s', loop_run fbody s ls = Ok s' /\ loop_inv s'.
Proof.
  induction ls as [|l ls IH]; intros s Hi Hok; cbn; [by exists s|].
  apply Forall_cons in Hok as [Hl Hls].
  destruct (loop_step_inv s l Hi Hl) as (s1 & -> & Hi1). cbn. by apply IH.
Qed.

(** C28: queued functors are neither lost, duplicated nor reordered, and the
    loop does not sleep on them. In every interleaving of the loop with other
    threads calling queueInLoop and quit, and with functors and channel
    callbacks that queue functors themselves: the functors that ran, followed
    by those being run and those pending, are exactly the queued ones in
    queueing order; and whenever the loop is about to block in poll with
    functors pending or [quit_] set, the eventfd is readable or the thread
    that asked is about to write it. Two things are not covered: functors that
    the loop's own thread queues before it has entered loop(), excluded by
    [idle_ok], do not wake it ([queue_before_loop_sleeps]); and a quit() before
    loop() is not a request that is kept, loop() clears [quit_]
    ([quit_before_loop_forgotten]). *)
Theorem no_lost_wakeup (ls : list loop_label) :
  Forall idle_ok ls ->
  exists s, loop_run fbody EventLoop_ctor ls = Ok s /\
    pushed s = ran s ++ in_hand (pc s) ++ pendingFunctors_ s /\
    (pc s = Polling -> pendingFunctors_ s <> [] \/ quit_ s = true -> 0 < wakeupFd_ s \/ 0 < waking s).
Proof.
  intros Hok. destruct (loop_run_inv ls _ loop_inv_ctor Hok) as (s & -> & Hi).
  exists s. split_and!; [done|apply Hi|]. intros Hpc Hp. apply (li_wake s Hi).
  unfold must_wake. by rewrite Hpc.
Qed.

(** ** One iteration of the loop *)

Definition run_functor (s : EventLoop) (f : Z) : EventLoop := log_ran f (exec_cmds (fbody f) s).

Lemma set_pc_set_pc p p' s : set_pc p (set_pc p' s) = set_pc p s.
Proof. done. Qed.

Lemma exec_cmd_set_pc p s c : exec_cmd (set_pc p s) c = set_pc p (exec_cmd s c).
Proof. destruct c; cbn; [|done]. unfold queueInLoop. cbn. by destruct (callingPendingFunctors_ s). Qed.

Lemma exec_cmds_set_pc p cs : forall s, exec_cmds cs (set_pc p s) = set_pc p (exec_cmds cs s).
Proof. induction cs as [|c cs IH]; intros s; cbn; [done|]. rewrite exec_cmd_set_pc. apply IH. Qed.

Lemma exec_event_set_pc p e s : exec_event e (set_pc p s) = set_pc p (exec_event e s).
Proof. destruct e; cbn; [done|apply exec_cmds_set_pc]. Qed.

Lemma run_events evs : forall s rest,
  loop_run fbody (set_pc (Handling evs) s) (replicate (length evs) SEvent ++ rest) =
  loop_run fbody (set_pc (Handling []) (foldl (fun s e => exec_event e s) s evs)) rest.
Proof.
  induction evs as [|e evs IH]; intros s rest; cbn; [done|].
  rewrite exec_event_set_pc, set_pc_set_pc. apply IH.
Qed.

Lemma run_functors fs : forall s rest,
  loop_run fbody (set_pc (Draining fs) s) (replicate (length fs) SFunctor ++ rest) =
  loop_run fbody (set_pc (Draining []) (foldl run_functor s fs)) rest.
Proof.
  induction fs as [|f fs IH]; intros s rest; cbn; [done|].
  rewrite exec_cmds_set_pc. apply (IH (run_functor s f)).
Qed.

(** What the functors of one drain leave behind. *)
Lemma run_functors_frame fs : forall s, callingPendingFunctors_ s = true -> 0 <= wakeupFd_ s ->
  let s' := foldl run_functor s fs in
  ran s' = ran s ++ fs /\ callingPendingFunctors_ s' = true /\ wakeupFd_ s <= wakeupFd_ s' /\
  exists gs, pendingFunctors_ s' = pendingFunctors_ s ++ gs /\ (gs <> [] -> 0 < wakeupFd_ s').
Proof.
  induction fs as [|f fs IH]; intros s Hc Hw; cbn.
  - rewrite app_nil_r. split_and!; [done|done|lia|]. exists []. by rewrite app_nil_r.
  - destruct (exec_cmds_frame (fbody f) s) as [_ Fr _ Fc _ _ Fk (g1 & _ & Q & W)].
    destruct (IH (run_functor s f)) as (E1 & E2 & E3 & g2 & E4 & E5); cbn in *; [congruence|lia|].
    rewrite E1, E4, Fr, Q. rewrite <- !app_assoc. split_and!; [done|done|lia|].
    exists (g1 ++ g2). rewrite app_assoc. split; [done|]. intros Hne.
    destruct (decide (g2 = [])) as [->|H2]; [|by apply E5].
    rewrite app_nil_r in Hne. specialize (W Hne Hc Hw). lia.
Qed.

Lemma events_frame evs : forall s, callingPendingFunctors_ s = false -> 0 <= wakeupFd_ s ->
  let s' := foldl (fun s e => exec_event e s) s evs in
  ran s' = ran s /\ callingPendingFunctors_ s' = false /\ 0 <= wakeupFd_ s' /\
  exists gs, pendingFunctors_ s' = pendingFunctors_ s ++ gs.
Proof.
  induction evs as [|e evs IH]; intros s Hc Hw; cbn.
  - split_and!; [done..|]. exists []. by rewrite app_nil_r.
  - assert (ran (exec_event e s) = ran s /\ callingPendingFunctors_ (exec_event e s) = false /\
      0 <= wakeupFd_ (exec_event e s) /\
      exists gs, pendingFunctors_ (exec_event e s) = pendingFunctors_ s ++ gs) as (A1 & A2 & A3 & g1 & A4).
    { destruct e as [|cs]; cbn; [split_and!; [done..|]; exists []; by rewrite app_nil_r|].
      destruct (exec_cmds_frame cs s) as [_ Fr _ Fc _ _ Fk (g1 & _ & Q & _)].
      split_and!; [done|congruence|lia|eauto]. }
    destruct (IH _ A2 A3) as (B1 & B2 & B3 & g2 & B4). split_and!; [congruence|done|done|].
    exists (g1 ++ g2). rewrite B4, A4. by rewrite app_assoc.
Qed.

Lemma exec_cmds_iteration cs : forall s, iteration_ (exec_cmds cs s) = iteration_ s.
Proof.
  induction cs as [|c cs IH]; intros s; cbn; [done|]. fold (exec_cmds cs (exec_cmd s c)). rewrite IH.
  destruct c; cbn; [|done]. unfold queueInLoop. by destruct (callingPendingFunctors_ _).
Qed.

Lemma events_iteration evs : forall s,
  iteration_ (foldl (fun s e => exec_event e s) s evs) = iteration_ s.
Proof.
  induction evs as [|e evs IH]; intros s; cbn; [done|]. rewrite IH.
  destruct e; cbn; [done|apply exec_cmds_iteration].
Qed.

(** One turn of the while loop. When poll returns, the step-by-step loop,
    left alone, does exactly what [loop_iteration] computes: it counts the
    iteration, handles the ready channels in order, then runs every functor
    that was pending or that the handlers queued, in order. A functor queued
    while the pending ones run waits for the next turn (the loop cannot starve
    its channels), and in that case the eventfd is readable, so that the next
    poll returns at once. *)
Lemma iteration_runs_pending (s : EventLoop) (evs : list event) :
  pc s = Polling -> callingPendingFunctors_ s = false -> 0 <= wakeupFd_ s ->
  let ready := List.filter (fun e => match e with EvWakeup => 0 <? wakeupFd_ s | EvUser _ => true end) evs in
  let s' := loop_iteration fbody ready s in
  (exists n m, loop_run fbody s (SPoll evs :: replicate n SEvent ++ SDrain :: replicate m SFunctor)
     = Ok (set_pc AtTest s')) /\
  (exists queued, ran s' = ran s ++ pendingFunctors_ s ++ queued) /\
  iteration_ s' = s64 (iteration_ s + 1) /\
  (pendingFunctors_ s' <> [] -> 0 < wakeupFd_ s').
Proof.
  intros Hpc Hc Hw ready s'.
  set (s1 := set_handling true (next_iteration s)).
  set (s2 := foldl (fun s e => exec_event e s) s1 ready).
  destruct (events_frame ready s1 Hc Hw) as (A1 & A2 & A3 & g1 & A4). fold s2 in A1, A2, A3, A4.
  set (s3 := set_pending [] (set_callingPending true (set_handling false s2))).
  destruct (run_functors_frame (pendingFunctors_ s2) s3 eq_refl A3) as (B1 & _ & _ & g2 & B4 & B5).
  assert (s' = set_callingPending false (foldl run_functor s3 (pendingFunctors_ s2))) as Es' by done.
  split_and!.
  - exists (length ready), (length (pendingFunctors_ s2) + 1)%nat. cbn. rewrite Hpc. cbn. fold ready.
    rewrite (run_events ready s1). fold s2. cbn.
    rewrite replicate_add. change (set_pc (Draining (pendingFunctors_ s2)) _)
      with (set_pc (Draining (pendingFunctors_ s2)) s3).
    rewrite (run_functors (pendingFunctors_ s2) s3). cbn. by rewrite Es'.
  - exists g1. rewrite Es'. cbn. rewrite B1. cbn. rewrite A1, A4. done.
  - rewrite Es'. cbn. assert (forall fs s, iteration_ (foldl run_functor s fs) = iteration_ s) as Hf.
    { intros fs. induction fs as [|f fs IH]; intros s0; cbn; [done|]. rewrite IH. cbn.
      apply (exec_cmds_iteration (fbody f) s0). }
    rewrite Hf. cbn. apply events_iteration.
  - rewrite Es'. cbn. rewrite B4. cbn. apply B5.
Qed.

End Spec.

(** ** A functor queued before loop() *)

(** a functor that the loop's own thread queues before it calls loop()
    does not wake it: queueInLoop writes the eventfd only from another thread
    or while pending functors run. The loop then blocks in poll with the
    functor pending and nothing to wake it but the poll timeout. *)
Lemma queue_before_loop_sleeps (fbody : Z -> list cmd) (f : Z) :
  exists s, loop_run fbody EventLoop_ctor [SIdle [CQueue f]; SEnter; STest] = Ok s /\
    pc s = Polling /\ pendingFunctors_ s = [f] /\ wakeupFd_ s = 0 /\ waking s = 0.
Proof. eexists. split; [reflexivity|]. done. Qed.

(** A quit() before loop(), from the loop's own thread, is overwritten: the
    loop enters poll. *)
Lemma quit_before_loop_forgotten (fbody : Z -> list cmd) :
  exists s, loop_run fbody EventLoop_ctor [SIdle [CQuit]; SEnter; STest] = Ok s /\ pc s = Polling /\ quit_ s = false.
Proof. eexists. split; [reflexivity|]. done. Qed.

(** ** Witnesses *)

Definition demo_fbody (f : Z) : list cmd := if f =? 1 then [CQueue 3] else [].

Lemma no_lost_wakeup_witness :
  exists s, loop_run demo_fbody EventLoop_ctor [SEnter; STest; RPush 1; RPush 2] = Ok s /\
    pc s = Polling /\ pendingFunctors_ s = [1; 2] /\ (0 < wakeupFd_ s \/ 0 < waking s).
Proof.
  destruct (no_lost_wakeup demo_fbody [SEnter; STest; RPush 1; RPush 2]
    ltac:(repeat constructor)) as (s & E & _ & H).
  exists s. vm_compute in E. injection E as <-. split; [reflexivity|].
  split; [reflexivity|]. split; [reflexivity|]. apply H; [reflexivity|left; discriminate].
Defined.

Definition demo_polling : EventLoop :=
  mkLoop true false false false 6 [1; 2] 1 Polling 0 [1; 2] [].

Lemma iteration_runs_pending_witness :
  let s' := loop_iteration demo_fbody [EvWakeup; EvUser [CQueue 5]] demo_polling in
  (exists queued, ran s' = [1; 2] ++ queued) /\ iteration_ s' = 7 /\ 0 < wakeupFd_ s'.
Proof.
  destruct (iteration_runs_pending demo_fbody demo_polling [EvWakeup; EvUser [CQueue 5]]
    eq_refl eq_refl ltac:(vm_compute; discriminate)) as (_ & H1 & H2 & H3).
  split; [exact H1|]. split; [exact H2|]. apply H3. vm_compute. discriminate.
Defined.
