(* ===== verification/TcpConnection.v ===== *)
(** * TcpConnection: src/mynetlib/net/TcpConnection.h, TcpConnection.cc

    A connection in its loop's thread. The output buffer is any [ByteQueue];
    the kernel's answers to write(2) and readv(2) are arguments of the
    operations that call them. User callbacks are lists of calls on the
    connection. What the loop has queued for the connection is [queue]; calls
    of other threads are taken access by access, those begun and not finished
    are [remotes]; what the callbacks reported, the bytes the kernel took and the calls on the
    channel are kept as histories. *)

From stdpp Require Import gmap.
From S2P Require Import Prelude Buffer BufferSpec Channel Poller.

Inductive StateE : Set := kDisconnected | kConnecting | kConnected | kDisconnecting.

#[export] Instance StateE_eq_dec : EqDecision StateE.
Proof. solve_decision. Defined.

Definition state_eqb (a b : StateE) : bool := bool_decide (a = b).

(** What write(2) answers. *)
Inductive wresult : Type :=
| Wrote (n : Z)
| WErr (errno : Z).

Definition EWOULDBLOCK : Z := 11.
Definition EPIPE : Z := 32.
Definition ECONNRESET : Z := 104.

(** write(2): the answer to the bytes offered. *)
Abbreviation writer := (list byte -> wresult) (only parsing).

(** What the callbacks of the connection report. *)
Inductive cevent : Type :=
| EvConnection (up : bool)
| EvMessage (readable : Z)
| EvWriteComplete
| EvHighWaterMark (len : Z)
| EvClose.

(** Calls a user callback makes on the connection, in the loop's thread. *)
Inductive uaction : Type :=
| USend (data : list byte) (wr : writer)
| UShutdown
| UForceClose
| UForceCloseWithDelay
| UStartRead
| UStopRead
| UConsume (n : Z).

(** Functors the loop holds for the connection. *)
Inductive cfunctor : Type :=
| FSendInLoop (data : list byte)
| FShutdownInLoop
| FForceCloseInLoop
| FStartReadInLoop
| FStopReadInLoop
| FWriteComplete
| FHighWaterMark (len : Z)
| FConnectDestroyed.

(** Calls another thread has begun: the test of the state has passed; for the
    calls that change the state, whether the store has happened too. *)
Inductive rcall : Type :=
| RSend (data : list byte)
| RShutdown (stored : bool)
| RForceClose (stored : bool)
| RForceCloseWithDelay (stored : bool).

Section TcpConnection.

Context {B : Type} `{!ByteQueue B}.

Record TcpConnection : Type := mkConn {
  state_ : StateE;
  reading_ : bool;
  channel_ : Channel;
  inputBuffer_ : Buffer;
  outputBuffer_ : B;
  highWaterMark_ : Z;
  hasWriteComplete : bool;
  hasHighWaterMark : bool;
  delayed : Z;
  queue : list cfunctor;
  wire : list byte;
  accepted : list byte;
  fins : list (StateE * (list byte * list byte));
  clog : list cevent;
  chan_calls : list chan_op;
  remotes : list rcall;
}.

Definition set_state x c := mkConn x (reading_ c) (channel_ c) (inputBuffer_ c) (outputBuffer_ c)
  (highWaterMark_ c) (hasWriteComplete c) (hasHighWaterMark c) (delayed c) (queue c) (wire c) (accepted c)
  (fins c) (clog c) (chan_calls c) (remotes c).
Definition set_reading x c := mkConn (state_ c) x (channel_ c) (inputBuffer_ c) (outputBuffer_ c)
  (highWaterMark_ c) (hasWriteComplete c) (hasHighWaterMark c) (delayed c) (queue c) (wire c) (accepted c)
  (fins c) (clog c) (chan_calls c) (remotes c).
Definition set_channel x c := mkConn (state_ c) (reading_ c) x (inputBuffer_ c) (outputBuffer_ c)
  (highWaterMark_ c) (hasWriteComplete c) (hasHighWaterMark c) (delayed c) (queue c) (wire c) (accepted c)
  (fins c) (clog c) (chan_calls c) (remotes c).
Definition set_input x c := mkConn (state_ c) (reading_ c) (channel_ c) x (outputBuffer_ c)
  (highWaterMark_ c) (hasWriteComplete c) (hasHighWaterMark c) (delayed c) (queue c) (wire c) (accepted c)
  (fins c) (clog c) (chan_calls c) (remotes c).
Definition set_output x c := mkConn (state_ c) (reading_ c) (channel_ c) (inputBuffer_ c) x
  (highWaterMark_ c) (hasWriteComplete c) (hasHighWaterMark c) (delayed c) (queue c) (wire c) (accepted c)
  (fins c) (clog c) (chan_calls c) (remotes c).
Definition set_delayed x c := mkConn (state_ c) (reading_ c) (channel_ c) (inputBuffer_ c) (outputBuffer_ c)
  (highWaterMark_ c) (hasWriteComplete c) (hasHighWaterMark c) x (queue c) (wire c) (accepted c)
  (fins c) (clog c) (chan_calls c) (remotes c).
Definition set_queue x c := mkConn (state_ c) (reading_ c) (channel_ c) (inputBuffer_ c) (outputBuffer_ c)
  (highWaterMark_ c) (hasWriteComplete c) (hasHighWaterMark c) (delayed c) x (wire c) (accepted c)
  (fins c) (clog c) (chan_calls c) (remotes c).
Definition set_wire x c := mkConn (state_ c) (reading_ c) (channel_ c) (inputBuffer_ c) (outputBuffer_ c)
  (highWaterMark_ c) (hasWriteComplete c) (hasHighWaterMark c) (delayed c) (queue c) x (accepted c)
  (fins c) (clog c) (chan_calls c) (remotes c).
Definition set_accepted x c := mkConn (state_ c) (reading_ c) (channel_ c) (inputBuffer_ c) (outputBuffer_ c)
  (highWaterMark_ c) (hasWriteComplete c) (hasHighWaterMark c) (delayed c) (queue c) (wire c) x
  (fins c) (clog c) (chan_calls c) (remotes c).
Definition set_fins x c := mkConn (state_ c) (reading_ c) (channel_ c) (inputBuffer_ c) (outputBuffer_ c)
  (highWaterMark_ c) (hasWriteComplete c) (hasHighWaterMark c) (delayed c) (queue c) (wire c) (accepted c)
  x (clog c) (chan_calls c) (remotes c).
Definition set_clog x c := mkConn (state_ c) (reading_ c) (channel_ c) (inputBuffer_ c) (outputBuffer_ c)
  (highWaterMark_ c) (hasWriteComplete c) (hasHighWaterMark c) (delayed c) (queue c) (wire c) (accepted c)
  (fins c) x (chan_calls c) (remotes c).
Definition set_calls x c := mkConn (state_ c) (reading_ c) (channel_ c) (inputBuffer_ c) (outputBuffer_ c)
  (highWaterMark_ c) (hasWriteComplete c) (hasHighWaterMark c) (delayed c) (queue c) (wire c) (accepted c)
  (fins c) (clog c) x (remotes c).

Definition set_remotes x c := mkConn (state_ c) (reading_ c) (channel_ c) (inputBuffer_ c) (outputBuffer_ c)
  (highWaterMark_ c) (hasWriteComplete c) (hasHighWaterMark c) (delayed c) (queue c) (wire c) (accepted c)
  (fins c) (clog c) (chan_calls c) x.

(** The address of the connection's channel, its callbacks, and the user's. *)
Context (chan : Z) (user : cevent -> list uaction).

Definition TcpConnection_ctor (sockfd : Z) (input : Buffer) (output : B) (wc hw : bool) : TcpConnection :=
  let ch := set_callback ErrorCallback (set_callback CloseCallback
              (set_callback WriteCallback (set_callback ReadCallback (Channel_ctor sockfd)))) in
  mkConn kConnecting true ch input output (64 * 1024 * 1024) wc hw 0 [] [] [] [] []
    [ONew chan sockfd] [].

Definition connected (c : TcpConnection) : bool := state_eqb (state_ c) kConnected.
Definition disconnected (c : TcpConnection) : bool := state_eqb (state_ c) kDisconnected.

Definition queueFunctor (f : cfunctor) (c : TcpConnection) : TcpConnection := set_queue (queue c ++ [f]) c.

Definition report (e : cevent) (c : TcpConnection) : TcpConnection := set_clog (clog c ++ [e]) c.

(** ** Calls on the channel *)

Definition ch_events (o : chan_op) (ev : Z) (c : TcpConnection) : TcpConnection :=
  set_calls (chan_calls c ++ [o]) (set_channel (set_added true (set_events ev (channel_ c))) c).

Definition ch_enableReading c := ch_events (OEnableReading chan) (Z.lor (events_ (channel_ c)) kReadEvent) c.
Definition ch_disableReading c :=
  ch_events (ODisableReading chan) (Z.land (events_ (channel_ c)) (Z.lnot kReadEvent)) c.
Definition ch_enableWriting c := ch_events (OEnableWriting chan) (Z.lor (events_ (channel_ c)) kWriteEvent) c.
Definition ch_disableWriting c :=
  ch_events (ODisableWriting chan) (Z.land (events_ (channel_ c)) (Z.lnot kWriteEvent)) c.
Definition ch_disableAll c := ch_events (ODisableAll chan) kNoneEvent c.

Definition ch_remove (c : TcpConnection) : outcome TcpConnection :=
  c_assert (isNoneEvent (channel_ c));;
  Ok (set_calls (chan_calls c ++ [ORemove chan]) (set_channel (set_added false (channel_ c)) c)).

(** ** Sending *)

(** The direct write of [sendInLoop]: what was written, what remains, whether
    the socket is broken, and the connection with a functor queued. *)
Definition direct_write (data : list byte) (wr : writer) (c : TcpConnection) :
    Z * Z * bool * TcpConnection :=
  let len := zlen data in
  if negb (isWriting (channel_ c)) && (bq_readable (outputBuffer_ c) =? 0) then
    match wr data with
    | Wrote n =>
        let remaining := u64 (len - n) in
        let c1 := set_wire (wire c ++ take (Z.to_nat n) data) c in
        (n, remaining, false,
         if (remaining =? 0) && hasWriteComplete c then queueFunctor FWriteComplete c1 else c1)
    | WErr errno =>
        (0, len, negb (errno =? EWOULDBLOCK) && ((errno =? EPIPE) || (errno =? ECONNRESET)), c)
    end
  else (0, len, false, c).

Definition sendInLoop (data : list byte) (wr : writer) (c : TcpConnection) : outcome TcpConnection :=
  if state_eqb (state_ c) kDisconnected then Ok c
  else
    let '(nwrote, remaining, faultError, c1) := direct_write data wr c in
    c_assert (remaining <=? zlen data);;
    if negb faultError && (0 <? remaining) then
      let oldLen := bq_readable (outputBuffer_ c1) in
      let c2 := if (highWaterMark_ c1 <=? u64 (oldLen + remaining)) && (oldLen <? highWaterMark_ c1)
                   && hasHighWaterMark c1
                then queueFunctor (FHighWaterMark (u64 (oldLen + remaining))) c1 else c1 in
      out ← bq_append (outputBuffer_ c2) (drop (Z.to_nat nwrote) data);
      let c3 := set_accepted (accepted c2 ++ data) (set_output out c2) in
      Ok (if isWriting (channel_ c3) then c3 else ch_enableWriting c3)
    else Ok (if faultError then c1 else set_accepted (accepted c1 ++ data) c1).

(** A call from another thread begins: what remains of it is kept when its
    test of the state passes. *)
Definition begin_remote (r : rcall) (c : TcpConnection) : TcpConnection := set_remotes (remotes c ++ [r]) c.

(** [send] in the loop's thread, and the test of [send] in another thread. *)
Definition send (data : list byte) (wr : writer) (c : TcpConnection) : outcome TcpConnection :=
  if state_eqb (state_ c) kConnected then sendInLoop data wr c else Ok c.

Definition send_remote (data : list byte) (c : TcpConnection) : TcpConnection :=
  if state_eqb (state_ c) kConnected then begin_remote (RSend data) c else c.

(** ** Closing *)

Definition shutdownInLoop (c : TcpConnection) : TcpConnection :=
  if isWriting (channel_ c) then c else set_fins (fins c ++ [(state_ c, (wire c, accepted c))]) c.

Definition shutdown (c : TcpConnection) : TcpConnection :=
  if state_eqb (state_ c) kConnected then shutdownInLoop (set_state kDisconnecting c) else c.

(** The test of [shutdown] in another thread: the store of the state and the
    queueing of the functor follow, with no lock around the three. *)
Definition shutdown_remote (c : TcpConnection) : TcpConnection :=
  if state_eqb (state_ c) kConnected then begin_remote (RShutdown false) c else c.

Definition forceClose (c : TcpConnection) : TcpConnection :=
  if state_eqb (state_ c) kConnected || state_eqb (state_ c) kDisconnecting
  then queueFunctor FForceCloseInLoop (set_state kDisconnecting c) else c.

Definition forceClose_remote (c : TcpConnection) : TcpConnection :=
  if state_eqb (state_ c) kConnected || state_eqb (state_ c) kDisconnecting
  then begin_remote (RForceClose false) c else c.

Definition forceCloseWithDelay (c : TcpConnection) : TcpConnection :=
  if state_eqb (state_ c) kConnected || state_eqb (state_ c) kDisconnecting
  then set_delayed (delayed c + 1) (set_state kDisconnecting c) else c.

Definition forceCloseWithDelay_remote (c : TcpConnection) : TcpConnection :=
  if state_eqb (state_ c) kConnected || state_eqb (state_ c) kDisconnecting
  then begin_remote (RForceCloseWithDelay false) c else c.

(** The next access of a call begun by another thread: the store of the
    state, then the functor or the timer. *)
Definition remote_access (i : nat) (r : rcall) (c : TcpConnection) : TcpConnection :=
  let store r' := set_remotes (<[i := r']> (remotes c)) (set_state kDisconnecting c) in
  let done := set_remotes (delete i (remotes c)) c in
  match r with
  | RSend data => queueFunctor (FSendInLoop data) done
  | RShutdown false => store (RShutdown true)
  | RShutdown true => queueFunctor FShutdownInLoop done
  | RForceClose false => store (RForceClose true)
  | RForceClose true => queueFunctor FForceCloseInLoop done
  | RForceCloseWithDelay false => store (RForceCloseWithDelay true)
  | RForceCloseWithDelay true => set_delayed (delayed c + 1) done
  end.

(** ** Reading on and off *)

Definition startReadInLoop (c : TcpConnection) : TcpConnection :=
  if negb (reading_ c) || negb (isReading (channel_ c))
  then set_reading true (ch_enableReading c) else c.

Definition stopReadInLoop (c : TcpConnection) : TcpConnection :=
  if reading_ c || isReading (channel_ c)
  then set_reading false (ch_disableReading c) else c.

(** ** User callbacks *)

Definition run_uaction (c : TcpConnection) (a : uaction) : outcome TcpConnection :=
  match a with
  | USend data wr => send data wr c
  | UShutdown => Ok (shutdown c)
  | UForceClose => Ok (forceClose c)
  | UForceCloseWithDelay => Ok (forceCloseWithDelay c)
  | UStartRead => Ok (startReadInLoop c)
  | UStopRead => Ok (stopReadInLoop c)
  | UConsume n =>
      b ← (if (0 <=? n) && (n <=? readableBytes (inputBuffer_ c)) then retrieve (inputBuffer_ c) n
           else Ok (retrieveAll (inputBuffer_ c)));
      Ok (set_input b c)
  end.

(** A callback: it is reported, then the user's code runs. *)
Definition call_user (e : cevent) (c : TcpConnection) : outcome TcpConnection :=
  foldM run_uaction (report e c) (user e).

Definition connectionCallback (c : TcpConnection) : outcome TcpConnection :=
  call_user (EvConnection (connected c)) c.

(** The close callback is the owner's: it has [connectDestroyed] queued. *)
Definition closeCallback (c : TcpConnection) : outcome TcpConnection :=
  c1 ← call_user EvClose c; Ok (queueFunctor FConnectDestroyed c1).

(** ** Event handlers *)

Definition handleClose (c : TcpConnection) : outcome TcpConnection :=
  c_assert (state_eqb (state_ c) kConnected || state_eqb (state_ c) kDisconnecting);;
  c1 ← connectionCallback (ch_disableAll (set_state kDisconnected c));
  closeCallback c1.

Definition forceCloseInLoop (c : TcpConnection) : outcome TcpConnection :=
  if state_eqb (state_ c) kConnected || state_eqb (state_ c) kDisconnecting
  then handleClose c else Ok c.

(** [handleError] reads and logs SO_ERROR. *)
Definition handleError (c : TcpConnection) : TcpConnection := c.

Definition conn_handleRead (readv : list Z -> readv_result) (c : TcpConnection) : outcome TcpConnection :=
  r ← readFd readv (inputBuffer_ c);
  let '(n, savedErrno, b) := r in
  let c1 := set_input b c in
  if 0 <? n then call_user (EvMessage (readableBytes b)) c1
  else if n =? 0 then handleClose c1
  else Ok (handleError c1).

Definition handleWrite (wr : writer) (c : TcpConnection) : outcome TcpConnection :=
  if isWriting (channel_ c) then
    match wr (bq_contents (outputBuffer_ c)) with
    | Wrote n =>
        if 0 <? n then
          let c0 := set_wire (wire c ++ take (Z.to_nat n) (bq_contents (outputBuffer_ c))) c in
          out ← bq_retrieve (outputBuffer_ c0) n;
          let c1 := set_output out c0 in
          if bq_readable out =? 0 then
            let c2 := ch_disableWriting c1 in
            let c3 := if hasWriteComplete c2 then queueFunctor FWriteComplete c2 else c2 in
            Ok (if state_eqb (state_ c3) kDisconnecting then shutdownInLoop c3 else c3)
          else Ok c1
        else Ok c
    | WErr _ => Ok c
    end
  else Ok c.

Definition connectEstablished (c : TcpConnection) : outcome TcpConnection :=
  c_assert (state_eqb (state_ c) kConnecting);;
  let c1 := set_state kConnected c in
  let c2 := ch_enableReading (set_channel (tie (channel_ c1)) c1) in
  connectionCallback c2.

Definition connectDestroyed (c : TcpConnection) : outcome TcpConnection :=
  c1 ← (if state_eqb (state_ c) kConnected
        then connectionCallback (ch_disableAll (set_state kDisconnected c)) else Ok c);
  ch_remove c1.

(** [~TcpConnection] and the destructor of its channel. *)
Definition TcpConnection_dtor (c : TcpConnection) : outcome unit :=
  c_assert (state_eqb (state_ c) kDisconnected);;
  c_assert (negb (eventHandling_ (channel_ c)));;
  c_assert (negb (addedToLoop_ (channel_ c))).

(** ** The connection in its loop *)

Definition run_cfunctor (wr : writer) (f : cfunctor) (c : TcpConnection) : outcome TcpConnection :=
  match f with
  | FSendInLoop data => sendInLoop data wr c
  | FShutdownInLoop => Ok (shutdownInLoop c)
  | FForceCloseInLoop => forceCloseInLoop c
  | FStartReadInLoop => Ok (startReadInLoop c)
  | FStopReadInLoop => Ok (stopReadInLoop c)
  | FWriteComplete => call_user EvWriteComplete c
  | FHighWaterMark len => call_user (EvHighWaterMark len) c
  | FConnectDestroyed => connectDestroyed c
  end.

(** The callbacks the constructor bound to the channel. *)
Definition channel_callback (readv : list Z -> readv_result) (wr : writer) (cb : callback)
    (c : TcpConnection) : outcome TcpConnection :=
  match cb with
  | ReadCallback => conn_handleRead readv c
  | WriteCallback => handleWrite wr c
  | CloseCallback => handleClose c
  | ErrorCallback => Ok (handleError c)
  end.

(** Steps: poll reported events, the loop runs the oldest functor, a delayed
    forceClose is due, another thread calls the connection, or a call begun by
    another thread makes its next access. *)
Inductive conn_label : Type :=
| LEvent (revents : Z) (readv : list Z -> readv_result) (wr : writer)
| LRunFunctor (wr : writer)
| LDelayed
| LSendRemote (data : list byte)
| LShutdownRemote
| LForceCloseRemote
| LForceCloseWithDelayRemote
| LRemote (i : nat)
| LStartReadRemote
| LStopReadRemote.

Definition conn_step (c : TcpConnection) (l : conn_label) : outcome TcpConnection :=
  match l with
  | LEvent revents readv wr =>
      let c1 := set_channel (set_revents revents (channel_ c)) c in
      handleEvent channel_ set_channel (channel_callback readv wr) true c1
  | LRunFunctor wr =>
      match queue c with
      | [] => Ok c
      | f :: fs => run_cfunctor wr f (set_queue fs c)
      end
  | LDelayed =>
      if 0 <? delayed c then Ok (forceClose (set_delayed (delayed c - 1) c)) else Ok c
  | LSendRemote data => Ok (send_remote data c)
  | LShutdownRemote => Ok (shutdown_remote c)
  | LForceCloseRemote => Ok (forceClose_remote c)
  | LForceCloseWithDelayRemote => Ok (forceCloseWithDelay_remote c)
  | LRemote i => Ok (match remotes c !! i with Some r => remote_access i r c | None => c end)
  | LStartReadRemote => Ok (queueFunctor FStartReadInLoop c)
  | LStopReadRemote => Ok (queueFunctor FStopReadInLoop c)
  end.

End TcpConnection.

Arguments TcpConnection B : clear implicits.
