(* ===== verification/TcpConnectionInv.v ===== *)
(** * The TcpConnection invariant

    The byte stream, the event mask and the life cycle of a connection, and
    that every operation keeps them. *)

From stdpp Require Import gmap.
From S2P Require Import Prelude Buffer BufferSpec Channel Poller TcpConnection.

(** ** What is assumed of the kernel *)

Definition write_spec (wr : list byte -> wresult) : Prop :=
  forall data, match wr data with Wrote n => 0 <= n <= zlen data | WErr _ => True end.

(** ** Protocol of the calls on the channel *)

(** Replays the calls: the descriptor of the channel, whether it is
    registered, and its events. *)
Inductive rstate : Type :=
| RInit
| RLive (fd : Z) (added : bool) (ev : Z)
| RBad.

Definition replay_one (chan : Z) (s : rstate) (o : chan_op) : rstate :=
  match s with
  | RInit => match o with ONew p fd => if p =? chan then RLive fd false 0 else RBad | _ => RBad end
  | RLive fd added ev =>
      match op_events o with
      | Some (p, f) => if (p =? chan) && (added || negb (f ev =? 0)) then RLive fd true (f ev) else RBad
      | None =>
          match o with
          | ORemove p => if (p =? chan) && added && (ev =? 0) then RLive fd false ev else RBad
          | _ => RBad
          end
      end
  | RBad => RBad
  end.

Definition replay (chan : Z) (ops : list chan_op) : rstate := foldl (replay_one chan) RInit ops.

Arguments replay : simpl never.

Lemma replay_snoc chan ops o : replay chan (ops ++ [o]) = replay_one chan (replay chan ops) o.
Proof. unfold replay. by rewrite foldl_app. Qed.

Section Inv.

Context {B : Type} `{!ByteQueue B}.
Context (chan : Z) (user : cevent -> list uaction).

Abbreviation conn := (TcpConnection B).

Definition out_bytes (c : conn) : list byte := bq_contents (outputBuffer_ c).

Definition alive (c : conn) : bool :=
  state_eqb (state_ c) kConnected || state_eqb (state_ c) kDisconnecting.

Definition ev_up (e : cevent) : bool := match e with EvConnection true => true | _ => false end.
Definition ev_down (e : cevent) : bool := match e with EvConnection false => true | _ => false end.
Definition ev_close (e : cevent) : bool := match e with EvClose => true | _ => false end.

Definition count {A} (f : A -> bool) (l : list A) : nat := length (List.filter f l).

Arguments count {A} f l : simpl never.

Definition is_destroy (f : cfunctor) : bool := match f with FConnectDestroyed => true | _ => false end.

Record conn_inv (c : conn) : Prop := mkConnInv {
  ci_input : wf (inputBuffer_ c);
  ci_output : bq_wf (outputBuffer_ c);
  ci_stream : wire c ++ out_bytes c = accepted c;
  ci_writing : isWriting (channel_ c) = alive c && negb (bq_readable (outputBuffer_ c) =? 0);
  ci_events : events_ (channel_ c) ∈ [0; 3; 4; 7];
  ci_fins : Forall (fun w => w.1 = kDisconnected \/ w.2.1 = w.2.2) (fins c);
  ci_closed : state_ c = kDisconnected -> events_ (channel_ c) = 0;
  ci_added : alive c = true -> addedToLoop_ (channel_ c) = true;
  ci_calls : replay chan (chan_calls c) =
    RLive (fd_ (channel_ c)) (addedToLoop_ (channel_ c)) (events_ (channel_ c));
  ci_callbacks : callbacks_ (channel_ c) = [ErrorCallback; CloseCallback; WriteCallback; ReadCallback];
  ci_established : state_ c <> kConnecting;
}.

(** The life cycle as the callbacks report it. *)
Record life (c : conn) : Prop := mkLife {
  lf_up : count ev_up (clog c) = 1%nat;
  lf_down : count ev_down (clog c) = (if alive c then 0 else 1)%nat;
  lf_close : count ev_close (clog c) = (if alive c then 0 else 1)%nat;
  lf_destroy : count is_destroy (queue c) =
    (if alive c then 0 else if addedToLoop_ (channel_ c) then 1 else 0)%nat;
}.

Lemma count_app {A} (f : A -> bool) l1 l2 : count f (l1 ++ l2) = (count f l1 + count f l2)%nat.
Proof. unfold count. by rewrite List.filter_app, length_app. Qed.

(** ** What user code may change *)

Record uframe (c c' : conn) : Prop := mkUframe {
  uf_state : state_ c' = state_ c \/ state_ c = kConnected /\ state_ c' = kDisconnecting;
  uf_clog : clog c' = clog c;
  uf_queue : count is_destroy (queue c') = count is_destroy (queue c);
  uf_revents : revents_ (channel_ c') = revents_ (channel_ c);
  uf_handling : eventHandling_ (channel_ c') = eventHandling_ (channel_ c);
  uf_fd : fd_ (channel_ c') = fd_ (channel_ c);
  uf_tied : tied_ (channel_ c') = tied_ (channel_ c);
  uf_added : alive c = false -> addedToLoop_ (channel_ c') = addedToLoop_ (channel_ c);
  uf_input : zlen (buffer_ (inputBuffer_ c')) = zlen (buffer_ (inputBuffer_ c));
}.

Lemma uframe_refl c : uframe c c.
Proof. constructor; auto. Qed.

Lemma uframe_trans c1 c2 c3 : uframe c1 c2 -> uframe c2 c3 -> uframe c1 c3.
Proof.
  intros F G. destruct F as [Fs Fl Fq Fr Fh Ff Ft Fa Fi], G as [Gs Gl Gq Gr Gh Gf Gt Ga Gi].
  constructor; try congruence.
  - destruct Fs as [E1|[E1 E1']], Gs as [E2|[E2 E2']]; rewrite ?E1, ?E2 in *; auto; try congruence.
  - intros Ha. rewrite Ga, Fa; [done|done|]. unfold alive in *.
    destruct Fs as [->|[Hx _]]; [done|]. rewrite Hx in Ha. done.
Qed.

Lemma uframe_alive c c' : uframe c c' -> alive c' = alive c.
Proof. intros [[E|[E1 E2]] _ _ _ _ _ _ _ _]; unfold alive; [by rewrite E|by rewrite E1, E2]. Qed.

Lemma life_uframe c c' : life c -> uframe c c' -> life c'.
Proof.
  intros [L1 L2 L3 L4] F. pose proof (uframe_alive c c' F) as Ha.
  constructor; rewrite ?(uf_clog _ _ F), ?(uf_queue _ _ F), ?Ha; try done.
  destruct (alive c) eqn:E; [done|]. by rewrite (uf_added _ _ F E).
Qed.

(** ** Event masks *)

Lemma mask_cases ev : ev ∈ [0; 3; 4; 7] -> ev = 0 \/ ev = 3 \/ ev = 4 \/ ev = 7.
Proof. set_solver. Qed.

Ltac mask H := apply mask_cases in H as [H|[H|[H|H]]].

(** A call on the registered channel of a live connection. *)
Lemma ch_events_inv o f c :
  conn_inv c -> alive c = true -> op_events o = Some (chan, f) ->
  f (events_ (channel_ c)) ∈ [0; 3; 4; 7] ->
  has (f (events_ (channel_ c))) kWriteEvent = isWriting (channel_ c) ->
  conn_inv (ch_events o (f (events_ (channel_ c))) c) /\
  uframe c (ch_events o (f (events_ (channel_ c))) c).
Proof.
  intros [] Ha Ho Hm Hw. split; constructor; cbn; try done; try tauto.
  - unfold isWriting. cbn. rewrite Hw, ci_writing0. done.
  - intros Hs. unfold alive in Ha. rewrite Hs in Ha. done.
  - rewrite replay_snoc, ci_calls0. cbn. rewrite Ho, Z.eqb_refl, (ci_added0 Ha). done.
  - intros Hf. congruence.
Qed.

Lemma ch_enableReading_inv c : conn_inv c -> alive c = true ->
  conn_inv (ch_enableReading chan c) /\ uframe c (ch_enableReading chan c).
Proof.
  intros Hi Ha. apply (ch_events_inv (OEnableReading chan) (fun ev => Z.lor ev kReadEvent)); [done..| |];
    pose proof (ci_events _ Hi) as He; unfold isWriting; mask He; rewrite He; vm_compute; set_solver.
Qed.

Lemma ch_disableReading_inv c : conn_inv c -> alive c = true ->
  conn_inv (ch_disableReading chan c) /\ uframe c (ch_disableReading chan c).
Proof.
  intros Hi Ha.
  apply (ch_events_inv (ODisableReading chan) (fun ev => Z.land ev (Z.lnot kReadEvent))); [done..| |];
    pose proof (ci_events _ Hi) as He; unfold isWriting; mask He; rewrite He; vm_compute; set_solver.
Qed.

Lemma startReadInLoop_inv c : conn_inv c -> alive c = true ->
  conn_inv (startReadInLoop chan c) /\ uframe c (startReadInLoop chan c).
Proof.
  intros Hi Ha. unfold startReadInLoop. destruct (negb _ || negb _); [|by split; [|apply uframe_refl]].
  destruct (ch_enableReading_inv c Hi Ha) as [[] []]. split; constructor; done.
Qed.

Lemma stopReadInLoop_inv c : conn_inv c -> alive c = true ->
  conn_inv (stopReadInLoop chan c) /\ uframe c (stopReadInLoop chan c).
Proof.
  intros Hi Ha. unfold stopReadInLoop. destruct (_ || _); [|by split; [|apply uframe_refl]].
  destruct (ch_disableReading_inv c Hi Ha) as [[] []]. split; constructor; done.
Qed.

(** ** Functors and states *)

Lemma queueFunctor_inv f c : conn_inv c -> is_destroy f = false ->
  conn_inv (queueFunctor f c) /\ uframe c (queueFunctor f c).
Proof.
  intros [] Hf. split; constructor; cbn; try done; [by left|].
  rewrite count_app. unfold count at 2. cbn. rewrite Hf. cbn. lia.
Qed.

Lemma set_Disconnecting_inv c : conn_inv c -> alive c = true ->
  conn_inv (set_state kDisconnecting c) /\ uframe c (set_state kDisconnecting c).
Proof.
  intros [] Ha. split; constructor; cbn; try done.
  - by rewrite ci_writing0, Ha.
  - intros _. by apply ci_added0.
  - unfold alive, state_eqb in Ha. apply orb_true_iff in Ha as [Ha|Ha];
      apply bool_decide_eq_true in Ha; [right; done|left; done].
Qed.

Lemma shutdownInLoop_inv c : conn_inv c ->
  conn_inv (shutdownInLoop c) /\ uframe c (shutdownInLoop c).
Proof.
  intros Hi. unfold shutdownInLoop. destruct (isWriting (channel_ c)) eqn:Ew;
    [by split; [|apply uframe_refl]|].
  assert (state_ c = kDisconnected \/ wire c = accepted c) as Hfin.
  { destruct (alive c) eqn:Ha.
    - right. rewrite (ci_writing c Hi), Ha in Ew. cbn in Ew. apply negb_false_iff, Z.eqb_eq in Ew.
      rewrite bq_readable_spec in Ew by apply Hi. apply zlen_nil_iff in Ew.
      rewrite <- (ci_stream c Hi). unfold out_bytes. by rewrite Ew, app_nil_r.
    - left. pose proof (ci_established c Hi). unfold alive in Ha. by destruct (state_ c). }
  destruct Hi. split; constructor; cbn; try done; [|by left].
  apply Forall_app. split; [done|]. by apply Forall_singleton.
Qed.

Lemma state_eqb_true a b : state_eqb a b = true <-> a = b.
Proof. apply bool_decide_eq_true. Qed.

Lemma alive_connected c : state_ c = kConnected -> alive c = true.
Proof. unfold alive. by intros ->. Qed.

Lemma shutdown_inv c : conn_inv c -> conn_inv (shutdown c) /\ uframe c (shutdown c).
Proof.
  intros Hi. unfold shutdown. destruct (state_eqb (state_ c) kConnected) eqn:E;
    [|by split; [|apply uframe_refl]].
  apply state_eqb_true in E. destruct (set_Disconnecting_inv c Hi (alive_connected c E)) as [H1 F1].
  destruct (shutdownInLoop_inv _ H1) as [H2 F2]. split; [done|by eapply uframe_trans].
Qed.

Lemma set_remotes_inv rs c : conn_inv c -> conn_inv (set_remotes rs c) /\ uframe c (set_remotes rs c).
Proof. intros []. split; constructor; try done. by left. Qed.

Lemma forceClose_inv c : conn_inv c -> conn_inv (forceClose c) /\ uframe c (forceClose c).
Proof.
  intros Hi. unfold forceClose. fold (alive c). destruct (alive c) eqn:E; [|by split; [|apply uframe_refl]].
  destruct (set_Disconnecting_inv c Hi E) as [H1 F1].
  destruct (queueFunctor_inv FForceCloseInLoop _ H1 eq_refl) as [H2 F2]. split; [done|by eapply uframe_trans].
Qed.

Lemma set_delayed_inv n c : conn_inv c -> conn_inv (set_delayed n c) /\ uframe c (set_delayed n c).
Proof. intros []. split; constructor; try done. by left. Qed.

Lemma forceCloseWithDelay_inv c :
  conn_inv c -> conn_inv (forceCloseWithDelay c) /\ uframe c (forceCloseWithDelay c).
Proof.
  intros Hi. unfold forceCloseWithDelay. fold (alive c). destruct (alive c) eqn:E;
    [|by split; [|apply uframe_refl]].
  destruct (set_Disconnecting_inv c Hi E) as [H1 F1].
  destruct (set_delayed_inv (delayed c + 1) _ H1) as [H2 F2]. split; [done|by eapply uframe_trans].
Qed.

(** ** Calls of other threads *)

(** The store of a call that has tested the state comes before the close of
    the connection. *)
Definition remote_ok (r : rcall) (c : conn) : Prop :=
  match r with
  | RShutdown false | RForceClose false | RForceCloseWithDelay false => alive c = true
  | _ => True
  end.

Lemma remote_access_inv i r c : conn_inv c -> remote_ok r c ->
  conn_inv (remote_access i r c) /\ uframe c (remote_access i r c).
Proof.
  intros Hi Hok. assert (forall c' c'', conn_inv c' /\ uframe c c' -> (conn_inv c' -> conn_inv c'' /\ uframe c' c'') ->
    conn_inv c'' /\ uframe c c'') as Hthen.
  { intros c' c'' [H F] Hx. destruct (Hx H). split; [done|by eapply uframe_trans]. }
  destruct r as [data|[]|[]|[]]; cbn [remote_access remote_ok] in *.
  all: try (eapply Hthen; [by apply set_remotes_inv|intros H; first [by apply queueFunctor_inv|by apply set_delayed_inv]]).
  all: eapply Hthen; [by apply set_Disconnecting_inv|intros H; by apply set_remotes_inv].
Qed.

(** ** Sending *)

(** Data that would not make the output buffer too large. *)
Definition out_room (c : conn) (n : Z) : Prop := bq_size (outputBuffer_ c) + n <= max_size.

(** What [sendInLoop] does with the data. *)
Definition dropped (data : list byte) (wr : list byte -> wresult) (c : conn) : Prop :=
  state_ c = kDisconnected \/
  bq_readable (outputBuffer_ c) = 0 /\ exists e, wr data = WErr e /\ (e = EPIPE \/ e = ECONNRESET).

Lemma conn_inv_wrote data c :
  conn_inv c -> out_bytes c = [] ->
  let c' := set_accepted (accepted c ++ data) (set_wire (wire c ++ data) c) in
  conn_inv c' /\ uframe c c'.
Proof.
  intros [] H0 c'. split; constructor; cbn; try done; [|by left].
  unfold out_bytes in *. cbn. rewrite <- ci_stream0, H0, !app_nil_r. done.
Qed.

(** The bytes [w] written, the rest queued, and write interest turned on. *)
Lemma conn_inv_queued w rest out c :
  conn_inv c -> alive c = true -> rest <> [] -> (w = [] \/ out_bytes c = []) ->
  bq_wf out -> bq_contents out = out_bytes c ++ rest ->
  let c3 := set_accepted (accepted c ++ w ++ rest) (set_output out (set_wire (wire c ++ w) c)) in
  let c4 := if isWriting (channel_ c3) then c3 else ch_enableWriting chan c3 in
  conn_inv c4 /\ uframe c c4.
Proof.
  intros [] Ha Hne Hw Hwf Hb c3 c4.
  assert ((bq_readable out =? 0) = false) as Hr.
  { apply Z.eqb_neq. rewrite bq_readable_spec by done. rewrite zlen_nil_iff, Hb.
    intros [_ ?]%app_eq_nil. done. }
  assert (wire c3 ++ out_bytes c3 = accepted c3) as Hs.
  { unfold c3, out_bytes in *. cbn. rewrite Hb, <- ci_stream0.
    destruct Hw as [->|H0]; [by rewrite app_nil_r, app_assoc|]. rewrite H0, app_nil_r. by rewrite <- app_assoc. }
  destruct (isWriting (channel_ c3)) eqn:Ew; subst c4.
  - split; constructor; try done; [|by left]. change (alive c3) with (alive c).
    change (channel_ c3) with (channel_ c) in Ew. cbn. by rewrite Ew, Ha, Hr.
  - split; constructor; try done; [|cbn|cbn|cbn|by left|cbn; congruence].
    + change (alive _) with (alive c). cbn. rewrite Ha, Hr. unfold isWriting. cbn.
      mask ci_events0; rewrite ci_events0; done.
    + mask ci_events0; rewrite ci_events0; vm_compute; set_solver.
    + intros Hs'. unfold alive in Ha. rewrite Hs' in Ha. done.
    + rewrite replay_snoc, ci_calls0. cbn. rewrite Z.eqb_refl, (ci_added0 Ha). done.
Qed.

Lemma set_wire_nil (c : conn) : set_wire (wire c ++ []) c = c.
Proof. destruct c. unfold set_wire. cbn. by rewrite app_nil_r. Qed.

Lemma conn_alive c : conn_inv c -> state_ c <> kDisconnected -> alive c = true.
Proof. intros Hi Hs. pose proof (ci_established c Hi). unfold alive. by destruct (state_ c). Qed.

Lemma out_empty c : conn_inv c -> bq_readable (outputBuffer_ c) = 0 -> out_bytes c = [].
Proof. intros Hi H. rewrite bq_readable_spec in H by apply Hi. by apply zlen_nil_iff. Qed.

(** The part of [sendInLoop] after the direct write, on what remains. *)
Definition send_rest (w rest : list byte) (c : conn) : outcome conn :=
  let oldLen := bq_readable (outputBuffer_ c) in
  let c2 := if (highWaterMark_ c <=? u64 (oldLen + zlen rest)) && (oldLen <? highWaterMark_ c)
               && hasHighWaterMark c
            then queueFunctor (FHighWaterMark (u64 (oldLen + zlen rest))) c else c in
  out ← bq_append (outputBuffer_ c2) rest;
  let c3 := set_accepted (accepted c2 ++ w ++ rest) (set_output out (set_wire (wire c2 ++ w) c2)) in
  Ok (if isWriting (channel_ c3) then c3 else ch_enableWriting chan c3).

Lemma send_rest_inv w rest c :
  conn_inv c -> alive c = true -> rest <> [] -> (w = [] \/ out_bytes c = []) -> out_room c (zlen rest) ->
  exists c', send_rest w rest c = Ok c' /\ conn_inv c' /\ uframe c c' /\
    bq_size (outputBuffer_ c') <= bq_size (outputBuffer_ c) + zlen rest /\
    accepted c' = accepted c ++ w ++ rest.
Proof.
  intros Hi Ha Hne Hw Hroom. unfold send_rest.
  set (c2 := if _ && _ && _ then _ else c).
  assert (conn_inv c2 /\ uframe c c2 /\ outputBuffer_ c2 = outputBuffer_ c /\ accepted c2 = accepted c)
    as (Hi2 & F2 & Ho2 & Hacc).
  { subst c2. destruct (_ && _ && _); [|by split_and!; [|apply uframe_refl|..]].
    destruct (queueFunctor_inv (FHighWaterMark (u64 (bq_readable (outputBuffer_ c) + zlen rest))) c Hi eq_refl).
    done. }
  destruct (bq_append_spec (outputBuffer_ c2) rest) as (out & -> & Hwf & Hb & Hsz);
    [apply Hi2|by rewrite Ho2|]. cbn [mbind outcome_bind].
  assert (out_bytes c2 = out_bytes c) as Hob by (unfold out_bytes; by rewrite Ho2).
  destruct (conn_inv_queued w rest out c2) as [Hi4 F4];
    [done|by rewrite (uframe_alive _ _ F2)|done|by rewrite Hob|done|done|].
  eexists. split; [done|]. split_and!; [done|by eapply uframe_trans| |].
  - destruct (isWriting _); cbn; by rewrite <- Ho2.
  - destruct (isWriting _); cbn; by rewrite Hacc.
Qed.

(** Nothing written: all of the data is queued. *)
Lemma send_queue_all data c : conn_inv c -> alive c = true -> out_room c (zlen data) ->
  forall P : Prop, exists c',
  (if 0 <? zlen data then
     let oldLen := bq_readable (outputBuffer_ c) in
     let c2 := if (highWaterMark_ c <=? u64 (oldLen + zlen data)) && (oldLen <? highWaterMark_ c)
                  && hasHighWaterMark c
               then queueFunctor (FHighWaterMark (u64 (oldLen + zlen data))) c else c in
     out ← bq_append (outputBuffer_ c2) (drop (Z.to_nat 0) data);
     let c3 := set_accepted (accepted c2 ++ data) (set_output out c2) in
     Ok (if isWriting (channel_ c3) then c3 else ch_enableWriting chan c3)
   else Ok (set_accepted (accepted c ++ data) c)) = Ok c' /\ conn_inv c' /\ uframe c c' /\
  bq_size (outputBuffer_ c') <= bq_size (outputBuffer_ c) + zlen data /\
  (accepted c' = accepted c ++ data \/ accepted c' = accepted c /\ P).
Proof.
  intros Hi Ha Hroom P. destruct (Z.ltb_spec 0 (zlen data)) as [Hp|Hp].
  - destruct (send_rest_inv [] data c) as (c' & E & Hi' & F' & Hsz & Hacc);
      [done|done| |by left|done|]. { intros ->. unfold zlen in Hp. cbn in Hp. lia. }
    exists c'. split; [|split_and!; [done|done|done|by left]]. rewrite <- E. unfold send_rest.
    cbn zeta. change (drop (Z.to_nat 0) data) with data. rewrite app_nil_l.
    match goal with |- context [if ?b then queueFunctor ?f c else c] =>
      set (c2 := if b then queueFunctor f c else c) end.
    by rewrite (set_wire_nil c2).
  - assert (data = []) as -> by (apply zlen_nil_iff; pose proof (zlen_nonneg data); lia).
    rewrite app_nil_r. exists c. split; [by destruct c|]. split_and!; [done|apply uframe_refl|unfold zlen; cbn; lia|by left].
Qed.

Lemma sendInLoop_inv data wr c :
  conn_inv c -> write_spec wr -> out_room c (zlen data) -> zlen data <= max_size ->
  exists c', sendInLoop chan data wr c = Ok c' /\ conn_inv c' /\ uframe c c' /\
    bq_size (outputBuffer_ c') <= bq_size (outputBuffer_ c) + zlen data /\
    (accepted c' = accepted c ++ data \/ accepted c' = accepted c /\ dropped data wr c).
Proof.
  intros Hi Hwr Hroom Hmax. pose proof (zlen_nonneg data) as Hpos. unfold sendInLoop.
  destruct (state_eqb (state_ c) kDisconnected) eqn:Es.
  { apply state_eqb_true in Es. exists c. split_and!; [done|done|apply uframe_refl|lia|]. right. by split; [|left]. }
  assert (alive c = true) as Ha.
  { apply conn_alive; [done|]. intros E. rewrite E in Es. done. }
  unfold direct_write. rewrite (ci_writing c Hi), Ha. cbn [andb].
  destruct (Z.eqb_spec (bq_readable (outputBuffer_ c)) 0) as [H0|H0]; cbn [negb andb].
  - pose proof (out_empty c Hi H0) as Hob. specialize (Hwr data).
    destruct (wr data) as [n|e] eqn:Ew.
    + assert (u64 (zlen data - n) = zlen data - n) as Hu by (apply u64_small; unfold max_size in *; lia).
      rewrite Hu. unfold c_assert. destruct (Z.leb_spec (zlen data - n) (zlen data)); [|lia].
      cbn [mbind outcome_bind negb andb].
      destruct (Z.ltb_spec 0 (zlen data - n)) as [Hrem|Hrem].
      * destruct (Z.eqb_spec (zlen data - n) 0); [lia|]. cbn [andb].
        destruct (send_rest_inv (take (Z.to_nat n) data) (drop (Z.to_nat n) data) c)
          as (c' & E & Hi' & F' & Hsz & Hacc).
        { done. } { done. }
        { intros Hd. apply (f_equal length) in Hd. rewrite length_drop in Hd. unfold zlen in *. cbn in Hd. lia. }
        { by right. } { unfold out_room in *. unfold zlen in *. rewrite length_drop. lia. }
        exists c'. rewrite take_drop in Hacc. split; [|split_and!; [done|done| |by left]].
        -- rewrite <- E. unfold send_rest. assert (zlen (drop (Z.to_nat n) data) = zlen data - n) as ->
             by (unfold zlen in *; rewrite length_drop; lia). rewrite take_drop.
           cbn. by destruct (_ && _ && _).
        -- unfold zlen in *. rewrite length_drop in Hsz. lia.
      * assert (n = zlen data) as -> by lia. rewrite Z.sub_diag. cbn [Z.eqb andb].
        assert (take (Z.to_nat (zlen data)) data = data) as -> by (apply take_ge; unfold zlen; lia).
        destruct (conn_inv_wrote data c Hi Hob) as [Hi' F'].
        destruct (hasWriteComplete c).
        -- destruct (queueFunctor_inv FWriteComplete _ Hi' eq_refl) as [Hi2 F2].
           eexists. split; [done|]. split_and!; [exact Hi2|by eapply uframe_trans|cbn; lia|by left].
        -- eexists. split; [done|]. split_and!; [done|done|cbn; lia|by left].
    + unfold c_assert. rewrite Z.leb_refl. cbn [mbind outcome_bind].
      destruct (negb (e =? EWOULDBLOCK) && ((e =? EPIPE) || (e =? ECONNRESET))) eqn:Ef; cbn [negb andb].
      * exists c. split_and!; [done|done|apply uframe_refl|lia|]. right. split; [done|]. right.
        split; [done|]. exists e. split; [done|].
        apply andb_true_iff in Ef as [_ Ef]. rewrite orb_true_iff, !Z.eqb_eq in Ef. done.
      * apply (send_queue_all data c Hi Ha Hroom).
  - unfold c_assert. rewrite Z.leb_refl. cbn [mbind outcome_bind negb andb].
    apply (send_queue_all data c Hi Ha Hroom).
Qed.

(** ** User callbacks *)

Definition ua_cost (a : uaction) : Z := match a with USend data _ => zlen data | _ => 0 end.

Fixpoint ua_costs (l : list uaction) : Z :=
  match l with [] => 0 | a :: l' => ua_cost a + ua_costs l' end.

Definition ua_ok (a : uaction) : Prop :=
  match a with USend data wr => write_spec wr /\ zlen data <= max_size | _ => True end.

(** Calls that touch the channel's read interest. *)
Definition ua_quiet (a : uaction) : bool :=
  match a with UStartRead | UStopRead => false | _ => true end.

Definition size (c : conn) : Z := bq_size (outputBuffer_ c).

Lemma ua_cost_nonneg a : 0 <= ua_cost a.
Proof. destruct a; cbn; try lia. apply zlen_nonneg. Qed.

Lemma ua_costs_nonneg l : 0 <= ua_costs l.
Proof. induction l as [|a l IH]; cbn; [lia|]. pose proof (ua_cost_nonneg a). lia. Qed.

Lemma set_input_inv b c : conn_inv c -> wf b -> zlen (buffer_ b) = zlen (buffer_ (inputBuffer_ c)) ->
  conn_inv (set_input b c) /\ uframe c (set_input b c).
Proof. intros [] Hb Hl. split; constructor; try done. by left. Qed.

Lemma run_uaction_inv a c :
  conn_inv c -> ua_ok a -> alive c = true \/ ua_quiet a = true -> size c + ua_cost a <= max_size ->
  exists c', run_uaction chan c a = Ok c' /\ conn_inv c' /\ uframe c c' /\ size c' <= size c + ua_cost a.
Proof.
  intros Hi Hok Hq Hroom. destruct a as [data wr| | | | | |n]; cbn in Hok, Hroom |- *; unfold size in *.
  - unfold send. destruct (state_eqb _ _).
    + destruct Hok as [Hwr Hm].
      destruct (sendInLoop_inv data wr c Hi Hwr Hroom Hm) as (c' & -> & ? & ? & ? & _). eauto.
    + pose proof (zlen_nonneg data). exists c. split_and!; [done|done|apply uframe_refl|lia].
  - destruct (shutdown_inv c Hi). eexists. split_and!; [done|done|done|].
    unfold shutdown, shutdownInLoop. repeat case_match; cbn; lia.
  - destruct (forceClose_inv c Hi). eexists. split_and!; [done|done|done|].
    unfold forceClose. repeat case_match; cbn; lia.
  - destruct (forceCloseWithDelay_inv c Hi). eexists. split_and!; [done|done|done|].
    unfold forceCloseWithDelay. repeat case_match; cbn; lia.
  - destruct Hq as [Ha|?]; [|done]. destruct (startReadInLoop_inv c Hi Ha).
    eexists. split_and!; [done|done|done|]. unfold startReadInLoop. repeat case_match; cbn; lia.
  - destruct Hq as [Ha|?]; [|done]. destruct (stopReadInLoop_inv c Hi Ha).
    eexists. split_and!; [done|done|done|]. unfold stopReadInLoop. repeat case_match; cbn; lia.
  - assert (exists b, (if (0 <=? n) && (n <=? readableBytes (inputBuffer_ c))
      then retrieve (inputBuffer_ c) n else Ok (retrieveAll (inputBuffer_ c))) = Ok b /\ wf b /\
      zlen (buffer_ b) = zlen (buffer_ (inputBuffer_ c))) as (b & -> & Hwf & Hl).
    { destruct ((0 <=? n) && (n <=? readableBytes (inputBuffer_ c))) eqn:E.
      - apply andb_true_iff in E as [?%Z.leb_le ?%Z.leb_le].
        destruct (retrieve_ok (inputBuffer_ c) n) as (b & ? & ? & _ & Hb); [apply Hi|done|].
        exists b. by rewrite Hb.
      - exists (retrieveAll (inputBuffer_ c)). pose proof (ci_input c Hi) as Hw.
        split_and!; [done| |done]. unfold retrieveAll. buf. lia. }
    cbn. destruct (set_input_inv b c Hi Hwf Hl). eexists. split_and!; [done|done|done|cbn; lia].
Qed.

Lemma run_uactions_inv l : forall c,
  conn_inv c -> Forall ua_ok l -> alive c = true \/ Forall (fun a => ua_quiet a = true) l ->
  size c + ua_costs l <= max_size ->
  exists c', foldM (run_uaction chan) c l = Ok c' /\ conn_inv c' /\ uframe c c' /\
    size c' <= size c + ua_costs l.
Proof.
  induction l as [|a l IH]; intros c Hi Hok Hq Hroom; cbn in *.
  - exists c. split_and!; [done|done|apply uframe_refl|lia].
  - apply Forall_cons in Hok as [Ho1 Ho2]. pose proof (ua_costs_nonneg l). pose proof (ua_cost_nonneg a).
    destruct (run_uaction_inv a c Hi Ho1) as (c1 & -> & Hi1 & F1 & Hs1); [|lia|].
    { destruct Hq as [?|[? _]%Forall_cons]; auto. }
    cbn. destruct (IH c1 Hi1 Ho2) as (c2 & -> & Hi2 & F2 & Hs2); [|lia|].
    { destruct Hq as [?|[_ ?]%Forall_cons]; [left; by rewrite (uframe_alive _ _ F1)|by right]. }
    exists c2. split_and!; [done|done|by eapply uframe_trans|lia].
Qed.

Lemma report_inv e c : conn_inv c -> conn_inv (report e c).
Proof. intros []. by constructor. Qed.

(** The user's callbacks: well-behaved writes, and no change of read interest
    once the connection is down. *)
Definition user_ok : Prop := forall e, Forall ua_ok (user e).
Definition quiet_on (e : cevent) : Prop := Forall (fun a => ua_quiet a = true) (user e).

Lemma call_user_inv e c :
  user_ok -> conn_inv c -> alive c = true \/ quiet_on e -> size c + ua_costs (user e) <= max_size ->
  exists c', call_user chan user e c = Ok c' /\ conn_inv c' /\ uframe (report e c) c' /\
    size c' <= size c + ua_costs (user e).
Proof.
  intros Hu Hi Hq Hroom. apply (run_uactions_inv (user e) (report e c)); [by apply report_inv|done|done|done].
Qed.

(** ** Closing *)

(** What an event handler leaves alone on the channel. *)
Record dframe (c c' : conn) : Prop := mkDframe {
  df_revents : revents_ (channel_ c') = revents_ (channel_ c);
  df_handling : eventHandling_ (channel_ c') = eventHandling_ (channel_ c);
  df_fd : fd_ (channel_ c') = fd_ (channel_ c);
  df_tied : tied_ (channel_ c') = tied_ (channel_ c);
}.

(** The same for a whole step. *)
Definition same_chan (c c' : conn) : Prop :=
  eventHandling_ (channel_ c') = eventHandling_ (channel_ c) /\ fd_ (channel_ c') = fd_ (channel_ c).

Lemma dframe_refl c : dframe c c.
Proof. done. Qed.

Lemma dframe_trans c1 c2 c3 : dframe c1 c2 -> dframe c2 c3 -> dframe c1 c3.
Proof. intros [] []. constructor; congruence. Qed.

Lemma uframe_dframe c c' : uframe c c' -> dframe c c'.
Proof. intros []. by constructor. Qed.

Definition closing (c : conn) : conn := ch_disableAll chan (set_state kDisconnected c).

Lemma closing_inv c : conn_inv c -> alive c = true -> conn_inv (closing c).
Proof.
  intros [] Ha. constructor; cbn; try done; [vm_compute; set_solver|].
  rewrite replay_snoc, ci_calls0. cbn. rewrite Z.eqb_refl, (ci_added0 Ha). done.
Qed.

Lemma count_snoc {A} (f : A -> bool) l x : count f (l ++ [x]) = (count f l + if f x then 1 else 0)%nat.
Proof. rewrite count_app. unfold count. cbn. by destruct (f x). Qed.

Section Bounded.

Context (U : Z).
Hypothesis Huser : user_ok.
Hypothesis Hcost : forall e, ua_costs (user e) <= U.
Hypothesis Hdown : quiet_on (EvConnection false).
Hypothesis Hclose : quiet_on EvClose.

Lemma U_nonneg : 0 <= U.
Proof. pose proof (ua_costs_nonneg (user EvClose)). pose proof (Hcost EvClose). lia. Qed.

Lemma handleClose_inv c :
  conn_inv c -> life c -> alive c = true -> size c + 2 * U <= max_size ->
  exists c', handleClose chan user c = Ok c' /\ conn_inv c' /\ life c' /\ alive c' = false /\
    dframe c c' /\ size c' <= size c + 2 * U.
Proof.
  intros Hi [L1 L2 L3 L4] Ha Hroom. unfold handleClose. fold (alive c). rewrite Ha. cbn [c_assert mbind outcome_bind].
  fold (closing c). pose proof (closing_inv c Hi Ha) as Hi1. rewrite Ha in L2, L3, L4.
  pose proof (Hcost (EvConnection false)). pose proof (Hcost EvClose). pose proof U_nonneg.
  unfold connectionCallback. change (connected (closing c)) with false.
  destruct (call_user_inv (EvConnection false) (closing c)) as (c1 & -> & Hi2 & F2 & Hs2);
    [done|done|by right|unfold size in *; cbn; lia|].
  change (size (closing c)) with (size c) in Hs2. cbn [mbind outcome_bind]. unfold closeCallback.
  destruct (call_user_inv EvClose c1) as (c2 & -> & Hi3 & F3 & Hs3); [done|done|by right|lia|].
  cbn [mbind outcome_bind]. eexists. split; [done|].
  assert (alive c1 = false) as A1 by (by rewrite (uframe_alive _ _ F2)).
  assert (alive c2 = false) as A2 by (by rewrite (uframe_alive _ _ F3)).
  pose proof (uf_clog _ _ F2) as G2. pose proof (uf_clog _ _ F3) as G3. cbn in G2, G3.
  pose proof (uf_queue _ _ F2) as Q2. pose proof (uf_queue _ _ F3) as Q3. cbn in Q2, Q3.
  split_and!; cbn.
  - destruct Hi3. by constructor.
  - constructor; cbn; change (alive (queueFunctor _ c2)) with (alive c2); rewrite ?A2.
    + by rewrite G3, G2, !count_snoc, L1.
    + by rewrite G3, G2, !count_snoc, L2.
    + by rewrite G3, G2, !count_snoc, L3.
    + rewrite count_snoc, Q3, Q2, L4. cbn.
      rewrite (uf_added _ _ F3) by done. cbn. rewrite (uf_added _ _ F2) by done. done.
  - done.
  - apply dframe_trans with c1; [|apply dframe_trans with c2; [|by constructor]].
    + apply dframe_trans with (report (EvConnection false) (closing c)); [by constructor|by apply uframe_dframe].
    + apply dframe_trans with (report EvClose c1); [by constructor|by apply uframe_dframe].
  - unfold size in *. cbn. lia.
Qed.

(** The state after a callback of a live or dead connection. *)
Lemma call_user_life e c :
  conn_inv c -> life c -> alive c = true \/ quiet_on e -> size c + U <= max_size ->
  ev_up e = false -> ev_down e = false -> ev_close e = false ->
  exists c', call_user chan user e c = Ok c' /\ conn_inv c' /\ life c' /\ alive c' = alive c /\
    dframe c c' /\ size c' <= size c + U.
Proof.
  intros Hi Hl Hq Hroom N1 N2 N3. pose proof (Hcost e).
  destruct (call_user_inv e c) as (c' & -> & Hi' & F & Hs); [done|done|done|lia|].
  assert (life (report e c)) as Hl'.
  { destruct Hl as [L1 L2 L3 L4]. constructor; cbn; change (alive (report e c)) with (alive c);
      rewrite ?count_snoc, ?N1, ?N2, ?N3, ?Nat.add_0_r; done. }
  exists c'. split_and!; [done|done|by eapply life_uframe|by rewrite (uframe_alive _ _ F)| |lia].
  apply dframe_trans with (report e c); [by constructor|by apply uframe_dframe].
Qed.

(** ** Event handlers *)

Definition in_room (c : conn) : Prop := zlen (buffer_ (inputBuffer_ c)) + sizeof_extrabuf <= max_size.

Lemma conn_handleRead_inv readv c :
  readv_spec readv -> conn_inv c -> life c -> alive c = true -> in_room c -> size c + 2 * U <= max_size ->
  exists c', conn_handleRead chan user readv c = Ok c' /\ conn_inv c' /\ life c' /\
    dframe c c' /\ size c' <= size c + 2 * U.
Proof.
  intros Hrv Hi Hl Ha Hin Hroom. pose proof U_nonneg. unfold conn_handleRead.
  destruct (readFd_ok readv Hrv (inputBuffer_ c) (ci_input c Hi) Hin) as (saved & b & -> & Hwf & _).
  cbn [mbind outcome_bind]. set (n := rv_n _).
  assert (conn_inv (set_input b c)) as Hi1 by (destruct Hi; by constructor).
  assert (life (set_input b c)) as Hl1 by (destruct Hl; by constructor).
  destruct (0 <? n).
  - destruct (call_user_life (EvMessage (readableBytes b)) (set_input b c))
      as (c' & -> & ? & ? & _ & Hd & Hs); [done|done|by left|unfold size in *; cbn; lia|done..|].
    exists c'. split_and!; [done|done|done| |unfold size in *; cbn in Hs; lia].
    eapply dframe_trans; [|done]. by constructor.
  - destruct (n =? 0).
    + destruct (handleClose_inv (set_input b c)) as (c' & -> & ? & ? & _ & Hd & Hs); [done..|].
      exists c'. split_and!; [done|done|done| |done]. eapply dframe_trans; [|done]. by constructor.
    + eexists. split; [done|]. split_and!; [done|done|by constructor|unfold size in *; cbn; lia].
Qed.

Lemma disableWriting_drained c out w :
  conn_inv c -> alive c = true -> isWriting (channel_ c) = true -> bq_wf out ->
  out_bytes c = w -> bq_readable out = 0 ->
  let c2 := ch_disableWriting chan (set_output out (set_wire (wire c ++ w) c)) in
  conn_inv c2 /\ uframe c c2.
Proof.
  intros [] Ha Hw Hwf Hob H0 c2.
  assert (bq_contents out = []) as Hnil by (rewrite bq_readable_spec in H0 by done; by apply zlen_nil_iff).
  split; constructor; try done; [|cbn|cbn|cbn|cbn|by left|cbn; congruence].
  - unfold c2, out_bytes in *. cbn. by rewrite Hnil, app_nil_r, <- ci_stream0, Hob.
  - change (alive c2) with (alive c). rewrite Ha, H0. unfold isWriting. cbn. mask ci_events0; rewrite ci_events0; done.
  - mask ci_events0; rewrite ci_events0; vm_compute; set_solver.
  - intros Hs. unfold alive in Ha. rewrite Hs in Ha. done.
  - rewrite replay_snoc, ci_calls0. cbn. rewrite Z.eqb_refl, (ci_added0 Ha). done.
Qed.

Lemma handleWrite_inv wr c :
  write_spec wr -> conn_inv c -> exists c', handleWrite chan wr c = Ok c' /\ conn_inv c' /\ uframe c c' /\
    size c' <= size c.
Proof.
  intros Hwr Hi. unfold handleWrite.
  assert (forall c0, c0 = c -> exists c', Ok c0 = Ok c' /\ conn_inv c' /\ uframe c c' /\ size c' <= size c) as Hnop
    by (intros c0 ->; exists c; split_and!; [done|done|apply uframe_refl|lia]).
  destruct (isWriting (channel_ c)) eqn:Ew; [|by apply Hnop].
  pose proof Ew as Ew'. rewrite (ci_writing c Hi) in Ew'. apply andb_true_iff in Ew' as [Ha Hne].
  specialize (Hwr (bq_contents (outputBuffer_ c))). destruct (wr _) as [n|]; [|by apply Hnop].
  destruct (Z.ltb_spec 0 n); [|by apply Hnop].
  destruct (bq_retrieve_spec (outputBuffer_ c) n) as (out & E & Hwf & Hb & Hsz); [apply Hi|lia|].
  cbn [outputBuffer_ set_wire]. rewrite E. cbn [mbind outcome_bind].
  destruct (Z.eqb_spec (bq_readable out) 0) as [H0|H0].
  - assert (take (Z.to_nat n) (bq_contents (outputBuffer_ c)) = out_bytes c) as ->.
    { apply take_ge. rewrite bq_readable_spec, Hb in H0 by done. unfold zlen in *. rewrite length_drop in H0. unfold out_bytes. lia. }
    destruct (disableWriting_drained c out (out_bytes c)) as [Hi2 F2]; [done..|].
    set (c2 := ch_disableWriting chan _) in *. set (c3 := if hasWriteComplete c2 then _ else c2).
    assert (conn_inv c3 /\ uframe c2 c3 /\ outputBuffer_ c3 = out) as (Hi3 & F3 & Ho3).
    { subst c3. destruct (hasWriteComplete c2); [|by split_and!; [|apply uframe_refl|]].
      by destruct (queueFunctor_inv FWriteComplete c2 Hi2 eq_refl). }
    assert (uframe c c3) as Fc3 by (by eapply uframe_trans). clearbody c3.
    destruct (state_eqb (state_ c3) kDisconnecting) eqn:Es.
    + destruct (shutdownInLoop_inv c3 Hi3) as [Hi4 F4].
      eexists. split_and!; [done|done|by eapply uframe_trans|].
      unfold size. replace (outputBuffer_ (shutdownInLoop c3)) with out; [lia|].
      unfold shutdownInLoop. by destruct (isWriting (channel_ c3)).
    + exists c3. split_and!; [done|done|done|]. unfold size. rewrite Ho3. lia.
  - eexists. split; [done|]. destruct Hi. split_and!; [|constructor; try done; by left|unfold size; cbn; lia].
    constructor; try done; cbn.
    + rewrite <- ci_stream0. unfold out_bytes. cbn. rewrite Hb, <- app_assoc, take_drop. done.
    + change (alive _) with (alive c). rewrite Ew, Ha. by destruct (Z.eqb_spec (bq_readable out) 0).
Qed.

(** ** Dispatch of poll events *)

Lemma set_channel_inv ch c : conn_inv c -> events_ ch = events_ (channel_ c) ->
  fd_ ch = fd_ (channel_ c) -> addedToLoop_ ch = addedToLoop_ (channel_ c) -> callbacks_ ch = callbacks_ (channel_ c) ->
  conn_inv (set_channel ch c).
Proof.
  intros [] He Hf Ha Hc. constructor; cbn; unfold isWriting in *; rewrite ?He, ?Hf, ?Ha, ?Hc; done.
Qed.

Lemma set_channel_life ch c : life c -> addedToLoop_ ch = addedToLoop_ (channel_ c) -> life (set_channel ch c).
Proof. intros [] Ha. constructor; cbn; rewrite ?Ha; done. Qed.

(** Received events that close and also ask to read are left out: the close
    handler has already taken the connection down. *)
Definition revents_ok (r : Z) : Prop :=
  has r POLLHUP && negb (has r POLLIN) = true -> has r (Z.lor POLLIN (Z.lor POLLPRI POLLRDHUP)) = false.

Definition good (c c' : conn) (n : Z) : Prop :=
  conn_inv c' /\ life c' /\ dframe c c' /\ size c' <= size c + n.

Lemma good_refl c n : conn_inv c -> life c -> 0 <= n -> good c c n.
Proof. intros. split_and!; [done|done|apply dframe_refl|lia]. Qed.

Lemma good_trans c1 c2 c3 n m : good c1 c2 n -> good c2 c3 m -> good c1 c3 (n + m).
Proof.
  intros (_ & _ & D1 & S1) (? & ? & D2 & S2). split_and!; [done|done|by eapply dframe_trans|lia].
Qed.

Lemma all_callbacks cb c : conn_inv c -> bool_decide (cb ∈ callbacks_ (channel_ c)) = true.
Proof. intros Hi. rewrite (ci_callbacks c Hi). by destruct cb. Qed.

Lemma fire_eq (run : callback -> conn -> outcome conn) cond cb c : conn_inv c ->
  fire channel_ run cond cb c = if cond (revents_ (channel_ c)) then run cb c else Ok c.
Proof. intros Hi. unfold fire. rewrite (all_callbacks cb c Hi), andb_true_r. done. Qed.

Lemma dispatch_inv readv wr c :
  readv_spec readv -> write_spec wr -> conn_inv c -> life c -> alive c = true -> in_room c ->
  size c + 2 * U <= max_size -> revents_ok (revents_ (channel_ c)) ->
  exists c', handleEventWithGuard channel_ set_channel (channel_callback chan user readv wr) c = Ok c' /\
    conn_inv c' /\ life c' /\ eventHandling_ (channel_ c') = false /\
    fd_ (channel_ c') = fd_ (channel_ c) /\ size c' <= size c + 2 * U.
Proof.
  intros Hrv Hwr Hi Hl Ha Hin Hroom Hr. pose proof U_nonneg. unfold handleEventWithGuard.
  set (c0 := set_channel _ c).
  assert (conn_inv c0) as Hi0 by (by apply set_channel_inv).
  assert (life c0) as Hl0 by (by apply set_channel_life).
  set (r := revents_ (channel_ c)). fold r in Hr.
  assert (exists c3, (s1 ← fire channel_ (channel_callback chan user readv wr)
      (fun r => has r POLLHUP && negb (has r POLLIN)) CloseCallback c0;
    s2 ← fire channel_ (channel_callback chan user readv wr)
      (fun r => has r (Z.lor POLLERR POLLNVAL)) ErrorCallback s1;
    fire channel_ (channel_callback chan user readv wr)
      (fun r => has r (Z.lor POLLIN (Z.lor POLLPRI POLLRDHUP))) ReadCallback s2) = Ok c3 /\
    good c0 c3 (2 * U)) as (c3 & E3 & Hi3 & Hl3 & D3 & S3).
  { rewrite (fire_eq _ _ _ c0 Hi0). change (revents_ (channel_ c0)) with r.
    destruct (has r POLLHUP && negb (has r POLLIN)) eqn:Eh.
    - destruct (handleClose_inv c0) as (c1 & E1 & Hi1 & Hl1 & _ & D1 & S1); [done|done|done|done|].
      cbn [channel_callback]. rewrite E1. cbn [mbind outcome_bind].
      assert (revents_ (channel_ c1) = r) as Hr1 by (by rewrite (df_revents _ _ D1)).
      rewrite (fire_eq _ _ _ c1 Hi1), Hr1. cbn [channel_callback]. unfold handleError.
      exists c1. split; [|done].
      destruct (has r (Z.lor POLLERR POLLNVAL)); cbn [mbind outcome_bind];
        rewrite (fire_eq _ _ _ c1 Hi1), Hr1, (Hr Eh); done.
    - cbn [mbind outcome_bind]. rewrite (fire_eq _ _ _ c0 Hi0). cbn [channel_callback]. unfold handleError.
      assert (exists c3, fire channel_ (channel_callback chan user readv wr)
        (fun r => has r (Z.lor POLLIN (Z.lor POLLPRI POLLRDHUP))) ReadCallback c0 = Ok c3 /\
        good c0 c3 (2 * U)) as (c3 & E3 & G3).
      { rewrite (fire_eq _ _ _ c0 Hi0). destruct (has (revents_ _) _).
        - destruct (conn_handleRead_inv readv c0 Hrv Hi0 Hl0 Ha Hin Hroom) as (c3 & E3 & ? & ? & ? & ?).
          exists c3. split; [done|]. by split_and!.
        - exists c0. split; [done|]. apply good_refl; [done|done|lia]. }
      exists c3. split; [|done]. destruct (has (revents_ (channel_ c0)) (Z.lor POLLERR POLLNVAL)); exact E3. }
  destruct (fire _ _ _ CloseCallback c0) as [s1|]; cbn [mbind outcome_bind] in *; [|done].
  destruct (fire _ _ _ ErrorCallback s1) as [s2|]; cbn [mbind outcome_bind] in *; [|done].
  rewrite E3. cbn [mbind outcome_bind]. rewrite (fire_eq _ _ _ c3 Hi3).
  assert (exists c4, (if has (revents_ (channel_ c3)) POLLOUT then channel_callback chan user readv wr WriteCallback c3
    else Ok c3) = Ok c4 /\ conn_inv c4 /\ life c4 /\ fd_ (channel_ c4) = fd_ (channel_ c3) /\
    size c4 <= size c3) as (c4 & -> & Hi4 & Hl4 & D4 & S4).
  { destruct (has _ _); [|exists c3; split_and!; done || lia]. cbn [channel_callback].
    destruct (handleWrite_inv wr c3 Hwr Hi3) as (c4 & -> & ? & F4 & ?). exists c4.
    split_and!; [done|done|by eapply life_uframe|apply (uf_fd _ _ F4)|done]. }
  cbn [mbind outcome_bind]. eexists. split; [done|]. split_and!.
  - by apply set_channel_inv.
  - by apply set_channel_life.
  - done.
  - cbn. rewrite D4. apply (df_fd _ _ D3).
  - change (size (set_channel _ c4)) with (size c4). change (size c0) with (size c) in S3. lia.
Qed.

(** ** Functors *)

Lemma set_queue_inv fs c : conn_inv c -> conn_inv (set_queue fs c).
Proof. intros []. by constructor. Qed.

Lemma pop_life f fs c : life c -> queue c = f :: fs -> is_destroy f = false -> life (set_queue fs c).
Proof.
  intros [L1 L2 L3 L4] Hq Hf. constructor; try done. cbn.
  change (alive (set_queue fs c)) with (alive c). rewrite <- L4, Hq. unfold count. cbn. by rewrite Hf.
Qed.

(** [connectDestroyed] is queued once, after the connection went down. *)
Lemma pop_destroy fs c : conn_inv c -> life c -> queue c = FConnectDestroyed :: fs ->
  state_ c = kDisconnected /\ addedToLoop_ (channel_ c) = true /\ count is_destroy fs = 0%nat.
Proof.
  intros Hi [_ _ _ L4] Hq. rewrite Hq in L4. unfold count in L4 |- *. cbn in L4.
  pose proof (ci_established c Hi). unfold alive in L4. destruct (state_ c); cbn in L4; try done.
  destruct (addedToLoop_ (channel_ c)); [|done]. split_and!; [done|done|]. change (state_eqb kDisconnected kConnected || state_eqb kDisconnected kDisconnecting) with false in L4. cbn in L4. lia.
Qed.

Lemma connectDestroyed_inv fs c : conn_inv c -> life c -> queue c = FConnectDestroyed :: fs ->
  exists c', connectDestroyed chan user (set_queue fs c) = Ok c' /\ conn_inv c' /\ life c' /\
    size c' = size c /\ addedToLoop_ (channel_ c') = false /\ state_ c' = kDisconnected /\ same_chan c c'.
Proof.
  intros Hi Hl Hq. destruct (pop_destroy fs c Hi Hl Hq) as (Hs & Ha & Hc).
  pose proof (ci_closed c Hi Hs) as He. unfold connectDestroyed.
  cbn [state_ set_queue]. rewrite Hs. change (state_eqb kDisconnected kConnected) with false.
  cbn [mbind outcome_bind]. unfold ch_remove.
  assert (isNoneEvent (channel_ (set_queue fs c)) = true) as -> by (by apply isNoneEvent_spec).
  cbn [c_assert mbind outcome_bind]. eexists. split; [done|].
  assert (forall x y z, alive (set_calls x (set_channel y (set_queue z c))) = false) as Hdead
    by (intros; unfold alive; cbn; by rewrite Hs).
  destruct Hl as [L1 L2 L3 L4]. destruct Hi. split_and!; try done.
  - constructor; cbn; try done.
    + by rewrite Hdead.
    + rewrite replay_snoc, ci_calls0. cbn. rewrite Z.eqb_refl, Ha, He. done.
  - assert (alive c = false) as A by (unfold alive; by rewrite Hs).
    constructor; cbn; rewrite ?Hdead, ?A in *; done.
Qed.

Definition functor_room (c : conn) (f : cfunctor) : Prop :=
  match f with
  | FSendInLoop data => size c + zlen data <= max_size /\ zlen data <= max_size
  | _ => size c + 2 * U <= max_size
  end.

(** Functors that must not find the connection down, or must be quiet then. *)
Definition functor_ok (c : conn) (f : cfunctor) : Prop :=
  match f with
  | FStartReadInLoop | FStopReadInLoop => alive c = true
  | FWriteComplete => alive c = true \/ quiet_on EvWriteComplete
  | FHighWaterMark len => alive c = true \/ quiet_on (EvHighWaterMark len)
  | _ => True
  end.

Lemma run_functor_inv wr f fs c :
  write_spec wr -> conn_inv c -> life c -> queue c = f :: fs -> functor_room c f -> functor_ok c f ->
  exists c', run_cfunctor chan user wr f (set_queue fs c) = Ok c' /\ conn_inv c' /\ life c' /\ same_chan c c'.
Proof.
  intros Hwr Hi Hl Hq Hroom Hok. pose proof U_nonneg. pose proof (set_queue_inv fs c Hi) as Hi0.
  assert (forall c', uframe (set_queue fs c) c' -> is_destroy f = false -> life c') as Hlife
    by (intros c' F Hf; eapply life_uframe; [by eapply pop_life|done]).
  assert (forall c', conn_inv c' /\ uframe (set_queue fs c) c' -> is_destroy f = false ->
    conn_inv c' /\ life c' /\ same_chan c c') as Hu
    by (intros c' [? F] ?; split_and!; [done|by apply Hlife|split; [apply (uf_handling _ _ F)|apply (uf_fd _ _ F)]]).
  destruct f as [data| | | | | |len|]; cbn [run_cfunctor functor_room functor_ok] in *.
  - destruct Hroom as [Hr1 Hr2].
    destruct (sendInLoop_inv data wr (set_queue fs c) Hi0 Hwr Hr1 Hr2) as (c' & -> & ? & ? & _). eauto.
  - pose proof (shutdownInLoop_inv _ Hi0). eauto.
  - unfold forceCloseInLoop. fold (alive (set_queue fs c)). destruct (alive (set_queue fs c)) eqn:E.
    + destruct (handleClose_inv (set_queue fs c)) as (c' & -> & ? & ? & _ & D & _);
        [done|by eapply pop_life|done|done|].
      exists c'. split_and!; [done|done|done|split; [apply (df_handling _ _ D)|apply (df_fd _ _ D)]].
    + eexists. split_and!; [done|done|by eapply pop_life|done].
  - pose proof (startReadInLoop_inv _ Hi0 Hok). eauto.
  - pose proof (stopReadInLoop_inv _ Hi0 Hok). eauto.
  - destruct (call_user_life EvWriteComplete (set_queue fs c)) as (c' & -> & ? & ? & _ & D & _);
      [done|by eapply pop_life|done|unfold size in *; cbn; lia|done..|].
    exists c'. split_and!; [done|done|done|split; [apply (df_handling _ _ D)|apply (df_fd _ _ D)]].
  - destruct (call_user_life (EvHighWaterMark len) (set_queue fs c)) as (c' & -> & ? & ? & _ & D & _);
      [done|by eapply pop_life|done|unfold size in *; cbn; lia|done..|].
    exists c'. split_and!; [done|done|done|split; [apply (df_handling _ _ D)|apply (df_fd _ _ D)]].
  - destruct (connectDestroyed_inv fs c Hi Hl Hq) as (c' & -> & ? & ? & _ & _ & _ & ?). eauto.
Qed.

(** ** Steps and runs *)

Definition step_ok (c : conn) (l : conn_label) : Prop :=
  match l with
  | LEvent r readv wr =>
      events_ (channel_ c) <> 0 /\ readv_spec readv /\ write_spec wr /\ revents_ok r /\
      in_room c /\ size c + 2 * U <= max_size
  | LRemote i => match remotes c !! i with Some r => remote_ok r c | None => True end
  | LRunFunctor wr =>
      write_spec wr /\ match queue c with [] => True | f :: _ => functor_room c f /\ functor_ok c f end
  | _ => True
  end.

Lemma events_alive c : conn_inv c -> events_ (channel_ c) <> 0 -> alive c = true.
Proof. intros Hi He. apply conn_alive; [done|]. intros Hs. by apply He, (ci_closed c Hi). Qed.

Lemma conn_step_inv c l : conn_inv c -> life c -> eventHandling_ (channel_ c) = false -> step_ok c l ->
  exists c', conn_step chan user c l = Ok c' /\ conn_inv c' /\ life c' /\
    eventHandling_ (channel_ c') = false /\ fd_ (channel_ c') = fd_ (channel_ c).
Proof.
  intros Hi Hl Hh Hok. assert (forall c', conn_inv c' /\ uframe c c' ->
    exists c'', Ok c' = Ok c'' /\ conn_inv c'' /\ life c'' /\ eventHandling_ (channel_ c'') = false /\
      fd_ (channel_ c'') = fd_ (channel_ c)) as Hu.
  { intros c' [? F]. exists c'.
    split_and!; [done|done|by eapply life_uframe|by rewrite (uf_handling _ _ F)|apply (uf_fd _ _ F)]. }
  destruct l as [r readv wr|wr| |data| | | |i| |]; cbn [conn_step step_ok] in *.
  - destruct Hok as (He & Hrv & Hwr & Hr & Hin & Hroom). pose proof (events_alive c Hi He) as Ha.
    set (c1 := set_channel (set_revents r (channel_ c)) c).
    destruct (dispatch_inv readv wr c1) as (c' & E & ? & ? & ? & ? & _);
      [done|done|by apply set_channel_inv|by apply set_channel_life|done|exact Hin|exact Hroom|exact Hr|].
    exists c'. split; [|done]. unfold handleEvent. destruct (tied_ (channel_ c1)); done.
  - destruct Hok as [Hwr Hq]. destruct (queue c) as [|f fs] eqn:E; [by exists c|]. destruct Hq as [Hq1 Hq2].
    destruct (run_functor_inv wr f fs c Hwr Hi Hl E Hq1 Hq2) as (c' & E' & ? & ? & Hx & ?).
    exists c'. split_and!; [done|done|done|congruence|done].
  - destruct (0 <? delayed c); [|by exists c].
    destruct (set_delayed_inv (delayed c - 1) c Hi) as [H1 F1].
    destruct (forceClose_inv _ H1) as [H2 F2]. apply Hu. split; [done|by eapply uframe_trans].
  - unfold send_remote. destruct (state_eqb _ _); [|by exists c]. by apply Hu, set_remotes_inv.
  - unfold shutdown_remote. destruct (state_eqb _ _); [|by exists c]. by apply Hu, set_remotes_inv.
  - unfold forceClose_remote. destruct (_ || _); [|by exists c]. by apply Hu, set_remotes_inv.
  - unfold forceCloseWithDelay_remote. destruct (_ || _); [|by exists c]. by apply Hu, set_remotes_inv.
  - destruct (remotes c !! i) as [r|]; [|by exists c]. by apply Hu, remote_access_inv.
  - by apply Hu, queueFunctor_inv.
  - by apply Hu, queueFunctor_inv.
Qed.

Definition conn_run : conn -> list conn_label -> outcome conn := foldM (conn_step chan user).

Fixpoint steps_ok (c : conn) (ls : list conn_label) : Prop :=
  match ls with
  | [] => True
  | l :: ls' =>
      step_ok c l /\ match conn_step chan user c l with Ok c' => steps_ok c' ls' | Fail _ => True end
  end.

Lemma conn_run_inv ls : forall c,
  conn_inv c -> life c -> eventHandling_ (channel_ c) = false -> steps_ok c ls ->
  exists c', conn_run c ls = Ok c' /\ conn_inv c' /\ life c' /\ eventHandling_ (channel_ c') = false /\
    fd_ (channel_ c') = fd_ (channel_ c).
Proof.
  induction ls as [|l ls IH]; intros c Hi Hl Hh Hok; cbn in *; [by exists c|].
  destruct Hok as [H1 H2]. destruct (conn_step_inv c l Hi Hl Hh H1) as (c1 & E & ? & ? & ? & <-).
  rewrite E in H2 |- *. cbn. by apply IH.
Qed.

(** A connection after [connectEstablished]. *)
Lemma established_inv sockfd input output wc hw :
  wf input -> bq_wf output -> bq_contents output = [] -> bq_size output + U <= max_size ->
  exists c, connectEstablished chan user (TcpConnection_ctor chan sockfd input output wc hw) = Ok c /\
    conn_inv c /\ life c /\ fd_ (channel_ c) = sockfd /\ eventHandling_ (channel_ c) = false.
Proof.
  intros Hin Hout Hnil Hroom. unfold connectEstablished. cbn [state_ TcpConnection_ctor].
  set (c0 := TcpConnection_ctor chan sockfd input output wc hw).
  change (state_eqb kConnecting kConnecting) with true. cbn [c_assert mbind outcome_bind].
  set (c2 := ch_enableReading chan _).
  assert (conn_inv c2) as Hi2.
  { constructor; try done; cbn.
    - rewrite bq_readable_spec, Hnil by done. done.
    - vm_compute. set_solver.
    - unfold replay. cbn. rewrite Z.eqb_refl. cbn. rewrite Z.eqb_refl. done. }
  unfold connectionCallback. change (connected c2) with true. pose proof (Hcost (EvConnection true)).
  destruct (call_user_inv (EvConnection true) c2) as (c' & E & Hi' & F & _);
    [done|done|by left|unfold size; cbn; lia|].
  exists c'. split_and!; [done|done| |by rewrite (uf_fd _ _ F)|by rewrite (uf_handling _ _ F)].
  eapply life_uframe; [|exact F]. by constructor.
Qed.

End Bounded.

End Inv.
