(* ===== verification/TcpConnectionSpec.v ===== *)
(** * What a TcpConnection promises

    The output stream, the life cycle, the agreement with the kernel's epoll
    set, and two ways in which tearing a connection down goes wrong. *)

From stdpp Require Import gmap.
From S2P Require Import Prelude Buffer BufferSpec Channel Poller EPollPoller EPollPollerSpec.
From S2P Require Import TcpConnection TcpConnectionInv.

Section Spec.

Context {B : Type} `{!ByteQueue B}.
Context (chan : Z) (user : cevent -> list uaction) (U : Z).
Hypothesis Huser : user_ok user.
Hypothesis Hcost : forall e, ua_costs (user e) <= U.
Hypothesis Hdown : quiet_on user (EvConnection false).
Hypothesis Hclose : quiet_on user EvClose.

(** A new connection after [connectEstablished], and a run of its loop. *)
Definition conn_history (sockfd : Z) (input : Buffer) (output : B) (wc hw : bool)
    (ls : list conn_label) : outcome (TcpConnection B) :=
  c ← connectEstablished chan user (TcpConnection_ctor chan sockfd input output wc hw);
  conn_run chan user c ls.

(** The run is one the environment may produce. *)
Definition history_ok (sockfd : Z) (input : Buffer) (output : B) (wc hw : bool)
    (ls : list conn_label) : Prop :=
  wf input /\ bq_wf output /\ bq_contents output = [] /\ bq_size output + U <= max_size /\
  match connectEstablished chan user (TcpConnection_ctor chan sockfd input output wc hw) with
  | Ok c => steps_ok chan user U c ls
  | Fail _ => True
  end.

Lemma conn_history_inv sockfd input output wc hw ls :
  history_ok sockfd input output wc hw ls ->
  exists c, conn_history sockfd input output wc hw ls = Ok c /\ conn_inv chan c /\ life c /\
    eventHandling_ (channel_ c) = false /\ fd_ (channel_ c) = sockfd.
Proof.
  intros (Hin & Hout & Hnil & Hroom & Hok).
  destruct (established_inv chan user U Huser Hcost Hdown Hclose sockfd input output wc hw Hin Hout Hnil Hroom)
    as (c0 & E & Hi & Hl & Hf & Hh).
  rewrite E in Hok. unfold conn_history. rewrite E. cbn [mbind outcome_bind].
  destruct (conn_run_inv chan user U Huser Hcost Hdown Hclose ls c0 Hi Hl Hh Hok)
    as (c & ? & ? & ? & ? & ?). exists c. split_and!; [done|done|done|done|congruence].
Qed.



(** ** With the epoll poller *)

Section Epoll.

Context {K : Type} `{!Epoll K, !EpollLaws K}.

Lemma replay_init calls : replay chan calls = RInit -> calls = [].
Proof.
  induction calls as [|o calls IH] using rev_ind; [done|]. rewrite replay_snoc.
  destruct (replay chan calls); cbn; [|destruct (op_events o) as [[p f]|]; [by destruct (_ && _)|]|done].
  - destruct o; try done. by destruct (_ =? _).
  - destruct o; try done. by destruct (_ && _).
Qed.

(** One call on a store that holds only this channel. *)
Lemma replay_epoll_step (pl : EPollPoller K) st ch o fd a0 e0 added ev :
  ep_inv (pl, st) -> st = {[chan := ch]} -> fd_ ch = fd -> addedToLoop_ ch = a0 -> events_ ch = e0 ->
  replay_one chan (RLive fd a0 e0) o = RLive fd added ev ->
  exists pl' st' ch', (s' ← chan_exec (pl, st) o; Ok s') = Ok (pl', st') /\ ep_inv (pl', st') /\
    st' = {[chan := ch']} /\ fd_ ch' = fd /\ addedToLoop_ ch' = added /\ events_ ch' = ev.
Proof.
  intros Hi Hst Hf Ha He Hr.
  assert (st !! chan = Some ch) as Hch by (rewrite Hst; apply lookup_singleton_eq).
  cbn in Hr. destruct (op_events o) as [[p f]|] eqn:Eo.
  - destruct ((p =? chan) && _) eqn:Eb; [|done]. injection Hr as <- <-.
    apply andb_true_iff in Eb as [->%Z.eqb_eq Eb].
    destruct (with_events_ok f (pl, st) chan ch Hi Hch) as ([pl' st'] & i & E & Hi' & Hst').
    { intros Ha'. split; [apply orb_true_iff in Eb as [?|Eb%negb_true_iff%Z.eqb_neq]; congruence|].
      intros p' c'. cbn. rewrite Hst, lookup_singleton_Some. intros [<- <-]. done. }
    rewrite (with_events_exec (pl, st) o chan f Eo), E. exists pl', st', (set_index i (touched f ch)).
    cbn in Hst'. rewrite Hst, insert_singleton_eq in Hst'.
    split_and!; try done. cbn. by rewrite He.
  - destruct o; try done. destruct ((p =? chan) && a0 && (e0 =? 0)) eqn:Eb; [|done]. injection Hr as <- <-.
    apply andb_true_iff in Eb as [Eb He0%Z.eqb_eq]. apply andb_true_iff in Eb as [->%Z.eqb_eq Ea].
    destruct (ep_remove_ok (pl, st) chan ch) as ([pl' st'] & E & Hi' & Hst'); [done|done|congruence|congruence|].
    cbn [chan_exec]. rewrite E. exists pl', st', (set_index kNew (set_added false ch)).
    cbn in Hst'. rewrite Hst, insert_singleton_eq in Hst'. split_and!; done.
Qed.

(** The calls a connection makes follow the owners' protocol, and the poller's
    store mirrors the connection's channel. *)
Lemma replay_epoll (k : K) (calls : list chan_op) fd added ev :
  interest k = ∅ -> 0 <= fd < 2 ^ 31 -> replay chan calls = RLive fd added ev ->
  exists pl st ch, foldM chan_exec (EPollPoller_ctor k, ∅) calls = Ok (pl, st) /\ ep_inv (pl, st) /\
    st = {[chan := ch]} /\ fd_ ch = fd /\ addedToLoop_ ch = added /\ events_ ch = ev.
Proof.
  intros Hk Hfd. revert added ev. induction calls as [|o calls IH] using rev_ind; intros added ev Hr.
  - done.
  - rewrite replay_snoc in Hr. rewrite foldM_app.
    destruct (replay chan calls) as [|fd' a0 e0|] eqn:E0; cbn in Hr; [| |done].
    + assert (calls = []) as -> by (by apply replay_init).
      destruct o; try done. destruct (Z.eqb_spec p chan) as [->|]; [|done]. injection Hr as -> <- <-.
      eexists (EPollPoller_ctor k), _, (Channel_ctor fd). split; [reflexivity|].
      split_and!; [|done..].
      apply ep_inv_frame; [by apply ep_inv_init|apply lookup_empty|done].
    + assert (fd' = fd) as ->.
      { destruct (op_events o) as [[p f]|]; [destruct ((p =? chan) && _); congruence|].
        destruct o; try done. destruct (_ && _); congruence. }
      destruct (IH a0 e0 eq_refl) as (pl & st & ch & -> & Hi & Hst & Hf & Ha & He). cbn [mbind outcome_bind foldM].
      apply (replay_epoll_step pl st ch o fd a0 e0 added ev); done.
Qed.


End Epoll.

(** ** One send *)

(** SendInLoop takes all of a message or none of it. On a connection that
    is up, the whole message is accepted (written, queued, or split between the
    two, in order after what was accepted before), except when a direct write
    finds the socket broken (EPIPE or ECONNRESET); on a connection that is
    down, or broken, the message is dropped and nothing changes. *)
Lemma send_all_or_nothing (data : list byte) (wr : list byte -> wresult) (c : TcpConnection B) :
  conn_inv chan c -> write_spec wr -> size c + zlen data <= max_size -> zlen data <= max_size ->
  exists c', sendInLoop chan data wr c = Ok c' /\ wire c' ++ bq_contents (outputBuffer_ c') = accepted c' /\
    (accepted c' = accepted c ++ data \/ accepted c' = accepted c /\ dropped data wr c) /\
    (state_ c = kDisconnected -> c' = c).
Proof.
  intros Hi Hwr Hroom Hm. destruct (sendInLoop_inv chan data wr c Hi Hwr Hroom Hm) as (c' & E & Hi' & _ & _ & Hc).
  exists c'. split_and!; [done|apply Hi'|done|]. intros Hs. unfold sendInLoop in E.
  rewrite Hs in E. cbn in E. by injection E.
Qed.

(** ** Tearing down *)

(** A connection destroyed while it is shutting down aborts the process.
    connectDestroyed takes the channel's events down only in state kConnected;
    when the owner destroys a connection on which shutdown() was called and
    whose peer has not closed yet (state kDisconnecting, channel still
    reading), Channel::remove finds events and its assertion fails. In state
    kConnected the same call succeeds. *)
Lemma destroy_while_disconnecting_asserts (c : TcpConnection B) :
  conn_inv chan c -> isReading (channel_ c) = true -> size c + U <= max_size ->
  (state_ c = kDisconnecting -> connectDestroyed chan user c = Fail AssertFail) /\
  (state_ c = kConnected -> exists c', connectDestroyed chan user c = Ok c' /\ state_ c' = kDisconnected).
Proof.
  intros Hi Hrd Hroom. assert (isNoneEvent (channel_ c) = false) as Hn.
  { unfold isNoneEvent, isReading, has in *. destruct (Z.eqb_spec (events_ (channel_ c)) kNoneEvent) as [E|]; [|done].
    rewrite E in Hrd. done. }
  unfold connectDestroyed, ch_remove. split; intros Hs; rewrite Hs.
  - change (state_eqb kDisconnecting kConnected) with false. cbn [mbind outcome_bind]. by rewrite Hn.
  - change (state_eqb kConnected kConnected) with true. cbn [mbind outcome_bind].
    pose proof (closing_inv chan c Hi (alive_connected c Hs)) as Hi1. fold (closing chan c).
    unfold connectionCallback. change (connected (closing chan c)) with false.
    pose proof (Hcost (EvConnection false)).
    destruct (call_user_inv chan user (EvConnection false) (closing chan c)) as (c1 & -> & Hi2 & F2 & _);
      [done|done|by right|unfold size in *; cbn; lia|].
    cbn [mbind outcome_bind]. assert (state_ c1 = kDisconnected) as Hs1.
    { destruct (uf_state _ _ F2) as [->|[? _]]; done. }
    assert (isNoneEvent (channel_ c1) = true) as -> by (apply isNoneEvent_spec, (ci_closed _ c1 Hi2 Hs1)).
    cbn. eexists. split; [done|]. done.
Qed.

(** StartRead after the connection went down breaks its destruction. The
    functor that startRead() queues does not look at the state: if it runs
    after handleClose, it registers the channel for reading again, and
    connectDestroyed, which is queued behind it, fails the assertion in
    Channel::remove. *)
Lemma startRead_after_close_asserts (c : TcpConnection B) :
  conn_inv chan c -> state_ c = kDisconnected ->
  connectDestroyed chan user (startReadInLoop chan c) = Fail AssertFail.
Proof.
  intros Hi Hs. pose proof (ci_closed _ c Hi Hs) as He. unfold startReadInLoop.
  assert (isReading (channel_ c) = false) as -> by (unfold isReading; by rewrite He).
  rewrite orb_true_r. unfold connectDestroyed. cbn [state_ set_reading ch_enableReading ch_events set_calls set_channel].
  rewrite Hs. change (state_eqb kDisconnected kConnected) with false. cbn [mbind outcome_bind].
  unfold ch_remove, isNoneEvent. cbn. by rewrite He.
Qed.

End Spec.
