(* ===== verification/TcpConnectionExamples.v ===== *)
(** * A concrete connection

    A peer that sends three bytes, a kernel that takes two bytes per write, and
    a user who greets, answers and consumes what arrives. The theorems on
    connections are applied to its run. *)

From stdpp Require Import gmap.
From S2P Require Import Prelude Format Buffer BufferSpec Channel Poller EPollPoller EPollPollerSpec.
From S2P Require Import TcpConnection TcpConnectionInv TcpConnectionSpec.

Definition wr_two (data : list byte) : wresult := Wrote (Z.min 2 (zlen data)).

Lemma wr_two_spec : write_spec wr_two.
Proof. intros data. unfold wr_two. pose proof (zlen_nonneg data). lia. Qed.

Lemma three_bytes_kernel_spec : readv_spec three_bytes_kernel.
Proof.
  intros iov r. subst r. unfold three_bytes_kernel. destruct (Z.leb_spec 3 (foldr Z.add 0 iov)).
  - right. cbn. done.
  - left. cbn. split; [lia|done].
Qed.

Definition demo_conn_user (e : cevent) : list uaction :=
  match e with
  | EvConnection true => [USend (str "hello") wr_two]
  | EvMessage _ => [USend (str "ok") wr_two; UConsume 3; UStopRead; UStartRead]
  | _ => []
  end.

Definition demo_input : Buffer := mkBuffer (zero_vector 10) 8 8.
Definition demo_output : Buffer := mkBuffer (zero_vector 9) 8 8.

Definition demo_labels : list conn_label :=
  [LEvent POLLIN three_bytes_kernel wr_two; LSendRemote (str "x"); LRemote 0; LRunFunctor wr_two;
   LShutdownRemote; LRemote 0; LEvent POLLOUT three_bytes_kernel wr_two; LForceCloseRemote; LRemote 1; LRunFunctor wr_two;
   LEvent POLLOUT three_bytes_kernel wr_two; LEvent POLLOUT three_bytes_kernel wr_two;
   LRemote 0; LRunFunctor wr_two; LRemote 0; LRunFunctor wr_two; LRunFunctor wr_two; LRunFunctor wr_two].

Lemma demo_conn_user_ok : user_ok demo_conn_user.
Proof.
  intros e. unfold demo_conn_user. destruct e as [[]| | | |]; repeat constructor;
    try apply wr_two_spec; vm_compute; discriminate.
Qed.

Lemma demo_conn_cost e : ua_costs (demo_conn_user e) <= 5.
Proof. destruct e as [[]| | | |]; vm_compute; discriminate. Qed.

Lemma demo_conn_down : quiet_on demo_conn_user (EvConnection false).
Proof. constructor. Qed.

Lemma demo_conn_close : quiet_on demo_conn_user EvClose.
Proof. constructor. Qed.

Lemma steps_ok_cons {B} `{!ByteQueue B} chan user U (c c' : TcpConnection B) l ls :
  step_ok user U c l -> conn_step chan user c l = Ok c' -> steps_ok chan user U c' ls ->
  steps_ok chan user U c (l :: ls).
Proof. intros H E Hs. cbn. by rewrite E. Qed.

(** Conditions of one step in a concrete state. *)
Ltac concrete_step :=
  match goal with
  | |- _ <> _ => vm_compute; discriminate
  | |- readv_spec _ => exact three_bytes_kernel_spec
  | |- write_spec _ => exact wr_two_spec
  | |- revents_ok _ => intros _; vm_compute; reflexivity
  | |- in_room _ => vm_compute; discriminate
  | |- _ <= _ => vm_compute; discriminate
  | |- _ \/ _ => right; constructor
  | |- match _ with _ => _ end => vm_compute; first [reflexivity | exact I]
  | |- _ => done
  end.

Lemma demo_history_ok :
  history_ok 7 demo_conn_user 5 21 demo_input demo_output true true demo_labels.
Proof.
  unfold history_ok. split_and!; [vm_compute; intuition discriminate..|].
  set (r := connectEstablished _ _ _). vm_compute in r. subst r.
  unfold demo_labels.
  repeat (eapply steps_ok_cons;
    [cbn [step_ok queue functor_room functor_ok]; try split_and!; concrete_step
    |vm_compute; reflexivity|]).
  exact I.
Qed.

(** ** The theorems on this run *)




Definition demo_up : TcpConnection Buffer :=
  match connectEstablished 7 demo_conn_user (TcpConnection_ctor 7 21 demo_input demo_output true true) with
  | Ok c => c
  | Fail _ => TcpConnection_ctor 7 21 demo_input demo_output true true
  end.

Lemma demo_up_inv : conn_inv 7 demo_up.
Proof.
  destruct demo_history_ok as (H1 & H2 & H3 & H4 & _).
  destruct (established_inv 7 demo_conn_user 5 demo_conn_user_ok demo_conn_cost demo_conn_down
    demo_conn_close 21 demo_input demo_output true true H1 H2 H3 H4) as (c & E & Hi & _).
  unfold demo_up. rewrite E. done.
Qed.

Lemma send_all_or_nothing_witness :
  exists c', sendInLoop 7 (str "more") wr_two demo_up = Ok c' /\
    wire c' ++ bq_contents (outputBuffer_ c') = accepted c' /\
    accepted c' = accepted demo_up ++ str "more".
Proof.
  destruct (send_all_or_nothing 7 (str "more") wr_two demo_up demo_up_inv wr_two_spec
    ltac:(vm_compute; discriminate) ltac:(vm_compute; discriminate)) as (c' & E & H & [Ha|[_ Hd]] & _).
  - exists c'. split; [exact E|]. split; [exact H|exact Ha].
  - exfalso. destruct Hd as [Hd|[Hd _]]; vm_compute in Hd; discriminate.
Defined.

Definition demo_shutting : TcpConnection Buffer := shutdown demo_up.

Lemma destroy_while_disconnecting_asserts_witness :
  state_ demo_shutting = kDisconnecting /\ connectDestroyed 7 demo_conn_user demo_shutting = Fail AssertFail.
Proof.
  split; [vm_compute; reflexivity|].
  apply (destroy_while_disconnecting_asserts 7 demo_conn_user 5 demo_conn_user_ok demo_conn_cost
    demo_conn_down demo_shutting).
  - apply shutdown_inv, demo_up_inv.
  - vm_compute. reflexivity.
  - vm_compute. discriminate.
  - vm_compute. reflexivity.
Defined.

Definition demo_closed : TcpConnection Buffer := closing 7 demo_up.

Lemma startRead_after_close_asserts_witness :
  state_ demo_closed = kDisconnected /\
  connectDestroyed 7 demo_conn_user (startReadInLoop 7 demo_closed) = Fail AssertFail.
Proof.
  split; [vm_compute; reflexivity|].
  apply (startRead_after_close_asserts 7 demo_conn_user demo_closed); [|vm_compute; reflexivity].
  apply closing_inv; [exact demo_up_inv|vm_compute; reflexivity].
Defined.

(** ** Calls overtaken by the close *)

(** Another thread's shutdown() has found the connection up; the peer hangs
    up, the connection closes and is taken out of the loop; then the state is
    stored. The connection is left in state kDisconnecting and its destructor
    aborts. *)
Example shutdown_overtaken_by_close :
  exists c, conn_history 7 demo_conn_user 21 demo_input demo_output true true
      [LShutdownRemote; LEvent POLLHUP three_bytes_kernel wr_two; LRunFunctor wr_two; LRunFunctor wr_two; LRemote 0] = Ok c /\
    state_ c = kDisconnecting /\ count ev_down (clog c) = 1%nat /\ TcpConnection_dtor c = Fail AssertFail.
Proof. eexists. split; [vm_compute; reflexivity|]. vm_compute. auto. Qed.

(** The same with forceClose(): its functor finds the state kDisconnecting and
    closes the connection a second time. *)
Example forceClose_overtaken_by_close :
  exists c, conn_history 7 demo_conn_user 21 demo_input demo_output true true
      [LForceCloseRemote; LEvent POLLHUP three_bytes_kernel wr_two; LRemote 0; LRemote 0;
       LRunFunctor wr_two; LRunFunctor wr_two; LRunFunctor wr_two] = Ok c /\
    count ev_up (clog c) = 1%nat /\ count ev_down (clog c) = 2%nat /\ count ev_close (clog c) = 2%nat.
Proof. eexists. split; [vm_compute; reflexivity|]. vm_compute. auto. Qed.

(** A connection that does not read closes: disableAll finds the channel
    unregistered and registers it again, for no events. *)
Example close_registers_empty_mask :
  exists c pl st, conn_history 7 (fun _ => []) 21 demo_input demo_output true true
      [LStopReadRemote; LRunFunctor wr_two; LForceCloseRemote; LRemote 0; LRemote 0; LRunFunctor wr_two] = Ok c /\
    foldM chan_exec (EPollPoller_ctor (∅ : gmap Z (Z * Z)), ∅) (chan_calls c) = Ok (pl, st) /\
    interest (epollfd_ pl) !! 21 = Some (0, 7).
Proof.
  eexists _, _, _. split; [vm_compute; reflexivity|]. split; [vm_compute; reflexivity|]. vm_compute. reflexivity.
Qed.
