(* ===== verification/Connector.v ===== *)
(** * Connector: src/mynetlib/net/Connector.h, Connector.cc

    An active opener in its loop's thread: it creates a socket, waits for it
    to become writable and hands it over, or closes it and tries again after a
    delay. What socket(2), connect(2), SO_ERROR and the self-connection test
    answer are arguments. The functors the loop holds for the connector and
    its retry timers are part of the state; the sockets it created, closed and
    handed over and the delays it asked for are kept as histories. *)

From stdpp Require Import gmap.
From S2P Require Import Prelude Channel Timestamp.

Inductive States : Set := kDisconnected | kConnecting | kConnected.

#[export] Instance States_eq_dec : EqDecision States.
Proof. solve_decision. Defined.

Definition kMaxRetryDelayMs : Z := 30 * 1000.
Definition kInitRetryDelayMs : Z := 500.

(** errno values of <errno.h> on Linux. *)
Definition EPERM : Z := 1.
Definition EINTR : Z := 4.
Definition EBADF : Z := 9.
Definition EAGAIN : Z := 11.
Definition EACCES : Z := 13.
Definition EFAULT : Z := 14.
Definition ENOTSOCK : Z := 88.
Definition EAFNOSUPPORT : Z := 97.
Definition EADDRINUSE : Z := 98.
Definition EADDRNOTAVAIL : Z := 99.
Definition ENETUNREACH : Z := 101.
Definition EISCONN : Z := 106.
Definition ECONNREFUSED : Z := 111.
Definition EALREADY : Z := 114.
Definition EINPROGRESS : Z := 115.

(** Functors queued in the loop. *)
Inductive connector_functor : Set := FStartInLoop | FStopInLoop | FResetChannel.

#[export] Instance connector_functor_eq_dec : EqDecision connector_functor.
Proof. solve_decision. Defined.

(** What the kernel answers to [connect]: the new descriptor, and 0 or the
    errno of connect(2). *)
Record connect_answer : Set := mkAnswer { ca_sockfd : Z; ca_errno : Z }.

(** SO_ERROR of a socket and whether it is connected to itself. *)
Record sock_status : Set := mkStatus { so_error : Z; isSelfConnect : bool }.

Record Connector : Type := mkConnector {
  connect_ : bool;
  state_ : States;
  channel_ : option Channel;
  retryDelayMs_ : Z;
  queue : list connector_functor;
  timers : list double;
  opened : list Z;
  closed : list Z;
  handed : list Z;
  delays : list Z;
}.

Definition set_connect x c := mkConnector x (state_ c) (channel_ c) (retryDelayMs_ c) (queue c) (timers c)
  (opened c) (closed c) (handed c) (delays c).
Definition setState x c := mkConnector (connect_ c) x (channel_ c) (retryDelayMs_ c) (queue c) (timers c)
  (opened c) (closed c) (handed c) (delays c).
Definition set_channel x c := mkConnector (connect_ c) (state_ c) x (retryDelayMs_ c) (queue c) (timers c)
  (opened c) (closed c) (handed c) (delays c).
Definition set_delay x c := mkConnector (connect_ c) (state_ c) (channel_ c) x (queue c) (timers c)
  (opened c) (closed c) (handed c) (delays c).
Definition set_queue x c := mkConnector (connect_ c) (state_ c) (channel_ c) (retryDelayMs_ c) x (timers c)
  (opened c) (closed c) (handed c) (delays c).
Definition set_timers x c := mkConnector (connect_ c) (state_ c) (channel_ c) (retryDelayMs_ c) (queue c) x
  (opened c) (closed c) (handed c) (delays c).
Definition set_opened x c := mkConnector (connect_ c) (state_ c) (channel_ c) (retryDelayMs_ c) (queue c) (timers c)
  x (closed c) (handed c) (delays c).
Definition set_closed x c := mkConnector (connect_ c) (state_ c) (channel_ c) (retryDelayMs_ c) (queue c) (timers c)
  (opened c) x (handed c) (delays c).
Definition set_handed x c := mkConnector (connect_ c) (state_ c) (channel_ c) (retryDelayMs_ c) (queue c) (timers c)
  (opened c) (closed c) x (delays c).
Definition set_delays x c := mkConnector (connect_ c) (state_ c) (channel_ c) (retryDelayMs_ c) (queue c) (timers c)
  (opened c) (closed c) (handed c) x.

Definition Connector_ctor : Connector :=
  mkConnector false kDisconnected None kInitRetryDelayMs [] [] [] [] [] [].

Definition Connector_dtor (c : Connector) : outcome unit :=
  c_assert (bool_decide (channel_ c = None)).

Definition queueInLoop (f : connector_functor) (c : Connector) : Connector := set_queue (queue c ++ [f]) c.

Definition close (sockfd : Z) (c : Connector) : Connector := set_closed (closed c ++ [sockfd]) c.

(** [channel_->f()]; a null [channel_] is dereferenced. *)
Definition on_channel {A} (c : Connector) (f : Channel -> outcome A) : outcome A :=
  match channel_ c with
  | Some ch => f ch
  | None => Fail UseAfterFree
  end.

(** [Channel::disableAll], [Channel::remove] and [~Channel] on the
    connector's channel; the poller's side is the subject of EPollPollerSpec. *)
Definition chan_disableAll (ch : Channel) : Channel := set_added true (set_events kNoneEvent ch).

Definition chan_remove (ch : Channel) : outcome Channel :=
  c_assert (isNoneEvent ch);; Ok (set_added false ch).

Definition chan_delete (ch : Channel) : outcome unit :=
  c_assert (negb (eventHandling_ ch));; c_assert (negb (addedToLoop_ ch)).

Definition chan_enableWriting (ch : Channel) : Channel :=
  set_added true (set_events (Z.lor (events_ ch) kWriteEvent) ch).

(** ** Operations *)

Definition retry (sockfd : Z) (c : Connector) : Connector :=
  let c1 := setState kDisconnected (close sockfd c) in
  if connect_ c1 then
    let c2 := set_delays (delays c1 ++ [retryDelayMs_ c1])
                (set_timers (timers c1 ++ [double_div (double_of_Z (retryDelayMs_ c1)) (double_of_Z 1000)]) c1) in
    set_delay (Z.min (s32 (retryDelayMs_ c2 * 2)) kMaxRetryDelayMs) c2
  else c1.

Definition connecting (sockfd : Z) (c : Connector) : outcome Connector :=
  let c1 := setState kConnecting c in
  c_assert (bool_decide (channel_ c1 = None));;
  let ch := set_callback ErrorCallback (set_callback WriteCallback (Channel_ctor sockfd)) in
  Ok (set_channel (Some (chan_enableWriting ch)) c1).

(** [createNonblockingOrDie] is fatal when socket(2) fails. *)
Definition connect (a : connect_answer) (c : Connector) : outcome Connector :=
  if ca_sockfd a <? 0 then Fail Fatal else
  let sockfd := ca_sockfd a in
  let savedErrno := ca_errno a in
  let c1 := set_opened (opened c ++ [sockfd]) c in
  if bool_decide (savedErrno ∈ [0; EINPROGRESS; EINTR; EISCONN]) then connecting sockfd c1
  else if bool_decide (savedErrno ∈ [EAGAIN; EADDRINUSE; EADDRNOTAVAIL; ECONNREFUSED; ENETUNREACH])
  then Ok (retry sockfd c1)
  else if bool_decide (savedErrno ∈ [EACCES; EPERM; EAFNOSUPPORT; EALREADY; EBADF; EFAULT; ENOTSOCK])
  then Ok (close sockfd c1)
  else Ok (close sockfd c1).

Definition startInLoop (a : connect_answer) (c : Connector) : outcome Connector :=
  c_assert (bool_decide (state_ c = kDisconnected));;
  if connect_ c then connect a c else Ok c.

(** [start] in the loop's thread, where [runInLoop] calls at once, and from
    another thread. *)
Definition start (a : connect_answer) (c : Connector) : outcome Connector :=
  startInLoop a (set_connect true c).

Definition start_remote (c : Connector) : Connector := queueInLoop FStartInLoop (set_connect true c).

Definition stop (c : Connector) : Connector := queueInLoop FStopInLoop (set_connect false c).

Definition removeAndResetChannel (c : Connector) : outcome (Z * Connector) :=
  on_channel c (fun ch =>
    ch1 ← chan_remove (chan_disableAll ch);
    Ok (fd_ ch1, queueInLoop FResetChannel (set_channel (Some ch1) c))).

Definition resetChannel (c : Connector) : outcome Connector :=
  match channel_ c with
  | Some ch => chan_delete ch;; Ok (set_channel None c)
  | None => Ok c
  end.

Definition stopInLoop (c : Connector) : outcome Connector :=
  if bool_decide (state_ c = kConnecting) then
    let c1 := setState kDisconnected c in
    '(sockfd, c2) ← removeAndResetChannel c1;
    Ok (retry sockfd c2)
  else Ok c.

Definition restart (a : connect_answer) (c : Connector) : outcome Connector :=
  let c1 := setState kDisconnected c in
  let c2 := set_delays [] (set_delay kInitRetryDelayMs c1) in
  startInLoop a (set_connect true c2).

(** Calls the owner's [newConnectionCallback_] may make on the connector. *)
Inductive connector_call : Set :=
| CStart (a : connect_answer)
| CStop
| CRestart (a : connect_answer).

Definition run_call (c : Connector) (k : connector_call) : outcome Connector :=
  match k with
  | CStart a => start a c
  | CStop => Ok (stop c)
  | CRestart a => restart a c
  end.

Section Handlers.

Context (owner : list connector_call).

Definition newConnectionCallback_ (sockfd : Z) (c : Connector) : outcome Connector :=
  foldM run_call (set_handed (handed c ++ [sockfd]) c) owner.

Definition handleWrite (s : sock_status) (c : Connector) : outcome Connector :=
  if bool_decide (state_ c = kConnecting) then
    '(sockfd, c1) ← removeAndResetChannel c;
    let err := so_error s in
    if negb (err =? 0) then Ok (retry sockfd c1)
    else if isSelfConnect s then Ok (retry sockfd c1)
    else
      let c2 := setState kConnected c1 in
      if connect_ c2 then newConnectionCallback_ sockfd c2 else Ok (close sockfd c2)
  else c_assert (bool_decide (state_ c = kDisconnected));; Ok c.

Definition handleError (c : Connector) : outcome Connector :=
  if bool_decide (state_ c = kConnecting) then
    '(sockfd, c1) ← removeAndResetChannel c;
    Ok (retry sockfd c1)
  else Ok c.

Definition connector_callback (s : sock_status) (cb : callback) (c : Connector) : outcome Connector :=
  match cb with
  | WriteCallback => handleWrite s c
  | ErrorCallback => handleError c
  | _ => Ok c
  end.

Definition run_functor (a : connect_answer) (f : connector_functor) (c : Connector) : outcome Connector :=
  match f with
  | FStartInLoop => startInLoop a c
  | FStopInLoop => stopInLoop c
  | FResetChannel => resetChannel c
  end.

(** Steps: calls in the loop's thread or from another one, a channel event,
    the oldest functor, the oldest retry timer. *)
Inductive connector_label : Set :=
| LStart (a : connect_answer)
| LStartRemote
| LStop
| LRestart (a : connect_answer)
| LEvent (revents : Z) (s : sock_status)
| LRunFunctor (a : connect_answer)
| LTimer (a : connect_answer).

Definition the_channel (c : Connector) : Channel := default (Channel_ctor 0) (channel_ c).

Definition put_channel (ch : Channel) (c : Connector) : Connector :=
  match channel_ c with
  | Some _ => set_channel (Some ch) c
  | None => c
  end.

Definition connector_step (c : Connector) (l : connector_label) : outcome Connector :=
  match l with
  | LStart a => start a c
  | LStartRemote => Ok (start_remote c)
  | LStop => Ok (stop c)
  | LRestart a => restart a c
  | LEvent revents s =>
      match channel_ c with
      | Some ch =>
          if addedToLoop_ ch then
            handleEvent the_channel put_channel (connector_callback s) true
              (put_channel (set_revents revents ch) c)
          else Ok c
      | None => Ok c
      end
  | LRunFunctor a =>
      match queue c with
      | [] => Ok c
      | f :: fs => run_functor a f (set_queue fs c)
      end
  | LTimer a =>
      match timers c with
      | [] => Ok c
      | _ :: ts => startInLoop a (set_timers ts c)
      end
  end.

End Handlers.
