(* ===== verification/ConnectorSpec.v ===== *)
(** * Connector: safety, retry delays and stopping *)

From stdpp Require Import gmap sorting.
From S2P Require Import Prelude Channel Timestamp Connector.

(** ** Use of a connector

    The owner starts an idle connector, restarts one whose connection is over
    (TcpClient::removeConnection), and may stop it at any time. The loop runs
    a functor queued while handling an event before the next poll, so a retry
    timer, which takes at least half a second, finds the channel reset. *)

Definition idle (c : Connector) : Prop :=
  state_ c = kDisconnected /\ channel_ c = None /\ timers c = [] /\ queue c = [].

Definition answer_ok (a : connect_answer) : Prop := 0 <= ca_sockfd a.

Definition allowed (c : Connector) (l : connector_label) : Prop :=
  match l with
  | LStart a => idle c /\ answer_ok a
  | LStartRemote => idle c
  | LStop => True
  | LRestart a => state_ c = kConnected /\ channel_ c = None /\ queue c = [] /\ answer_ok a
  | LEvent _ _ => True
  | LRunFunctor a => answer_ok a
  | LTimer a => answer_ok a /\ FResetChannel ∉ queue c
  end.

#[export] Instance idle_dec c : Decision (idle c).
Proof. unfold idle. apply _. Defined.

(** The delay before the [n]-th retry since the connector was created or
    restarted, in milliseconds. *)
Definition backoff (n : nat) : Z := Z.min (kInitRetryDelayMs * 2 ^ Z.of_nat n) kMaxRetryDelayMs.

(** [retryDelayMs_/1000.0] *)
Definition ms_to_seconds (d : Z) : double := double_div (double_of_Z d) (double_of_Z 1000).

(** The socket a connection attempt is under way on. *)
Definition live (c : Connector) : list Z :=
  if bool_decide (state_ c = kConnecting) then fd_ <$> option_list (channel_ c) else [].

Section Safety.

Context (owner : list connector_call).

Fixpoint history_ok (c : Connector) (ls : list connector_label) : Prop :=
  match ls with
  | [] => True
  | l :: ls' => allowed c l /\ forall c', connector_step owner c l = Ok c' -> history_ok c' ls'
  end.

(** ** Invariant *)

Definition stops (q : list connector_functor) : Prop := Forall (eq FStopInLoop) q.

Definition one_reset (q : list connector_functor) : Prop :=
  exists q1 q2, q = q1 ++ FResetChannel :: q2 /\ stops q1 /\ stops q2.

Definition chan_live (h : bool) (ch : Channel) : Prop :=
  events_ ch = kWriteEvent /\ addedToLoop_ ch = true /\ eventHandling_ ch = h /\
  callbacks_ ch = [ErrorCallback; WriteCallback] /\ tied_ ch = false.

Definition chan_dead (h : bool) (ch : Channel) : Prop :=
  events_ ch = 0 /\ addedToLoop_ ch = false /\ eventHandling_ ch = h.

(** Where the connector is between two steps; [h]: its channel is being
    handled. *)
Inductive mode (h : bool) (c : Connector) : Prop :=
| m_idle : state_ c = kDisconnected -> channel_ c = None -> stops (queue c) ->
    (length (timers c) <= 1)%nat -> mode h c
| m_starting q : state_ c = kDisconnected -> channel_ c = None -> queue c = FStartInLoop :: q ->
    stops q -> timers c = [] -> mode h c
| m_connecting ch : state_ c = kConnecting -> channel_ c = Some ch -> chan_live h ch ->
    stops (queue c) -> timers c = [] -> mode h c
| m_resetting ch : state_ c <> kConnecting -> channel_ c = Some ch -> chan_dead h ch ->
    one_reset (queue c) -> (length (timers c) <= 1)%nat ->
    (state_ c = kConnected -> timers c = []) -> mode h c
| m_connected : state_ c = kConnected -> channel_ c = None -> stops (queue c) ->
    timers c = [] -> mode h c.

Record cinv (h : bool) (c : Connector) : Prop := mkCinv {
  ci_mode : mode h c;
  ci_sockets : opened c ≡ₚ closed c ++ handed c ++ live c;
  ci_delays : delays c = backoff <$> seq 0 (length (delays c));
  ci_next : retryDelayMs_ c = backoff (length (delays c));
  ci_timer : Forall (fun t => exists d, last (delays c) = Some d /\ t = ms_to_seconds d) (timers c);
  ci_stop : FStopInLoop ∈ queue c -> connect_ c = false;
}.

(** ** Retry delays *)

Lemma backoff_range n : kInitRetryDelayMs <= backoff n <= kMaxRetryDelayMs.
Proof.
  unfold backoff, kInitRetryDelayMs, kMaxRetryDelayMs.
  pose proof (Z.pow_pos_nonneg 2 (Z.of_nat n)). lia.
Qed.

Lemma backoff_S n : Z.min (s32 (backoff n * 2)) kMaxRetryDelayMs = backoff (S n).
Proof.
  pose proof (backoff_range n) as Hr. unfold kInitRetryDelayMs, kMaxRetryDelayMs in Hr.
  unfold s32. rewrite signed_small by (cbn; lia).
  unfold backoff, kInitRetryDelayMs, kMaxRetryDelayMs.
  rewrite Nat2Z.inj_succ, Z.pow_succ_r by lia. lia.
Qed.

(** ** Each operation *)

Lemma stops_snoc q : stops q -> stops (q ++ [FStopInLoop]).
Proof. intros. by apply Forall_app_2; [|constructor]. Qed.

Lemma stops_reset q : stops q -> one_reset (q ++ [FResetChannel]).
Proof. exists q, []. by repeat constructor. Qed.

Lemma one_reset_snoc q : one_reset q -> one_reset (q ++ [FStopInLoop]).
Proof.
  intros (q1 & q2 & -> & ? & ?). exists q1, (q2 ++ [FStopInLoop]).
  rewrite <- app_assoc. split_and!; [done|done|by apply stops_snoc].
Qed.

(** Closing the socket of a failed attempt, with a retry unless stopped. *)
Lemma retry_inv h fd c :
  opened c ≡ₚ fd :: closed c ++ handed c ->
  delays c = backoff <$> seq 0 (length (delays c)) ->
  retryDelayMs_ c = backoff (length (delays c)) ->
  (FStopInLoop ∈ queue c -> connect_ c = false) ->
  mode h (setState kDisconnected c) -> timers c = [] ->
  (channel_ c = None -> stops (queue c)) ->
  cinv h (retry fd c).
Proof.
  intros Hs Hd Hn Hstop Hm Ht Hq.
  assert (opened c ≡ₚ (closed c ++ [fd]) ++ handed c ++ []) as Hs'.
  { rewrite Hs, app_nil_r. solve_Permutation. }
  assert (mode h (retry fd c)) as Hm'.
  { unfold retry. destruct (connect_ (setState kDisconnected (close fd c))) eqn:E; cbn in E.
    - destruct Hm as [??|q ?? Hq'|ch ?|ch ?????|?]; cbn in *; try done.
      + apply m_idle; cbn; rewrite ?Ht; auto.
      + specialize (Hq ltac:(done)). rewrite Hq' in Hq. inversion Hq as [|?? Hx]; done.
      + by eapply m_resetting; cbn; rewrite ?Ht; cbn; eauto.
    - destruct Hm as [??|q ?? Hq'|ch ?|ch ?????|?]; cbn in *; try done.
      + by apply m_idle.
      + eapply m_starting; done.
      + eapply m_resetting; done. }
  unfold retry in *. destruct (connect_ (setState kDisconnected (close fd c))) eqn:E; cbn in E.
  - split; cbn; [done|done| | | |done].
    + rewrite length_app, Nat.add_1_r, seq_S, fmap_app, <- Hd. cbn. by rewrite Hn.
    + rewrite length_app, Nat.add_1_r, Hn. apply backoff_S.
    + rewrite Ht, last_snoc. by repeat econstructor.
  - split; cbn; rewrite ?Ht; done || constructor.
Qed.

Lemma live_disconnected c : state_ c <> kConnecting -> live c = [].
Proof. intros. unfold live. by rewrite bool_decide_eq_false_2. Qed.

(** What holds of a connector that is about to connect. *)
Definition ready (c : Connector) : Prop :=
  state_ c = kDisconnected /\ channel_ c = None /\ timers c = [] /\ stops (queue c).

Lemma startInLoop_ok a c : cinv false c -> ready c -> answer_ok a ->
  exists c', startInLoop a c = Ok c' /\ cinv false c'.
Proof.
  intros [_ Hs Hd Hn Htm Hstop] (Hst & Hch & Ht & Hq) Ha. unfold answer_ok in Ha.
  rewrite live_disconnected, app_nil_r in Hs by congruence.
  assert (mode false c) as Hm by (apply m_idle; rewrite ?Ht; cbn; eauto with lia).
  assert (opened c ++ [ca_sockfd a] ≡ₚ ca_sockfd a :: closed c ++ handed c) as Hp
    by (rewrite Hs; solve_Permutation).
  unfold startInLoop, c_assert. rewrite bool_decide_eq_true_2 by done. cbn.
  destruct (connect_ c) eqn:Ec in |- *; cycle 1.
  { exists c. split; [done|]. split; rewrite ?live_disconnected, ?app_nil_r; congruence || done. }
  unfold connect. zcases; [lia|].
  case_bool_decide; [|case_bool_decide; [|case_bool_decide]].
  - unfold connecting, c_assert. cbn. rewrite Hch, bool_decide_eq_true_2 by done. cbn.
    eexists. split; [done|]. split; cbn; try done.
    + by eapply m_connecting.
    + unfold live. cbn. rewrite Hp. solve_Permutation.
  - eexists. split; [done|]. apply retry_inv; cbn; try done. apply m_idle; cbn; rewrite ?Ht; cbn; auto.
  - eexists. split; [done|]. split; cbn; try done; [apply m_idle; cbn; rewrite ?Ht; cbn; auto|].
    rewrite live_disconnected by (cbn; congruence). rewrite Hp. solve_Permutation.
  - eexists. split; [done|]. split; cbn; try done; [apply m_idle; cbn; rewrite ?Ht; cbn; auto|].
    rewrite live_disconnected by (cbn; congruence). rewrite Hp. solve_Permutation.
Qed.

Definition dead (ch : Channel) : Channel := set_added false (chan_disableAll ch).

Lemma removeAndResetChannel_eq c ch : channel_ c = Some ch ->
  removeAndResetChannel c = Ok (fd_ ch, queueInLoop FResetChannel (set_channel (Some (dead ch)) c)).
Proof. intros H. unfold removeAndResetChannel, on_channel. by rewrite H. Qed.

(** The connector after its attempt on [ch] ended. *)
Definition ended (ch : Channel) (c : Connector) : Connector :=
  queueInLoop FResetChannel (set_channel (Some (dead ch)) c).

Lemma connecting_inv h c : cinv h c -> state_ c = kConnecting ->
  exists ch, channel_ c = Some ch /\ chan_live h ch /\ stops (queue c) /\ timers c = [] /\
    opened c ≡ₚ fd_ ch :: closed c ++ handed c.
Proof.
  intros [Hm Hs ????] Hc. destruct Hm as [??|? ??|ch ? Hch|ch ?|?]; try congruence.
  exists ch. split_and!; try done. rewrite Hs. unfold live.
  rewrite bool_decide_eq_true_2, Hch by done. cbn. solve_Permutation.
Qed.

Lemma ended_stop ch c : (FStopInLoop ∈ queue c -> connect_ c = false) ->
  FStopInLoop ∈ queue (ended ch c) -> connect_ c = false.
Proof. intros H. cbn. rewrite elem_of_app, list_elem_of_singleton. intros [?|?]; [auto|done]. Qed.

Lemma ended_mode h ch c st : st <> kConnecting -> chan_live h ch -> stops (queue c) -> timers c = [] ->
  mode h (setState st (ended ch c)).
Proof.
  intros Hst (? & ? & ? & ?) Hq Ht. eapply m_resetting; cbn; try done.
  - by apply stops_reset.
  - rewrite Ht. cbn. lia.
Qed.

Lemma mode_frame h c c' : mode h c ->
  state_ c' = state_ c -> channel_ c' = channel_ c -> queue c' = queue c -> timers c' = timers c -> mode h c'.
Proof.
  intros Hm Hs Hc Hq Ht. destruct Hm;
    [apply m_idle|eapply m_starting|eapply m_connecting|eapply m_resetting|apply m_connected];
    rewrite ?Hs, ?Hc, ?Hq, ?Ht; eauto.
Qed.

Lemma retry_ended h c ch : cinv h c -> state_ c = kConnecting -> channel_ c = Some ch ->
  cinv h (retry (fd_ ch) (ended ch c)).
Proof.
  intros Hi Hc Hch. destruct (connecting_inv _ _ Hi Hc) as (ch' & Hch' & Hl & Hq & Ht & Hs).
  assert (ch' = ch) as -> by congruence. destruct Hi as [_ _ Hd Hn _ Hstop].
  apply retry_inv; try done.
  - exact (ended_stop ch c Hstop).
  - by apply ended_mode.
Qed.

Lemma handleError_ok h c : cinv h c -> exists c', handleError c = Ok c' /\ cinv h c' /\
  (state_ c = kConnecting -> state_ c' = kDisconnected).
Proof.
  intros Hi. unfold handleError. case_bool_decide as Hc; [|by exists c].
  destruct (connecting_inv _ _ Hi Hc) as (ch & Hch & _).
  rewrite (removeAndResetChannel_eq _ _ Hch). cbn. eexists. split; [done|]. split.
  - by apply (retry_ended h c ch).
  - unfold retry. by destruct (connect_ _).
Qed.

Lemma stopInLoop_ok c : cinv false c -> exists c', stopInLoop c = Ok c' /\ cinv false c'.
Proof.
  intros Hi. unfold stopInLoop. case_bool_decide as Hc; [|by eauto].
  destruct (connecting_inv _ _ Hi Hc) as (ch & Hch & _).
  rewrite (removeAndResetChannel_eq _ ch) by done. cbn. eexists. split; [done|].
  by apply (retry_ended false c ch).
Qed.

Lemma stop_ok h c : cinv h c -> cinv h (stop c).
Proof.
  intros [Hm Hs Hd Hn Htm Hstop]. split; cbn; try done.
  destruct Hm as [??|q ?? Hq|ch ?|ch ?????|?].
  - apply m_idle; cbn; auto using stops_snoc.
  - eapply m_starting; cbn; rewrite ?Hq; eauto using stops_snoc.
  - eapply m_connecting; cbn; eauto using stops_snoc.
  - eapply m_resetting; cbn; eauto using one_reset_snoc.
  - apply m_connected; cbn; auto using stops_snoc.
Qed.

Lemma resetChannel_ok c f : cinv false (set_queue (f :: queue c) c) -> f = FResetChannel ->
  exists c', resetChannel c = Ok c' /\ cinv false c'.
Proof.
  intros [Hm Hs Hd Hn Htm Hstop] ->. cbn in *.
  assert (FStopInLoop ∈ queue c -> connect_ c = false) as Hstop' by (intros; apply Hstop; by right).
  destruct Hm as [?? Hq|q ?? Hq|ch ??? Hq|ch Hst Hch (? & Ha & Hh) (q1 & q2 & Hq & Hq1 & Hq2) ??|?? Hq];
    cbn in *; try (inversion Hq; done).
  assert (q1 = [] /\ q2 = queue c) as [-> ->].
  { destruct q1 as [|? q1]; simplify_eq/=; [done|]. inversion Hq1; simplify_eq. }
  unfold resetChannel, chan_delete. rewrite Hch, Hh, Ha. cbn. eexists. split; [done|].
  split; cbn; try done.
  - destruct (state_ c) eqn:Es; [by apply m_idle|done|by apply m_connected; auto].
  - rewrite Hs, !live_disconnected; done.
Qed.

(** A change of the channel that keeps what the connector relies on. *)
Lemma put_inv h h' c ch' :
  cinv h c ->
  (forall ch, channel_ c = Some ch -> fd_ ch' = fd_ ch /\ events_ ch' = events_ ch /\
     addedToLoop_ ch' = addedToLoop_ ch /\ callbacks_ ch' = callbacks_ ch /\ tied_ ch' = tied_ ch /\
     eventHandling_ ch' = h') ->
  cinv h' (put_channel ch' c).
Proof.
  intros [Hm Hs Hd Hn Htm Hstop] Hch'. unfold put_channel. destruct (channel_ c) as [ch|] eqn:Hch; cycle 1.
  { split; try done. destruct Hm; try congruence;
      [by apply m_idle|by eapply m_starting|by apply m_connected]. }
  destruct (Hch' ch eq_refl) as (Hf & He & Ha & Hc & Ht & Hh). split; cbn; try done.
  - destruct Hm as [??|q ??|ch0 ?? (?&?&?&?&?)|ch0 ?? (?&?&?)|?]; simplify_eq; try congruence.
    + eapply m_connecting; cbn; try done. unfold chan_live. by rewrite He, Ha, Hc, Ht.
    + eapply m_resetting; cbn; try done. unfold chan_dead. by rewrite He, Ha.
  - rewrite Hs. unfold live. cbn. rewrite Hch. case_bool_decide; [|done]. cbn. by rewrite Hf.
Qed.

Section Owner.

Context (owner_stops : Forall (eq CStop) owner).

Lemma owner_ok h c : cinv h c -> exists c', foldM run_call c owner = Ok c' /\ cinv h c'.
Proof.
  revert c. induction owner_stops as [|k ks <- Hks IH]; intros c Hi; [by exists c|].
  apply (IH Hks (stop c)). by apply stop_ok.
Qed.

Lemma handleWrite_ok h st c : cinv h c -> state_ c <> kConnected ->
  exists c', handleWrite owner st c = Ok c' /\ cinv h c'.
Proof.
  intros Hi Hk. unfold handleWrite. case_bool_decide as Hc; cycle 1.
  { rewrite bool_decide_eq_true_2 by (destruct (state_ c); done). by eauto. }
  destruct (connecting_inv _ _ Hi Hc) as (ch & Hch & Hl & Hq & Ht & Hs).
  rewrite (removeAndResetChannel_eq _ _ Hch). cbn.
  pose proof (retry_ended h c ch Hi Hc Hch) as Hr.
  destruct (negb _); [by eauto|]. destruct (isSelfConnect st); [by eauto|].
  pose proof (ended_stop ch c (ci_stop _ _ Hi)) as Hstop. destruct Hi as [_ _ Hd Hn _ _].
  destruct (connect_ c) eqn:E.
  - apply owner_ok. split; try done.
    + eapply mode_frame; [by apply (ended_mode h ch c kConnected)|done..].
    + cbn. rewrite live_disconnected by done. rewrite Hs. solve_Permutation.
    + cbn. rewrite Ht. constructor.
    + cbn. by rewrite E.
  - eexists. split; [done|]. split; try done.
    + eapply mode_frame; [by apply (ended_mode h ch c kConnected)|done..].
    + cbn. rewrite live_disconnected by done. rewrite Hs. solve_Permutation.
    + cbn. rewrite Ht. constructor.
Qed.

Lemma fire_ok (P : Connector -> Prop) st cond cb c :
  (exists c', connector_callback owner st cb c = Ok c' /\ P c') -> P c ->
  exists c', fire the_channel (connector_callback owner st) cond cb c = Ok c' /\ P c'.
Proof. intros ??. unfold fire. destruct (_ && _); eauto. Qed.

Lemma event_ok revents st c : cinv false c ->
  exists c', connector_step owner c (LEvent revents st) = Ok c' /\ cinv false c'.
Proof.
  intros Hi. cbn. destruct (channel_ c) as [ch|] eqn:Hch; [|by eauto].
  destruct (addedToLoop_ ch) eqn:Ha; [|by eauto].
  assert (state_ c = kConnecting /\ tied_ ch = false /\ eventHandling_ ch = false) as (Hc & Htie & Hh).
  { destruct (ci_mode _ _ Hi) as [??|? ??|ch' ?? (?&?&?&?&?)|ch' ?? (?&?&?)|?]; split_and!; congruence. }
  set (c1 := put_channel (set_revents revents ch) c).
  assert (cinv false c1) as H1.
  { apply (put_inv false); [done|]. intros ch0 ?; simplify_eq. by repeat split. }
  assert (state_ c1 = kConnecting) as Hc1 by (unfold c1, put_channel; by rewrite Hch).
  unfold handleEvent. replace (tied_ (the_channel c1)) with false
    by (unfold c1, the_channel, put_channel; by rewrite Hch).
  unfold handleEventWithGuard.
  set (c2 := put_channel (set_eventHandling true (the_channel c1)) c1).
  assert (cinv true c2) as H2.
  { apply (put_inv false); [done|]. intros ch0 H0. unfold the_channel. rewrite H0. by repeat split. }
  assert (state_ c2 = kConnecting) as Hc2 by (unfold c2, put_channel; by destruct (channel_ c1)).
  destruct (fire_ok (fun c' => cinv true c' /\ state_ c' = kConnecting) st
    (fun r => has r POLLHUP && negb (has r POLLIN)) CloseCallback c2) as (c3 & -> & H3 & Hc3); [by eauto..|].
  cbn [mbind outcome_bind].
  destruct (fire_ok (fun c' => cinv true c' /\ state_ c' <> kConnected) st
    (fun r => has r (Z.lor POLLERR POLLNVAL)) ErrorCallback c3) as (c4 & -> & H4 & Hc4).
  { destruct (handleError_ok true c3 H3) as (c' & ? & ? & Hd). exists c'. rewrite Hd by done. done. }
  { split; [done|congruence]. }
  cbn [mbind outcome_bind].
  destruct (fire_ok (fun c' => cinv true c' /\ state_ c' <> kConnected) st
    (fun r => has r (Z.lor POLLIN (Z.lor POLLPRI POLLRDHUP))) ReadCallback c4) as (c5 & -> & H5 & Hc5);
    [by eauto..|].
  cbn [mbind outcome_bind].
  destruct (fire_ok (cinv true) st (fun r => has r POLLOUT) WriteCallback c5) as (c6 & -> & H6);
    [by apply handleWrite_ok|done|].
  cbn [mbind outcome_bind]. eexists. split; [done|].
  apply (put_inv true); [done|]. intros ch0 H0. unfold the_channel. rewrite H0. by repeat split.
Qed.

(** A call that finds the connector ready keeps it so. *)
Lemma call_inv c c' : cinv false c -> ready c' -> queue c' = [] ->
  opened c' = opened c -> closed c' = closed c -> handed c' = handed c -> live c = [] ->
  delays c' = backoff <$> seq 0 (length (delays c')) -> retryDelayMs_ c' = backoff (length (delays c')) ->
  cinv false c'.
Proof.
  intros [_ Hs _ _ _ _] (Hst & Hch & Ht & Hq) Hq' Ho Hcl Hh Hl Hd Hn. split; [|..|]; try done.
  - apply m_idle; rewrite ?Ht; cbn; auto.
  - rewrite Ho, Hcl, Hh, Hs, Hl. by rewrite live_disconnected by congruence.
  - rewrite Ht. constructor.
  - rewrite Hq'. by intros ?%not_elem_of_nil.
Qed.

Lemma functor_ok a f c : cinv false (set_queue (f :: queue c) c) -> answer_ok a ->
  exists c', run_functor a f c = Ok c' /\ cinv false c'.
Proof.
  intros Hi Ha. destruct f; cbn [run_functor].
  - destruct Hi as [Hm Hs Hd Hn Htm Hstop].
    assert (ready c) as Hr.
    { destruct Hm as [?? Hq|q ?? Hq|ch ??? Hq|ch ??? (q1 & q2 & Hq & Hq1 & _)|?? Hq]; cbn in *;
        try (by inversion Hq); [by simplify_eq|].
      destruct q1; simplify_eq/=; by inversion Hq1. }
    apply startInLoop_ok; try done. split; try done.
    + destruct Hr as (? & ? & Ht & ?). apply m_idle; rewrite ?Ht; cbn; auto.
    + intros ?. apply Hstop. by right.
  - apply stopInLoop_ok. destruct Hi as [Hm Hs Hd Hn Htm Hstop]. split; try done.
    + destruct Hm as [?? Hq|q ?? Hq|ch ??? Hq|ch ??? (q1 & q2 & Hq & Hq1 & ?)|?? Hq]; cbn in *.
      * apply m_idle; try done. by inversion Hq.
      * simplify_eq.
      * eapply m_connecting; try done. by inversion Hq.
      * destruct q1 as [|? q1]; simplify_eq/=. eapply m_resetting; try done.
        exists q1, q2. by inversion Hq1.
      * apply m_connected; try done. by inversion Hq.
    + intros ?. apply Hstop. by right.
  - by eapply resetChannel_ok.
Qed.

Lemma step_ok c l : cinv false c -> allowed c l ->
  exists c', connector_step owner c l = Ok c' /\ cinv false c'.
Proof.
  intros Hi Hl. destruct l as [a| | |a|revents st|a|a]; [..|by apply event_ok| |]; cbn in Hl; cbn.
  - destruct Hl as [(Hst & Hch & Ht & Hq) Ha].
    assert (ready (set_connect true c)) as Hr by (split_and!; try done; cbn; rewrite Hq; constructor).
    apply startInLoop_ok; try done. eapply call_inv; try done; try apply Hi.
    apply live_disconnected. congruence.
  - destruct Hl as (Hst & Hch & Ht & Hq). eexists. split; [done|].
    destruct Hi as [_ Hs ????]. split; cbn; try done; rewrite ?Hq.
    + eapply m_starting; cbn; rewrite ?Hq; try done. constructor.
    + cbn. by rewrite list_elem_of_singleton.
  - eexists. split; [done|]. by apply stop_ok.
  - destruct Hl as (Hst & Hch & Hq & Ha). unfold restart.
    assert (timers c = []) as Ht.
    { destruct (ci_mode _ _ Hi); congruence || auto. }
    assert (ready (set_connect true (set_delays [] (set_delay kInitRetryDelayMs (setState kDisconnected c)))))
      as Hr by (split_and!; try done; cbn; rewrite Hq; constructor).
    apply startInLoop_ok; try done. eapply call_inv; try done. apply live_disconnected. congruence.
  - destruct (queue c) as [|f fs] eqn:Hq; [by eauto|]. apply functor_ok; [|done].
    by destruct c; cbn in *; subst.
  - destruct Hl as [Ha Hnr]. destruct (timers c) as [|t ts] eqn:Ht; [by eauto|].
    destruct Hi as [Hm Hs Hd Hn Htm Hstop].
    assert (ready (set_timers ts c)) as Hr.
    { destruct Hm as [??? Hlen|q ?? Hq|ch ??? Hq|ch ??? (q1 & q2 & Hq & _)|?? Hq]; try congruence.
      - rewrite Ht in Hlen. destruct ts; [by split_and!|cbn in Hlen; lia].
      - destruct Hnr. rewrite Hq. apply elem_of_app. right. by left. }
    apply startInLoop_ok; try done. split; try done.
    + destruct Hr as (? & ? & Ht' & ?). apply m_idle; rewrite ?Ht'; cbn; auto.
    + rewrite Ht in Htm. by inversion Htm.
Qed.

Lemma ctor_inv : cinv false Connector_ctor.
Proof. split; try done. by apply m_idle; cbn; try constructor; auto. Qed.

Lemma history_inv ls c : cinv false c -> history_ok c ls ->
  exists c', foldM (connector_step owner) c ls = Ok c' /\ cinv false c'.
Proof.
  revert c. induction ls as [|l ls IH]; intros c Hi Hl; [by exists c|].
  destruct Hl as [Hl Hls]. destruct (step_ok c l Hi Hl) as (c1 & E & Hi1).
  cbn [foldM]. rewrite E. apply IH; auto.
Qed.

End Owner.

(** ** Stopping *)

(** Neither [start] nor [restart] is called. *)
Definition no_start (l : connector_label) : bool :=
  match l with
  | LStart _ | LStartRemote | LRestart _ => false
  | _ => true
  end.

Lemma retry_stopped fd c : connect_ c = false -> retry fd c = setState kDisconnected (close fd c).
Proof. intros H. unfold retry. cbn. by rewrite H. Qed.

(** [c'] is stopped and has nothing opened or handed over since [c]; an
    attempt still under way has its stop coming. *)
Definition quiet (c c' : Connector) : Prop :=
  connect_ c' = false /\ opened c' = opened c /\ handed c' = handed c /\
  (state_ c' = kConnecting -> FStopInLoop ∈ queue c').

Lemma startInLoop_quiet a c0 c c' : quiet c0 c -> startInLoop a c = Ok c' -> quiet c0 c'.
Proof.
  intros (H & ? & ? & ?). unfold startInLoop. rewrite H. case_bool_decide; cbn; [|done].
  by intros [= <-].
Qed.

(** Ending the attempt under way. *)
Lemma removed_quiet c0 c fd c1 : connect_ c = false -> opened c = opened c0 -> handed c = handed c0 ->
  removeAndResetChannel c = Ok (fd, c1) ->
  connect_ c1 = false /\ quiet c0 (retry fd c1) /\ quiet c0 (close fd (setState kConnected c1)).
Proof.
  intros H ??. unfold removeAndResetChannel, on_channel. destruct (channel_ c); cbn; [|done].
  intros [= <- <-]. by rewrite retry_stopped.
Qed.

Lemma callback_quiet st cb c0 c c' : quiet c0 c -> connector_callback owner st cb c = Ok c' -> quiet c0 c'.
Proof.
  intros Hq. pose proof Hq as (Hc & Ho & Hh & _).
  pose proof (removed_quiet c0 c) as Hr. destruct cb; cbn; try (by intros [= <-]).
  - unfold handleWrite. case_bool_decide; [|case_bool_decide; cbn; [by intros [= <-]|done]].
    destruct (removeAndResetChannel c) as [[fd c1]|f]; cbn; [|done].
    destruct (Hr fd c1) as (-> & ? & ?); [done..|]. by repeat case_match; intros [= <-].
  - unfold handleError. case_bool_decide; [|by intros [= <-]].
    destruct (removeAndResetChannel c) as [[fd c1]|f]; cbn; [|done].
    destruct (Hr fd c1) as (? & ? & ?); [done..|]. by intros [= <-].
Qed.

Lemma put_quiet c0 ch c : quiet c0 c -> quiet c0 (put_channel ch c).
Proof. unfold put_channel. by destruct (channel_ c). Qed.

Lemma functor_quiet a f c0 c c' : quiet c0 (set_queue (f :: queue c) c) -> run_functor a f c = Ok c' -> quiet c0 c'.
Proof.
  intros (Hc & Ho & Hh & Hq). cbn in *.
  assert (f <> FStopInLoop -> quiet c0 c) as Hq'.
  { intros. split_and!; try done. intros Hs. specialize (Hq Hs). apply elem_of_cons in Hq as [?|?]; congruence. }
  destruct f; cbn.
  - apply startInLoop_quiet. by apply Hq'.
  - unfold stopInLoop. case_bool_decide as Hs; [|by intros [= <-]].
    destruct (removeAndResetChannel _) as [[fd c1]|f] eqn:E; cbn; [|done].
    destruct (removed_quiet c0 (setState kDisconnected c) fd c1) as (? & ? & ?); [done..|]. by intros [= <-].
  - unfold resetChannel. destruct (channel_ c) as [ch|]; [|intros [= <-]; by apply Hq'].
    unfold chan_delete. destruct (eventHandling_ ch), (addedToLoop_ ch); cbn; try done.
    intros [= <-]. by apply Hq'.
Qed.

Lemma step_quiet l c0 c c' : no_start l = true -> quiet c0 c -> connector_step owner c l = Ok c' -> quiet c0 c'.
Proof.
  intros Hl Hq. destruct l as [a| | |a|revents st|a|a]; try done; cbn.
  - intros [= <-]. destruct Hq as (? & ? & ? & ?). split_and!; try done. cbn. intros ?.
    apply elem_of_app. right. by left.
  - destruct (channel_ c) as [ch|]; [|by intros [= <-]]. destruct (addedToLoop_ ch); [|by intros [= <-]].
    apply (handleEvent_inv _ _ _ (quiet c0)); eauto using put_quiet, callback_quiet.
  - destruct (queue c) as [|f fs] eqn:Hf; [by intros [= <-]|].
    apply functor_quiet. by destruct c; cbn in *; subst.
  - destruct (timers c); [by intros [= <-]|]. by apply startInLoop_quiet.
Qed.

Lemma steps_quiet ls : forall c0 c c', forallb no_start ls = true -> quiet c0 c ->
  foldM (connector_step owner) c ls = Ok c' -> quiet c0 c'.
Proof.
  induction ls as [|l ls IH]; intros c0 c c'; cbn; [by intros _ ? [= <-]|].
  intros [Hl Hls]%andb_true_iff Hq. destruct (connector_step owner c l) as [c1|] eqn:E; cbn; [|done].
  apply IH; [done|]. by eapply step_quiet.
Qed.

End Safety.

(** ** Theorems *)


Lemma backoff_values n : backoff n ∈ [500; 1000; 2000; 4000; 8000; 16000; 30000].
Proof.
  assert (n < 6 \/ 6 <= n)%nat as [Hn|Hn] by lia.
  - do 6 (destruct n as [|n]; [by apply (bool_decide_unpack _)|]). lia.
  - replace (backoff n) with 30000; [by apply (bool_decide_unpack _)|].
    unfold backoff, kInitRetryDelayMs, kMaxRetryDelayMs.
    pose proof (Z.pow_le_mono_r 2 6 (Z.of_nat n)). lia.
Qed.

(** The seconds handed to [runAfter] lose nothing in binary64. *)
Lemma delay_exact n : delta_of (ms_to_seconds (backoff n)) = 1000 * backoff n.
Proof.
  assert (Forall (fun d => delta_of (ms_to_seconds d) = 1000 * d) [500; 1000; 2000; 4000; 8000; 16000; 30000])
    as H by (repeat constructor; vm_compute; reflexivity).
  rewrite Forall_forall in H. apply H, backoff_values.
Qed.

(** The delays a connector waits before its retries, since it was
    created or restarted, are 500 ms doubled each time and capped at 30 s;
    the next one is in retryDelayMs_, and the pending timer was asked for
    exactly the last one: the division by 1000.0 and the conversion back to
    microseconds lose nothing. *)
Lemma connector_backoff (owner : list connector_call) (ls : list connector_label) :
  Forall (eq CStop) owner -> history_ok owner Connector_ctor ls ->
  exists c, foldM (connector_step owner) Connector_ctor ls = Ok c /\
    delays c = backoff <$> seq 0 (length (delays c)) /\
    retryDelayMs_ c = backoff (length (delays c)) /\
    Forall (fun d => 500 <= d <= 30000) (delays c) /\
    Forall (fun t => exists d, last (delays c) = Some d /\ delta_of t = 1000 * d) (timers c).
Proof.
  intros Ho Hl. destruct (history_inv owner Ho ls _ ctor_inv Hl) as (c & E & [_ _ Hd Hn Ht _]).
  exists c. split_and!; [done|done|done| |].
  - rewrite Hd. apply Forall_fmap, Forall_true. intros n. apply backoff_range.
  - eapply Forall_impl; [exact Ht|]. intros t (d & Hlast & ->). exists d. split; [done|].
    rewrite Hd, fmap_last in Hlast. destruct (last (seq _ _)); cbn in Hlast; [|done].
    simplify_eq. apply delay_exact.
Qed.

(** After stop() a connector that is not started again opens no socket
    and hands none over, whatever is under way; once the loop has run its
    functors, every socket it ever opened is closed or was handed over
    before the stop. *)
Lemma connector_stop_final (owner : list connector_call) (before after : list connector_label) (c : Connector) :
  Forall (eq CStop) owner -> history_ok owner Connector_ctor (before ++ LStop :: after) ->
  forallb no_start after = true ->
  foldM (connector_step owner) Connector_ctor before = Ok c ->
  exists c', foldM (connector_step owner) (stop c) after = Ok c' /\
    opened c' = opened c /\ handed c' = handed c /\
    (queue c' = [] -> opened c ≡ₚ closed c' ++ handed c).
Proof.
  intros Ho Hl Hn E. destruct (history_inv owner Ho _ _ ctor_inv Hl) as (c' & E' & Hi).
  rewrite foldM_app, E in E'. cbn in E'.
  destruct (steps_quiet owner after c (stop c) c' Hn) as (Hc & Hop & Hh & Hq); [|done|].
  { split_and!; try done. intros _. cbn. apply elem_of_app. right. by left. }
  exists c'. split_and!; try done. intros Hq0.
  rewrite <- Hop, (ci_sockets _ _ Hi), Hh, live_disconnected, app_nil_r; [done|].
  intros Hs%Hq. rewrite Hq0 in Hs. by apply not_elem_of_nil in Hs.
Qed.

(** Starting a connector again is unsafe in two situations stop() leaves
    behind. A retry timer stop() did not cancel finds the new attempt under
    way and fails the assertion of startInLoop; and when the connection
    completes before stopInLoop runs, handleWrite closes the socket but
    leaves the state kConnected, so any later start fails it too. *)
Lemma start_again_asserts (owner : list connector_call) (a a' : connect_answer) (c : Connector) (ch : Channel) :
  0 <= ca_sockfd a -> ca_errno a = EINPROGRESS ->
  (state_ c = kDisconnected -> channel_ c = None -> timers c <> [] ->
     exists c1, start a c = Ok c1 /\ connector_step owner c1 (LTimer a') = Fail AssertFail) /\
  (state_ c = kConnecting -> channel_ c = Some ch -> connect_ c = false ->
     exists c1, handleWrite owner (mkStatus 0 false) c = Ok c1 /\ closed c1 = closed c ++ [fd_ ch] /\
       handed c1 = handed c /\ start a c1 = Fail AssertFail).
Proof.
  intros Hfd He. split.
  - intros Hs Hc Ht. destruct (timers c) as [|t ts] eqn:Et; [done|].
    unfold start, startInLoop, connect, connecting, c_assert. cbn.
    rewrite He, Hs, Hc. zcases; [lia|]. cbn. eexists. split; [done|]. cbn. by rewrite Et.
  - intros Hs Hc Hn. unfold handleWrite. rewrite bool_decide_eq_true_2, (removeAndResetChannel_eq _ _ Hc) by done.
    cbn. rewrite Hn. by eexists.
Qed.

(** ** Examples *)

Definition allowedb (c : Connector) (l : connector_label) : bool :=
  match l with
  | LStart a => bool_decide (idle c) && (0 <=? ca_sockfd a)
  | LStartRemote => bool_decide (idle c)
  | LStop => true
  | LRestart a => bool_decide (state_ c = kConnected) && bool_decide (channel_ c = None) &&
      bool_decide (queue c = []) && (0 <=? ca_sockfd a)
  | LEvent _ _ => true
  | LRunFunctor a => 0 <=? ca_sockfd a
  | LTimer a => (0 <=? ca_sockfd a) && bool_decide (FResetChannel ∉ queue c)
  end.

Fixpoint history_okb (owner : list connector_call) (c : Connector) (ls : list connector_label) : bool :=
  match ls with
  | [] => true
  | l :: ls' =>
      allowedb c l &&
      match connector_step owner c l with
      | Ok c' => history_okb owner c' ls'
      | Fail _ => true
      end
  end.

Lemma history_okb_sound owner ls : forall c, history_okb owner c ls = true -> history_ok owner c ls.
Proof.
  induction ls as [|l ls IH]; intros c; cbn; [done|].
  intros [Hl Hs]%andb_true_iff. split.
  - destruct l; cbn in *; unfold answer_ok; repeat (apply andb_true_iff in Hl as [Hl ?]);
      rewrite ?bool_decide_eq_true in *; split_and?; try done; by apply Z.leb_le.
  - intros c' E. rewrite E in Hs. by apply IH.
Qed.

Definition refused (fd : Z) : connect_answer := mkAnswer fd ECONNREFUSED.
Definition in_progress (fd : Z) : connect_answer := mkAnswer fd EINPROGRESS.
Definition writable : connector_label := LEvent POLLOUT (mkStatus 0 false).

(** Refused twice, then connected; the connection ends and is reopened; the
    new attempt reports an error and is retried, and the owner stops. *)
Definition demo_run : list connector_label :=
  [LStart (refused 5); LTimer (refused 5); LTimer (in_progress 5); writable; LRunFunctor (refused 5);
   LRestart (in_progress 6); LEvent (Z.lor POLLERR POLLOUT) (mkStatus 111 false); LRunFunctor (refused 5);
   LTimer (in_progress 6); LStop; LRunFunctor (refused 7); LRunFunctor (refused 7)].


Lemma connector_backoff_witness :
  exists c, foldM (connector_step []) Connector_ctor
      [LStart (refused 5); LTimer (refused 5); LTimer (refused 5)] = Ok c /\
    delays c = backoff <$> seq 0 (length (delays c)).
Proof.
  destruct (connector_backoff [] [LStart (refused 5); LTimer (refused 5); LTimer (refused 5)]) as (c & E & Hd & _).
  - constructor.
  - apply history_okb_sound. vm_compute. reflexivity.
  - exists c. exact (conj E Hd).
Defined.

Definition demo_connecting : Connector :=
  match start (in_progress 5) Connector_ctor with Ok c => c | Fail _ => Connector_ctor end.

Lemma connector_stop_final_witness :
  exists c', foldM (connector_step []) (stop demo_connecting) [LRunFunctor (refused 6); LRunFunctor (refused 6)] = Ok c' /\
    handed c' = [].
Proof.
  destruct (connector_stop_final [] [LStart (in_progress 5)] [LRunFunctor (refused 6); LRunFunctor (refused 6)]
    demo_connecting) as (c' & E & _ & Hh & _).
  - constructor.
  - apply history_okb_sound. vm_compute. reflexivity.
  - reflexivity.
  - reflexivity.
  - exists c'. exact (conj E Hh).
Defined.

(** Both situations are reached from a fresh connector by allowed steps. *)
Lemma start_again_asserts_witness :
  (exists c c1, foldM (connector_step []) Connector_ctor [LStart (refused 5); LStop; LRunFunctor (refused 6)] = Ok c /\
     start (in_progress 5) c = Ok c1 /\ connector_step [] c1 (LTimer (refused 6)) = Fail AssertFail) /\
  (exists c c1, foldM (connector_step []) Connector_ctor [LStart (in_progress 5); LStop] = Ok c /\
     handleWrite [] (mkStatus 0 false) c = Ok c1 /\ start (in_progress 6) c1 = Fail AssertFail).
Proof.
  split.
  - destruct (foldM (connector_step []) Connector_ctor [LStart (refused 5); LStop; LRunFunctor (refused 6)])
      as [c|] eqn:E; [|exfalso; vm_compute in E; discriminate].
    vm_compute in E. injection E as <-.
    match goal with |- exists c0 _, Ok ?c = _ /\ _ =>
      destruct (proj1 (start_again_asserts [] (in_progress 5) (refused 6) c (Channel_ctor 5)
        ltac:(vm_compute; discriminate) eq_refl) eq_refl eq_refl ltac:(discriminate)) as (c1 & E1 & E2);
      exists c, c1; exact (conj eq_refl (conj E1 E2)) end.
  - destruct (foldM (connector_step []) Connector_ctor [LStart (in_progress 5); LStop])
      as [c|] eqn:E; [|exfalso; vm_compute in E; discriminate].
    vm_compute in E. injection E as <-.
    match goal with |- exists c0 _, Ok ?c = _ /\ _ =>
      destruct (proj2 (start_again_asserts [] (in_progress 6) (refused 6) c (the_channel c)
        ltac:(vm_compute; discriminate) eq_refl) eq_refl eq_refl eq_refl) as (c1 & E1 & _ & _ & E2);
      exists c, c1; exact (conj eq_refl (conj E1 E2)) end.
Defined.
