(* ===== verification/EventLoopThreadPool.v ===== *)
(** * EventLoopThreadPool: src/mynetlib/net/EventLoopThreadPool.h, .cc

    The loops of a server's I/O threads and the round-robin choice among
    them. Loops are named by their addresses; [startLoop i] is the address
    EventLoopThread::startLoop returned for the [i]-th thread. *)

From S2P Require Import Prelude Format.

Record EventLoopThreadPool : Type := mkPool {
  baseLoop_ : Z;
  pool_name : list byte;
  pool_started : bool;
  numThreads_ : Z;
  next_ : Z;
  threads_ : list (list byte);
  loops_ : list Z;
}.

Definition EventLoopThreadPool_ctor (baseLoop : Z) (nameArg : list byte) : EventLoopThreadPool :=
  mkPool baseLoop nameArg false 0 0 [] [].

Definition pool_setThreadNum (numThreads : Z) (p : EventLoopThreadPool) : EventLoopThreadPool :=
  mkPool (baseLoop_ p) (pool_name p) (pool_started p) numThreads (next_ p) (threads_ p) (loops_ p).

Definition set_next (x : Z) (p : EventLoopThreadPool) : EventLoopThreadPool :=
  mkPool (baseLoop_ p) (pool_name p) (pool_started p) (numThreads_ p) x (threads_ p) (loops_ p).

(** The body of the loop of [start]: the thread's name and its loop. *)
Definition start_thread (startLoop : Z -> Z) (p : EventLoopThreadPool) (i : Z) : EventLoopThreadPool :=
  let buf := snprintf (zlen (pool_name p) + 32) (pool_name p ++ fmt_d i) in
  mkPool (baseLoop_ p) (pool_name p) (pool_started p) (numThreads_ p) (next_ p)
    (threads_ p ++ [buf]) (loops_ p ++ [startLoop i]).

(** [start]; the loops the thread-init callback ran for in this thread. *)
Definition pool_start (startLoop : Z -> Z) (has_cb : bool) (p : EventLoopThreadPool) :
    outcome (EventLoopThreadPool * list Z) :=
  c_assert (negb (pool_started p));;
  let p1 := mkPool (baseLoop_ p) (pool_name p) true (numThreads_ p) (next_ p) (threads_ p) (loops_ p) in
  let p2 := foldl (start_thread startLoop) p1 (Z.of_nat <$> seq 0 (Z.to_nat (numThreads_ p))) in
  Ok (p2, if (numThreads_ p2 =? 0) && has_cb then [baseLoop_ p2] else []).

Definition getNextLoop (p : EventLoopThreadPool) : outcome (Z * EventLoopThreadPool) :=
  c_assert (pool_started p);;
  match loops_ p with
  | [] => Ok (baseLoop_ p, p)
  | _ =>
      if next_ p <? 0 then Fail OutOfBounds else
      match loops_ p !! Z.to_nat (next_ p) with
      | None => Fail OutOfBounds
      | Some loop =>
          let n := s32 (next_ p + 1) in
          Ok (loop, set_next (if zlen (loops_ p) <=? u64 n then 0 else n) p)
      end
  end.

Definition getLoopForHash (hashCode : Z) (p : EventLoopThreadPool) : outcome Z :=
  match loops_ p with
  | [] => Ok (baseLoop_ p)
  | _ => match loops_ p !! Z.to_nat (hashCode mod zlen (loops_ p)) with
         | Some loop => Ok loop
         | None => Fail OutOfBounds
         end
  end.

Definition getAllLoops (p : EventLoopThreadPool) : outcome (list Z) :=
  c_assert (pool_started p);;
  Ok (match loops_ p with [] => [baseLoop_ p] | ls => ls end).

(** [k] connections accepted one after the other. *)
Fixpoint next_loops (k : nat) (p : EventLoopThreadPool) : outcome (list Z * EventLoopThreadPool) :=
  match k with
  | O => Ok ([], p)
  | S k' =>
      '(loop, p1) ← getNextLoop p;
      '(ls, p2) ← next_loops k' p1;
      Ok (loop :: ls, p2)
  end.

(** ** Invariant *)

Definition pool_inv (p : EventLoopThreadPool) : Prop :=
  zlen (loops_ p) < 2 ^ 31 /\ (loops_ p = [] \/ 0 <= next_ p < zlen (loops_ p)).

Lemma start_threads_loops startLoop idx : forall p,
  loops_ (foldl (start_thread startLoop) p idx) = loops_ p ++ (startLoop <$> idx) /\
  next_ (foldl (start_thread startLoop) p idx) = next_ p /\
  numThreads_ (foldl (start_thread startLoop) p idx) = numThreads_ p /\
  pool_started (foldl (start_thread startLoop) p idx) = pool_started p /\
  baseLoop_ (foldl (start_thread startLoop) p idx) = baseLoop_ p.
Proof.
  induction idx as [|i idx IH]; intros p; cbn; [by rewrite app_nil_r|].
  destruct (IH (start_thread startLoop p i)) as (-> & -> & -> & -> & ->). cbn.
  by rewrite <- app_assoc.
Qed.

Lemma pool_start_ok startLoop has_cb p :
  pool_started p = false -> loops_ p = [] -> next_ p = 0 -> 0 <= numThreads_ p < 2 ^ 31 ->
  exists p', pool_start startLoop has_cb p =
      Ok (p', if (numThreads_ p =? 0) && has_cb then [baseLoop_ p] else []) /\
    pool_inv p' /\ pool_started p' = true /\ next_ p' = 0 /\ baseLoop_ p' = baseLoop_ p /\
    loops_ p' = startLoop <$> (Z.of_nat <$> seq 0 (Z.to_nat (numThreads_ p))).
Proof.
  intros Hs Hl Hx Hn. unfold pool_start, c_assert. rewrite Hs. cbn [negb mbind outcome_bind].
  set (p1 := mkPool _ _ _ _ _ _ _). set (idx := Z.of_nat <$> seq 0 _).
  destruct (start_threads_loops startLoop idx p1) as (Hl' & Hx' & Hn' & Hs' & Hb').
  set (p' := foldl _ p1 idx) in *. cbn in Hx', Hn', Hs', Hb'.
  assert (loops_ p' = startLoop <$> idx) as Hl2 by (rewrite Hl'; unfold p1; cbn [loops_]; by rewrite Hl).
  assert (zlen (startLoop <$> idx) = numThreads_ p) as E
    by (unfold zlen, idx; rewrite !length_fmap, length_seq; lia).
  exists p'. rewrite Hn', Hb'. split_and!; [done| |done|congruence|done|congruence].
  unfold pool_inv. rewrite Hl2, E, Hx', Hx.
  split; [lia|]. destruct (Z.eq_dec (numThreads_ p) 0) as [E0|]; [|right; lia].
  left. apply zlen_nil_iff. congruence.
Qed.

Lemma getNextLoop_ok p : pool_inv p -> pool_started p = true -> loops_ p <> [] ->
  exists loop, loops_ p !! Z.to_nat (next_ p) = Some loop /\
    getNextLoop p = Ok (loop, set_next ((next_ p + 1) mod zlen (loops_ p)) p).
Proof.
  intros [Hlen [?|Hn]] Hs Hne; [done|]. unfold getNextLoop, c_assert. rewrite Hs. cbn.
  destruct (lookup_lt_is_Some_2 (loops_ p) (Z.to_nat (next_ p))) as [loop Hl]; [unfold zlen in Hn; lia|].
  exists loop. split; [done|]. destruct (loops_ p) as [|l0 ls] eqn:E; [done|]. rewrite <- E in *.
  unfold s32. rewrite Hl, signed_small, u64_small by (cbn; lia). zcases; try lia.
  - replace (next_ p + 1) with (zlen (loops_ p)) by lia. by rewrite Z.mod_same by lia.
  - by rewrite Z.mod_small by lia.
Qed.

(** Successive calls walk round the loops. *)
Lemma next_loops_ok k : forall p, pool_inv p -> pool_started p = true -> loops_ p <> [] ->
  exists ls, next_loops k p = Ok (ls, set_next ((next_ p + Z.of_nat k) mod zlen (loops_ p)) p) /\
    length ls = k /\
    forall i, (i < k)%nat -> ls !! i = loops_ p !! Z.to_nat ((next_ p + Z.of_nat i) mod zlen (loops_ p)).
Proof.
  induction k as [|k IH]; intros p Hi Hs Hne.
  - exists []. destruct Hi as [? [?|?]]; [done|]. rewrite Z.add_0_r, Z.mod_small by done.
    split_and!; [by destruct p|done|lia].
  - assert (0 < zlen (loops_ p)) as Hpos by (destruct (loops_ p); [done|rewrite zlen_cons; pose proof (zlen_nonneg l); lia]).
    destruct (getNextLoop_ok p Hi Hs Hne) as (loop & Hl & E). cbn [next_loops]. rewrite E. cbn.
    destruct (IH (set_next ((next_ p + 1) mod zlen (loops_ p)) p)) as (ls & E' & Hlen & Hls); try done.
    { destruct Hi. split; [done|]. right. cbn. by apply Z.mod_pos_bound. }
    cbn in *. rewrite E'. cbn. exists (loop :: ls). split_and!.
    + rewrite Z.add_mod_idemp_l by lia. replace (next_ p + 1 + Z.of_nat k) with (next_ p + Z.of_nat (S k)) by lia. done.
    + cbn. by rewrite Hlen.
    + intros [|i] Hik; cbn.
      * rewrite Z.add_0_r. destruct Hi as [? [?|?]]; [done|]. by rewrite Z.mod_small.
      * rewrite Hls by lia. rewrite Z.add_mod_idemp_l by lia. do 3 f_equal. lia.
Qed.

(** ** Fairness *)

Lemma next_share n j k : 0 < n -> 0 <= j < n -> 0 <= k ->
  (k + 1 + n - 1 - j) / n = (k + n - 1 - j) / n + (if k mod n =? j then 1 else 0).
Proof.
  intros Hn Hj Hk. pose proof (Z.mod_pos_bound k n Hn) as Hm.
  rewrite (Z.div_mod k n) at 1 2 by lia. set (q := k / n). set (r := k mod n) in *.
  replace (n * q + r + 1 + n - 1 - j) with (r + n - j + q * n) by lia.
  replace (n * q + r + n - 1 - j) with (r + n - 1 - j + q * n) by lia.
  rewrite !Z.div_add by lia. zcases.
  - subst. replace (r + n - r) with (1 * n) by lia. rewrite Z.div_mul, Z.div_small; lia.
  - assert (r < j \/ j < r) as [?|?] by lia.
    + rewrite !Z.div_small by lia. lia.
    + replace (r + n - j) with (r - j + 1 * n) by lia.
      replace (r + n - 1 - j) with (r - j - 1 + 1 * n) by lia.
      rewrite !Z.div_add, !Z.div_small by lia. lia.
Qed.

Lemma share_count (f : Z -> Z) n j k : 0 < n -> 0 <= j < n ->
  (forall i, 0 <= i < n -> f i = f j -> i = j) ->
  zlen (filter (eq (f j)) ((fun i => f (Z.of_nat i mod n)) <$> seq 0 k)) = (Z.of_nat k + n - 1 - j) / n.
Proof.
  intros Hn Hj Hinj. induction k as [|k IH].
  - rewrite Z.div_small by lia. done.
  - rewrite seq_S, fmap_app, filter_app, zlen_app, IH, Nat2Z.inj_succ. unfold Z.succ.
    rewrite next_share by lia. f_equal.
    change ((fun i => f (Z.of_nat i mod n)) <$> [(0 + k)%nat]) with [f (Z.of_nat k mod n)].
    rewrite filter_cons, filter_nil.
    pose proof (Z.mod_pos_bound (Z.of_nat k) n Hn).
    destruct (decide _) as [E|E]; zcases; try done.
    + exfalso. eauto.
    + subst. done.
Qed.

(** A server's pool started with n threads hands out its loops in turn:
    after k calls of getNextLoop the j-th loop was chosen exactly
    (k + n - 1 - j) / n times, so any two loops differ by at most one
    connection, and the index never leaves the vector. *)
Lemma round_robin_fair (base : Z) (name : list byte) (n : Z) (startLoop : Z -> Z) (has_cb : bool) (k : nat) :
  0 < n < 2 ^ 31 -> (forall i j, 0 <= i < n -> 0 <= j < n -> startLoop i = startLoop j -> i = j) ->
  exists p p' ls,
    pool_start startLoop has_cb (pool_setThreadNum n (EventLoopThreadPool_ctor base name)) = Ok (p, []) /\
    getAllLoops p = Ok (startLoop <$> (Z.of_nat <$> seq 0 (Z.to_nat n))) /\
    next_loops k p = Ok (ls, p') /\ length ls = k /\
    forall j, 0 <= j < n -> zlen (filter (eq (startLoop j)) ls) = (Z.of_nat k + n - 1 - j) / n.
Proof.
  intros Hn Hinj. set (is0 := Z.of_nat <$> seq 0 (Z.to_nat n)).
  destruct (pool_start_ok startLoop has_cb (pool_setThreadNum n (EventLoopThreadPool_ctor base name)))
    as (p & Ep & Hpi & Hst & Hx & _ & Hl); [done..|cbn [numThreads_ pool_setThreadNum]; lia|].
  cbn [numThreads_ pool_setThreadNum] in *. fold is0 in Hl.
  assert (zlen (loops_ p) = n) as Hlen by (rewrite Hl; unfold zlen, is0; rewrite !length_fmap, length_seq; lia).
  assert (loops_ p <> []) as Hne by (intros E; rewrite E, zlen_nil in Hlen; lia).
  destruct (next_loops_ok k p Hpi Hst Hne) as (ls & E & Hk & Hls).
  exists p. do 2 eexists. split_and!; [| |exact E|done|].
  - rewrite Ep. zcases; [lia|]. done.
  - unfold getAllLoops, c_assert. rewrite Hst, Hl. cbn. destruct (startLoop <$> is0) eqn:E0; [congruence|done].
  - intros j Hj.
    assert (ls = (fun i => startLoop (Z.of_nat i mod n)) <$> seq 0 k) as ->; [|apply share_count; lia || auto].
    apply list_eq_same_length with k; [by rewrite length_fmap, length_seq|done|].
    intros i x y Hi Hx1 Hy. rewrite Hls, Hx, Hlen, Hl, Z.add_0_l in Hx1 by done.
    rewrite list_lookup_fmap, lookup_seq_lt in Hy by done. cbn in Hy. injection Hy as <-.
    pose proof (Z.mod_pos_bound (Z.of_nat i) n ltac:(lia)).
    unfold is0 in Hx1. rewrite !list_lookup_fmap, lookup_seq_lt in Hx1 by lia. cbn in Hx1. injection Hx1 as <-.
    by rewrite Z2Nat.id by lia.
Qed.

Lemma round_robin_fair_witness :
  exists p p' ls,
    pool_start (fun i => 100 + i) true (pool_setThreadNum 3 (EventLoopThreadPool_ctor 1 [])) = Ok (p, []) /\
    next_loops 7 p = Ok (ls, p') /\ zlen (filter (eq 100) ls) = 3.
Proof.
  destruct (round_robin_fair 1 [] 3 (fun i => 100 + i) true 7 ltac:(lia) ltac:(cbv beta; intros; lia))
    as (p & p' & ls & E & _ & E' & _ & H).
  exists p, p', ls. exact (conj E (conj E' (H 0 ltac:(lia)))).
Defined.
