(* ===== verification/TcpServer.v ===== *)
(** * TcpServer: src/mynetlib/net/TcpServer.h, TcpServer.cc

    The server in the acceptor's loop, the connections it shares with the
    I/O loops, and the functors queued in each loop. Connections are heap
    objects held by [shared_ptr]s: one in [connections_] and one in every
    queued functor; the last one to go runs the destructor. A connection is
    described by what its owner sees of it - name, loop, state, whether its
    channel is registered and has events, and how many shutdown() calls of
    users have tested the state and not stored it yet -; what it does in between is the subject of
    the TcpConnection files. *)

From stdpp Require Import gmap.
From S2P Require Import Prelude Format TcpConnection EventLoopThreadPool.

(** Functors bound to a connection. *)
Inductive server_functor : Set :=
| FConnectEstablished (p : Z)
| FRemoveConnectionInLoop (p : Z)
| FConnectDestroyed (p : Z).

#[export] Instance server_functor_eq_dec : EqDecision server_functor.
Proof. solve_decision. Defined.

Definition functor_conn (f : server_functor) : Z :=
  match f with
  | FConnectEstablished p | FRemoveConnectionInLoop p | FConnectDestroyed p => p
  end.

Record conn : Type := mkSConn {
  c_name : list byte;
  c_loop : Z;
  c_sockfd : Z;
  c_state : StateE;
  c_registered : bool;
  c_events : bool;
  c_shutting : nat;
}.

Record TcpServer : Type := mkServer {
  ipPort_ : list byte;
  name_ : list byte;
  threadPool_ : EventLoopThreadPool;
  started_ : Z;
  listenning_ : bool;
  nextConnId_ : Z;
  connections_ : gmap (list byte) Z;
}.

(** The process: the server object, unless it was destroyed, the connections
    on the heap, and the functors pending in each loop. *)
Record world : Type := mkWorld {
  server : option TcpServer;
  conns : gmap Z conn;
  queues : gmap Z (list server_functor);
}.

Definition set_server (x : option TcpServer) (w : world) : world := mkWorld x (conns w) (queues w).
Definition set_conns (x : gmap Z conn) (w : world) : world := mkWorld (server w) x (queues w).

Definition loop_queue (w : world) (loop : Z) : list server_functor := default [] (queues w !! loop).

Definition set_loop_queue (loop : Z) (q : list server_functor) (w : world) : world :=
  mkWorld (server w) (conns w) (<[loop := q]> (queues w)).

(** ** Access through pointers *)

Definition get_server (w : world) : outcome TcpServer :=
  match server w with Some s => Ok s | None => Fail UseAfterFree end.

Definition get_conn (w : world) (p : Z) : outcome conn :=
  match conns w !! p with Some c => Ok c | None => Fail UseAfterFree end.

Definition set_conn_state (st : StateE) (registered events : bool) (c : conn) : conn :=
  mkSConn (c_name c) (c_loop c) (c_sockfd c) st registered events (c_shutting c).

Definition set_shutting (n : nat) (c : conn) : conn :=
  mkSConn (c_name c) (c_loop c) (c_sockfd c) (c_state c) (c_registered c) (c_events c) n.

Definition put_conn (p : Z) (c : conn) (w : world) : world := set_conns (<[p := c]> (conns w)) w.

(** Whether a [shared_ptr] to the connection is left. *)
Definition in_map (w : world) (p : Z) : bool :=
  match server w with
  | Some s => bool_decide (p ∈ (map_to_list (connections_ s)).*2)
  | None => false
  end.

Definition referenced (w : world) (p : Z) : bool :=
  in_map w p || existsb (fun q => bool_decide (p ∈ functor_conn <$> q)) (map_to_list (queues w)).*2.

(** A [shared_ptr] goes out of scope: [~TcpConnection] of the last one. *)
Definition release (p : Z) (w : world) : outcome world :=
  if referenced w p then Ok w
  else
    match conns w !! p with
    | None => Ok w
    | Some c =>
        c_assert (state_eqb (c_state c) kDisconnected);;
        c_assert (negb (c_registered c));;
        Ok (set_conns (delete p (conns w)) w)
    end.

(** ** What the owner calls on a connection *)

Definition establish (p : Z) (w : world) : outcome world :=
  c ← get_conn w p;
  c_assert (state_eqb (c_state c) kConnecting);;
  Ok (put_conn p (set_conn_state kConnected true true c) w).

(** [connectDestroyed] takes the channel's events down in state kConnected
    only; [Channel::remove] refuses a channel that has events. *)
Definition destroy (p : Z) (w : world) : outcome world :=
  c ← get_conn w p;
  let c1 := if state_eqb (c_state c) kConnected then set_conn_state kDisconnected (c_registered c) false c else c in
  c_assert (negb (c_events c1));;
  Ok (put_conn p (set_conn_state (c_state c1) false (c_events c1) c1) w).

Definition queueInLoop (loop : Z) (f : server_functor) (w : world) : world :=
  set_loop_queue loop (loop_queue w loop ++ [f]) w.

(** ** The server *)

Definition TcpServer_ctor (loop : Z) (ipPort nameArg : list byte) : TcpServer :=
  mkServer ipPort nameArg (EventLoopThreadPool_ctor loop nameArg) 0 false 1 ∅.

Definition setThreadNum (numThreads : Z) (s : TcpServer) : outcome TcpServer :=
  c_assert (0 <=? numThreads);;
  Ok (mkServer (ipPort_ s) (name_ s) (pool_setThreadNum numThreads (threadPool_ s)) (started_ s)
        (listenning_ s) (nextConnId_ s) (connections_ s)).

(** [start]; [Acceptor::listen] runs in this thread, the acceptor's. *)
Definition start (startLoop : Z -> Z) (has_cb : bool) (s : TcpServer) : outcome TcpServer :=
  if started_ s =? 0 then
    '(pool, _) ← pool_start startLoop has_cb (threadPool_ s);
    c_assert (negb (listenning_ s));;
    Ok (mkServer (ipPort_ s) (name_ s) pool 1 true (nextConnId_ s) (connections_ s))
  else Ok (mkServer (ipPort_ s) (name_ s) (threadPool_ s) 1 (listenning_ s) (nextConnId_ s) (connections_ s)).

Definition loop_ (s : TcpServer) : Z := baseLoop_ (threadPool_ s).

Definition connName (s : TcpServer) (id : Z) : list byte :=
  name_ s ++ snprintf 64 (str "-" ++ ipPort_ s ++ str "#" ++ fmt_d id).

Definition removeConnectionInLoop (p : Z) (w : world) : outcome world :=
  s ← get_server w;
  c ← get_conn w p;
  c_assert (bool_decide (is_Some (connections_ s !! c_name c)));;
  let s' := mkServer (ipPort_ s) (name_ s) (threadPool_ s) (started_ s) (listenning_ s) (nextConnId_ s)
              (delete (c_name c) (connections_ s)) in
  Ok (queueInLoop (c_loop c) (FConnectDestroyed p) (set_server (Some s') w)).

Definition run_sfunctor (f : server_functor) (w : world) : outcome world :=
  match f with
  | FConnectEstablished p => establish p w
  | FRemoveConnectionInLoop p => removeConnectionInLoop p w
  | FConnectDestroyed p => destroy p w
  end.

(** [loop->runInLoop(f)] in the thread of loop [cur]. *)
Definition runInLoop (cur loop : Z) (f : server_functor) (w : world) : outcome world :=
  if cur =? loop then run_sfunctor f w else Ok (queueInLoop loop f w).

(** [p] is the address [new] gives the connection. *)
Definition newConnection (sockfd p : Z) (w : world) : outcome world :=
  s ← get_server w;
  '(ioLoop, pool) ← getNextLoop (threadPool_ s);
  let name := connName s (nextConnId_ s) in
  let old := connections_ s !! name in
  let s' := mkServer (ipPort_ s) (name_ s) pool (started_ s) (listenning_ s) (s32 (nextConnId_ s + 1))
              (<[name := p]> (connections_ s)) in
  let w1 := put_conn p (mkSConn name ioLoop sockfd kConnecting false false 0) (set_server (Some s') w) in
  w2 ← match old with Some q => release q w1 | None => Ok w1 end;
  runInLoop (loop_ s) ioLoop (FConnectEstablished p) w2.

(** The close callback, in the connection's loop. *)
Definition removeConnection (p : Z) (w : world) : outcome world :=
  s ← get_server w;
  c ← get_conn w p;
  runInLoop (c_loop c) (loop_ s) (FRemoveConnectionInLoop p) w.

(** [TcpConnection::handleClose] as its owner sees it. *)
Definition close_conn (p : Z) (w : world) : outcome world :=
  c ← get_conn w p;
  c_assert (state_eqb (c_state c) kConnected || state_eqb (c_state c) kDisconnecting);;
  removeConnection p (put_conn p (set_conn_state kDisconnected (c_registered c) false c) w).

(** One element of the loop of [~TcpServer]; [it->second.reset()] and
    [conn.reset()] leave the functor's reference. *)
Definition dtor_one (cur : Z) (w : world) (p : Z) : outcome world :=
  c ← get_conn w p;
  w1 ← runInLoop cur (c_loop c) (FConnectDestroyed p) w;
  release p w1.

Definition TcpServer_dtor (w : world) : outcome world :=
  s ← get_server w;
  foldM (dtor_one (loop_ s)) (set_server None w) (map_to_list (connections_ s)).*2.

(** ** Steps

    The acceptor's loop accepts a connection, a loop runs its oldest functor,
    a user's shutdown() tests the state of a connection or stores it, a
    connection is closed, the server is destroyed in its loop. *)
Inductive server_label : Set :=
| LAccept (sockfd p : Z)
| LRun (loop : Z)
| LShutdown (p : Z)
| LShutdownStore (p : Z)
| LClose (p : Z)
| LDestroyServer.

Definition server_step (w : world) (l : server_label) : outcome world :=
  match l with
  | LAccept sockfd p => newConnection sockfd p w
  | LRun loop =>
      match loop_queue w loop with
      | [] => Ok w
      | f :: fs => w1 ← run_sfunctor f (set_loop_queue loop fs w); release (functor_conn f) w1
      end
  | LShutdown p =>
      c ← get_conn w p;
      Ok (if state_eqb (c_state c) kConnected then put_conn p (set_shutting (S (c_shutting c)) c) w else w)
  | LShutdownStore p =>
      c ← get_conn w p;
      Ok (match c_shutting c with
          | S n => put_conn p (set_shutting n (set_conn_state kDisconnecting (c_registered c) (c_events c) c)) w
          | O => w
          end)
  | LClose p => close_conn p w
  | LDestroyServer => TcpServer_dtor w
  end.
