(* ===== verification/TcpServerSpec.v ===== *)
(** * TcpServer: ownership of connections across loops *)

From stdpp Require Import gmap.
From S2P Require Import Prelude Format TcpConnection EventLoopThreadPool TcpServer.

(** ** Queued functors of one connection *)

Definition of_conn (p : Z) (f : server_functor) : Prop := functor_conn f = p.

#[export] Instance of_conn_dec p f : Decision (of_conn p f).
Proof. unfold of_conn. apply _. Defined.

Definition pending (w : world) (p l : Z) : list server_functor := filter (of_conn p) (loop_queue w l).

(** The only functor queued for the connection, and the loop it is in. *)
Definition has_pending (w : world) (p : Z) (o : option (Z * server_functor)) : Prop :=
  forall l, pending w p l =
    match o with
    | Some (l0, f) => if decide (l = l0) then [f] else []
    | None => []
    end.

Lemma loop_queue_set w l0 q l : loop_queue (set_loop_queue l0 q w) l = if decide (l = l0) then q else loop_queue w l.
Proof.
  unfold loop_queue, set_loop_queue. cbn. destruct (decide (l = l0)) as [->|].
  - by rewrite lookup_insert_eq.
  - by rewrite lookup_insert_ne.
Qed.

Lemma pending_queue w l0 f p l : pending (queueInLoop l0 f w) p l =
  pending w p l ++ (if decide (l = l0 /\ functor_conn f = p) then [f] else []).
Proof.
  unfold pending, queueInLoop. rewrite loop_queue_set. destruct (decide (l = l0)) as [->|Hl].
  - rewrite filter_app, filter_cons, filter_nil. f_equal. unfold of_conn.
    destruct (decide (functor_conn f = p)), (decide (l0 = l0 /\ _)); tauto.
  - rewrite decide_False by tauto. by rewrite app_nil_r.
Qed.

Lemma pending_pop w l0 f fs p l : loop_queue w l0 = f :: fs ->
  pending w p l = (if decide (l = l0 /\ functor_conn f = p) then [f] else []) ++ pending (set_loop_queue l0 fs w) p l.
Proof.
  intros Hq. unfold pending. rewrite loop_queue_set. destruct (decide (l = l0)) as [->|Hl].
  - rewrite Hq, filter_cons. unfold of_conn.
    destruct (decide (functor_conn f = p)), (decide (l0 = l0 /\ _)); tauto || done.
  - by rewrite decide_False by tauto.
Qed.

Lemma has_pending_queue w l0 f p : functor_conn f = p -> has_pending w p None ->
  has_pending (queueInLoop l0 f w) p (Some (l0, f)).
Proof.
  intros Hf H l. rewrite pending_queue, H. cbn.
  destruct (decide (l = l0)), (decide (l = l0 /\ _)); tauto.
Qed.

Lemma has_pending_queue_other w l0 f p o : functor_conn f <> p -> has_pending w p o ->
  has_pending (queueInLoop l0 f w) p o.
Proof. intros Hf H l. rewrite pending_queue, H, decide_False, app_nil_r by tauto. done. Qed.

Lemma has_pending_pop w l0 f fs p o : loop_queue w l0 = f :: fs -> functor_conn f = p -> has_pending w p o ->
  o = Some (l0, f) /\ has_pending (set_loop_queue l0 fs w) p None.
Proof.
  intros Hq Hf H. assert (o = Some (l0, f)) as ->.
  { specialize (H l0). rewrite (pending_pop _ _ _ _ p l0 Hq), decide_True in H by done.
    destruct o as [[l1 f1]|]; [|done]. destruct (decide (l0 = l1)); [|done]. by simplify_eq/=. }
  split; [done|]. intros l. specialize (H l). rewrite (pending_pop _ _ _ _ p l Hq) in H.
  destruct (decide (l = l0 /\ _)), (decide (l = l0)); simplify_eq/=; try done; tauto.
Qed.

Lemma has_pending_pop_other w l0 f fs p o : loop_queue w l0 = f :: fs -> functor_conn f <> p ->
  has_pending w p o -> has_pending (set_loop_queue l0 fs w) p o.
Proof. intros Hq Hf H l. rewrite <- H, (pending_pop _ _ _ _ p l Hq), decide_False by tauto. done. Qed.

(** ** References *)

#[local] Arguments release : simpl never.
#[local] Arguments referenced : simpl never.

Lemma in_map_spec w s p : server w = Some s -> in_map w p = true <-> exists n, connections_ s !! n = Some p.
Proof.
  intros Hs. unfold in_map. rewrite Hs, bool_decide_eq_true, list_elem_of_fmap. split.
  - intros ([n q] & -> & Hx%elem_of_map_to_list). by exists n.
  - intros [n Hn]. exists (n, p). by rewrite elem_of_map_to_list.
Qed.

Lemma referenced_pending w p l f : f ∈ pending w p l -> referenced w p = true.
Proof.
  unfold pending, loop_queue. rewrite list_elem_of_filter. intros [Hf Hin].
  destruct (queues w !! l) as [q|] eqn:E; cbn in Hin; [|by apply not_elem_of_nil in Hin].
  unfold referenced. apply orb_true_iff. right. apply existsb_exists. exists q. split.
  - apply list_elem_of_In, list_elem_of_fmap. exists (l, q). by rewrite elem_of_map_to_list.
  - rewrite bool_decide_eq_true, list_elem_of_fmap. by exists f.
Qed.

Lemma unreferenced w s p : server w = Some s -> (forall n, connections_ s !! n <> Some p) ->
  has_pending w p None -> referenced w p = false.
Proof.
  intros Hs Hm Hp. unfold referenced. apply orb_false_iff. split.
  - apply not_true_iff_false. rewrite (in_map_spec w s p Hs). intros [n ?]. by eapply Hm.
  - apply not_true_iff_false. rewrite existsb_exists. intros (q & Hq%list_elem_of_In & Hb).
    apply list_elem_of_fmap in Hq as ([l q'] & -> & Hl%elem_of_map_to_list).
    apply bool_decide_eq_true, list_elem_of_fmap in Hb as (f & -> & Hf).
    specialize (Hp l). unfold pending, loop_queue in Hp. rewrite Hl in Hp. cbn in *.
    assert (f ∈ filter (of_conn (functor_conn f)) q') as Hin by (by apply list_elem_of_filter).
    rewrite Hp in Hin. by apply not_elem_of_nil in Hin.
Qed.

(** ** Names *)

(** The printed name does not reach the end of its buffer: "-", the address
    and port, "#" and at most ten digits in 63 characters. *)
Definition ipPort_fits (s : TcpServer) : Prop := zlen (ipPort_ s) <= 50.

Lemma connName_inj s i j : ipPort_fits s -> 0 <= i < 2 ^ 31 -> 0 <= j < 2 ^ 31 ->
  connName s i = connName s j -> i = j.
Proof.
  unfold ipPort_fits, connName, snprintf. intros Hfit Hi Hj H.
  assert (forall n, 0 <= n < 2 ^ 31 ->
    take (Z.to_nat (64 - 1)) (str "-" ++ ipPort_ s ++ str "#" ++ fmt_d n) = str "-" ++ ipPort_ s ++ str "#" ++ fmt_d n)
    as Hfull.
  { intros n Hn. apply take_ge. unfold fmt_d. zcases; [lia|].
    pose proof (fmt_u_length n 10 ltac:(lia) ltac:(lia)).
    rewrite !length_app. unfold zlen in Hfit.
    change (length (str "-")) with 1%nat. change (length (str "#")) with 1%nat. lia. }
  rewrite !Hfull in H by done. apply app_inv_head in H.
  rewrite !app_assoc in H. apply app_inv_head in H. by apply fmt_d_inj.
Qed.

(** ** Invariant *)

Inductive phase (s : TcpServer) (w : world) (p : Z) (c : conn) : Prop :=
| ph_connecting : c_state c = kConnecting -> c_registered c = false -> c_shutting c = 0%nat -> connections_ s !! c_name c = Some p ->
    has_pending w p (Some (c_loop c, FConnectEstablished p)) -> phase s w p c
| ph_open : c_state c = kConnected \/ c_state c = kDisconnecting -> connections_ s !! c_name c = Some p ->
    has_pending w p None -> phase s w p c
| ph_closed : c_state c = kDisconnected -> c_events c = false -> c_shutting c = 0%nat -> connections_ s !! c_name c = Some p ->
    has_pending w p (Some (loop_ s, FRemoveConnectionInLoop p)) -> phase s w p c
| ph_removed : c_state c = kDisconnected -> c_events c = false -> c_shutting c = 0%nat -> connections_ s !! c_name c = None ->
    has_pending w p (Some (c_loop c, FConnectDestroyed p)) -> phase s w p c.

Record winv (s : TcpServer) (w : world) : Prop := mkWinv {
  wi_server : server w = Some s;
  wi_pool : pool_inv (threadPool_ s) /\ pool_started (threadPool_ s) = true;
  wi_fits : ipPort_fits s;
  wi_next : 1 <= nextConnId_ s < 2 ^ 31;
  wi_map : forall n p, connections_ s !! n = Some p -> exists c, conns w !! p = Some c /\ c_name c = n;
  wi_phase : forall p c, conns w !! p = Some c -> phase s w p c;
  wi_id : forall p c, conns w !! p = Some c -> exists id, 0 <= id < nextConnId_ s /\ c_name c = connName s id;
  wi_distinct : forall p q c d, conns w !! p = Some c -> conns w !! q = Some d -> c_name c = c_name d -> p = q;
  wi_free : forall p, conns w !! p = None -> has_pending w p None;
}.

(** Changes that keep another connection's phase. *)
Lemma phase_frame s s' w w' p c :
  phase s w p c -> connections_ s' !! c_name c = connections_ s !! c_name c -> loop_ s' = loop_ s ->
  (forall o, has_pending w p o -> has_pending w' p o) -> phase s' w' p c.
Proof.
  intros H Hc Hl Hp.
  destruct H; [eapply ph_connecting|eapply ph_open|eapply ph_closed|eapply ph_removed];
    rewrite ?Hc, ?Hl; eauto.
Qed.

Lemma wi_not_in_map s w p c : winv s w -> conns w !! p = Some c -> connections_ s !! c_name c = None ->
  forall n, connections_ s !! n <> Some p.
Proof.
  intros Hi Hc Hn n H. destruct (wi_map s w Hi n p H) as (c' & ? & ?). by simplify_eq.
Qed.

(** [w] with the functor [f] of connection [p] taken from loop [l]. *)
Lemma popped_phase s w l f fs p c : winv s w -> loop_queue w l = f :: fs -> conns w !! p = Some c ->
  functor_conn f <> p -> phase s (set_loop_queue l fs w) p c.
Proof.
  intros Hi Hq Hc Hf. eapply phase_frame; [by eapply wi_phase|done..|].
  intros o. by apply has_pending_pop_other with f.
Qed.

Lemma popped_conn s w l f fs : winv s w -> loop_queue w l = f :: fs -> exists c, conns w !! functor_conn f = Some c.
Proof.
  intros Hi Hq. destruct (conns w !! functor_conn f) as [c|] eqn:E; [by exists c|].
  destruct (has_pending_pop w l f fs (functor_conn f) None Hq eq_refl (wi_free s w Hi _ E)). done.
Qed.

(** The parts of the server no connection's step changes. *)
Definition same_server (s s' : TcpServer) : Prop :=
  ipPort_ s' = ipPort_ s /\ name_ s' = name_ s /\ threadPool_ s' = threadPool_ s /\ nextConnId_ s' = nextConnId_ s.

Lemma winv_update s s' w w' p c c' :
  winv s w -> conns w !! p = Some c -> server w' = Some s' -> conns w' = <[p := c']> (conns w) ->
  c_name c' = c_name c -> same_server s s' ->
  (forall n, n <> c_name c -> connections_ s' !! n = connections_ s !! n) ->
  (forall q, connections_ s' !! c_name c = Some q -> q = p) ->
  phase s' w' p c' ->
  (forall q o, q <> p -> has_pending w q o -> has_pending w' q o) ->
  winv s' w'.
Proof.
  intros Hi Hc Hs Hcs Hn (Hip & Hnm & Hpool & Hid) Hother Hself Hph Hfr.
  assert (forall q d, conns w' !! q = Some d -> q = p /\ d = c' \/ q <> p /\ conns w !! q = Some d) as Hl.
  { intros q d. rewrite Hcs. destruct (decide (q = p)) as [->|].
    - rewrite lookup_insert_eq. intros [= <-]. by left.
    - rewrite lookup_insert_ne by done. by right. }
  split; unfold ipPort_fits; rewrite ?Hpool, ?Hip, ?Hid; try apply Hi; [done|..].
  - intros n q Hq. destruct (decide (n = c_name c)) as [->|Hne].
    + rewrite (Hself q Hq). exists c'. by rewrite Hcs, lookup_insert_eq.
    + rewrite Hother in Hq by done. destruct (wi_map s w Hi n q Hq) as (d & Hd & <-).
      exists d. rewrite Hcs, lookup_insert_ne; [done|]. intros <-. simplify_eq.
  - intros q d Hd. destruct (Hl q d Hd) as [[-> ->]|[Hne Hd']]; [done|].
    eapply phase_frame; [by eapply wi_phase| |by unfold loop_; rewrite Hpool|by intros; apply Hfr].
    apply Hother. intros E. apply Hne. by apply (wi_distinct s w Hi q p d c).
  - intros q d Hd. destruct (Hl q d Hd) as [[-> ->]|[Hne Hd']].
    + destruct (wi_id s w Hi p c Hc) as (id & ? & E). exists id. split; [done|].
      rewrite Hn, E. unfold connName. by rewrite Hip, Hnm.
    + destruct (wi_id s w Hi q d Hd') as (id & ? & E). exists id. split; [done|].
      rewrite E. unfold connName. by rewrite Hip, Hnm.
  - intros q r d e Hd He E. destruct (Hl q d Hd) as [[-> ->]|[Hne Hd']], (Hl r e He) as [[-> ->]|[Hne' He']];
      [done|..|by eapply wi_distinct].
    + symmetry. apply (wi_distinct s w Hi r p e c); congruence.
    + apply (wi_distinct s w Hi q p d c); congruence.
  - intros q Hq. rewrite Hcs in Hq. apply lookup_insert_None in Hq as [Hq Hne].
    apply Hfr; [done|]. by apply (wi_free s w Hi).
Qed.

Lemma same_server_refl s : same_server s s.
Proof. by repeat split. Qed.

(** A change of the connection alone. *)
Lemma winv_put s w w0 p c c' :
  winv s w -> conns w !! p = Some c -> server w0 = Some s -> conns w0 = conns w ->
  c_name c' = c_name c -> connections_ s !! c_name c = Some p -> phase s (put_conn p c' w0) p c' ->
  (forall q o, q <> p -> has_pending w q o -> has_pending w0 q o) ->
  winv s (put_conn p c' w0).
Proof.
  intros Hi Hc Hs Hcs Hn Hm Hph Hfr.
  eapply (winv_update s s w); try done; cbn; [by rewrite Hcs|congruence].
Qed.

(** [removeConnectionInLoop]: the connection leaves the map and its
    destruction is queued in its loop. *)
Lemma removeConnectionInLoop_ok s w w0 p c c' :
  winv s w -> conns w !! p = Some c -> server w0 = Some s -> conns w0 = <[p := c']> (conns w) ->
  c_name c' = c_name c -> c_loop c' = c_loop c -> c_state c' = kDisconnected ->
  c_events c' = false -> c_shutting c' = 0%nat ->
  connections_ s !! c_name c = Some p -> has_pending w0 p None ->
  (forall q o, q <> p -> has_pending w q o -> has_pending w0 q o) ->
  exists s' w', removeConnectionInLoop p w0 = Ok w' /\ winv s' w' /\ same_server s s' /\
    has_pending w' p (Some (c_loop c, FConnectDestroyed p)).
Proof.
  intros Hi Hc Hs Hcs Hn Hl Hst Hev Hsh Hm Hp Hfr. unfold removeConnectionInLoop, get_server, get_conn.
  rewrite Hs, Hcs, lookup_insert_eq. cbn. rewrite Hn, Hm. cbn.
  set (s' := mkServer _ _ _ _ _ _ _). exists s'. eexists. split; [done|]. rewrite Hl.
  assert (has_pending (queueInLoop (c_loop c) (FConnectDestroyed p) (set_server (Some s') w0)) p
    (Some (c_loop c, FConnectDestroyed p))) as Hq by (by apply has_pending_queue).
  split_and!; [|by repeat split|done].
  eapply (winv_update s s' w); try done; cbn.
  - intros n Hne. by rewrite lookup_delete_ne.
  - intros q. by rewrite lookup_delete_eq.
  - apply ph_removed; [done|done|done|by rewrite Hn; cbn; rewrite lookup_delete_eq|by rewrite Hl].
  - intros q o Hne H. apply has_pending_queue_other; [by intros <-|]. by apply Hfr.
Qed.

Lemma release_in_map w s p n : server w = Some s -> connections_ s !! n = Some p -> release p w = Ok w.
Proof.
  intros Hs Hn. unfold release, referenced.
  by rewrite (proj2 (in_map_spec w s p Hs)) by (by exists n).
Qed.

Lemma release_pending w p l f : has_pending w p (Some (l, f)) -> release p w = Ok w.
Proof.
  intros H. unfold release. rewrite (referenced_pending w p l f); [done|].
  rewrite H, decide_True by done. by left.
Qed.

(** The last reference to a removed connection goes. *)
Lemma winv_delete s w w' p c :
  winv s w -> conns w !! p = Some c -> connections_ s !! c_name c = None ->
  server w' = Some s -> conns w' = delete p (conns w) -> has_pending w' p None ->
  (forall q o, q <> p -> has_pending w q o -> has_pending w' q o) -> winv s w'.
Proof.
  intros Hi Hc Hn Hs Hcs Hp Hfr.
  assert (forall q d, conns w' !! q = Some d -> q <> p /\ conns w !! q = Some d) as Hl.
  { intros q d. rewrite Hcs, lookup_delete_Some. intros [? ?]. by split; [intros ->|]. }
  split; try apply Hi; [done|..].
  - intros n q Hq. destruct (wi_map s w Hi n q Hq) as (d & Hd & Hdn). exists d.
    rewrite Hcs, lookup_delete_ne; [done|]. intros ->. exact (wi_not_in_map s w q c Hi Hc Hn n Hq).
  - intros q d [Hne Hd]%Hl. eapply phase_frame; [by eapply wi_phase|done..|]. intros o. by apply Hfr.
  - intros q d [_ Hd]%Hl. by eapply wi_id.
  - intros q r d e [_ Hd]%Hl [_ He]%Hl. by eapply wi_distinct.
  - intros q Hq. destruct (decide (q = p)) as [->|Hne]; [done|].
    rewrite Hcs, lookup_delete_ne in Hq by done. apply Hfr; [done|]. by eapply wi_free.
Qed.

(** A loop runs its oldest functor. *)
Lemma run_ok s w l : winv s w -> exists s' w', server_step w (LRun l) = Ok w' /\ winv s' w' /\ same_server s s'.
Proof.
  intros Hi. cbn. destruct (loop_queue w l) as [|f fs] eqn:Hq; [by exists s, w|].
  destruct (popped_conn s w l f fs Hi Hq) as [c Hc].
  remember (functor_conn f) as p eqn:Hfp. set (w0 := set_loop_queue l fs w).
  assert (forall q o, q <> p -> has_pending w q o -> has_pending w0 q o) as Hfr.
  { intros q o Hne. apply has_pending_pop_other with f; congruence. }
  pose proof (wi_server s w Hi) as Hs.
  destruct (wi_phase s w Hi _ _ Hc) as [Hst Hreg Hsh Hm Hp|Hst Hm Hp|Hst Hev Hsh Hm Hp|Hst Hev Hsh Hm Hp];
    destruct (has_pending_pop w l f fs _ _ Hq (eq_sym Hfp) Hp) as [Hf Hp0]; [|done|..]; injection Hf as <- <-; clear Hfp.
  - cbn [run_sfunctor functor_conn]. unfold establish, get_conn. cbn. rewrite Hc. cbn. rewrite Hst.
    change (state_eqb kConnecting kConnecting) with true. cbn.
    rewrite (release_in_map _ s p (c_name c)) by done.
    exists s. eexists. split_and!; [done| |by apply same_server_refl].
    eapply (winv_put s w); try done. apply ph_open; auto.
  - destruct (removeConnectionInLoop_ok s w w0 p c c) as (s' & w' & E & Hi' & Hss & Hp'); try done.
    { cbn. by rewrite insert_id. }
    cbn [run_sfunctor functor_conn]. rewrite E. cbn [mbind outcome_bind]. rewrite (release_pending w' p _ _ Hp'). eauto.
  - cbn [run_sfunctor functor_conn]. unfold destroy, get_conn. cbn. rewrite Hc. cbn. rewrite Hst.
    change (state_eqb kDisconnected kConnected) with false. cbn. rewrite Hev. cbn.
    set (w1 := put_conn _ _ _). unfold release.
    rewrite (unreferenced w1 s p); [|done|by eapply wi_not_in_map|done].
    cbn. rewrite lookup_insert_eq. cbn. rewrite Hst. cbn. exists s. eexists. split_and!; [done| |by apply same_server_refl].
    eapply (winv_delete s w); try done. cbn. by rewrite delete_insert_eq.
Qed.

(** A connection is closed, in its loop. *)
Lemma close_ok s w p c : winv s w -> conns w !! p = Some c -> c_state c = kConnected \/ c_state c = kDisconnecting ->
  c_shutting c = 0%nat ->
  exists s' w', server_step w (LClose p) = Ok w' /\ winv s' w' /\ same_server s s'.
Proof.
  intros Hi Hc Hst Hsh. cbn. unfold close_conn, get_conn. rewrite Hc. cbn.
  replace (state_eqb (c_state c) kConnected || state_eqb (c_state c) kDisconnecting) with true
    by (by destruct Hst as [-> | ->]). cbn.
  set (c' := set_conn_state kDisconnected (c_registered c) false c). set (w0 := put_conn p c' w).
  pose proof (wi_server s w Hi) as Hs. unfold removeConnection, get_server, get_conn.
  replace (server w0) with (Some s) by done. cbn. rewrite lookup_insert_eq. cbn.
  destruct (wi_phase s w Hi _ _ Hc) as [Hs'|_ Hm Hp|Hs'|Hs']; [destruct Hst; congruence| |destruct Hst; congruence..].
  unfold runInLoop. zcases.
  - destruct (removeConnectionInLoop_ok s w w0 p c c') as (s' & w' & E & ? & ? & ?); try done. eauto.
  - exists s. eexists. split_and!; [done| |by apply same_server_refl].
    eapply (winv_update s s w _ p c c'); try done.
    + cbn. congruence.
    + apply ph_closed; [done|done|done|done|]. by apply has_pending_queue.
    + intros q o Hne H. by apply has_pending_queue_other; [intros <-|].
Qed.

Lemma shutdown_ok s w p c : winv s w -> conns w !! p = Some c ->
  exists w', server_step w (LShutdown p) = Ok w' /\ winv s w'.
Proof.
  intros Hi Hc. cbn. unfold get_conn. rewrite Hc. cbn. eexists. split; [done|].
  destruct (state_eqb (c_state c) kConnected) eqn:E; [|done]. apply bool_decide_eq_true in E.
  pose proof (wi_server s w Hi) as Hs.
  destruct (wi_phase s w Hi _ _ Hc) as [?|_ Hm Hp|?|?]; try congruence.
  eapply (winv_put s w); try done. apply ph_open; auto.
Qed.

Lemma shutdownStore_ok s w p c : winv s w -> conns w !! p = Some c ->
  exists w', server_step w (LShutdownStore p) = Ok w' /\ winv s w'.
Proof.
  intros Hi Hc. cbn. unfold get_conn. rewrite Hc. cbn. eexists. split; [done|].
  destruct (c_shutting c) as [|n] eqn:E; [done|]. pose proof (wi_server s w Hi) as Hs.
  destruct (wi_phase s w Hi _ _ Hc) as [_ _ ?|_ Hm Hp|_ _ ?|_ _ ?]; try congruence.
  eapply (winv_put s w); try done. apply ph_open; auto.
Qed.

(** A new connection enters the map under a name no other one has. *)
Lemma winv_insert s s' w w' p c :
  winv s w -> conns w !! p = None -> server w' = Some s' -> conns w' = <[p := c]> (conns w) ->
  ipPort_ s' = ipPort_ s -> name_ s' = name_ s -> loop_ s' = loop_ s ->
  pool_inv (threadPool_ s') /\ pool_started (threadPool_ s') = true ->
  nextConnId_ s' = nextConnId_ s + 1 -> nextConnId_ s' < 2 ^ 31 ->
  c_name c = connName s (nextConnId_ s) ->
  connections_ s' = <[c_name c := p]> (connections_ s) ->
  phase s' w' p c ->
  (forall q o, q <> p -> has_pending w q o -> has_pending w' q o) ->
  winv s' w'.
Proof.
  intros Hi Hnone Hs Hcs Hip Hnm Hl Hpool Hid Hmax Hc Hm Hph Hfr. pose proof (wi_next s w Hi) as Hnx.
  assert (forall q d, conns w !! q = Some d -> c_name d <> c_name c) as Hnew.
  { intros q d Hd. destruct (wi_id s w Hi q d Hd) as (id & Hidr & ->). rewrite Hc. intros E.
    apply connName_inj in E; [lia|apply Hi|lia..]. }
  assert (forall q d, conns w' !! q = Some d -> q = p /\ d = c \/ q <> p /\ conns w !! q = Some d) as Hlk.
  { intros q d. rewrite Hcs, lookup_insert_Some. intros [[-> ->]|[? ?]]; [by left|by right; auto]. }
  split; [done|done|unfold ipPort_fits; rewrite Hip; apply Hi|lia|..].
  - intros n q. rewrite Hm, lookup_insert_Some, Hcs. intros [[<- <-]|[Hne Hq]].
    + exists c. by rewrite lookup_insert_eq.
    + destruct (wi_map s w Hi n q Hq) as (d & Hd & <-). exists d.
      rewrite lookup_insert_ne; [done|]. intros ->. congruence.
  - intros q d [[-> ->]|[Hne Hd]]%Hlk; [done|].
    eapply phase_frame; [by eapply wi_phase| |done|intros o; by apply Hfr].
    rewrite Hm, lookup_insert_ne; [done|]. intros E. by eapply Hnew.
  - intros q d [[-> ->]|[Hne Hd]]%Hlk.
    + exists (nextConnId_ s). split; [lia|]. rewrite Hc. unfold connName. by rewrite Hip, Hnm.
    + destruct (wi_id s w Hi q d Hd) as (id & ? & ->). exists id. split; [lia|].
      unfold connName. by rewrite Hip, Hnm.
  - intros q r d e [[-> ->]|[Hne Hd]]%Hlk [[-> ->]|[Hne' He]]%Hlk E; [done|..|by eapply wi_distinct].
    + by destruct (Hnew r e He).
    + by destruct (Hnew q d Hd).
  - intros q. rewrite Hcs, lookup_insert_None. intros [Hq Hne]. apply Hfr; [congruence|]. by eapply wi_free.
Qed.

Lemma getNextLoop_inv pl : pool_inv pl -> pool_started pl = true ->
  exists loop pl', getNextLoop pl = Ok (loop, pl') /\ pool_inv pl' /\ pool_started pl' = true /\
    baseLoop_ pl' = baseLoop_ pl.
Proof.
  intros Hi Hs. destruct (loops_ pl) as [|l0 ls] eqn:E.
  - exists (baseLoop_ pl), pl. unfold getNextLoop, c_assert. rewrite Hs, E. done.
  - destruct (getNextLoop_ok pl Hi Hs ltac:(by rewrite E)) as (loop & _ & Eg).
    do 2 eexists. split_and!; [exact Eg| |done|done]. destruct Hi as [Hlen _]. split; [done|]. right. cbn.
    apply Z.mod_pos_bound. rewrite E, zlen_cons. pose proof (zlen_nonneg ls). lia.
Qed.

Lemma accept_ok s w sockfd p : winv s w -> conns w !! p = None -> nextConnId_ s + 1 < 2 ^ 31 ->
  exists s' w', server_step w (LAccept sockfd p) = Ok w' /\ winv s' w' /\ nextConnId_ s' = nextConnId_ s + 1.
Proof.
  intros Hi Hnone Hmax. pose proof (wi_next s w Hi) as Hnx. pose proof (wi_server s w Hi) as Hs.
  destruct (wi_pool s w Hi) as [Hpi Hps]. destruct (getNextLoop_inv _ Hpi Hps) as (io & pl & Eg & Hpi' & Hps' & Hb).
  cbn. unfold newConnection, get_server. rewrite Hs. cbn. rewrite Eg. cbn.
  set (n := connName s (nextConnId_ s)).
  assert (connections_ s !! n = None) as ->.
  { destruct (connections_ s !! n) as [q|] eqn:E; [|done].
    destruct (wi_map s w Hi n q E) as (d & Hd & Hdn). destruct (wi_id s w Hi q d Hd) as (id & Hidr & E').
    rewrite E' in Hdn. apply connName_inj in Hdn; [lia|apply Hi|lia..]. }
  cbn. unfold s32. rewrite signed_small by (cbn; lia).
  set (s' := mkServer _ _ _ _ _ _ _). set (c := mkSConn n io sockfd kConnecting false false 0).
  assert (has_pending (put_conn p c (set_server (Some s') w)) p None) as Hp by (by apply (wi_free s w Hi)).
  unfold runInLoop. zcases.
  - unfold run_sfunctor, establish, get_conn. cbn. rewrite lookup_insert_eq. cbn.
    change (state_eqb kConnecting kConnecting) with true. cbn. exists s'. eexists. split_and!; [done| |done].
    eapply (winv_insert s s' w _ p (set_conn_state kConnected true true c)); try done.
    + cbn. by rewrite insert_insert_eq.
    + apply ph_open; [by left|cbn; by rewrite lookup_insert_eq|done].
  - exists s'. eexists. split_and!; [done| |done].
    eapply (winv_insert s s' w _ p c); try done.
    + apply ph_connecting; [done|done|done|cbn; by rewrite lookup_insert_eq|]. by apply has_pending_queue.
    + intros q o Hne H. by apply has_pending_queue_other; [intros <-|].
Qed.

(** ** Theorems *)

(** The environment: [new] gives fresh addresses, the connection counter
    stays in [int], only an open connection is closed (the connections'
    lifecycle), not between the test and the store of a shutdown() call on
    it, and the server lives on. *)
Definition server_allowed (w : world) (l : server_label) : Prop :=
  match l with
  | LAccept _ p => conns w !! p = None /\ exists s, server w = Some s /\ nextConnId_ s + 1 < 2 ^ 31
  | LRun _ => True
  | LShutdown p | LShutdownStore p => is_Some (conns w !! p)
  | LClose p => exists c, conns w !! p = Some c /\ (c_state c = kConnected \/ c_state c = kDisconnecting) /\
      c_shutting c = 0%nat
  | LDestroyServer => False
  end.

Fixpoint server_history_ok (w : world) (ls : list server_label) : Prop :=
  match ls with
  | [] => True
  | l :: ls' => server_allowed w l /\ forall w', server_step w l = Ok w' -> server_history_ok w' ls'
  end.

Lemma server_step_ok s w l : winv s w -> server_allowed w l ->
  exists s' w', server_step w l = Ok w' /\ winv s' w'.
Proof.
  intros Hi. destruct l as [fd p|l|p|p|p|]; cbn [server_allowed].
  - intros (Hp & s' & Hs & Hn). rewrite (wi_server s w Hi) in Hs. simplify_eq.
    destruct (accept_ok s' w fd p Hi Hp Hn) as (? & ? & ? & ? & _). eauto.
  - intros _. destruct (run_ok s w l Hi) as (? & ? & ? & ? & _). eauto.
  - intros [c Hc]. destruct (shutdown_ok s w p c Hi Hc) as (? & ? & ?). eauto.
  - intros [c Hc]. destruct (shutdownStore_ok s w p c Hi Hc) as (? & ? & ?). eauto.
  - intros (c & Hc & Hst & Hsh). destruct (close_ok s w p c Hi Hc Hst Hsh) as (? & ? & ? & ? & _). eauto.
  - done.
Qed.

Lemma server_history_inv ls : forall s w, winv s w -> server_history_ok w ls ->
  exists s' w', foldM server_step w ls = Ok w' /\ winv s' w'.
Proof.
  induction ls as [|l ls IH]; intros s w Hi Hl; [by exists s, w|]. destruct Hl as [Hl Hls].
  destruct (server_step_ok s w l Hi Hl) as (s1 & w1 & E & Hi1). cbn [foldM]. rewrite E.
  eapply IH; eauto.
Qed.

(** A server that was given [n] threads and started. *)
Definition started_server (base : Z) (ipPort name : list byte) (n : Z) (startLoop : Z -> Z) : outcome world :=
  s ← setThreadNum n (TcpServer_ctor base ipPort name);
  s1 ← start startLoop true s;
  Ok (mkWorld (Some s1) ∅ ∅).

Lemma started_inv base ipPort name n startLoop : zlen ipPort <= 50 -> 0 <= n < 2 ^ 31 ->
  exists s w, started_server base ipPort name n startLoop = Ok w /\ winv s w.
Proof.
  intros Hip Hn. unfold started_server, setThreadNum, c_assert, start. zcases; [|lia]. cbn [mbind outcome_bind].
  cbn [started_ TcpServer_ctor Z.eqb threadPool_].
  destruct (pool_start_ok startLoop true (pool_setThreadNum n (EventLoopThreadPool_ctor base name)))
    as (p & -> & Hpi & Hst & _); [done..|].
  do 2 eexists. split; [done|]. by split.
Qed.

(** The loop a functor has to run in. *)
Definition home (s : TcpServer) (f : server_functor) (c : conn) : Z :=
  match f with
  | FRemoveConnectionInLoop _ => loop_ s
  | _ => c_loop c
  end.

Lemma pending_home s w l f : winv s w -> f ∈ loop_queue w l ->
  exists c, conns w !! functor_conn f = Some c /\ l = home s f c.
Proof.
  intros Hi Hf. assert (f ∈ pending w (functor_conn f) l) as Hp by (by apply list_elem_of_filter).
  destruct (conns w !! functor_conn f) as [c|] eqn:E.
  - exists c. split; [done|].
    destruct (wi_phase s w Hi _ _ E) as [_ _ _ _ H|_ _ H|_ _ _ _ H|_ _ _ _ H]; rewrite (H l) in Hp;
      try destruct (decide _) as [->|]; try (by apply not_elem_of_nil in Hp);
      apply list_elem_of_singleton in Hp as ->; done.
  - rewrite (wi_free s w Hi _ E l) in Hp. by apply not_elem_of_nil in Hp.
Qed.


(** ** Destruction *)

Lemma queued_referenced w l f : referenced (queueInLoop l f w) (functor_conn f) = true.
Proof.
  apply (referenced_pending _ _ l f). rewrite pending_queue, decide_True by done.
  apply elem_of_app. right. by left.
Qed.

(** In the loop of [~TcpServer], for connections of other loops. *)
Lemma dtor_loop cur cs ps : (forall p, p ∈ ps -> exists c, cs !! p = Some c /\ c_loop c <> cur) ->
  forall w, conns w = cs -> server w = None ->
  exists w', foldM (dtor_one cur) w ps = Ok w' /\ conns w' = cs /\ server w' = None.
Proof.
  intros Hps w Hw Hs.
  destruct (foldM_inv (dtor_one cur)
    (fun w ps => conns w = cs /\ server w = None /\ forall p, p ∈ ps -> exists c, cs !! p = Some c /\ c_loop c <> cur))
    with (l := ps) (s := w) as (w' & E & ? & ? & _); [|done|by eauto].
  intros w1 p l (Hc & Hn & Hl). destruct (Hl p ltac:(by left)) as (c & Hpc & Hne).
  unfold dtor_one, get_conn, runInLoop. rewrite Hc, Hpc. cbn. zcases; [congruence|]. cbn.
  unfold release. pose proof (queued_referenced w1 (c_loop c) (FConnectDestroyed p)) as Hr. cbn in Hr. rewrite Hr.
  eexists. split_and!; [done|done|done|]. intros q Hq. apply Hl. by right.
Qed.

(** Destroying a server with I/O threads races with its connections:
    ~TcpServer only queues connectDestroyed in the connection's loop, and a
    connection the peer closes before that functor runs calls
    removeConnection on the deleted server. *)
Lemma server_dtor_race (w : world) (s : TcpServer) (p : Z) (c : conn) :
  server w = Some s ->
  (forall q, q ∈ (map_to_list (connections_ s)).*2 -> exists d, conns w !! q = Some d /\ c_loop d <> loop_ s) ->
  conns w !! p = Some c -> c_state c = kConnected ->
  exists w', server_step w LDestroyServer = Ok w' /\ server_step w' (LClose p) = Fail UseAfterFree.
Proof.
  intros Hs Hm Hc Hst. cbn. unfold TcpServer_dtor, get_server. rewrite Hs. cbn.
  destruct (dtor_loop (loop_ s) (conns w) _ Hm (set_server None w)) as (w' & E & Hcs & Hn); [done..|].
  exists w'. split; [done|]. unfold close_conn, get_conn. rewrite Hcs, Hc. cbn. rewrite Hst.
  change (state_eqb kConnected kConnected) with true. cbn.
  unfold removeConnection, get_server. cbn. by rewrite Hn.
Qed.

(** ** Examples *)

(** A connection that closes between the test and the store of a shutdown()
    call is left in state kDisconnecting, and its destructor aborts when the
    last reference goes. *)
Example shutdown_store_race :
  (w ← started_server 1 (str "127.0.0.1:2007") (str "echo") 2 (fun i => 100 + i);
   foldM server_step w [LAccept 7 1000; LRun 100; LShutdown 1000; LClose 1000; LShutdownStore 1000; LRun 1; LRun 100])
  = Fail AssertFail.
Proof. vm_compute. reflexivity. Qed.

Definition demo_world : world :=
  match started_server 1 (str "127.0.0.1:2007") (str "echo") 2 (fun i => 100 + i) with
  | Ok w => w
  | Fail _ => mkWorld None ∅ ∅
  end.

Definition demo_steps : list server_label :=
  [LAccept 7 1000; LAccept 8 2000; LRun 101; LRun 100; LShutdown 2000; LShutdown 2000; LShutdownStore 2000; LClose 1000; LAccept 9 3000;
   LRun 1; LShutdownStore 2000; LClose 2000; LRun 100; LRun 100; LRun 1; LRun 101].

Definition server_allowedb (w : world) (l : server_label) : bool :=
  match l with
  | LAccept _ p =>
      match conns w !! p, server w with
      | None, Some s => nextConnId_ s + 1 <? 2 ^ 31
      | _, _ => false
      end
  | LRun _ => true
  | LShutdown p | LShutdownStore p => match conns w !! p with Some _ => true | None => false end
  | LClose p =>
      match conns w !! p with
      | Some c => (state_eqb (c_state c) kConnected || state_eqb (c_state c) kDisconnecting) && (c_shutting c =? 0)%nat
      | None => false
      end
  | LDestroyServer => false
  end.

Fixpoint server_history_okb (w : world) (ls : list server_label) : bool :=
  match ls with
  | [] => true
  | l :: ls' =>
      server_allowedb w l &&
      match server_step w l with
      | Ok w' => server_history_okb w' ls'
      | Fail _ => true
      end
  end.

Lemma server_history_okb_sound ls : forall w, server_history_okb w ls = true -> server_history_ok w ls.
Proof.
  induction ls as [|l ls IH]; intros w; cbn [server_history_okb server_history_ok]; [done|].
  intros [Hl Hs]%andb_true_iff. split; [|intros w' E; rewrite E in Hs; by apply IH].
  destruct l as [fd p|l|p|p|p|]; cbn [server_allowed server_allowedb] in *; try done.
  - destruct (conns w !! p); [done|]. destruct (server w) as [s|]; [|done].
    split; [done|]. exists s. split; [done|]. by apply Z.ltb_lt.
  - by destruct (conns w !! p).
  - by destruct (conns w !! p).
  - destruct (conns w !! p) as [c|]; [|done]. exists c. split; [done|].
    apply andb_true_iff in Hl as [Hl Hsh%Nat.eqb_eq]. split; [|done].
    apply orb_true_iff in Hl as [H|H]; apply bool_decide_eq_true in H; auto.
Qed.


Definition demo_open : world :=
  match foldM server_step demo_world [LAccept 7 1000; LRun 100] with
  | Ok w => w
  | Fail _ => mkWorld None ∅ ∅
  end.

Lemma server_dtor_race_witness :
  exists w', server_step demo_open LDestroyServer = Ok w' /\ server_step w' (LClose 1000) = Fail UseAfterFree.
Proof.
  destruct (server demo_open) as [s|] eqn:Es; [|vm_compute in Es; discriminate].
  destruct (conns demo_open !! 1000) as [c|] eqn:Ec; [|vm_compute in Ec; discriminate].
  apply (server_dtor_race demo_open s 1000 c Es).
  - vm_compute in Es. injection Es as <-. cbn [connections_]. intros q Hq.
    vm_compute in Hq. apply list_elem_of_singleton in Hq as ->.
    exists c. split; [exact Ec|]. vm_compute in Ec. injection Ec as <-. discriminate.
  - exact Ec.
  - vm_compute in Ec. injection Ec as <-. reflexivity.
Defined.
