(* ===== verification/InetAddress.v ===== *)
(** * Socket addresses: src/mynetlib/net/InetAddress.h, .cc and the address
    functions of SocketsOps.cc

    An InetAddress is the union of [sockaddr_in] and [sockaddr_in6]: 28
    bytes, the family in the first two, the port in network byte order in the
    next two, an IPv4 address in bytes 4 to 8 and an IPv6 address in bytes 8
    to 24. inet_pton(3) and inet_ntop(3) are operations of a class with the
    laws their manual pages state. *)

From S2P Require Import Prelude Endian Format.

Definition AF_INET : Z := 2.
Definition AF_INET6 : Z := 10.
Definition INET_ADDRSTRLEN : Z := 16.
Definition INET6_ADDRSTRLEN : Z := 46.
Definition INADDR_ANY : Z := 0.
Definition INADDR_LOOPBACK : Z := 0x7f000001.

Abbreviation InetAddress := (list byte) (only parsing).

(** A store of [data] at offset [off] of an object. *)
Definition poke (off : nat) (data : list byte) (m : list byte) : list byte :=
  take off m ++ data ++ drop (off + length data) m.

Definition bzero (n : nat) (m : list byte) : list byte := poke 0 (replicate n Byte.x00) m.

Class InetText : Type := {
  inet_pton4 : list byte -> option (list byte);
  inet_ntop4 : list byte -> list byte;
  inet_ntop6 : list byte -> list byte;
}.

Class InetTextLaws `{!InetText} : Prop := {
  pton4_length : forall t b, inet_pton4 t = Some b -> length b = 4%nat;
  pton4_ntop4 : forall b, length b = 4%nat -> inet_pton4 (inet_ntop4 b) = Some b;
  pton4_colon : forall t, Byte.x3a ∈ t -> inet_pton4 t = None;
  ntop4_length : forall b, zlen (inet_ntop4 b) < INET_ADDRSTRLEN;
  ntop6_length : forall b, zlen (inet_ntop6 b) < INET6_ADDRSTRLEN;
}.

(** ** Fields *)

Definition family (a : InetAddress) : Z := le_value (slice a 0 2).
Definition portNetEndian (a : InetAddress) : Z := le_value (slice a 2 4).
Definition sin_addr (a : InetAddress) : list byte := slice a 4 8.
Definition sin6_addr (a : InetAddress) : list byte := slice a 8 24.

Definition ipNetEndian (a : InetAddress) : outcome Z :=
  c_assert (family a =? AF_INET);; Ok (le_value (sin_addr a)).

Definition toPort (a : InetAddress) : Z := networkToHost16 (portNetEndian a).

Definition set_family (f : Z) (a : InetAddress) : InetAddress := poke 0 (le_bytes 2 f) a.
Definition set_port (port : Z) (a : InetAddress) : InetAddress := poke 2 (le_bytes 2 (hostToNetwork16 port)) a.

Definition in6addr_any : list byte := replicate 16 Byte.x00.
Definition in6addr_loopback : list byte := replicate 15 Byte.x00 ++ [Byte.x01].

(** [InetAddress(port, loopbackOnly, ipv6)] on the memory [m]. *)
Definition InetAddress_port (port : Z) (loopbackOnly ipv6 : bool) (m : list byte) : InetAddress :=
  if ipv6 then
    let a := set_family AF_INET6 (bzero 28 m) in
    set_port port (poke 8 (if loopbackOnly then in6addr_loopback else in6addr_any) a)
  else
    let a := set_family AF_INET (bzero 16 m) in
    let ip := if loopbackOnly then INADDR_LOOPBACK else INADDR_ANY in
    set_port port (poke 4 (le_bytes 4 (hostToNetwork32 ip)) a).

(** [sockets::isSelfConnect] of the local and the peer address. *)
Definition isSelfConnect (localaddr peeraddr : InetAddress) : bool :=
  if family localaddr =? AF_INET then
    (portNetEndian localaddr =? portNetEndian peeraddr) &&
    (le_value (sin_addr localaddr) =? le_value (sin_addr peeraddr))
  else if family localaddr =? AF_INET6 then
    (portNetEndian localaddr =? portNetEndian peeraddr) &&
    bool_decide (sin6_addr localaddr = sin6_addr peeraddr)
  else false.

Section Text.

Context `{!InetText}.

(** [sockets::fromIpPort] for each of the two structures; a failure of
    inet_pton is logged. *)
Definition fromIpPort4 (ip : list byte) (port : Z) (a : InetAddress) : InetAddress :=
  let a1 := set_port port (set_family AF_INET a) in
  match inet_pton4 ip with
  | Some b => poke 4 b a1
  | None => a1
  end.

Definition fromIpPort6 (ip : list byte) (port : Z) (a : InetAddress) : InetAddress :=
  let a1 := set_port port (set_family AF_INET6 a) in
  match inet_pton4 ip with
  | Some b => poke 8 b a1
  | None => a1
  end.

(** [InetAddress(ip, port, ipv6)] on the memory [m]. *)
Definition InetAddress_ip (ip : list byte) (port : Z) (ipv6 : bool) (m : list byte) : InetAddress :=
  if ipv6 then fromIpPort6 ip port (bzero 28 m) else fromIpPort4 ip port (bzero 16 m).

(** What a buffer of [size] bytes, empty before, holds afterwards; inet_ntop
    leaves it alone when the text does not fit. *)
Definition sockets_toIp (size : Z) (a : InetAddress) : outcome (list byte) :=
  let put t := if zlen t <? size then t else [] in
  if family a =? AF_INET then
    c_assert (INET_ADDRSTRLEN <=? size);; Ok (put (inet_ntop4 (sin_addr a)))
  else if family a =? AF_INET6 then
    c_assert (INET6_ADDRSTRLEN <=? size);; Ok (put (inet_ntop6 (sin6_addr a)))
  else Ok [].

Definition sockets_toIpPort (size : Z) (a : InetAddress) : outcome (list byte) :=
  buf ← sockets_toIp size a;
  let stop := zlen buf in
  let port := networkToHost16 (portNetEndian a) in
  c_assert (stop <? size);;
  Ok (buf ++ snprintf (size - stop) (str ":" ++ fmt_u port)).

Definition toIp (a : InetAddress) : outcome (list byte) := sockets_toIp 64 a.
Definition toIpPort (a : InetAddress) : outcome (list byte) := sockets_toIpPort 64 a.

(** [resolve]: [ans] is what gethostbyname_r found, if anything. *)
Definition resolve (ans : option (Z * list byte)) (out : InetAddress) : outcome (bool * InetAddress) :=
  match ans with
  | Some (h_addrtype, h_addr) =>
      c_assert ((h_addrtype =? AF_INET) && (zlen h_addr =? 4));;
      Ok (true, poke 4 h_addr out)
  | None => Ok (false, out)
  end.

End Text.

(** ** Stores and loads *)

Lemma length_poke off data m : (off + length data <= length m)%nat -> length (poke off data m) = length m.
Proof. intros. unfold poke. rewrite !length_app, length_take, length_drop. lia. Qed.

Lemma slice_poke_same off data m i j : (off + length data <= length m)%nat ->
  i = Z.of_nat off -> j = Z.of_nat (off + length data) -> slice (poke off data m) i j = data.
Proof.
  intros Hl -> ->. unfold slice, poke. rewrite drop_app_length' by (rewrite length_take; lia).
  rewrite take_app_length'; [done|lia].
Qed.

Lemma slice_poke_before off data m i j : (off + length data <= length m)%nat ->
  0 <= i <= j -> j <= Z.of_nat off -> slice (poke off data m) i j = slice m i j.
Proof.
  intros Hl Hi Hj. unfold slice, poke. rewrite drop_app_le by (rewrite length_take; lia).
  rewrite take_app_le by (rewrite length_drop, length_take; lia).
  rewrite skipn_firstn_comm, take_take. f_equal. lia.
Qed.

Lemma slice_poke_after off data m i j : (off + length data <= length m)%nat ->
  Z.of_nat (off + length data) <= i -> slice (poke off data m) i j = slice m i j.
Proof.
  intros Hl Hi. unfold slice, poke. f_equal.
  rewrite app_assoc, drop_app_ge by (rewrite length_app, length_take; lia).
  rewrite drop_drop. f_equal. rewrite length_app, length_take. lia.
Qed.

Lemma length_set_port port a : (4 <= length a)%nat -> length (set_port port a) = length a.
Proof. intros. apply length_poke. rewrite length_le_bytes. lia. Qed.

Lemma length_set_family f a : (2 <= length a)%nat -> length (set_family f a) = length a.
Proof. intros. apply length_poke. rewrite length_le_bytes. lia. Qed.

Lemma length_bzero n m : (n <= length m)%nat -> length (bzero n m) = length m.
Proof. intros. apply length_poke. rewrite length_replicate. lia. Qed.

(** Family and port of an address whose head was written by a constructor. *)
Definition headed (f port : Z) (a : InetAddress) : InetAddress := set_port port (set_family f a).

Lemma length_headed f port a : (4 <= length a)%nat -> length (headed f port a) = length a.
Proof. intros. unfold headed. rewrite length_set_port; rewrite length_set_family; lia. Qed.

Lemma headed_family f port a : (4 <= length a)%nat -> 0 <= f < 2 ^ 16 -> family (headed f port a) = f.
Proof.
  intros Hl Hf. unfold family, headed, set_port.
  rewrite slice_poke_before by (rewrite ?length_le_bytes, ?length_set_family; lia).
  unfold set_family. rewrite slice_poke_same by (rewrite ?length_le_bytes; lia).
  rewrite le_value_bytes, Z.mod_small; [done|]. cbn. lia.
Qed.

Lemma headed_port f port a : (4 <= length a)%nat -> 0 <= port < 2 ^ 16 ->
  portNetEndian (headed f port a) = hostToNetwork16 port.
Proof.
  intros Hl Hp. unfold portNetEndian, headed, set_port.
  rewrite slice_poke_same by (rewrite ?length_le_bytes, ?length_set_family; lia).
  rewrite le_value_bytes, Z.mod_small; [done|]. unfold hostToNetwork16. apply bswap_range.
Qed.

(** Bytes of the address a store beyond the head keeps. *)
Lemma poke_family off data a : (4 <= off)%nat -> (off + length data <= length a)%nat -> family (poke off data a) = family a.
Proof. intros. unfold family. rewrite slice_poke_before by lia. done. Qed.

Lemma poke_port off data a : (4 <= off)%nat -> (off + length data <= length a)%nat ->
  portNetEndian (poke off data a) = portNetEndian a.
Proof. intros. unfold portNetEndian. rewrite slice_poke_before by lia. done. Qed.

(** ** Theorems *)

Section Laws.

Context `{!InetText} `{!InetTextLaws}.

Lemma fmt_u_port_length port : 0 <= port < 2 ^ 16 -> zlen (str ":" ++ fmt_u port) <= 6.
Proof.
  intros Hp. rewrite zlen_app. change (zlen (str ":")) with 1. unfold zlen.
  pose proof (fmt_u_length port 5 ltac:(lia) ltac:(lia)). lia.
Qed.

Lemma toIpPort_v4 a port : family a = AF_INET -> portNetEndian a = hostToNetwork16 port -> 0 <= port < 2 ^ 16 ->
  toIp a = Ok (inet_ntop4 (sin_addr a)) /\ toPort a = port /\
  toIpPort a = Ok (inet_ntop4 (sin_addr a) ++ str ":" ++ fmt_u port).
Proof.
  intros Hf Hport Hp. pose proof (ntop4_length (sin_addr a)) as Hn. unfold INET_ADDRSTRLEN in Hn.
  assert (toIp a = Ok (inet_ntop4 (sin_addr a))) as Hip.
  { unfold toIp, sockets_toIp. rewrite Hf. cbn. zcases; [done|lia]. }
  assert (toPort a = port) as Ht.
  { unfold toPort, networkToHost16. rewrite Hport. unfold hostToNetwork16.
    rewrite bswap_involutive, Z.mod_small; [done|]. cbn. lia. }
  split_and!; [done|done|]. unfold toIp in Hip. unfold toIpPort, sockets_toIpPort. rewrite Hip.
  cbn [mbind outcome_bind]. fold (toPort a). rewrite Ht. unfold c_assert.
  pose proof (zlen_nonneg (inet_ntop4 (sin_addr a))). pose proof (fmt_u_port_length port Hp) as Hl.
  zcases; [|lia]. cbn [mbind outcome_bind]. unfold snprintf. rewrite take_ge; [done|]. unfold zlen in *. lia.
Qed.

(** An IPv4 address built from the text of its four bytes and a port
    prints back as that text, a colon and the port, and gives back the bytes
    and the port; no buffer is too small. *)
Lemma inet_address_roundtrip (b : list byte) (port : Z) (m : list byte) :
  length b = 4%nat -> 0 <= port < 2 ^ 16 -> length m = 28%nat ->
  let a := InetAddress_ip (inet_ntop4 b) port false m in
  length a = 28%nat /\ family a = AF_INET /\ ipNetEndian a = Ok (le_value b) /\ toPort a = port /\
  toIp a = Ok (inet_ntop4 b) /\ toIpPort a = Ok (inet_ntop4 b ++ str ":" ++ fmt_u port).
Proof.
  intros Hb Hp Hm a. subst a. unfold InetAddress_ip, fromIpPort4. rewrite pton4_ntop4 by done.
  fold (headed AF_INET port (bzero 16 m)). set (h := headed AF_INET port (bzero 16 m)).
  assert (length h = 28%nat) as Hh.
  { unfold h. rewrite length_headed; rewrite length_bzero; lia. }
  assert (family (poke 4 b h) = AF_INET) as Hf.
  { rewrite poke_family by lia. apply headed_family; [rewrite length_bzero; lia|unfold AF_INET; lia]. }
  assert (sin_addr (poke 4 b h) = b) as Hs by (unfold sin_addr; apply slice_poke_same; lia).
  destruct (toIpPort_v4 (poke 4 b h) port) as (Hip & Ht & Hipp); [done| |done|].
  { rewrite poke_port by lia. apply headed_port; [rewrite length_bzero; lia|done]. }
  rewrite Hs in *. split_and!; try done; [rewrite length_poke; lia|].
  unfold ipNetEndian. rewrite Hf, Hs. done.
Qed.

Lemma slice_zeros n i j : 0 <= i <= j -> j <= Z.of_nat n ->
  slice (replicate n Byte.x00) i j = replicate (Z.to_nat (j - i)) Byte.x00.
Proof.
  intros. unfold slice. rewrite drop_replicate, take_replicate. f_equal. lia.
Qed.

(** The constructor for IPv6 text parses it with AF_INET: whatever IPv6
    text it is given, the address is the unspecified one. *)
Lemma ipv6_text_ignored (ip : list byte) (port : Z) (m : list byte) :
  Byte.x3a ∈ ip -> 0 <= port < 2 ^ 16 -> length m = 28%nat ->
  let a := InetAddress_ip ip port true m in
  family a = AF_INET6 /\ sin6_addr a = in6addr_any /\ toIp a = Ok (inet_ntop6 in6addr_any).
Proof.
  intros Hip Hp Hm a. subst a. unfold InetAddress_ip, fromIpPort6. rewrite pton4_colon by done.
  set (z := bzero 28 m).
  assert (z = replicate 28 Byte.x00) as Hz.
  { unfold z, bzero, poke. rewrite take_0, drop_ge by (rewrite length_replicate; lia). by rewrite app_nil_r. }
  assert (length z = 28%nat) as Hl by (rewrite Hz; done).
  fold (headed AF_INET6 port z).
  assert (family (headed AF_INET6 port z) = AF_INET6) as Hf by (apply headed_family; unfold AF_INET6; lia).
  assert (sin6_addr (headed AF_INET6 port z) = in6addr_any) as Hs.
  { unfold sin6_addr, headed, set_port.
    rewrite slice_poke_after; [|rewrite length_le_bytes, length_set_family; lia|rewrite length_le_bytes; lia].
    unfold set_family. rewrite slice_poke_after by (rewrite length_le_bytes; lia).
    rewrite Hz, slice_zeros by lia. done. }
  split_and!; [done|done|]. pose proof (ntop6_length in6addr_any) as Hn. unfold INET6_ADDRSTRLEN in Hn.
  unfold toIp, sockets_toIp. rewrite Hf, Hs. change (AF_INET6 =? AF_INET) with false.
  change (AF_INET6 =? AF_INET6) with true. change (INET6_ADDRSTRLEN <=? 64) with true.
  cbn [c_assert mbind outcome_bind]. by rewrite (proj2 (Z.ltb_lt _ 64)) by lia.
Qed.

End Laws.

(** ** A text format with these laws *)

Fixpoint split_at (sep : byte) (s : list byte) : list (list byte) :=
  match s with
  | [] => [[]]
  | c :: s' =>
      if byte_eqb c sep then [] :: split_at sep s'
      else match split_at sep s' with
           | p :: ps => (c :: p) :: ps
           | [] => [[c]]
           end
  end.

Definition parse_byte (s : list byte) : option byte :=
  if (0 <? zlen s) && (zlen s <=? 3) && forallb is_digit s && (parse_u s <? 256)
  then Some (byte_of_Z (parse_u s)) else None.

Definition dotted_pton (t : list byte) : option (list byte) :=
  match split_at Byte.x2e t with
  | [_; _; _; _] as ps => mapM parse_byte ps
  | _ => None
  end.

Definition byte_text (b : byte) : list byte := fmt_u (byte_to_Z b).

Definition dotted_ntop (b : list byte) : list byte :=
  match b with
  | [x; y; z; w] => byte_text x ++ [Byte.x2e] ++ byte_text y ++ [Byte.x2e] ++ byte_text z ++ [Byte.x2e] ++ byte_text w
  | _ => []
  end.

(** IPv6: the sixteen bytes in decimal pairs would be too long; two
    hexadecimal digits each, a colon after every pair. *)
Definition hex_digit (d : Z) : byte := if d <? 10 then digit_byte d else byte_of_Z (87 + d).

Definition hex_text (b : byte) : list byte := [hex_digit (byte_to_Z b / 16); hex_digit (byte_to_Z b mod 16)].

Definition groups_ntop (b : list byte) : list byte :=
  match b with
  | [a0; a1; a2; a3; a4; a5; a6; a7; a8; a9; a10; a11; a12; a13; a14; a15] =>
      mjoin [hex_text a0; hex_text a1; [Byte.x3a]; hex_text a2; hex_text a3; [Byte.x3a];
             hex_text a4; hex_text a5; [Byte.x3a]; hex_text a6; hex_text a7; [Byte.x3a];
             hex_text a8; hex_text a9; [Byte.x3a]; hex_text a10; hex_text a11; [Byte.x3a];
             hex_text a12; hex_text a13; [Byte.x3a]; hex_text a14; hex_text a15]
  | _ => []
  end.

#[local] Instance dotted_text : InetText := {
  inet_pton4 := dotted_pton; inet_ntop4 := dotted_ntop; inet_ntop6 := groups_ntop }.

Lemma split_at_nonempty sep s : split_at sep s <> [].
Proof. destruct s as [|c s]; cbn; [done|]. destruct (byte_eqb c sep); [done|]. by destruct (split_at sep s). Qed.

Lemma split_at_app sep x y : sep ∉ x -> split_at sep (x ++ sep :: y) = x :: split_at sep y.
Proof.
  induction x as [|c x IH]; cbn; intros Hx.
  - by rewrite (proj2 (byte_eqb_eq sep sep)).
  - apply not_elem_of_cons in Hx as [Hc Hx]. rewrite IH by done.
    destruct (byte_eqb c sep) eqn:E; [|done]. apply byte_eqb_eq in E. congruence.
Qed.

Lemma split_at_none sep x : sep ∉ x -> split_at sep x = [x].
Proof.
  induction x as [|c x IH]; cbn; intros Hx; [done|].
  apply not_elem_of_cons in Hx as [Hc Hx]. rewrite IH by done.
  destruct (byte_eqb c sep) eqn:E; [|done]. apply byte_eqb_eq in E. congruence.
Qed.

Lemma split_at_elem sep c s : c ∈ s -> c <> sep -> exists p, p ∈ split_at sep s /\ c ∈ p.
Proof.
  induction s as [|d s IH]; intros Hc Hne; [by apply not_elem_of_nil in Hc|].
  apply elem_of_cons in Hc. cbn. destruct (byte_eqb d sep) eqn:E.
  - apply byte_eqb_eq in E. destruct Hc as [->|Hc]; [done|].
    destruct (IH Hc Hne) as (p & ? & ?). exists p. split; [by right|done].
  - pose proof (split_at_nonempty sep s). destruct (split_at sep s) as [|p0 ps]; [done|].
    destruct Hc as [->|Hc]; [exists (d :: p0); split; by left|].
    destruct (IH Hc Hne) as (p & [->|?]%elem_of_cons & ?).
    + exists (d :: p0). split; [by left|by right].
    + exists p. split; [by right|done].
Qed.

Lemma byte_text_digits b : Forall (fun c => is_digit c = true) (byte_text b).
Proof. apply fmt_u_digits. apply byte_to_Z_range. Qed.

Lemma byte_text_length b : 0 < zlen (byte_text b) <= 3.
Proof.
  pose proof (byte_to_Z_range b). unfold byte_text, zlen. pose proof (fmt_u_nonempty (byte_to_Z b)).
  pose proof (fmt_u_length (byte_to_Z b) 3 ltac:(lia) ltac:(lia)). lia.
Qed.

Lemma byte_text_dot b : Byte.x2e ∉ byte_text b.
Proof. intros H. pose proof (byte_text_digits b) as Hd. rewrite Forall_forall in Hd. by apply Hd in H. Qed.

Lemma parse_byte_text b : parse_byte (byte_text b) = Some b.
Proof.
  unfold parse_byte. pose proof (byte_text_length b). pose proof (byte_to_Z_range b).
  replace (forallb is_digit (byte_text b)) with true
    by (symmetry; apply forallb_forall; intros c Hc%list_elem_of_In;
        pose proof (byte_text_digits b) as Hd; rewrite Forall_forall in Hd; by rewrite Hd).
  unfold byte_text in *. rewrite fmt_u_parse by lia. zcases; try lia. cbn. by rewrite byte_of_to_Z.
Qed.

Lemma parse_byte_colon p : Byte.x3a ∈ p -> parse_byte p = None.
Proof.
  intros Hp. unfold parse_byte. replace (forallb is_digit p) with false; [by rewrite andb_false_r|].
  symmetry. apply not_true_iff_false. intros H. rewrite forallb_forall in H.
  apply list_elem_of_In, H in Hp. done.
Qed.

Lemma mapM_none {A B} (f : A -> option B) l x : x ∈ l -> f x = None -> mapM f l = None.
Proof.
  intros Hx Hf. induction Hx as [x l|x y l _ IH]; cbn; [by rewrite Hf|].
  rewrite IH by done. by destruct (f y).
Qed.

#[local] Instance dotted_text_laws : InetTextLaws.
Proof.
  split; cbn.
  - intros t b H. unfold dotted_pton in H. repeat case_match; try done. by apply length_mapM in H.
  - intros b Hb. destruct b as [|x [|y [|z [|w []]]]]; try done. unfold dotted_ntop, dotted_pton. cbn [app].
    rewrite !split_at_app, split_at_none by apply byte_text_dot.
    apply mapM_Some. repeat constructor; apply parse_byte_text.
  - intros t Ht. destruct (split_at_elem Byte.x2e Byte.x3a t Ht ltac:(done)) as (p & Hp & Hc).
    unfold dotted_pton. repeat case_match; try done. eapply mapM_none; [done|]. by apply parse_byte_colon.
  - intros b. unfold dotted_ntop, INET_ADDRSTRLEN. repeat case_match; try (vm_compute; done).
    rewrite !zlen_app. change (zlen [Byte.x2e]) with 1.
    pose proof (byte_text_length). repeat match goal with |- context [zlen (byte_text ?x)] =>
      lazymatch goal with H : 0 < zlen (byte_text x) <= 3 |- _ => fail | _ => pose proof (byte_text_length x) end end. lia.
  - intros b. unfold groups_ntop, INET6_ADDRSTRLEN. repeat case_match; vm_compute; done.
Qed.

Definition demo_memory : list byte := replicate 28 Byte.xff.

Lemma inet_address_roundtrip_witness :
  toIpPort (InetAddress_ip (inet_ntop4 [Byte.x7f; Byte.x00; Byte.x00; Byte.x01]) 8080 false demo_memory) =
    Ok (inet_ntop4 [Byte.x7f; Byte.x00; Byte.x00; Byte.x01] ++ str ":" ++ fmt_u 8080) /\
  inet_ntop4 [Byte.x7f; Byte.x00; Byte.x00; Byte.x01] = str "127.0.0.1".
Proof.
  destruct (inet_address_roundtrip [Byte.x7f; Byte.x00; Byte.x00; Byte.x01] 8080 demo_memory
    eq_refl ltac:(lia) eq_refl) as (_ & _ & _ & _ & _ & H).
  split; [exact H|reflexivity].
Defined.

Lemma ipv6_text_ignored_witness :
  sin6_addr (InetAddress_ip (str "2001:db8::1") 80 true demo_memory) = in6addr_any.
Proof.
  destruct (ipv6_text_ignored (str "2001:db8::1") 80 demo_memory
    ltac:(apply (bool_decide_unpack _); vm_compute; exact I) ltac:(lia) eq_refl) as (_ & H & _).
  exact H.
Defined.
