(* ===== verification/Acceptor.v ===== *)
(** * Acceptor: src/mynetlib/net/Acceptor.h, Acceptor.cc and sockets::accept

    The listening socket and the spare descriptor that lets it refuse
    connections when the process has none left. The kernel's descriptor table
    and the backlog of the listening socket are an abstract state with the
    documented laws of accept(2), open(2) and close(2). *)

From stdpp Require Import gmap.
From S2P Require Import Prelude Channel Connector.

Definition EMFILE : Z := 24.
Definition EPROTO : Z := 71.
Definition ECONNABORTED : Z := 103.

(** The kernel seen through one listening socket: [fds] are the open
    descriptors, [limit] is RLIMIT_NOFILE and [backlog] holds the peers whose
    connections wait to be accepted. *)
Class FdKernel (K : Type) : Type := {
  k_accept : K -> (Z + Z) * K;
  k_open : K -> (Z + Z) * K;
  k_close : Z -> K -> K;
  fds : K -> gset Z;
  limit : K -> nat;
  backlog : K -> list Z;
}.

(** accept(2) and open(2) need a free descriptor and take it; accept(2)
    takes the oldest connection; close(2) frees the descriptor. *)
Class FdKernelLaws (K : Type) `{!FdKernel K} : Prop := {
  accept_full : forall k, (limit k <= size (fds k))%nat -> k_accept k = (inr EMFILE, k);
  accept_none : forall k, (size (fds k) < limit k)%nat -> backlog k = [] -> k_accept k = (inr EAGAIN, k);
  accept_one : forall k x xs, (size (fds k) < limit k)%nat -> backlog k = x :: xs ->
    exists fd k', k_accept k = (inl fd, k') /\ 0 <= fd /\ ~ (fd ∈ fds k) /\
      fds k' = {[fd]} ∪ fds k /\ backlog k' = xs /\ limit k' = limit k;
  open_ok : forall k, (size (fds k) < limit k)%nat ->
    exists fd k', k_open k = (inl fd, k') /\ 0 <= fd /\ ~ (fd ∈ fds k) /\
      fds k' = {[fd]} ∪ fds k /\ backlog k' = backlog k /\ limit k' = limit k;
  close_fds : forall fd k, fds (k_close fd k) = fds k ∖ {[fd]};
  close_backlog : forall fd k, backlog (k_close fd k) = backlog k;
  close_limit : forall fd k, limit (k_close fd k) = limit k;
}.

Record Acceptor : Type := mkAcceptor {
  acceptSocket_ : Z;
  acceptChannel_ : Channel;
  listenning_ : bool;
  idleFd_ : Z;
}.

Section Acceptor.

Context {K : Type} `{!FdKernel K}.

(** [sockets::accept]: errors other than the expected ones are fatal. *)
Definition sockets_accept (k : K) : outcome ((Z + Z) * K) :=
  match k_accept k with
  | (inl connfd, k') => Ok (inl connfd, k')
  | (inr savedErrno, k') =>
      if bool_decide (savedErrno ∈ [EAGAIN; ECONNABORTED; EINTR; EPROTO; EPERM; EMFILE])
      then Ok (inr savedErrno, k') else Fail Fatal
  end.

(** A descriptor as the C functions return it: -1 after an error. *)
Definition c_fd (r : Z + Z) : Z := match r with inl fd => fd | inr _ => -1 end.

(** The constructor on the listening socket [sockfd], which
    createNonblockingOrDie and bindOrDie made. *)
Definition Acceptor_ctor (sockfd : Z) (k : K) : outcome (Acceptor * K) :=
  let ch := set_callback ReadCallback (Channel_ctor sockfd) in
  let '(r, k1) := k_open k in
  c_assert (0 <=? c_fd r);;
  Ok (mkAcceptor sockfd ch false (c_fd r), k1).

Definition Acceptor_dtor (a : Acceptor) (k : K) : outcome K :=
  chan_remove (chan_disableAll (acceptChannel_ a));;
  Ok (k_close (idleFd_ a) k).

Definition listen (a : Acceptor) : Acceptor :=
  mkAcceptor (acceptSocket_ a)
    (set_added true (set_events (Z.lor (events_ (acceptChannel_ a)) kReadEvent) (acceptChannel_ a)))
    true (idleFd_ a).

(** [handleRead]; the last component is the descriptor given to
    [newConnectionCallback_], if any. *)
Definition handleRead (has_cb : bool) (a : Acceptor) (k : K) : outcome (Acceptor * K * option Z) :=
  '(r, k1) ← sockets_accept k;
  match r with
  | inl connfd =>
      if has_cb then Ok (a, k1, Some connfd) else Ok (a, k_close connfd k1, None)
  | inr errno =>
      if errno =? EMFILE then
        let k2 := k_close (idleFd_ a) k1 in
        let '(r2, k3) := k_accept k2 in
        let k4 := k_close (c_fd r2) k3 in
        let '(r3, k5) := k_open k4 in
        Ok (mkAcceptor (acceptSocket_ a) (acceptChannel_ a) (listenning_ a) (c_fd r3), k5, None)
      else Ok (a, k1, None)
  end.

Context `{!FdKernelLaws K}.

(** The spare descriptor is one of the process's. *)
Definition acceptor_inv (a : Acceptor) (k : K) : Prop :=
  0 <= idleFd_ a /\ idleFd_ a ∈ fds k /\ (size (fds k) <= limit k)%nat /\ Forall (Z.le 0) (elements (fds k)).

Lemma size_close fd k : fd ∈ fds k -> size (fds (k_close fd k)) = (size (fds k) - 1)%nat.
Proof.
  intros H. rewrite close_fds, size_difference by set_solver. by rewrite size_singleton.
Qed.

Lemma elements_nonneg (X Y : gset Z) : Y ⊆ X -> Forall (Z.le 0) (elements X) -> Forall (Z.le 0) (elements Y).
Proof. rewrite !Forall_forall. setoid_rewrite elem_of_elements. set_solver. Qed.

Lemma sockets_accept_full k : (limit k <= size (fds k))%nat -> sockets_accept k = Ok (inr EMFILE, k).
Proof. intros H. unfold sockets_accept. rewrite accept_full by done. by rewrite bool_decide_eq_true_2 by set_solver. Qed.

Lemma handleRead_full a k : (limit k <= size (fds k))%nat ->
  handleRead true a k =
    (let '(r2, k3) := k_accept (k_close (idleFd_ a) k) in
     let '(r3, k5) := k_open (k_close (c_fd r2) k3) in
     Ok (mkAcceptor (acceptSocket_ a) (acceptChannel_ a) (listenning_ a) (c_fd r3), k5, None)).
Proof. intros H. unfold handleRead. rewrite sockets_accept_full by done. done. Qed.

(** HandleRead always makes progress, also when the process has run out
    of descriptors. With a free one, the oldest waiting connection is
    accepted and handed over. With none left, the spare descriptor is given
    up, the oldest connection is accepted and closed at once, and a spare
    descriptor is held again: the number of open descriptors is unchanged,
    so the level-triggered poller does not report the same connection for
    ever. *)
Lemma acceptor_progress (a : Acceptor) (k : K) (x : Z) (xs : list Z) :
  acceptor_inv a k -> backlog k = x :: xs ->
  exists a' k' o, handleRead true a k = Ok (a', k', o) /\ backlog k' = xs /\ acceptor_inv a' k' /\
    ((size (fds k) < limit k)%nat -> exists fd, o = Some fd /\ ~ (fd ∈ fds k) /\ fds k' = {[fd]} ∪ fds k /\ a' = a) /\
    (size (fds k) = limit k -> o = None /\ size (fds k') = size (fds k)).
Proof.
  intros (Hpos & Hin & Hsz & Hnn) Hb.
  destruct (decide (size (fds k) < limit k)%nat) as [Hlt|Hge].
  - destruct (accept_one k x xs Hlt Hb) as (fd & k' & E & Hfd & Hnew & Hf & Hb' & Hlim).
    unfold handleRead, sockets_accept. rewrite E. cbn.
    do 3 eexists. split; [done|]. split; [done|]. split; [|split; [by eauto|lia]].
    unfold acceptor_inv. rewrite Hf, Hlim, size_union, size_singleton by set_solver.
    split_and!; [done|set_solver|lia|]. rewrite Forall_forall. intros y. rewrite elem_of_elements.
    rewrite Forall_forall in Hnn. setoid_rewrite elem_of_elements in Hnn. set_solver.
  - assert (size (fds k) = limit k) as Hfull by lia. rewrite handleRead_full by lia.
    set (k2 := k_close (idleFd_ a) k).
    assert (size (fds k2) = (size (fds k) - 1)%nat) as Hs2 by (by apply size_close).
    assert (size (fds k) <> 0)%nat as Hnz by (intros H0%size_empty_inv; set_solver).
    assert (limit k2 = limit k) as Hl2 by apply close_limit.
    destruct (accept_one k2 x xs) as (fd & k3 & -> & Hfd & Hnew & Hf & Hb' & Hlim); [lia|by rewrite <- Hb; apply close_backlog|].
    cbn [c_fd]. set (k4 := k_close fd k3).
    assert (fds k4 = fds k2) as Hf4 by (unfold k4; rewrite close_fds, Hf; set_solver).
    assert (limit k4 = limit k) as Hl4 by (unfold k4; by rewrite close_limit, Hlim).
    destruct (open_ok k4) as (fd' & k5 & -> & Hfd' & Hnew' & Hf5 & Hb5 & Hl5); [rewrite Hf4; lia|].
    cbn [c_fd]. do 3 eexists. split; [done|].
    assert (size (fds k5) = size (fds k)) as Hs5.
    { rewrite Hf5, size_union, size_singleton, Hf4 by set_solver. lia. }
    split_and!; [rewrite Hb5; unfold k4; by rewrite close_backlog|..|lia|done].
    unfold acceptor_inv. cbn. rewrite Hs5, Hl5. split_and!; [done|set_solver|lia|].
    rewrite Hf5, Hf4. unfold k2. rewrite close_fds, Forall_forall. intros y. rewrite elem_of_elements.
    rewrite Forall_forall in Hnn. setoid_rewrite elem_of_elements in Hnn. set_solver.
Qed.

End Acceptor.

(** ** A kernel with these laws *)

Record table : Type := mkTable { t_fds : gset Z; t_limit : nat; t_backlog : list Z }.

Definition next_fd (t : table) : Z := foldr Z.max (-1) (elements (t_fds t)) + 1.

Definition take_fd (t : table) (b : list Z) : (Z + Z) * table :=
  (inl (next_fd t), mkTable ({[next_fd t]} ∪ t_fds t) (t_limit t) b).

#[local] Instance table_kernel : FdKernel table := {
  k_accept := fun t =>
    if decide (t_limit t <= size (t_fds t))%nat then (inr EMFILE, t)
    else match t_backlog t with [] => (inr EAGAIN, t) | _ :: xs => take_fd t xs end;
  k_open := fun t => if decide (t_limit t <= size (t_fds t))%nat then (inr EMFILE, t) else take_fd t (t_backlog t);
  k_close := fun fd t => mkTable (t_fds t ∖ {[fd]}) (t_limit t) (t_backlog t);
  fds := t_fds; limit := t_limit; backlog := t_backlog }.

Lemma foldr_max_ge l : -1 <= foldr Z.max (-1) l /\ Forall (fun x => x <= foldr Z.max (-1) l) l.
Proof.
  induction l as [|x l [IH1 IH2]]; cbn; [split; [lia|constructor]|]. split; [lia|].
  constructor; [lia|]. eapply Forall_impl; [exact IH2|]. cbn. lia.
Qed.

Lemma next_fd_fresh t : 0 <= next_fd t /\ ~ (next_fd t ∈ t_fds t).
Proof.
  unfold next_fd. destruct (foldr_max_ge (elements (t_fds t))) as [H1 H2]. split; [lia|].
  intros H%elem_of_elements. rewrite Forall_forall in H2. specialize (H2 _ H). cbn in H2. lia.
Qed.

#[local] Instance table_laws : FdKernelLaws table.
Proof.
  split; cbn.
  - intros k H. by rewrite decide_True.
  - intros k H Hb. rewrite decide_False by lia. by rewrite Hb.
  - intros k x xs H Hb. rewrite decide_False by lia. rewrite Hb. unfold take_fd.
    pose proof (next_fd_fresh k) as [? ?]. do 2 eexists. by split_and!.
  - intros k H. rewrite decide_False by lia. unfold take_fd.
    pose proof (next_fd_fresh k) as [? ?]. do 2 eexists. by split_and!.
  - done.
  - done.
  - done.
Qed.

(** A process with a limit of four descriptors, all of them used. *)
Definition demo_table : table := mkTable {[0; 1; 2; 3]} 4 [77; 78].
Definition demo_acceptor : Acceptor := mkAcceptor 2 (Channel_ctor 2) true 3.

Lemma acceptor_progress_witness :
  exists a' k' o, handleRead true demo_acceptor demo_table = Ok (a', k', o) /\ backlog k' = [78] /\
    o = None /\ size (fds k') = 4%nat.
Proof.
  destruct (acceptor_progress demo_acceptor demo_table 77 [78]) as (a' & k' & o & E & Hb & _ & _ & Hfull).
  - split_and!; [vm_compute; discriminate|apply (bool_decide_unpack _); vm_compute; exact I| |].
    + vm_compute. repeat constructor.
    + apply (bool_decide_unpack _). vm_compute. exact I.
  - reflexivity.
  - destruct (Hfull ltac:(vm_compute; reflexivity)) as [Ho Hs].
    exists a', k', o. split; [exact E|]. split; [exact Hb|]. split; [exact Ho|].
    rewrite Hs. vm_compute. reflexivity.
Defined.
