(* ===== verification/TcpClient.v ===== *)
(** * TcpClient: src/mynetlib/net/TcpClient.h, TcpClient.cc

    A client in its loop's thread, on top of the connector's model. The
    connection is described by what the client sees of it: its socket and its
    state. Destructions the loop has queued are part of the state. *)

From stdpp Require Import gmap.
From S2P Require Import Prelude Format Channel TcpConnection Connector ConnectorSpec.

Record TcpClient : Type := mkClient {
  connector_ : Connector;
  client_name : list byte;
  retry_ : bool;
  client_connect_ : bool;
  nextConnId_ : Z;
  connection_ : option Z;
  conns : gmap Z (list byte * Z * TcpConnection.StateE);
  destroys : list Z;
}.

Definition set_connector x t := mkClient x (client_name t) (retry_ t) (client_connect_ t) (nextConnId_ t)
  (connection_ t) (conns t) (destroys t).
Definition set_client_connect x t := mkClient (connector_ t) (client_name t) (retry_ t) x (nextConnId_ t)
  (connection_ t) (conns t) (destroys t).
Definition set_connection x t := mkClient (connector_ t) (client_name t) (retry_ t) (client_connect_ t) (nextConnId_ t)
  x (conns t) (destroys t).
Definition set_conns x t := mkClient (connector_ t) (client_name t) (retry_ t) (client_connect_ t) (nextConnId_ t)
  (connection_ t) x (destroys t).
Definition set_destroys x t := mkClient (connector_ t) (client_name t) (retry_ t) (client_connect_ t) (nextConnId_ t)
  (connection_ t) (conns t) x.

Definition TcpClient_ctor (name : list byte) : TcpClient :=
  mkClient Connector_ctor name false true 1 None ∅ [].

Definition enableRetry (t : TcpClient) : TcpClient :=
  mkClient (connector_ t) (client_name t) true (client_connect_ t) (nextConnId_ t) (connection_ t) (conns t) (destroys t).

Definition client_connect (a : connect_answer) (t : TcpClient) : outcome TcpClient :=
  c ← start a (connector_ t); Ok (set_connector c (set_client_connect true t)).

(** [TcpConnection::shutdown] as the client sees it. *)
Definition shutdown_conn (p : Z) (t : TcpClient) : outcome TcpClient :=
  match conns t !! p with
  | Some (n, fd, TcpConnection.kConnected) => Ok (set_conns (<[p := (n, fd, kDisconnecting)]> (conns t)) t)
  | Some _ => Ok t
  | None => Fail UseAfterFree
  end.

Definition disconnect (t : TcpClient) : outcome TcpClient :=
  let t1 := set_client_connect false t in
  match connection_ t1 with
  | Some p => shutdown_conn p t1
  | None => Ok t1
  end.

Definition client_stop (t : TcpClient) : TcpClient :=
  set_connector (stop (connector_ t)) (set_client_connect false t).

(** [p] is the address of the new connection, [peer] the text of the peer's
    address; connectEstablished makes it kConnected. *)
Definition client_newConnection (sockfd p : Z) (peer : list byte) (t : TcpClient) : TcpClient :=
  let buf := snprintf 32 (str ":" ++ peer ++ str "#" ++ fmt_d (nextConnId_ t)) in
  mkClient (connector_ t) (client_name t) (retry_ t) (client_connect_ t) (s32 (nextConnId_ t + 1))
    (Some p) (<[p := (client_name t ++ buf, sockfd, TcpConnection.kConnected)]> (conns t)) (destroys t).

(** The close callback. *)
Definition client_removeConnection (a : connect_answer) (p : Z) (t : TcpClient) : outcome TcpClient :=
  c_assert (bool_decide (connection_ t = Some p));;
  let t1 := set_destroys (destroys t ++ [p]) (set_connection None t) in
  if retry_ t1 && client_connect_ t1 then
    c ← restart a (connector_ t1); Ok (set_connector c t1)
  else Ok t1.

(** [TcpConnection::handleClose] as the client sees it. *)
Definition client_close_conn (a : connect_answer) (p : Z) (t : TcpClient) : outcome TcpClient :=
  match conns t !! p with
  | Some (n, fd, st) =>
      c_assert (state_eqb st TcpConnection.kConnected || state_eqb st kDisconnecting);;
      client_removeConnection a p (set_conns (<[p := (n, fd, TcpConnection.kDisconnected)]> (conns t)) t)
  | None => Fail UseAfterFree
  end.

(** [~TcpClient] asks the loop to swap the connection's close callback for
    [detail::removeConnection] and forces the connection to close when it holds
    the only reference; without a connection it stops the connector, and a
    timer keeps it alive for a second. *)
Inductive dtor_request : Set :=
| SetCloseCallback (p : Z)
| ForceClose (p : Z)
| RemoveConnectorAfter (seconds : Z).

Definition TcpClient_dtor (unique : bool) (t : TcpClient) : TcpClient * list dtor_request :=
  match connection_ t with
  | Some p => (t, SetCloseCallback p :: if unique then [ForceClose p] else [])
  | None => (set_connector (stop (connector_ t)) t, [RemoveConnectorAfter 1])
  end.

(** [detail::removeConnection] *)
Definition detail_removeConnection (p : Z) (t : TcpClient) : TcpClient := set_destroys (destroys t ++ [p]) t.

(** Steps: the user's calls, the loop's events for the connector, the peer
    closes the connection, a queued destruction runs. *)
Inductive client_label : Type :=
| LConnect (a : connect_answer)
| LDisconnect
| LStopClient
| LEnableRetry
| LConnector (l : connector_label) (p : Z) (peer : list byte)
| LCloseConn (a : connect_answer)
| LRunDestroy.

Definition client_step (t : TcpClient) (l : client_label) : outcome TcpClient :=
  match l with
  | LConnect a => client_connect a t
  | LDisconnect => disconnect t
  | LStopClient => Ok (client_stop t)
  | LEnableRetry => Ok (enableRetry t)
  | LConnector cl p peer =>
      c ← connector_step [] (connector_ t) cl;
      let t1 := set_connector c t in
      match drop (length (handed (connector_ t))) (handed c) with
      | sockfd :: _ => Ok (client_newConnection sockfd p peer t1)
      | [] => Ok t1
      end
  | LCloseConn a =>
      match connection_ t with
      | Some p => client_close_conn a p t
      | None => Ok t
      end
  | LRunDestroy =>
      match destroys t with
      | [] => Ok t
      | p :: ps =>
          match conns t !! p with
          | Some (_, _, st) =>
              c_assert (state_eqb st TcpConnection.kDisconnected);;
              Ok (set_destroys ps (set_conns (delete p (conns t)) t))
          | None => Fail UseAfterFree
          end
      end
  end.

(** ** What a connector step hands over *)

(** The connector hands nothing over and a connected one stays so, or one
    that was not connected hands over one socket and is connected. *)
Definition hands (c c' : Connector) : Prop :=
  (handed c' = handed c /\ (state_ c = kConnected -> state_ c' = kConnected)) \/
  (state_ c <> kConnected /\ exists fd, handed c' = handed c ++ [fd] /\ state_ c' = kConnected).

#[export] Instance hands_preorder : PreOrder hands.
Proof.
  split; [by left|]. intros c1 c2 c3 [[H1 S1]|(N1 & f1 & H1 & S1)] [[H2 S2]|(N2 & f2 & H2 & S2)].
  - left. rewrite H2, H1. auto.
  - right. split; [auto|]. exists f2. by rewrite H2, H1.
  - right. split; [done|]. exists f1. rewrite H2, H1. auto.
  - done.
Qed.

Lemma same_hands c c' : handed c' = handed c -> state_ c <> kConnected -> hands c c'.
Proof. by left. Qed.

Lemma frame_hands c c' : handed c' = handed c -> state_ c' = state_ c -> hands c c'.
Proof. left. split; congruence. Qed.

Lemma retry_handed fd c : handed (retry fd c) = handed c.
Proof. unfold retry. by case_match. Qed.

Lemma startInLoop_opens a c c' : startInLoop a c = Ok c' ->
  handed c' = handed c /\ state_ c = kDisconnected /\
  opened c' = opened c ++ (if connect_ c then [ca_sockfd a] else []).
Proof.
  unfold startInLoop, c_assert. case_bool_decide; cbn; [|done].
  destruct (connect_ c); cbn; [|intros [= <-]; by rewrite app_nil_r].
  unfold connect, connecting, c_assert. repeat (case_match; cbn; try done); intros [= <-];
    unfold retry; repeat case_match; done.
Qed.

Lemma startInLoop_hands a c c' : startInLoop a c = Ok c' -> hands c c'.
Proof. intros (? & Hs & _)%startInLoop_opens. apply same_hands; congruence. Qed.

Lemma removeAndReset_frame c fd c1 : removeAndResetChannel c = Ok (fd, c1) ->
  handed c1 = handed c /\ connect_ c1 = connect_ c.
Proof.
  unfold removeAndResetChannel, on_channel, chan_remove, c_assert. repeat case_match; cbn; try done.
  by intros [= <- <-].
Qed.

Lemma callback_hands s cb c c' : connector_callback [] s cb c = Ok c' -> hands c c'.
Proof.
  destruct cb; cbn; try (by intros [= <-]).
  - unfold handleWrite. case_bool_decide as Hs; [|case_bool_decide; cbn; [by intros [= <-]|done]].
    destruct (removeAndResetChannel c) as [[fd c1]|] eqn:E; cbn; [|done]. apply removeAndReset_frame in E as [Hh _].
    repeat case_match; intros [= <-];
      try (apply same_hands; cbn; rewrite ?retry_handed; congruence).
    right. split; [congruence|]. exists fd. cbn. by rewrite Hh.
  - unfold handleError. case_bool_decide as Hs; [|by intros [= <-]].
    destruct (removeAndResetChannel c) as [[fd c1]|] eqn:E; cbn; [|done]. apply removeAndReset_frame in E as [Hh _].
    cbn in Hh. intros [= <-]. apply same_hands; rewrite ?retry_handed; congruence.
Qed.

Lemma functor_hands a f c c' : run_functor a f c = Ok c' -> hands c c'.
Proof.
  destruct f; cbn; [apply startInLoop_hands| |].
  - unfold stopInLoop. case_bool_decide as Hs; [|by intros [= <-]].
    destruct (removeAndResetChannel _) as [[fd c1]|] eqn:E; cbn; [|done]. apply removeAndReset_frame in E as [Hh _].
    cbn in Hh. intros [= <-]. apply same_hands; rewrite ?retry_handed; congruence.
  - unfold resetChannel, chan_delete, c_assert. repeat (case_match; cbn; try done); intros [= <-]; by apply frame_hands.
Qed.

(** The steps the loop makes. *)
Definition loop_driven (l : connector_label) : Prop :=
  match l with
  | LEvent _ _ | LRunFunctor _ | LTimer _ => True
  | _ => False
  end.

Lemma loop_driven_hands l c c' : loop_driven l -> connector_step [] c l = Ok c' -> hands c c'.
Proof.
  destruct l; cbn; try done; intros _.
  - destruct (channel_ c) as [ch|]; [|by intros [= <-]]. destruct (addedToLoop_ ch); [|by intros [= <-]].
    assert (forall ch x, hands x (put_channel ch x)) as Hput.
    { intros ch' x. unfold put_channel. destruct (channel_ x); [by apply frame_hands|done]. }
    apply (handleEvent_inv _ _ _ (hands c)); [| |done].
    + intros. by etrans.
    + intros cb x y Hx ?%callback_hands. by etrans.
  - destruct (queue c) as [|f fs]; [by intros [= <-]|]. apply functor_hands.
  - destruct (timers c); [by intros [= <-]|]. apply startInLoop_hands.
Qed.

(** ** Use

    The client is connected once while idle, the loop runs the connector's
    functors before the connection it handed over can be closed, and only
    the loop drives the connector. *)
Definition client_allowed (t : TcpClient) (l : client_label) : Prop :=
  match l with
  | LConnect a => idle (connector_ t) /\ answer_ok a
  | LDisconnect => True
  | LStopClient => True
  | LEnableRetry => True
  | LConnector cl p _ =>
      conns t !! p = None /\ allowed (connector_ t) cl /\ loop_driven cl
  | LCloseConn a => answer_ok a /\ channel_ (connector_ t) = None /\ queue (connector_ t) = []
  | LRunDestroy => True
  end.

Fixpoint client_history_ok (t : TcpClient) (ls : list client_label) : Prop :=
  match ls with
  | [] => True
  | l :: ls' => client_allowed t l /\ forall t', client_step t l = Ok t' -> client_history_ok t' ls'
  end.

(** ** Invariant *)

(** The state of the connection at [p]. *)
Definition conn_state (p : Z) (t : TcpClient) : option TcpConnection.StateE := snd <$> conns t !! p.

Record tinv (t : TcpClient) : Prop := mkTinv {
  ti_connector : cinv false (connector_ t);
  ti_current : forall p, connection_ t = Some p -> state_ (connector_ t) = kConnected /\
    (conn_state p t = Some TcpConnection.kConnected \/ conn_state p t = Some kDisconnecting);
  ti_closed : forall p, p ∈ destroys t -> conn_state p t = Some TcpConnection.kDisconnected;
  ti_nodup : NoDup (destroys t);
  ti_owned : forall p, is_Some (conns t !! p) -> connection_ t = Some p \/ p ∈ destroys t;
}.

Lemma client_ctor_inv name : tinv (TcpClient_ctor name).
Proof.
  split; cbn; try done; [apply ctor_inv|by intros p ?%not_elem_of_nil|constructor|].
  intros p. rewrite lookup_empty. by intros [? ?].
Qed.

(** A change of the connector that hands nothing over. *)
Lemma set_connector_inv c t : tinv t -> cinv false c ->
  (state_ (connector_ t) = kConnected -> state_ c = kConnected) -> tinv (set_connector c t).
Proof.
  intros [Hc Hcur Hcl Hn Ho] Hc' Hk. split; try done. cbn. intros p Hp. destruct (Hcur p Hp). auto.
Qed.

Lemma flags_inv t x y : tinv t ->
  tinv (mkClient (connector_ t) (client_name t) x y (nextConnId_ t) (connection_ t) (conns t) (destroys t)).
Proof. by intros []. Qed.

Lemma conn_state_insert p q e m t : conn_state q (set_conns (<[p := e]> m) t) =
  if bool_decide (q = p) then Some (snd e) else snd <$> m !! q.
Proof. unfold conn_state. cbn. case_bool_decide; subst; by rewrite ?lookup_insert_eq, ?lookup_insert_ne. Qed.

Lemma disconnect_ok t : tinv t -> exists t', disconnect t = Ok t' /\ tinv t'.
Proof.
  intros Hi. unfold disconnect. destruct (connection_ _) as [p|] eqn:Hp; cbn in Hp; cycle 1.
  { eexists. split; [done|]. by apply flags_inv. }
  pose proof Hi as [Hc Hcur Hcl Hn Ho]. destruct (Hcur p Hp) as [Hk Hs].
  unfold shutdown_conn. cbn. unfold conn_state in Hs.
  destruct (conns t !! p) as [[[n fd] st]|] eqn:Ep; [|by destruct Hs].
  destruct st; try (by destruct Hs); (eexists; split; [done|]); [|by apply flags_inv].
  assert (~ p ∈ destroys t) as Hnd.
  { intros Hd%Hcl. unfold conn_state in Hd. rewrite Ep in Hd. done. }
  split; cbn; try done.
  - intros q Hq. assert (q = p) as -> by congruence. split; [done|].
    rewrite conn_state_insert, bool_decide_eq_true_2 by done. auto.
  - intros q Hq. rewrite conn_state_insert, bool_decide_eq_false_2 by congruence. by apply Hcl.
  - intros q [e He]. destruct (decide (q = p)) as [->|]; [by left|].
    rewrite lookup_insert_ne in He by done. eauto.
Qed.

Lemma newConnection_inv fd p peer t c : tinv t -> cinv false c -> conns t !! p = None ->
  connection_ t = None -> state_ c = kConnected ->
  tinv (client_newConnection fd p peer (set_connector c t)).
Proof.
  intros [_ Hcur Hcl Hn Ho] Hc Hp Hnone Hk. unfold client_newConnection. split; cbn; try done.
  - intros q [= <-]. split; [done|]. left. unfold conn_state. cbn. by rewrite lookup_insert_eq.
  - intros q Hq. specialize (Hcl q Hq). unfold conn_state in *. cbn.
    destruct (decide (q = p)) as [->|]; [by rewrite Hp in Hcl|by rewrite lookup_insert_ne].
  - intros q [e He]. destruct (decide (q = p)) as [->|]; [by left|]. right.
    rewrite lookup_insert_ne in He by done. destruct (Ho q); [eauto|congruence|done].
Qed.

(** The client once the connection at [p] is closed and removed. *)
Definition closed_client (p : Z) (e : list byte * Z) (t : TcpClient) : TcpClient :=
  set_destroys (destroys t ++ [p]) (set_connection None
    (set_conns (<[p := (e.1, e.2, TcpConnection.kDisconnected)]> (conns t)) t)).

Lemma closed_client_inv p n fd t st : tinv t -> connection_ t = Some p -> conns t !! p = Some (n, fd, st) ->
  tinv (closed_client p (n, fd) t).
Proof.
  intros [Hc Hcur Hcl Hn Ho] Hp Ep. destruct (Hcur p Hp) as [Hk Hs].
  assert (~ p ∈ destroys t) as Hnd.
  { intros Hd%Hcl. rewrite Hd in Hs. by destruct Hs. }
  split; cbn; try done.
  - intros q. rewrite elem_of_app, list_elem_of_singleton. unfold conn_state. cbn. intros [Hq| ->].
    + rewrite lookup_insert_ne by congruence. by apply Hcl.
    + by rewrite lookup_insert_eq.
  - apply NoDup_app. split_and!; [done| |apply NoDup_singleton].
    intros q Hq ->%list_elem_of_singleton. done.
  - intros q [e He]. right. rewrite elem_of_app, list_elem_of_singleton.
    destruct (decide (q = p)) as [->|]; [by right|]. rewrite lookup_insert_ne in He by done.
    destruct (Ho q); [eauto|congruence|by left].
Qed.

(** What closing the current connection does. *)
Lemma close_step a p t : tinv t -> connection_ t = Some p -> answer_ok a ->
  channel_ (connector_ t) = None -> queue (connector_ t) = [] ->
  exists t', client_step t (LCloseConn a) = Ok t' /\ tinv t' /\ connection_ t' = None /\
    conn_state p t' = Some TcpConnection.kDisconnected /\ destroys t' = destroys t ++ [p] /\
    opened (connector_ t') = opened (connector_ t) ++ (if retry_ t && client_connect_ t then [ca_sockfd a] else []).
Proof.
  intros Hi Hp Ha Hch Hq. destruct (ti_current _ Hi p Hp) as [Hk Hs]. cbn. rewrite Hp.
  unfold client_close_conn, client_removeConnection. unfold conn_state in Hs.
  destruct (conns t !! p) as [[[n fd] st]|] eqn:Ep; [|by destruct Hs].
  pose proof (closed_client_inv p n fd t st Hi Hp Ep) as Hi'.
  assert (conn_state p (closed_client p (n, fd) t) = Some TcpConnection.kDisconnected) as Hd.
  { apply Hi'. cbn. apply elem_of_app. right. by left. }
  replace (state_eqb st _ || _) with true by (destruct st; by destruct Hs). cbn.
  rewrite bool_decide_eq_true_2 by done. cbn.
  destruct (retry_ t && client_connect_ t); cycle 1.
  { eexists. split; [done|]. by rewrite app_nil_r. }
  destruct (step_ok [] (Forall_nil_2 _) (connector_ t) (LRestart a)) as (c & Ec & Hc); [apply Hi|done|].
  cbn in Ec. rewrite Ec. cbn. eexists. split; [done|]. split_and!; try done.
  - destruct Hi'. by split.
  - cbn. unfold restart in Ec. by apply startInLoop_opens in Ec as (_ & _ & ->).
Qed.

Lemma client_step_ok t l : tinv t -> client_allowed t l -> exists t', client_step t l = Ok t' /\ tinv t'.
Proof.
  intros Hi Hl. pose proof Hi as [Hc Hcur Hcl Hn Ho]. destruct l as [a| | | |cl p peer|a|]; cbn in Hl |- *.
  - destruct (step_ok [] (Forall_nil_2 _) (connector_ t) (LStart a)) as (c & Ec & Hc'); [done|done|].
    cbn in Ec. unfold client_connect. rewrite Ec. cbn. eexists. split; [done|].
    apply set_connector_inv; [by apply flags_inv|done|]. destruct Hl as [[Hs _] _]. cbn. congruence.
  - by apply disconnect_ok.
  - eexists. split; [done|]. apply set_connector_inv; [by apply flags_inv|by apply stop_ok|done].
  - eexists. split; [done|]. by apply flags_inv.
  - destruct Hl as (Hp & Ha & Hloop).
    destruct (step_ok [] (Forall_nil_2 _) (connector_ t) cl) as (c & Ec & Hc'); [done|done|].
    rewrite Ec. cbn.
    destruct (loop_driven_hands _ _ _ Hloop Ec) as [[Hh Hs]|(Hs & fd & Hh & Hs')]; rewrite Hh.
    + rewrite drop_all. eexists. split; [done|]. by apply set_connector_inv.
    + rewrite drop_app_length. eexists. split; [done|]. apply newConnection_inv; try done.
      destruct (connection_ t) as [q|] eqn:Eq; [|done]. by destruct (Hcur q eq_refl).
  - destruct Hl as (Ha & Hch & Hq). destruct (connection_ t) as [p|] eqn:Hp; [|by eauto].
    destruct (close_step a p t) as (t' & E & Hi' & _); try done. cbn in E. rewrite Hp in E. eauto.
  - destruct (destroys t) as [|p ps] eqn:Ed; [by eauto|].
    pose proof (Hcl p ltac:(by left)) as Hp. unfold conn_state in Hp.
    destruct (conns t !! p) as [[[n fd] st]|] eqn:Ep; [|done]. simplify_eq/=.
    eexists. split; [done|]. apply NoDup_cons in Hn as [Hnp Hn].
    split; cbn; try done.
    + intros q Hq. destruct (Hcur q Hq) as [Hk Hs]. split; [done|]. unfold conn_state in *. cbn.
      destruct (decide (q = p)) as [->|]; [|by rewrite lookup_delete_ne]. rewrite Ep in Hs. by destruct Hs.
    + intros q Hq. unfold conn_state. cbn. rewrite lookup_delete_ne by congruence. apply Hcl. by right.
    + intros q [e He]. apply lookup_delete_Some in He as [? He].
      destruct (Ho q) as [?|Hq]; [eauto|by left|]. right. by apply elem_of_cons in Hq as [?|?].
Qed.

Lemma client_history_inv ls : forall t, tinv t -> client_history_ok t ls ->
  exists t', foldM client_step t ls = Ok t' /\ tinv t'.
Proof.
  induction ls as [|l ls IH]; intros t Hi; cbn; [by eauto|]. intros [Hl Hn].
  destruct (client_step_ok t l Hi Hl) as (t' & E & Hi'). rewrite E. cbn. apply IH; auto.
Qed.

(** ** Theorem *)


(** ** Example *)

(** Connects, is closed by the peer, retries, and is stopped. *)
Definition client_run : list client_label :=
  [LEnableRetry; LConnect (in_progress 5); LConnector writable 100 (str "127.0.0.1:80");
   LConnector (LRunFunctor (refused 9)) 101 []; LCloseConn (in_progress 6); LRunDestroy;
   LConnector writable 102 (str "127.0.0.1:80"); LConnector (LRunFunctor (refused 9)) 103 []; LDisconnect].

Lemma client_run_ok : client_history_ok (TcpClient_ctor (str "client")) client_run.
Proof.
  repeat (split; [by vm_compute|]; intros ? E; vm_compute in E; injection E as <-). exact I.
Qed.

