(* ===== verification/Date.v ===== *)
(** * Calendar dates: src/mynetlib/base/Date.h, Date.cc

    Julian day numbers in [int] arithmetic: [/] and [%] truncate towards
    zero and every result wraps to 32 bits. *)

From S2P Require Import Prelude Format.

Record YearMonthDay : Set := mkYMD { year : Z; month : Z; day : Z }.

#[export] Instance YearMonthDay_eq_dec : EqDecision YearMonthDay.
Proof. solve_decision. Defined.

Definition getJulianDayNumber (yr mon dy : Z) : Z :=
  let a := s32 (Z.quot (s32 (14 - mon)) 12) in
  let y := s32 (s32 (yr + 4800) - a) in
  let m := s32 (s32 (mon + s32 (12 * a)) - 3) in
  s32 (s32 (s32 (s32 (s32 (s32 (dy + Z.quot (s32 (s32 (153 * m) + 2)) 5) + s32 (y * 365)) + Z.quot y 4)
             - Z.quot y 100) + Z.quot y 400) - 32045).

Definition getYearMonthDay (julianDayNumber : Z) : YearMonthDay :=
  let a := s32 (julianDayNumber + 32044) in
  let b := Z.quot (s32 (s32 (4 * a) + 3)) 146097 in
  let c := s32 (a - Z.quot (s32 (b * 146097)) 4) in
  let d := Z.quot (s32 (s32 (4 * c) + 3)) 1461 in
  let e := s32 (c - Z.quot (s32 (1461 * d)) 4) in
  let m := Z.quot (s32 (s32 (5 * e) + 2)) 153 in
  mkYMD (s32 (s32 (s32 (s32 (b * 100) + d) - 4800) + Z.quot m 10))
        (s32 (s32 (m + 3) - s32 (12 * Z.quot m 10)))
        (s32 (s32 (e - Z.quot (s32 (s32 (153 * m) + 2)) 5) + 1)).

Definition kDaysPerWeek : Z := 7.
Definition kJulianDayOf1970_01_01 : Z := getJulianDayNumber 1970 1 1.

(** A Date is its [julianDayNumber_]. *)
Definition Date_ymd (y m d : Z) : Z := getJulianDayNumber y m d.
Definition Date_tm (tm_year tm_mon tm_mday : Z) : Z :=
  getJulianDayNumber (s32 (tm_year + 1900)) (s32 (tm_mon + 1)) tm_mday.
Definition date_valid (jdn : Z) : bool := 0 <? jdn.
Definition weekDay (jdn : Z) : Z := Z.rem (s32 (jdn + 1)) kDaysPerWeek.

Definition toIsoString (jdn : Z) : list byte :=
  let ymd := getYearMonthDay jdn in
  snprintf 32 (fmt_wd 4 (year ymd) ++ str "-" ++ fmt_0d 2 (month ymd) ++ str "-" ++ fmt_0d 2 (day ymd)).

(** ** The Gregorian calendar *)

Definition leap_year (y : Z) : bool := (y mod 4 =? 0) && (negb (y mod 100 =? 0) || (y mod 400 =? 0)).

Definition days_in_month (y m : Z) : Z :=
  if m =? 2 then if leap_year y then 29 else 28
  else if (m =? 4) || (m =? 6) || (m =? 9) || (m =? 11) then 30 else 31.

Definition calendar_day (t : YearMonthDay) : bool :=
  (1 <=? month t) && (month t <=? 12) && (1 <=? day t) && (day t <=? days_in_month (year t) (month t)).

Definition next_day (t : YearMonthDay) : YearMonthDay :=
  if day t <? days_in_month (year t) (month t) then mkYMD (year t) (month t) (day t + 1)
  else if month t <? 12 then mkYMD (year t) (month t + 1) 1
  else mkYMD (year t + 1) 1 1.

(** ** The algorithms without wrapping *)

Definition jdn_of (y m d : Z) : Z :=
  let a := (14 - m) / 12 in
  let y' := y + 4800 - a in
  d + (153 * (m + 12 * a - 3) + 2) / 5 + y' * 365 + y' / 4 - y' / 100 + y' / 400 - 32045.

Definition ymd_of (j : Z) : YearMonthDay :=
  let a := j + 32044 in
  let b := (4 * a + 3) / 146097 in
  let c := a - (b * 146097) / 4 in
  let d := (4 * c + 3) / 1461 in
  let e := c - (1461 * d) / 4 in
  let m := (5 * e + 2) / 153 in
  mkYMD (b * 100 + d - 4800 + m / 10) (m + 3 - 12 * (m / 10)) (e - (153 * m + 2) / 5 + 1).

(** 400 years are 146097 days. *)
Lemma jdn_of_period y m d k : jdn_of (y + 400 * k) m d = jdn_of y m d + 146097 * k.
Proof.
  unfold jdn_of. set (a := (14 - m) / 12).
  replace (y + 400 * k + 4800 - a) with (y + 4800 - a + (100 * k) * 4) by lia.
  rewrite Z.div_add by lia. replace (y + 4800 - a + 100 * k * 4) with (y + 4800 - a + (4 * k) * 100) by lia.
  rewrite Z.div_add by lia. replace (y + 4800 - a + 4 * k * 100) with (y + 4800 - a + k * 400) by lia.
  rewrite Z.div_add by lia. lia.
Qed.

Definition shift_years (k : Z) (t : YearMonthDay) : YearMonthDay := mkYMD (year t + 400 * k) (month t) (day t).

Lemma ymd_of_period j k : ymd_of (j + 146097 * k) = shift_years k (ymd_of j).
Proof.
  unfold ymd_of, shift_years. cbn [year month day].
  replace (4 * (j + 146097 * k + 32044) + 3) with (4 * (j + 32044) + 3 + (4 * k) * 146097) by lia.
  rewrite Z.div_add by lia. set (b := (4 * (j + 32044) + 3) / 146097).
  replace ((b + 4 * k) * 146097) with (b * 146097 + (146097 * k) * 4) by lia.
  rewrite Z.div_add by lia.
  replace (j + 146097 * k + 32044 - (b * 146097 / 4 + 146097 * k)) with (j + 32044 - b * 146097 / 4) by lia.
  f_equal. lia.
Qed.

Lemma leap_year_period y k : leap_year (y + 400 * k) = leap_year y.
Proof.
  unfold leap_year.
  replace (y + 400 * k) with (y + (100 * k) * 4) by lia. rewrite Z.mod_add by lia.
  replace (y + 100 * k * 4) with (y + (4 * k) * 100) by lia. rewrite Z.mod_add by lia.
  replace (y + 4 * k * 100) with (y + k * 400) by lia. rewrite Z.mod_add by lia. done.
Qed.

Lemma calendar_day_shift k t : calendar_day (shift_years k t) = calendar_day t.
Proof. unfold calendar_day, days_in_month. cbn. by rewrite leap_year_period. Qed.

Lemma next_day_shift k t : next_day (shift_years k t) = shift_years k (next_day t).
Proof.
  unfold next_day, days_in_month. cbn [year month day shift_years]. rewrite leap_year_period.
  repeat case_match; unfold shift_years; cbn; f_equal; lia.
Qed.

(** ** One period, day by day *)

Definition day_ok (j : Z) : bool :=
  let t := ymd_of j in
  calendar_day t && (jdn_of (year t) (month t) (day t) =? j) && bool_decide (ymd_of (j + 1) = next_day t).

Definition ymd_ok (t : YearMonthDay) : bool := bool_decide (ymd_of (jdn_of (year t) (month t) (day t)) = t).

(** [check] holds of [i], ..., [i + n - 1]. *)
Fixpoint check_range (check : Z -> bool) (n : nat) (i : Z) : bool :=
  match n with
  | O => true
  | S n' => check i && check_range check n' (i + 1)
  end.

Lemma check_range_spec check n i : check_range check n i = true -> forall j, i <= j < i + Z.of_nat n -> check j = true.
Proof.
  revert i. induction n as [|n IH]; intros i H j Hj; [lia|]. cbn in H. apply andb_true_iff in H as [Hi Hn].
  destruct (Z.eq_dec j i) as [->|]; [done|]. apply (IH (i + 1)); [done|lia].
Qed.

Lemma period_days : check_range day_ok (Z.to_nat 146097) 0 = true.
Proof. vm_compute. reflexivity. Qed.

Lemma period_dates :
  check_range (fun y => check_range (fun m => check_range (fun d => ymd_ok (mkYMD y m d))
    (Z.to_nat (days_in_month y m)) 1) 12 1) 400 0 = true.
Proof. vm_compute. reflexivity. Qed.

Lemma split_period j n : 0 < n -> exists r k, 0 <= r < n /\ j = r + n * k.
Proof.
  intros Hn. exists (j mod n), (j / n). split; [by apply Z.mod_pos_bound|].
  pose proof (Z.div_mod j n). lia.
Qed.

Lemma ymd_of_spec j : calendar_day (ymd_of j) = true /\
  jdn_of (year (ymd_of j)) (month (ymd_of j)) (day (ymd_of j)) = j /\ ymd_of (j + 1) = next_day (ymd_of j).
Proof.
  destruct (split_period j 146097) as (r & k & Hr & ->); [lia|].
  pose proof (check_range_spec _ _ _ period_days r ltac:(lia)) as H. unfold day_ok in H.
  apply andb_true_iff in H as [[Hc Hj%Z.eqb_eq]%andb_true_iff Hn%bool_decide_eq_true].
  replace (r + 146097 * k + 1) with (r + 1 + 146097 * k) by lia.
  rewrite !ymd_of_period, calendar_day_shift, Hn, next_day_shift. cbn [shift_years year month day].
  rewrite jdn_of_period, Hj. done.
Qed.

Lemma calendar_day_bounds t : calendar_day t = true ->
  1 <= month t <= 12 /\ 1 <= day t <= days_in_month (year t) (month t) /\ days_in_month (year t) (month t) <= 31.
Proof.
  unfold calendar_day. intros H. zcases; cbn in H; try done. split; [lia|]. split; [lia|].
  unfold days_in_month. repeat case_match; lia.
Qed.

Lemma jdn_of_spec t : calendar_day t = true -> ymd_of (jdn_of (year t) (month t) (day t)) = t.
Proof.
  intros Hc. destruct t as [y m d]. destruct (split_period y 400) as (r & k & Hr & ->); [lia|].
  change (mkYMD (r + 400 * k) m d) with (shift_years k (mkYMD r m d)) in *.
  rewrite calendar_day_shift in Hc. cbn [shift_years year month day].
  rewrite jdn_of_period, ymd_of_period. f_equal.
  destruct (calendar_day_bounds _ Hc) as (Hm & Hd & _). cbn [year month day] in *.
  pose proof (check_range_spec _ _ _ period_dates r ltac:(lia)) as H1. cbn beta in H1.
  pose proof (check_range_spec _ _ _ H1 m ltac:(lia)) as H2. cbn beta in H2.
  pose proof (check_range_spec _ _ _ H2 d ltac:(lia)) as H3. cbn beta in H3.
  by apply bool_decide_eq_true in H3.
Qed.

(** ** The code computes them *)

Lemma getYearMonthDay_eq j : 0 <= j <= 536838867 -> getYearMonthDay j = ymd_of j.
Proof.
  intros Hj. unfold getYearMonthDay, ymd_of.
  rewrite (s32_small (j + 32044)) by lia. set (a := j + 32044).
  rewrite (s32_small (4 * a)), (s32_small (4 * a + 3)), (Z.quot_div_nonneg (4 * a + 3)) by (unfold a; lia).
  set (b := (4 * a + 3) / 146097).
  assert (0 <= 4 * a + 3 - b * 146097 < 146097) as Hb.
  { unfold b. pose proof (Z.div_mod (4 * a + 3) 146097). pose proof (Z.mod_pos_bound (4 * a + 3) 146097). lia. }
  assert (0 <= b <= 14700) as Hb' by (unfold a in *; lia).
  rewrite (s32_small (b * 146097)), (Z.quot_div_nonneg (b * 146097)) by lia.
  assert (0 <= a - b * 146097 / 4 < 36526) as Hc.
  { pose proof (Z.div_mod (b * 146097) 4). pose proof (Z.mod_pos_bound (b * 146097) 4). lia. }
  rewrite (s32_small (a - _)) by lia. set (c := a - b * 146097 / 4) in *.
  rewrite (s32_small (4 * c)), (s32_small (4 * c + 3)), (Z.quot_div_nonneg (4 * c + 3)) by lia.
  set (d := (4 * c + 3) / 1461).
  assert (0 <= 4 * c + 3 - 1461 * d < 1461) as Hd.
  { unfold d. pose proof (Z.div_mod (4 * c + 3) 1461). pose proof (Z.mod_pos_bound (4 * c + 3) 1461). lia. }
  assert (0 <= d <= 101) as Hd' by lia.
  rewrite (s32_small (1461 * d)), (Z.quot_div_nonneg (1461 * d)) by lia.
  assert (0 <= c - 1461 * d / 4 < 367) as He.
  { pose proof (Z.div_mod (1461 * d) 4). pose proof (Z.mod_pos_bound (1461 * d) 4). lia. }
  rewrite (s32_small (c - _)) by lia. set (e := c - 1461 * d / 4) in *.
  rewrite (s32_small (5 * e)), (s32_small (5 * e + 2)), (Z.quot_div_nonneg (5 * e + 2)) by lia.
  set (m := (5 * e + 2) / 153).
  assert (0 <= 5 * e + 2 - 153 * m < 153) as Hm.
  { unfold m. pose proof (Z.div_mod (5 * e + 2) 153). pose proof (Z.mod_pos_bound (5 * e + 2) 153). lia. }
  rewrite (s32_small (153 * m)), (s32_small (153 * m + 2)), !(Z.quot_div_nonneg (153 * m + 2)), !(Z.quot_div_nonneg m) by lia.
  pose proof (Z.div_mod (153 * m + 2) 5). pose proof (Z.mod_pos_bound (153 * m + 2) 5).
  pose proof (Z.div_mod m 10). pose proof (Z.mod_pos_bound m 10).
  by unwrap32.
Qed.

Lemma getJulianDayNumber_eq y m d : -4799 <= y <= 1000000 -> 1 <= m <= 12 -> 1 <= d <= 31 ->
  getJulianDayNumber y m d = jdn_of y m d.
Proof.
  intros Hy Hm Hd. unfold getJulianDayNumber, jdn_of.
  rewrite (s32_small (14 - m)), (Z.quot_div_nonneg (14 - m)) by lia. set (a := (14 - m) / 12).
  assert (0 <= 14 - m - 12 * a < 12) as Ha.
  { unfold a. pose proof (Z.div_mod (14 - m) 12). pose proof (Z.mod_pos_bound (14 - m) 12). lia. }
  rewrite (s32_small a), (s32_small (y + 4800)), (s32_small (y + 4800 - a)), (s32_small (12 * a)),
    (s32_small (m + 12 * a)), (s32_small (m + 12 * a - 3)) by lia.
  set (y' := y + 4800 - a). set (m' := m + 12 * a - 3).
  assert (0 <= y' <= 1004800) as Hy' by (unfold y'; lia). assert (0 <= m' <= 12) as Hm' by (unfold m'; lia).
  rewrite (s32_small (153 * m')), (s32_small (153 * m' + 2)), !Z.quot_div_nonneg by lia.
  pose proof (Z.div_mod (153 * m' + 2) 5). pose proof (Z.mod_pos_bound (153 * m' + 2) 5).
  pose proof (Z.div_mod y' 4). pose proof (Z.mod_pos_bound y' 4).
  pose proof (Z.div_mod y' 100). pose proof (Z.mod_pos_bound y' 100).
  pose proof (Z.div_mod y' 400). pose proof (Z.mod_pos_bound y' 400).
  by unwrap32.
Qed.

(** A year has 365.2425 days on average. *)
Lemma jdn_of_bounds y m d : 1 <= m <= 12 -> 1 <= d <= 31 ->
  146097 * (y + 4799) - 400 * 32045 - 400 <= 400 * jdn_of y m d <= 146097 * (y + 4800) - 400 * 32045 + 400 * 375.
Proof.
  intros Hm Hd. unfold jdn_of. set (a := (14 - m) / 12).
  assert (0 <= 14 - m - 12 * a < 12) as Ha.
  { unfold a. pose proof (Z.div_mod (14 - m) 12). pose proof (Z.mod_pos_bound (14 - m) 12). lia. }
  set (y' := y + 4800 - a). set (m' := m + 12 * a - 3).
  assert (0 <= m' <= 11) as Hm' by (unfold m'; lia).
  pose proof (Z.div_mod (153 * m' + 2) 5). pose proof (Z.mod_pos_bound (153 * m' + 2) 5).
  pose proof (Z.div_mod y' 4). pose proof (Z.mod_pos_bound y' 4).
  pose proof (Z.div_mod y' 100). pose proof (Z.mod_pos_bound y' 100).
  pose proof (Z.div_mod y' 400). pose proof (Z.mod_pos_bound y' 400).
  unfold y', m' in *. lia.
Qed.

(** C32: Date arithmetic is the Gregorian calendar. From year -4711 to
    1000000, converting a calendar day to its Julian day number and back is
    the identity; every non-negative Julian day number up to 365000000 is
    that of exactly one calendar day; the day after it is the next calendar
    day, by month lengths and the leap-year rule; and day 2440588 is 1 January
    1970. No intermediate result overflows [int]. *)
Theorem date_is_gregorian :
  (forall t, calendar_day t = true -> -4711 <= year t <= 1000000 ->
     getYearMonthDay (getJulianDayNumber (year t) (month t) (day t)) = t) /\
  (forall j, 0 <= j <= 365000000 ->
     let t := getYearMonthDay j in
     calendar_day t = true /\ getJulianDayNumber (year t) (month t) (day t) = j /\
     getYearMonthDay (j + 1) = next_day t) /\
  kJulianDayOf1970_01_01 = 2440588.
Proof.
  split_and!; [| |reflexivity].
  - intros t Hc Hy. destruct (calendar_day_bounds t Hc) as (Hm & Hd & Hd').
    rewrite getJulianDayNumber_eq by lia. rewrite getYearMonthDay_eq; [by apply jdn_of_spec|].
    pose proof (jdn_of_bounds (year t) (month t) (day t)). lia.
  - intros j Hj. cbv zeta. rewrite !getYearMonthDay_eq by lia.
    destruct (ymd_of_spec j) as (Hc & Hjd & Hn). split_and!; [done| |done].
    destruct (calendar_day_bounds _ Hc) as (Hm & Hd & Hd').
    rewrite getJulianDayNumber_eq; [done| |done|lia].
    pose proof (jdn_of_bounds (year (ymd_of j)) (month (ymd_of j)) (day (ymd_of j))). lia.
Qed.

Lemma date_is_gregorian_witness :
  getYearMonthDay (getJulianDayNumber 2000 2 29) = mkYMD 2000 2 29 /\
  getYearMonthDay (2451604 + 1) = next_day (getYearMonthDay 2451604) /\ next_day (mkYMD 2000 2 29) = mkYMD 2000 3 1.
Proof.
  destruct date_is_gregorian as (H1 & H2 & _).
  split; [exact (H1 (mkYMD 2000 2 29) eq_refl ltac:(cbn; lia))|].
  split; [exact (proj2 (proj2 (H2 2451604 ltac:(lia))))|reflexivity].
Defined.
