(* ===== verification/Monitor.v ===== *)
(** * Monitors: src/mynetlib/base/Mutex.h, Condition.h

    A member function that locks [mutex_], waits in a loop while a condition
    on the data does not hold, and then changes the data and notifies. The
    mutex makes everything between taking the lock and the return, or the
    next wait, one step; pthread_cond_wait releases the mutex and queues the
    thread in one step too. A notified thread, like one that wakes
    spuriously, competes for the mutex and tests its condition again. The
    scheduler chooses which thread goes on and which waiter a notification
    reaches. *)

From S2P Require Import Prelude.

Section Monitor.

Context {D Call Res Cv : Type} `{!EqDecision Cv}.

Inductive notification : Type :=
| NotifyOne (cv : Cv)
| NotifyAll (cv : Cv).

(** A member function from taking the lock, or from waking up, to its next
    wait or its return. *)
Inductive segment : Type :=
| Waits (cv : Cv)
| Returns (d : D) (r : Res) (ns : list notification).

Context (attempt : D -> Call -> outcome segment).

(** A thread inside a call that waits, or waited, on [w_cv]. *)
Record waiter : Type := mkWaiter { w_tid : Z; w_cv : Cv; w_call : Call }.

Record monitor : Type := mkMonitor {
  data : D;
  waiting : list waiter;
  woken : list waiter;
  returned : list (Z * Call * Res);
}.

Definition on_cv (cv : Cv) (w : waiter) : Prop := w_cv w = cv.

#[local] Instance on_cv_dec cv w : Decision (on_cv cv w).
Proof. unfold on_cv. apply _. Defined.

(** The waiter a notification of [cv] reaches: the scheduler's choice, if it
    is one of [cv]'s waiters, otherwise the oldest. *)
Definition choose (cv : Cv) (pick : nat) (ws : list waiter) : option (nat * waiter) :=
  match ws !! pick with
  | Some w => if decide (on_cv cv w) then Some (pick, w) else list_find (on_cv cv) ws
  | None => list_find (on_cv cv) ws
  end.

Definition wake (pick : nat) (n : notification) (m : monitor) : monitor :=
  match n with
  | NotifyOne cv =>
      match choose cv pick (waiting m) with
      | Some (i, w) => mkMonitor (data m) (delete i (waiting m)) (woken m ++ [w]) (returned m)
      | None => m
      end
  | NotifyAll cv =>
      mkMonitor (data m) (filter (fun w => ~ on_cv cv w) (waiting m))
        (woken m ++ filter (on_cv cv) (waiting m)) (returned m)
  end.

Definition run_segment (t : Z) (c : Call) (pick : nat) (m : monitor) : outcome monitor :=
  s ← attempt (data m) c;
  match s with
  | Waits cv => Ok (mkMonitor (data m) (waiting m ++ [mkWaiter t cv c]) (woken m) (returned m))
  | Returns d r ns =>
      Ok (foldr (wake pick) (mkMonitor d (waiting m) (woken m) (returned m ++ [(t, c, r)])) ns)
  end.

Inductive mstep : Type :=
| MCall (t : Z) (c : Call) (pick : nat)
| MResume (i : nat) (pick : nat)
| MSpurious (i : nat).

Definition monitor_step (m : monitor) (l : mstep) : outcome monitor :=
  match l with
  | MCall t c pick => run_segment t c pick m
  | MResume i pick =>
      match woken m !! i with
      | Some w => run_segment (w_tid w) (w_call w) pick
                    (mkMonitor (data m) (waiting m) (delete i (woken m)) (returned m))
      | None => Ok m
      end
  | MSpurious i =>
      match waiting m !! i with
      | Some w => Ok (mkMonitor (data m) (delete i (waiting m)) (woken m ++ [w]) (returned m))
      | None => Ok m
      end
  end.

Definition monitor_init (d : D) : monitor := mkMonitor d [] [] [].

(** ** Counting waiters *)

Definition cv_count (cv : Cv) (ws : list waiter) : nat := length (filter (on_cv cv) ws).

#[local] Arguments cv_count : simpl never.

Lemma cv_count_app cv ws1 ws2 : cv_count cv (ws1 ++ ws2) = (cv_count cv ws1 + cv_count cv ws2)%nat.
Proof. unfold cv_count. by rewrite filter_app, length_app. Qed.

Lemma cv_count_one cv w : cv_count cv [w] = if decide (w_cv w = cv) then 1%nat else 0%nat.
Proof.
  unfold cv_count. rewrite filter_cons, filter_nil. unfold on_cv. by destruct (decide (w_cv w = cv)).
Qed.

Lemma cv_count_delete cv ws i w : ws !! i = Some w -> cv_count cv ws = (cv_count cv (delete i ws) + cv_count cv [w])%nat.
Proof.
  intros Hi. rewrite <- (take_drop_middle ws i w Hi) at 1. rewrite delete_take_drop, !cv_count_app.
  change (w :: drop (S i) ws) with ([w] ++ drop (S i) ws). rewrite cv_count_app. lia.
Qed.

Lemma cv_count_cons cv w ws :
  cv_count cv (w :: ws) = ((if decide (w_cv w = cv) then 1 else 0) + cv_count cv ws)%nat.
Proof. change (w :: ws) with ([w] ++ ws). by rewrite cv_count_app, cv_count_one. Qed.

Lemma cv_count_rest cv cv' ws :
  cv_count cv (filter (fun w => ~ on_cv cv' w) ws) = if decide (cv' = cv) then 0%nat else cv_count cv ws.
Proof.
  induction ws as [|w ws IH]; [by destruct (decide _)|].
  rewrite (cv_count_cons cv w ws). destruct (decide (on_cv cv' w)) as [Hw|Hw].
  - rewrite filter_cons_False, IH by auto. unfold on_cv in Hw.
    destruct (decide (cv' = cv)), (decide (w_cv w = cv)); congruence || lia.
  - rewrite filter_cons_True, cv_count_cons, IH by done. unfold on_cv in Hw.
    destruct (decide (cv' = cv)), (decide (w_cv w = cv)); congruence || lia.
Qed.

Lemma choose_some cv pick ws i w : choose cv pick ws = Some (i, w) -> ws !! i = Some w /\ w_cv w = cv.
Proof.
  unfold choose. intros H.
  assert (list_find (on_cv cv) ws = Some (i, w) -> ws !! i = Some w /\ w_cv w = cv) as Hf
    by (by intros (? & ? & _)%list_find_Some).
  destruct (ws !! pick) as [w'|] eqn:E; [|by auto]. destruct (decide (on_cv cv w')); [|by auto].
  by simplify_eq.
Qed.

Lemma choose_none cv pick ws : choose cv pick ws = None -> cv_count cv ws = 0%nat.
Proof.
  unfold choose. intros H. assert (list_find (on_cv cv) ws = None) as Hf.
  { destruct (ws !! pick); [|done]. by destruct (decide _). }
  apply list_find_None in Hf. unfold cv_count.
  apply length_zero_iff_nil. destruct (filter (on_cv cv) ws) as [|w fs] eqn:E; [done|].
  assert (w ∈ filter (on_cv cv) ws) as Hw by (rewrite E; left).
  apply list_elem_of_filter in Hw as [? ?]. rewrite Forall_forall in Hf. exfalso. by eapply Hf.
Qed.

Lemma data_wake pick n m : data (wake pick n m) = data m.
Proof. destruct n; cbn; [|done]. by destruct (choose cv pick (waiting m)) as [[]|]. Qed.

Lemma returned_wake pick n m : returned (wake pick n m) = returned m.
Proof. destruct n; cbn; [|done]. by destruct (choose cv pick (waiting m)) as [[]|]. Qed.

Lemma data_wakes pick ns m : data (foldr (wake pick) m ns) = data m.
Proof. induction ns; cbn; [done|]. by rewrite data_wake. Qed.

Lemma returned_wakes pick ns m : returned (foldr (wake pick) m ns) = returned m.
Proof. induction ns; cbn; [done|]. by rewrite returned_wake. Qed.

(** A waiter on [cv] is left only if every notification of [cv] woke one. *)
Definition ones (cv : Cv) (ns : list notification) : nat :=
  length (List.filter (fun n => match n with NotifyOne cv' => bool_decide (cv' = cv) | NotifyAll _ => false end) ns).

Lemma ones_one cv : ones cv [NotifyOne cv] = 1%nat.
Proof. unfold ones. cbn. by rewrite bool_decide_eq_true_2. Qed.

Lemma wakes_count cv pick ns m :
  (0 < cv_count cv (waiting (foldr (wake pick) m ns)))%nat ->
  (0 < cv_count cv (waiting m))%nat /\
  (cv_count cv (woken m) + ones cv ns <= cv_count cv (woken (foldr (wake pick) m ns)))%nat /\ NotifyAll cv ∉ ns.
Proof.
  induction ns as [|n ns IH]; cbn; intros H.
  - split_and!; [done|unfold ones; cbn; lia|by apply not_elem_of_nil].
  - set (m' := foldr (wake pick) m ns) in *. destruct n as [cv'|cv']; cbn in H |- *.
    + destruct (choose cv' pick (waiting m')) as [[i w]|] eqn:E.
      * apply choose_some in E as [Hi Hw]. cbn in *. rewrite (cv_count_delete cv _ _ _ Hi) in IH.
        destruct IH as (? & ? & ?); [lia|]. split_and!; [done| |].
        -- unfold ones in *. cbn. rewrite cv_count_app, cv_count_one.
           destruct (decide (w_cv w = cv)); case_bool_decide; try congruence; cbn; lia.
        -- intros [?|?]%elem_of_cons; done.
      * apply choose_none in E. destruct IH as (? & ? & ?); [done|]. split_and!; [done| |].
        -- unfold ones in *. cbn. case_bool_decide; [|lia]. subst. lia.
        -- intros [?|?]%elem_of_cons; done.
    + rewrite cv_count_rest in H. destruct (decide (cv' = cv)) as [|Hne]; [lia|].
      destruct IH as (? & ? & ?); [done|]. split_and!; [done| |].
      * rewrite cv_count_app. unfold ones in *. cbn. lia.
      * intros [?|?]%elem_of_cons; [congruence|done].
Qed.

(** Notifications move threads, they neither add nor drop any. *)
Lemma wakes_perm pick ns m :
  waiting (foldr (wake pick) m ns) ++ woken (foldr (wake pick) m ns) ≡ₚ waiting m ++ woken m.
Proof.
  induction ns as [|n ns IH]; cbn; [done|]. rewrite <- IH.
  set (m' := foldr (wake pick) m ns). destruct n as [cv|cv]; cbn.
  - destruct (choose cv pick (waiting m')) as [[i w]|] eqn:E; cbn; [|done].
    apply choose_some in E as [Hi _]. rewrite (delete_Permutation _ _ _ Hi) at 2. solve_Permutation.
  - rewrite <- (filter_app_complement (on_cv cv) (waiting m')) at 3. solve_Permutation.
Qed.

(** ** What every run keeps *)

(** An invariant of the data and the order in which calls returned. *)
Section Invariant.

Context (P : D -> list (Z * Call * Res) -> Prop).
Context (attempt_ok : forall d log c, P d log -> exists s, attempt d c = Ok s).
Context (attempt_keeps : forall d log t c d' r ns,
  P d log -> attempt d c = Ok (Returns d' r ns) -> P d' (log ++ [(t, c, r)])).

Lemma run_segment_keeps t c pick m : P (data m) (returned m) ->
  exists m', run_segment t c pick m = Ok m' /\ P (data m') (returned m').
Proof.
  intros HP. unfold run_segment. destruct (attempt_ok _ _ c HP) as [s E]. rewrite E. cbn.
  destruct s as [cv|d r ns]; eexists; (split; [done|]); [done|].
  rewrite data_wakes, returned_wakes. by eapply attempt_keeps.
Qed.

Lemma monitor_step_keeps m l : P (data m) (returned m) ->
  exists m', monitor_step m l = Ok m' /\ P (data m') (returned m').
Proof.
  intros HP. destruct l as [t c pick|i pick|i]; cbn.
  - by apply run_segment_keeps.
  - destruct (woken m !! i); [by apply run_segment_keeps|by eauto].
  - destruct (waiting m !! i); eauto.
Qed.

Lemma monitor_run_keeps ls d : P d [] ->
  exists m, foldM monitor_step (monitor_init d) ls = Ok m /\ P (data m) (returned m).
Proof.
  intros Hd. apply (foldM_inv monitor_step (fun m _ => P (data m) (returned m))); [|done].
  intros m l _ HP. by apply monitor_step_keeps.
Qed.

End Invariant.

(** ** No lost wakeups

    [waits_on c] is the condition variable a call waits on, if it ever does,
    and [need d cv] is how many of the calls that wait on [cv] the data would
    let through one after the other. A class states what a member function
    has to do for its condition variables: it waits only when none would get
    through, and when it makes room for more it notifies as many. *)
Class NotifiesEnough (waits_on : Call -> option Cv) (need : D -> Cv -> nat) : Prop := {
  waits_rightly d c cv : attempt d c = Ok (Waits cv) -> waits_on c = Some cv /\ need d cv = 0%nat;
  notifies d c d' r ns cv : attempt d c = Ok (Returns d' r ns) -> NotifyAll cv ∉ ns ->
    need d' cv = 0%nat \/
    (need d' cv + (if decide (waits_on c = Some cv) then 1 else 0) <= need d cv + ones cv ns)%nat;
}.

Section Progress.

Context (waits_on : Call -> option Cv) (need : D -> Cv -> nat) `{!NotifiesEnough waits_on need}.

(** Whenever threads wait on [cv], at least as many threads are already
    awake as the data would let through. *)
Definition waits_right (w : waiter) : Prop := waits_on (w_call w) = Some (w_cv w).

Definition enough_awake (m : monitor) : Prop :=
  Forall waits_right (woken m) /\ Forall waits_right (waiting m) /\
  forall cv, (0 < cv_count cv (waiting m))%nat -> (need (data m) cv <= cv_count cv (woken m))%nat.

Lemma wakes_right pick ns m : Forall waits_right (woken m) -> Forall waits_right (waiting m) ->
  Forall waits_right (woken (foldr (wake pick) m ns)) /\ Forall waits_right (waiting (foldr (wake pick) m ns)).
Proof.
  intros Hk Hw. induction ns as [|n ns [IH1 IH2]]; cbn; [done|].
  set (m' := foldr (wake pick) m ns) in *. destruct n as [cv|cv]; cbn.
  - destruct (choose cv pick (waiting m')) as [[i w]|] eqn:E; cbn; [|done].
    apply choose_some in E as [Hi _]. split; [|by apply Forall_delete].
    apply Forall_app_2; [done|]. apply Forall_singleton. by eapply Forall_lookup_1.
  - rewrite Forall_app, !Forall_forall in *. setoid_rewrite list_elem_of_filter. split_and!; set_solver.
Qed.

(** One thread inside the monitor; if it was awake after a wait, it no longer
    counts as such. *)
Lemma segment_progress t c pick m m' :
  Forall waits_right (woken m) -> Forall waits_right (waiting m) ->
  (forall cv, (0 < cv_count cv (waiting m))%nat ->
     (need (data m) cv <= cv_count cv (woken m) + (if decide (waits_on c = Some cv) then 1 else 0))%nat) ->
  run_segment t c pick m = Ok m' -> enough_awake m'.
Proof.
  intros Hk Hw Hn. unfold run_segment.
  destruct (attempt (data m) c) as [s|f] eqn:E; cbn; [|done]. destruct s as [cv|d r ns]; intros [= <-].
  - apply waits_rightly in E as [Hc H0]. split_and!; cbn; [done| |].
    + apply Forall_app_2; [done|]. by apply Forall_singleton.
    + intros cv'. rewrite cv_count_app, cv_count_one. cbn. destruct (decide (cv = cv')) as [<-|Hne]; [lia|].
      intros Hpos. specialize (Hn cv' ltac:(lia)). rewrite decide_False in Hn by congruence. lia.
  - set (m1 := mkMonitor d (waiting m) (woken m) (returned m ++ [(t, c, r)])).
    destruct (wakes_right pick ns m1) as [Hk' Hw']; [done..|]. split_and!; [done|done|].
    intros cv Hpos. rewrite data_wakes. apply wakes_count in Hpos as (Hpos & Hcnt & Hall). cbn in *.
    specialize (Hn cv Hpos). destruct (notifies _ _ _ _ _ cv E Hall); lia.
Qed.

Lemma step_progress m l m' : enough_awake m -> monitor_step m l = Ok m' -> enough_awake m'.
Proof.
  intros (Hk & Hw & Hn). destruct l as [t c pick|i pick|i]; cbn.
  - apply segment_progress; [done..|]. intros cv Hpos. specialize (Hn cv Hpos). lia.
  - destruct (woken m !! i) as [w|] eqn:Hi; [|by intros [= <-]].
    pose proof (Forall_lookup_1 _ _ _ _ Hk Hi) as Hr. unfold waits_right in Hr.
    apply segment_progress; cbn; [by apply Forall_delete|done|].
    intros cv Hpos. specialize (Hn cv Hpos). rewrite (cv_count_delete cv _ _ _ Hi), cv_count_one in Hn.
    rewrite Hr. destruct (decide (w_cv w = cv)), (decide (Some _ = Some _)); congruence || lia.
  - destruct (waiting m !! i) as [w|] eqn:Hi; intros [= <-]; [|done].
    split_and!; cbn; [|by apply Forall_delete|].
    + apply Forall_app_2; [done|]. apply Forall_singleton. exact (Forall_lookup_1 _ _ _ _ Hw Hi).
    + intros cv Hpos. rewrite cv_count_app.
      specialize (Hn cv). rewrite (cv_count_delete cv _ _ _ Hi) in Hn. lia.
Qed.

Lemma run_progress ls d m : foldM monitor_step (monitor_init d) ls = Ok m -> enough_awake m.
Proof.
  assert (enough_awake (monitor_init d)) as H0 by (split_and!; cbn; [constructor..|unfold cv_count; cbn; lia]).
  revert H0. generalize (monitor_init d). induction ls as [|l ls IH]; intros m0 H0; cbn; [by intros [= <-]|].
  destruct (monitor_step m0 l) as [m1|] eqn:E; cbn; [|done]. apply IH. by eapply step_progress.
Qed.

End Progress.

End Monitor.

#[global] Arguments cv_count : simpl never.
