(* ===== verification/Mutex.v ===== *)
(** * The locks under the monitors: src/mynetlib/base/Mutex.h, Condition.h, Condition.cc

    [MutexLock] keeps the id of the thread that holds it beside the pthread
    mutex; [Condition::wait] clears it around the wait and sets it again. Here
    every access of a thread is a step: taking the mutex, storing the holder,
    reading the guarded data, storing the result, clearing the holder,
    releasing. The monitors of Monitor.v, in which a member function is one
    step from the lock to the wait or the return, are an abstraction of this
    machine. *)

From stdpp Require Import gmap.
From S2P Require Import Prelude Monitor.

(** [mutex_] is the thread that owns the pthread mutex. *)
Record MutexLock : Type := mkMutex { mutex_ : option Z; holder_ : Z }.

Definition MutexLock_ctor : MutexLock := mkMutex None 0.

Definition assignHolder (tid : Z) (m : MutexLock) : MutexLock := mkMutex (mutex_ m) tid.
Definition unassignHolder (m : MutexLock) : MutexLock := mkMutex (mutex_ m) 0.

Definition isLockedByThisThread (tid : Z) (m : MutexLock) : bool := holder_ m =? tid.
Definition assertLocked (tid : Z) (m : MutexLock) : outcome unit := c_assert (isLockedByThisThread tid m).

(** [pthread_mutex_lock] blocks while the mutex is owned; unlocking and
    destroying answer with an error, which [MCHECK] turns into a failed
    assertion, when another thread or any thread owns it. *)
Definition pthread_mutex_lock (tid : Z) (m : MutexLock) : option MutexLock :=
  match mutex_ m with None => Some (mkMutex (Some tid) (holder_ m)) | Some _ => None end.

Definition pthread_mutex_unlock (tid : Z) (m : MutexLock) : outcome MutexLock :=
  _ ← c_assert (bool_decide (mutex_ m = Some tid));
  Ok (mkMutex None (holder_ m)).

Definition MutexLock_dtor (m : MutexLock) : outcome unit :=
  _ ← c_assert (holder_ m =? 0);
  c_assert (bool_decide (mutex_ m = None)).

(** [Condition::waitForSeconds]: the time limit given to the kernel, and the
    result from its answer. *)
Definition ETIMEDOUT : Z := 110.
Definition waitForSeconds (now_sec seconds : Z) (answer : Z) : Z * bool :=
  (s64 (now_sec + seconds), ETIMEDOUT =? answer).

Section Locks.

Context {D Call Res Cv : Type} `{!EqDecision Cv}.
Context (attempt : D -> Call -> outcome (@segment D Res Cv)).

(** Where a thread is inside a member function; [again]: it has waited. *)
Inductive pc : Type :=
| PcLock (c : Call) (again : bool)
| PcAssign (c : Call) (again : bool)
| PcTest (c : Call) (again : bool)
| PcDo (c : Call) (again : bool) (d : D)
| PcGuard (cv : Cv) (c : Call) (again : bool)
| PcWait (cv : Cv) (c : Call) (again : bool)
| PcQueued (c : Call)
| PcUnassign
| PcUnlock.

(** The guarded data, the threads in the condition variables and the results
    as in [monitor]; [woken] are the threads that were in a condition variable
    and have not finished their turn. *)
Record sys : Type := mkSys {
  lk : MutexLock;
  mon : @monitor D Call Res Cv;
  pcs : gmap Z pc;
}.

Definition at_pc (t : Z) (p : pc) (s : sys) : sys := mkSys (lk s) (mon s) (<[t:=p]> (pcs s)).
Definition set_lk (m : MutexLock) (s : sys) : sys := mkSys m (mon s) (pcs s).
Definition set_mon (m : monitor) (s : sys) : sys := mkSys (lk s) m (pcs s).

Definition leave (t : Z) (ws : list (@waiter Call Cv)) : list waiter :=
  match list_find (fun w => w_tid w = t) ws with
  | Some (i, _) => delete i ws
  | None => ws
  end.

(** The next access of thread [t]: [MutexLock::lock], the member function,
    [Condition::wait] with its [UnassignGuard], [MutexLock::unlock]. *)
Definition thread_step (t : Z) (pick : nat) (s : sys) : outcome sys :=
  match pcs s !! t with
  | None => Ok s
  | Some (PcLock c a) =>
      match pthread_mutex_lock t (lk s) with
      | Some m => Ok (at_pc t (PcAssign c a) (set_lk m s))
      | None => Ok s
      end
  | Some (PcAssign c a) => Ok (at_pc t (PcTest c a) (set_lk (assignHolder t (lk s)) s))
  | Some (PcTest c a) =>
      _ ← assertLocked t (lk s);
      Ok (at_pc t (PcDo c a (data (mon s))) s)
  | Some (PcDo c a d) =>
      seg ← attempt d c;
      match seg with
      | Waits cv => Ok (at_pc t (PcGuard cv c a) s)
      | Returns d' r ns =>
          let m := mkMonitor d' (waiting (mon s)) (leave t (woken (mon s))) (returned (mon s) ++ [(t, c, r)]) in
          Ok (at_pc t PcUnassign (set_mon (foldr (wake pick) m ns) s))
      end
  | Some (PcGuard cv c a) => Ok (at_pc t (PcWait cv c a) (set_lk (unassignHolder (lk s)) s))
  | Some (PcWait cv c a) =>
      m ← pthread_mutex_unlock t (lk s);
      let mo := mon s in
      Ok (at_pc t (PcQueued c)
        (set_mon (mkMonitor (data mo) (waiting mo ++ [mkWaiter t cv c]) (leave t (woken mo)) (returned mo)) (set_lk m s)))
  | Some (PcQueued c) =>
      if bool_decide (t ∈ w_tid <$> waiting (mon s)) then Ok s else Ok (at_pc t (PcLock c true) s)
  | Some PcUnassign => Ok (at_pc t PcUnlock (set_lk (unassignHolder (lk s)) s))
  | Some PcUnlock =>
      m ← pthread_mutex_unlock t (lk s);
      Ok (mkSys m (mon s) (delete t (pcs s)))
  end.

(** Steps: a thread enters a member function, goes on, or leaves a condition
    variable spuriously or because its time limit passed. *)
Inductive cstep : Type :=
| CCall (t : Z) (c : Call)
| CRun (t : Z) (pick : nat)
| CEarly (i : nat).

Definition sys_step (s : sys) (l : cstep) : outcome sys :=
  match l with
  | CCall t c =>
      match pcs s !! t with
      | Some _ => Ok s
      | None => if 0 <? t then Ok (at_pc t (PcLock c false) s) else Ok s
      end
  | CRun t pick => thread_step t pick s
  | CEarly i =>
      match waiting (mon s) !! i with
      | Some w => Ok (set_mon (mkMonitor (data (mon s)) (delete i (waiting (mon s))) (woken (mon s) ++ [w]) (returned (mon s))) s)
      | None => Ok s
      end
  end.

Definition sys_init (d : D) : sys := mkSys MutexLock_ctor (monitor_init d) ∅.

(** ** The lock *)

Definition holds (p : pc) : bool :=
  match p with PcLock _ _ | PcQueued _ => false | _ => true end.
Definition assigned (p : pc) : bool :=
  match p with PcTest _ _ | PcDo _ _ _ | PcGuard _ _ _ | PcUnassign => true | _ => false end.

(** The owner of the mutex is the only thread between taking and releasing it,
    and the holder is its id between storing and clearing it. *)
Definition lock_ok (m : MutexLock) (ps : gmap Z pc) : Prop :=
  match mutex_ m with
  | None => holder_ m = 0 /\ forall t p, ps !! t = Some p -> holds p = false
  | Some t => (exists p, ps !! t = Some p /\ holds p = true /\ holder_ m = if assigned p then t else 0) /\
      forall t' p', ps !! t' = Some p' -> holds p' = true -> t' = t
  end.

Lemma lock_owner m ps t p : lock_ok m ps -> ps !! t = Some p -> holds p = true ->
  mutex_ m = Some t /\ holder_ m = if assigned p then t else 0.
Proof.
  unfold lock_ok. destruct (mutex_ m) as [o|].
  - intros [(q & Hq & _ & Hh) Hu] Hp Hold. pose proof (Hu _ _ Hp Hold) as ->. split; [done|]. by simplify_eq.
  - intros [_ Hn] Hp Hold. specialize (Hn _ _ Hp). congruence.
Qed.

Lemma lock_alone m ps t p t' p' : lock_ok m ps -> ps !! t = Some p -> holds p = true -> ps !! t' = Some p' -> holds p' = true -> t' = t.
Proof.
  intros Hl H1 H2 H3 H4. destruct (lock_owner m ps t p Hl H1 H2), (lock_owner m ps t' p' Hl H3 H4). congruence.
Qed.

Lemma lock_move m ps t p p' h : lock_ok m ps -> ps !! t = Some p -> holds p = true -> holds p' = true ->
  h = (if assigned p' then t else 0) -> lock_ok (mkMutex (mutex_ m) h) (<[t:=p']> ps).
Proof.
  intros Hl Hp H1 H2 ->. destruct (lock_owner m ps t p Hl Hp H1) as [Ho _]. unfold lock_ok. cbn. rewrite Ho. split.
  - exists p'. by rewrite lookup_insert_eq.
  - intros t' q. rewrite lookup_insert_Some. intros [[<- _]|[_ Hq]] Hh; [done|]. by eapply lock_alone.
Qed.

Lemma lock_outside m ps t p' : lock_ok m ps -> (forall p, ps !! t = Some p -> holds p = false) -> holds p' = false ->
  lock_ok m (<[t:=p']> ps).
Proof.
  intros Hl Ho Hp'. unfold lock_ok in *. destruct (mutex_ m) as [o|].
  - destruct Hl as [(p & Hp & Hh & He) Hu]. assert (t <> o) as Hne by (intros ->; rewrite (Ho _ Hp) in Hh; done). split.
    + exists p. by rewrite lookup_insert_ne.
    + intros t' q. rewrite lookup_insert_Some. intros [[<- <-]|[_ Hq]] Hh'; [congruence|by eapply Hu].
  - destruct Hl as [He Hn]. split; [done|]. intros t' q. rewrite lookup_insert_Some. intros [[<- <-]|[_ Hq]]; [done|by eapply Hn].
Qed.

Lemma lock_acquire m m' ps t p' : lock_ok m ps -> pthread_mutex_lock t m = Some m' -> holds p' = true -> assigned p' = false ->
  lock_ok m' (<[t:=p']> ps).
Proof.
  intros Hl. unfold pthread_mutex_lock, lock_ok in *. destruct (mutex_ m); [done|]. intros [= <-] H1 H2. destruct Hl as [He Hn]. cbn. split.
  - exists p'. by rewrite lookup_insert_eq, H2.
  - intros t' q. rewrite lookup_insert_Some. intros [[<- _]|[_ Hq]] Hh; [done|]. rewrite (Hn _ _ Hq) in Hh. done.
Qed.

(** Releasing: whatever [t] does next, it no longer holds the mutex. *)
Lemma lock_release m ps ps' t p : lock_ok m ps -> ps !! t = Some p -> holds p = true -> assigned p = false ->
  (forall t', t' <> t -> ps' !! t' = ps !! t') -> (forall p', ps' !! t = Some p' -> holds p' = false) ->
  exists m', pthread_mutex_unlock t m = Ok m' /\ lock_ok m' ps'.
Proof.
  intros Hl Hp H1 H2 Hoff Ht. destruct (lock_owner m ps t p Hl Hp H1) as [Ho Hh]. unfold pthread_mutex_unlock.
  rewrite bool_decide_eq_true_2 by done. eexists. split; [done|]. unfold lock_ok. cbn. rewrite Hh, H2. split; [done|].
  intros t' q Hq. destruct (decide (t' = t)) as [->|Hne]; [by eapply Ht|]. rewrite Hoff in Hq by done.
  destruct (holds q) eqn:E; [|done]. exfalso. apply Hne. by eapply lock_alone.
Qed.

(** ** The condition variables *)

(** The call of a thread that waited and has not finished its turn since. *)
Definition after_wait (p : pc) : option Call :=
  match p with
  | PcLock c a | PcAssign c a | PcTest c a | PcDo c a _ | PcGuard _ c a | PcWait _ c a => if a then Some c else None
  | PcQueued c => Some c
  | PcUnassign | PcUnlock => None
  end.

Definition queued (p : pc) : bool := match p with PcQueued _ => true | _ => false end.

Record queues_ok (mo : @monitor D Call Res Cv) (ps : gmap Z pc) : Prop := mkQueuesOk {
  q_waiting : forall w, w ∈ waiting mo -> ps !! w_tid w = Some (PcQueued (w_call w));
  q_woken : forall w, w ∈ woken mo -> exists p, ps !! w_tid w = Some p /\ after_wait p = Some (w_call w);
  q_nodup : NoDup (w_tid <$> waiting mo ++ woken mo);
  q_again : forall t p c, ps !! t = Some p -> after_wait p = Some c -> t ∈ w_tid <$> waiting mo ++ woken mo;
}.

Lemma leave_cases t (ws : list (@waiter Call Cv)) :
  (leave t ws = ws /\ t ∉ w_tid <$> ws) \/ (exists i w, ws !! i = Some w /\ w_tid w = t /\ leave t ws = delete i ws).
Proof.
  unfold leave. destruct (list_find _ ws) as [[i w]|] eqn:E.
  - apply list_find_Some in E as (Hi & Hw & _). right. by exists i, w.
  - left. split; [done|]. apply list_find_None in E. rewrite Forall_forall in E. intros (w & -> & Hw)%list_elem_of_fmap. by eapply E.
Qed.

Lemma leave_spec t (ws : list (@waiter Call Cv)) : NoDup (w_tid <$> ws) ->
  (t ∉ w_tid <$> leave t ws) /\ (forall w, w ∈ leave t ws <-> w ∈ ws /\ w_tid w <> t).
Proof.
  intros Hn. destruct (leave_cases t ws) as [[-> Ht]|(i & w0 & Hi & Hw & ->)].
  - split; [done|]. intros w. split; [|by intros [? _]]. intros Hin. split; [done|]. intros <-. apply Ht. by apply list_elem_of_fmap_2.
  - rewrite (delete_Permutation _ _ _ Hi) in Hn. cbn in Hn. apply NoDup_cons in Hn as [Hnot _]. rewrite Hw in Hnot. split; [done|].
    intros w. rewrite (delete_Permutation _ _ _ Hi) at 2. rewrite elem_of_cons. split.
    + intros Hin. split; [by right|]. intros <-. apply Hnot. by apply list_elem_of_fmap_2.
    + intros [[->|?] Hne]; [congruence|done].
Qed.

Lemma nodup_app_r (l1 l2 : list (@waiter Call Cv)) : NoDup (w_tid <$> l1 ++ l2) -> NoDup (w_tid <$> l2).
Proof. rewrite fmap_app, NoDup_app. tauto. Qed.

Lemma not_waiting mo ps t p : queues_ok mo ps -> ps !! t = Some p -> queued p = false -> t ∉ w_tid <$> waiting mo.
Proof. intros Hq Hp Hn (w & -> & Hw)%list_elem_of_fmap. rewrite (q_waiting _ _ Hq _ Hw) in Hp. by simplify_eq. Qed.

(** A thread outside the condition variables goes on. *)
Lemma queues_move mo ps t p' : queues_ok mo ps -> t ∉ w_tid <$> waiting mo -> (ps !! t ≫= after_wait) = after_wait p' ->
  queues_ok mo (<[t:=p']> ps).
Proof.
  intros [H1 H2 H3 H4] Ht Ha. split; [| |done|].
  - intros w Hw. rewrite lookup_insert_ne; [by apply H1|]. intros ->. apply Ht. by apply list_elem_of_fmap_2.
  - intros w Hw. destruct (H2 w Hw) as (p & Hp & Hc). destruct (decide (t = w_tid w)) as [->|Hne].
    + exists p'. rewrite lookup_insert_eq. split; [done|]. rewrite Hp in Ha. cbn in Ha. congruence.
    + exists p. by rewrite lookup_insert_ne.
  - intros t' q c. rewrite lookup_insert_Some. intros [[<- <-]|[_ Hq]] Hc; [|by eapply H4].
    rewrite Hc in Ha. apply bind_Some in Ha as (p & Hp & Hc'). by eapply H4.
Qed.

(** A thread leaves the member function, or the map altogether. *)
Lemma queues_gone mo ps ps' t d log : queues_ok mo ps -> t ∉ w_tid <$> waiting mo ->
  (forall t', t' <> t -> ps' !! t' = ps !! t') -> (forall p, ps' !! t = Some p -> after_wait p = None) ->
  queues_ok (mkMonitor d (waiting mo) (leave t (woken mo)) log) ps'.
Proof.
  intros [H1 H2 H3 H4] Ht Hoff Hg. destruct (leave_spec t (woken mo)) as [Hl Hin]; [by eapply nodup_app_r|]. split; cbn [waiting woken].
  - intros w Hw. rewrite Hoff; [by apply H1|]. intros <-. apply Ht. by apply list_elem_of_fmap_2.
  - intros w [Hw Hne]%Hin. rewrite Hoff by done. by apply H2.
  - destruct (leave_cases t (woken mo)) as [[-> _]|(i & w & Hi & _ & ->)]; [done|]. rewrite (delete_Permutation _ _ _ Hi) in H3.
    rewrite <- Permutation_middle in H3. cbn in H3. by apply NoDup_cons in H3 as [_ ?].
  - intros t' q c Hq Hc. destruct (decide (t' = t)) as [->|Hne]; [rewrite (Hg _ Hq) in Hc; done|]. rewrite Hoff in Hq by done.
    specialize (H4 _ _ _ Hq Hc). rewrite fmap_app, elem_of_app in H4 |- *. destruct H4 as [|(w & -> & Hw)%list_elem_of_fmap]; [by left|right].
    apply list_elem_of_fmap_2, Hin. done.
Qed.

(** A thread enters a condition variable. *)
Lemma queues_wait mo ps t cv c d log : queues_ok mo ps -> t ∉ w_tid <$> waiting mo ->
  queues_ok (mkMonitor d (waiting mo ++ [mkWaiter t cv c]) (leave t (woken mo)) log) (<[t:=PcQueued c]> ps).
Proof.
  intros Hq Ht. pose proof (queues_gone mo ps (delete t ps) t d log Hq Ht) as [H1 H2 H3 H4].
  { intros t' Hne. by rewrite lookup_delete_ne. }
  { intros p. by rewrite lookup_delete_eq. }
  cbn [waiting woken] in *. destruct (leave_spec t (woken mo)) as [Hl _]; [by eapply nodup_app_r, Hq|].
  assert (forall t' p, delete t ps !! t' = Some p -> <[t:=PcQueued c]> ps !! t' = Some p) as Hins.
  { intros t' p [Hne Hp]%lookup_delete_Some. by rewrite lookup_insert_ne. }
  assert (forall x (l : list (@waiter Call Cv)), (waiting mo ++ [x]) ++ l ≡ₚ x :: waiting mo ++ l) as Hmid.
  { intros x l. rewrite <- app_assoc. symmetry. apply Permutation_middle. }
  split; cbn [waiting woken].
  - intros w [Hw|Hw]%elem_of_app; [by apply Hins, H1|]. apply list_elem_of_singleton in Hw as ->. cbn. by rewrite lookup_insert_eq.
  - intros w Hw. destruct (H2 w Hw) as (p & Hp & Hc). exists p. split; [by apply Hins|done].
  - rewrite Hmid. cbn. apply NoDup_cons. split; [|done]. rewrite fmap_app, elem_of_app. tauto.
  - intros t' q c'. rewrite lookup_insert_Some, Hmid. cbn. rewrite elem_of_cons.
    intros [[<- <-]|[Hne Hp]] Hc; [by left|right]. eapply H4; [|exact Hc]. by apply lookup_delete_Some.
Qed.

(** Notifications, and threads that leave a condition variable early. *)
Lemma queues_shift mo mo' ps : queues_ok mo ps -> waiting mo' ++ woken mo' ≡ₚ waiting mo ++ woken mo ->
  (forall w, w ∈ waiting mo' -> w ∈ waiting mo) -> queues_ok mo' ps.
Proof.
  intros [H1 H2 H3 H4] Hp Hsub. split.
  - intros w Hw. by apply H1, Hsub.
  - intros w Hw. assert (w ∈ waiting mo ++ woken mo) as [Hx|Hx]%elem_of_app by (rewrite <- Hp, elem_of_app; by right); [|by apply H2].
    eexists. split; [by apply H1|done].
  - by rewrite Hp.
  - intros t p c Ht Hc. rewrite Hp. by eapply H4.
Qed.

Lemma wakes_sub pick ns (m : @monitor D Call Res Cv) w : w ∈ waiting (foldr (wake pick) m ns) -> w ∈ waiting m.
Proof.
  induction ns as [|n ns IH]; cbn; [done|]. intros H. apply IH. revert H. set (m' := foldr (wake pick) m ns). destruct n as [cv|cv]; cbn.
  - destruct (choose cv pick (waiting m')) as [[i x]|]; cbn; [|done]. intros H. by eapply elem_of_submseteq; [|apply submseteq_delete].
  - intros [_ ?]%list_elem_of_filter. done.
Qed.

(** ** The machine refines the monitor *)

(** What a thread read under the lock is still the data. *)
Definition pc_ok (d : D) (p : pc) : Prop :=
  match p with
  | PcDo _ _ d' => d' = d
  | PcGuard cv c _ | PcWait cv c _ => attempt d c = Ok (Waits cv)
  | _ => True
  end.

Record sys_inv (s : sys) : Prop := mkSysInv {
  si_lock : lock_ok (lk s) (pcs s);
  si_queues : queues_ok (mon s) (pcs s);
  si_pcs : forall t p, pcs s !! t = Some p -> pc_ok (data (mon s)) p;
}.

Lemma pc_ok_outside d d' p : holds p = false -> pc_ok d p -> pc_ok d' p.
Proof. by destruct p. Qed.

(** The turn of a thread inside the lock is a step of the monitor: a new call,
    or the return of one that waited. *)
Lemma turn mo ps t p c pick : queues_ok mo ps -> ps !! t = Some p -> queued p = false -> after_wait p = None \/ after_wait p = Some c ->
  exists ml, monitor_step attempt mo ml =
    run_segment attempt t c pick (mkMonitor (data mo) (waiting mo) (leave t (woken mo)) (returned mo)).
Proof.
  intros Hq Hp Hn Hc. destruct (leave_cases t (woken mo)) as [[-> Ht]|(i & w & Hi & Hw & ->)].
  - exists (MCall t c pick). cbn. by destruct mo.
  - exists (MResume i pick). cbn. rewrite Hi, Hw. assert (w_call w = c) as ->; [|done].
    destruct (q_woken _ _ Hq w) as (q & Hq' & Hc'); [by eapply list_elem_of_lookup_2|]. rewrite Hw in Hq'. destruct Hc; congruence.
Qed.

(** What a step of the machine is to the monitor. *)
Definition simulated (s : sys) (r : outcome sys) : Prop :=
  match r with
  | Ok s' => sys_inv s' /\ (mon s' = mon s \/ exists ml, monitor_step attempt (mon s) ml = Ok (mon s'))
  | Fail f => exists ml, monitor_step attempt (mon s) ml = Fail f
  end.

(** A step of [t] that touches the lock and its own place only. *)
Lemma simulated_move s t p' m : sys_inv s -> lock_ok m (<[t:=p']> (pcs s)) -> t ∉ w_tid <$> waiting (mon s) ->
  (pcs s !! t ≫= after_wait) = after_wait p' -> pc_ok (data (mon s)) p' -> simulated s (Ok (mkSys m (mon s) (<[t:=p']> (pcs s)))).
Proof.
  intros [Hl Hq Hd] Hm Ht Ha Hp'. split; [|by left]. split; cbn [lk mon pcs]; [done|by apply queues_move|].
  intros t' q. rewrite lookup_insert_Some. intros [[<- <-]|[_ Hx]]; [done|by eapply Hd].
Qed.

Lemma do_simulated s t c a d pick : sys_inv s -> pcs s !! t = Some (PcDo c a d) -> simulated s (thread_step t pick s).
Proof.
  intros Hi Hp. pose proof Hi as [Hl Hq Hd]. pose proof (Hd _ _ Hp) as Hdata. cbn in Hdata. subst d.
  pose proof (not_waiting _ _ _ _ Hq Hp eq_refl) as Ht. unfold thread_step. rewrite Hp.
  destruct (turn (mon s) (pcs s) t _ c pick Hq Hp eq_refl) as [ml Hml]; [by destruct a; [right|left]|].
  unfold run_segment in Hml. cbn [data] in Hml. destruct (attempt (data (mon s)) c) as [seg|f] eqn:E; cbn [mbind outcome_bind] in *; [|by exists ml].
  destruct (lock_owner _ _ _ _ Hl Hp eq_refl) as [Ho Hh]. destruct seg as [cv|d' r ns].
  - apply simulated_move; [done| |done|by rewrite Hp|done]. destruct (lk s) as [mu h]. cbn in Ho, Hh. subst h.
    by apply (lock_move (mkMutex mu t) _ _ (PcDo c a (data (mon s)))).
  - cbn [waiting woken returned] in Hml. split; [|right; exists ml; done]. set (m1 := mkMonitor _ _ _ _). split; cbn [lk mon pcs set_mon at_pc].
    + destruct (lk s) as [mu h]. cbn in Ho, Hh. subst h. by apply (lock_move (mkMutex mu t) _ _ (PcDo c a (data (mon s)))).
    + apply (queues_shift m1); [|apply wakes_perm|intros w; apply wakes_sub]. apply (queues_gone _ (pcs s)); [done|done| |].
      * intros t' Hne. by rewrite lookup_insert_ne.
      * intros p. rewrite lookup_insert_eq. by intros [= <-].
    + intros t' q. rewrite lookup_insert_Some. intros [[<- <-]|[Hne Hx]]; [done|]. eapply pc_ok_outside; [|by eapply Hd].
      destruct (holds q) eqn:Eh; [|done]. exfalso. apply Hne. symmetry. by eapply lock_alone.
Qed.

Lemma wait_simulated s t cv c a pick : sys_inv s -> pcs s !! t = Some (PcWait cv c a) -> simulated s (thread_step t pick s).
Proof.
  intros Hi Hp. pose proof Hi as [Hl Hq Hd]. pose proof (Hd _ _ Hp) as Hdata. cbn in Hdata.
  pose proof (not_waiting _ _ _ _ Hq Hp eq_refl) as Ht. unfold thread_step. rewrite Hp.
  destruct (lock_release (lk s) (pcs s) (<[t:=PcQueued c]> (pcs s)) t _ Hl Hp eq_refl eq_refl) as (m & -> & Hm).
  { intros t' Hne. by rewrite lookup_insert_ne. }
  { intros p. rewrite lookup_insert_eq. by intros [= <-]. }
  cbn [mbind outcome_bind]. destruct (turn (mon s) (pcs s) t _ c pick Hq Hp eq_refl) as [ml Hml]; [by destruct a; [right|left]|].
  unfold run_segment in Hml. cbn [data] in Hml. rewrite Hdata in Hml. cbn [mbind outcome_bind waiting woken returned data] in Hml.
  split; [|right; exists ml; done]. split; cbn [lk mon pcs set_mon at_pc set_lk data]; [done|by apply queues_wait|].
  intros t' q. rewrite lookup_insert_Some. intros [[<- <-]|[_ Hx]]; [done|by eapply Hd].
Qed.

(** The holder is stored or cleared, or only read. *)
Lemma lock_simulated s t p p' h : sys_inv s -> pcs s !! t = Some p -> holds p = true -> holds p' = true -> queued p = false ->
  h = (if assigned p' then t else 0) -> after_wait p = after_wait p' -> pc_ok (data (mon s)) p' ->
  simulated s (Ok (mkSys (mkMutex (mutex_ (lk s)) h) (mon s) (<[t:=p']> (pcs s)))).
Proof.
  intros Hi Hp H1 H2 Hn Hh Ha Hk. pose proof Hi as [Hl Hq Hd]. apply simulated_move; [done| |by eapply not_waiting|by rewrite Hp|done].
  by eapply lock_move.
Qed.

Lemma same_lock s t p : sys_inv s -> pcs s !! t = Some p -> holds p = true -> assigned p = true -> lk s = mkMutex (mutex_ (lk s)) t.
Proof. intros [Hl _ _] Hp H1 H2. destruct (lock_owner _ _ _ _ Hl Hp H1) as [_ Hh]. rewrite H2 in Hh. destruct (lk s). cbn in *. congruence. Qed.

Lemma thread_simulated t pick s : sys_inv s -> simulated s (thread_step t pick s).
Proof.
  intros Hi. assert (simulated s (Ok s)) as Hstay by (split; [done|by left]).
  destruct (pcs s !! t) as [p|] eqn:Hp; [|unfold thread_step; by rewrite Hp]. pose proof Hi as [Hl Hq Hd]. pose proof (Hd _ _ Hp) as Hk.
  destruct p as [c a|c a|c a|c a d|cv c a|cv c a|c| |]; [..|by eapply do_simulated| |by eapply wait_simulated| | |]; unfold thread_step, at_pc, set_lk, assignHolder, unassignHolder; rewrite Hp; cbn [lk mon pcs].
  - destruct (pthread_mutex_lock t (lk s)) as [m|] eqn:E; [|done].
    apply simulated_move; [done|by eapply lock_acquire|by eapply not_waiting|by rewrite Hp|done].
  - by eapply lock_simulated.
  - pose proof (same_lock s t _ Hi Hp eq_refl eq_refl) as Hs. unfold assertLocked, isLockedByThisThread. rewrite Hs at 1. cbn [holder_]. rewrite Z.eqb_refl.
    cbn [c_assert mbind outcome_bind]. rewrite Hs. by eapply lock_simulated.
  - by eapply lock_simulated.
  - destruct (bool_decide _) eqn:E; [done|]. apply bool_decide_eq_false in E. apply simulated_move; [done| |done|by rewrite Hp|done].
    apply lock_outside; [done| |done]. intros q Hx. by simplify_eq.
  - by eapply lock_simulated.
  - pose proof (not_waiting _ _ _ _ Hq Hp eq_refl) as Ht.
    destruct (lock_release (lk s) (pcs s) (delete t (pcs s)) t _ Hl Hp eq_refl eq_refl) as (m & -> & Hm).
    { intros t' Hne. by rewrite lookup_delete_ne. }
    { intros q. by rewrite lookup_delete_eq. }
    split; [|by left]. split; cbn [lk mon pcs]; [done| |intros t' q [_ Hx]%lookup_delete_Some; by eapply Hd].
    destruct (leave_cases t (woken (mon s))) as [[E _]|(i & w & Hw & Hw' & _)].
    + pose proof (queues_gone (mon s) (pcs s) (delete t (pcs s)) t (data (mon s)) (returned (mon s)) Hq Ht) as Hg. rewrite E in Hg.
      destruct (mon s). apply Hg; [intros t' Hne; by rewrite lookup_delete_ne|intros q; by rewrite lookup_delete_eq].
    + destruct (q_woken _ _ Hq w) as (q & Hx & Hc); [by eapply list_elem_of_lookup_2|]. rewrite Hw', Hp in Hx. by simplify_eq.
Qed.

Lemma step_simulated l s : sys_inv s -> simulated s (sys_step s l).
Proof.
  intros Hi. pose proof Hi as [Hl Hq Hd]. assert (simulated s (Ok s)) as Hstay by (split; [done|by left]).
  destruct l as [t c|t pick|i]; cbn [sys_step]; [|by apply thread_simulated|].
  - destruct (pcs s !! t) eqn:Hp; [done|]. destruct (0 <? t); [|done]. apply simulated_move; [done| | |by rewrite Hp|done].
    + apply lock_outside; [done| |done]. intros p Hx. congruence.
    + intros (w & -> & Hw)%list_elem_of_fmap. rewrite (q_waiting _ _ Hq _ Hw) in Hp. done.
  - destruct (waiting (mon s) !! i) as [w|] eqn:Hw; [|done]. split.
    + split; cbn [lk mon pcs set_mon data]; [done| |done]. apply (queues_shift (mon s)); cbn [waiting woken]; [done| |].
      * rewrite (delete_Permutation _ _ _ Hw) at 2. solve_Permutation.
      * intros x Hx. by eapply elem_of_submseteq; [|apply submseteq_delete].
    + right. exists (MSpurious i). cbn. by rewrite Hw.
Qed.

Lemma init_inv d : sys_inv (sys_init d).
Proof.
  split; cbn [lk mon pcs sys_init].
  - split; [done|]. intros t p. by rewrite lookup_empty.
  - split; cbn; [intros w Hw; by apply elem_of_nil in Hw..|constructor|]. intros t p c. by rewrite lookup_empty.
  - intros t p. by rewrite lookup_empty.
Qed.

Lemma runs_simulated ls : forall s, sys_inv s ->
  match foldM sys_step s ls with
  | Ok s' => sys_inv s' /\ exists mls, foldM (monitor_step attempt) (mon s) mls = Ok (mon s')
  | Fail f => exists mls, foldM (monitor_step attempt) (mon s) mls = Fail f
  end.
Proof.
  induction ls as [|l ls IH]; intros s Hs; cbn [foldM]; [split; [done|by exists []]|].
  pose proof (step_simulated l s Hs) as H1. destruct (sys_step s l) as [s1|f]; cbn [mbind outcome_bind simulated] in *.
  - destruct H1 as [Hs1 Hm]. specialize (IH s1 Hs1). destruct Hm as [Hm|[ml Hml]]; [rewrite Hm in IH; exact IH|].
    destruct (foldM sys_step s1 ls); [destruct IH as [? [mls Hmls]]; split; [done|]|destruct IH as [mls Hmls]]; exists (ml :: mls); cbn; by rewrite Hml.
  - destruct H1 as [ml Hml]. exists [ml]. cbn. by rewrite Hml.
Qed.

(** The thread that holds the mutex is never stuck. *)
Lemma holder_moves s t p pick : sys_inv s -> pcs s !! t = Some p -> holds p = true -> thread_step t pick s <> Ok s.
Proof.
  intros Hi Hp Hh H. apply (f_equal (fun r => match r with Ok x => pcs x !! t | Fail _ => None end)) in H.
  revert H. unfold thread_step. rewrite Hp. destruct p as [c a|c a|c a|c a d|cv c a|cv c a|c| |]; try done; cbn.
  1, 4, 6: rewrite lookup_insert_eq; congruence.
  - destruct (assertLocked t (lk s)); cbn; rewrite ?lookup_insert_eq; congruence.
  - destruct (attempt d c) as [[]|]; cbn; rewrite ?lookup_insert_eq; congruence.
  - destruct (pthread_mutex_unlock t (lk s)); cbn; rewrite ?lookup_insert_eq; congruence.
  - destruct (pthread_mutex_unlock t (lk s)); cbn; rewrite ?lookup_delete_eq; congruence.
Qed.

Lemma some_thread_moves s t p : sys_inv s -> pcs s !! t = Some p -> t ∉ w_tid <$> waiting (mon s) ->
  exists t', forall pick, thread_step t' pick s <> Ok s.
Proof.
  intros Hi Hp Ht. pose proof Hi as [Hl _ _]. unfold lock_ok in Hl. destruct (mutex_ (lk s)) as [o|] eqn:Eo.
  - destruct Hl as [(q & Hq & Hh & _) _]. exists o. intros pick. by eapply holder_moves.
  - exists t. intros pick H. destruct Hl as [_ Hn]. pose proof (Hn _ _ Hp) as Hh. revert H. unfold thread_step. rewrite Hp.
    destruct p as [c a| | | | | |c| |]; try done; unfold pthread_mutex_lock; rewrite ?Eo.
    + intros H. apply (f_equal (fun r => match r with Ok x => pcs x !! t | Fail _ => None end)) in H. cbn in H. rewrite lookup_insert_eq in H. congruence.
    + rewrite bool_decide_eq_false_2 by done. intros H.
      apply (f_equal (fun r => match r with Ok x => pcs x !! t | Fail _ => None end)) in H. cbn in H. rewrite lookup_insert_eq in H. congruence.
Qed.

(** What holds of every run of the monitor holds of every run of the threads. *)
Lemma locks_transfer (P : @monitor D Call Res Cv -> Prop) d :
  (forall mls, exists m, foldM (monitor_step attempt) (monitor_init d) mls = Ok m /\ P m) ->
  forall ls, exists s, foldM sys_step (sys_init d) ls = Ok s /\ P (mon s).
Proof.
  intros H ls. pose proof (runs_simulated ls _ (init_inv d)) as Hr. destruct (foldM sys_step (sys_init d) ls) as [s|f].
  - destruct Hr as [_ [mls Hmls]]. destruct (H mls) as (m & E & HP). exists s. split; [done|]. cbn in Hmls. congruence.
  - destruct Hr as [mls Hmls]. destruct (H mls) as (m & E & HP). cbn in Hmls. congruence.
Qed.

(** C10: the monitors of the other theorems are what the locks implement: for
    any threads in any interleaving of their single accesses to the mutex, the
    holder and the guarded data, with early returns from waits, the run is a
    run of the monitor, in which each member function is one step; it stops
    the process only where the member function itself does, so no assertion on
    the lock fails. The thread recorded as the holder is the one that owns the
    mutex, no two threads are inside, some thread can go on unless all wait in
    condition variables, and a mutex nobody uses can be destroyed. *)
Theorem locks_refine_monitor d ls :
  exists mls, match foldM sys_step (sys_init d) ls with
  | Ok s =>
      foldM (monitor_step attempt) (monitor_init d) mls = Ok (mon s) /\ lock_ok (lk s) (pcs s) /\
      (forall t p, pcs s !! t = Some p -> t ∉ w_tid <$> waiting (mon s) -> exists t', forall pick, thread_step t' pick s <> Ok s) /\
      (pcs s = ∅ -> MutexLock_dtor (lk s) = Ok tt)
  | Fail f => foldM (monitor_step attempt) (monitor_init d) mls = Fail f
  end.
Proof.
  pose proof (runs_simulated ls _ (init_inv d)) as H. destruct (foldM sys_step (sys_init d) ls) as [s|f]; [|exact H].
  destruct H as [Hs [mls Hmls]]. exists mls. split_and!; [done|apply Hs|intros t p; by apply some_thread_moves|].
  intros He. pose proof (si_lock _ Hs) as Hl. unfold lock_ok in Hl. rewrite He in Hl. unfold MutexLock_dtor. destruct (mutex_ (lk s)).
  - destruct Hl as [(p & Hp & _) _]. by rewrite lookup_empty in Hp.
  - destruct Hl as [-> _]. done.
Qed.

End Locks.
