(* ===== verification/BlockingQueue.v ===== *)
(** * Blocking queues and the latch: src/mynetlib/base/BlockingQueue.h,
    BoundedBlockingQueue.h, CountDownLatch.h, CountDownLatch.cc *)

From S2P Require Import Prelude Monitor Mutex.

Inductive queue_cv : Set := notEmpty_ | notFull_.

#[export] Instance queue_cv_eq_dec : EqDecision queue_cv.
Proof. solve_decision. Defined.

Section Queue.

Context {A : Type}.

Inductive qcall : Type :=
| Put (x : A)
| Take
| Size.

Inductive qresult : Type :=
| RVoid
| RItem (x : A)
| RSize (n : Z).

Abbreviation qsegment D := (segment (D := D) (Res := qresult) (Cv := queue_cv)).

(** ** BlockingQueue *)

Definition bq_put (x : A) (queue_ : list A) : outcome (qsegment (list A)) :=
  Ok (Returns (queue_ ++ [x]) RVoid [NotifyOne notEmpty_]).

Definition bq_take (queue_ : list A) : outcome (qsegment (list A)) :=
  match queue_ with
  | [] => Ok (Waits notEmpty_)
  | front :: rest => Ok (Returns rest (RItem front) [])
  end.

Definition bq_size (queue_ : list A) : outcome (qsegment (list A)) :=
  Ok (Returns queue_ (RSize (zlen queue_)) []).

Definition bq_attempt (queue_ : list A) (c : qcall) : outcome (qsegment (list A)) :=
  match c with
  | Put x => bq_put x queue_
  | Take => bq_take queue_
  | Size => bq_size queue_
  end.

(** ** BoundedBlockingQueue *)

(** [boost::circular_buffer]: its capacity and contents. *)
Record bounded : Type := mkBounded { capacity_ : Z; queue_ : list A }.

Definition BoundedBlockingQueue_ctor (maxSize : Z) : bounded := mkBounded (u64 maxSize) [].

Definition full (b : bounded) : bool := capacity_ b =? zlen (queue_ b).

Definition bbq_put (x : A) (b : bounded) : outcome (qsegment bounded) :=
  if full b then Ok (Waits notFull_)
  else Ok (Returns (mkBounded (capacity_ b) (queue_ b ++ [x])) RVoid [NotifyOne notEmpty_]).

Definition bbq_take (b : bounded) : outcome (qsegment bounded) :=
  match queue_ b with
  | [] => Ok (Waits notEmpty_)
  | front :: rest => Ok (Returns (mkBounded (capacity_ b) rest) (RItem front) [NotifyOne notFull_])
  end.

Definition bbq_size (b : bounded) : outcome (qsegment bounded) := Ok (Returns b (RSize (zlen (queue_ b))) []).

Definition bbq_attempt (b : bounded) (c : qcall) : outcome (qsegment bounded) :=
  match c with
  | Put x => bbq_put x b
  | Take => bbq_take b
  | Size => bbq_size b
  end.

(** ** What returned calls did *)

Definition put_items (log : list (Z * qcall * qresult)) : list A :=
  omap (fun e => match e with (_, Put x, RVoid) => Some x | _ => None end) log.

Definition taken_items (log : list (Z * qcall * qresult)) : list A :=
  omap (fun e => match e with (_, Take, RItem x) => Some x | _ => None end) log.

Definition queue_waits_on (c : qcall) : option queue_cv :=
  match c with
  | Put _ => Some notFull_
  | Take => Some notEmpty_
  | Size => None
  end.

(** *** BlockingQueue *)

Definition bq_need (q : list A) (cv : queue_cv) : nat :=
  match cv with notEmpty_ => length q | notFull_ => 0 end.

#[export] Instance bq_notifies : NotifiesEnough bq_attempt queue_waits_on bq_need.
Proof.
  split.
  - intros q [x| |] cv; cbn; [done| |done]. by destruct q; intros [= <-].
  - intros q c q' r ns cv E _. destruct c as [x| |]; cbn in E.
    + injection E as <- <- <-. destruct cv; [right|by left]. rewrite ones_one. cbn. rewrite length_app. cbn.
      case_decide; [done|lia].
    + destruct q as [|y q]; [done|]. injection E as <- <- <-. destruct cv; cbn; [right|by left].
      case_decide; lia.
    + injection E as <- <- <-. destruct cv; cbn; [right|by left]. case_decide; [done|lia].
Qed.

Lemma bq_fifo ls : exists m, foldM (monitor_step bq_attempt) (monitor_init []) ls = Ok m /\
  put_items (returned m) = taken_items (returned m) ++ data m.
Proof.
  apply (monitor_run_keeps bq_attempt (fun q log => put_items log = taken_items log ++ q)); [| |done].
  - intros q log [x| |] _; cbn; [by eauto|destruct q; eauto|by eauto].
  - unfold put_items, taken_items. intros q log t [x| |] q' r ns HP; cbn; rewrite !omap_app, HP; cbn.
    + intros [= <- <- <-]. by rewrite <- !app_assoc.
    + destruct q as [|y q]; [done|]. intros [= <- <- <-]. by rewrite <- !app_assoc, app_nil_r.
    + intros [= <- <- <-]. by rewrite !app_nil_r.
Qed.

(** *** BoundedBlockingQueue *)

Definition bbq_need (b : bounded) (cv : queue_cv) : nat :=
  match cv with
  | notEmpty_ => length (queue_ b)
  | notFull_ => Z.to_nat (capacity_ b - zlen (queue_ b))
  end.

#[export] Instance bbq_notifies : NotifiesEnough bbq_attempt queue_waits_on bbq_need.
Proof.
  split.
  - intros b [x| |] cv; cbn; unfold bbq_put, bbq_take, full; [| |done].
    + zcases; [|done]. intros [= <-]. split; [done|]. cbn. lia.
    + destruct (queue_ b) eqn:E; [|done]. intros [= <-]. split; [done|]. cbn. by rewrite E.
  - intros b c b' r ns cv E _. destruct c as [x| |]; cbn in E; unfold bbq_put, bbq_take, full in E.
    + revert E. zcases; [done|]. intros [= <- <- <-]. destruct cv; cbn [bbq_need queue_ capacity_].
      * right. rewrite ones_one, length_app. cbn. case_decide; [done|lia].
      * destruct (Z.le_gt_cases (capacity_ b) (zlen (queue_ b))); [left|right];
          unfold zlen in *; rewrite length_app; cbn; [|case_decide]; lia.
    + destruct (queue_ b) as [|y q] eqn:Eq; [done|]. injection E as <- <- <-.
      right. destruct cv; rewrite ?ones_one; cbn; rewrite Eq; case_decide; try done;
        unfold zlen; cbn; lia.
    + injection E as <- <- <-. right. destruct cv; cbn; (case_decide; [done|lia]).
Qed.

Definition bbq_inv (cap : Z) (b : bounded) (log : list (Z * qcall * qresult)) : Prop :=
  put_items log = taken_items log ++ queue_ b /\ capacity_ b = cap /\ zlen (queue_ b) <= cap.

Lemma bbq_run cap ls : 0 <= cap ->
  exists m, foldM (monitor_step bbq_attempt) (monitor_init (mkBounded cap [])) ls = Ok m /\
    bbq_inv cap (data m) (returned m).
Proof.
  intros Hc. apply (monitor_run_keeps bbq_attempt (bbq_inv cap)); [| |by repeat split].
  - intros b log [x| |] _; cbn; unfold bbq_put, bbq_take; [destruct (full b)|destruct (queue_ b)|]; eauto.
  - unfold put_items, taken_items. intros b log t [x| |] b' r ns (HP & Hcap & Hlen); cbn.
    + unfold bbq_put, full. zcases; [done|]. intros [= <- <- <-]. unfold bbq_inv, put_items, taken_items in *. cbn.
      rewrite !omap_app, HP. cbn. split_and!; [by rewrite <- !app_assoc|done|]. rewrite zlen_app, zlen_singleton. lia.
    + unfold bbq_take. destruct (queue_ b) as [|y q] eqn:E; [done|]. intros [= <- <- <-].
      unfold bbq_inv, put_items, taken_items in *. cbn. rewrite !omap_app, HP. cbn. rewrite zlen_cons in Hlen.
      split_and!; [by rewrite <- !app_assoc, app_nil_r|done|lia].
    + intros [= <- <- <-]. unfold bbq_inv, put_items, taken_items in *. rewrite !omap_app, HP. cbn. by rewrite !app_nil_r.
Qed.

(** The queue between two calls. *)
Definition queue_good (cap : Z) (m : monitor) : Prop :=
  put_items (returned m) = taken_items (returned m) ++ queue_ (data m) /\
  zlen (queue_ (data m)) <= cap /\
  ((0 < cv_count notEmpty_ (waiting m))%nat -> zlen (queue_ (data m)) <= Z.of_nat (cv_count notEmpty_ (woken m))) /\
  ((0 < cv_count notFull_ (waiting m))%nat -> cap - zlen (queue_ (data m)) <= Z.of_nat (cv_count notFull_ (woken m))).

Lemma bounded_queue_monitor (cap : Z) (ls : list (mstep (Call := qcall))) :
  0 <= cap < 2 ^ 64 ->
  exists m, foldM (monitor_step bbq_attempt) (monitor_init (BoundedBlockingQueue_ctor cap)) ls = Ok m /\ queue_good cap m.
Proof.
  intros Hc. unfold BoundedBlockingQueue_ctor. rewrite u64_small by done.
  destruct (bbq_run cap ls) as (m & E & HP & Hcap & Hlen); [lia|]. exists m.
  destruct (run_progress bbq_attempt queue_waits_on bbq_need ls _ m E) as (_ & _ & Hn).
  split; [done|]. unfold queue_good. split_and!; [done|done|..].
  - intros H%Hn. cbn in H. unfold zlen. lia.
  - intros H%Hn. cbn in H. lia.
Qed.

(** C11: A bounded blocking queue shared by any number of producers and
    consumers, in any interleaving of their accesses to the mutex, the
    condition variables and the deque, with spurious wakeups: no assertion
    fails, items leave in the order they entered, none is lost or duplicated,
    the capacity is never exceeded, and no wakeup is lost - while consumers
    wait, at least as many consumers are already awake as there are items, and
    while producers wait, at least as many producers are awake as there are
    free places. *)
Theorem bounded_queue_correct (cap : Z) (ls : list (cstep (Call := qcall))) :
  0 <= cap < 2 ^ 64 ->
  exists s, foldM (sys_step bbq_attempt) (sys_init (BoundedBlockingQueue_ctor cap)) ls = Ok s /\
    let m := mon s in
    put_items (returned m) = taken_items (returned m) ++ queue_ (data m) /\
    zlen (queue_ (data m)) <= cap /\
    ((0 < cv_count notEmpty_ (waiting m))%nat -> zlen (queue_ (data m)) <= Z.of_nat (cv_count notEmpty_ (woken m))) /\
    ((0 < cv_count notFull_ (waiting m))%nat -> cap - zlen (queue_ (data m)) <= Z.of_nat (cv_count notFull_ (woken m))).
Proof. intros Hc. exact (locks_transfer bbq_attempt (queue_good cap) _ (fun mls => bounded_queue_monitor cap mls Hc) ls). Qed.

(** The unbounded queue. *)
Lemma blocking_queue_correct (ls : list (mstep (Call := qcall))) :
  exists m, foldM (monitor_step bq_attempt) (monitor_init []) ls = Ok m /\
    put_items (returned m) = taken_items (returned m) ++ data m /\
    ((0 < cv_count notEmpty_ (waiting m))%nat -> zlen (data m) <= Z.of_nat (cv_count notEmpty_ (woken m))).
Proof.
  destruct (bq_fifo ls) as (m & E & HP). exists m.
  destruct (run_progress bq_attempt queue_waits_on bq_need ls _ m E) as (_ & _ & Hn).
  split_and!; [done|done|]. intros H%Hn. cbn in H. unfold zlen. lia.
Qed.

End Queue.

Arguments qcall A : clear implicits.
Arguments qresult A : clear implicits.

(** A consumer waits, a producer fills the one place, another waits for it. *)
Definition demo_queue_run : list (cstep (Call := qcall Z)) :=
  CCall 1 Take :: CCall 2 (Put 10) :: CCall 3 (Put 11) ::
  (t ← [1; 3; 2; 1; 1; 1; 1; 1; 2; 2; 2; 3; 2; 2; 2; 3; 3; 3; 3; 3; 3; 1; 1; 1; 1; 1; 1; 1; 3; 3; 3; 3; 3; 3]; [CRun t 0]).

Lemma bounded_queue_correct_witness :
  exists s, foldM (sys_step bbq_attempt) (sys_init (BoundedBlockingQueue_ctor 1)) demo_queue_run = Ok s /\
    zlen (queue_ (data (mon s))) <= 1 /\ put_items (returned (mon s)) = [10; 11] /\ taken_items (returned (mon s)) = [10].
Proof.
  destruct (bounded_queue_correct (A := Z) 1 demo_queue_run ltac:(lia)) as (s & E & _ & Hlen & _).
  exists s. split; [exact E|]. split; [exact Hlen|]. vm_compute in E. injection E as <-. split; reflexivity.
Defined.
