(* ===== verification/CountDownLatch.v ===== *)
(** * CountDownLatch: src/mynetlib/base/CountDownLatch.h, CountDownLatch.cc *)

From S2P Require Import Prelude Monitor.

Inductive latch_call : Set := wait | countDown | getCount.

Abbreviation latch_segment := (segment (D := Z) (Res := Z) (Cv := unit)).

(** [count_] is an [int]; [condition_] is the only condition variable. *)
Definition latch_wait (count_ : Z) : outcome latch_segment :=
  if 0 <? count_ then Ok (Waits tt) else Ok (Returns count_ 0 []).

Definition latch_countDown (count_ : Z) : outcome latch_segment :=
  let c := s32 (count_ - 1) in
  Ok (Returns c 0 (if c =? 0 then [NotifyAll tt] else [])).

Definition latch_getCount (count_ : Z) : outcome latch_segment := Ok (Returns count_ count_ []).

Definition latch_attempt (count_ : Z) (c : latch_call) : outcome latch_segment :=
  match c with
  | wait => latch_wait count_
  | countDown => latch_countDown count_
  | getCount => latch_getCount count_
  end.

Abbreviation latch_log := (list (Z * latch_call * Z)).

(** How many calls of [countDown] returned. *)
Definition countdowns (log : latch_log) : nat :=
  length (List.filter (fun e => match e with (_, countDown, _) => true | _ => false end) log).

Lemma countdowns_snoc log t c r :
  countdowns (log ++ [(t, c, r)]) = (countdowns log + match c with countDown => 1 | _ => 0 end)%nat.
Proof. unfold countdowns. rewrite List.filter_app, length_app. by destruct c. Qed.

(** As long as [int] does not wrap: the counter is what is left, and each
    return of [wait] comes after [n] returns of [countDown]. *)
Definition latch_inv (n d : Z) (log : latch_log) : Prop :=
  Z.of_nat (countdowns log) < 2 ^ 31 ->
  d = n - Z.of_nat (countdowns log) /\
  forall l1 t r l2, log = l1 ++ (t, wait, r) :: l2 -> n <= Z.of_nat (countdowns l1).

Lemma snoc_split {A} (l l1 l2 : list A) x y : l ++ [x] = l1 ++ y :: l2 ->
  (l1 = l /\ y = x /\ l2 = []) \/ exists l2', l2 = l2' ++ [x] /\ l = l1 ++ y :: l2'.
Proof.
  intros H. destruct l2 as [|z l2 _] using rev_ind.
  - apply app_inj_tail in H as [-> ->]. by left.
  - right. rewrite app_comm_cons, app_assoc in H. apply app_inj_tail in H as [-> ->]. by exists l2.
Qed.

Lemma latch_keeps n d log t c d' r ns : 0 <= n < 2 ^ 31 -> latch_inv n d log ->
  latch_attempt d c = Ok (Returns d' r ns) -> latch_inv n d' (log ++ [(t, c, r)]).
Proof.
  intros Hn HP E Hk. rewrite countdowns_snoc in *. destruct HP as [Hd Hw]; [lia|].
  assert (c = wait -> d <= 0) as Hc.
  { intros ->. cbn in E. unfold latch_wait in E. revert E. zcases; [done|lia]. }
  split.
  - destruct c; cbn in E; [| |by injection E as <-; lia].
    + unfold latch_wait in E. destruct (0 <? d); [done|]. injection E as <-. lia.
    + injection E as <- _ _. rewrite s32_small; lia.
  - intros l1 t' r' l2 Hl. apply snoc_split in Hl as [(-> & [= -> <- ->] & _)|(l2' & _ & Hl)]; [|by eapply Hw].
    specialize (Hc eq_refl). lia.
Qed.

(** Nobody waits once the count has reached zero. *)
Definition released (m : monitor (D := Z) (Call := latch_call) (Res := Z) (Cv := unit)) : Prop :=
  - 2 ^ 31 <= data m < 2 ^ 31 /\ (data m <= 0 -> waiting m = []).

Lemma released_segment t c pick m m' : released m -> run_segment latch_attempt t c pick m = Ok m' -> released m'.
Proof.
  intros [Hr H0]. unfold run_segment. destruct c; cbn.
  - unfold latch_wait. zcases; cbn; intros [= <-]; split; cbn; try done. lia.
  - intros [= <-]. pose proof (signed_range 32 (data m - 1) ltac:(lia)) as Hs. fold (s32 (data m - 1)) in Hs.
    set (d := s32 (data m - 1)) in *. zcases; cbn; (split; [cbn in *; lia|]).
    + intros _. cbn. clear. induction (waiting m) as [|w ws IH]; [done|].
      rewrite filter_cons_False; [done|]. intros H. apply H. unfold on_cv. by destruct (w_cv w).
    + cbn. intros Hd. apply H0. unfold d, s32, signed in *. cbn in *.
      assert (data m <> 1) by (intros E; rewrite E in *; done).
      destruct (Z.le_gt_cases (data m) 0); [done|].
      rewrite Z.mod_small in Hd by lia. lia.
  - intros [= <-]. by split.
Qed.

Lemma released_step m l m' : released m -> monitor_step latch_attempt m l = Ok m' -> released m'.
Proof.
  intros Hr. destruct l as [t c pick|i pick|i]; cbn.
  - by apply released_segment.
  - destruct (woken m !! i); [by apply released_segment|by intros [= <-]].
  - destruct (waiting m !! i) eqn:Hi; intros [= <-]; [|done]. destruct Hr as [? H0]. split; [done|].
    cbn. intros Hd. rewrite H0 in Hi by done. done.
Qed.

Lemma released_run ls : forall m m', released m -> foldM (monitor_step latch_attempt) m ls = Ok m' -> released m'.
Proof.
  induction ls as [|l ls IH]; intros m m' Hr; cbn; [by intros [= <-]|].
  destruct (monitor_step latch_attempt m l) as [m1|] eqn:E; cbn; [|done].
  apply IH. by eapply released_step.
Qed.

(** A latch of n: under every schedule no wait() returns before n calls
    of countDown() returned, and once they have, no thread is left waiting:
    every one of them has been woken. *)
Lemma latch_correct (n : Z) (ls : list (mstep (Call := latch_call))) :
  0 <= n < 2 ^ 31 ->
  exists m, foldM (monitor_step latch_attempt) (monitor_init n) ls = Ok m /\
    (Z.of_nat (countdowns (returned m)) < 2 ^ 31 ->
       data m = n - Z.of_nat (countdowns (returned m)) /\
       (forall l1 t r l2, returned m = l1 ++ (t, wait, r) :: l2 -> n <= Z.of_nat (countdowns l1)) /\
       (n <= Z.of_nat (countdowns (returned m)) -> waiting m = [])).
Proof.
  intros Hn.
  destruct (monitor_run_keeps latch_attempt (latch_inv n)) with (ls := ls) (d := n) as (m & E & HP).
  - intros d log c _. destruct c; cbn; unfold latch_wait; [case_match|..]; eauto.
  - intros. by eapply latch_keeps.
  - intros _. split; [cbn; lia|]. intros l1 t r l2 H. by destruct l1.
  - exists m. split; [done|]. intros Hk. destruct (HP Hk) as [Hd Hw]. split_and!; [done|done|].
    intros Hge. apply (released_run ls _ m) in E as [_ H0]; [|split; cbn; [lia|done]]. apply H0. lia.
Qed.

Lemma latch_correct_witness :
  exists m, foldM (monitor_step latch_attempt) (monitor_init 2)
      [MCall 1 wait 0; MCall 2 countDown 0; MCall 3 wait 0; MCall 2 countDown 0; MResume 0 0] = Ok m /\ waiting m = [].
Proof.
  destruct (latch_correct 2 [MCall 1 wait 0; MCall 2 countDown 0; MCall 3 wait 0; MCall 2 countDown 0; MResume 0 0]
    ltac:(lia)) as (m & E & H).
  exists m. split; [exact E|]. vm_compute in E. injection E as <-.
  apply (proj2 (proj2 (H ltac:(vm_compute; reflexivity)))). vm_compute. discriminate.
Defined.
