(* ===== verification/ThreadPool.v ===== *)
(** * ThreadPool: src/mynetlib/base/ThreadPool.h, ThreadPool.cc

    The task queue shared by the callers of [run] and the worker threads, as
    a monitor; tasks are named by integers. *)

From S2P Require Import Prelude Format Monitor Mutex BlockingQueue.

Record ThreadPool : Type := mkTP {
  tp_queue : list Z;
  maxQueueSize_ : Z;
  running_ : bool;
}.

Definition ThreadPool_ctor : ThreadPool := mkTP [] 0 false.

Definition setMaxQueueSize (maxSize : Z) (p : ThreadPool) : ThreadPool :=
  mkTP (tp_queue p) (u64 maxSize) (running_ p).

(** [start]: the names of the threads; whether the init callback runs in the
    calling thread. *)
Definition tp_start (name : list byte) (threads : list (list byte)) (numThreads : Z) (has_cb : bool) (p : ThreadPool) :
    outcome (ThreadPool * list (list byte) * bool) :=
  c_assert (bool_decide (threads = []));;
  Ok (mkTP (tp_queue p) (maxQueueSize_ p) true,
      (fun i => name ++ snprintf 32 (fmt_d (Z.of_nat i + 1))) <$> seq 0 (Z.to_nat numThreads),
      (numThreads =? 0) && has_cb).

Definition isFull (p : ThreadPool) : bool := (0 <? maxQueueSize_ p) && (maxQueueSize_ p <=? zlen (tp_queue p)).

(** Calls that lock [mutex_]; [Stop] is the first block of [stop]. *)
Inductive tp_call : Set :=
| Run (task : Z)
| TakeTask
| Stop
| QueueSize.

(** [Task task;] is empty unless one was taken. *)
Inductive tp_result : Set :=
| TVoid
| TTask (task : option Z)
| TSize (n : Z).

Abbreviation tp_segment := (segment (D := ThreadPool) (Res := tp_result) (Cv := queue_cv)).

Definition tp_run (task : Z) (p : ThreadPool) : outcome tp_segment :=
  if isFull p then Ok (Waits notFull_)
  else
    c_assert (negb (isFull p));;
    Ok (Returns (mkTP (tp_queue p ++ [task]) (maxQueueSize_ p) (running_ p)) TVoid [NotifyOne notEmpty_]).

(** [run]: without threads, the caller runs the task. *)
Definition ThreadPool_run (threads_empty : bool) (task : Z) (p : ThreadPool) : Z + outcome tp_segment :=
  if threads_empty then inl task else inr (tp_run task p).

Definition tp_take (p : ThreadPool) : outcome tp_segment :=
  match tp_queue p with
  | [] => if running_ p then Ok (Waits notEmpty_) else Ok (Returns p (TTask None) [])
  | task :: rest =>
      Ok (Returns (mkTP rest (maxQueueSize_ p) (running_ p)) (TTask (Some task))
            (if 0 <? maxQueueSize_ p then [NotifyOne notFull_] else []))
  end.

Definition tp_stop (p : ThreadPool) : outcome tp_segment :=
  Ok (Returns (mkTP (tp_queue p) (maxQueueSize_ p) false) TVoid [NotifyAll notEmpty_]).

Definition queueSize (p : ThreadPool) : outcome tp_segment := Ok (Returns p (TSize (zlen (tp_queue p))) []).

Definition tp_attempt (p : ThreadPool) (c : tp_call) : outcome tp_segment :=
  match c with
  | Run task => tp_run task p
  | TakeTask => tp_take p
  | Stop => tp_stop p
  | QueueSize => queueSize p
  end.

(** One turn of the loop of [runInThread] after [take] returned: the task it
    calls, and whether it goes on ([running_] is read without the lock). *)
Definition worker_turn (running : bool) (taken : option Z) : list Z * bool :=
  (match taken with Some task => [task] | None => [] end, running).

(** ** Invariants *)

Abbreviation tp_log := (list (Z * tp_call * tp_result)).

Definition accepted (log : tp_log) : list Z :=
  omap (fun e => match e with (_, Run x, TVoid) => Some x | _ => None end) log.

Definition taken (log : tp_log) : list Z :=
  omap (fun e => match e with (_, TakeTask, TTask (Some x)) => Some x | _ => None end) log.

Definition tp_waits_on (c : tp_call) : option queue_cv :=
  match c with
  | Run _ => Some notFull_
  | TakeTask => Some notEmpty_
  | _ => None
  end.

Definition tp_need (p : ThreadPool) (cv : queue_cv) : nat :=
  match cv with
  | notEmpty_ => length (tp_queue p)
  | notFull_ => Z.to_nat (maxQueueSize_ p - zlen (tp_queue p))
  end.

#[export] Instance tp_notifies : NotifiesEnough tp_attempt tp_waits_on tp_need.
Proof.
  split.
  - intros p [task| | |] cv; cbn; unfold tp_run, tp_take; [| |done|done].
    + destruct (isFull p) eqn:E; cbn; [|done]. intros [= <-]. split; [done|]. cbn.
      unfold isFull in E. revert E. zcases; cbn; try done. lia.
    + destruct (tp_queue p) eqn:E; [|done]. destruct (running_ p); [|done]. intros [= <-].
      split; [done|]. cbn. by rewrite E.
  - intros p c p' r ns cv E Hall. destruct c as [task| | |]; cbn in E; unfold tp_run, tp_take in E.
    + destruct (isFull p); cbn in E; [done|]. injection E as <- <- <-. destruct cv; cbn [tp_need tp_queue maxQueueSize_].
      * right. rewrite ones_one, length_app. cbn. case_decide; [done|lia].
      * destruct (Z.le_gt_cases (maxQueueSize_ p) (zlen (tp_queue p))); [left|right];
          unfold zlen in *; rewrite length_app; cbn; [|case_decide]; lia.
    + destruct (tp_queue p) as [|y q] eqn:Eq.
      * destruct (running_ p); [done|]. injection E as <- <- <-. destruct cv; cbn; rewrite Eq; [by left|right].
        case_decide; [done|lia].
      * injection E as <- <- <-. destruct cv; cbn [tp_need tp_queue maxQueueSize_]; rewrite Eq.
        -- right. cbn. case_decide; lia.
        -- zcases; [right; rewrite ones_one|left]; unfold zlen in *; cbn in *; [case_decide; [done|]|]; lia.
    + injection E as <- <- <-. destruct cv; [by destruct Hall; left|]. right. cbn. case_decide; [done|lia].
    + injection E as <- <- <-. right. destruct cv; cbn; (case_decide; [done|lia]).
Qed.

Definition tp_inv (cap : Z) (p : ThreadPool) (log : tp_log) : Prop :=
  accepted log = taken log ++ tp_queue p /\ maxQueueSize_ p = cap /\ (0 < cap -> zlen (tp_queue p) <= cap).

Lemma tp_keeps cap p log t c p' r ns : tp_inv cap p log -> tp_attempt p c = Ok (Returns p' r ns) ->
  tp_inv cap p' (log ++ [(t, c, r)]).
Proof.
  intros (HP & Hcap & Hlen). unfold tp_inv, accepted, taken in *. rewrite !omap_app, HP.
  destruct c as [task| | |]; cbn; unfold tp_run, tp_take.
  - destruct (isFull p) eqn:E; cbn; [done|]. intros [= <- <- <-]. cbn.
    split_and!; [by rewrite <- !app_assoc|done|]. unfold isFull in E. revert E. rewrite zlen_app, zlen_singleton.
    zcases; cbn; try done; lia.
  - destruct (tp_queue p) as [|y q] eqn:Eq; [destruct (running_ p); [done|]|]; intros [= <- <- <-]; cbn.
    + rewrite Eq, !app_nil_r. done.
    + rewrite zlen_cons in Hlen. split_and!; [by rewrite <- !app_assoc, app_nil_r|done|lia].
  - intros [= <- <- <-]. cbn. by rewrite !app_nil_r.
  - intros [= <- <- <-]. cbn. by rewrite !app_nil_r.
Qed.

Lemma tp_attempt_ok p c : exists s, tp_attempt p c = Ok s.
Proof.
  destruct c; cbn; unfold tp_run, tp_take; [destruct (isFull p)|destruct (tp_queue p); [destruct (running_ p)|]|..]; eauto.
Qed.

(** After [stop], no worker waits. *)
Definition stopped_free (m : monitor (D := ThreadPool) (Call := tp_call) (Res := tp_result) (Cv := queue_cv)) : Prop :=
  running_ (data m) = false -> cv_count notEmpty_ (waiting m) = 0%nat.

Abbreviation tp_monitor := (monitor (D := ThreadPool) (Call := tp_call) (Res := tp_result) (Cv := queue_cv)).
Abbreviation tp_step := (monitor_step tp_attempt).

Lemma stopped_segment t c pick m m' : stopped_free m -> run_segment tp_attempt t c pick m = Ok m' -> stopped_free m'.
Proof.
  intros Hf. unfold run_segment. destruct (tp_attempt (data m) c) as [s|f] eqn:E; cbn; [|done].
  destruct s as [cv|p' r ns]; intros [= <-]; unfold stopped_free.
  - cbn. intros Hr. rewrite cv_count_app, (Hf Hr), cv_count_one. cbn. case_decide; [|done]. subst cv.
    destruct c as [task| | |]; cbn in E; unfold tp_run, tp_take in E; [by destruct (isFull (data m))| |done..].
    rewrite Hr in E. by destruct (tp_queue (data m)).
  - rewrite data_wakes. cbn. intros Hr. destruct (Nat.eq_0_gt_0_cases (cv_count notEmpty_
      (waiting (foldr (wake pick) (mkMonitor p' (waiting m) (woken m) (returned m ++ [(t, c, r)])) ns)))) as [|Hpos]; [done|].
    apply wakes_count in Hpos as (Hpos & _ & Hall). cbn in Hpos. exfalso.
    assert (running_ (data m) = false) as Hr'; [|rewrite (Hf Hr') in Hpos; lia].
    destruct c as [task| | |]; cbn in E; unfold tp_run, tp_take in E.
    + destruct (isFull (data m)); cbn in E; [done|]. by injection E as <- <- <-.
    + destruct (tp_queue (data m)); [destruct (running_ (data m)); [done|]|]; by injection E as <- <- <-.
    + injection E as <- <- <-. destruct Hall. by left.
    + by injection E as <- <- <-.
Qed.

Lemma stopped_step m l m' : stopped_free m -> tp_step m l = Ok m' -> stopped_free m'.
Proof.
  intros Hf. destruct l as [t c pick|i pick|i]; cbn.
  - by apply stopped_segment.
  - destruct (woken m !! i); [by apply stopped_segment|by intros [= <-]].
  - destruct (waiting m !! i) as [w|] eqn:Hi; intros [= <-]; [|done]. unfold stopped_free in *. cbn.
    intros Hr. specialize (Hf Hr). rewrite (cv_count_delete _ _ _ _ Hi) in Hf. lia.
Qed.

Lemma stopped_run ls : forall m m', stopped_free m -> foldM tp_step m ls = Ok m' -> stopped_free m'.
Proof.
  induction ls as [|l ls IH]; intros m m' Hf; cbn; [by intros [= <-]|].
  destruct (tp_step m l) as [m1|] eqn:E; cbn; [|done]. apply IH. by eapply stopped_step.
Qed.

(** The pool between two calls. *)
Definition pool_good (cap : Z) (m : monitor) : Prop :=
  accepted (returned m) = taken (returned m) ++ tp_queue (data m) /\
  (0 < cap -> zlen (tp_queue (data m)) <= cap) /\
  ((0 < cv_count notEmpty_ (waiting m))%nat -> zlen (tp_queue (data m)) <= Z.of_nat (cv_count notEmpty_ (woken m))) /\
  (running_ (data m) = false ->
     cv_count notEmpty_ (waiting m) = 0%nat /\ exists p r ns, tp_take (data m) = Ok (Returns p (TTask r) ns)).

Lemma thread_pool_monitor (cap : Z) (ls : list (mstep (Call := tp_call))) :
  0 <= cap < 2 ^ 64 ->
  exists m, foldM tp_step (monitor_init (mkTP [] cap true)) ls = Ok m /\ pool_good cap m.
Proof.
  intros Hc.
  destruct (monitor_run_keeps tp_attempt (tp_inv cap)) with (ls := ls) (d := mkTP [] cap true)
    as (m & E & HP & Hcap & Hlen).
  - intros d log c _. apply tp_attempt_ok.
  - intros. by eapply tp_keeps.
  - split_and!; [done|done|]. intros _. change (0 <= cap). lia.
  - exists m. destruct (run_progress tp_attempt tp_waits_on tp_need ls _ m E) as (_ & _ & Hn).
    split; [done|]. unfold pool_good. split_and!; [done|done| |].
    + intros H%Hn. cbn in H. unfold zlen. lia.
    + intros Hr. assert (stopped_free (monitor_init (mkTP [] cap true))) as H0 by done.
      split; [exact (stopped_run ls _ _ H0 E Hr)|].
      unfold tp_take. rewrite Hr. destruct (tp_queue (data m)); eauto.
Qed.

(** C12: A started thread pool in any interleaving of the threads' accesses to
    the mutex, the condition variables and the queue: no assertion fails;
    tasks are taken in the order they were accepted, each once; the queue
    stays within its limit; while workers wait, at least as many are awake as
    there are tasks; and once stop() has run no worker waits, nor does [take]
    make one wait, so the joins of stop() return. *)
Theorem thread_pool_correct (cap : Z) (ls : list (cstep (Call := tp_call))) :
  0 <= cap < 2 ^ 64 ->
  exists s, foldM (sys_step tp_attempt) (sys_init (mkTP [] cap true)) ls = Ok s /\
    let m := mon s in
    accepted (returned m) = taken (returned m) ++ tp_queue (data m) /\
    (0 < cap -> zlen (tp_queue (data m)) <= cap) /\
    ((0 < cv_count notEmpty_ (waiting m))%nat -> zlen (tp_queue (data m)) <= Z.of_nat (cv_count notEmpty_ (woken m))) /\
    (running_ (data m) = false ->
       cv_count notEmpty_ (waiting m) = 0%nat /\ exists p r ns, tp_take (data m) = Ok (Returns p (TTask r) ns)).
Proof. intros Hc. exact (locks_transfer tp_attempt (pool_good cap) _ (fun mls => thread_pool_monitor cap mls Hc) ls). Qed.

(** ** Producers and stop *)

(** A thread that is inside a call. *)
Definition inside (m : tp_monitor) (t : Z) (c : tp_call) : Prop :=
  exists w, w ∈ waiting m ++ woken m /\ w_tid w = t /\ w_call w = c.

Definition stuck (q : list Z) (m : tp_monitor) : Prop :=
  tp_queue (data m) = q /\ isFull (data m) = true /\
  Forall (fun w => exists x, w_call w = Run x) (waiting m ++ woken m).

Definition no_take (l : mstep (Call := tp_call)) : bool :=
  match l with MCall _ TakeTask _ => false | _ => true end.

Lemma stuck_segment q t c pick m m' : stuck q m -> c <> TakeTask -> run_segment tp_attempt t c pick m = Ok m' ->
  stuck q m' /\ accepted (returned m') = accepted (returned m) /\
  (forall w, w ∈ waiting m ++ woken m -> w ∈ waiting m' ++ woken m') /\ (forall x, c = Run x -> inside m' t c).
Proof.
  intros (Hq & Hf & Hall) Hc. unfold run_segment. destruct c as [task| | |]; [| done | |];
    cbn [tp_attempt tp_run tp_stop queueSize mbind outcome_bind].
  - unfold tp_run. rewrite Hf. cbn. intros [= <-]. unfold stuck, inside. cbn. split_and!; try done.
    + rewrite <- app_assoc, (Permutation_app_comm [_]), app_assoc. apply Forall_app_2; [done|]. by repeat econstructor.
    + intros w. rewrite !elem_of_app. tauto.
    + intros x _. exists (mkWaiter t notFull_ (Run task)). split; [|done]. rewrite !elem_of_app. left. right. by left.
  - match goal with |- Ok (foldr (wake pick) ?m0 ?ns) = _ -> _ =>
      pose proof (wakes_perm pick ns m0) as Hp; pose proof (data_wakes pick ns m0) as Hd;
      pose proof (returned_wakes pick ns m0) as Hr; generalize dependent (foldr (wake pick) m0 ns) end.
    cbn [data returned waiting woken]. intros m2 Hp Hd Hr [= <-]. unfold stuck. rewrite Hd, Hr. split_and!.
    + done.
    + unfold isFull in *. by cbn.
    + by rewrite Hp.
    + unfold accepted. rewrite omap_app. cbn. by rewrite app_nil_r.
    + intros w. by rewrite Hp.
    + done.
  - intros [= <-]. unfold stuck. cbn. split_and!; try done. unfold accepted. rewrite omap_app. cbn. by rewrite app_nil_r.
Qed.

Lemma stuck_step q l m m' : stuck q m -> no_take l = true -> tp_step m l = Ok m' ->
  stuck q m' /\ accepted (returned m') = accepted (returned m) /\ forall t c, inside m t c -> inside m' t c.
Proof.
  intros Hs Hl. destruct l as [t c pick|i pick|i]; cbn.
  - intros E. destruct (stuck_segment q t c pick m m' Hs ltac:(by destruct c) E) as (? & ? & Hin & _).
    split_and!; [done|done|]. intros t' c' (w & Hw & ?). exists w. auto.
  - destruct (woken m !! i) as [w|] eqn:Hi; [|by intros [= <-]]. destruct Hs as (Hq & Hf & Hall).
    assert (exists x, w_call w = Run x) as [x Hx].
    { rewrite Forall_forall in Hall. apply Hall, elem_of_app. right. by eapply list_elem_of_lookup_2. }
    set (m1 := mkMonitor (data m) (waiting m) (delete i (woken m)) (returned m)).
    assert (waiting m ++ woken m ≡ₚ w :: waiting m1 ++ woken m1) as Hp.
    { cbn. rewrite (delete_Permutation _ _ _ Hi) at 1. solve_Permutation. }
    intros E. destruct (stuck_segment q (w_tid w) (w_call w) pick m1 m') as (? & ? & Hin & Hrun); [|congruence|done|].
    { split_and!; [done|done|]. rewrite Hp in Hall. by inversion Hall. }
    split_and!; [done|done|]. intros t c (w' & Hw & <- & <-). rewrite Hp, elem_of_cons in Hw.
    destruct Hw as [->|Hw]; [by eapply Hrun|]. exists w'. auto.
  - destruct (waiting m !! i) as [w|] eqn:Hi; intros [= <-]; [|done].
    assert (delete i (waiting m) ++ woken m ++ [w] ≡ₚ waiting m ++ woken m) as Hp.
    { rewrite (delete_Permutation _ _ _ Hi) at 2. solve_Permutation. }
    destruct Hs as (Hq & Hf & Hall). unfold stuck, inside. cbn. split_and!; try done.
    + by rewrite Hp.
    + intros t c (w' & Hw & ?). exists w'. by rewrite Hp.
Qed.

(** Stop() wakes the workers but not the callers of run() that wait for
    room: once the workers are gone and the queue is full, whatever happens
    except another [take], a thread inside run() stays inside it for ever. *)
Lemma stop_strands_producers (m : tp_monitor) (ls : list (mstep (Call := tp_call))) (m' : tp_monitor) (t x : Z) :
  isFull (data m) = true -> Forall (fun w => exists y, w_call w = Run y) (waiting m ++ woken m) ->
  inside m t (Run x) -> forallb no_take ls = true -> foldM tp_step m ls = Ok m' ->
  inside m' t (Run x) /\ accepted (returned m') = accepted (returned m) /\ tp_queue (data m') = tp_queue (data m).
Proof.
  intros Hf Hall. assert (stuck (tp_queue (data m)) m) as Hs by done. clear Hf Hall.
  set (q := tp_queue (data m)) in *. clearbody q. revert m Hs.
  induction ls as [|l ls IH]; intros m Hs Hin Hn; cbn [foldM].
  - intros [= <-]. split_and!; [done|done|apply Hs].
  - cbn in Hn. apply andb_true_iff in Hn as [Hl Hls].
    destruct (tp_step m l) as [m1|] eqn:E; cbn; [|done]. intros E'.
    destruct (stuck_step q l m m1 Hs Hl E) as (Hs1 & Ha & Hin1).
    destruct (IH m1 Hs1 (Hin1 _ _ Hin) Hls E') as (? & ? & ?). split_and!; congruence || done.
Qed.

(** ** Examples *)

(** A worker waits, two tasks are queued, it takes both, and the pool stops. *)
Definition demo_pool_run : list (cstep (Call := tp_call)) :=
  let turn t c := CCall t c :: replicate 8 (CRun t 0) in
  turn 1 TakeTask ++ turn 9 (Run 5) ++ turn 9 (Run 6) ++ replicate 8 (CRun 1 0) ++ turn 1 TakeTask ++ turn 1 TakeTask ++ turn 9 Stop ++ replicate 8 (CRun 1 0).

Lemma thread_pool_correct_witness :
  exists s, foldM (sys_step tp_attempt) (sys_init (mkTP [] 2 true)) demo_pool_run = Ok s /\
    accepted (returned (mon s)) = taken (returned (mon s)) ++ tp_queue (data (mon s)) /\ taken (returned (mon s)) = [5; 6] /\
    running_ (data (mon s)) = false.
Proof.
  destruct (thread_pool_correct 2 demo_pool_run ltac:(lia)) as (s & E & H & _).
  exists s. split; [exact E|]. split; [exact H|]. vm_compute in E. injection E as <-. split; reflexivity.
Defined.

(** One worker is busy, the queue has room for one task, two producers call
    run() and stop() follows. *)
Definition demo_stranded : tp_monitor :=
  match foldM tp_step (monitor_init (mkTP [] 1 true)) [MCall 1 (Run 5) 0; MCall 2 (Run 6) 0; MCall 9 Stop 0] with
  | Ok m => m
  | Fail _ => monitor_init (mkTP [] 1 true)
  end.

Lemma stop_strands_producers_witness :
  exists m', foldM tp_step demo_stranded [MSpurious 0; MResume 0 0; MCall 3 QueueSize 0] = Ok m' /\ inside m' 2 (Run 6).
Proof.
  destruct (foldM tp_step demo_stranded [MSpurious 0; MResume 0 0; MCall 3 QueueSize 0]) as [m'|] eqn:E;
    [|vm_compute in E; discriminate].
  exists m'. split; [reflexivity|].
  apply (stop_strands_producers demo_stranded [MSpurious 0; MResume 0 0; MCall 3 QueueSize 0] m' 2 6).
  - reflexivity.
  - apply Forall_singleton. exists 6. reflexivity.
  - exists (mkWaiter 2 notFull_ (Run 6)). split; [|split; reflexivity]. vm_compute. left.
  - reflexivity.
  - exact E.
Defined.
