(* ===== verification/LogStream.v ===== *)
(** * LogStream: src/mynetlib/base/LogStream.h, LogStream.cc

    A fixed array the logger's text is collected in, and the conversion of
    integers and pointers to text. Writing past the array is a fault. The
    text snprintf makes of a [double] is an argument. *)

From S2P Require Import Prelude Format.

(** ** Integers to text *)

Definition digits : list byte := str "9876543210123456789".
Definition digitsHex : list byte := str "0123456789ABCDEF".

(** [zero[lsd]], where [zero] points to the middle of [digits]. *)
Definition zero_at (lsd : Z) : outcome byte :=
  if (0 <=? lsd + 9) && (lsd + 9 <? 19)
  then match digits !! Z.to_nat (lsd + 9) with Some c => Ok c | None => Fail OutOfBounds end
  else Fail OutOfBounds.

Definition hex_at (lsd : Z) : outcome byte :=
  if 0 <=? lsd
  then match digitsHex !! Z.to_nat lsd with Some c => Ok c | None => Fail OutOfBounds end
  else Fail OutOfBounds.

(** The [do ... while (i != 0)] loop of [convert]; [None] when the fuel is
    used up. [Z.rem] and [Z.quot] are the operators of C. *)
Fixpoint convert_loop (fuel : nat) (i : Z) : outcome (option (list byte)) :=
  match fuel with
  | O => Ok None
  | S f =>
      c ← zero_at (Z.rem i 10);
      let i' := Z.quot i 10 in
      if i' =? 0 then Ok (Some [c])
      else r ← convert_loop f i'; Ok (option_map (cons c) r)
  end.

(** A 64-bit integer has at most twenty digits. *)
Definition convert_fuel : nat := 20.

(** The characters [convert] leaves in [buf], without the terminator. *)
Definition convert (value : Z) : outcome (option (list byte)) :=
  r ← convert_loop convert_fuel value;
  Ok (option_map (fun p => rev (if value <? 0 then p ++ [Byte.x2d] else p)) r).

Fixpoint convertHex_loop (fuel : nat) (i : Z) : outcome (option (list byte)) :=
  match fuel with
  | O => Ok None
  | S f =>
      c ← hex_at (i mod 16);
      let i' := i / 16 in
      if i' =? 0 then Ok (Some [c])
      else r ← convertHex_loop f i'; Ok (option_map (cons c) r)
  end.

Definition convertHex (value : Z) : outcome (option (list byte)) :=
  r ← convertHex_loop 16 value; Ok (option_map (@rev byte) r).

(** ** FixedBuffer *)

Definition kSmallBuffer : Z := 4000.
Definition kLargeBuffer : Z := 4000 * 1000.

(** [data_] has [SIZE] bytes; [cur_] is an offset. *)
Record FixedBuffer : Type := mkFixed { data_ : list byte; cur_ : Z }.

Definition FixedBuffer_ctor (mem : list byte) : FixedBuffer := mkFixed mem 0.

Definition fixed_length (b : FixedBuffer) : Z := s32 (cur_ b).
Definition avail (b : FixedBuffer) : Z := s32 (zlen (data_ b) - cur_ b).
Definition fixed_add (len : Z) (b : FixedBuffer) : FixedBuffer := mkFixed (data_ b) (cur_ b + len).
Definition fixed_reset (b : FixedBuffer) : FixedBuffer := mkFixed (data_ b) 0.
Definition fixed_bzero (b : FixedBuffer) : FixedBuffer := mkFixed (replicate (length (data_ b)) Byte.x00) (cur_ b).
Definition fixed_toString (b : FixedBuffer) : list byte := slice (data_ b) 0 (fixed_length b).

(** Bytes written at [cur_ + off]. *)
Definition poke_cur (off : Z) (bytes : list byte) (b : FixedBuffer) : outcome FixedBuffer :=
  mem ← copy_into (data_ b) (cur_ b + off) bytes; Ok (mkFixed mem (cur_ b)).

Definition fixed_append (buf : list byte) (b : FixedBuffer) : outcome FixedBuffer :=
  if zlen buf <? u64 (avail b) then
    b' ← poke_cur 0 buf b; Ok (fixed_add (zlen buf) b')
  else Ok b.

(** ** LogStream *)

Definition kMaxNumericSize : Z := 32.

(** What is inserted with [operator<<]. A [short] goes through [int], a
    [float] through [double]; [PDouble txt] is a double printed as [txt]. *)
Inductive piece : Type :=
| PBool (v : bool)
| PInteger (v : Z)
| PPointer (v : Z)
| PDouble (txt : list byte)
| PChar (c : byte)
| PString (s : list byte)
| PNull.

(** A conversion that needs more than its fuel has no result. *)
Definition the_text (r : outcome (option (list byte))) : outcome (list byte) :=
  o ← r; match o with Some t => Ok t | None => Fail Fatal end.

Definition formatInteger (v : Z) (b : FixedBuffer) : outcome FixedBuffer :=
  if kMaxNumericSize <=? avail b then
    t ← the_text (convert v);
    b' ← poke_cur 0 (t ++ [Byte.x00]) b;
    Ok (fixed_add (zlen t) b')
  else Ok b.

Definition insert_pointer (v : Z) (b : FixedBuffer) : outcome FixedBuffer :=
  if kMaxNumericSize <=? avail b then
    b1 ← poke_cur 0 (str "0x") b;
    t ← the_text (convertHex v);
    b2 ← poke_cur 2 (t ++ [Byte.x00]) b1;
    Ok (fixed_add (zlen t + 2) b2)
  else Ok b.

Definition insert_double (txt : list byte) (b : FixedBuffer) : outcome FixedBuffer :=
  if kMaxNumericSize <=? avail b then
    b1 ← poke_cur 0 (snprintf kMaxNumericSize txt ++ [Byte.x00]) b;
    Ok (fixed_add (zlen txt) b1)
  else Ok b.

Definition insert_cstring (s : option (list byte)) (b : FixedBuffer) : outcome FixedBuffer :=
  match s with
  | Some t => fixed_append t b
  | None => fixed_append (str "(null)") b
  end.

Definition insert_piece (b : FixedBuffer) (p : piece) : outcome FixedBuffer :=
  match p with
  | PBool v => fixed_append (str (if v then "1" else "0")) b
  | PInteger v => formatInteger v b
  | PPointer v => insert_pointer v b
  | PDouble txt => insert_double txt b
  | PChar c => fixed_append [c] b
  | PString s => insert_cstring (Some s) b
  | PNull => insert_cstring None b
  end.

(** [Fmt(fmt, val)] of a text: 31 characters at most. *)
Definition Fmt_ctor (txt : list byte) : outcome (list byte) :=
  c_assert (zlen txt <? 32);; Ok (snprintf 32 txt).

(** ** Conversions are printf's *)

Lemma digits_rev_fuel f : forall g n, 0 <= n -> n < 10 ^ Z.of_nat f -> n < 10 ^ Z.of_nat g ->
  (0 < f)%nat -> (0 < g)%nat -> digits_rev f n = digits_rev g n.
Proof.
  induction f as [|f IH]; intros [|g] n Hn Hf Hg Pf Pg; [lia..|]. cbn. f_equal. zcases; [done|].
  rewrite Nat2Z.inj_succ, Z.pow_succ_r in Hf, Hg by lia.
  assert (n / 10 < 10 ^ Z.of_nat f) by (apply Z.div_lt_upper_bound; lia).
  assert (n / 10 < 10 ^ Z.of_nat g) by (apply Z.div_lt_upper_bound; lia).
  pose proof (Z.div_le_lower_bound n 10 1 ltac:(lia) ltac:(lia)).
  apply IH; try lia; [destruct f|destruct g]; cbn in *; lia.
Qed.

Lemma zero_at_ok d : -9 <= d <= 9 -> zero_at d = Ok (digit_byte (Z.abs d)).
Proof.
  intros Hd. assert (d ∈ Z.of_nat <$> seq 0 10 \/ - d ∈ Z.of_nat <$> seq 0 10) as [H|H].
  { destruct (Z.le_ge_cases 0 d); [left|right]; apply list_elem_of_fmap;
      [exists (Z.to_nat d)|exists (Z.to_nat (- d))]; (split; [lia|apply elem_of_seq; lia]). }
  - repeat (apply elem_of_cons in H as [->|H]; [reflexivity|]). by apply not_elem_of_nil in H.
  - remember (- d) as e eqn:He. assert (d = - e) as -> by lia. clear He Hd.
    repeat (apply elem_of_cons in H as [->|H]; [reflexivity|]). by apply not_elem_of_nil in H.
Qed.

Lemma quot_abs i : Z.abs (Z.quot i 10) = Z.abs i / 10.
Proof. rewrite <- Z.quot_abs, Z.quot_div_nonneg by lia. done. Qed.

Lemma rem_abs i : Z.abs (Z.rem i 10) = Z.abs i mod 10.
Proof. rewrite <- Z.rem_abs, Z.rem_mod_nonneg by lia. done. Qed.

Lemma convert_loop_ok f : forall i, Z.abs i < 10 ^ Z.of_nat f -> (0 < f)%nat ->
  convert_loop f i = Ok (Some (digits_rev f (Z.abs i))).
Proof.
  induction f as [|f IH]; intros i Hi Hf; [lia|]. cbn [convert_loop digits_rev].
  pose proof (Z.mod_pos_bound (Z.abs i) 10 ltac:(lia)) as Hm. rewrite <- rem_abs in Hm.
  rewrite zero_at_ok, rem_abs by lia. cbn [mbind outcome_bind].
  pose proof (quot_abs i) as Hq.
  destruct (Z.eqb_spec (Z.quot i 10) 0) as [E|E].
  - rewrite E in Hq. assert (Z.abs i < 10) by (pose proof (Z.div_mod (Z.abs i) 10); pose proof (Z.mod_pos_bound (Z.abs i) 10); lia).
    by destruct (Z.ltb_spec (Z.abs i) 10); [|lia].
  - assert (10 <= Z.abs i) by (destruct (Z.le_gt_cases 10 (Z.abs i)); [done|]; rewrite Z.div_small in Hq; lia).
    destruct (Z.ltb_spec (Z.abs i) 10); [lia|].
    rewrite Nat2Z.inj_succ, Z.pow_succ_r in Hi by lia.
    rewrite IH.
    + cbn. by rewrite Hq.
    + rewrite Hq. apply Z.div_lt_upper_bound; lia.
    + destruct f; [cbn in Hi; lia|lia].
Qed.

(** [convert] is [%d], for every 64-bit integer, the smallest included. *)
Lemma convert_is_fmt_d v : - 2 ^ 63 <= v < 2 ^ 64 -> convert v = Ok (Some (fmt_d v)).
Proof.
  intros Hv. unfold convert. rewrite convert_loop_ok by (unfold convert_fuel; cbn; lia).
  cbn [mbind outcome_bind option_map].
  assert (digits_rev convert_fuel (Z.abs v) = rev (fmt_u (Z.abs v))) as Hd.
  { unfold fmt_u. rewrite rev_involutive. apply digits_rev_fuel; try (unfold convert_fuel, dec_fuel; cbn; lia).
    apply log2_digits. lia. }
  rewrite Hd. unfold fmt_d. zcases.
  - rewrite Z.abs_neq, rev_app_distr, rev_involutive by lia. done.
  - rewrite Z.abs_eq, rev_involutive by lia. done.
Qed.

(** Upper-case hexadecimal, as a reference. *)
Definition hex_byte (d : Z) : byte := if d <? 10 then digit_byte d else byte_of_Z (55 + d).

Fixpoint hex_rev (fuel : nat) (n : Z) : list byte :=
  match fuel with
  | O => []
  | S f => hex_byte (n mod 16) :: (if n <? 16 then [] else hex_rev f (n / 16))
  end.

Definition fmt_X (n : Z) : list byte := rev (hex_rev 16 n).

Definition hex_value (c : byte) : Z := if byte_to_Z c <? 58 then byte_to_Z c - 48 else byte_to_Z c - 55.

Definition parse_X (s : list byte) : Z := foldl (fun acc c => 16 * acc + hex_value c) 0 s.

Lemma nibble_cases (Q : Z -> Prop) d : 0 <= d < 16 -> Forall Q (Z.of_nat <$> seq 0 16) -> Q d.
Proof.
  intros Hd. rewrite Forall_forall. intros H. apply H, list_elem_of_fmap.
  exists (Z.to_nat d). split; [lia|]. apply elem_of_seq. lia.
Qed.

Lemma hex_at_ok d : 0 <= d < 16 -> hex_at d = Ok (hex_byte d).
Proof. intros Hd. pattern d. apply nibble_cases; [done|]. repeat constructor. Qed.

Lemma hex_value_byte d : 0 <= d < 16 -> hex_value (hex_byte d) = d.
Proof. intros Hd. pattern d. apply nibble_cases; [done|]. repeat constructor. Qed.

Lemma hex_rev_parse f : forall n, 0 <= n < 16 ^ Z.of_nat f -> parse_X (rev (hex_rev f n)) = n.
Proof.
  induction f as [|f IH]; intros n Hn; [cbn in *; lia|]. cbn [hex_rev rev].
  pose proof (Z.mod_pos_bound n 16 ltac:(lia)). pose proof (Z.div_mod n 16).
  unfold parse_X. rewrite foldl_app. cbn. rewrite hex_value_byte by done. fold (parse_X (rev (if n <? 16 then [] else hex_rev f (n / 16)))).
  zcases.
  - cbn. rewrite Z.mod_small by lia. lia.
  - rewrite Nat2Z.inj_succ, Z.pow_succ_r in Hn by lia.
    rewrite IH; [lia|]. split; [apply Z.div_pos; lia|apply Z.div_lt_upper_bound; lia].
Qed.

(** The text of a pointer can be read back. *)
Lemma fmt_X_parse n : 0 <= n < 2 ^ 64 -> parse_X (fmt_X n) = n.
Proof. intros. apply hex_rev_parse. cbn. lia. Qed.

Lemma hex_rev_length f : forall n, (length (hex_rev f n) <= f)%nat.
Proof. induction f as [|f IH]; intros n; cbn; [lia|]. destruct (n <? 16); cbn; [lia|]. specialize (IH (n / 16)). lia. Qed.

Lemma convertHex_loop_ok f : forall i, 0 <= i < 16 ^ Z.of_nat f -> (0 < f)%nat ->
  convertHex_loop f i = Ok (Some (hex_rev f i)).
Proof.
  induction f as [|f IH]; intros i Hi Hf; [lia|]. cbn [convertHex_loop hex_rev].
  pose proof (Z.mod_pos_bound i 16 ltac:(lia)). pose proof (Z.div_mod i 16).
  rewrite hex_at_ok by done. cbn [mbind outcome_bind].
  destruct (Z.eqb_spec (i / 16) 0) as [E|E].
  - by destruct (Z.ltb_spec i 16); [|lia].
  - assert (0 <= i / 16) by (apply Z.div_pos; lia). destruct (Z.ltb_spec i 16); [lia|].
    rewrite Nat2Z.inj_succ, Z.pow_succ_r in Hi by lia.
    rewrite IH; [done|split; [done|apply Z.div_lt_upper_bound; lia]|]. destruct f; [cbn in Hi; lia|lia].
Qed.

Lemma convertHex_is_fmt_X v : 0 <= v < 2 ^ 64 -> convertHex v = Ok (Some (fmt_X v)).
Proof.
  intros Hv. unfold convertHex. rewrite convertHex_loop_ok by (cbn; lia).
  cbn [mbind outcome_bind option_map]. done.
Qed.

(** ** The buffer *)

Record fixed_inv (size : Z) (b : FixedBuffer) : Prop := mkFixedInv {
  fi_size : zlen (data_ b) = size;
  fi_int : size < 2 ^ 31;
  fi_cur : 0 <= cur_ b < size;
}.

Lemma avail_eq size b : fixed_inv size b -> avail b = size - cur_ b /\ fixed_length b = cur_ b.
Proof. intros [Hs Hi Hc]. unfold avail, fixed_length. rewrite !s32_small by lia. lia. Qed.

(** [t] is written at [cur_], perhaps with a terminator behind it. *)
Lemma poke_add size b t z : fixed_inv size b -> zlen t + zlen z <= size - cur_ b -> zlen t < size - cur_ b ->
  exists b', poke_cur 0 (t ++ z) b = Ok b' /\ fixed_inv size (fixed_add (zlen t) b') /\
    fixed_toString (fixed_add (zlen t) b') = fixed_toString b ++ t.
Proof.
  intros Hi Hfit Hroom. pose proof Hi as [Hs Hint Hc]. pose proof (zlen_nonneg t). pose proof (zlen_nonneg z).
  unfold poke_cur. rewrite Z.add_0_r, copy_into_ok by (rewrite ?zlen_app; lia).
  set (mem := _ ++ _ ++ _).
  assert (copy_into (data_ b) (cur_ b) (t ++ z) = Ok mem) as E by (apply copy_into_ok; rewrite ?zlen_app; lia).
  cbn [mbind outcome_bind]. eexists. split; [done|].
  assert (fixed_inv size (fixed_add (zlen t) (mkFixed mem (cur_ b)))) as Hi'.
  { split; cbn; [by rewrite (zlen_copy_into _ _ _ _ E)|done|lia]. }
  split; [done|]. unfold fixed_toString.
  rewrite (proj2 (avail_eq size _ Hi')), (proj2 (avail_eq size _ Hi)). cbn.
  rewrite (slice_split mem 0 (cur_ b)), (slice_copy_before _ _ _ _ 0 (cur_ b) E) by lia. f_equal.
  pose proof (slice_copy_into _ _ _ _ E) as Hsl. rewrite zlen_app in Hsl.
  rewrite (slice_take mem (cur_ b) (cur_ b + (zlen t + zlen z)) (zlen t)), Hsl by lia.
  apply take_app_length'. unfold zlen. lia.
Qed.

Lemma fixed_append_ok size b t : fixed_inv size b ->
  exists b', fixed_append t b = Ok b' /\ fixed_inv size b' /\
    fixed_toString b' = fixed_toString b ++ (if zlen t <? size - zlen (fixed_toString b) then t else []).
Proof.
  intros Hi. destruct (avail_eq size b Hi) as [Ha Hl]. pose proof Hi as [Hs Hint Hc].
  assert (zlen (fixed_toString b) = cur_ b) as Hlen.
  { unfold fixed_toString. rewrite Hl, zlen_slice; lia. }
  unfold fixed_append. rewrite Ha, u64_small, Hlen by lia. zcases; [|exists b; by rewrite app_nil_r].
  destruct (poke_add size b t [] Hi) as (b' & E & Hi' & Ht); [rewrite zlen_nil; lia|lia|].
  rewrite app_nil_r in E. rewrite E. cbn. eauto.
Qed.

(** ** The stream *)

Definition piece_ok (p : piece) : Prop :=
  match p with
  | PInteger v => - 2 ^ 63 <= v < 2 ^ 64
  | PPointer v => 0 <= v < 2 ^ 64
  | PDouble txt => zlen txt < kMaxNumericSize
  | _ => True
  end.

Definition piece_text (p : piece) : list byte :=
  match p with
  | PBool v => str (if v then "1" else "0")
  | PInteger v => fmt_d v
  | PPointer v => str "0x" ++ fmt_X v
  | PDouble txt => txt
  | PChar c => [c]
  | PString s => s
  | PNull => str "(null)"
  end.

(** Numbers want 32 free bytes; text has to fit with one byte to spare. *)
Definition piece_fits (room : Z) (p : piece) : bool :=
  match p with
  | PInteger _ | PPointer _ | PDouble _ => kMaxNumericSize <=? room
  | _ => zlen (piece_text p) <? room
  end.

(** The reference: each piece is added whole or left out. *)
Definition render_one (size : Z) (acc : list byte) (p : piece) : list byte :=
  if piece_fits (size - zlen acc) p then acc ++ piece_text p else acc.

Lemma fmt_d_length v : - 2 ^ 63 <= v < 2 ^ 64 -> zlen (fmt_d v) <= 20.
Proof.
  intros Hv. unfold fmt_d, zlen. zcases; cbn [length].
  - pose proof (fmt_u_length (- v) 19 ltac:(lia) ltac:(lia)). lia.
  - pose proof (fmt_u_length v 20 ltac:(lia) ltac:(lia)). lia.
Qed.

Lemma poke_cur_cur off u b b' : poke_cur off u b = Ok b' -> cur_ b' = cur_ b.
Proof. unfold poke_cur. destruct (copy_into _ _ _); cbn; [|done]. by intros [= <-]. Qed.

Lemma poke_cur_shift off u b :
  poke_cur off u b = (b' ← poke_cur 0 u (fixed_add off b); Ok (mkFixed (data_ b') (cur_ b))).
Proof. unfold poke_cur. cbn. rewrite Z.add_0_r. by destruct (copy_into _ _ _). Qed.

Lemma insert_piece_ok size b p : fixed_inv size b -> piece_ok p ->
  exists b', insert_piece b p = Ok b' /\ fixed_inv size b' /\
    fixed_toString b' = render_one size (fixed_toString b) p.
Proof.
  intros Hi Hp. destruct (avail_eq size b Hi) as [Ha Hl]. pose proof Hi as [Hs Hint Hc].
  assert (zlen (fixed_toString b) = cur_ b) as Hlen by (unfold fixed_toString; rewrite Hl, zlen_slice; lia).
  assert (forall t, exists b', fixed_append t b = Ok b' /\ fixed_inv size b' /\
    fixed_toString b' = if zlen t <? size - zlen (fixed_toString b) then fixed_toString b ++ t else fixed_toString b) as Happ.
  { intros t. destruct (fixed_append_ok size b t Hi) as (b' & ? & ? & E). exists b'. split_and!; [done|done|].
    rewrite E. destruct (_ <? _); [done|by rewrite app_nil_r]. }
  unfold render_one. destruct p; cbn [insert_piece piece_fits piece_text piece_ok] in *; try apply Happ; rewrite Hlen.
  - unfold formatInteger. rewrite Ha, convert_is_fmt_d by done. cbn [the_text mbind outcome_bind].
    zcases; [|by exists b]. pose proof (fmt_d_length v Hp). unfold kMaxNumericSize in *.
    destruct (poke_add size b (fmt_d v) [Byte.x00] Hi) as (b' & E & ? & ?); [rewrite zlen_singleton; lia|lia|].
    rewrite E. cbn. eauto.
  - unfold insert_pointer. rewrite Ha, convertHex_is_fmt_X by done. cbn [the_text mbind outcome_bind].
    zcases; [|by exists b]. unfold kMaxNumericSize in *.
    pose proof (hex_rev_length 16 v) as Hx. assert (zlen (fmt_X v) <= 16) by (unfold fmt_X, zlen; rewrite length_rev; lia).
    destruct (poke_add size b (str "0x") [] Hi) as (b1 & E1 & Hi1 & Ht1);
      [change (zlen (str "0x")) with 2; rewrite ?zlen_nil; lia..|]. rewrite app_nil_r in E1.
    change (zlen (str "0x")) with 2 in *.
    assert (cur_ b1 = cur_ b) as Hc1 by (by apply poke_cur_cur in E1).
    destruct (poke_add size (fixed_add 2 b1) (fmt_X v) [Byte.x00] Hi1) as (b2 & E2 & Hi2 & Ht2);
      [rewrite zlen_singleton; unfold fixed_add; cbn [cur_]; lia|unfold fixed_add; cbn [cur_]; lia|].
    rewrite E1. cbn [mbind outcome_bind]. rewrite (poke_cur_shift 2), E2. cbn [mbind outcome_bind].
    apply poke_cur_cur in E2 as Hc2. cbn in Hc2. eexists. split; [done|].
    replace (fixed_add (zlen (fmt_X v) + 2) (mkFixed (data_ b2) (cur_ b1))) with (fixed_add (zlen (fmt_X v)) b2).
    2: { unfold fixed_add. cbn. rewrite Hc2. f_equal. lia. }
    split; [done|]. by rewrite Ht2, Ht1, app_assoc.
  - unfold insert_double. rewrite Ha. zcases; [|by exists b]. unfold kMaxNumericSize in *.
    assert (snprintf 32 txt = txt) as -> by (unfold snprintf; apply take_ge; unfold zlen in Hp; lia).
    destruct (poke_add size b txt [Byte.x00] Hi) as (b' & E & ? & ?); [rewrite zlen_singleton; lia|lia|].
    rewrite E. cbn. eauto.
Qed.

(** Any number of pieces. *)
Lemma insert_pieces_ok size ps : forall b, fixed_inv size b -> Forall piece_ok ps ->
  exists b', foldM insert_piece b ps = Ok b' /\ fixed_inv size b' /\
    fixed_toString b' = foldl (render_one size) (fixed_toString b) ps.
Proof.
  induction ps as [|p ps IH]; intros b Hi Hps; cbn [foldM foldl]; [by exists b|].
  apply Forall_cons in Hps as [Hp Hps].
  destruct (insert_piece_ok size b p Hi Hp) as (b1 & -> & Hi1 & <-). cbn. by apply IH.
Qed.

Lemma fixed_text_room size b : fixed_inv size b -> zlen (fixed_toString b) < size.
Proof.
  intros Hi. unfold fixed_toString. destruct (avail_eq size b Hi) as [_ ->]. destruct Hi. rewrite zlen_slice; lia.
Qed.

(** When there is room for all of them, nothing is left out. *)
Lemma render_all size ps : forall acc, Forall piece_ok ps ->
  zlen acc + zlen (ps ≫= piece_text) + kMaxNumericSize <= size ->
  foldl (render_one size) acc ps = acc ++ (ps ≫= piece_text).
Proof.
  induction ps as [|p ps IH]; intros acc Hps Hroom; [by rewrite app_nil_r|].
  apply Forall_cons in Hps as [Hp Hps]. change ((p :: ps) ≫= piece_text) with (piece_text p ++ (ps ≫= piece_text)) in *.
  rewrite zlen_app in Hroom. cbn [foldl].
  pose proof (zlen_nonneg (piece_text p)). pose proof (zlen_nonneg (ps ≫= piece_text)). unfold kMaxNumericSize in *.
  assert (render_one size acc p = acc ++ piece_text p) as ->.
  { unfold render_one. replace (piece_fits _ p) with true; [done|]. symmetry.
    destruct p; cbn [piece_fits piece_text] in *; unfold kMaxNumericSize; (apply Z.leb_le || apply Z.ltb_lt); lia. }
  rewrite IH; [by rewrite app_assoc|done|rewrite zlen_app; lia].
Qed.

(** C23: Whatever is inserted into a LogStream, nothing is written outside its
    4000 bytes, and the text is exactly that of the pieces in order, each
    added whole or, when it does not fit, left out whole: integers as printf
    prints them, the smallest 64-bit one included, pointers in hexadecimal.
    There is always room for a terminator. *)
Theorem log_stream_exact (mem : list byte) (ps : list piece) :
  zlen mem = kSmallBuffer -> Forall piece_ok ps ->
  exists b, foldM insert_piece (FixedBuffer_ctor mem) ps = Ok b /\
    fixed_toString b = foldl (render_one kSmallBuffer) [] ps /\ zlen (fixed_toString b) < kSmallBuffer.
Proof.
  intros Hm Hps. unfold kSmallBuffer in *.
  destruct (insert_pieces_ok 4000 ps (FixedBuffer_ctor mem)) as (b & E & Hi & Ht); [split; cbn; lia|done|].
  exists b. split_and!; [done|by rewrite Ht|by apply fixed_text_room].
Qed.

Lemma log_stream_exact_witness :
  exists b, foldM insert_piece (FixedBuffer_ctor (replicate 4000 Byte.xff))
      [PString (str "fd="); PInteger (-9223372036854775808); PChar Byte.x20; PPointer 48879; PNull; PBool true] = Ok b /\
    fixed_toString b = str "fd=-9223372036854775808 0xBEEF(null)1".
Proof.
  destruct (log_stream_exact (replicate 4000 Byte.xff)
    [PString (str "fd="); PInteger (-9223372036854775808); PChar Byte.x20; PPointer 48879; PNull; PBool true]
    ltac:(reflexivity) ltac:(repeat constructor; vm_compute; discriminate || reflexivity)) as (b & E & H & _).
  exists b. split; [exact E|]. rewrite H. vm_compute. reflexivity.
Defined.
