(* ===== verification/TimeZone.v ===== *)
(** * Time zones: src/mynetlib/base/TimeZone.h, TimeZone.cc

    Zone data read from a TZif file or given as a fixed offset, and the
    conversions between seconds since the epoch and calendar time. [time_t]
    is a 64-bit [Z]. A zone file is its contents, or [None] when it cannot be
    opened. Indexing a vector or a string out of range is a fault. *)

From S2P Require Import Prelude Endian Format Timestamp Date.

(** ** Data *)

Record Transition : Set := mkTransition { gmttime : Z; localtime : Z; localtimeIdx : Z }.

(** [Comp]: [compareGmt] selects the field. *)
Definition comp_key (compareGmt : bool) (t : Transition) : Z := if compareGmt then gmttime t else localtime t.
Definition comp_less (compareGmt : bool) (lhs rhs : Transition) : bool :=
  comp_key compareGmt lhs <? comp_key compareGmt rhs.
Definition comp_equal (compareGmt : bool) (lhs rhs : Transition) : bool :=
  comp_key compareGmt lhs =? comp_key compareGmt rhs.

Record Localtime : Set := mkLocaltime { gmtOffset : Z; isDst : bool; arrbIdx : Z }.

(** The field [names] is never used. *)
Record Data : Type := mkData {
  transitions : list Transition;
  localtimes : list Localtime;
  abbreviation : list byte;
}.

Definition kSecondsPerDay : Z := 24 * 60 * 60.

(** [v[i]] *)
Definition vec_at {A} (v : list A) (i : Z) : outcome A :=
  if 0 <=? i then match v !! Z.to_nat i with Some x => Ok x | None => Fail OutOfBounds end
  else Fail OutOfBounds.

(** ** The C library's conversions *)

(** The calendar fields of an instant: the proleptic Gregorian calendar, as
    [Date.ymd_of] and [Date.jdn_of] give it without wrapping. *)
Definition gm_fields (t : Z) : tm :=
  let days := t / kSecondsPerDay + 2440588 in
  let secs := t mod kSecondsPerDay in
  let ymd := ymd_of days in
  mkTm (year ymd - 1900) (month ymd - 1) (day ymd) (secs / 3600) (secs / 60 mod 60) (secs mod 60)
    ((days + 1) mod 7) (days - jdn_of (year ymd) 1 1) 0 0 (str "GMT").

(** [gmtime_r] fails with EOVERFLOW when the year does not fit into [int]. *)
Definition gmtime_r (t : Z) : option tm :=
  let x := gm_fields t in
  if (- 2 ^ 31 <=? tm_year x) && (tm_year x <? 2 ^ 31) then Some x else None.

(** The callers do not look at the result; what the struct holds after a
    failure is not specified. *)
Definition gmtime_unchecked (t : Z) : outcome tm :=
  match gmtime_r t with Some x => Ok x | None => Fail Unspecified end.

(** [timegm] ignores [tm_wday], [tm_yday], [tm_isdst] and [tm_gmtoff], and
    carries a month out of range over to the year. *)
Definition timegm (x : tm) : Z :=
  let y := tm_year x + 1900 + tm_mon x / 12 in
  let m := tm_mon x mod 12 + 1 in
  (jdn_of y m 1 + (tm_mday x - 1) - 2440588) * kSecondsPerDay +
  tm_hour x * 3600 + tm_min x * 60 + tm_sec x.

(** ** Reading a zone file

    A reader takes the rest of the file and the data filled in so far; it may
    throw [logic_error] (no value), which leaves the data as they are. *)

Definition reader (A : Type) : Type := list byte * Data -> outcome (option A * (list byte * Data)).

Definition r_ret {A} (a : A) : reader A := fun s => Ok (Some a, s).
Definition r_throw {A} : reader A := fun s => Ok (None, s).
Definition r_bind {A B} (m : reader A) (k : A -> reader B) : reader B := fun s =>
  '(r, s') ← m s;
  match r with
  | Some a => k a s'
  | None => Ok (None, s')
  end.

Declare Scope reader_scope.
Delimit Scope reader_scope with reader.
Notation "x <- m ; k" := (r_bind m (fun x => k)) (at level 100, m at next level, right associativity) : reader_scope.

Section Reader.

Local Open Scope reader_scope.

(** The array [char buf[n]] of a negative size is undefined. *)
Definition readBytes (n : Z) : reader (list byte) := fun '(f, d) =>
  if n <? 0 then Fail OutOfBounds
  else if zlen f <? n then Ok (None, ([], d))
  else Ok (Some (take (Z.to_nat n) f), (drop (Z.to_nat n) f, d)).

Definition readInt32 : reader Z :=
  b <- readBytes 4; r_ret (s32 (networkToHost32 (le_value b))).

Definition readUInt8 : reader Z :=
  b <- readBytes 1; r_ret (le_value b).

Fixpoint read_times {A} (n : nat) (m : reader A) : reader (list A) :=
  match n with
  | O => r_ret []
  | S n' => a <- m; l <- read_times n' m; r_ret (a :: l)
  end.

Definition push_localtime (l : Localtime) : reader unit := fun '(f, d) =>
  Ok (Some tt, (f, mkData (transitions d) (localtimes d ++ [l]) (abbreviation d))).

Definition push_transition (t : Transition) : reader unit := fun '(f, d) =>
  Ok (Some tt, (f, mkData (transitions d ++ [t]) (localtimes d) (abbreviation d))).

Definition set_abbreviation (a : list byte) : reader unit := fun '(f, d) =>
  Ok (Some tt, (f, mkData (transitions d) (localtimes d) a)).

(** [data->localtimes[i]] *)
Definition get_localtime (i : Z) : reader Localtime := fun '(f, d) =>
  l ← vec_at (localtimes d) i; Ok (Some l, (f, d)).

Definition read_type : reader unit :=
  gmtoff <- readInt32; isdst <- readUInt8; abbrind <- readUInt8;
  push_localtime (mkLocaltime gmtoff (negb (isdst =? 0)) abbrind).

Fixpoint add_transitions (trans locals : list Z) : reader unit :=
  match trans, locals with
  | t :: trans', i :: locals' =>
      l <- get_localtime i;
      _ <- push_transition (mkTransition t (s64 (t + gmtOffset l)) i);
      add_transitions trans' locals'
  | _, _ => r_ret tt
  end.

(** The [try] block; [vector::reserve] of a negative count throws
    [length_error], which is a [logic_error]. *)
Definition read_zone : reader unit :=
  head <- readBytes 4;
  (if negb (byte_list_eqb head (str "TZif")) then r_throw else
   _ <- readBytes 1;
   _ <- readBytes 15;
   _ <- readInt32;
   _ <- readInt32;
   _ <- readInt32;
   timecnt <- readInt32;
   typecnt <- readInt32;
   charcnt <- readInt32;
   (if timecnt <? 0 then r_throw else
    trans <- read_times (Z.to_nat timecnt) readInt32;
    locals <- read_times (Z.to_nat timecnt) readUInt8;
    _ <- read_times (Z.to_nat typecnt) read_type;
    _ <- add_transitions trans locals;
    abbrev <- readBytes charcnt;
    set_abbreviation abbrev)).

End Reader.

Definition empty_data : Data := mkData [] [] [].

(** The result of the function, and the data it leaves. *)
Definition readTimeZoneFile (zonefile : option (list byte)) (data : Data) : outcome (bool * Data) :=
  match zonefile with
  | Some contents => '(_, (_, d)) ← read_zone (contents, data); Ok (true, d)
  | None => Ok (true, data)
  end.

(** ** Finding the local time type in force *)

(** [std::lower_bound] on the elements from [first] on, [len] of them. *)
Fixpoint lower_bound (fuel : nat) (less : Transition -> bool) (v : list Transition) (first len : nat) : nat :=
  match fuel with
  | O => first
  | S f =>
      if (len =? 0)%nat then first
      else
        let half := (len / 2)%nat in
        match v !! (first + half)%nat with
        | Some mid =>
            if less mid then lower_bound f less v (first + half + 1) (len - half - 1)
            else lower_bound f less v first half
        | None => first
        end
  end.

Definition vec_lower_bound (cg : bool) (v : list Transition) (sentry : Transition) : nat :=
  lower_bound (length v) (fun t => comp_less cg t sentry) v 0 (length v).

Definition findLocaltime (data : Data) (sentry : Transition) (cg : bool) : outcome Localtime :=
  match transitions data with
  | [] => vec_at (localtimes data) 0
  | front :: _ =>
      if comp_less cg sentry front then vec_at (localtimes data) 0
      else
        let transI := vec_lower_bound cg (transitions data) sentry in
        match transitions data !! transI with
        | Some t =>
            if negb (comp_equal cg sentry t) then
              c_assert (negb (transI =? 0)%nat);;
              t' ← vec_at (transitions data) (Z.of_nat transI - 1);
              vec_at (localtimes data) (localtimeIdx t')
            else vec_at (localtimes data) (localtimeIdx t)
        | None =>
            t' ← vec_at (transitions data) (zlen (transitions data) - 1);
            vec_at (localtimes data) (localtimeIdx t')
        end
  end.

(** ** TimeZone: [data_], or nothing for an invalid one *)

Definition TimeZone : Type := option Data.

Definition TimeZone_file (zonefile : option (list byte)) : outcome TimeZone :=
  '(ok, d) ← readTimeZoneFile zonefile empty_data;
  Ok (if ok : bool then Some d else None).

Definition TimeZone_fixed (eastOfUtc : Z) (name : list byte) : TimeZone :=
  Some (mkData [] [mkLocaltime eastOfUtc false 0] name).

Definition TimeZone_invalid : TimeZone := None.

Definition tz_valid (tz : TimeZone) : bool := match tz with Some _ => true | None => false end.

(** The C string at [&s[i]]. *)
Fixpoint until_nul (s : list byte) : list byte :=
  match s with
  | [] => []
  | c :: s' => if byte_eqb c Byte.x00 then [] else c :: until_nul s'
  end.

Definition cstring_at (s : list byte) (i : Z) : outcome (list byte) :=
  if (0 <=? i) && (i <=? zlen s) then Ok (until_nul (drop (Z.to_nat i) s)) else Fail OutOfBounds.

Definition toLocalTime (tz : TimeZone) (seconds : Z) : outcome tm :=
  match tz with
  | None => Fail AssertFail
  | Some data =>
      local ← findLocaltime data (mkTransition seconds 0 0) true;
      let localSeconds := s64 (seconds + gmtOffset local) in
      t ← gmtime_unchecked localSeconds;
      zone ← cstring_at (abbreviation data) (arrbIdx local);
      Ok (mkTm (tm_year t) (tm_mon t) (tm_mday t) (tm_hour t) (tm_min t) (tm_sec t) (tm_wday t) (tm_yday t)
            (if isDst local then 1 else 0) (gmtOffset local) zone)
  end.

Definition fromLocalTime (tz : TimeZone) (localTm : tm) : outcome Z :=
  match tz with
  | None => Fail AssertFail
  | Some data =>
      let seconds := timegm localTm in
      local ← findLocaltime data (mkTransition 0 seconds 0) false;
      if negb (tm_isdst localTm =? 0) then
        tryTm ← toLocalTime tz (s64 (seconds - gmtOffset local));
        let seconds' :=
          if (tm_isdst tryTm =? 0) && (tm_hour tryTm =? tm_hour localTm) && (tm_min tryTm =? tm_min localTm)
          then s64 (seconds - 3600) else seconds in
        Ok (s64 (seconds' - gmtOffset local))
      else Ok (s64 (seconds - gmtOffset local))
  end.

(** ** UTC, without the C library *)

(** Minutes and hours of an [unsigned] number of seconds: seconds, minutes, hours. *)
Definition fillHMS (seconds : Z) : Z * Z * Z :=
  let s := u32 seconds in
  let minutes := s / 60 in
  (s mod 60, minutes mod 60, minutes / 60).

Definition toUtcTime (secondsSinceEpoch : Z) (yday : bool) : tm :=
  let seconds := s32 (Z.rem secondsSinceEpoch kSecondsPerDay) in
  let days := s32 (Z.quot secondsSinceEpoch kSecondsPerDay) in
  let '(seconds, days) :=
    if seconds <? 0 then (s32 (seconds + kSecondsPerDay), s32 (days - 1)) else (seconds, days) in
  let '(sec, min, hour) := fillHMS seconds in
  let date := s32 (days + kJulianDayOf1970_01_01) in
  let ymd := getYearMonthDay date in
  mkTm (s32 (year ymd - 1900)) (s32 (month ymd - 1)) (day ymd) hour min sec (weekDay date)
    (if yday then s32 (date - Date_ymd (year ymd) 1 1) else 0) 0 0 (str "GMT").

Definition fromUtcTime (year month day hour minute seconds : Z) : Z :=
  let date := Date_ymd year month day in
  let secondsInDay := s32 (s32 (s32 (hour * 3600) + s32 (minute * 60)) + seconds) in
  let days := s32 (date - kJulianDayOf1970_01_01) in
  s64 (s64 (days * kSecondsPerDay) + secondsInDay).

Definition fromUtcTime_tm (utc : tm) : Z :=
  fromUtcTime (s32 (tm_year utc + 1900)) (s32 (tm_mon utc + 1)) (tm_mday utc)
    (tm_hour utc) (tm_min utc) (tm_sec utc).
