(* ===== verification/TimeZoneSpec.v ===== *)
(** * Time zones: calendar time, zone lookup and zone files *)

From stdpp Require Import sorting.
From S2P Require Import Prelude Endian Format Timestamp Date TimeZone.

(** ** UTC *)

Lemma jdn_of_day y m d : jdn_of y m d = jdn_of y m 1 + (d - 1).
Proof. unfold jdn_of. lia. Qed.

Lemma timegm_gmtime t : timegm (gm_fields t) = t.
Proof.
  unfold timegm, gm_fields. cbn [tm_year tm_mon tm_mday tm_hour tm_min tm_sec].
  set (j := t / kSecondsPerDay + 2440588). destruct (ymd_of_spec j) as (Hc & Hj & _).
  destruct (calendar_day_bounds _ Hc) as (Hm & _ & _).
  rewrite (Z.mod_small (month (ymd_of j) - 1)), (Z.div_small (month (ymd_of j) - 1)) by lia.
  replace (year (ymd_of j) - 1900 + 1900 + 0) with (year (ymd_of j)) by lia.
  replace (month (ymd_of j) - 1 + 1) with (month (ymd_of j)) by lia.
  rewrite <- jdn_of_day, Hj. unfold j, kSecondsPerDay.
  change (24 * 60 * 60) with 86400. set (s := t mod 86400).
  pose proof (Z.div_mod t 86400 ltac:(lia)). fold s in H.
  pose proof (Z.div_mod s 60 ltac:(lia)). pose proof (Z.div_mod (s / 60) 60 ltac:(lia)).
  assert (s / 60 / 60 = s / 3600) by (rewrite Z.div_div by lia; done). lia.
Qed.

(** The year fits into [int] for more than a thousand million years. *)
Lemma gmtime_ok t : - (2 ^ 55 + 2 ^ 32) <= t <= 2 ^ 55 + 2 ^ 32 -> gmtime_r t = Some (gm_fields t).
Proof.
  intros Ht. unfold gmtime_r. set (j := t / kSecondsPerDay + 2440588).
  destruct (ymd_of_spec j) as (Hc & Hj & _). destruct (calendar_day_bounds _ Hc) as (Hm & Hd & Hd').
  change (tm_year (gm_fields t)) with (year (ymd_of j) - 1900).
  assert (- 2 ^ 31 <= year (ymd_of j) - 1900 < 2 ^ 31) as Hy.
  { pose proof (jdn_of_bounds (year (ymd_of j)) _ (day (ymd_of j)) Hm ltac:(lia)) as Hb. rewrite Hj in Hb. revert Hb. unfold j.
    change kSecondsPerDay with 86400. pose proof (Z.div_mod t 86400 ltac:(lia)). pose proof (Z.mod_pos_bound t 86400 ltac:(lia)). lia. }
  by destruct (Z.leb_spec (- 2 ^ 31) (year (ymd_of j) - 1900)), (Z.ltb_spec (year (ymd_of j) - 1900) (2 ^ 31)); try lia.
Qed.

(** The range of days for which [Date] is exact. *)
Definition utc_range (t : Z) : Prop := 0 <= t / kSecondsPerDay + 2440588 <= 365000000.

(** Truncating division with a negative remainder pushed up is floor division. *)
Lemma floor_of_trunc t n : 0 < n ->
  (if Z.rem t n <? 0 then (Z.rem t n + n, Z.quot t n - 1) else (Z.rem t n, Z.quot t n)) = (t mod n, t / n).
Proof.
  intros Hn. pose proof (Z.quot_rem t n ltac:(lia)) as Hq.
  pose proof (Z.rem_bound_abs t n ltac:(lia)) as Hr.
  destruct (Z.ltb_spec (Z.rem t n) 0).
  - assert (t / n = Z.quot t n - 1) as -> by (symmetry; apply (Z.div_unique _ _ _ (Z.rem t n + n)); lia).
    assert (t mod n = Z.rem t n + n) as -> by (symmetry; apply (Z.mod_unique _ _ (Z.quot t n - 1)); lia). done.
  - assert (t / n = Z.quot t n) as -> by (symmetry; apply (Z.div_unique _ _ _ (Z.rem t n)); lia).
    assert (t mod n = Z.rem t n) as -> by (symmetry; apply (Z.mod_unique _ _ (Z.quot t n)); lia). done.
Qed.

Lemma split_day t : utc_range t ->
  (if s32 (Z.rem t kSecondsPerDay) <? 0
   then (s32 (s32 (Z.rem t kSecondsPerDay) + kSecondsPerDay), s32 (s32 (Z.quot t kSecondsPerDay) - 1))
   else (s32 (Z.rem t kSecondsPerDay), s32 (Z.quot t kSecondsPerDay))) =
  (t mod kSecondsPerDay, t / kSecondsPerDay).
Proof.
  intros Ht. rewrite <- floor_of_trunc by done. unfold utc_range in Ht.
  change kSecondsPerDay with 86400 in *.
  pose proof (Z.rem_bound_abs t 86400 ltac:(lia)). pose proof (Z.quot_rem t 86400 ltac:(lia)).
  pose proof (Z.div_mod t 86400 ltac:(lia)). pose proof (Z.mod_pos_bound t 86400 ltac:(lia)).
  rewrite !(s32_small (Z.rem t 86400)), !(s32_small (Z.quot t 86400)) by lia.
  destruct (_ <? 0); [|done]. by rewrite !s32_small by lia.
Qed.

Lemma jdn_start y m d : 1 <= m <= 12 -> 1 <= d <= 31 -> 0 <= jdn_of y m d <= 365000000 ->
  -4799 <= y <= 1000000.
Proof. intros Hm Hd Hj. pose proof (jdn_of_bounds y m d Hm Hd). lia. Qed.

(** The fields of [ymd_of j] and the start of its year, in range. *)
Lemma ymd_range j : 0 <= j <= 365000000 ->
  let t := ymd_of j in
  1 <= month t <= 12 /\ 1 <= day t <= 31 /\ -4799 <= year t <= 1000000 /\ jdn_of (year t) (month t) (day t) = j /\
  -1000 <= jdn_of (year t) 1 1 <= 366000000.
Proof.
  intros Hj t. destruct (ymd_of_spec j) as (Hc & Ht & _). fold t in Hc, Ht.
  destruct (calendar_day_bounds _ Hc) as (Hm & Hd & Hd').
  pose proof (jdn_start (year t) (month t) (day t) Hm ltac:(lia) ltac:(lia)) as Hy.
  pose proof (jdn_of_bounds (year t) (month t) (day t) Hm ltac:(lia)).
  pose proof (jdn_of_bounds (year t) 1 1 ltac:(lia) ltac:(lia)). split_and!; lia.
Qed.

Lemma fillHMS_eq s : 0 <= s < kSecondsPerDay -> fillHMS s = (s mod 60, s / 60 mod 60, s / 3600).
Proof.
  intros Hs. unfold fillHMS, u32. change kSecondsPerDay with 86400 in Hs.
  rewrite (Z.mod_small s (2 ^ 32)), Z.div_div by lia. done.
Qed.

Lemma toUtcTime_gmtime t : utc_range t -> toUtcTime t true = gm_fields t.
Proof.
  intros Ht. unfold toUtcTime. rewrite split_day by done. cbn [fst snd].
  pose proof (Z.mod_pos_bound t kSecondsPerDay ltac:(done)) as Hs.
  rewrite fillHMS_eq by done. unfold gm_fields, Date_ymd, weekDay.
  change kJulianDayOf1970_01_01 with 2440588. unfold utc_range in Ht.
  set (j := t / kSecondsPerDay + 2440588) in *.
  rewrite (s32_small j), getYearMonthDay_eq by lia.
  destruct (ymd_range j Ht) as (Hm & Hd & Hy & _ & Hs1).
  rewrite getJulianDayNumber_eq by lia. rewrite (s32_small (j + 1)), Z.rem_mod_nonneg by (unfold kDaysPerWeek; lia).
  by rewrite !s32_small by lia.
Qed.

Lemma fromUtcTime_toUtcTime t b : utc_range t -> fromUtcTime_tm (toUtcTime t b) = t.
Proof.
  intros Ht. assert (fromUtcTime_tm (toUtcTime t b) = fromUtcTime_tm (toUtcTime t true)) as ->.
  { unfold fromUtcTime_tm, toUtcTime. destruct (if _ <? 0 then _ else _) as [s d].
    destruct (fillHMS s) as [[x y] z]. cbn [tm_year tm_mon tm_mday tm_hour tm_min tm_sec]. reflexivity. }
  rewrite toUtcTime_gmtime by done. rewrite <- (timegm_gmtime t) at 2.
  unfold fromUtcTime_tm, fromUtcTime, timegm, gm_fields, Date_ymd.
  cbn [tm_year tm_mon tm_mday tm_hour tm_min tm_sec].
  change kJulianDayOf1970_01_01 with 2440588. unfold utc_range in Ht.
  pose proof (Z.mod_pos_bound t kSecondsPerDay ltac:(done)) as Hs.
  set (j := t / kSecondsPerDay + 2440588) in *. set (s := t mod kSecondsPerDay) in *.
  destruct (ymd_range j Ht) as (Hm & Hd & Hy & Hj & _).
  rewrite (Z.mod_small (month (ymd_of j) - 1)), (Z.div_small (month (ymd_of j) - 1)) by lia.
  replace (year (ymd_of j) - 1900 + 1900 + 0) with (year (ymd_of j)) by lia.
  replace (year (ymd_of j) - 1900 + 1900) with (year (ymd_of j)) by lia.
  replace (month (ymd_of j) - 1 + 1) with (month (ymd_of j)) by lia.
  rewrite <- jdn_of_day, (s32_small (year _)), (s32_small (month _)), getJulianDayNumber_eq, Hj by lia.
  change kSecondsPerDay with 86400 in *.
  assert (0 <= s / 3600 < 24) by (split; [apply Z.div_pos|apply Z.div_lt_upper_bound]; lia).
  pose proof (Z.mod_pos_bound (s / 60) 60 ltac:(lia)). pose proof (Z.mod_pos_bound s 60 ltac:(lia)).
  rewrite (s32_small (s / 3600 * 3600)), (s32_small (s / 60 mod 60 * 60)) by lia.
  rewrite (s32_small (s / 3600 * 3600 + s / 60 mod 60 * 60)), (s32_small (_ + s mod 60)), (s32_small (j - _)) by lia.
  unfold s64. rewrite !(signed_small 64); rewrite ?(signed_small 64); lia.
Qed.

(** ** The type in force

    The reference: transitions are followed in order as long as they are not
    after [k]. *)
Fixpoint in_force (cg : bool) (k cur : Z) (ts : list Transition) : Z :=
  match ts with
  | [] => cur
  | t :: ts' => if comp_key cg t <=? k then in_force cg k (localtimeIdx t) ts' else cur
  end.

Definition sorted_by (cg : bool) (ts : list Transition) : Prop :=
  StronglySorted (fun a b => comp_key cg a < comp_key cg b) ts.

Lemma sorted_by_lt cg ts i j a b : sorted_by cg ts -> (i < j)%nat -> ts !! i = Some a -> ts !! j = Some b ->
  comp_key cg a < comp_key cg b.
Proof.
  intros Hs. revert i j. induction Hs as [|t ts Hs IH Ht]; intros i j Hij Ha Hb; [done|].
  destruct j as [|j]; [lia|]. destruct i as [|i]; cbn in *.
  - simplify_eq. rewrite Forall_lookup in Ht. eauto.
  - eapply (IH i j); [lia|done..].
Qed.

(** [n] splits the transitions at [k]. *)
Lemma in_force_split cg k ts : forall n cur, (n <= length ts)%nat ->
  (forall i t, (i < n)%nat -> ts !! i = Some t -> comp_key cg t <= k) ->
  (forall t, ts !! n = Some t -> k < comp_key cg t) ->
  in_force cg k cur ts = match n with O => cur | S m => from_option localtimeIdx cur (ts !! m) end.
Proof.
  induction ts as [|t ts IH]; intros n cur Hn Hlo Hhi; cbn [in_force].
  { destruct n; [done|cbn in Hn; lia]. }
  destruct n as [|n].
  - specialize (Hhi t eq_refl). by zcases; [lia|].
  - pose proof (Hlo 0%nat t ltac:(lia) eq_refl). zcases; [|lia].
    rewrite (IH n); [|cbn in Hn; lia|intros i u Hi; apply (Hlo (S i) u); lia|exact Hhi].
    destruct n as [|n]; [done|]. cbn. destruct (ts !! n) eqn:E; [done|].
    apply lookup_ge_None in E. cbn in Hn. lia.
Qed.

Lemma lower_bound_spec less v :
  (forall i j a b, (i <= j)%nat -> v !! i = Some a -> v !! j = Some b -> less b = true -> less a = true) ->
  forall fuel first len, (len <= fuel)%nat -> (first + len <= length v)%nat ->
  (forall i a, (i < first)%nat -> v !! i = Some a -> less a = true) ->
  (forall i a, (first + len <= i)%nat -> v !! i = Some a -> less a = false) ->
  let r := lower_bound fuel less v first len in
  (r <= length v)%nat /\ (forall i a, (i < r)%nat -> v !! i = Some a -> less a = true) /\
  (forall i a, (r <= i)%nat -> v !! i = Some a -> less a = false).
Proof.
  intros Hmono. induction fuel as [|fuel IH]; intros first len Hf Hl Hlo Hhi.
  { replace len with 0%nat in * by lia. rewrite Nat.add_0_r in *. by split_and!. }
  cbn [lower_bound]. cbv zeta. destruct (Nat.eqb_spec len 0) as [->|Hlen].
  { rewrite Nat.add_0_r in *. by split_and!. }
  assert (len / 2 < len)%nat as Hhalf by (apply Nat.div_lt; lia).
  destruct (v !! (first + len / 2)%nat) as [mid|] eqn:Em; [|apply lookup_ge_None in Em; lia].
  destruct (less mid) eqn:El.
  - apply IH; [lia|lia| |].
    + intros i a Hi Ha. eapply Hmono; [|exact Ha|exact Em|done]. lia.
    + intros i a Hi. apply Hhi. lia.
  - apply IH; [lia|lia|exact Hlo|].
    intros i a Hi Ha. destruct (less a) eqn:E; [|done].
    rewrite <- El. symmetry. eapply Hmono; [|exact Em|exact Ha|done]. lia.
Qed.

Lemma vec_at_pred {A} (v : list A) m x : v !! m = Some x -> vec_at v (Z.of_nat (S m) - 1) = Ok x.
Proof.
  intros E. unfold vec_at. replace (Z.of_nat (S m) - 1) with (Z.of_nat m) by lia.
  rewrite Nat2Z.id, E. by destruct (Z.leb_spec 0 (Z.of_nat m)); [|lia].
Qed.

Lemma findLocaltime_eq data sentry cg : sorted_by cg (transitions data) ->
  findLocaltime data sentry cg =
  vec_at (localtimes data) (in_force cg (comp_key cg sentry) 0 (transitions data)).
Proof.
  intros Hs. unfold findLocaltime. destruct (transitions data) as [|front ts] eqn:Ets; [done|].
  rewrite <- Ets in *. set (v := transitions data) in *. set (k := comp_key cg sentry).
  unfold comp_less at 1. fold k. destruct (Z.ltb_spec k (comp_key cg front)) as [Hlt|Hge].
  { rewrite Ets. cbn. by destruct (Z.leb_spec (comp_key cg front) k); [lia|]. }
  assert (v !! 0%nat = Some front) as H0 by (by rewrite Ets).
  destruct (lower_bound_spec (fun t => comp_less cg t sentry) v) with (fuel := length v) (first := 0%nat) (len := length v)
    as (Hr & Hlo & Hhi); [|lia|lia|intros; lia|intros i a Hi Ha; apply lookup_lt_Some in Ha; lia|].
  { intros i j a b Hij Ha Hb. unfold comp_less. rewrite !Z.ltb_lt. intros Hbk.
    destruct (decide (i = j)) as [->|]; [congruence|].
    pose proof (sorted_by_lt cg v i j a b Hs ltac:(lia) Ha Hb). lia. }
  fold (vec_lower_bound cg v sentry) in *. set (r := vec_lower_bound cg v sentry) in *.
  unfold comp_less in Hlo, Hhi. fold k in Hlo, Hhi.
  assert (forall i t, (i < r)%nat -> v !! i = Some t -> comp_key cg t <= k) as Hlo'.
  { intros i t Hi Ht. specialize (Hlo i t Hi Ht). zcases; [lia|done]. }
  assert (forall i t, (r <= i)%nat -> v !! i = Some t -> k <= comp_key cg t) as Hhi'.
  { intros i t Hi Ht. specialize (Hhi i t Hi Ht). zcases; [done|lia]. }
  destruct (v !! r) as [t|] eqn:Er.
  - unfold comp_equal. fold k. destruct (Z.eqb_spec k (comp_key cg t)) as [He|Hne]; cbn.
    + rewrite (in_force_split cg k v (S r)); [by rewrite Er|by apply lookup_lt_Some in Er| |].
      * intros i u Hi Hu. destruct (decide (i = r)) as [->|]; [simplify_eq; lia|]. apply (Hlo' i u); [lia|done].
      * intros u Hu. pose proof (sorted_by_lt cg v r (S r) t u Hs ltac:(lia) Er Hu). lia.
    + pose proof (Hhi' r t ltac:(lia) Er). destruct (Nat.eqb_spec r 0) as [E0|E0]; [congruence || (rewrite E0 in Er; simplify_eq; lia)|].
      cbn. rewrite (in_force_split cg k v r); [|lia|done|intros u Hu; simplify_eq; lia].
      destruct r as [|m]; [done|]. destruct (v !! m) eqn:Em; [|apply lookup_ge_None in Em; lia].
      by rewrite (vec_at_pred _ _ _ Em).
  - apply lookup_ge_None in Er. assert (r = length v) as Hrl by lia.
    rewrite (in_force_split cg k v r); [|lia|done|intros u Hu; apply lookup_lt_Some in Hu; lia].
    unfold zlen. rewrite <- Hrl. destruct r as [|m]; [destruct v; [done|cbn in Hrl; lia]|].
    destruct (v !! m) eqn:Em; [|apply lookup_ge_None in Em; lia]. by rewrite (vec_at_pred _ _ _ Em).
Qed.

(** ** Local time and back *)

(** The transitions as a zone file gives them: each carries the local time of
    its instant, they are an hour apart or more, and the clock goes back only
    at the end of daylight saving time, by one hour. [prev] is in force
    before the first of them. *)
Fixpoint zone_ok (lts : list Localtime) (prev : Localtime) (ts : list Transition) : Prop :=
  match ts with
  | [] => True
  | t :: ts' =>
      match vec_at lts (localtimeIdx t) with
      | Fail _ => False
      | Ok l =>
          localtime t = gmttime t + gmtOffset l /\
          (gmtOffset prev <= gmtOffset l \/
           gmtOffset prev = gmtOffset l + 3600 /\ isDst prev = true /\ isDst l = false) /\
          match ts' with
          | [] => True
          | t2 :: _ => gmttime t + 3600 <= gmttime t2 /\ localtime t + 3600 <= localtime t2
          end /\
          zone_ok lts l ts'
      end
  end.

Lemma zone_ok_sorted cg lts prev ts : zone_ok lts prev ts -> sorted_by cg ts.
Proof.
  intros Hz. apply Sorted_StronglySorted; [intros x y z; lia|].
  revert prev Hz. induction ts as [|t ts IH]; intros prev Hz; [constructor|]. cbn in Hz.
  destruct (vec_at lts _) as [l|]; [|done]. destruct Hz as (_ & _ & Hn & Hz). constructor; [by eapply IH|].
  destruct ts as [|t2 ts]; constructor. destruct cg; cbn; lia.
Qed.

Lemma in_force_ok lts cg k : forall ts cur prev, vec_at lts cur = Ok prev -> zone_ok lts prev ts ->
  exists l, vec_at lts (in_force cg k cur ts) = Ok l.
Proof.
  induction ts as [|t ts IH]; intros cur prev Hc Hz; [eauto|]. cbn in Hz |- *.
  destruct (vec_at lts (localtimeIdx t)) as [l|] eqn:El; [|done]. destruct Hz as (_ & _ & _ & Hz).
  destruct (_ <=? k); eauto.
Qed.

(** A transition that is over is over in local time too. *)
Lemma passed_local lts s : forall ts t prev l, zone_ok lts prev (t :: ts) -> gmttime t <= s ->
  vec_at lts (in_force true s (localtimeIdx t) ts) = Ok l -> localtime t <= s + gmtOffset l.
Proof.
  induction ts as [|t2 ts IH]; intros t prev l Hz Ht Hl; cbn [zone_ok] in Hz;
    destruct (vec_at lts (localtimeIdx t)) as [l0|] eqn:E0; try done; destruct Hz as (Hlt & _ & Hn & Hz); cbn [in_force comp_key] in Hl.
  - assert (l = l0) as -> by congruence. lia.
  - destruct (Z.leb_spec (gmttime t2) s); [|assert (l = l0) as -> by congruence; lia].
    pose proof (IH t2 l0 l Hz ltac:(lia) Hl). lia.
Qed.

(** The type found from the local time is the one in force, except in the
    hour that is repeated at the end of daylight saving time. *)
Lemma in_force_local lts s : forall ts cur prev l, vec_at lts cur = Ok prev -> zone_ok lts prev ts ->
  vec_at lts (in_force true s cur ts) = Ok l ->
  in_force false (s + gmtOffset l) cur ts = in_force true s cur ts \/
  exists l', vec_at lts (in_force false (s + gmtOffset l) cur ts) = Ok l' /\
    gmtOffset l = gmtOffset l' + 3600 /\ isDst l = true /\ isDst l' = false /\
    in_force true (s + 3600) cur ts = in_force false (s + gmtOffset l) cur ts.
Proof.
  induction ts as [|t ts IH]; intros cur prev l Hc Hz Hl; [by left|].
  pose proof (passed_local lts s ts t prev l Hz) as Hp. cbn [zone_ok] in Hz.
  destruct (vec_at lts (localtimeIdx t)) as [l0|] eqn:E0; [|done]. destruct Hz as (Hlt & Hoff & Hn & Hz).
  cbn [in_force comp_key] in *. destruct (Z.leb_spec (gmttime t) s) as [Hle|Hgt].
  - specialize (Hp Hle Hl). destruct (Z.leb_spec (localtime t) (s + gmtOffset l)); [|lia].
    destruct (Z.leb_spec (gmttime t) (s + 3600)); [|lia]. eapply IH; eauto.
  - assert (l = prev) as -> by congruence.
    destruct (Z.leb_spec (localtime t) (s + gmtOffset prev)) as [Hf|]; [|by left].
    destruct Hoff as [?|(Ho & Hd & Hd0)]; [lia|]. right. exists l0.
    destruct (Z.leb_spec (gmttime t) (s + 3600)); [|lia].
    assert (in_force false (s + gmtOffset prev) (localtimeIdx t) ts = localtimeIdx t) as ->.
    { destruct ts as [|t2 ts]; [done|]. cbn. zcases; [lia|done]. }
    assert (in_force true (s + 3600) (localtimeIdx t) ts = localtimeIdx t) as ->.
    { destruct ts as [|t2 ts]; [done|]. cbn. zcases; [lia|done]. }
    by split_and!.
Qed.

Record zone_wf (data : Data) (front : Localtime) : Prop := mkZoneWf {
  zw_front : vec_at (localtimes data) 0 = Ok front;
  zw_transitions : zone_ok (localtimes data) front (transitions data);
  zw_types : Forall (fun l => - 2 ^ 31 <= gmtOffset l < 2 ^ 31 /\ 0 <= arrbIdx l <= zlen (abbreviation data)) (localtimes data);
}.

Lemma vec_at_elem {A} (v : list A) i x : vec_at v i = Ok x -> x ∈ v.
Proof.
  unfold vec_at. destruct (0 <=? i); [|done]. destruct (v !! _) eqn:E; [|done]. intros [= <-].
  by apply list_elem_of_lookup_2 in E.
Qed.

(** The broken-down time of [local] at [seconds]. *)
Definition local_tm (local : Localtime) (zone : list byte) (seconds : Z) : tm :=
  let t := gm_fields (seconds + gmtOffset local) in
  mkTm (tm_year t) (tm_mon t) (tm_mday t) (tm_hour t) (tm_min t) (tm_sec t) (tm_wday t) (tm_yday t)
    (if isDst local then 1 else 0) (gmtOffset local) zone.

Lemma toLocalTime_eq data front s : zone_wf data front -> - 2 ^ 55 - 3600 <= s <= 2 ^ 55 + 3600 ->
  exists l zone, vec_at (localtimes data) (in_force true s 0 (transitions data)) = Ok l /\
    - 2 ^ 31 <= gmtOffset l < 2 ^ 31 /\
    toLocalTime (Some data) s = Ok (local_tm l zone s).
Proof.
  intros [Hf Hz Ht] Hs. destruct (in_force_ok (localtimes data) true s _ 0 front Hf Hz) as [l Hl].
  pose proof (vec_at_elem _ _ _ Hl) as Hel. rewrite Forall_forall in Ht. destruct (Ht l Hel) as [Ho Ha].
  unfold toLocalTime. rewrite findLocaltime_eq by (by eapply zone_ok_sorted). cbn [comp_key gmttime].
  rewrite Hl. cbn [mbind outcome_bind]. unfold cstring_at.
  destruct (Z.leb_spec 0 (arrbIdx l)), (Z.leb_spec (arrbIdx l) (zlen (abbreviation data))); try lia. cbn [andb mbind outcome_bind].
  exists l. eexists. split_and!; [done|lia|lia|]. unfold gmtime_unchecked, local_tm, s64.
  by rewrite signed_small, gmtime_ok by lia.
Qed.

Lemma timegm_local l zone s : timegm (local_tm l zone s) = s + gmtOffset l.
Proof.
  rewrite <- (timegm_gmtime (s + gmtOffset l)). unfold local_tm. generalize (gm_fields (s + gmtOffset l)). by intros [].
Qed.

Lemma local_roundtrip data front s : zone_wf data front -> - 2 ^ 55 <= s <= 2 ^ 55 ->
  exists t, toLocalTime (Some data) s = Ok t /\ timegm t = s + tm_gmtoff t /\ fromLocalTime (Some data) t = Ok s.
Proof.
  intros Hw Hs. destruct (toLocalTime_eq data front s Hw ltac:(lia)) as (l & zone & Hl & Ho & E).
  exists (local_tm l zone s). split; [done|]. split; [apply timegm_local|].
  unfold fromLocalTime. rewrite timegm_local. pose proof Hw as [Hf Hz Ht].
  rewrite findLocaltime_eq by (by eapply zone_ok_sorted). cbn [comp_key localtime].
  destruct (in_force_local (localtimes data) s _ 0 front l Hf Hz Hl) as [->|(l' & Hl' & Ho' & Hd & Hd' & Hi)].
  - rewrite Hl. cbn [mbind outcome_bind local_tm tm_isdst].
    replace (s + gmtOffset l - gmtOffset l) with s by lia. unfold s64. rewrite !(signed_small 64 s) by lia.
    rewrite E. cbn [mbind outcome_bind local_tm tm_isdst].
    destruct (isDst l); cbn [Z.eqb negb andb]; [|done].
    replace (s + gmtOffset l - gmtOffset l) with s by lia. by rewrite signed_small by lia.
  - rewrite Hl'. cbn [mbind outcome_bind local_tm tm_isdst]. rewrite Hd. cbn [Z.eqb negb].
    replace (s + gmtOffset l - gmtOffset l') with (s + 3600) by lia. unfold s64. rewrite (signed_small 64 (s + 3600)) by lia.
    destruct (toLocalTime_eq data front (s + 3600) Hw ltac:(lia)) as (l2 & zone2 & Hl2 & _ & E2).
    rewrite Hi, Hl' in Hl2. injection Hl2 as <-. rewrite E2. cbn [mbind outcome_bind local_tm tm_isdst tm_hour tm_min].
    rewrite Hd'. replace (s + 3600 + gmtOffset l') with (s + gmtOffset l) by lia. rewrite !Z.eqb_refl. cbn [andb].
    f_equal. rewrite (signed_small 64 (s + gmtOffset l - 3600)), signed_small by lia. lia.
Qed.

(** ** Zone files *)

(** A 32-bit integer in network order, and the parts of a TZif file. *)
Definition be32 (z : Z) : list byte := rev (le_bytes 4 z).

Definition type_bytes (l : Localtime) : list byte :=
  be32 (gmtOffset l) ++ [byte_of_Z (if isDst l then 1 else 0); byte_of_Z (arrbIdx l)].

(** A file of version [v] with transition instants and their types [trans]
    and local time types [types]; [rest] is what follows the abbreviations. *)
Definition zone_file (v : byte) (reserved : list byte) (isgmtcnt isstdcnt leapcnt : Z)
    (trans : list (Z * Z)) (types : list Localtime) (abbrev rest : list byte) : list byte :=
  str "TZif" ++ [v] ++ reserved ++
  be32 isgmtcnt ++ be32 isstdcnt ++ be32 leapcnt ++ be32 (zlen trans) ++ be32 (zlen types) ++ be32 (zlen abbrev) ++
  (trans ≫= fun t => be32 (t.1)) ++ (trans ≫= fun t => [byte_of_Z (t.2)]) ++ (types ≫= type_bytes) ++ abbrev ++ rest.

Definition zone_transitions (types : list Localtime) (trans : list (Z * Z)) : list Transition :=
  (fun t => mkTransition (t.1) (t.1 + from_option gmtOffset 0 (types !! Z.to_nat (t.2))) (t.2)) <$> trans.

Lemma readBytes_app b f d n : n = zlen b -> readBytes n (b ++ f, d) = Ok (Some b, (f, d)).
Proof.
  intros ->. unfold readBytes. pose proof (zlen_nonneg b). pose proof (zlen_nonneg f). rewrite zlen_app.
  zcases; try lia. unfold zlen. by rewrite Nat2Z.id, take_app_length, drop_app_length.
Qed.

Lemma readInt32_app z f d : - 2 ^ 31 <= z < 2 ^ 31 -> readInt32 (be32 z ++ f, d) = Ok (Some z, (f, d)).
Proof.
  intros Hz. unfold readInt32, r_bind. rewrite readBytes_app by done. cbn [mbind outcome_bind r_ret]. do 3 f_equal.
  unfold networkToHost32, be32. rewrite <- le_bytes_bswap, le_value_bytes.
  change (256 ^ Z.of_nat 4) with (2 ^ 32).
  assert (bswap 4 (bswap 4 z mod 2 ^ 32) = z mod 2 ^ 32) as ->.
  { rewrite Z.mod_small by (apply (bswap_range 4)). apply bswap_involutive. }
  unfold s32. rewrite signed_mod, signed_small by lia. done.
Qed.

Lemma readUInt8_app z f d : 0 <= z < 256 -> readUInt8 (byte_of_Z z :: f, d) = Ok (Some z, (f, d)).
Proof.
  intros Hz. unfold readUInt8, r_bind. rewrite (readBytes_app [byte_of_Z z] f d 1 eq_refl : readBytes 1 (byte_of_Z z :: f, d) = _).
  cbn [mbind outcome_bind r_ret le_value]. rewrite byte_to_of_Z, Z.mod_small, Z.add_0_r by lia. done.
Qed.

(** Reading one item after another. *)
Lemma read_times_app {A B} (m : reader A) (enc : B -> list byte) (val : B -> A) xs : forall f d,
  (forall x f, x ∈ xs -> m (enc x ++ f, d) = Ok (Some (val x), (f, d))) ->
  read_times (length xs) m ((xs ≫= enc) ++ f, d) = Ok (Some (val <$> xs), (f, d)).
Proof.
  induction xs as [|x xs IH]; intros f d Hm; [done|]. cbn [length read_times].
  change ((x :: xs) ≫= enc) with (enc x ++ (xs ≫= enc)). rewrite <- app_assoc. unfold r_bind at 1. rewrite Hm by (by left). cbn [mbind outcome_bind].
  unfold r_bind at 1. rewrite IH by (intros; apply Hm; by right). done.
Qed.

Definition type_wf (l : Localtime) : Prop := - 2 ^ 31 <= gmtOffset l < 2 ^ 31 /\ 0 <= arrbIdx l < 256.

Lemma read_type_app l f d : type_wf l ->
  read_type (type_bytes l ++ f, d) = Ok (Some tt, (f, mkData (transitions d) (localtimes d ++ [l]) (abbreviation d))).
Proof.
  intros [Ho Ha]. unfold read_type, type_bytes, r_bind. rewrite <- app_assoc, readInt32_app by done.
  cbn [mbind outcome_bind app]. rewrite readUInt8_app by (destruct (isDst l); lia). cbn [mbind outcome_bind].
  rewrite readUInt8_app by done. cbn [mbind outcome_bind push_localtime]. destruct l as [o dst a]. cbn.
  by destruct dst.
Qed.

Lemma read_types_app types : forall f d, Forall type_wf types ->
  exists us, read_times (length types) read_type ((types ≫= type_bytes) ++ f, d) =
    Ok (Some us, (f, mkData (transitions d) (localtimes d ++ types) (abbreviation d))).
Proof.
  induction types as [|l types IH]; intros f d Hw.
  { exists []. rewrite app_nil_r. by destruct d. }
  inversion Hw; subst. change ((l :: types) ≫= type_bytes) with (type_bytes l ++ (types ≫= type_bytes)).
  cbn [length read_times]. rewrite <- app_assoc. unfold r_bind at 1. rewrite read_type_app by done. cbn [mbind outcome_bind].
  unfold r_bind at 1. edestruct IH as [us ->]; [done|]. cbn [mbind outcome_bind r_ret transitions localtimes abbreviation].
  exists (tt :: us). by rewrite <- app_assoc.
Qed.

Definition trans_wf (types : list Localtime) (t : Z * Z) : Prop :=
  - 2 ^ 31 <= t.1 < 2 ^ 31 /\ 0 <= t.2 < 256 /\ t.2 < zlen types.

Lemma add_transitions_app trans : forall f d, Forall type_wf (localtimes d) -> Forall (trans_wf (localtimes d)) trans ->
  add_transitions (fst <$> trans) (snd <$> trans) (f, d) =
    Ok (Some tt, (f, mkData (transitions d ++ zone_transitions (localtimes d) trans) (localtimes d) (abbreviation d))).
Proof.
  induction trans as [|[t i] trans IH]; intros f d Hty Hw.
  { cbn. rewrite app_nil_r. by destruct d. }
  inversion Hw as [|? ? (Ht & Hi & Hlen) Hw']; subst. cbn [fst snd] in *.
  cbn [fmap list_fmap add_transitions fst snd]. unfold r_bind at 1. cbn [get_localtime].
  unfold zlen in Hlen. destruct (localtimes d !! Z.to_nat i) as [l|] eqn:El; [|apply lookup_ge_None in El; lia].
  assert (vec_at (localtimes d) i = Ok l) as -> by (unfold vec_at; rewrite El; by destruct (Z.leb_spec 0 i); [|lia]).
  cbn [mbind outcome_bind]. unfold r_bind at 1. cbn [push_transition mbind outcome_bind].
  rewrite IH by done. cbn [transitions localtimes abbreviation zone_transitions fmap list_fmap fst snd].
  rewrite El, <- app_assoc. cbn [from_option]. rewrite Forall_lookup in Hty. destruct (Hty _ _ El) as [Ho _].
  unfold s64. by rewrite signed_small by lia.
Qed.

(** Running the reader's steps on a file whose head is known. *)
Ltac read_step :=
  unfold r_bind at 1;
  first [rewrite readInt32_app by lia | rewrite readBytes_app by done];
  cbn [mbind outcome_bind].

Lemma read_zone_file v reserved g s lp trans types abbrev rest :
  zlen reserved = 15 -> - 2 ^ 31 <= g < 2 ^ 31 -> - 2 ^ 31 <= s < 2 ^ 31 -> - 2 ^ 31 <= lp < 2 ^ 31 ->
  zlen trans < 2 ^ 31 -> zlen types < 2 ^ 31 -> zlen abbrev < 2 ^ 31 ->
  Forall type_wf types -> Forall (trans_wf types) trans ->
  read_zone (zone_file v reserved g s lp trans types abbrev rest, empty_data) =
    Ok (Some tt, (rest, mkData (zone_transitions types trans) types abbrev)).
Proof.
  intros Hr Hg Hs Hlp Hn Hm Hk Hty Htr. unfold read_zone, zone_file.
  pose proof (zlen_nonneg trans). pose proof (zlen_nonneg types). pose proof (zlen_nonneg abbrev).
  read_step. unfold byte_list_eqb. rewrite bool_decide_eq_true_2 by done. cbn [negb].
  do 8 read_step. destruct (Z.ltb_spec (zlen trans) 0); [lia|]. unfold zlen at 1 2 3. rewrite !Nat2Z.id.
  rewrite Forall_forall in Htr.
  unfold r_bind at 1. rewrite (read_times_app _ _ fst) by (intros x f Hx; apply readInt32_app; apply (Htr x Hx)).
  cbn [mbind outcome_bind]. unfold r_bind at 1.
  rewrite (read_times_app _ _ snd) by (intros x f Hx; apply readUInt8_app; apply (Htr x Hx)).
  cbn [mbind outcome_bind]. unfold r_bind at 1. edestruct read_types_app as [us ->]; [done|]. cbn [mbind outcome_bind].
  unfold r_bind at 1. rewrite add_transitions_app by (cbn; by rewrite ?Forall_forall in * ). cbn [mbind outcome_bind].
  read_step. done.
Qed.

(** ** Theorems *)

(** Over a million years around the epoch, toUtcTime computes in [int]
    arithmetic the calendar time the C library's gmtime_r does, day of the week
    and of the year included, and fromUtcTime is its inverse, before the
    epoch too. *)
Lemma utc_time_exact (t : Z) : utc_range t ->
  toUtcTime t true = gm_fields t /\ forall yday, fromUtcTime_tm (toUtcTime t yday) = t.
Proof. intros Ht. split; [by apply toUtcTime_gmtime|]. intros. by apply fromUtcTime_toUtcTime. Qed.

(** C25: In a zone whose clock goes back only at the end of daylight saving
    time, by exactly one hour, with transitions an hour apart or more, every
    instant within 2^55 seconds of the epoch (a thousand million years, where
    the year fits into int) converts to a local time and back to itself: the
    flag tm_isdst tells the two halves of the repeated hour apart, and no
    vector is indexed out of range. A daylight saving time of half an hour is
    not converted back right, [half_hour_dst_wrong]. *)
Theorem local_time_roundtrip (data : Data) (front : Localtime) (s : Z) :
  zone_wf data front -> - 2 ^ 55 <= s <= 2 ^ 55 ->
  exists t, toLocalTime (Some data) s = Ok t /\ timegm t = s + tm_gmtoff t /\ fromLocalTime (Some data) t = Ok s.
Proof. apply local_roundtrip. Qed.

(** Looking a time up by binary search finds the local time type a walk
    over the transitions in order finds: that of the last transition at or
    before it, or the zone's first type when there is none. *)
Lemma findLocaltime_in_force (data : Data) (sentry : Transition) (cg : bool) :
  sorted_by cg (transitions data) ->
  findLocaltime data sentry cg =
  vec_at (localtimes data) (in_force cg (comp_key cg sentry) 0 (transitions data)).
Proof. apply findLocaltime_eq. Qed.

(** Reading a TZif file of any version gives exactly the transitions,
    types and abbreviations it was written with, whatever follows them. *)
Lemma zone_file_roundtrip v reserved g s lp trans types abbrev rest :
  zlen reserved = 15 -> - 2 ^ 31 <= g < 2 ^ 31 -> - 2 ^ 31 <= s < 2 ^ 31 -> - 2 ^ 31 <= lp < 2 ^ 31 ->
  zlen trans < 2 ^ 31 -> zlen types < 2 ^ 31 -> zlen abbrev < 2 ^ 31 ->
  Forall type_wf types -> Forall (trans_wf types) trans ->
  TimeZone_file (Some (zone_file v reserved g s lp trans types abbrev rest)) =
    Ok (Some (mkData (zone_transitions types trans) types abbrev)).
Proof.
  intros. unfold TimeZone_file, readTimeZoneFile. by rewrite read_zone_file.
Qed.

(** A zone file that cannot be opened, or does not start with the magic
    number, still makes a valid() TimeZone; converting any time with it
    takes the front of an empty vector. *)
Lemma unreadable_zone_faults (zonefile : option (list byte)) (s : Z) :
  match zonefile with Some f => take 4 f <> str "TZif" | None => True end ->
  exists tz, TimeZone_file zonefile = Ok tz /\ tz_valid tz = true /\ toLocalTime tz s = Fail OutOfBounds.
Proof.
  intros Hz. exists (Some empty_data). split; [|by split]. destruct zonefile as [f|]; [|done].
  assert (exists x, readBytes 4 (f, empty_data) = Ok (x, ([], empty_data)) /\ x = None \/
    readBytes 4 (f, empty_data) = Ok (x, (drop 4 f, empty_data)) /\ x = Some (take 4 f)) as [x Hx].
  { unfold readBytes. change (4 <? 0) with false. destruct (zlen f <? 4); eauto. }
  unfold TimeZone_file, readTimeZoneFile, read_zone. unfold r_bind at 1. destruct Hx as [[-> ->]|[-> ->]]; [done|].
  cbn [mbind outcome_bind]. unfold byte_list_eqb. by rewrite bool_decide_eq_false_2.
Qed.

(** ** Examples *)

(** New York in 2014: daylight saving time from 9 March to 2 November. *)
Definition est : Localtime := mkLocaltime (-18000) false 0.
Definition edt : Localtime := mkLocaltime (-14400) true 4.

Definition new_york_trans : list (Z * Z) := [(1394348400, 1); (1414908000, 0)].
Definition new_york : Data := mkData (zone_transitions [est; edt] new_york_trans) [est; edt]
  (str "EST" ++ [Byte.x00] ++ str "EDT" ++ [Byte.x00]).

Lemma new_york_wf : zone_wf new_york est.
Proof.
  split; [reflexivity| |].
  - vm_compute. split_and!; try done; [by left|by right].
  - repeat apply Forall_cons_2; [..|apply Forall_nil_2]; by vm_compute.
Qed.

(** A zone whose clock goes back by half an hour: a minute before the end of
    daylight saving time comes back half an hour early. *)
Definition half_hour_zone : Data :=
  let types := [mkLocaltime 37800 false 0; mkLocaltime 39600 true 4] in
  mkData (zone_transitions types [(1380986400, 1); (1396710000, 0)]) types (str "LHS" ++ [Byte.x00] ++ str "LHD" ++ [Byte.x00]).

Example half_hour_dst_wrong :
  (t ← toLocalTime (Some half_hour_zone) 1396709940; fromLocalTime (Some half_hour_zone) t) = Ok 1396708140.
Proof. vm_compute. reflexivity. Qed.

Lemma utc_time_exact_witness : fromUtcTime_tm (toUtcTime (-1) false) = -1 /\ toUtcTime (-1) true = gm_fields (-1).
Proof.
  destruct (utc_time_exact (-1)) as [H1 H2]; [unfold utc_range; change (-1 / kSecondsPerDay) with (-1); lia|].
  split; [apply H2|exact H1].
Defined.

(** Half past one on 2 November, the first time. *)
Lemma local_time_roundtrip_witness :
  exists t, toLocalTime (Some new_york) 1414906200 = Ok t /\ tm_hour t = 1 /\ tm_min t = 30 /\ tm_isdst t = 1 /\
    fromLocalTime (Some new_york) t = Ok 1414906200.
Proof.
  destruct (local_time_roundtrip new_york est 1414906200 new_york_wf ltac:(lia)) as (t & E & _ & E').
  exists t. split; [exact E|]. assert (E2 := E). vm_compute in E2. injection E2 as <-.
  split; [reflexivity|]. split; [reflexivity|]. split; [reflexivity|exact E'].
Defined.

Lemma findLocaltime_in_force_witness :
  findLocaltime new_york (mkTransition 1400000000 0 0) true = Ok edt.
Proof.
  rewrite (findLocaltime_in_force new_york (mkTransition 1400000000 0 0) true); [reflexivity|].
  eapply zone_ok_sorted. exact (zw_transitions _ _ new_york_wf).
Defined.

Lemma zone_file_roundtrip_witness :
  TimeZone_file (Some (zone_file Byte.x32 (replicate 15 Byte.x00) 0 0 0 new_york_trans [est; edt]
    (abbreviation new_york) (str "more"))) = Ok (Some new_york).
Proof.
  apply zone_file_roundtrip; try reflexivity; try lia;
    (repeat apply Forall_cons_2; [..|apply Forall_nil_2]; by vm_compute).
Defined.

Lemma unreadable_zone_faults_witness :
  exists tz, TimeZone_file None = Ok tz /\ tz_valid tz = true /\ toLocalTime tz 0 = Fail OutOfBounds.
Proof. exact (unreadable_zone_faults None 0 I). Defined.
