(* ===== verification/FileUtil.v ===== *)
(** * Files: src/mynetlib/base/FileUtil.h, FileUtil.cc

    Appending to a file through stdio and reading a small file. What the
    i-th fwrite or read of a call answers is a parameter; loops take fuel and
    are shown to end. *)

From S2P Require Import Prelude.

(** ** AppendFile

    [fp_data] is what stdio accepted for the file since it was opened,
    [fp_flushed] how much of it was passed on by flush(). *)
Record AppendFile : Type := mkAppend {
  fp_name : list byte;
  fp_data : list byte;
  fp_flushed : Z;
  writtenBytes_ : Z;
}.

(** fopen(3) succeeds: its failure is the assertion below. *)
Definition AppendFile_ctor (filename : list byte) (opened : bool) : outcome AppendFile :=
  c_assert opened;; Ok (mkAppend filename [] 0 0).

Definition add_data (b : list byte) (f : AppendFile) : AppendFile :=
  mkAppend (fp_name f) (fp_data f ++ b) (fp_flushed f) (writtenBytes_ f).

Definition append_flush (f : AppendFile) : AppendFile :=
  mkAppend (fp_name f) (fp_data f) (zlen (fp_data f)) (writtenBytes_ f).

Section Append.

(** [fwrite i n]: how many of [n] bytes the [i]-th call accepts. *)
Context (fwrite : nat -> Z -> Z).

(** [AppendFile::write] of the bytes from [n] on. *)
Definition append_write (i : nat) (logline : list byte) (n : Z) (f : AppendFile) : Z * AppendFile :=
  let x := fwrite i (zlen logline - n) in
  (x, add_data (slice logline n (n + x)) f).

Fixpoint append_loop (fuel i : nat) (logline : list byte) (n : Z) (f : AppendFile) : option AppendFile :=
  match fuel with
  | O => None
  | S fuel' =>
      let remain := u64 (zlen logline - n) in
      if 0 <? remain then
        let '(x, f') := append_write i logline n f in
        if x =? 0 then Some f'
        else append_loop fuel' (S i) logline (u64 (n + x)) f'
      else Some f
  end.

Definition file_append (fuel : nat) (logline : list byte) (f : AppendFile) : option AppendFile :=
  let '(n, f1) := append_write 0 logline 0 f in
  f2 ← append_loop fuel 1 logline n f1;
  Some (mkAppend (fp_name f2) (fp_data f2) (fp_flushed f2) (u64 (writtenBytes_ f2 + zlen logline))).

(** fwrite(3) returns the number of bytes written, at most those asked for. *)
Definition fwrite_ok : Prop := forall i n, 0 <= n -> 0 <= fwrite i n <= n.

Lemma append_loop_ends : fwrite_ok -> forall fuel i logline n f,
  zlen logline < 2 ^ 63 -> 0 <= n <= zlen logline -> zlen logline - n < Z.of_nat fuel ->
  exists m f', append_loop fuel i logline n f = Some f' /\ n <= m <= zlen logline /\
    f' = add_data (slice logline n m) f /\ ((forall i k, 0 < k -> 0 < fwrite i k) -> m = zlen logline).
Proof.
  intros Hw. induction fuel as [|fuel IH]; intros i logline n f Hl Hn Hf; [lia|]. cbn [append_loop].
  rewrite u64_small by lia. destruct (Z.ltb_spec 0 (zlen logline - n)) as [Hr|Hr]; cycle 1.
  { exists n, f. split_and!; [done|lia|lia| |lia]. rewrite slice_nil. destruct f; cbn. unfold add_data. by rewrite app_nil_r. }
  cbn [append_write]. pose proof (Hw i (zlen logline - n) ltac:(lia)) as Hx. set (x := fwrite i _) in *.
  destruct (Z.eqb_spec x 0) as [Hx0|Hx0].
  { exists n. rewrite Hx0, Z.add_0_r. eexists. split_and!; [done|lia|lia|done|].
    intros Hpos. specialize (Hpos i (zlen logline - n) Hr). fold x in Hpos. lia. }
  rewrite u64_small by lia.
  destruct (IH (S i) logline (n + x) (add_data (slice logline n (n + x)) f)) as (m & f' & E & Hm & -> & Hfull); [lia..|].
  exists m. eexists. split_and!; [exact E|lia|lia| |done].
  unfold add_data. cbn. rewrite <- app_assoc. f_equal. f_equal. symmetry. apply slice_split; lia.
Qed.

Lemma file_append_ends logline f : fwrite_ok -> zlen logline < 2 ^ 63 ->
  exists f' m, file_append (S (length logline)) logline f = Some f' /\ fp_name f' = fp_name f /\
    fp_data f' = fp_data f ++ slice logline 0 m /\ writtenBytes_ f' = u64 (writtenBytes_ f + zlen logline) /\
    ((forall i k, 0 < k -> 0 < fwrite i k) -> m = zlen logline).
Proof.
  intros Hw Hl. unfold file_append, append_write. pose proof (zlen_nonneg logline). rewrite Z.sub_0_r.
  pose proof (Hw 0%nat (zlen logline) ltac:(lia)) as Hx. set (x := fwrite 0%nat (zlen logline)) in *.
  destruct (append_loop_ends Hw (S (length logline)) 1 logline x (add_data (slice logline 0 (0 + x)) f))
    as (m & f' & E & Hmm & -> & Hfull); [lia|lia|unfold zlen; lia|].
  rewrite E. cbn [mbind option_bind]. eexists _, m. split; [done|]. cbn. split_and!; [done| |done|done].
  rewrite Z.add_0_l, <- app_assoc. f_equal. symmetry. apply slice_split; lia.
Qed.

End Append.

(** ** ReadSmallFile *)

Definition EISDIR : Z := 21.
Definition kBufferSize : Z := 64 * 1024.

(** What open(2) answers and the file: a descriptor or an errno. *)
Record ReadSmallFile : Type := mkReadSmall { rs_fd : Z; rs_err : Z }.

Definition ReadSmallFile_ctor (fd errno : Z) : ReadSmallFile :=
  mkReadSmall fd (if fd <? 0 then errno else 0).

(** What fstat(2) answers. *)
Inductive file_kind : Set := Regular (size : Z) | Directory | OtherKind.
Inductive stat_answer : Set := StatOk (k : file_kind) | StatFail (errno : Z).

Section Read.

(** [read i n left]: the answer of the [i]-th read of [n] bytes when [left]
    bytes remain: a count, or an errno. *)
Context (read : nat -> Z -> Z -> Z + Z).

(** The new errno and the contents. *)
Fixpoint read_loop (fuel i : nat) (maxSize err : Z) (content file : list byte) : option (Z * list byte) :=
  match fuel with
  | O => None
  | S fuel' =>
      if zlen content <? u64 maxSize then
        let toRead := Z.min (u64 maxSize - zlen content) kBufferSize in
        match read i toRead (zlen file) with
        | inl n =>
            if 0 <? n then
              read_loop fuel' (S i) maxSize err (content ++ slice file 0 n) (drop (Z.to_nat n) file)
            else Some (err, content)
        | inr e => Some (e, content)
        end
      else Some (err, content)
  end.

(** The result, the contents and the size reported; [st] is the answer of
    fstat when the caller asks for the size. *)
Definition readToString (fuel : nat) (r : ReadSmallFile) (maxSize : Z) (st : option stat_answer)
    (content file : list byte) : option (Z * list byte * option Z) :=
  if 0 <=? rs_fd r then
    let '(err, fileSize) :=
      match st with
      | None => (rs_err r, None)
      | Some (StatOk (Regular n)) => (rs_err r, Some n)
      | Some (StatOk Directory) => (EISDIR, None)
      | Some (StatOk OtherKind) => (rs_err r, None)
      | Some (StatFail e) => (e, None)
      end in
    '(err', content') ← read_loop fuel 0 maxSize err [] file;
    Some (err', content', fileSize)
  else Some (rs_err r, content, None).

(** [readToBuffer]: the error, and the buffer and size when pread succeeds. *)
Definition readToBuffer (r : ReadSmallFile) (file : list byte) : Z * option (list byte * Z) :=
  if 0 <=? rs_fd r then
    match read 0 (kBufferSize - 1) (zlen file) with
    | inl n => (rs_err r, Some (slice file 0 n ++ [Byte.x00], s32 n))
    | inr e => (e, None)
    end
  else (rs_err r, None).

(** read(2) returns at most what is asked for and what is left, and nothing
    only at the end of the file. *)
Definition read_ok : Prop := forall i n left k, 0 < n -> 0 <= left -> read i n left = inl k ->
  0 <= k <= Z.min n left /\ (k = 0 -> left = 0).

Lemma read_loop_ends : read_ok -> forall fuel i maxSize err content file,
  0 <= maxSize < 2 ^ 31 -> zlen content <= maxSize -> maxSize - zlen content < Z.of_nat fuel ->
  exists err' k, read_loop fuel i maxSize err content file = Some (err', content ++ slice file 0 k) /\
    0 <= k <= maxSize - zlen content /\ k <= zlen file /\
    ((forall i n left, exists k, read i n left = inl k) ->
     err' = err /\ k = Z.min (maxSize - zlen content) (zlen file)).
Proof.
  intros Hr. induction fuel as [|fuel IH]; intros i maxSize err content file Hm Hc Hf; [lia|].
  cbn [read_loop]. rewrite u64_small by lia. pose proof (zlen_nonneg content). pose proof (zlen_nonneg file).
  assert (forall e : Z, Some (e, content) = Some (e, content ++ slice file 0 0)) as Hz by (intros; by rewrite slice_nil, app_nil_r).
  destruct (Z.ltb_spec (zlen content) maxSize) as [Hlt|Hge]; cycle 1.
  { exists err, 0. rewrite Hz. split_and!; done || lia. }
  destruct (read i _ (zlen file)) as [n|e] eqn:E; cycle 1.
  { exists e, 0. rewrite Hz. split_and!; try done; try lia. intros Hall.
    destruct (Hall i (Z.min (maxSize - zlen content) kBufferSize) (zlen file)) as [k Hk]. congruence. }
  apply Hr in E as [Hn Hend]; [|unfold kBufferSize; lia|lia].
  destruct (Z.ltb_spec 0 n) as [Hpos|Hnp]; cycle 1.
  { exists err, 0. rewrite Hz. split_and!; try done; try lia. }
  assert (zlen (slice file 0 n) = n) as Hs by (rewrite zlen_slice; lia).
  destruct (IH (S i) maxSize err (content ++ slice file 0 n) (drop (Z.to_nat n) file)) as (err' & k & Ek & Hk & Hkf & Hall);
    [lia|rewrite zlen_app; lia|rewrite zlen_app; lia|].
  assert (zlen (drop (Z.to_nat n) file) = zlen file - n) as Hd by (unfold zlen in *; rewrite length_drop; lia).
  rewrite zlen_app, Hs in *. rewrite Hd in *.
  exists err', (n + k). rewrite Ek. split_and!; try lia.
  - rewrite <- app_assoc. do 3 f_equal. rewrite (slice_split file 0 n (n + k)) by lia. f_equal.
    unfold slice. rewrite Z.sub_0_r. cbn [Z.to_nat drop]. f_equal. lia.
  - intros Hall'. destruct (Hall Hall') as [-> ->]. split; [done|lia].
Qed.

End Read.

(** ** Theorem *)

(** C33: Both loops end. Appending calls fwrite at most once per byte and
    puts a prefix of the line into the file, the whole line when fwrite
    always makes progress; reading at most [maxSize] bytes ends after at most
    that many reads with a prefix of the file, the whole of it up to that
    size when no read fails. *)
Theorem file_loops_end (fwrite : nat -> Z -> Z) (read : nat -> Z -> Z -> Z + Z) (logline file : list byte)
    (maxSize : Z) (f : AppendFile) (r : ReadSmallFile) :
  fwrite_ok fwrite -> read_ok read -> zlen logline < 2 ^ 63 -> 0 <= maxSize < 2 ^ 31 -> 0 <= rs_fd r ->
  (exists f' m, file_append fwrite (S (length logline)) logline f = Some f' /\
     fp_data f' = fp_data f ++ slice logline 0 m /\ writtenBytes_ f' = u64 (writtenBytes_ f + zlen logline) /\
     ((forall i k, 0 < k -> 0 < fwrite i k) -> m = zlen logline)) /\
  (exists err content, readToString read (S (Z.to_nat maxSize)) r maxSize None [] file = Some (err, content, None) /\
     content `prefix_of` file /\ zlen content <= maxSize /\
     ((forall i n left, exists k, read i n left = inl k) -> err = rs_err r /\ content = take (Z.to_nat maxSize) file)).
Proof.
  intros Hw Hr Hl Hm Hfd. split.
  - destruct (file_append_ends fwrite logline f Hw Hl) as (f' & m & E & _ & Hrest). by exists f', m.
  - unfold readToString. destruct (Z.leb_spec 0 (rs_fd r)); [|lia].
    destruct (read_loop_ends read Hr (S (Z.to_nat maxSize)) 0 maxSize (rs_err r) [] file) as (err & k & E & Hk & Hkf & Hall);
      [lia|rewrite zlen_nil; lia|rewrite zlen_nil; lia|].
    rewrite E. cbn [mbind option_bind app]. exists err, (slice file 0 k). split; [done|].
    rewrite zlen_nil in *. split_and!.
    + exists (drop (Z.to_nat k) file). unfold slice. rewrite Z.sub_0_r. cbn [Z.to_nat drop]. by rewrite take_drop.
    + rewrite zlen_slice; lia.
    + intros Ha. destruct (Hall Ha) as [-> ->]. split; [done|]. unfold slice. rewrite !Z.sub_0_r. cbn [Z.to_nat drop].
      rewrite Z2Nat.inj_min. unfold zlen. rewrite Nat2Z.id. destruct (Nat.le_ge_cases (Z.to_nat maxSize) (length file)).
      * by rewrite Nat.min_l.
      * rewrite Nat.min_r, !take_ge by done. done.
Qed.

(** A disk that takes 3 bytes at a time, and a file read 2 bytes at a time. *)
Lemma file_loops_end_witness :
  exists f' content, file_append (fun _ n => Z.min 3 n) 6 [Byte.x41; Byte.x42; Byte.x43; Byte.x44; Byte.x0a] (mkAppend [] [] 0 0) = Some f' /\
    readToString (fun _ n left => inl (Z.min 2 (Z.min n left))) 5 (mkReadSmall 7 0) 4 None [] [Byte.x41; Byte.x42; Byte.x43] =
      Some (0, content, None) /\ content `prefix_of` [Byte.x41; Byte.x42; Byte.x43].
Proof.
  destruct (file_loops_end (fun _ n => Z.min 3 n) (fun _ n left => inl (Z.min 2 (Z.min n left)))
    [Byte.x41; Byte.x42; Byte.x43; Byte.x44; Byte.x0a] [Byte.x41; Byte.x42; Byte.x43] 4 (mkAppend [] [] 0 0) (mkReadSmall 7 0))
    as ((f' & m & E & _) & (err & content & E2 & Hp & _ & Hall)).
  - intros i n Hn. lia.
  - intros i n left k Hn Hleft [= <-]. lia.
  - reflexivity.
  - lia.
  - cbn. lia.
  - destruct (Hall ltac:(eauto)) as [He _]. exists f', content. split; [exact E|]. split; [|exact Hp]. rewrite He in E2. exact E2.
Defined.
