(* ===== verification/LogFile.v ===== *)
(** * Log files: src/mynetlib/base/LogFile.h, LogFile.cc

    A file the log is appended to, replaced by a new one when it is full or
    the day changed. What time(2), fopen and fwrite answer is an argument of
    each call; the host name and process id that make up a file's name are
    parameters. The files closed so far are kept as a history. The optional
    mutex makes each call one step. *)

From stdpp Require Import sorting.
From S2P Require Import Prelude Format Timestamp Date TimeZone TimeZoneSpec FileUtil.

(** ** What a log writer relies on *)

Class LogSink (E S : Type) := {
  sink_append : E -> list byte -> S -> outcome S;
  sink_flush : S -> outcome S;
  sink_text : S -> list byte;
  sink_inv : S -> Prop;
  sink_env_ok : E -> Prop;
  sink_append_spec e l s : sink_inv s -> sink_env_ok e -> zlen l < 2 ^ 31 ->
    exists s', sink_append e l s = Ok s' /\ sink_inv s' /\ sink_text s' = sink_text s ++ l;
  sink_flush_spec s : sink_inv s ->
    exists s', sink_flush s = Ok s' /\ sink_inv s' /\ sink_text s' = sink_text s;
}.

(** ** The class *)

Record LogFile : Type := mkLogFile {
  basename_ : list byte;
  rollSize_ : Z;
  flushInterval_ : Z;
  checkEveryN_ : Z;
  count_ : Z;
  startOfPeriod_ : Z;
  lastRoll_ : Z;
  lastFlush_ : Z;
  file_ : option AppendFile;
  closed_files : list AppendFile;
}.

Definition set_file x l := mkLogFile (basename_ l) (rollSize_ l) (flushInterval_ l) (checkEveryN_ l) (count_ l)
  (startOfPeriod_ l) (lastRoll_ l) (lastFlush_ l) x (closed_files l).
Definition set_count x l := mkLogFile (basename_ l) (rollSize_ l) (flushInterval_ l) (checkEveryN_ l) x
  (startOfPeriod_ l) (lastRoll_ l) (lastFlush_ l) (file_ l) (closed_files l).
Definition set_lastFlush x l := mkLogFile (basename_ l) (rollSize_ l) (flushInterval_ l) (checkEveryN_ l) (count_ l)
  (startOfPeriod_ l) (lastRoll_ l) x (file_ l) (closed_files l).

Definition kRollPerSeconds_ : Z := 60 * 60 * 24.

(** The answers of the two time(2) calls of an append, of fopen and of fwrite. *)
Record log_env : Type := mkLogEnv {
  time1 : Z;
  time2 : Z;
  fopen_ok : bool;
  fw : nat -> Z -> Z;
}.

Section Class.

Context (hostname pid : list byte).

(** [strftime] writes nothing when the text does not fit. *)
Definition strftime (size : Z) (text : list byte) : list byte := if zlen text <? size then text else [].

Definition roll_time (tm : tm) : list byte :=
  str "." ++ fmt_d (tm_year tm + 1900) ++ fmt_0d 2 (tm_mon tm + 1) ++ fmt_0d 2 (tm_mday tm) ++ str "-" ++
  fmt_0d 2 (tm_hour tm) ++ fmt_0d 2 (tm_min tm) ++ fmt_0d 2 (tm_sec tm) ++ str ".".

Definition file_name (basename : list byte) (tm : tm) : list byte :=
  basename ++ strftime 32 (roll_time tm) ++ hostname ++ snprintf 32 (str "." ++ pid) ++ str ".log".

Definition getLogFileName (basename : list byte) (now : Z) : outcome (list byte) :=
  tm ← gmtime_unchecked now; Ok (file_name basename tm).

Definition rollFile (now : Z) (fopen : bool) (l : LogFile) : outcome (bool * LogFile) :=
  filename ← getLogFileName (basename_ l) now;
  let start := Z.quot now kRollPerSeconds_ * kRollPerSeconds_ in
  if lastRoll_ l <? now then
    f ← AppendFile_ctor filename fopen;
    Ok (true, mkLogFile (basename_ l) (rollSize_ l) (flushInterval_ l) (checkEveryN_ l) (count_ l)
                start now now (Some f) (closed_files l ++ option_list (file_ l)))
  else Ok (false, l).

(** [basename.find('/')] fails. *)
Definition LogFile_ctor (now : Z) (fopen : bool) (basename : list byte) (rollSize flushInterval checkEveryN : Z) :
    outcome LogFile :=
  c_assert (negb (bool_decide (Byte.x2f ∈ basename)));;
  '(_, l) ← rollFile now fopen (mkLogFile basename rollSize flushInterval checkEveryN 0 0 0 0 None []);
  Ok l.

Definition append_unlocked (e : log_env) (logline : list byte) (l : LogFile) : outcome LogFile :=
  match file_ l with
  | None => Fail UseAfterFree
  | Some f =>
      match file_append (fw e) (S (length logline)) logline f with
      | None => Fail Fatal
      | Some f' =>
          let l1 := set_file (Some f') l in
          if rollSize_ l1 <? writtenBytes_ f' then
            '(_, l2) ← rollFile (time1 e) (fopen_ok e) l1; Ok l2
          else
            let l2 := set_count (s32 (count_ l1 + 1)) l1 in
            if checkEveryN_ l2 <=? count_ l2 then
              let l3 := set_count 0 l2 in
              let now := time1 e in
              let thisPeriod := Z.quot now kRollPerSeconds_ * kRollPerSeconds_ in
              if negb (thisPeriod =? startOfPeriod_ l3) then
                '(_, l4) ← rollFile (time2 e) (fopen_ok e) l3; Ok l4
              else if flushInterval_ l3 <? now - lastFlush_ l3 then
                Ok (set_file (Some (append_flush f')) (set_lastFlush now l3))
              else Ok l3
            else Ok l2
      end
  end.

Definition logfile_flush (l : LogFile) : outcome LogFile :=
  match file_ l with
  | None => Fail UseAfterFree
  | Some f => Ok (set_file (Some (append_flush f)) l)
  end.

(** Every file, oldest first. *)
Definition all_files (l : LogFile) : list AppendFile := closed_files l ++ option_list (file_ l).

Definition log_text (l : LogFile) : list byte := all_files l ≫= fp_data.

(** ** Names *)

Lemma fmt_02_parse n : 0 <= n < 100 -> length (fmt_0d 2 n) = 2%nat /\ parse_u (fmt_0d 2 n) = n.
Proof.
  intros Hn. unfold fmt_0d. destruct (Z.ltb_spec n 0); [lia|]. rewrite length_pad, parse_u_pad0, fmt_u_parse by lia.
  pose proof (fmt_u_length n 2 ltac:(lia) ltac:(lia)). lia.
Qed.

(** The ranges of the fields. *)
Lemma gmtime_fields t : let x := gm_fields t in
  0 <= tm_mon x < 12 /\ 1 <= tm_mday x <= 31 /\ 0 <= tm_hour x < 24 /\ 0 <= tm_min x < 60 /\ 0 <= tm_sec x < 60.
Proof.
  unfold gm_fields. cbn [tm_mon tm_mday tm_hour tm_min tm_sec].
  destruct (ymd_of_spec (t / kSecondsPerDay + 2440588)) as (Hc & _).
  destruct (calendar_day_bounds _ Hc) as (Hm & Hd & Hd').
  pose proof (Z.mod_pos_bound t kSecondsPerDay ltac:(done)) as Hs. change kSecondsPerDay with 86400 in *.
  pose proof (Z.mod_pos_bound (t mod 86400 / 60) 60 ltac:(lia)). pose proof (Z.mod_pos_bound (t mod 86400) 60 ltac:(lia)).
  split_and!; try lia; [apply Z.div_pos; lia|apply Z.div_lt_upper_bound; lia].
Qed.

(** Two texts of two digits each, and what follows. *)
Lemma fmt_02_inj a b s s' : 0 <= a < 100 -> 0 <= b < 100 -> fmt_0d 2 a ++ s = fmt_0d 2 b ++ s' -> a = b /\ s = s'.
Proof.
  intros Ha Hb E. destruct (fmt_02_parse a Ha) as [La Pa], (fmt_02_parse b Hb) as [Lb Pb].
  apply app_inj_1 in E as [E ->]; [|by rewrite La, Lb]. split; [|done]. by rewrite <- Pa, <- Pb, E.
Qed.

Lemma roll_time_inj a b s : roll_time (gm_fields a) ++ s = roll_time (gm_fields b) ++ s -> a = b.
Proof.
  intros E%app_inv_tail. unfold roll_time in E. apply app_inv_head in E.
  pose proof (gmtime_fields a) as (?&?&?&?&?). pose proof (gmtime_fields b) as (?&?&?&?&?).
  rewrite <- (timegm_gmtime a), <- (timegm_gmtime b). unfold timegm.
  set (x := gm_fields a) in *. set (y := gm_fields b) in *. clearbody x y.
  apply app_inj_2 in E as [Ey E].
  2: { rewrite !length_app. repeat rewrite (fun n H => proj1 (fmt_02_parse n H)) by lia. done. }
  apply (f_equal parse_d) in Ey. rewrite !fmt_d_parse in Ey.
  apply fmt_02_inj in E as [Em E]; [|lia..]. apply fmt_02_inj in E as [Ed E]; [|lia..]. apply app_inv_head in E.
  apply fmt_02_inj in E as [Eh E]; [|lia..]. apply fmt_02_inj in E as [Emi E]; [|lia..]. apply fmt_02_inj in E as [Es _]; [|lia..].
  assert (tm_mon x = tm_mon y) as -> by lia. assert (tm_year x = tm_year y) as -> by lia.
  rewrite Ed, Eh, Emi, Es. done.
Qed.

(** ** Invariant *)

Definition time_ok (t : Z) : Prop := 1 <= t <= 2 ^ 44.

(** The clock is after 1970, files open, and the disk takes what it is given. *)
Record env_ok (e : log_env) : Prop := mkEnvOk {
  eo_time1 : time_ok (time1 e);
  eo_time2 : time_ok (time2 e);
  eo_fopen : fopen_ok e = true;
  eo_fwrite : fwrite_ok (fw e);
  eo_progress : forall i k, 0 < k -> 0 < fw e i k;
}.

(** The name of a file opened at [t]. *)
Definition name_at (basename : list byte) (t : Z) : list byte := file_name basename (gm_fields t).

Lemma getLogFileName_ok b t : time_ok t -> getLogFileName b t = Ok (name_at b t).
Proof. unfold time_ok. intros Ht. unfold getLogFileName, gmtime_unchecked. by rewrite gmtime_ok by lia. Qed.

Record log_inv (l : LogFile) : Prop := mkLogInv {
  li_file : exists f, file_ l = Some f /\ writtenBytes_ f = u64 (zlen (fp_data f));
  li_names : exists ts, fp_name <$> all_files l = name_at (basename_ l) <$> ts /\
    StronglySorted Z.lt ts /\ last ts = Some (lastRoll_ l) /\ Forall time_ok ts;
  li_count : 0 <= count_ l < Z.max 1 (checkEveryN_ l) /\ checkEveryN_ l < 2 ^ 31;
}.

Lemma roll_time_fits t : time_ok t -> strftime 32 (roll_time (gm_fields t)) = roll_time (gm_fields t).
Proof.
  intros Ht. unfold strftime. destruct (Z.ltb_spec (zlen (roll_time (gm_fields t))) 32) as [|Hbig]; [done|]. exfalso.
  pose proof (gmtime_fields t) as (?&?&?&?&?). unfold roll_time, zlen in Hbig.
  repeat rewrite length_app in Hbig. repeat rewrite (fun n H => proj1 (fmt_02_parse n H)) in Hbig by lia.
  assert (0 <= tm_year (gm_fields t) + 1900 < 10 ^ 7) as Hy.
  { unfold gm_fields. cbn [tm_year]. unfold time_ok in Ht.
    assert (0 <= t / kSecondsPerDay < 360000000).
    { change kSecondsPerDay with 86400. split; [apply Z.div_pos|apply Z.div_lt_upper_bound]; lia. }
    destruct (ymd_range (t / kSecondsPerDay + 2440588) ltac:(lia)) as (Hm & Hd & Hy & Hj & _).
    set (ymd := ymd_of _) in *. pose proof (jdn_of_bounds (year ymd) (month ymd) (day ymd) Hm Hd). lia. }
  unfold fmt_d in Hbig. destruct (Z.ltb_spec (tm_year (gm_fields t) + 1900) 0); [lia|].
  pose proof (fmt_u_length (tm_year (gm_fields t) + 1900) 7 Hy ltac:(lia)).
  change (length (str ".")) with 1%nat in Hbig. change (length (str "-")) with 1%nat in Hbig. lia.
Qed.

Lemma name_inj b t t' : time_ok t -> time_ok t' -> name_at b t = name_at b t' -> t = t'.
Proof.
  intros Ht Ht' E. unfold name_at, file_name in E. apply app_inv_head in E.
  rewrite !roll_time_fits in E by done. by apply roll_time_inj in E.
Qed.

Lemma names_nodup l : log_inv l -> NoDup (fp_name <$> all_files l).
Proof.
  intros [_ (ts & -> & Hs & _ & Ht) _]. induction Hs as [|t ts Hs IH Hlt]; cbn; [constructor|].
  inversion Ht; subst. constructor; [|by apply IH].
  intros (t' & E & Hin)%list_elem_of_fmap. rewrite Forall_forall in *. apply name_inj in E; [|by auto..].
  subst t'. specialize (Hlt t Hin). lia.
Qed.

Lemma sorted_snoc ts a b : StronglySorted Z.lt ts -> last ts = Some a -> a < b -> StronglySorted Z.lt (ts ++ [b]).
Proof.
  intros Hs Hl Hab. apply Sorted_StronglySorted; [intros x y z; lia|].
  destruct (last_Some ts a) as [[ts' ->] _]; [done|]. clear Hl.
  apply StronglySorted_Sorted in Hs. induction ts' as [|t ts' IH]; cbn in *; [by repeat constructor|].
  inversion Hs as [|?? Hs' Hh]; subst. constructor; [by apply IH|]. destruct ts'; inversion Hh; by constructor.
Qed.

(** The settings of the log. *)
Definition same_settings (l l' : LogFile) : Prop := basename_ l' = basename_ l /\ rollSize_ l' = rollSize_ l.

(** A new, empty file was opened at [now]. *)
Definition opened (now : Z) (l l' : LogFile) : Prop :=
  exists f, file_ l' = Some f /\ fp_data f = [] /\ writtenBytes_ f = 0 /\ lastRoll_ l' = now /\
    length (all_files l') = S (length (all_files l)).

(** The file in use is named after the last roll. *)
Lemma name_in_use l f : log_inv l -> file_ l = Some f -> fp_name f = name_at (basename_ l) (lastRoll_ l).
Proof.
  intros [_ (ts & Hn & _ & Hl & _) _] Hf. unfold all_files in Hn. rewrite Hf in Hn. cbn in Hn.
  destruct (last_Some ts (lastRoll_ l)) as [[ts' ->] _]; [done|]. rewrite !fmap_app in Hn. cbn in Hn.
  by apply app_inj_tail in Hn as [_ ?].
Qed.

Lemma lastRoll_ok l : log_inv l -> time_ok (lastRoll_ l).
Proof.
  intros [_ (ts & _ & _ & Hl & Ht) _]. destruct (last_Some ts (lastRoll_ l)) as [[ts' ->] _]; [done|].
  by apply Forall_app in Ht as [_ ?%Forall_inv].
Qed.

Lemma rollFile_ok now l : log_inv l -> time_ok now ->
  exists b l', rollFile now true l = Ok (b, l') /\ log_inv l' /\ log_text l' = log_text l /\ same_settings l l' /\
    (if lastRoll_ l <? now then opened now l l' else l' = l).
Proof.
  intros [(f & Hf & Hw) (ts & Hn & Hs & Hl & Ht) Hc] Hnow. unfold rollFile. rewrite getLogFileName_ok by done. cbn [mbind outcome_bind].
  destruct (Z.ltb_spec (lastRoll_ l) now); cycle 1.
  { eexists _, l. split; [done|]. split_and!; try done. split; eauto. }
  cbn [AppendFile_ctor c_assert mbind outcome_bind]. eexists _, _. split; [done|]. split_and!; try done.
  - split; cbn; [by eexists| |done]. exists (ts ++ [now]).
    unfold all_files in *. cbn [closed_files file_ option_list basename_ lastRoll_].
    rewrite fmap_app, Hn, fmap_app. cbn. split_and!; [done|by eapply sorted_snoc|by apply last_snoc|].
    apply Forall_app_2; [done|]. by constructor.
  - unfold log_text, all_files. cbn [closed_files file_ option_list]. rewrite bind_app. cbn. by rewrite app_nil_r.
  - eexists. split; [done|]. cbn. split_and!; try done. unfold all_files. cbn. rewrite length_app. cbn. lia.
Qed.
  
(** The current file grew. *)
Lemma set_file_ok l f f' line : log_inv l -> file_ l = Some f -> fp_name f' = fp_name f -> fp_data f' = fp_data f ++ line ->
  writtenBytes_ f' = u64 (zlen (fp_data f')) ->
  log_inv (set_file (Some f') l) /\ log_text (set_file (Some f') l) = log_text l ++ line.
Proof.
  intros [_ (ts & Hn & Hs) Hc] Hf Hname Hd Hw. split.
  - split; [by eexists| |done]. exists ts. split; [|done]. unfold all_files in *. rewrite Hf in Hn. cbn in *.
    by rewrite fmap_app in *; cbn in *; rewrite Hname.
  - unfold log_text, all_files. rewrite Hf. cbn. rewrite !bind_app. cbn. by rewrite Hd, !app_nil_r, app_assoc.
Qed.

Lemma set_count_ok l n : log_inv l -> 0 <= n < Z.max 1 (checkEveryN_ l) ->
  log_inv (set_count n l) /\ log_text (set_count n l) = log_text l.
Proof. intros [Hf Hn [_ Hc]] Hr. split; [by split|done]. Qed.

(** After an append the file in use is within the limit, unless the clock is
    not past the last roll; when the line made the file too large and the clock
    is past the last roll, a new file was opened. *)
Definition rolled (e : log_env) (line : list byte) (l l' : LogFile) : Prop :=
  exists f f', file_ l = Some f /\ file_ l' = Some f' /\
    (writtenBytes_ f' <= rollSize_ l \/ time1 e <= lastRoll_ l) /\
    (rollSize_ l < u64 (zlen (fp_data f) + zlen line) -> lastRoll_ l < time1 e -> opened (time1 e) l l').

Lemma append_unlocked_ok e line l : log_inv l -> env_ok e -> zlen line < 2 ^ 31 ->
  exists l', append_unlocked e line l = Ok l' /\ log_inv l' /\ log_text l' = log_text l ++ line /\
    same_settings l l' /\ (0 <= rollSize_ l -> rolled e line l l').
Proof.
  intros Hi [Ht1 Ht2 Hop Hfw Hpr] Hline. pose proof (li_file _ Hi) as (f & Hf & Hw).
  unfold append_unlocked. rewrite Hf, Hop.
  destruct (file_append_ends (fw e) line f Hfw ltac:(lia)) as (f' & m & -> & Hname & Hd & Hw' & Hm).
  rewrite Hm, slice_all in Hd by done.
  assert (writtenBytes_ f' = u64 (zlen (fp_data f'))) as Hwf.
  { rewrite Hw', Hw, Hd, zlen_app. unfold u64. by rewrite Zplus_mod_idemp_l. }
  destruct (set_file_ok l f f' line Hi Hf Hname Hd Hwf) as [Hi1 Htext]. set (l1 := set_file (Some f') l) in *.
  assert (length (all_files l1) = length (all_files l)) as Hlen1.
  { unfold all_files. cbn. by rewrite Hf, !length_app. }
  assert (u64 (zlen (fp_data f) + zlen line) = writtenBytes_ f') as Hsize by (by rewrite Hwf, Hd, zlen_app).
  assert (forall l', file_ l' <> None -> (forall g, file_ l' = Some g -> writtenBytes_ g <= rollSize_ l) ->
    writtenBytes_ f' <= rollSize_ l -> rolled e line l l') as Hsmall.
  { intros l' Hg Hle Hsm. destruct (file_ l') as [g|] eqn:Eg; [|done]. exists f, g. split_and!; try done; [left; by apply Hle|].
    rewrite Hsize. lia. }
  destruct (Z.ltb_spec (rollSize_ l1) (writtenBytes_ f')) as [Hbig|Hfit].
  { destruct (rollFile_ok (time1 e) l1 Hi1 Ht1) as (b & l' & -> & Hi' & Ht' & Hset & Hroll).
    cbn [mbind outcome_bind]. exists l'. split_and!; [done|done|congruence|done|]. intros H0.
    change (lastRoll_ l1) with (lastRoll_ l) in Hroll. destruct (Z.ltb_spec (lastRoll_ l) (time1 e)) as [Hlt|Hge].
    - destruct Hroll as (g & Hg & Hg0 & Hgw & Hlr & Hlen). exists f, g. split_and!; try done; [left; lia|].
      intros _ _. exists g. split_and!; try done. congruence.
    - subst l'. exists f, f'. split_and!; try done; [by right|lia]. }
  pose proof (li_count _ Hi1) as [Hc HN]. cbn [checkEveryN_ set_count].
  rewrite s32_small by lia. cbn [count_ set_count].
  destruct (Z.leb_spec (checkEveryN_ l1) (count_ l1 + 1)) as [Hcheck|Hno]; cycle 1.
  { destruct (set_count_ok l1 (count_ l1 + 1) Hi1 ltac:(lia)) as [Hi2 Ht]. eexists. split; [done|].
    split_and!; [done|congruence|done|]. intros _. apply Hsmall; [done|by intros g [= <-]|done]. }
  change (set_count 0 (set_count (count_ l1 + 1) l1)) with (set_count 0 l1).
  destruct (set_count_ok l1 0 Hi1 ltac:(lia)) as [Hi2 Ht]. set (l2 := set_count 0 l1) in *.
  destruct (negb _).
  { destruct (rollFile_ok (time2 e) l2 Hi2 Ht2) as (b & l' & -> & Hi' & Ht' & Hset & Hroll).
    cbn [mbind outcome_bind]. exists l'. split_and!; [done|done|congruence|done|]. intros H0. destruct (_ <? _).
    - destruct Hroll as (g & Hg & _ & Hgw & _). apply Hsmall; [congruence|intros g'; rewrite Hg; intros [= <-]; lia|done].
    - subst l'. apply Hsmall; [done|by intros g [= <-]|done]. }
  destruct (_ <? _); [|exists l2; split_and!; [done|done|congruence|done|intros _; apply Hsmall; [done|by intros g [= <-]|done]]].
  eexists. split; [done|].
  destruct (set_file_ok l2 f' (append_flush f') [] Hi2 eq_refl eq_refl ltac:(by rewrite app_nil_r) Hwf) as [[] Ht3].
  rewrite app_nil_r in Ht3. split_and!; [by split| |done|intros _; apply Hsmall; [done|by intros g [= <-]|done]].
  change (log_text (set_file (Some (append_flush f')) l2) = log_text l ++ line). congruence.
Qed.

Lemma logfile_flush_ok l : log_inv l -> exists l', logfile_flush l = Ok l' /\ log_inv l' /\ log_text l' = log_text l.
Proof.
  intros Hi. destruct (li_file _ Hi) as (f & Hf & Hw). unfold logfile_flush. rewrite Hf. eexists. split; [done|].
  destruct (set_file_ok l f (append_flush f) [] Hi Hf eq_refl ltac:(by rewrite app_nil_r) Hw) as [? Ht].
  by rewrite app_nil_r in Ht.
Qed.

(** A LogFile is what a log writer relies on. *)
#[export] Instance LogFile_sink : LogSink log_env LogFile.
Proof.
  refine {| sink_append := append_unlocked; sink_flush := logfile_flush; sink_text := log_text;
            sink_inv := log_inv; sink_env_ok := env_ok |}.
  - intros e line l Hi He Hl. destruct (append_unlocked_ok e line l Hi He Hl) as (l' & ? & ? & ? & _). eauto.
  - apply logfile_flush_ok.
Defined.

End Class.

Lemma LogFile_ctor_ok hostname pid now basename rollSize flushInterval checkEveryN :
  time_ok now -> ~ Byte.x2f ∈ basename -> checkEveryN < 2 ^ 31 ->
  exists l, LogFile_ctor hostname pid now true basename rollSize flushInterval checkEveryN = Ok l /\
    log_inv hostname pid l /\ log_text l = [] /\ rollSize_ l = rollSize /\ basename_ l = basename.
Proof.
  intros Ht Hb HN. unfold LogFile_ctor, rollFile. cbn [basename_]. rewrite getLogFileName_ok by done. cbn [mbind outcome_bind]. rewrite bool_decide_eq_false_2 by done. cbn [negb c_assert mbind outcome_bind lastRoll_].
  unfold time_ok in Ht. destruct (Z.ltb_spec 0 now); [|lia]. cbn [AppendFile_ctor c_assert mbind outcome_bind].
  eexists. split; [done|]. split_and!; try done. split; cbn; [by eexists| |lia].
  exists [now]. split_and!; try done. all: repeat constructor; unfold time_ok; lia.
Qed.

Definition append_all (hostname pid : list byte) : LogFile -> list (log_env * list byte) -> outcome LogFile :=
  foldM (fun l c => append_unlocked hostname pid c.1 c.2 l).

Lemma append_all_ok hostname pid cs : forall l, log_inv hostname pid l ->
  Forall (fun c => env_ok c.1 /\ zlen c.2 < 2 ^ 31) cs ->
  exists l', append_all hostname pid l cs = Ok l' /\ log_inv hostname pid l' /\ log_text l' = log_text l ++ (cs ≫= snd) /\
    same_settings l l'.
Proof.
  induction cs as [|[e line] cs IH]; intros l Hi Hc; cbn.
  - exists l. rewrite app_nil_r. done.
  - inversion Hc as [|?? [He Hl] Hc']; subst. cbn in *.
    destruct (append_unlocked_ok hostname pid e line l Hi He Hl) as (l1 & -> & Hi1 & Ht1 & [Hs1 Hs2] & _). cbn.
    destruct (IH l1 Hi1 Hc') as (l2 & E & Hi2 & Ht2 & [Hs3 Hs4]). exists l2. split; [exact E|]. rewrite Ht2, Ht1, app_assoc.
    split_and!; [done|done|]. split; congruence.
Qed.

(** C17: Whatever the clock does between 1970 and 2^44 seconds after it, on a
    disk that opens files and takes what it is given: the files a LogFile
    wrote, in the order it opened them, hold exactly the lines appended, none
    lost, repeated or split differently; no two files have the same name, and
    the one in use is named after the last roll. When a line makes the file
    larger than the roll size and the clock is past the last roll, a new, empty
    file is opened, named after the clock; so after each append the file in use
    is within the roll size, unless the clock was not past the last roll (the
    same second, or a clock that was set back: the roll is then refused and the
    file goes on growing, [no_roll_when_clock_back]). *)
Theorem log_file_correct (hostname pid basename : list byte) (now rollSize flushInterval checkEveryN : Z)
    (cs : list (log_env * list byte)) (e : log_env) (line : list byte) :
  time_ok now -> ~ Byte.x2f ∈ basename -> checkEveryN < 2 ^ 31 ->
  Forall (fun c => env_ok c.1 /\ zlen c.2 < 2 ^ 31) cs -> env_ok e -> zlen line < 2 ^ 31 -> 0 <= rollSize ->
  exists l0 l l' f f', LogFile_ctor hostname pid now true basename rollSize flushInterval checkEveryN = Ok l0 /\
    append_all hostname pid l0 cs = Ok l /\ append_unlocked hostname pid e line l = Ok l' /\
    (all_files l' ≫= fp_data) = (cs ≫= snd) ++ line /\ NoDup (fp_name <$> all_files l') /\
    file_ l = Some f /\ file_ l' = Some f' /\ getLogFileName hostname pid basename (lastRoll_ l') = Ok (fp_name f') /\
    (writtenBytes_ f' <= rollSize \/ time1 e <= lastRoll_ l) /\
    (rollSize < u64 (zlen (fp_data f) + zlen line) -> lastRoll_ l < time1 e ->
       fp_data f' = [] /\ writtenBytes_ f' = 0 /\ lastRoll_ l' = time1 e /\
       length (all_files l') = S (length (all_files l))).
Proof.
  intros Hnow Hb HN Hcs He Hl Ht.
  destruct (LogFile_ctor_ok hostname pid now basename rollSize flushInterval checkEveryN Hnow Hb HN) as (l0 & E0 & Hi0 & Ht0 & Hr0 & Hb0).
  destruct (append_all_ok hostname pid cs l0 Hi0 Hcs) as (l & E & Hi & Htl & [Hs1 Hs2]).
  destruct (append_unlocked_ok hostname pid e line l Hi He Hl) as (l' & E' & Hi' & Ht' & [Hs3 Hs4] & Hroll).
  rewrite Hs2, Hr0 in Hroll. destruct (Hroll Ht) as (f & f' & Hf & Hf' & Hsz & Hop). rewrite Hs2, Hr0 in Hsz, Hop.
  exists l0, l, l', f, f'. split_and!; try done.
  - change (log_text l' = (cs ≫= snd) ++ line). by rewrite Ht', Htl, Ht0.
  - by eapply names_nodup.
  - rewrite (name_in_use hostname pid l' f' Hi' Hf'), getLogFileName_ok; [|by eapply lastRoll_ok]. congruence.
  - intros H1 H2. destruct (Hop H1 H2) as (g & Hg & ?). rewrite Hf' in Hg. injection Hg as <-. done.
Qed.

(** A clock that was set back keeps a full file in use. *)
Example no_roll_when_clock_back :
  (l ← LogFile_ctor (str "h") (str "1") 100 true (str "log") 4 3 1024;
   l ← append_unlocked (str "h") (str "1") (mkLogEnv 90 90 true (fun _ n => n)) (str "abcdef") l;
   l ← append_unlocked (str "h") (str "1") (mkLogEnv 95 95 true (fun _ n => n)) (str "ghijkl") l;
   Ok (fp_data <$> all_files l)) = Ok [str "abcdefghijkl"].
Proof. vm_compute. reflexivity. Qed.

(** Three appends of a file that rolls after 4 bytes, the second in the
    second the file was opened. *)
Definition demo_env (t : Z) : log_env := mkLogEnv t t true (fun _ n => n).

Lemma demo_env_ok t : time_ok t -> env_ok (demo_env t).
Proof. intros Ht. split; cbn; done || (intros i n Hn; lia). Qed.

Lemma log_file_correct_witness :
  exists l0 l l', LogFile_ctor (str "h") (str "1") 100 true (str "log") 4 3 1024 = Ok l0 /\
    append_all (str "h") (str "1") l0 [(demo_env 100, str "abcd"); (demo_env 100, str "ef")] = Ok l /\
    append_unlocked (str "h") (str "1") (demo_env 101) (str "g") l = Ok l' /\
    (all_files l' ≫= fp_data) = str "abcdefg" /\
    (fp_name <$> all_files l') = [str "log.19700101-000140.h.1.log"; str "log.19700101-000141.h.1.log"] /\
    NoDup (fp_name <$> all_files l') /\ exists f', file_ l' = Some f' /\ fp_data f' = [] /\ lastRoll_ l' = 101.
Proof.
  destruct (log_file_correct (str "h") (str "1") (str "log") 100 4 3 1024
    [(demo_env 100, str "abcd"); (demo_env 100, str "ef")] (demo_env 101) (str "g"))
    as (l0 & l & l' & f & f' & E0 & E & E' & Ht & Hn & Hf & Hf' & _ & _ & Hop).
  - unfold time_ok. lia.
  - apply (bool_decide_unpack _). reflexivity.
  - lia.
  - repeat apply Forall_cons_2; [..|apply Forall_nil_2]; (split; [apply demo_env_ok; unfold time_ok; lia|reflexivity]).
  - apply demo_env_ok. unfold time_ok. lia.
  - reflexivity.
  - lia.
  - exists l0, l, l'. split; [exact E0|]. split; [exact E|]. split; [exact E'|]. split; [exact Ht|].
    vm_compute in E0. injection E0 as <-. vm_compute in E. injection E as <-. vm_compute in Hf. injection Hf as <-.
    destruct (Hop ltac:(vm_compute; reflexivity) ltac:(vm_compute; reflexivity)) as (Hd & _ & Hr & _).
    split; [vm_compute in E'; injection E' as <-; vm_compute; reflexivity|]. split; [exact Hn|].
    exists f'. split; [exact Hf'|]. split; [exact Hd|exact Hr].
Defined.
