(* ===== verification/AsyncLogging.v ===== *)
(** * Asynchronous logging: src/mynetlib/base/AsyncLogging.h, AsyncLogging.cc

    Any thread appends lines to the current buffer under a mutex; a thread of
    its own swaps the full buffers against empty ones and writes them out. A
    step is one critical section, or what the thread does between two. The
    thread's wait for a notification is timed, so it may go on at any moment.
    The buffers have [SIZE] bytes, [mem0] is what a new one contains. The
    destination is anything that keeps the promises of [LogSink]. *)

From S2P Require Import Prelude Format LogStream FileUtil LogFile.

(** Where the thread is: at the head of its loop, in waitForSeconds, past the
    critical section, or finished. *)
Inductive thread_pc : Set := Top | Waiting | Writing | Finished.

#[export] Instance thread_pc_eq_dec : EqDecision thread_pc.
Proof. solve_decision. Defined.

(** [batches] records the buffers the thread wrote at each turn, with the time
    stamp of that turn. *)
Record AsyncLogging (S : Type) : Type := mkAsync {
  running_ : bool;
  currentBuffer_ : option FixedBuffer;
  nextBuffer_ : option FixedBuffer;
  buffers_ : list FixedBuffer;
  pc : thread_pc;
  newBuffer1 : option FixedBuffer;
  newBuffer2 : option FixedBuffer;
  buffersToWrite : list FixedBuffer;
  output : S;
  batches : list (list byte * list FixedBuffer);
}.

Arguments mkAsync {S}.
Arguments running_ {S}.
Arguments currentBuffer_ {S}.
Arguments nextBuffer_ {S}.
Arguments buffers_ {S}.
Arguments pc {S}.
Arguments newBuffer1 {S}.
Arguments newBuffer2 {S}.
Arguments buffersToWrite {S}.
Arguments output {S}.
Arguments batches {S}.

Section Async.

Context {E S : Type} `{!LogSink E S}.
Context (SIZE : Z) (mem0 : list byte).

Abbreviation async := (AsyncLogging S).

Definition new_buffer : FixedBuffer := FixedBuffer_ctor mem0.
Definition zeroed_buffer : FixedBuffer := fixed_bzero new_buffer.

(** The constructor, start() and the beginning of threadFunc. *)
Definition AsyncLogging_start (out : S) : async :=
  mkAsync true (Some zeroed_buffer) (Some zeroed_buffer) [] Top (Some zeroed_buffer) (Some zeroed_buffer) [] out [].

Definition async_append (logline : list byte) (a : async) : outcome async :=
  match currentBuffer_ a with
  | None => Fail UseAfterFree
  | Some cur =>
      if zlen logline <? avail cur then
        cur' ← fixed_append logline cur;
        Ok (mkAsync (running_ a) (Some cur') (nextBuffer_ a) (buffers_ a) (pc a) (newBuffer1 a) (newBuffer2 a)
              (buffersToWrite a) (output a) (batches a))
      else
        let buffers := buffers_ a ++ [cur] in
        let cur1 := match nextBuffer_ a with Some n => n | None => new_buffer end in
        cur' ← fixed_append logline cur1;
        Ok (mkAsync (running_ a) (Some cur') None buffers (pc a) (newBuffer1 a) (newBuffer2 a)
              (buffersToWrite a) (output a) (batches a))
  end.

(** stop(): the flag, and a notification. *)
Definition async_stop (a : async) : async :=
  mkAsync false (currentBuffer_ a) (nextBuffer_ a) (buffers_ a) (pc a) (newBuffer1 a) (newBuffer2 a)
    (buffersToWrite a) (output a) (batches a).

Definition set_pc (p : thread_pc) (a : async) : async :=
  mkAsync (running_ a) (currentBuffer_ a) (nextBuffer_ a) (buffers_ a) p (newBuffer1 a) (newBuffer2 a)
    (buffersToWrite a) (output a) (batches a).

(** The critical section after the wait, and the assertion behind it. *)
Definition collect (a : async) : outcome async :=
  match currentBuffer_ a with
  | None => Fail UseAfterFree
  | Some cur =>
      let taken := buffers_ a ++ [cur] in
      c_assert (negb (bool_decide (taken = [])));;
      Ok (mkAsync (running_ a) (newBuffer1 a)
            (match nextBuffer_ a with Some n => Some n | None => newBuffer2 a end)
            (buffersToWrite a) Writing None
            (match nextBuffer_ a with Some _ => newBuffer2 a | None => None end)
            taken (output a) (batches a))
  end.

Definition drop_notice (stamp : list byte) (n : Z) : list byte :=
  snprintf 256 (str "Dropped log messages at " ++ stamp ++ str ", " ++ fmt_d n ++ str " larger buffers" ++ [Byte.x0a]).

(** The [for] loop over the buffers; [env i] is the environment of the i-th
    append of this turn. *)
Fixpoint append_buffers (env : nat -> E) (i : nat) (bs : list FixedBuffer) (out : S) : outcome S :=
  match bs with
  | [] => Ok out
  | b :: bs' => out' ← sink_append (env i) (fixed_toString b) out; append_buffers env (1 + i) bs' out'
  end.

(** [newBuffer = buffersToWrite.pop_back(); newBuffer->reset()] when it is null. *)
Definition refill (nb : option FixedBuffer) (bs : list FixedBuffer) : outcome (option FixedBuffer * list FixedBuffer) :=
  match nb with
  | Some b => Ok (Some b, bs)
  | None =>
      match last bs with
      | Some b => Ok (Some (fixed_reset b), removelast bs)
      | None => Fail AssertFail
      end
  end.

Definition write_out (env : nat -> E) (stamp : list byte) (a : async) : outcome async :=
  let bs := buffersToWrite a in
  '(out1, bs1) ←
    (if 25 <? zlen bs then
       out ← sink_append (env 0%nat) (drop_notice stamp (zlen bs - 2)) (output a);
       Ok (out, take 2 bs)
     else Ok (output a, bs));
  out2 ← append_buffers env 1 bs1 out1;
  let bs2 := if 2 <? zlen bs1 then take 2 bs1 else bs1 in
  '(nb1, bs3) ← refill (newBuffer1 a) bs2;
  '(nb2, _) ← refill (newBuffer2 a) bs3;
  out3 ← sink_flush out2;
  Ok (mkAsync (running_ a) (currentBuffer_ a) (nextBuffer_ a) (buffers_ a) Top nb1 nb2 [] out3
        (batches a ++ [(stamp, bs)])).

Definition is_empty_buffer (nb : option FixedBuffer) : bool :=
  match nb with Some b => fixed_length b =? 0 | None => false end.

Definition thread_step (env : nat -> E) (stamp : list byte) (a : async) : outcome async :=
  match pc a with
  | Top =>
      if running_ a then
        c_assert (is_empty_buffer (newBuffer1 a));;
        c_assert (is_empty_buffer (newBuffer2 a));;
        c_assert (bool_decide (buffersToWrite a = []));;
        if bool_decide (buffers_ a = []) then Ok (set_pc Waiting a) else collect a
      else
        out ← sink_flush (output a);
        Ok (mkAsync (running_ a) (currentBuffer_ a) (nextBuffer_ a) (buffers_ a) Finished (newBuffer1 a) (newBuffer2 a)
              (buffersToWrite a) out (batches a))
  | Waiting => collect a
  | Writing => write_out env stamp a
  | Finished => Ok a
  end.

Inductive async_label : Type :=
| LAppend (logline : list byte)
| LStopLogging
| LThread (env : nat -> E) (stamp : list byte).

Definition async_step (a : async) (l : async_label) : outcome async :=
  match l with
  | LAppend line => async_append line a
  | LStopLogging => Ok (async_stop a)
  | LThread env stamp => thread_step env stamp a
  end.

(** ** What is promised *)

Definition texts (bs : list FixedBuffer) : list byte := bs ≫= fixed_toString.

(** Lines longer than a buffer are dropped. *)
Definition accepted (l : async_label) : list byte :=
  match l with
  | LAppend line => if zlen line <? SIZE then line else []
  | _ => []
  end.

(** What the thread writes for a batch. *)
Definition written_of (batch : list byte * list FixedBuffer) : list byte :=
  if 25 <? zlen batch.2 then drop_notice batch.1 (zlen batch.2 - 2) ++ texts (take 2 batch.2) else texts batch.2.

(** What is not yet written. *)
Definition pending (a : async) : list byte :=
  texts (buffersToWrite a) ++ texts (buffers_ a) ++ texts (option_list (currentBuffer_ a)).

Definition label_ok (l : async_label) : Prop :=
  match l with
  | LAppend line => zlen line < 2 ^ 31
  | LStopLogging => True
  | LThread env _ => forall i, sink_env_ok (env i)
  end.

(** ** Invariant *)

Definition fresh (b : FixedBuffer) : Prop := fixed_inv SIZE b /\ cur_ b = 0.

Definition fresh_opt (nb : option FixedBuffer) : Prop := exists b, nb = Some b /\ fresh b.

Record ainv (a : async) : Prop := mkAinv {
  ai_cur : exists b, currentBuffer_ a = Some b /\ fixed_inv SIZE b;
  ai_next : match nextBuffer_ a with Some n => fresh n | None => buffers_ a <> [] end;
  ai_bufs : Forall (fixed_inv SIZE) (buffers_ a);
  ai_thread :
    if bool_decide (pc a = Writing) then
      newBuffer1 a = None /\ buffersToWrite a <> [] /\ Forall (fixed_inv SIZE) (buffersToWrite a) /\
      match newBuffer2 a with Some b => fresh b | None => (2 <= length (buffersToWrite a))%nat end
    else fresh_opt (newBuffer1 a) /\ fresh_opt (newBuffer2 a) /\ buffersToWrite a = [];
  ai_sink : sink_inv (output a);
}.

Lemma texts_app bs bs' : texts (bs ++ bs') = texts bs ++ texts bs'.
Proof. apply bind_app. Qed.

Lemma texts_one b : texts [b] = fixed_toString b.
Proof. apply app_nil_r. Qed.

Lemma texts_opt b : texts (option_list (Some b)) = fixed_toString b.
Proof. apply app_nil_r. Qed.

Lemma fresh_text b : fresh b -> fixed_toString b = [] /\ fixed_length b = 0.
Proof.
  intros [Hi Hc]. destruct (avail_eq SIZE b Hi) as [_ Hl]. rewrite Hc in Hl. split; [|done].
  unfold fixed_toString. rewrite Hl. apply slice_nil.
Qed.

Lemma text_length b : fixed_inv SIZE b -> zlen (fixed_toString b) = cur_ b /\ zlen (fixed_toString b) < 2 ^ 31.
Proof.
  intros Hi. pose proof Hi as [Hs Hint Hc]. destruct (avail_eq SIZE b Hi) as [_ Hl].
  unfold fixed_toString. rewrite Hl, zlen_slice; lia.
Qed.

Context (size_ok : 0 < SIZE < 2 ^ 31) (mem0_size : zlen mem0 = SIZE).

Lemma new_fresh : fresh new_buffer.
Proof. split; [|done]. split; cbn; lia. Qed.

Lemma zeroed_fresh : fresh zeroed_buffer.
Proof.
  split; [|done]. split; cbn; [|lia|lia]. unfold zlen in *. by rewrite length_replicate.
Qed.

(** Appending to the current buffer when the line fits, or to a fresh one. *)
Lemma append_text b line : fixed_inv SIZE b -> (zlen line < avail b \/ fresh b) ->
  exists b', fixed_append line b = Ok b' /\ fixed_inv SIZE b' /\
    fixed_toString b' = fixed_toString b ++ (if zlen line <? SIZE then line else []).
Proof.
  intros Hi Hfit. destruct (fixed_append_ok SIZE b line Hi) as (b' & Eb & Hi' & Ht). exists b'. split_and!; [done|done|].
  rewrite Ht. f_equal. destruct (text_length b Hi) as [Hl _]. destruct (avail_eq SIZE b Hi) as [Ha _].
  rewrite Hl. destruct Hi as [_ _ Hc]. destruct Hfit as [Hf|[_ Hf]]; zcases; done || lia.
Qed.

Lemma async_append_ok a line : ainv a -> zlen line < 2 ^ 31 ->
  exists a', async_append line a = Ok a' /\ ainv a' /\ pending a' = pending a ++ accepted (LAppend line) /\
    output a' = output a /\ batches a' = batches a.
Proof.
  intros [(b & Hb & Hi) Hn Hbs Ht Hs] Hl. unfold async_append, pending. rewrite Hb. cbn [accepted].
  destruct (Z.ltb_spec (zlen line) (avail b)) as [Hfit|Hfull].
  - destruct (append_text b line Hi ltac:(by left)) as (b' & -> & Hi' & Htx). cbn [mbind outcome_bind].
    eexists. split; [done|]. cbn [pc buffersToWrite buffers_ currentBuffer_ output batches].
    split_and!; [by split; eauto| |done|done]. by rewrite !texts_opt, Htx, !app_assoc.
  - set (b1 := match nextBuffer_ a with Some n => n | None => new_buffer end).
    assert (fresh b1) as Hf by (unfold b1; destruct (nextBuffer_ a); [done|apply new_fresh]).
    destruct (append_text b1 line (proj1 Hf) ltac:(by right)) as (b' & -> & Hi' & Htx). cbn [mbind outcome_bind].
    eexists. split; [done|]. cbn [pc buffersToWrite buffers_ currentBuffer_ output batches].
    split_and!; [|by rewrite texts_app, texts_one, !texts_opt, Htx, (proj1 (fresh_text _ Hf)), app_nil_l, !app_assoc|done|done].
    split; cbn; eauto.
    + by destruct (buffers_ a).
    + apply Forall_app_2; [done|by constructor].
Qed.

Lemma collect_ok a : ainv a -> pc a <> Writing ->
  exists a', collect a = Ok a' /\ ainv a' /\ pending a' = pending a /\ output a' = output a /\ batches a' = batches a.
Proof.
  intros [(b & Hb & Hi) Hn Hbs Ht Hs] Hp. rewrite bool_decide_eq_false_2 in Ht by done.
  destruct Ht as ((b1 & H1 & F1) & (b2 & H2 & F2) & Hw). unfold collect, pending. rewrite Hb, H1, H2, Hw.
  rewrite bool_decide_eq_false_2 by (by destruct (buffers_ a)). cbn [negb c_assert mbind outcome_bind].
  eexists. split; [done|]. cbn [pc buffersToWrite buffers_ currentBuffer_ output batches].
  split_and!; [|by rewrite texts_app, texts_one, !texts_opt, (proj1 (fresh_text _ F1)), !app_nil_r|done|done].
  split; cbn; [eexists; split; [done|apply F1]|by destruct (nextBuffer_ a)|constructor| |done].
  split_and!; [done|by destruct (buffers_ a)|by apply Forall_app_2; [|constructor]|].
  destruct (nextBuffer_ a) as [n|]; [done|]. rewrite length_app. destruct (buffers_ a); [done|cbn; lia].
Qed.

Lemma append_buffers_ok env : (forall i, sink_env_ok (env i)) -> forall bs i out, sink_inv out ->
  Forall (fixed_inv SIZE) bs ->
  exists out', append_buffers env i bs out = Ok out' /\ sink_inv out' /\ sink_text out' = sink_text out ++ texts bs.
Proof.
  intros He. induction bs as [|b bs IH]; intros i out Ho Hb; cbn.
  - exists out. by rewrite app_nil_r.
  - apply Forall_cons in Hb as [Hb1 Hb]. destruct (sink_append_spec (env i) (fixed_toString b) out Ho (He i)) as (o1 & -> & Ho1 & Ht1);
      [by apply text_length|]. cbn. destruct (IH (1 + i)%nat o1 Ho1) as (o2 & Eo & Ho2 & Ht2); [done|].
    exists o2. cbn in Eo. rewrite Eo. split_and!; [done|done|]. by rewrite Ht2, Ht1, <- app_assoc.
Qed.

Lemma refill_none bs : bs <> [] -> Forall (fixed_inv SIZE) bs ->
  exists b, refill None bs = Ok (Some b, removelast bs) /\ fresh b.
Proof.
  intros Hne Hb. unfold refill. destruct (last bs) as [b|] eqn:El; [|by apply last_None in El].
  eexists. split; [done|]. apply last_Some in El as [bs' ->]. apply Forall_app in Hb as [_ [[H1 H2 H3] _]%Forall_cons].
  split; [|done]. split; cbn; [done|done|lia].
Qed.

(** Two refills leave two fresh buffers when there are enough to recycle. *)
Lemma refills_ok nb2 bs : bs <> [] -> Forall (fixed_inv SIZE) bs ->
  match nb2 with Some b => fresh b | None => (2 <= length bs)%nat end ->
  exists b1 b2 rest, refill None bs = Ok (Some b1, removelast bs) /\ refill nb2 (removelast bs) = Ok (Some b2, rest) /\
    fresh b1 /\ fresh b2.
Proof.
  intros Hne Hb H2. destruct (refill_none bs Hne Hb) as (b1 & E1 & F1).
  destruct nb2 as [b2|]; [by exists b1, b2, (removelast bs)|].
  destruct bs as [|x [|y bs]]; cbn in H2; [lia..|].
  assert (removelast (x :: y :: bs) <> []) as Hne2 by done.
  assert (Forall (fixed_inv SIZE) (removelast (x :: y :: bs))) as Hb2.
  { rewrite (app_removelast_last x Hne) in Hb. by apply Forall_app in Hb as [? _]. }
  destruct (refill_none _ Hne2 Hb2) as (b2 & E2 & F2). by exists b1, b2, (removelast (removelast (x :: y :: bs))).
Qed.

Lemma shrink_two bs nb2 : bs <> [] -> Forall (fixed_inv SIZE) bs ->
  match nb2 with Some b => fresh b | None => (2 <= length bs)%nat end ->
  let bs2 := if 2 <? zlen bs then take 2 bs else bs in
  bs2 <> [] /\ Forall (fixed_inv SIZE) bs2 /\ match nb2 with Some b => fresh b | None => (2 <= length bs2)%nat end.
Proof.
  intros Hne Hb H2. cbv zeta. destruct (_ <? _); [|done]. split_and!.
  - by destruct bs.
  - by apply Forall_take.
  - destruct nb2; [done|]. rewrite length_take. lia.
Qed.

Lemma write_ok env stamp a : ainv a -> pc a = Writing -> (forall i, sink_env_ok (env i)) ->
  exists a', write_out env stamp a = Ok a' /\ ainv a' /\ pc a' = Top /\ running_ a' = running_ a /\
    pending a = texts (buffersToWrite a) ++ pending a' /\ batches a' = batches a ++ [(stamp, buffersToWrite a)] /\
    sink_text (output a') = sink_text (output a) ++ written_of (stamp, buffersToWrite a).
Proof.
  intros [Hc Hn Hbs Ht Hs] Hp He. rewrite bool_decide_eq_true_2 in Ht by done. destruct Ht as (H1 & Hne & Hbw & H2).
  unfold write_out. set (bs := buffersToWrite a) in *.
  assert (exists out1 bs1, (if 25 <? zlen bs then
      out ← sink_append (env 0%nat) (drop_notice stamp (zlen bs - 2)) (output a); Ok (out, take 2 bs)
    else Ok (output a, bs)) = Ok (out1, bs1) /\ sink_inv out1 /\
    sink_text out1 ++ texts bs1 = sink_text (output a) ++ written_of (stamp, bs) /\
    bs1 <> [] /\ Forall (fixed_inv SIZE) bs1 /\
    match newBuffer2 a with Some b => fresh b | None => (2 <= length bs1)%nat end)
    as (out1 & bs1 & -> & Ho1 & Ht1 & Hne1 & Hb1 & H21).
  { unfold written_of. cbn [fst snd]. destruct (Z.ltb_spec 25 (zlen bs)) as [Hbig|Hsmall].
    - destruct (sink_append_spec (env 0%nat) (drop_notice stamp (zlen bs - 2)) (output a) Hs (He 0%nat)) as (o & -> & Ho & Hto).
      { unfold drop_notice, snprintf, zlen. rewrite length_take. lia. }
      exists o, (take 2 bs). cbn [mbind outcome_bind]. split_and!; try done.
      + by rewrite Hto, <- app_assoc.
      + by destruct bs.
      + by apply Forall_take.
      + destruct (newBuffer2 a); [done|]. rewrite length_take. lia.
    - exists (output a), bs. by split_and!. }
  cbn [mbind outcome_bind]. destruct (append_buffers_ok env He bs1 1%nat out1 Ho1 Hb1) as (out2 & -> & Ho2 & Ht2).
  cbn [mbind outcome_bind]. destruct (shrink_two bs1 (newBuffer2 a) Hne1 Hb1 H21) as (Hne2 & Hb2 & H22).
  set (bs2 := if 2 <? zlen bs1 then take 2 bs1 else bs1) in *.
  destruct (refills_ok (newBuffer2 a) bs2 Hne2 Hb2 H22) as (b1 & b2 & rest & E1 & E2 & F1 & F2).
  rewrite H1, E1. cbn [mbind outcome_bind]. rewrite E2. cbn [mbind outcome_bind].
  destruct (sink_flush_spec out2 Ho2) as (out3 & -> & Ho3 & Ht3). cbn [mbind outcome_bind].
  eexists. split; [done|]. cbn [pc batches output]. split_and!; try done.
  - split; cbn; try done. split_and!; [by exists b1|by exists b2|done].
  - by rewrite Ht3, Ht2, Ht1.
Qed.

(** ** All together *)

Definition promise (out0 : S) (accepted_so_far : list byte) (a : async) : Prop :=
  ainv a /\ sink_text (output a) = sink_text out0 ++ (batches a ≫= written_of) /\
  (batches a ≫= fun b => texts b.2) ++ pending a = accepted_so_far.

Lemma thread_ok env stamp a out0 acc : promise out0 acc a -> (forall i, sink_env_ok (env i)) ->
  exists a', thread_step env stamp a = Ok a' /\ promise out0 acc a'.
Proof.
  intros (Hi & Ho & Hacc) He. unfold thread_step.
  assert (pc a <> Writing -> exists a', collect a = Ok a' /\ promise out0 acc a') as Hcollect.
  { intros Hp. destruct (collect_ok a Hi Hp) as (a' & Ea & Hi' & Hpe & Hou & Hba). exists a'. split; [done|].
    split_and!; [done|by rewrite Hou, Hba|by rewrite Hba, Hpe]. }
  destruct (pc a) eqn:Hp.
  - pose proof Hi as [Hc Hn Hbs Ht Hs]. rewrite bool_decide_eq_false_2 in Ht by congruence.
    destruct Ht as ((b1 & H1 & F1) & (b2 & H2 & F2) & Hw).
    destruct (running_ a); cycle 1.
    { destruct (sink_flush_spec _ Hs) as (o & -> & Hso & Hto). cbn [mbind outcome_bind]. eexists. split; [done|].
      split_and!; [|cbn; by rewrite Hto|done]. split; cbn; try done. split_and!; [by exists b1|by exists b2|done]. }
    rewrite H1, H2, Hw. unfold is_empty_buffer. rewrite (proj2 (fresh_text _ F1)), (proj2 (fresh_text _ F2)).
    rewrite (bool_decide_eq_true_2 (@nil FixedBuffer = [])) by done. cbn [c_assert mbind outcome_bind Z.eqb].
    case_bool_decide; [|apply Hcollect; congruence].
    eexists. split; [done|]. split_and!; [|done|done]. split; cbn; try done.
    rewrite H1, H2. split_and!; [by exists b1|by exists b2|done].
  - apply Hcollect. congruence.
  - destruct (write_ok env stamp a Hi Hp He) as (a' & -> & Hi' & _ & _ & Hpe & Hba & Hto). exists a'. split; [done|].
    split_and!; [done| |].
    + rewrite Hto, Ho, Hba, bind_app, <- app_assoc. cbn. by rewrite app_nil_r.
    + rewrite Hba, bind_app, <- Hacc, Hpe, <- app_assoc. cbn. by rewrite app_nil_r.
  - exists a. by split_and!.
Qed.

Lemma async_step_ok a l out0 acc : promise out0 acc a -> label_ok l ->
  exists a', async_step a l = Ok a' /\ promise out0 (acc ++ accepted l) a'.
Proof.
  intros Hp Hl. destruct l as [line| |env stamp]; cbn [async_step accepted].
  - destruct Hp as (Hi & Ho & Hacc). destruct (async_append_ok a line Hi Hl) as (a' & -> & Hi' & Hpe & Hou & Hba).
    exists a'. split; [done|]. split_and!; [done|by rewrite Hou, Hba|]. by rewrite Hba, Hpe, <- Hacc, app_assoc.
  - eexists. split; [done|]. rewrite app_nil_r. destruct Hp as ([] & Ho & Hacc). split_and!; [by split|done|done].
  - rewrite app_nil_r. by apply thread_ok.
Qed.

Lemma async_run_ok out0 ls : forall a acc, promise out0 acc a -> Forall label_ok ls ->
  exists a', foldM async_step a ls = Ok a' /\ promise out0 (acc ++ (ls ≫= accepted)) a'.
Proof.
  induction ls as [|l ls IH]; intros a acc Hp Hl; cbn.
  - exists a. by rewrite app_nil_r.
  - apply Forall_cons in Hl as [Hl Hls]. destruct (async_step_ok a l out0 acc Hp Hl) as (a1 & -> & Hp1). cbn.
    rewrite app_assoc. by apply IH.
Qed.

Lemma start_promise out0 : sink_inv out0 -> promise out0 [] (AsyncLogging_start out0).
Proof.
  intros Hs. pose proof zeroed_fresh as Hf. split_and!.
  - split; cbn; try done; [eexists; split; [done|apply Hf]|]. split_and!; [by eexists|by eexists|done].
  - cbn. by rewrite app_nil_r.
  - unfold pending. cbn. by rewrite (proj1 (fresh_text _ Hf)).
Qed.

End Async.

(** ** Theorems *)

(** C15: For every interleaving of append() calls, stop() and the thread's
    steps, no assertion fails and no null buffer is used: there are always
    two buffers to recycle. A line longer than a buffer is refused; every
    other one is accounted for: the batches the thread took, followed by what
    is still in the buffers, are the accepted lines in the order they were
    appended, and the destination holds exactly the batches, in order, a batch
    of more than 25 buffers cut to its first two after a notice. So as long as
    no backlog exceeds 25 buffers the destination, followed by what is still
    in the buffers, is the accepted lines. That the buffers are emptied is not
    claimed: what is in them when the thread ends after stop() is never
    written ([stop_loses_lines]). *)
Theorem async_log_exact {E S : Type} `{!LogSink E S} (SIZE : Z) (mem0 : list byte) (out0 : S) (ls : list (@async_label E)) :
  0 < SIZE < 2 ^ 31 -> zlen mem0 = SIZE -> sink_inv out0 -> Forall label_ok ls ->
  exists a, foldM (async_step mem0) (AsyncLogging_start mem0 out0) ls = Ok a /\
    sink_text (output a) = sink_text out0 ++ (batches a ≫= written_of) /\
    (batches a ≫= fun b => texts b.2) ++ pending a = ls ≫= accepted SIZE /\
    (Forall (fun b => zlen b.2 <= 25) (batches a) ->
     sink_text (output a) ++ pending a = sink_text out0 ++ (ls ≫= accepted SIZE)).
Proof.
  intros Hsize Hmem Ho Hl.
  destruct (async_run_ok SIZE mem0 Hsize Hmem out0 ls (AsyncLogging_start mem0 out0) [] (start_promise SIZE mem0 Hsize Hmem out0 Ho) Hl)
    as (a & Ea & _ & Ht & Hacc).
  exists a. split_and!; [done|done|done|]. intros Hb. cbn in Hacc. rewrite <- Hacc, Ht, <- app_assoc. do 2 f_equal.
  clear -Hb. induction Hb as [|b bs Hb _ IH]; [done|]. cbn. rewrite IH. f_equal.
  unfold written_of. by destruct (Z.ltb_spec 25 (zlen b.2)); [lia|].
Qed.

(** Stop() loses lines. Whatever is appended while the thread writes a
    batch, and before stop() is called, is never written: the thread leaves
    its loop after that batch, flushes and ends, and the line stays in the
    buffers. *)
Lemma stop_loses_lines {E S : Type} `{!LogSink E S} (SIZE : Z) (mem0 : list byte) (out0 : S) (ls : list (@async_label E))
    (a : AsyncLogging S) (line : list byte) (env : nat -> E) (stamp : list byte) :
  0 < SIZE < 2 ^ 31 -> zlen mem0 = SIZE -> sink_inv out0 -> Forall label_ok ls ->
  foldM (async_step mem0) (AsyncLogging_start mem0 out0) ls = Ok a -> pc a = Writing ->
  zlen line < SIZE -> (forall i, sink_env_ok (env i)) ->
  exists a', foldM (async_step mem0) a [LAppend line; LStopLogging; LThread env stamp; LThread env stamp] = Ok a' /\
    pc a' = Finished /\ (forall e st, thread_step e st a' = Ok a') /\
    sink_text (output a') = sink_text (output a) ++ written_of (stamp, buffersToWrite a) /\
    exists before, pending a' = before ++ line.
Proof.
  intros Hsize Hmem Ho Hl Ea Hpc Hline He.
  destruct (async_run_ok SIZE mem0 Hsize Hmem out0 ls _ [] (start_promise SIZE mem0 Hsize Hmem out0 Ho) Hl) as (a0 & E0 & Hi & _).
  assert (a0 = a) as -> by congruence.
  destruct (async_append_ok SIZE mem0 Hsize Hmem a line Hi ltac:(lia)) as (a1 & E1 & Hi1 & Hp1 & Ho1 & _).
  assert (pc a1 = pc a /\ buffersToWrite a1 = buffersToWrite a) as [Hpc1 Hbw1].
  { unfold async_append in E1. destruct (currentBuffer_ a); [|done].
    repeat (case_match; cbn in E1; try done); by destruct (fixed_append _ _); cbn in E1; simplify_eq. }
  cbn [foldM async_step]. rewrite E1. cbn [mbind outcome_bind].
  assert (ainv SIZE (async_stop a1)) as Hi2 by (by destruct Hi1).
  destruct (write_ok SIZE Hsize env stamp (async_stop a1) Hi2 ltac:(cbn; congruence) He)
    as (a3 & E3 & Hi3 & Hpc3 & Hrun & Hp3 & _ & Ht3).
  assert (thread_step env stamp (async_stop a1) = Ok a3) as ->.
  { unfold thread_step. cbn [pc async_stop]. by rewrite Hpc1, Hpc. }
  cbn [mbind outcome_bind]. unfold thread_step at 1. rewrite Hpc3, Hrun. cbn [running_ async_stop].
  destruct (sink_flush_spec (output a3) (ai_sink _ _ Hi3)) as (o & -> & _ & Hto). cbn [mbind outcome_bind].
  eexists. split; [done|]. cbn [pc output]. split_and!; [done|done| |].
  - rewrite Hto, Ht3. cbn [output async_stop buffersToWrite]. by rewrite Ho1, Hbw1.
  - assert (pending (async_stop a1) = pending a ++ line) as Hp.
    { change (pending a1 = pending a ++ line). rewrite Hp1. cbn [accepted]. by destruct (Z.ltb_spec (zlen line) SIZE); [|lia]. }
    cbn [buffersToWrite async_stop] in Hp3. rewrite Hp, Hbw1 in Hp3. unfold pending in Hp3 at 1.
    rewrite <- app_assoc in Hp3. apply app_inv_head in Hp3. eexists. exact (eq_sym Hp3).
Qed.

(** ** Examples *)

(** A 16-byte buffer over a log file, four lines and three turns of the thread. *)
Definition demo_log : LogFile :=
  match LogFile_ctor (str "h") (str "1") 100 true (str "log") 1000 3 1024 with
  | Ok l => l
  | Fail _ => mkLogFile [] 0 0 0 0 0 0 0 None []
  end.

Lemma demo_log_ok : log_inv (str "h") (str "1") demo_log.
Proof.
  destruct (LogFile_ctor_ok (str "h") (str "1") 100 (str "log") 1000 3 1024) as (l & E & Hi & _);
    [unfold time_ok; lia|by apply (bool_decide_unpack _)|lia|]. unfold demo_log. by rewrite E.
Qed.

Definition demo_thread : @async_label log_env := LThread (fun _ => demo_env 101) (str "now").

Definition async_run : list (@async_label log_env) :=
  [LAppend (str "0123456789"); LAppend (str "abcdefgh"); demo_thread; LAppend (str "ABCDEFGHIJKLMNOPQ");
   demo_thread; demo_thread; demo_thread; LAppend (str "xyz"); demo_thread; demo_thread].

#[local] Instance demo_sink : LogSink log_env LogFile := LogFile_sink (str "h") (str "1").

Lemma async_run_labels : Forall (label_ok (S := LogFile)) async_run.
Proof. repeat apply Forall_cons_2; [..|apply Forall_nil_2]; cbn; try done; intros _; apply demo_env_ok; unfold time_ok; lia. Qed.

Lemma async_log_exact_witness :
  exists a, foldM (async_step (replicate 16 Byte.x00)) (AsyncLogging_start (replicate 16 Byte.x00) demo_log) async_run = Ok a /\
    sink_text (output a) ++ pending a = str "0123456789abcdefghxyz".
Proof.
  destruct (async_log_exact 16 (replicate 16 Byte.x00) demo_log async_run) as (a & Ea & _ & _ & H).
  - lia.
  - reflexivity.
  - exact demo_log_ok.
  - exact async_run_labels.
  - exists a. split; [exact Ea|]. assert (Ea' := Ea). vm_compute in Ea'. injection Ea' as <-.
    apply H. vm_compute. repeat constructor; discriminate.
Defined.

Lemma stop_loses_lines_witness :
  exists a a', foldM (async_step (replicate 16 Byte.x00)) (AsyncLogging_start (replicate 16 Byte.x00) demo_log)
      [LAppend (str "first"); demo_thread; demo_thread] = Ok a /\
    foldM (async_step (replicate 16 Byte.x00)) a [LAppend (str "second"); LStopLogging; demo_thread; demo_thread] = Ok a' /\
    pc a' = Finished /\ sink_text (output a') = str "first".
Proof.
  destruct (foldM (async_step (replicate 16 Byte.x00)) (AsyncLogging_start (replicate 16 Byte.x00) demo_log)
      [LAppend (str "first"); demo_thread; demo_thread]) as [a|] eqn:Ea; [|exfalso; vm_compute in Ea; discriminate].
  exists a. assert (Ea' := Ea). vm_compute in Ea'. injection Ea' as Ea'.
  destruct (stop_loses_lines 16 (replicate 16 Byte.x00) demo_log [LAppend (str "first"); demo_thread; demo_thread] a
    (str "second") (fun _ => demo_env 101) (str "now")) as (a' & E & Hp & _ & Ht & _).
  - lia.
  - reflexivity.
  - exact demo_log_ok.
  - apply Forall_cons_2; [reflexivity|]. exact (Forall_drop _ 8 _ async_run_labels).
  - exact Ea.
  - rewrite <- Ea'. reflexivity.
  - reflexivity.
  - intros _. apply demo_env_ok. unfold time_ok. lia.
  - exists a'. split; [reflexivity|]. split; [exact E|]. split; [exact Hp|]. rewrite Ht, <- Ea'. vm_compute. reflexivity.
Defined.
