(* ===== verification/Logging.v ===== *)
(** * Log lines: src/mynetlib/base/Logging.h, Logging.cc

    A Logger collects one line in a LogStream and hands it to the output
    function when it is destroyed. The thread-local caches of the time's text
    and of the thread id are explicit state; the clock, the kernel's thread id
    and strerror_r are arguments, as is the contents [mem] of the stream's
    memory. *)

From S2P Require Import Prelude Format Timestamp Date TimeZone TimeZoneSpec LogStream FileUtil LogFile.

Inductive LogLevel : Set := TRACE | DEBUG | INFO | WARN | ERROR | FATAL.

#[export] Instance LogLevel_eq_dec : EqDecision LogLevel.
Proof. solve_decision. Defined.

Definition level_Z (l : LogLevel) : Z :=
  match l with TRACE => 0 | DEBUG => 1 | INFO => 2 | WARN => 3 | ERROR => 4 | FATAL => 5 end.

(** Which of the two environment variables are set. *)
Definition initLogLevel (MUDUO_LOG_TRACE MUDUO_LOG_DEBUG : bool) : LogLevel :=
  if MUDUO_LOG_TRACE then TRACE else if MUDUO_LOG_DEBUG then DEBUG else INFO.

Definition LogLevelName (l : LogLevel) : list byte :=
  match l with
  | TRACE => str "TRACE "
  | DEBUG => str "DEBUG "
  | INFO => str "INFO  "
  | WARN => str "WARN  "
  | ERROR => str "ERROR "
  | FATAL => str "FATAL "
  end.

(** The condition of the macros LOG_TRACE, LOG_DEBUG and LOG_INFO; the other
    ones have none. *)
Definition log_enabled (g_logLevel l : LogLevel) : bool :=
  match l with
  | TRACE | DEBUG | INFO => level_Z g_logLevel <=? level_Z l
  | _ => true
  end.

(** What follows the last slash, where there is one. *)
Fixpoint after_slash (s : list byte) : option (list byte) :=
  match s with
  | [] => None
  | c :: s' =>
      match after_slash s' with
      | Some r => Some r
      | None => if byte_eqb c Byte.x2f then Some s' else None
      end
  end.

Definition SourceFile (filename : list byte) : list byte := default filename (after_slash filename).

(** Thread-local state: the text of [t_lastSecond], and of the thread id. *)
Record thread_cache : Type := mkCache {
  t_time : list byte;
  t_lastSecond : Z;
  t_cachedTid : Z;
  t_tidString : list byte;
}.

Definition initial_cache : thread_cache := mkCache [] 0 0 [].

(** [CurrentThread::cacheTid] with the kernel's answer. *)
Definition cacheTid (gettid : Z) (c : thread_cache) : thread_cache :=
  if t_cachedTid c =? 0
  then mkCache (t_time c) (t_lastSecond c) gettid (snprintf 32 (fmt_wd 5 gettid ++ str " "))
  else c.

(** [CurrentThread::tid] *)
Definition current_tid (gettid : Z) (c : thread_cache) : thread_cache :=
  if t_cachedTid c =? 0 then cacheTid gettid c else c.

(** [stream << T(str, len)] *)
Definition insert_T (s : list byte) (len : Z) (b : FixedBuffer) : outcome FixedBuffer :=
  c_assert (zlen s =? len);; fixed_append s b.

Definition time_text (x : tm) : list byte :=
  fmt_wd 4 (tm_year x + 1900) ++ fmt_0d 2 (tm_mon x + 1) ++ fmt_0d 2 (tm_mday x) ++ str " " ++
  fmt_0d 2 (tm_hour x) ++ str ":" ++ fmt_0d 2 (tm_min x) ++ str ":" ++ fmt_0d 2 (tm_sec x).

Definition second_tm (g_logTimeZone : TimeZone) (seconds : Z) : outcome tm :=
  if tz_valid g_logTimeZone then toLocalTime g_logTimeZone seconds else gmtime_unchecked seconds.

Definition formatTime (g_logTimeZone : TimeZone) (time_ : Timestamp) (c : thread_cache) (b : FixedBuffer) :
    outcome (thread_cache * FixedBuffer) :=
  let seconds := Z.quot time_ kMicroSecondsPerSecond in
  let microseconds := s32 (Z.rem time_ kMicroSecondsPerSecond) in
  c1 ← (if negb (seconds =? t_lastSecond c) then
          tm_time ← second_tm g_logTimeZone seconds;
          let text := time_text tm_time in
          c_assert (zlen text =? 17);;
          Ok (mkCache (snprintf 32 text) seconds (t_cachedTid c) (t_tidString c))
        else Ok c);
  if tz_valid g_logTimeZone then
    us ← Fmt_ctor (str "." ++ fmt_0d 6 microseconds ++ str " ");
    c_assert (zlen us =? 8);;
    b1 ← insert_T (t_time c1) 17 b; b2 ← insert_T us 8 b1; Ok (c1, b2)
  else
    us ← Fmt_ctor (str "." ++ fmt_0d 6 microseconds ++ str "Z ");
    c_assert (zlen us =? 9);;
    b1 ← insert_T (t_time c1) 17 b; b2 ← insert_T us 9 b1; Ok (c1, b2).

Record Logger : Type := mkLogger {
  stream_ : FixedBuffer;
  level_ : LogLevel;
  line_ : Z;
  source_ : list byte;
}.

(** What a log line is made from besides the message. *)
Record log_call : Type := mkCall {
  lc_time : Timestamp;
  lc_gettid : Z;
  lc_level : LogLevel;
  lc_errno : Z;
  lc_strerror : list byte;
  lc_file : list byte;
  lc_line : Z;
}.

Definition Impl_ctor (tz : TimeZone) (mem : list byte) (k : log_call) (c : thread_cache) :
    outcome (thread_cache * Logger) :=
  '(c1, b1) ← formatTime tz (lc_time k) c (FixedBuffer_ctor mem);
  let c2 := current_tid (lc_gettid k) c1 in
  b2 ← insert_T (t_tidString c2) (zlen (t_tidString c2)) b1;
  b3 ← insert_T (LogLevelName (lc_level k)) 6 b2;
  b4 ← (if negb (lc_errno k =? 0)
        then foldM insert_piece b3 [PString (lc_strerror k); PString (str " (errno="); PInteger (lc_errno k); PString (str ") ")]
        else Ok b3);
  Ok (c2, mkLogger b4 (lc_level k) (lc_line k) (SourceFile (lc_file k))).

(** The four constructors: the level and errno they use. *)
Inductive logger_kind : Set := KInfo | KLevel (l : LogLevel) | KFunc (l : LogLevel) | KAbort (toAbort : bool).

Definition kind_level (kd : logger_kind) : LogLevel :=
  match kd with
  | KInfo => INFO
  | KLevel l => l
  | KFunc l => l
  | KAbort toAbort => if toAbort then FATAL else ERROR
  end.

Definition kind_errno (kd : logger_kind) (errno : Z) : Z :=
  match kd with KAbort _ => errno | _ => 0 end.

Definition Logger_ctor (tz : TimeZone) (mem : list byte) (kd : logger_kind) (time : Timestamp) (gettid errno : Z)
    (strerror file : list byte) (line : Z) (func : list byte) (c : thread_cache) : outcome (thread_cache * Logger) :=
  '(c1, l) ← Impl_ctor tz mem (mkCall time gettid (kind_level kd) (kind_errno kd errno) strerror file line) c;
  match kd with
  | KFunc _ =>
      b ← foldM insert_piece (stream_ l) [PString func; PChar Byte.x20];
      Ok (c1, mkLogger b (level_ l) (line_ l) (source_ l))
  | _ => Ok (c1, l)
  end.

Definition Impl_finish (l : Logger) : outcome Logger :=
  b ← foldM insert_piece (stream_ l)
        [PString (str " - "); PString (source_ l); PChar Byte.x3a; PInteger (line_ l); PChar Byte.x0a];
  Ok (mkLogger b (level_ l) (line_ l) (source_ l)).

(** What g_output gets, and whether the process is aborted. *)
Definition Logger_dtor (l : Logger) : outcome (list byte * bool) :=
  l' ← Impl_finish l; Ok (fixed_toString (stream_ l'), bool_decide (level_ l' = FATAL)).

(** One LOG_ statement with the message's pieces. *)
Definition log_statement (tz : TimeZone) (mem : list byte) (kd : logger_kind) (time : Timestamp) (gettid errno : Z)
    (strerror file : list byte) (line : Z) (func : list byte) (message : list piece) (c : thread_cache) :
    outcome (thread_cache * (list byte * bool)) :=
  '(c1, l) ← Logger_ctor tz mem kd time gettid errno strerror file line func c;
  b ← foldM insert_piece (stream_ l) message;
  out ← Logger_dtor (mkLogger b (level_ l) (line_ l) (source_ l));
  Ok (c1, out).

(** ** A thread's statements *)

(** The arguments of one statement: the LogStream's memory, the answers of
    the clock and of strerror_r, errno, and what the source line gives. *)
Record log_args : Type := mkArgs {
  la_mem : list byte;
  la_kind : logger_kind;
  la_time : Timestamp;
  la_errno : Z;
  la_strerror : list byte;
  la_file : list byte;
  la_line : Z;
  la_func : list byte;
  la_message : list piece;
}.

(** The globals, and the caches of the thread. *)
Record log_state : Type := mkLog {
  g_logLevel : LogLevel;
  g_logTimeZone : TimeZone;
  ls_cache : thread_cache;
}.

Definition setLogLevel (level : LogLevel) (s : log_state) : log_state := mkLog level (g_logTimeZone s) (ls_cache s).

(** [t_lastSecond] of no thread is reset. *)
Definition setTimeZone (tz : TimeZone) (s : log_state) : log_state := mkLog (g_logLevel s) tz (ls_cache s).

(** One of the LOG_ macros: nothing is evaluated below the level. *)
Definition log_macro (gettid : Z) (k : log_args) (s : log_state) : outcome (log_state * option (list byte * bool)) :=
  if log_enabled (g_logLevel s) (kind_level (la_kind k)) then
    '(c, out) ← log_statement (g_logTimeZone s) (la_mem k) (la_kind k) (la_time k) gettid (la_errno k)
                  (la_strerror k) (la_file k) (la_line k) (la_func k) (la_message k) (ls_cache s);
    Ok (mkLog (g_logLevel s) (g_logTimeZone s) c, Some out)
  else Ok (s, None).

Inductive log_op : Type := OSetLogLevel (level : LogLevel) | OSetTimeZone (tz : TimeZone) | OLog (k : log_args).

(** What g_output gets from a sequence of calls, each line with whether the
    process is aborted after it; nothing follows an abort. *)
Fixpoint log_run (gettid : Z) (ops : list log_op) (s : log_state) : outcome (list (list byte * bool)) :=
  match ops with
  | [] => Ok []
  | OSetLogLevel level :: ops => log_run gettid ops (setLogLevel level s)
  | OSetTimeZone tz :: ops => log_run gettid ops (setTimeZone tz s)
  | OLog k :: ops =>
      '(s', out) ← log_macro gettid k s;
      match out with
      | None => log_run gettid ops s'
      | Some (line, true) => Ok [(line, true)]
      | Some (line, false) => outs ← log_run gettid ops s'; Ok ((line, false) :: outs)
      end
  end.

(** ** The line *)

(** The time zone is unset, or read from a sound zone file. *)
Definition zone_ready (tz : TimeZone) : Prop :=
  match tz with None => True | Some data => exists front, zone_wf data front end.

(** From 1970 to the year 9891. *)
Definition log_time_ok (t : Timestamp) : Prop := kMicroSecondsPerSecond <= t <= 250000000000 * kMicroSecondsPerSecond.

(** The cached text is that of its second in the zone. *)
Definition time_cached (tz : TimeZone) (c : thread_cache) : Prop :=
  t_lastSecond c = 0 \/ exists x, second_tm tz (t_lastSecond c) = Ok x /\ t_time c = time_text x.

Definition tid_cached (gettid : Z) (c : thread_cache) : Prop :=
  t_cachedTid c = 0 \/ t_cachedTid c = gettid /\ t_tidString c = snprintf 32 (fmt_wd 5 gettid ++ str " ").

(** The second of an instant. *)
Abbreviation second_of t := (Z.quot t kMicroSecondsPerSecond).

Lemma year_digits y : 0 <= y <= 9999 -> zlen (fmt_wd 4 y) = 4.
Proof.
  intros Hy. unfold fmt_wd, fmt_d, zlen. destruct (Z.ltb_spec y 0); [lia|].
  rewrite length_pad. pose proof (fmt_u_length y 4 ltac:(lia) ltac:(lia)). lia.
Qed.

Lemma gmtime_text s : - 2 ^ 31 <= s <= 252200000000 -> zlen (time_text (gm_fields s)) = 17.
Proof.
  intros Hs. pose proof (gmtime_fields s) as (?&?&?&?&?). unfold time_text.
  assert (0 <= tm_year (gm_fields s) + 1900 <= 9999) as Hy.
  { unfold gm_fields. cbn [tm_year]. change kSecondsPerDay with 86400.
    assert (-24856 <= s / 86400 <= 2918982) by (split; [apply Z.div_le_lower_bound; lia|apply Z.lt_succ_r, Z.div_lt_upper_bound; lia]).
    destruct (ymd_range (s / 86400 + 2440588) ltac:(lia)) as (Hm & Hd & _ & Hj & _).
    set (ymd := ymd_of _) in *. pose proof (jdn_of_bounds (year ymd) (month ymd) (day ymd) Hm Hd). lia. }
  repeat rewrite zlen_app. rewrite year_digits by done. unfold zlen.
  repeat rewrite (fun n H => proj1 (fmt_02_parse n H)) by lia. done.
Qed.

Lemma second_tm_ok tz s : zone_ready tz -> 0 <= s <= 250000000000 ->
  exists x, second_tm tz s = Ok x /\ zlen (time_text x) = 17.
Proof.
  intros Hz Hs. unfold second_tm. destruct tz as [data|]; cbn [tz_valid].
  - destruct Hz as [front Hw]. destruct (toLocalTime_eq data front s Hw ltac:(lia)) as (l & zone & _ & Ho & ->).
    eexists. split; [done|]. pose proof (gmtime_text (s + gmtOffset l) ltac:(lia)) as H.
    unfold local_tm. revert H. by destruct (gm_fields _).
  - unfold gmtime_unchecked. rewrite gmtime_ok by lia. eexists. split; [done|]. apply gmtime_text. lia.
Qed.

Lemma micro_text t : 0 <= t -> let r := Z.rem t kMicroSecondsPerSecond in
  s32 r = r /\ zlen (fmt_0d 6 r) = 6.
Proof.
  intros Ht r. assert (0 <= r < 10 ^ 6) as Hr by (unfold r; apply Z.rem_bound_pos; [done|reflexivity]).
  split; [by rewrite s32_small by lia|]. unfold fmt_0d, zlen. destruct (Z.ltb_spec r 0); [lia|].
  by rewrite pad0_length6.
Qed.

Lemma insert_T_piece s len b : zlen s = len -> insert_T s len b = insert_piece b (PString s).
Proof. intros <-. unfold insert_T. by rewrite Z.eqb_refl. Qed.

(** The time of a statement: the cache is not used, or it is of this zone. *)
Lemma formatTime_ok tz t c b gettid : zone_ready tz -> log_time_ok t ->
  t_lastSecond c <> second_of t \/ time_cached tz c -> tid_cached gettid c ->
  exists x c', second_tm tz (second_of t) = Ok x /\ time_cached tz c' /\ tid_cached gettid c' /\
    t_lastSecond c' = second_of t /\
    let us := str "." ++ fmt_0d 6 (Z.rem t kMicroSecondsPerSecond) ++ str (if tz_valid tz then " " else "Z ") in
    formatTime tz t c b = (b' ← foldM insert_piece b [PString (time_text x); PString us]; Ok (c', b')).
Proof.
  intros Hz Ht Htime Htid. unfold log_time_ok in Ht. unfold formatTime. cbv zeta.
  assert (1 <= Z.quot t kMicroSecondsPerSecond <= 250000000000) as Hs.
  { change kMicroSecondsPerSecond with 1000000 in *. rewrite Z.quot_div_nonneg by lia.
    split; [apply Z.div_le_lower_bound; lia|apply Z.div_le_upper_bound; lia]. }
  set (s := Z.quot t kMicroSecondsPerSecond) in *. destruct (second_tm_ok tz s Hz ltac:(lia)) as (x & Ex & H17).
  destruct (micro_text t ltac:(unfold kMicroSecondsPerSecond in *; lia)) as [-> H6].
  set (mu := fmt_0d 6 (Z.rem t kMicroSecondsPerSecond)) in *.
  assert (snprintf 32 (time_text x) = time_text x) as Hsn by (apply take_ge; unfold zlen in H17; lia).
  assert (exists c1, (if negb (s =? t_lastSecond c) then
      tm_time ← second_tm tz s;
      c_assert (zlen (time_text tm_time) =? 17);;
      Ok (mkCache (snprintf 32 (time_text tm_time)) s (t_cachedTid c) (t_tidString c))
    else Ok c) = Ok c1 /\ t_time c1 = time_text x /\ t_lastSecond c1 = s /\ t_cachedTid c1 = t_cachedTid c /\ t_tidString c1 = t_tidString c)
    as (c1 & -> & Ht1 & Hs1 & Htid1 & Hts1).
  { destruct (Z.eqb_spec s (t_lastSecond c)) as [Heq|Hne]; cbn [negb].
    - exists c. destruct Htime as [?|[?|(x' & Ex' & Ht')]]; [lia|lia|]. rewrite <- Heq, Ex in Ex'. by simplify_eq.
    - rewrite Ex. cbn [mbind outcome_bind]. rewrite H17. cbn [Z.eqb Pos.eqb c_assert mbind outcome_bind].
      eexists. split; [done|]. by rewrite Hsn. }
  cbn [mbind outcome_bind]. exists x, c1. split; [done|].
  split; [right; exists x; by rewrite Hs1, Ht1|].
  split; [unfold tid_cached; by rewrite Htid1, Hts1|]. split; [done|].
  assert (forall u n, zlen u = n - 7 -> n < 32 -> Fmt_ctor (str "." ++ mu ++ u) = Ok (str "." ++ mu ++ u) /\
    zlen (str "." ++ mu ++ u) = n) as Hfmt.
  { intros u n Hu Hn. assert (zlen (str "." ++ mu ++ u) = n) as Hl.
    { repeat rewrite zlen_app. change (zlen (str ".")) with 1. lia. }
    split; [|done]. unfold Fmt_ctor. rewrite Hl. destruct (Z.ltb_spec n 32); [|lia]. cbn [c_assert mbind outcome_bind].
    f_equal. apply take_ge. unfold zlen in Hl. lia. }
  rewrite Ht1. cbn [foldM].
  destruct (tz_valid tz).
  - destruct (Hfmt (str " ") 8 eq_refl ltac:(lia)) as [-> Hl]. cbn [mbind outcome_bind]. rewrite Hl. cbn [Z.eqb Pos.eqb c_assert mbind outcome_bind].
    rewrite (insert_T_piece (time_text x)) by done. destruct (insert_piece b _) as [b1|]; cbn [mbind outcome_bind]; [|done].
    rewrite insert_T_piece by done. by destruct (insert_piece b1 _).
  - destruct (Hfmt (str "Z ") 9 eq_refl ltac:(lia)) as [-> Hl]. cbn [mbind outcome_bind]. rewrite Hl. cbn [Z.eqb Pos.eqb c_assert mbind outcome_bind].
    rewrite (insert_T_piece (time_text x)) by done. destruct (insert_piece b _) as [b1|]; cbn [mbind outcome_bind]; [|done].
    rewrite insert_T_piece by done. by destruct (insert_piece b1 _).
Qed.

(** Everything a statement inserts, in order. *)
Definition line_pieces (tz : TimeZone) (x : tm) (kd : logger_kind) (time : Timestamp) (gettid errno : Z)
    (strerror file : list byte) (line : Z) (func : list byte) (message : list piece) : list piece :=
  [PString (time_text x);
   PString (str "." ++ fmt_0d 6 (Z.rem time kMicroSecondsPerSecond) ++ str (if tz_valid tz then " " else "Z "));
   PString (snprintf 32 (fmt_wd 5 gettid ++ str " ")); PString (LogLevelName (kind_level kd))] ++
  (if negb (kind_errno kd errno =? 0)
   then [PString strerror; PString (str " (errno="); PInteger (kind_errno kd errno); PString (str ") ")] else []) ++
  (match kd with KFunc _ => [PString func; PChar Byte.x20] | _ => [] end) ++
  message ++
  [PString (str " - "); PString (SourceFile file); PChar Byte.x3a; PInteger line; PChar Byte.x0a].

Lemma insert_name_length l : zlen (LogLevelName l) = 6.
Proof. by destruct l. Qed.

Lemma current_tid_ok gettid c : tid_cached gettid c ->
  let c' := current_tid gettid c in
  t_time c' = t_time c /\ t_lastSecond c' = t_lastSecond c /\ tid_cached gettid c' /\
  t_tidString c' = snprintf 32 (fmt_wd 5 gettid ++ str " ").
Proof.
  intros Htid. unfold current_tid, cacheTid, tid_cached. destruct (Z.eqb_spec (t_cachedTid c) 0) as [E|E].
  - split_and!; try done. by right.
  - destruct Htid as [?|[? ?]]; [done|]. split_and!; auto.
Qed.

(** Both sides insert the same piece next. *)
Ltac insert_next :=
  cbn [foldM mbind outcome_bind stream_ level_ line_ source_]; rewrite ?foldM_app;
  match goal with
  | |- context [insert_piece ?b ?p] => destruct (insert_piece b p); [|reflexivity]
  | |- context [foldM insert_piece ?b ?ps] => is_var ps; destruct (foldM insert_piece b ps); [|reflexivity]
  | |- ?x = ?x => reflexivity
  end.

(** A statement is the insertion of its pieces. *)
Lemma log_statement_pieces tz mem kd time gettid errno strerror file line func message c :
  zone_ready tz -> log_time_ok time ->
  t_lastSecond c <> second_of time \/ time_cached tz c -> tid_cached gettid c ->
  exists x c', second_tm tz (second_of time) = Ok x /\ time_cached tz c' /\ tid_cached gettid c' /\
    t_lastSecond c' = second_of time /\
    log_statement tz mem kd time gettid errno strerror file line func message c =
    (b ← foldM insert_piece (FixedBuffer_ctor mem) (line_pieces tz x kd time gettid errno strerror file line func message);
     Ok (c', (fixed_toString b, bool_decide (kind_level kd = FATAL)))).
Proof.
  intros Hz Ht Hc Hg.
  destruct (formatTime_ok tz time c (FixedBuffer_ctor mem) gettid Hz Ht Hc Hg) as (x & c1 & Ex & Hc1 & Hg1 & Hs1 & Ef).
  destruct (current_tid_ok gettid c1 Hg1) as (Ht2 & Hs2 & Hg2 & Htid). cbv zeta in *.
  exists x, (current_tid gettid c1). split; [done|]. split; [unfold time_cached; by rewrite Ht2, Hs2|].
  split; [done|]. split; [by rewrite Hs2|].
  unfold log_statement, Logger_ctor, Impl_ctor. cbn [lc_time lc_gettid lc_level lc_errno lc_strerror lc_file lc_line].
  rewrite Ef. unfold line_pieces. cbn [app foldM].
  destruct (insert_piece (FixedBuffer_ctor mem) _) as [b1|]; cbn [mbind outcome_bind]; [|done].
  destruct (insert_piece b1 _) as [b2|]; cbn [mbind outcome_bind]; [|done].
  rewrite Htid, insert_T_piece by done. destruct (insert_piece b2 _) as [b3|]; cbn [mbind outcome_bind]; [|done].
  rewrite insert_T_piece by apply insert_name_length. destruct (insert_piece b3 _) as [b4|]; cbn [mbind outcome_bind]; [|done].
  unfold Logger_dtor, Impl_finish.
  destruct kd; cbn [kind_errno kind_level]; destruct (negb _); cbn [app];
    repeat insert_next.
Qed.

(** Statements that insert pieces a LogStream takes, from 1970 on. *)
Definition args_ok (k : log_args) : Prop :=
  log_time_ok (la_time k) /\ zlen (la_mem k) = kSmallBuffer /\ - 2 ^ 31 <= la_errno k < 2 ^ 31 /\
  - 2 ^ 31 <= la_line k < 2 ^ 31 /\ Forall piece_ok (la_message k).

(** The pieces of a statement's line in a zone, at the local time [x]. *)
Definition args_pieces (gettid : Z) (tz : TimeZone) (x : tm) (k : log_args) : list piece :=
  line_pieces tz x (la_kind k) (la_time k) gettid (la_errno k) (la_strerror k) (la_file k) (la_line k) (la_func k) (la_message k).

Lemma args_pieces_ok gettid tz x k : args_ok k -> Forall piece_ok (args_pieces gettid tz x k).
Proof.
  intros (_ & _ & He & Hl & Hp). unfold args_pieces, line_pieces.
  repeat (apply Forall_app_2 || apply Forall_cons_2 || apply Forall_nil_2 || exact Hp || case_match); cbn; try done; try lia.
  destruct (la_kind k); cbn; lia.
Qed.

(** Every zone is sound; and no statement follows a change of the zone in the
    very second of the statement before the change: [last] is the second of
    the thread's last line, [changed] whether the zone was set since. *)
Fixpoint ops_ok (ops : list log_op) (level : LogLevel) (last : Z) (changed : bool) : Prop :=
  match ops with
  | [] => True
  | OSetLogLevel level' :: ops => ops_ok ops level' last changed
  | OSetTimeZone tz :: ops => zone_ready tz /\ ops_ok ops level last true
  | OLog k :: ops =>
      if log_enabled level (kind_level (la_kind k))
      then args_ok k /\ (changed = true -> last <> second_of (la_time k)) /\ ops_ok ops level (second_of (la_time k)) false
      else ops_ok ops level last changed
  end.

(** The lines a sequence of calls is to output: the pieces of each enabled
    statement in the zone of that moment, up to the first FATAL one. *)
Fixpoint lines_of (gettid : Z) (ops : list log_op) (level : LogLevel) (tz : TimeZone) (outs : list (list byte * bool)) : Prop :=
  match ops with
  | [] => outs = []
  | OSetLogLevel level' :: ops => lines_of gettid ops level' tz outs
  | OSetTimeZone tz' :: ops => lines_of gettid ops level tz' outs
  | OLog k :: ops =>
      if log_enabled level (kind_level (la_kind k)) then
        exists x out outs', second_tm tz (second_of (la_time k)) = Ok x /\
          outs = (out, bool_decide (kind_level (la_kind k) = FATAL)) :: outs' /\
          out = foldl (render_one kSmallBuffer) [] (args_pieces gettid tz x k) /\
          (let text := args_pieces gettid tz x k ≫= piece_text in
           zlen text + kMaxNumericSize <= kSmallBuffer -> out = text) /\
          if decide (kind_level (la_kind k) = FATAL) then outs' = [] else lines_of gettid ops level tz outs'
      else lines_of gettid ops level tz outs
  end.

(** One enabled statement. *)
Lemma log_macro_ok gettid k s : zone_ready (g_logTimeZone s) -> args_ok k ->
  t_lastSecond (ls_cache s) <> second_of (la_time k) \/ time_cached (g_logTimeZone s) (ls_cache s) ->
  tid_cached gettid (ls_cache s) -> log_enabled (g_logLevel s) (kind_level (la_kind k)) = true ->
  exists x c out, second_tm (g_logTimeZone s) (second_of (la_time k)) = Ok x /\
    time_cached (g_logTimeZone s) c /\ tid_cached gettid c /\ t_lastSecond c = second_of (la_time k) /\
    log_macro gettid k s = Ok (mkLog (g_logLevel s) (g_logTimeZone s) c, Some (out, bool_decide (kind_level (la_kind k) = FATAL))) /\
    out = foldl (render_one kSmallBuffer) [] (args_pieces gettid (g_logTimeZone s) x k).
Proof.
  intros Hz Hk Hc Hg He. unfold log_macro. rewrite He.
  destruct (log_statement_pieces (g_logTimeZone s) (la_mem k) (la_kind k) (la_time k) gettid (la_errno k) (la_strerror k)
    (la_file k) (la_line k) (la_func k) (la_message k) _ Hz (proj1 Hk) Hc Hg) as (x & c & Ex & Ht & Hg' & Hs & ->).
  destruct (insert_pieces_ok kSmallBuffer (args_pieces gettid (g_logTimeZone s) x k) (FixedBuffer_ctor (la_mem k)))
    as (b & Eb & _ & Htx); [|by apply args_pieces_ok|].
  { destruct Hk as (_ & Hm & _). split; cbn; unfold kSmallBuffer in *; lia. }
  unfold args_pieces in Eb. rewrite Eb. exists x, c, (fixed_toString b). by split_and!.
Qed.

Lemma log_run_exact gettid ops : forall s last changed,
  zone_ready (g_logTimeZone s) -> tid_cached gettid (ls_cache s) -> t_lastSecond (ls_cache s) = last ->
  (changed = false -> time_cached (g_logTimeZone s) (ls_cache s)) -> ops_ok ops (g_logLevel s) last changed ->
  exists outs, log_run gettid ops s = Ok outs /\ lines_of gettid ops (g_logLevel s) (g_logTimeZone s) outs.
Proof.
  induction ops as [|[level|tz|k] ops IH]; intros s last changed Hz Hg Hl Hc Ho; cbn [log_run lines_of ops_ok] in *.
  - by exists [].
  - exact (IH (setLogLevel level s) last changed Hz Hg Hl Hc Ho).
  - destruct Ho as [Hz' Ho]. by apply (IH (setTimeZone tz s) last true).
  - destruct (log_enabled _ _) eqn:He.
    2: { unfold log_macro. rewrite He. cbn [mbind outcome_bind]. by apply (IH s last changed). }
    destruct Ho as (Hk & Hch & Ho).
    destruct (log_macro_ok gettid k s Hz Hk) as (x & c & out & Ex & Ht & Hg' & Hs & -> & Hout); [|done|done|].
    { destruct changed; [left; rewrite Hl; auto|right; auto]. }
    cbn [mbind outcome_bind].
    assert (let text := args_pieces gettid (g_logTimeZone s) x k ≫= piece_text in
      zlen text + kMaxNumericSize <= kSmallBuffer -> out = text) as Htext.
    { intros text Hroom. rewrite Hout. apply render_all; [by apply args_pieces_ok|]. rewrite zlen_nil, Z.add_0_l. exact Hroom. }
    destruct (decide (kind_level (la_kind k) = FATAL)) as [Ef|Ef].
    + rewrite bool_decide_eq_true_2 by done. eexists. split; [done|]. exists x, out, []. by split_and!.
    + rewrite bool_decide_eq_false_2 by done.
      destruct (IH (mkLog (g_logLevel s) (g_logTimeZone s) c) (second_of (la_time k)) false) as (outs & -> & Hs'); try done.
      eexists. split; [done|]. exists x, out, outs. by split_and!.
Qed.

(** ** Theorem *)

(** C22: Whatever a new thread does with the LOG_ macros, setLogLevel and
    setTimeZone, each statement that the level of that moment lets through
    outputs one line, in order, until a FATAL one, after which, and only
    then, the process is aborted: date, time and microseconds in the zone of
    that moment, thread id, level, the errno and its text for the SYS macros,
    the function for the TRACE and DEBUG ones, the message and the source
    file's name and line; no assertion fails. The line is complete when it
    fits into the 4000 bytes less the 32 kept for a number; of a longer one
    the pieces that do not fit are left out whole. Conditions ([ops_ok],
    [args_ok]): the clock is from one second after the epoch to the year 9891,
    the zones are sound, and after a change of the zone the thread logs
    nothing more in the second of its last line; the text cached for that
    second is not renewed ([zone_change_stale]). *)
Theorem log_line_exact (gettid : Z) (level : LogLevel) (tz : TimeZone) (ops : list log_op) :
  zone_ready tz -> ops_ok ops level 0 false ->
  exists outs, log_run gettid ops (mkLog level tz initial_cache) = Ok outs /\ lines_of gettid ops level tz outs.
Proof.
  intros Hz Ho. apply (log_run_exact gettid ops (mkLog level tz initial_cache) 0 false); try done; by left.
Qed.

(** ** Examples *)

Definition example_args (kd : logger_kind) (time errno : Z) : log_args :=
  mkArgs (replicate 4000 Byte.xff) kd time errno (str "No such file or directory") (str "net/Acceptor.cc") 88
    (str "accept") [PString (str "open "); PInteger 5].

(** A second statement in the second in which the zone was changed has the
    date and hour of the old zone, without the Z. *)
Example zone_change_stale :
  log_run 77 [OLog (example_args KInfo 1414906200000001 0); OSetTimeZone (Some new_york); OLog (example_args KInfo 1414906200000002 0)]
    (mkLog INFO None initial_cache) =
  Ok [(str "20141102 05:30:00.000001Z    77 INFO  open 5 - Acceptor.cc:88" ++ [Byte.x0a], false);
      (str "20141102 05:30:00.000002    77 INFO  open 5 - Acceptor.cc:88" ++ [Byte.x0a], false)].
Proof. vm_compute. reflexivity. Qed.

(** The zone is changed and the thread logs a second later, then fatally. *)
Definition example_ops : list log_op :=
  [OLog (example_args KInfo 1414906200000001 0); OLog (example_args (KFunc DEBUG) 1414906200000002 0);
   OSetTimeZone (Some new_york); OSetLogLevel DEBUG; OLog (example_args (KFunc DEBUG) 1414906201000002 0);
   OLog (example_args (KAbort true) 1414906201000003 2); OLog (example_args KInfo 1414906201000003 0)].

Lemma example_args_ok kd time errno : log_time_ok time -> - 2 ^ 31 <= errno < 2 ^ 31 -> args_ok (example_args kd time errno).
Proof.
  intros Ht He. split; [exact Ht|]. split; [done|]. split; [exact He|]. split; [by cbn|]. repeat apply Forall_cons_2; [..|apply Forall_nil_2]; cbn; done || lia.
Qed.

Lemma log_line_exact_witness :
  exists outs, log_run 77 example_ops (mkLog INFO None initial_cache) = Ok outs /\
    outs = [(str "20141102 05:30:00.000001Z    77 INFO  open 5 - Acceptor.cc:88" ++ [Byte.x0a], false);
            (str "20141102 01:30:01.000002    77 DEBUG accept open 5 - Acceptor.cc:88" ++ [Byte.x0a], false);
            (str "20141102 01:30:01.000003    77 FATAL No such file or directory (errno=2) open 5 - Acceptor.cc:88" ++ [Byte.x0a], true)] /\
    lines_of 77 example_ops INFO None outs.
Proof.
  destruct (log_line_exact 77 INFO None example_ops) as (outs & E & H).
  - exact I.
  - unfold example_ops. cbn [ops_ok la_kind la_time example_args kind_level].
    change (log_enabled INFO INFO) with true. change (log_enabled INFO DEBUG) with false.
    change (log_enabled DEBUG DEBUG) with true. change (log_enabled DEBUG FATAL) with true.
    change (log_enabled DEBUG INFO) with true. cbn match.
    repeat (apply example_args_ok || split); try done; try (exists est; apply new_york_wf);
      try (unfold log_time_ok, kMicroSecondsPerSecond; lia); try lia.
  - exists outs. split; [exact E|]. split; [|exact H]. clear H. revert E. vm_compute. intros E. by injection E as <-.
Defined.
