(* ===== verification/CppString.v ===== *)
(** * The parts of std::string the sources use

    A string is a list of bytes, a position a [nat], [string::npos] is [None]. *)

From S2P Require Import Prelude.

(** What [%s] or a conversion to a string reads of [s.c_str()]: up to the
    first NUL, at the latest the one that ends it. *)
Fixpoint c_string (s : list byte) : list byte :=
  match s with
  | [] => []
  | b :: s' => if byte_eqb b Byte.x00 then [] else b :: c_string s'
  end.

(** ** Searching *)

Fixpoint is_prefix (t s : list byte) : bool :=
  match t, s with
  | [], _ => true
  | a :: t', b :: s' => byte_eqb a b && is_prefix t' s'
  | _ :: _, [] => false
  end.

(** The first occurrence of [t] in [s]. *)
Fixpoint find_at (t s : list byte) : option nat :=
  if is_prefix t s then Some 0%nat
  else match s with
       | [] => None
       | _ :: s' => S <$> find_at t s'
       end.

(** [s.find(t, pos)] *)
Definition str_find (t s : list byte) (pos : nat) : option nat :=
  if (pos <=? length s)%nat then Nat.add pos <$> find_at t (drop pos s) else None.

(** [s.rfind(t)]: the last occurrence. *)
Fixpoint str_rfind (t s : list byte) : option nat :=
  match s with
  | [] => if is_prefix t s then Some 0%nat else None
  | _ :: s' =>
      match str_rfind t s' with
      | Some i => Some (S i)
      | None => if is_prefix t s then Some 0%nat else None
      end
  end.

(** The first byte of [s] that satisfies [p], from [pos] on. *)
Fixpoint find_if (p : byte -> bool) (s : list byte) : option nat :=
  match s with
  | [] => None
  | c :: s' => if p c then Some 0%nat else S <$> find_if p s'
  end.

Definition byte_in (set : list byte) (c : byte) : bool := existsb (byte_eqb c) set.

Definition find_first_of (set s : list byte) (pos : nat) : option nat :=
  Nat.add pos <$> find_if (byte_in set) (drop pos s).

Definition find_first_not_of (set s : list byte) (pos : nat) : option nat :=
  Nat.add pos <$> find_if (fun c => negb (byte_in set c)) (drop pos s).

Fixpoint find_last_if (p : byte -> bool) (s : list byte) : option nat :=
  match s with
  | [] => None
  | c :: s' =>
      match find_last_if p s' with
      | Some i => Some (S i)
      | None => if p c then Some 0%nat else None
      end
  end.

Definition find_last_not_of (set s : list byte) : option nat := find_last_if (fun c => negb (byte_in set c)) s.

(** [s.substr(pos, len)]: a position past the end throws [out_of_range]. *)
Definition substr (s : list byte) (pos len : nat) : outcome (list byte) :=
  if (pos <=? length s)%nat then Ok (take len (drop pos s)) else Fail OutOfBounds.

(** [s.substr(pos)] *)
Definition substr_from (s : list byte) (pos : nat) : outcome (list byte) := substr s pos (length s).

(** ** Lemmas *)

Lemma is_prefix_spec t : forall s, is_prefix t s = true <-> exists r, s = t ++ r.
Proof.
  induction t as [|a t IH]; intros s; cbn; [split; eauto|].
  destruct s as [|b s]; [split; [done|by intros [r ?]]|].
  rewrite andb_true_iff, byte_eqb_eq, IH. split.
  - intros [-> [r ->]]. by exists r.
  - intros [r [= -> ->]]. eauto.
Qed.

Lemma is_prefix_app t s : is_prefix t (t ++ s) = true.
Proof. apply is_prefix_spec. eauto. Qed.

(** [i] is the first occurrence. *)
Lemma find_at_some t s i : find_at t s = Some i ->
  exists a b, s = a ++ t ++ b /\ length a = i /\ (forall j, (j < i)%nat -> is_prefix t (drop j s) = false).
Proof.
  revert i. induction s as [|c s IH]; intros i; cbn [find_at]; destruct (is_prefix t _) eqn:Ep.
  - intros [= <-]. apply is_prefix_spec in Ep as [r ->]. exists [], r. split_and!; [done|done|lia].
  - done.
  - intros [= <-]. apply is_prefix_spec in Ep as [r ->]. exists [], r. split_and!; [done|done|lia].
  - destruct (find_at t s) as [k|] eqn:E; cbn; [|done]. intros [= <-].
    destruct (IH k eq_refl) as (a & b & -> & Hl & Hj). exists (c :: a), b. split_and!; [done|cbn; lia|].
    intros [|j] H; [done|]. apply Hj. lia.
Qed.

Lemma find_at_none t s : find_at t s = None -> forall j, is_prefix t (drop j s) = false.
Proof.
  induction s as [|c s IH]; cbn [find_at]; destruct (is_prefix t _) eqn:Ep; try done.
  - intros _ [|j]; [done|]. by rewrite drop_nil.
  - destruct (find_at t s) eqn:E; cbn; [done|]. intros _ [|j]; [done|]. by apply IH.
Qed.

(** The converse of both. *)
Lemma find_at_intro t a b : (forall j, (j < length a)%nat -> is_prefix t (drop j (a ++ t ++ b)) = false) ->
  find_at t (a ++ t ++ b) = Some (length a).
Proof.
  induction a as [|c a IH]; intros Hj.
  - destruct (t ++ b) eqn:E; cbn -[is_prefix]; rewrite <- E; by rewrite is_prefix_app.
  - cbn [app find_at]. pose proof (Hj 0%nat ltac:(cbn; lia)) as H0. cbn [drop app] in H0. rewrite H0.
    rewrite IH; [done|]. intros j H. apply (Hj (S j)). cbn. lia.
Qed.

Lemma find_if_some p s i : find_if p s = Some i ->
  exists a c b, s = a ++ c :: b /\ length a = i /\ p c = true /\ Forall (fun c => p c = false) a.
Proof.
  revert i. induction s as [|c s IH]; intros i; cbn; [done|]. destruct (p c) eqn:Ep.
  - intros [= <-]. by exists [], c, s.
  - destruct (find_if p s) as [k|] eqn:E; cbn; [|done]. intros [= <-].
    destruct (IH k eq_refl) as (a & d & b & -> & Hl & Hd & Ha). exists (c :: a), d, b.
    split_and!; [done|cbn; lia|done|by constructor].
Qed.

Lemma find_if_none p s : find_if p s = None -> Forall (fun c => p c = false) s.
Proof.
  induction s as [|c s IH]; cbn; [by constructor|]. destruct (p c) eqn:Ep; [done|].
  destruct (find_if p s); cbn; [done|]. constructor; auto.
Qed.

Lemma find_if_app p a s : Forall (fun c => p c = false) a -> find_if p (a ++ s) = Nat.add (length a) <$> find_if p s.
Proof.
  induction 1 as [|c a Hc _ IH]; cbn; [by destruct (find_if p s)|]. rewrite Hc, IH. by destruct (find_if p s).
Qed.

(** The last byte that satisfies [p], from the end. *)
Lemma find_last_if_rev p s : find_last_if p s = (fun i => length s - 1 - i)%nat <$> find_if p (rev s).
Proof.
  induction s as [|c s IH]; cbn; [done|]. rewrite IH.
  destruct (find_if p (rev s)) as [k|] eqn:E; cbn.
  - apply find_if_some in E as (a & d & b & Hr & Hl & Hd & Ha).
    assert (length s = length a + S (length b))%nat as Hlen by (rewrite <- (length_rev s), Hr, length_app; done).
    rewrite Hr, <- app_assoc, find_if_app by done. cbn. rewrite Hd. cbn. f_equal. lia.
  - apply find_if_none in E. rewrite find_if_app by done. cbn. destruct (p c); cbn; [|done].
    f_equal. rewrite length_rev. lia.
Qed.

Lemma byte_in_spec set c : byte_in set c = true <-> c ∈ set.
Proof.
  unfold byte_in. rewrite existsb_exists. setoid_rewrite byte_eqb_eq. split.
  - intros (x & Hx%list_elem_of_In & ->). done.
  - intros H. exists c. split; [by apply list_elem_of_In|done].
Qed.

(** ** Searching for a character *)

Lemma is_prefix_char c d s : is_prefix [c] (d :: s) = byte_eqb c d.
Proof. cbn. apply andb_true_r. Qed.

Lemma find_char c a s : c ∉ a -> find_at [c] (a ++ c :: s) = Some (length a).
Proof.
  induction a as [|d a IH]; intros Hc; cbn [app find_at length]; rewrite is_prefix_char.
  - by rewrite (proj2 (byte_eqb_eq c c) eq_refl).
  - assert (byte_eqb c d = false) as -> by (apply not_true_iff_false; rewrite byte_eqb_eq; set_solver). rewrite IH by set_solver. done.
Qed.

Lemma find_char_none c s : c ∉ s -> find_at [c] s = None.
Proof.
  induction s as [|d s IH]; intros Hc; [done|]. cbn [find_at]. rewrite is_prefix_char.
  assert (byte_eqb c d = false) as -> by (apply not_true_iff_false; rewrite byte_eqb_eq; set_solver). by rewrite IH by set_solver.
Qed.

(** In the rest of a string after [pre]. *)
Lemma str_find_char c pre a s : c ∉ a -> str_find [c] (pre ++ a ++ c :: s) (length pre) = Some (length pre + length a)%nat.
Proof.
  intros Hc. unfold str_find. rewrite length_app, (proj2 (Nat.leb_le _ _)) by lia. rewrite drop_app_length, find_char by done. done.
Qed.

Lemma str_find_char_none c pre s : c ∉ s -> str_find [c] (pre ++ s) (length pre) = None.
Proof. intros Hc. unfold str_find. rewrite length_app, (proj2 (Nat.leb_le _ _)) by lia. by rewrite drop_app_length, find_char_none. Qed.

Lemma rfind_char c a b : c ∉ b -> str_rfind [c] (a ++ c :: b) = Some (length a).
Proof.
  intros Hb. assert (str_rfind [c] b = None) as Hn.
  { clear a. induction b as [|d b IH]; [done|]. apply not_elem_of_cons in Hb as [Hd Hb]. cbn [str_rfind]. rewrite IH by done.
    rewrite is_prefix_char. destruct (byte_eqb c d) eqn:E; [|done]. by apply byte_eqb_eq in E. }
  induction a as [|d a IH]; cbn [app str_rfind].
  - rewrite Hn, is_prefix_char. by rewrite (proj2 (byte_eqb_eq c c) eq_refl).
  - by rewrite IH.
Qed.
