(* ===== verification/Strops.v ===== *)
(** * String operations: src/common/Strops.h, Strops.cpp

    The static functions of EasyString on strings shorter than 2^31 bytes. A
    function that changes its argument returns the new string; loops whose
    end depends on the arguments take fuel and answer [None] when it is used
    up. *)

From stdpp Require Import gmap.
From S2P Require Import Prelude Format CppString.

(** ** Cutting and joining *)

Fixpoint split_loop (fuel : nat) (s token : list byte) (i : nat) (res : list (list byte)) : option (list (list byte)) :=
  match fuel with
  | O => None
  | S f =>
      if (i <? length s)%nat then
        match str_find token s i with
        | Some pos => split_loop f s token (pos + length token) (res ++ [take (pos - i) (drop i s)])
        | None => Some (res ++ [drop i s])
        end
      else Some res
  end.

Definition split (fuel : nat) (s token : list byte) (res : list (list byte)) : option (list (list byte)) :=
  split_loop fuel s token 0 res.

Fixpoint simple_loop (fuel : nat) (s delims : list byte) (p0 : nat) (tokens : list (list byte)) : option (list (list byte)) :=
  match fuel with
  | O => None
  | S f =>
      match str_find delims s p0 with
      | None => Some (tokens ++ [drop p0 s])
      | Some p1 => simple_loop f s delims (p1 + length delims) (tokens ++ [take (p1 - p0) (drop p0 s)])
      end
  end.

Definition SimpleTokenize (fuel : nat) (s delims : list byte) : option (list (list byte)) :=
  simple_loop fuel s delims 0 [].

(** The [do ... while] loop: [pos] where the last token ended. *)
Fixpoint tokenize_loop (fuel : nat) (s delims : list byte) (pos : nat) (tokens : list (list byte)) : option (list (list byte)) :=
  match fuel with
  | O => None
  | S f =>
      match find_first_not_of delims s pos with
      | None => Some tokens
      | Some last_pos =>
          match find_first_of delims s last_pos with
          | Some p => tokenize_loop f s delims p (tokens ++ [take (p - last_pos) (drop last_pos s)])
          | None => Some (tokens ++ [take (length s - last_pos) (drop last_pos s)])
          end
      end
  end.

Definition Tokenize (fuel : nat) (s delims : list byte) : option (list (list byte)) :=
  tokenize_loop fuel s delims 0 [].

Fixpoint replace_loop (fuel : nat) (s from to : list byte) (tpos : nat) (temp : list byte) : option (nat * list byte) :=
  match fuel with
  | O => None
  | S f =>
      match str_find from s tpos with
      | Some pos => replace_loop f s from to (pos + length from) (temp ++ take (pos - tpos) (drop tpos s) ++ to)
      | None => Some (tpos, temp)
      end
  end.

(** When nothing is found the string is left alone. *)
Definition ReplaceAll (fuel : nat) (s strToReplaced strReplaced : list byte) : option (list byte) :=
  match str_find strToReplaced s 0 with
  | None => Some s
  | Some _ =>
      '(tpos, temp) ← replace_loop fuel s strToReplaced strReplaced 0 [];
      Some (temp ++ drop tpos s)
  end.

(** ** Trimming *)

Definition TrimLeft (s target : list byte) : list byte :=
  match find_first_not_of target s 0 with
  | Some pos => drop pos s
  | None => []
  end.

Definition TrimRight (s target : list byte) : list byte :=
  match find_last_not_of target s with
  | Some pos => take (pos + 1) s
  | None => []
  end.

Definition Trim (s target : list byte) : list byte := TrimRight (TrimLeft s target) target.

Definition default_target : list byte := [Byte.x20; Byte.x0d; Byte.x0a; Byte.x09].

(** ** Tests *)

(** [str.length() - endStr.length()] wraps, past the end, when [endStr] is longer. *)
Definition EndsWith (s endStr : list byte) : bool :=
  match str_find endStr s (if (length endStr <=? length s)%nat then length s - length endStr else S (length s)) with
  | Some _ => true
  | None => false
  end.

Definition StartsWith (s startStr : list byte) : bool := bool_decide (str_find startStr s 0 = Some 0%nat).

Definition isChineseChar (c1 c2 : byte) : bool :=
  (128 <=? byte_to_Z c1) && (byte_to_Z c1 <=? 254) && (64 <=? byte_to_Z c2) && (byte_to_Z c2 <=? 254).

(** A C string is tested up to its terminator. *)
Fixpoint isall (s : list byte) (func : byte -> bool) : bool :=
  match s with
  | [] => true
  | c :: s' => if byte_eqb c Byte.x00 then true else if func c then isall s' func else false
  end.

(** [isspace] of the C locale. *)
Definition isspace (c : byte) : bool := (byte_to_Z c =? 32) || ((9 <=? byte_to_Z c) && (byte_to_Z c <=? 13)).

Definition isallspace (s : list byte) : bool := isall s isspace.

(** ** Conversions *)

Definition ToString (a : Z) : list byte := fmt_d a.

(** vsprintf into 1024 bytes; the string takes 1023 of them. *)
Definition Format (formatted : list byte) : outcome (list byte) :=
  if zlen formatted <? 1024
  then Ok (take 1023 (formatted ++ replicate 1024 Byte.x00))
  else Fail OutOfBounds.

Definition ToLowerCase (s : list byte) : list byte :=
  (fun ch => if (65 <=? byte_to_Z ch) && (byte_to_Z ch <=? 90) then byte_of_Z (byte_to_Z ch + 97 - 65) else ch) <$> s.

Definition FromHex (x : byte) : option Z :=
  let x := byte_to_Z x in
  if (65 <=? x) && (x <=? 90) then Some (x - 65 + 10)
  else if (97 <=? x) && (x <=? 122) then Some (x - 97 + 10)
  else if (48 <=? x) && (x <=? 57) then Some (x - 48)
  else None.

(** The result and what was decoded so far; the byte after the end of the
    string is its terminator. *)
Fixpoint decode_loop (s ret : list byte) : bool * list byte :=
  match s with
  | [] => (true, ret)
  | c :: s1 =>
      if byte_eqb c Byte.x25 then
        match s1 with
        | [] => (false, ret)
        | h :: [] => (false, ret)
        | h :: l :: s2 =>
            match FromHex h, FromHex l with
            | Some high, Some low => decode_loop s2 (ret ++ [byte_of_Z (high * 16 + low)])
            | _, _ => (false, ret)
            end
        end
      else decode_loop s1 (ret ++ [c])
  end.

Definition UrlDecode (s : list byte) : bool * list byte := decode_loop s [].

(** ** Extracting and removing *)

Definition ExtractSubstr (src sBegin sEnd : list byte) : list byte :=
  match str_find sBegin src 0 with
  | None => []
  | Some p0 =>
      let p := (p0 + length sBegin)%nat in
      match str_find sEnd src p with
      | None => []
      | Some q => take (q - p) (drop p src)
      end
  end.

(** [p1 - p0] wraps, to the end, when the end is found before the beginning. *)
Definition RemoveSubstr (fuel : nat) (songname sBegin sEnd : list byte) : option (list byte) :=
  match str_find sBegin songname 0, str_rfind sEnd songname with
  | Some p0, Some p1' =>
      let p1 := (p1' + length sEnd)%nat in
      let s := take (if (p0 <=? p1)%nat then p1 - p0 else length songname) (drop p0 songname) in
      ReplaceAll fuel songname s []
  | _, _ => Some songname
  end.

Definition lt_sign : byte := Byte.x3c.
Definition gt_sign : byte := Byte.x3e.

Fixpoint tags_loop (fuel : nat) (s : list byte) (pos : option nat) : option (list byte) :=
  match fuel with
  | O => None
  | S f =>
      match pos with
      | None => Some s
      | Some p =>
          match str_find [gt_sign] s p with
          | None => Some s
          | Some e =>
              if (e - p + 1 <? 1024)%nat then
                let s' := take p s ++ drop (e + 1) s in
                tags_loop f s' (str_find [lt_sign] s' p)
              else tags_loop f s (str_find [lt_sign] s (e + 1))
          end
      end
  end.

Definition RemoveHtmlTags (fuel : nat) (s : list byte) : option (list byte) :=
  tags_loop fuel s (str_find [lt_sign] s 0).

(** ** Similarity *)

Definition ngrams (n : nat) (s : list byte) : list (list byte) :=
  (fun i => take n (drop i s)) <$> seq 0 (length s + 1 - n).

Definition count_ngrams (gs : list (list byte)) : gmap (list byte) Z :=
  foldl (fun m g => <[g := default 0 (m !! g) + 1]> m) ∅ gs.

(** The second loop: the map and [common]. *)
Definition common_step (st : gmap (list byte) Z * Z) (g : list byte) : gmap (list byte) Z * Z :=
  let '(m, common) := st in
  match m !! g with
  | Some k => (if k - 1 =? 0 then delete g m else <[g := k - 1]> m, common + 1)
  | None => (m, common)
  end.

(** The quotient, as numerator and denominator; the arguments are C strings,
    possibly null. *)
Definition CalStringSim (s1 s2 : option (list byte)) (n : nat) : Z * Z :=
  match s1, s2 with
  | Some ((_ :: _) as a), Some ((_ :: _) as b) =>
      let len1 := length a in
      let len2 := length b in
      if (len1 <? n)%nat && (len1 <=? len2)%nat then
        (match find_at a b with Some _ => 1 | None => 0 end, Z.of_nat len2 - Z.of_nat len1 + 1)
      else if (len2 <? n)%nat && (len2 <=? len1)%nat then
        (match find_at b a with Some _ => 1 | None => 0 end, Z.of_nat len1 - Z.of_nat len2 + 1)
      else
        let imap := count_ngrams (ngrams n b) in
        let common := (foldl common_step (imap, 0) (ngrams n a)).2 in
        (2 * common, Z.of_nat len1 + Z.of_nat len2 - 2 * Z.of_nat n + 2)
  | _, _ => (0, 1)
  end.
