(* ===== verification/StropsSpec.v ===== *)
(** * String operations: cutting, trimming, decoding, similarity *)

From stdpp Require Import gmap gmultiset.
From S2P Require Import Prelude Format CppString Strops.

(** ** Cutting at the leftmost occurrences *)

(** [cut d s ts]: [ts] are the pieces of [s] between the occurrences of [d]
    found from left to right. *)
Inductive cut (d : list byte) : list byte -> list (list byte) -> Prop :=
| cut_last s : find_at d s = None -> cut d s [s]
| cut_next t s ts : find_at d (t ++ d ++ s) = Some (length t) -> cut d s ts -> cut d (t ++ d ++ s) (t :: ts).

Fixpoint join (d : list byte) (ts : list (list byte)) : list byte :=
  match ts with
  | [] => []
  | [t] => t
  | t :: ts' => t ++ d ++ join d ts'
  end.

Lemma cut_nonempty d s ts : cut d s ts -> ts <> [].
Proof. by destruct 1. Qed.

Lemma join_cons d t ts : ts <> [] -> join d (t :: ts) = t ++ d ++ join d ts.
Proof. by destruct ts. Qed.

Lemma cut_join d s ts : cut d s ts -> join d ts = s.
Proof. induction 1 as [|t s ts Hf Hc IH]; [done|]. rewrite join_cons by (by eapply cut_nonempty). by rewrite IH. Qed.

(** There is only one way. *)
Lemma cut_unique d s ts ts' : cut d s ts -> cut d s ts' -> ts = ts'.
Proof.
  intros H. revert ts'. induction H as [s Hn|t s ts Hf Hc IH]; intros ts' H'; inversion H' as [s' Hn'|t' s' ts2 Hf' Hc' E]; subst.
  - done.
  - congruence.
  - congruence.
  - rewrite E, Hf in Hf'. apply app_inj_1 in E as [-> E]; [|congruence]. apply app_inv_head in E as ->.
    f_equal. by apply IH.
Qed.

(** What [find] finds from [p] on. *)
Lemma str_find_some d s p q : (p <= length s)%nat -> str_find d s p = Some q ->
  exists a b, drop p s = a ++ d ++ b /\ q = (p + length a)%nat /\ drop (q + length d) s = b /\
    find_at d (a ++ d ++ b) = Some (length a) /\ take (q - p) (drop p s) = a.
Proof.
  intros Hp. unfold str_find. rewrite (proj2 (Nat.leb_le _ _) Hp).
  destruct (find_at d (drop p s)) as [k|] eqn:E; cbn; [|done]. intros [= <-]. pose proof E as E'.
  apply find_at_some in E as (a & b & Hs & Hl & _). exists a, b. split_and!; [done|lia| |by rewrite <- Hs, Hl|].
  - replace (p + k + length d)%nat with (p + length (a ++ d))%nat by (rewrite length_app; lia).
    rewrite <- drop_drop, Hs, app_assoc. apply drop_app_length.
  - replace (p + k - p)%nat with (length a) by lia. rewrite Hs. apply take_app_length.
Qed.

Lemma str_find_none d s p : (p <= length s)%nat -> str_find d s p = None -> find_at d (drop p s) = None.
Proof.
  intros Hp. unfold str_find. rewrite (proj2 (Nat.leb_le _ _) Hp). by destruct (find_at d (drop p s)).
Qed.

(** One step of every loop below: the rest is shorter. *)
Lemma find_progress d s p q : d <> [] -> (p <= length s)%nat -> str_find d s p = Some q ->
  (q + length d <= length s)%nat /\ (p < q + length d)%nat.
Proof.
  intros Hd Hp H. apply str_find_some in H as (a & b & Hs & -> & _); [|done].
  assert (length (drop p s) = length a + length d + length b)%nat as Hl by (rewrite Hs, !length_app; lia).
  rewrite length_drop in Hl. destruct d; [done|cbn in *; lia].
Qed.

Lemma simple_loop_ok d s : d <> [] -> forall fuel p tokens, (p <= length s)%nat -> (length s - p < fuel)%nat ->
  exists ts, simple_loop fuel s d p tokens = Some (tokens ++ ts) /\ cut d (drop p s) ts.
Proof.
  intros Hd. induction fuel as [|f IH]; intros p tokens Hp Hf; [lia|]. cbn.
  destruct (str_find d s p) as [q|] eqn:E; cycle 1.
  { exists [drop p s]. split; [done|]. constructor. by apply str_find_none. }
  destruct (find_progress d s p q Hd Hp E) as [Hq Hpq].
  apply str_find_some in E as (a & b & Hs & -> & Hb & Hfa & Ht); [|done].
  destruct (IH (p + length a + length d)%nat (tokens ++ [a])) as (ts & E & Hc); [lia..|].
  rewrite Ht, E. exists (a :: ts). split; [by rewrite <- app_assoc|]. rewrite Hs. rewrite Hb in Hc. by constructor.
Qed.

(** [split] leaves out a last piece that is empty. *)
Fixpoint strip_last (ts : list (list byte)) : list (list byte) :=
  match ts with
  | [] => []
  | [t] => match t with [] => [] | _ => [t] end
  | t :: ts' => t :: strip_last ts'
  end.

Lemma split_loop_ok d s : d <> [] -> forall fuel p res, (p <= length s)%nat -> (length s - p < fuel)%nat ->
  exists ts, split_loop fuel s d p res = Some (res ++ strip_last ts) /\ cut d (drop p s) ts.
Proof.
  intros Hd. induction fuel as [|f IH]; intros p res Hp Hf; [lia|]. cbn [split_loop].
  destruct (Nat.ltb_spec p (length s)) as [Hlt|Hge]; cycle 1.
  { exists [[]]. split; [cbn; by rewrite app_nil_r|]. rewrite drop_ge by lia. constructor. by destruct d. }
  destruct (str_find d s p) as [q|] eqn:E; cycle 1.
  { exists [drop p s]. split.
    - cbn. destruct (drop p s) eqn:Ed; [|done]. apply (f_equal length) in Ed. rewrite length_drop in Ed. cbn in Ed. lia.
    - constructor. by apply str_find_none. }
  destruct (find_progress d s p q Hd Hp E) as [Hq Hpq].
  apply str_find_some in E as (a & b & Hs & -> & Hb & Hfa & Ht); [|done].
  destruct (IH (p + length a + length d)%nat (res ++ [a])) as (ts & E & Hc); [lia..|].
  rewrite Ht, E. exists (a :: ts). pose proof (cut_nonempty _ _ _ Hc). split.
  - rewrite <- app_assoc. by destruct ts.
  - rewrite Hs. rewrite Hb in Hc. by constructor.
Qed.

Lemma replace_loop_ok d r s : d <> [] -> forall fuel p temp, (p <= length s)%nat -> (length s - p < fuel)%nat ->
  exists q temp' ts, replace_loop fuel s d r p temp = Some (q, temp') /\ temp' ++ drop q s = temp ++ join r ts /\
    cut d (drop p s) ts.
Proof.
  intros Hd. induction fuel as [|f IH]; intros p temp Hp Hf; [lia|]. cbn.
  destruct (str_find d s p) as [q|] eqn:E; cycle 1.
  { exists p, temp, [drop p s]. split_and!; [done|done|]. constructor. by apply str_find_none. }
  destruct (find_progress d s p q Hd Hp E) as [Hq Hpq].
  apply str_find_some in E as (a & b & Hs & -> & Hb & Hfa & Ht); [|done].
  destruct (IH (p + length a + length d)%nat (temp ++ a ++ r)) as (q & temp' & ts & E & Hj & Hc); [lia..|].
  rewrite Ht, E. exists q, temp', (a :: ts). split_and!; [done| |rewrite Hs; rewrite Hb in Hc; by constructor].
  rewrite Hj, join_cons by (by eapply cut_nonempty). by rewrite <- !app_assoc.
Qed.

(** ** Words *)

(** The reference: cut at every delimiter byte, and leave out empty fields. *)
Fixpoint fields (delims s : list byte) : list (list byte) :=
  match s with
  | [] => [[]]
  | c :: s' =>
      if byte_in delims c then [] :: fields delims s'
      else match fields delims s' with
           | t :: ts => (c :: t) :: ts
           | [] => [[c]]
           end
  end.

Definition words (delims s : list byte) : list (list byte) := filter (fun t => t <> []) (fields delims s).

Arguments words : simpl never.

Definition is_delim (delims : list byte) (c : byte) : Prop := byte_in delims c = true.
Definition no_delim (delims : list byte) (c : byte) : Prop := byte_in delims c = false.

Lemma drop_empty (l : list (list byte)) : filter (fun t => t <> []) ([] :: l) = filter (fun t => t <> []) l.
Proof. done. Qed.

Lemma words_skip delims a s : Forall (is_delim delims) a -> words delims (a ++ s) = words delims s.
Proof. unfold is_delim. induction 1 as [|c a Hc _ IH]; [done|]. unfold words in *. cbn. rewrite Hc. by rewrite drop_empty. Qed.

Lemma fields_word delims t s : Forall (no_delim delims) t ->
  fields delims (t ++ s) = match fields delims s with u :: us => (t ++ u) :: us | [] => [t] end.
Proof.
  unfold no_delim. assert (forall s, fields delims s <> []) as Hne.
  { intros s'. destruct s'; cbn; [done|]. repeat case_match; done. }
  induction 1 as [|c t Hc _ IH]; cbn.
  - specialize (Hne s). by destruct (fields delims s).
  - rewrite Hc, IH. specialize (Hne s). by destruct (fields delims s).
Qed.

Lemma words_word delims t c s : Forall (no_delim delims) t -> t <> [] -> is_delim delims c ->
  words delims (t ++ c :: s) = t :: words delims (c :: s).
Proof.
  intros Ht Hne Hc. unfold words, is_delim in *. rewrite fields_word by done. cbn. rewrite Hc, app_nil_r.
  rewrite filter_cons_True by done. by rewrite drop_empty.
Qed.

Lemma words_last delims t : Forall (no_delim delims) t -> t <> [] -> words delims t = [t].
Proof.
  intros Ht Hne. unfold words. rewrite <- (app_nil_r t) at 1. rewrite fields_word by done. cbn [fields]. rewrite app_nil_r.
  by rewrite filter_cons_True.
Qed.

Lemma tokenize_loop_ok delims s : forall fuel p tokens, (p <= length s)%nat -> (length s - p < fuel)%nat ->
  tokenize_loop fuel s delims p tokens = Some (tokens ++ words delims (drop p s)).
Proof.
  induction fuel as [|f IH]; intros p tokens Hp Hf; [lia|]. cbn [tokenize_loop]. unfold find_first_not_of.
  destruct (find_if _ (drop p s)) as [k|] eqn:E; cbn.
  2: { apply find_if_none in E. rewrite <- (app_nil_r (drop p s)), words_skip; [by rewrite app_nil_r|].
       eapply Forall_impl; [exact E|]. intros c Hc. by apply negb_false_iff. }
  apply find_if_some in E as (a & c & b & Hs & <- & Hc & Ha). apply negb_true_iff in Hc.
  assert (Forall (is_delim delims) a) as Ha' by (eapply Forall_impl; [exact Ha|]; intros x Hx; by apply negb_false_iff).
  assert (drop (p + length a) s = c :: b) as Hd by (by rewrite <- drop_drop, Hs, drop_app_length).
  assert (length s = p + length a + S (length b))%nat as Hls.
  { apply (f_equal length) in Hs. rewrite length_drop, length_app in Hs. cbn in Hs. lia. }
  unfold find_first_of. rewrite Hs, words_skip, Hd by done. cbn [find_if]. rewrite Hc.
  destruct (find_if (byte_in delims) b) as [k|] eqn:E; cbn.
  - apply find_if_some in E as (t & x & rest & -> & <- & Hx & Ht). rewrite length_app in Hls. cbn in Hls.
    change (c :: t ++ x :: rest) with ((c :: t) ++ x :: rest) in *.
    assert (drop (p + length a + S (length t)) s = x :: rest) as Hdr.
    { change (S (length t)) with (length (c :: t)). rewrite <- drop_drop, Hd. apply drop_app_length. }
    rewrite IH, Hdr, words_word by (lia || done || by constructor).
    replace (p + length a + S (length t) - (p + length a))%nat with (length (c :: t)) by (cbn; lia).
    rewrite take_app_length. by rewrite <- app_assoc.
  - apply find_if_none in E. rewrite words_last; [|by constructor|done]. do 3 f_equal. apply take_ge. cbn. lia.
Qed.

(** ** Trimming *)

Lemma TrimLeft_spec s target : exists a, s = a ++ TrimLeft s target /\ Forall (is_delim target) a /\
  (forall c, head (TrimLeft s target) = Some c -> no_delim target c).
Proof.
  unfold TrimLeft, find_first_not_of. rewrite drop_0. destruct (find_if _ s) as [k|] eqn:E; cbn.
  - apply find_if_some in E as (a & c & b & -> & <- & Hc & Ha). exists a. rewrite drop_app_length. split_and!; [done| |].
    + eapply Forall_impl; [exact Ha|]. intros x Hx. by apply negb_false_iff.
    + intros c' [= <-]. by apply negb_true_iff.
  - apply find_if_none in E. exists s. rewrite app_nil_r. split_and!; [done| |done].
    eapply Forall_impl; [exact E|]. intros x Hx. by apply negb_false_iff.
Qed.

Lemma TrimRight_spec s target : exists b, s = TrimRight s target ++ b /\ Forall (is_delim target) b /\
  (forall c, last (TrimRight s target) = Some c -> no_delim target c).
Proof.
  unfold TrimRight, find_last_not_of. rewrite find_last_if_rev. destruct (find_if _ (rev s)) as [k|] eqn:E; cbn.
  - apply find_if_some in E as (a & c & b & Hr & <- & Hc & Ha).
    assert (s = (rev b ++ [c]) ++ rev a) as ->.
    { rewrite <- (rev_involutive s), Hr, rev_app_distr. done. }
    exists (rev a). rewrite !length_app, !length_rev. cbn [length].
    replace (length b + 1 + length a - 1 - length a + 1)%nat with (length (rev b ++ [c])) by (rewrite length_app, length_rev; cbn; lia).
    rewrite take_app_length. split_and!; [done| |].
    + apply Forall_rev. eapply Forall_impl; [exact Ha|]. intros x Hx. by apply negb_false_iff.
    + rewrite last_snoc. intros c' [= <-]. by apply negb_true_iff.
  - apply find_if_none in E. exists s. split_and!; [done| |done]. rewrite <- (rev_involutive s). apply Forall_rev.
    eapply Forall_impl; [exact E|]. intros x Hx. by apply negb_false_iff.
Qed.

(** ** Percent-decoding *)

(** Upper- or lower-case digits. *)
Definition hex_digit (upper : bool) (d : Z) : byte :=
  byte_of_Z (if d <? 10 then 48 + d else if upper then 55 + d else 87 + d).

Definition percent (upper : bool) (c : byte) : list byte :=
  [Byte.x25; hex_digit upper (byte_to_Z c / 16); hex_digit upper (byte_to_Z c mod 16)].

(** Any encoder: [keep] tells which bytes stay as they are. *)
Definition url_encode (upper : bool) (keep : byte -> bool) (s : list byte) : list byte :=
  s ≫= fun c => if keep c && negb (byte_eqb c Byte.x25) then [c] else percent upper c.

Lemma FromHex_digit upper d : 0 <= d < 16 -> FromHex (hex_digit upper d) = Some d.
Proof.
  intros Hd. unfold FromHex, hex_digit. rewrite byte_to_of_Z.
  destruct (Z.ltb_spec d 10); [|destruct upper]; rewrite Z.mod_small by lia; zcases; cbn; f_equal; lia.
Qed.

Lemma decode_loop_encode upper keep s : forall ret, decode_loop (url_encode upper keep s) ret = (true, ret ++ s).
Proof.
  induction s as [|c s IH]; intros ret; [by rewrite app_nil_r|].
  change (url_encode upper keep (c :: s)) with
    ((if keep c && negb (byte_eqb c Byte.x25) then [c] else percent upper c) ++ url_encode upper keep s).
  destruct (keep c && negb (byte_eqb c Byte.x25)) eqn:Ek.
  - apply andb_true_iff in Ek as [_ Hn%negb_true_iff]. cbn [app decode_loop]. rewrite Hn, IH, <- app_assoc. done.
  - pose proof (byte_to_Z_range c) as Hr. cbn [percent app decode_loop byte_eqb Byte.eqb].
    change (byte_eqb Byte.x25 Byte.x25) with true. cbn iota.
    pose proof (Z.mod_pos_bound (byte_to_Z c) 16 ltac:(lia)).
    rewrite !FromHex_digit by (done || (split; [apply Z.div_pos; lia|apply Z.div_lt_upper_bound; lia])).
    rewrite IH. f_equal. rewrite <- app_assoc. cbn. do 2 f_equal.
    replace (byte_to_Z c / 16 * 16 + byte_to_Z c mod 16) with (byte_to_Z c) by (pose proof (Z.div_mod (byte_to_Z c) 16); lia).
    apply byte_of_to_Z.
Qed.

(** ** Tags *)

(** Finding one byte. *)
Lemma find_byte c s : find_at [c] s = find_if (byte_eqb c) s.
Proof.
  induction s as [|x s IH]; cbn; [done|]. rewrite andb_true_r, IH. by destruct (byte_eqb c x).
Qed.

Lemma not_in_forall c s : Forall (fun x => byte_eqb c x = false) s <-> ~ c ∈ s.
Proof.
  rewrite Forall_forall. split.
  - intros H Hc. specialize (H c Hc). rewrite (proj2 (byte_eqb_eq c c)) in H; done.
  - intros H x Hx. destruct (byte_eqb c x) eqn:E; [|done]. apply byte_eqb_eq in E as <-. done.
Qed.

(** [find] of one byte splits the string there. *)
Lemma find_byte_some c s p q : (p <= length s)%nat -> str_find [c] s p = Some q ->
  exists a b, s = take p s ++ a ++ c :: b /\ ~ c ∈ a /\ q = (p + length a)%nat.
Proof.
  intros Hp. unfold str_find. rewrite (proj2 (Nat.leb_le _ _) Hp), find_byte.
  destruct (find_if _ _) as [k|] eqn:E; cbn; [|done]. intros [= <-].
  apply find_if_some in E as (a & x & b & Hs & <- & Hx & Ha). apply byte_eqb_eq in Hx as <-.
  exists a, b. split_and!; [|by apply not_in_forall|done]. by rewrite <- Hs, take_drop.
Qed.

Lemma find_byte_none c s p : (p <= length s)%nat -> str_find [c] s p = None -> ~ c ∈ drop p s.
Proof.
  intros Hp. unfold str_find. rewrite (proj2 (Nat.leb_le _ _) Hp), find_byte.
  destruct (find_if _ _) as [k|] eqn:E; cbn; [done|]. intros _. by apply not_in_forall, find_if_none.
Qed.

(** No tag is left: no [<] before a [>]. *)
Definition tag_free (s : list byte) : Prop := exists a b, s = a ++ b /\ ~ lt_sign ∈ a /\ ~ gt_sign ∈ b.

Lemma tags_loop_ok fuel : forall s pos, (length s < fuel)%nat -> (length s < 1024)%nat ->
  match pos with
  | Some p => (p < length s)%nat /\ ~ lt_sign ∈ take p s
  | None => ~ lt_sign ∈ s
  end ->
  exists r, tags_loop fuel s pos = Some r /\ r `sublist_of` s /\ tag_free r.
Proof.
  induction fuel as [|f IH]; intros s pos Hf Hlen Hpos; [lia|]. cbn [tags_loop]. destruct pos as [p|].
  2: { exists s. split_and!; [done|done|]. exists s, []. rewrite app_nil_r. split_and!; [done|done|apply not_elem_of_nil]. }
  destruct Hpos as [Hp Hlt]. destruct (str_find [gt_sign] s p) as [e|] eqn:E; cycle 1.
  { exists s. split_and!; [done|done|]. exists (take p s), (drop p s). rewrite take_drop. split_and!; [done|done|].
    by apply find_byte_none; [lia|]. }
  apply find_byte_some in E as (a & b & Hs & Ha & ->); [|lia].
  assert (length s = p + length a + S (length b))%nat as Hls.
  { rewrite Hs at 1. rewrite !length_app, length_take. cbn. lia. }
  destruct (Nat.ltb_spec (p + length a - p + 1) 1024) as [_|]; [|lia].
  assert (drop (p + length a + 1) s = b) as Hd.
  { rewrite Hs. replace (p + length a + 1)%nat with (length (take p s ++ a ++ [gt_sign])) by (rewrite !length_app, length_take; cbn; lia).
    change (a ++ gt_sign :: b) with (a ++ [gt_sign] ++ b). rewrite !app_assoc. apply drop_app_length. }
  rewrite Hd. set (s' := take p s ++ b).
  assert (s' `sublist_of` s) as Hsub.
  { unfold s'. rewrite Hs at 2. apply sublist_app; [done|]. apply sublist_inserts_l. by apply sublist_cons. }
  assert (take p s' = take p s) as Htk.
  { unfold s'. rewrite take_app_le by (rewrite length_take; lia). by rewrite take_take, Nat.min_id. }
  assert (length s' = p + length b)%nat as Hl' by (unfold s'; rewrite length_app, length_take; lia).
  destruct (IH s' (str_find [lt_sign] s' p)) as (r & Er & Hr & Hfree); [lia|lia| |].
  { destruct (str_find [lt_sign] s' p) as [q|] eqn:Eq.
    - apply find_byte_some in Eq as (a' & b' & Hs' & Ha' & ->); [|lia].
      assert (length s' = p + length a' + S (length b'))%nat by (rewrite Hs' at 1; rewrite !length_app, length_take; cbn; lia).
      split; [lia|]. rewrite Hs'. rewrite Htk.
      replace (p + length a')%nat with (length (take p s ++ a')) by (rewrite length_app, length_take; lia).
      rewrite app_assoc, take_app_length. rewrite elem_of_app. tauto.
    - apply find_byte_none in Eq; [|lia]. rewrite <- (take_drop p s'), Htk, elem_of_app. tauto. }
  exists r. split_and!; [done|by etrans|done].
Qed.

(** ** Similarity *)

(** The map holds the multiplicities of [M]. *)
Definition represents (m : gmap (list byte) Z) (M : gmultiset (list byte)) : Prop :=
  forall g, default 0 (m !! g) = Z.of_nat (multiplicity g M) /\ m !! g <> Some 0.

Lemma represents_insert m M g : represents m M -> represents (<[g := default 0 (m !! g) + 1]> m) (M ⊎ {[+ g +]}).
Proof.
  intros Hr x. destruct (Hr x) as [Hx Hx0]. rewrite multiplicity_disj_union. destruct (decide (x = g)) as [->|Hne].
  - rewrite lookup_insert_eq, multiplicity_singleton, decide_True by done. cbn. rewrite Hx. split; [lia|]. intros [= ?]. lia.
  - rewrite lookup_insert_ne, multiplicity_singleton, decide_False by done. split; [rewrite Hx; lia|done].
Qed.

Lemma count_ngrams_ok gs : represents (count_ngrams gs) (list_to_set_disj gs).
Proof.
  unfold count_ngrams. induction gs as [|g gs IH] using rev_ind; cbn.
  - intros x. by rewrite lookup_empty, multiplicity_empty.
  - assert ((list_to_set_disj (gs ++ [g]) : gmultiset _) = list_to_set_disj gs ⊎ {[+ g +]}) as ->
      by (rewrite list_to_set_disj_app, list_to_set_disj_cons, list_to_set_disj_nil; multiset_solver).
    rewrite foldl_app. by apply represents_insert.
Qed.

Lemma inter_present (g : list byte) (M : gmultiset (list byte)) : g ∈ M -> ({[+ g +]} : gmultiset (list byte)) ∩ M = {[+ g +]}.
Proof.
  rewrite elem_of_multiplicity. intros Hg. apply gmultiset_eq. intros x.
  rewrite multiplicity_intersection, multiplicity_singleton. destruct (decide (x = g)); subst; lia.
Qed.

Lemma inter_absent (g : list byte) (M : gmultiset (list byte)) : ~ g ∈ M ->
  ({[+ g +]} : gmultiset (list byte)) ∩ M = ∅ /\ M ∖ {[+ g +]} = M.
Proof.
  rewrite elem_of_multiplicity. intros Hg. split; apply gmultiset_eq; intros x.
  - rewrite multiplicity_intersection, multiplicity_singleton, multiplicity_empty. destruct (decide (x = g)); subst; lia.
  - rewrite multiplicity_difference, multiplicity_singleton. destruct (decide (x = g)); subst; lia.
Qed.

Lemma common_step_ok m M c g : represents m M ->
  let '(m', c') := common_step (m, c) g in
  represents m' (M ∖ {[+ g +]}) /\ c' = c + Z.of_nat (size (({[+ g +]} : gmultiset _) ∩ M)).
Proof.
  intros Hr. unfold common_step. destruct (Hr g) as [Hg Hg0]. destruct (m !! g) as [k|] eqn:E; cbn in Hg.
  - assert (k <> 0) as Hk by congruence. assert (g ∈ M) as Hin by (apply elem_of_multiplicity; lia).
    rewrite inter_present, gmultiset_size_singleton by done. split; [|lia].
    intros x. destruct (Hr x) as [Hx Hx0]. rewrite multiplicity_difference. destruct (decide (x = g)) as [->|Hne].
    + rewrite multiplicity_singleton, decide_True by done. destruct (Z.eqb_spec (k - 1) 0).
      * rewrite lookup_delete_eq. cbn. split; [lia|done].
      * rewrite lookup_insert_eq. cbn. split; [lia|congruence].
    + rewrite multiplicity_singleton, decide_False, Nat.sub_0_r by done.
      destruct (Z.eqb_spec (k - 1) 0); [rewrite lookup_delete_ne by done|rewrite lookup_insert_ne by done]; done.
  - assert (~ g ∈ M) as Hin by (rewrite elem_of_multiplicity; lia).
    destruct (inter_absent g M Hin) as [-> ->]. rewrite gmultiset_size_empty. split; [done|lia].
Qed.

Lemma common_loop_ok gs : forall m M c, represents m M ->
  (foldl common_step (m, c) gs).2 = c + Z.of_nat (size ((list_to_set_disj gs : gmultiset _) ∩ M)).
Proof.
  induction gs as [|g gs IH]; intros m M c Hr; cbn [foldl list_to_set_disj].
  - assert ((∅ : gmultiset (list byte)) ∩ M = ∅) as -> by (clear; multiset_solver). rewrite gmultiset_size_empty. cbn. lia.
  - pose proof (common_step_ok m M c g Hr) as Hs. destruct (common_step (m, c) g) as [m' c']. destruct Hs as [Hr' ->].
    rewrite (IH m' (M ∖ {[+ g +]})) by done.
    assert (({[+ g +]} ⊎ list_to_set_disj gs) ∩ M =
      (({[+ g +]} : gmultiset _) ∩ M) ⊎ (list_to_set_disj gs ∩ (M ∖ {[+ g +]}))) as -> by (clear; multiset_solver).
    rewrite gmultiset_size_disj_union. lia.
Qed.

Lemma size_of_list (l : list (list byte)) : size (list_to_set_disj l : gmultiset (list byte)) = length l.
Proof.
  induction l as [|x l IH]; [apply gmultiset_size_empty|].
  by rewrite list_to_set_disj_cons, gmultiset_size_disj_union, gmultiset_size_singleton, IH.
Qed.

Lemma inter_size (X Y : gmultiset (list byte)) : (size (X ∩ Y) <= size X)%nat /\ X ∩ Y = Y ∩ X.
Proof. split; [apply gmultiset_subseteq_size|]; multiset_solver. Qed.

(** ** Theorems *)

(** For a delimiter that is not empty, SimpleTokenize ends and cuts the
    string at its leftmost occurrences, so that joining the pieces with the
    delimiter gives the string back; split gives the same pieces without an
    empty last one; and ReplaceAll is cutting and joining with the
    replacement. *)
Lemma cutting_exact (s d : list byte) : d <> [] ->
  exists ts, SimpleTokenize (S (length s)) s d = Some ts /\ cut d s ts /\ join d ts = s /\
    split (S (length s)) s d [] = Some (strip_last ts) /\
    forall r, ReplaceAll (S (length s)) s d r = Some (join r ts).
Proof.
  intros Hd. destruct (simple_loop_ok d s Hd (S (length s)) 0 []) as (ts & E & Hc); [lia..|]. rewrite drop_0 in Hc.
  exists ts. split_and!; [exact E|done|by apply cut_join| |].
  - destruct (split_loop_ok d s Hd (S (length s)) 0 []) as (ts' & E' & Hc'); [lia..|]. rewrite drop_0 in Hc'.
    unfold split. rewrite E'. by rewrite (cut_unique _ _ _ _ Hc' Hc).
  - intros r. destruct (replace_loop_ok d r s Hd (S (length s)) 0 []) as (q & temp & ts' & E' & Hj & Hc'); [lia..|].
    rewrite drop_0 in Hc'. rewrite (cut_unique _ _ _ _ Hc' Hc) in Hj. unfold ReplaceAll.
    destruct (str_find d s 0) eqn:Ef.
    + rewrite E'. cbn [mbind option_bind]. by rewrite Hj.
    + apply str_find_none in Ef; [|lia]. rewrite drop_0 in Ef. by rewrite (cut_unique _ _ _ _ Hc (cut_last _ _ Ef)).
Qed.

(** With an empty delimiter none of the three ends. *)
Lemma empty_delimiter_diverges (fuel : nat) (s r : list byte) : s <> [] ->
  SimpleTokenize fuel s [] = None /\ split fuel s [] [] = None /\ ReplaceAll fuel s [] r = None.
Proof.
  intros Hs. assert (forall p, (p <= length s)%nat -> str_find [] s p = Some p) as Hf.
  { intros p Hp. unfold str_find. rewrite (proj2 (Nat.leb_le _ _) Hp). destruct (drop p s); cbn; f_equal; lia. }
  assert (forall ts, simple_loop fuel s [] 0 ts = None) as H1.
  { induction fuel as [|f IH]; intros ts; cbn [simple_loop]; [done|]. rewrite Hf by lia. apply IH. }
  assert (forall ts, split_loop fuel s [] 0 ts = None) as H2.
  { clear H1. induction fuel as [|f IH]; intros ts; cbn [split_loop]; [done|]. rewrite Hf by lia.
    destruct (Nat.ltb_spec 0 (length s)); [apply IH|destruct s; [done|cbn in *; lia]]. }
  assert (forall t, replace_loop fuel s [] r 0 t = None) as H3.
  { clear H1 H2. induction fuel as [|f IH]; intros t; cbn [replace_loop]; [done|]. rewrite Hf by lia. apply IH. }
  split_and!; [apply H1|apply H2|]. unfold ReplaceAll. rewrite Hf by lia. by rewrite H3.
Qed.

(** Tokenize ends and returns the maximal runs of bytes that are not
    delimiters, in order; Trim cuts exactly the target bytes at both ends. *)
Lemma tokenize_trim_exact (s delims : list byte) :
  Tokenize (S (length s)) s delims = Some (words delims s) /\
  exists a b, s = a ++ Trim s delims ++ b /\ Forall (is_delim delims) a /\ Forall (is_delim delims) b /\
    (forall c, head (Trim s delims) = Some c -> no_delim delims c) /\
    (forall c, last (Trim s delims) = Some c -> no_delim delims c).
Proof.
  split; [unfold Tokenize; rewrite tokenize_loop_ok by lia; done|].
  destruct (TrimLeft_spec s delims) as (a & Hs & Ha & Hh).
  destruct (TrimRight_spec (TrimLeft s delims) delims) as (b & Hs' & Hb & Hl). fold (Trim s delims) in *.
  exists a, b. split_and!; [by rewrite <- Hs'|done|done| |done].
  intros c Hc. apply Hh. rewrite Hs'. by destruct (Trim s delims).
Qed.

(** UrlDecode gives back what any percent-encoder wrote, with digits in
    either case. *)
Lemma url_decode_roundtrip (upper : bool) (keep : byte -> bool) (s : list byte) :
  UrlDecode (url_encode upper keep s) = (true, s).
Proof. apply decode_loop_encode. Qed.

(** FromHex takes every letter for a digit, so UrlDecode accepts text that no
    encoder writes. *)
Lemma url_decode_accepts_letters :
  UrlDecode (str "%G0") = (true, [Byte.x00]) /\ UrlDecode (str "%zz") = UrlDecode (str "S").
Proof. split; vm_compute; reflexivity. Qed.

(** RemoveHtmlTags ends on texts of less than 1024 bytes, deletes only,
    and leaves no [<] before a [>]. *)
Lemma html_tags_removed (s : list byte) : zlen s < 1024 ->
  exists r, RemoveHtmlTags (S (length s)) s = Some r /\ r `sublist_of` s /\ tag_free r.
Proof.
  intros Hs. unfold zlen in Hs. apply tags_loop_ok; [lia|lia|].
  destruct (str_find [lt_sign] s 0) as [p|] eqn:E.
  - apply find_byte_some in E as (a & b & Hs' & Ha & ->); [|lia]. rewrite take_0, app_nil_l in Hs'. rewrite Nat.add_0_l, Hs'.
    split; [rewrite length_app; cbn [length]; lia|]. by rewrite take_app_length.
  - apply find_byte_none in E; [|lia]. by rewrite drop_0 in E.
Qed.

(** For strings of at least n bytes the similarity is twice the number of
    n-grams they share, counted with multiplicity, over the number of n-grams
    of both; it is symmetric and lies between 0 and 1. *)
Lemma similarity_exact (a b : list byte) (n : nat) :
  (0 < n)%nat -> (n <= length a)%nat -> (n <= length b)%nat ->
  exists common, CalStringSim (Some a) (Some b) n = (2 * common, zlen (ngrams n a) + zlen (ngrams n b)) /\
    common = Z.of_nat (size ((list_to_set_disj (ngrams n a) : gmultiset _) ∩ list_to_set_disj (ngrams n b))) /\
    CalStringSim (Some b) (Some a) n = CalStringSim (Some a) (Some b) n /\
    0 <= 2 * common <= zlen (ngrams n a) + zlen (ngrams n b) /\ 0 < zlen (ngrams n a) + zlen (ngrams n b).
Proof.
  intros Hn Ha Hb.
  assert (forall x y : list byte, (n <= length x)%nat -> (n <= length y)%nat ->
    CalStringSim (Some x) (Some y) n = (2 * Z.of_nat (size ((list_to_set_disj (ngrams n x) : gmultiset _) ∩ list_to_set_disj (ngrams n y))),
      zlen (ngrams n x) + zlen (ngrams n y))) as Heq.
  { intros x y Hx Hy. unfold CalStringSim. destruct x as [|x0 x]; [cbn in Hx; lia|]. destruct y as [|y0 y]; [cbn in Hy; lia|].
    cbv zeta. set (x' := x0 :: x) in *. set (y' := y0 :: y) in *.
        rewrite (proj2 (Nat.ltb_ge _ _) Hx), (proj2 (Nat.ltb_ge _ _) Hy). cbn [andb].
    rewrite (common_loop_ok _ _ (list_to_set_disj (ngrams n y')) 0 (count_ngrams_ok _)).
    f_equal. unfold zlen, ngrams. rewrite !length_fmap, !length_seq. lia. }
  exists (Z.of_nat (size ((list_to_set_disj (ngrams n a) : gmultiset _) ∩ list_to_set_disj (ngrams n b)))).
  set (X := list_to_set_disj (ngrams n a) : gmultiset (list byte)) in *.
  set (Y := list_to_set_disj (ngrams n b) : gmultiset (list byte)) in *.
  assert (size (X ∩ Y) <= length (ngrams n a))%nat as H1 by (rewrite <- size_of_list; apply inter_size).
  assert (size (X ∩ Y) <= length (ngrams n b))%nat as H2
    by (rewrite <- size_of_list, (proj2 (inter_size X Y)); apply inter_size).
  assert (0 < length (ngrams n a))%nat as H3 by (unfold ngrams; rewrite length_fmap, length_seq; lia).
  rewrite !Heq by done. fold X Y. split_and!; try done; unfold zlen; try lia.
  rewrite (proj2 (inter_size X Y)). f_equal. lia.
Qed.

Lemma cutting_exact_witness :
  exists ts, SimpleTokenize 8 (str "a,,b,c,") (str ",") = Some ts /\ join (str ",") ts = str "a,,b,c," /\
    split 8 (str "a,,b,c,") (str ",") [] = Some [str "a"; []; str "b"; str "c"] /\
    ReplaceAll 8 (str "a,,b,c,") (str ",") (str ";;") = Some (join (str ";;") ts).
Proof.
  destruct (cutting_exact (str "a,,b,c,") (str ",")) as (ts & E & _ & Hj & Hs & Hr); [discriminate|].
  exists ts. split; [exact E|]. split; [exact Hj|]. split; [|apply Hr].
  vm_compute in E. injection E as <-. exact Hs.
Defined.

Lemma html_tags_removed_witness :
  exists r, RemoveHtmlTags 21 (str "a<b>bold</b> 1>0 <br") = Some r /\ r `sublist_of` str "a<b>bold</b> 1>0 <br".
Proof.
  destruct (html_tags_removed (str "a<b>bold</b> 1>0 <br")) as (r & E & Hr & _); [reflexivity|].
  exists r. exact (conj E Hr).
Defined.

Lemma similarity_exact_witness : exists common,
  CalStringSim (Some (str "night")) (Some (str "nacht")) 2 = (2 * common, 8) /\ 0 <= 2 * common <= 8.
Proof.
  destruct (similarity_exact (str "night") (str "nacht") 2) as (c & E & _ & _ & H & _); [lia|cbn; lia|cbn; lia|].
  exists c. exact (conj E H).
Defined.
