(* ===== verification/Config.v ===== *)
(** * Configuration files: src/common/Config.h, Config.cpp

    Lines [key = value] loaded into one of two maps, the other one staying in
    use until the new one is accepted. The file's contents and modification
    time are arguments ([None]: it cannot be opened), as is the virtual
    [confCheck]. *)

From stdpp Require Import gmap.
From S2P Require Import Prelude Format CppString Strops StropsSpec.

Record Config : Type := mkConfig {
  mConfFn : list byte;
  mIdx : Z;
  mRecheckThread : bool;
  mConfRecheckKey : list byte;
  mKeepCheck : bool;
  mModifiedTime : Z;
  mConfMap0 : gmap (list byte) (list byte);
  mConfMap1 : gmap (list byte) (list byte);
}.

(** [mModifiedTime] is not initialised: it holds whatever the memory held. *)
Definition Config_ctor (garbage : Z) : Config := mkConfig [] (-1) false [] false garbage ∅ ∅.

(** [mConfMap[i]] *)
Definition conf_map (i : Z) (c : Config) : outcome (gmap (list byte) (list byte)) :=
  if i =? 0 then Ok (mConfMap0 c) else if i =? 1 then Ok (mConfMap1 c) else Fail OutOfBounds.

Definition set_conf_map (i : Z) (m : gmap (list byte) (list byte)) (c : Config) : Config :=
  if i =? 0
  then mkConfig (mConfFn c) (mIdx c) (mRecheckThread c) (mConfRecheckKey c) (mKeepCheck c) (mModifiedTime c) m (mConfMap1 c)
  else mkConfig (mConfFn c) (mIdx c) (mRecheckThread c) (mConfRecheckKey c) (mKeepCheck c) (mModifiedTime c) (mConfMap0 c) m.

Definition set_fn (f : list byte) (c : Config) : Config :=
  mkConfig f (mIdx c) (mRecheckThread c) (mConfRecheckKey c) (mKeepCheck c) (mModifiedTime c) (mConfMap0 c) (mConfMap1 c).

(** ** Parsing *)

Definition blanks : list byte := [Byte.x20; Byte.x09; Byte.x0a; Byte.x0d].

(** [s.erase(0, s.find_first_not_of(blanks))]; [npos] erases all. *)
Definition erase_front (s : list byte) : list byte :=
  match find_first_not_of blanks s 0 with Some p => drop p s | None => [] end.

(** [s.erase(s.find_last_not_of(blanks) + 1)]; [npos + 1] is 0. *)
Definition erase_back (s : list byte) : list byte :=
  match find_last_not_of blanks s with Some p => take (p + 1) s | None => [] end.

Definition conf_trim (s : list byte) : list byte := erase_back (erase_front s).

Definition equals_sign : byte := Byte.x3d.
Definition hash_sign : byte := Byte.x23.
Definition newline : byte := Byte.x0a.

(** The body of the loop for one line: the entry it adds, if any. *)
Definition parse_line (str_in : list byte) : option (list byte * list byte) :=
  match str_in with
  | [] => None
  | _ =>
      let s := conf_trim str_in in
      match s with
      | [] => None
      | c :: _ =>
          if byte_eqb c hash_sign then None
          else
            match str_find [equals_sign] s 0 with
            | None => None
            | Some pos =>
                if (pos =? 0)%nat || (pos =? length s - 1)%nat then None
                else Some (conf_trim (take pos s), conf_trim (drop (pos + 1) s))
            end
      end
  end.

(** [getline] until the end of the file. *)
Fixpoint getlines (s : list byte) : list (list byte) :=
  match s with
  | [] => []
  | c :: s' =>
      if byte_eqb c newline then [] :: getlines s'
      else match getlines s' with
           | l :: ls => (c :: l) :: ls
           | [] => [[c]]
           end
  end.

Definition add_line (m : gmap (list byte) (list byte)) (line : list byte) : gmap (list byte) (list byte) :=
  match parse_line line with
  | Some (key, value) => <[key := value]> m
  | None => m
  end.

Definition load (file : list byte) : gmap (list byte) (list byte) := foldl add_line ∅ (getlines file).

Section Class.

Context (confCheck : Config -> Z -> bool).

Definition init (confFile : list byte) (file : option (list byte)) (mtime : Z) (c : Config) : bool * Config :=
  let newIdx := if mIdx c =? 0 then 1 else 0 in
  let c1 := set_fn confFile c in
  match file with
  | None => (false, c1)
  | Some contents =>
      let c2 := set_conf_map newIdx (load contents) c1 in
      if confCheck c2 newIdx then
        (true, mkConfig (mConfFn c2) newIdx (mRecheckThread c2) (mConfRecheckKey c2) (mKeepCheck c2) mtime
                 (mConfMap0 c2) (mConfMap1 c2))
      else (false, c2)
  end.

(** The base class accepts everything. *)
Definition base_confCheck (c : Config) (newIdx : Z) : bool := true.

(** ** Lookups *)

Definition getConfStr (key : list byte) (c : Config) : outcome (option (list byte)) :=
  if mIdx c =? -1 then Ok None
  else m ← conf_map (mIdx c) c; Ok (m !! key).

(** [atol]: blanks, a sign, digits; saturating at the limits of [long]. *)
Fixpoint skip_space (s : list byte) : list byte :=
  match s with
  | c :: s' => if isspace c then skip_space s' else s
  | [] => []
  end.

Fixpoint leading_digits (s : list byte) : list byte :=
  match s with
  | c :: s' => if is_digit c then c :: leading_digits s' else []
  | [] => []
  end.

Definition clamp64 (z : Z) : Z := Z.max (- 2 ^ 63) (Z.min z (2 ^ 63 - 1)).

Definition atol (s : list byte) : Z :=
  match skip_space s with
  | c :: s' =>
      if byte_eqb c Byte.x2d then clamp64 (- parse_u (leading_digits s'))
      else if byte_eqb c Byte.x2b then clamp64 (parse_u (leading_digits s'))
      else clamp64 (parse_u (leading_digits (c :: s')))
  | [] => 0
  end.

Definition getConfInt (key : list byte) (c : Config) : outcome Z :=
  if mIdx c =? -1 then Ok (-1)
  else
    m ← conf_map (mIdx c) c;
    Ok (match m !! key with Some v => atol v | None => -1 end).

Definition checkIsKeyExist (newIdx : Z) (key : list byte) (c : Config) : outcome bool :=
  m ← conf_map newIdx c; Ok (match m !! key with Some _ => true | None => false end).

Definition checkIsInRange (newIdx : Z) (key : list byte) (max min : Z) (c : Config) : outcome bool :=
  m ← conf_map newIdx c;
  Ok (match m !! key with
      | None => false
      | Some v => let value := atol v in (value <=? max) && (min <=? value)
      end).

Definition setConfItem (key value : list byte) (c : Config) : outcome Config :=
  m ← conf_map (mIdx c) c; Ok (set_conf_map (mIdx c) (<[key := value]> m) c).

Definition setConfItem_int (key : list byte) (value : Z) (c : Config) : outcome Config :=
  setConfItem key (fmt_d value) c.

(** ** Rechecking *)

(** The thread's creation succeeds or not. A null key is [None]. *)
Definition startRecheck (confRecheckTimeKey : option (list byte)) (created : bool) (c : Config) : bool * Config :=
  match confRecheckTimeKey with
  | None | Some [] => (false, c)
  | Some key =>
      if mRecheckThread c then (false, c)
      else (created, mkConfig (mConfFn c) (mIdx c) created key true (mModifiedTime c) (mConfMap0 c) (mConfMap1 c))
  end.

Definition conf_stop (c : Config) : Config :=
  mkConfig (mConfFn c) (mIdx c) (mRecheckThread c) (mConfRecheckKey c) false (mModifiedTime c) (mConfMap0 c) (mConfMap1 c).

Definition conf_join (c : Config) : Config :=
  mkConfig (mConfFn c) (mIdx c) false (mConfRecheckKey c) (mKeepCheck c) (mModifiedTime c) (mConfMap0 c) (mConfMap1 c).

(** One pass of the inner loop: return, sleep a second, or go on to the check. *)
Inductive recheck_action : Set := RReturn | RSleep | RCheck.

Definition recheck_wait (sleepSeconds : Z) (c : Config) : outcome recheck_action :=
  if negb (mKeepCheck c) then Ok RReturn
  else
    t ← getConfInt (mConfRecheckKey c) c;
    let recheckTime := if s32 t <=? 0 then 60 else s32 t in
    Ok (if recheckTime <=? sleepSeconds then RCheck else RSleep).

(** The check: a newer file is loaded; [init] asks for the modification time
    again. *)
Definition recheck (st_mtime : Z) (file : option (list byte)) (mtime : Z) (c : Config) : Config :=
  if mModifiedTime c <? st_mtime then snd (init (mConfFn c) file mtime c) else c.

End Class.

(** ** Writing a configuration *)

Inductive conf_entry : Type :=
| EBlank (ws : list byte)
| EComment (ws text : list byte)
| EItem (w1 key w2 w3 value w4 : list byte).

Definition render_entry (e : conf_entry) : list byte :=
  match e with
  | EBlank ws => ws
  | EComment ws text => ws ++ hash_sign :: text
  | EItem w1 key w2 w3 value w4 => w1 ++ key ++ w2 ++ equals_sign :: w3 ++ value ++ w4
  end.

Definition render (es : list conf_entry) : list byte := es ≫= fun e => render_entry e ++ [newline].

Definition item_of (e : conf_entry) : option (list byte * list byte) :=
  match e with EItem _ key _ _ value _ => Some (key, value) | _ => None end.

(** Blanks other than the newline. *)
Definition blank_text (ws : list byte) : Prop := Forall (is_delim blanks) ws /\ ~ newline ∈ ws.

(** Not empty, no newline inside, no blank at either end. *)
Definition trimmed (t : list byte) : Prop :=
  t <> [] /\ ~ newline ∈ t /\ (forall c, head t = Some c -> no_delim blanks c) /\ (forall c, last t = Some c -> no_delim blanks c).

Definition entry_ok (e : conf_entry) : Prop :=
  match e with
  | EBlank ws => blank_text ws
  | EComment ws text => blank_text ws /\ ~ newline ∈ text
  | EItem w1 key w2 w3 value w4 =>
      blank_text w1 /\ blank_text w2 /\ blank_text w3 /\ blank_text w4 /\ trimmed key /\ trimmed value /\
      ~ equals_sign ∈ key /\ head key <> Some hash_sign
  end.

Lemma erase_front_skip a t : Forall (is_delim blanks) a -> (forall c, head t = Some c -> no_delim blanks c) ->
  erase_front (a ++ t) = t.
Proof.
  intros Ha Hh. unfold erase_front, find_first_not_of. rewrite drop_0, find_if_app.
  2: { eapply Forall_impl; [exact Ha|]. intros c Hc. unfold is_delim in Hc. by rewrite Hc. }
  destruct t as [|c t]; cbn; [done|]. rewrite (Hh c eq_refl). cbn. rewrite Nat.add_0_r. by rewrite drop_app_length.
Qed.

Lemma erase_back_skip t b : Forall (is_delim blanks) b -> (forall c, last t = Some c -> no_delim blanks c) ->
  erase_back (t ++ b) = t.
Proof.
  intros Hb Hl. unfold erase_back, find_last_not_of. rewrite find_last_if_rev, rev_app_distr, find_if_app.
  2: { apply Forall_rev. eapply Forall_impl; [exact Hb|]. intros c Hc. unfold is_delim in Hc. by rewrite Hc. }
  rewrite length_rev. destruct (rev t) as [|c r] eqn:Er; cbn.
  - apply (f_equal (@rev byte)) in Er. rewrite rev_involutive in Er. by rewrite Er.
  - assert (t = rev r ++ [c]) as -> by (rewrite <- (rev_involutive t), Er; done).
    rewrite (Hl c) by apply last_snoc. cbn. rewrite Nat.add_0_r.
    replace (length ((rev r ++ [c]) ++ b) - 1 - length b + 1)%nat with (length (rev r ++ [c]))
      by (rewrite !length_app; cbn; lia).
    apply take_app_length.
Qed.

Lemma conf_trim_skip a t b : Forall (is_delim blanks) a -> Forall (is_delim blanks) b -> trimmed t ->
  conf_trim (a ++ t ++ b) = t.
Proof.
  intros Ha Hb (Hne & _ & Hh & Hl). unfold conf_trim. rewrite erase_front_skip; [by apply erase_back_skip|done|].
  intros c. destruct t; [done|]. apply Hh.
Qed.

Lemma conf_trim_blank a : Forall (is_delim blanks) a -> conf_trim a = [].
Proof. intros Ha. unfold conf_trim. rewrite <- (app_nil_r a), erase_front_skip; done. Qed.

Lemma getlines_app l s : ~ newline ∈ l -> getlines (l ++ newline :: s) = l :: getlines s.
Proof.
  induction l as [|c l IH]; intros Hl; cbn [app getlines].
  - by rewrite (proj2 (byte_eqb_eq newline newline)).
  - apply not_elem_of_cons in Hl as [Hc Hl]. destruct (byte_eqb c newline) eqn:E; [by apply byte_eqb_eq in E as ->|].
    by rewrite IH.
Qed.

Lemma equals_not_blank : no_delim blanks equals_sign.
Proof. done. Qed.

Lemma hash_not_blank : no_delim blanks hash_sign.
Proof. done. Qed.

(** The text between the first and the last byte that is not blank. *)
Lemma item_trimmed key w2 w3 value : trimmed key -> trimmed value -> ~ newline ∈ w2 -> ~ newline ∈ w3 ->
  trimmed (key ++ w2 ++ equals_sign :: w3 ++ value).
Proof.
  intros (Hk & Hkn & Hkh & _) (Hv & Hvn & _ & Hvl) H2 H3. split_and!.
  - by destruct key.
  - assert (~ newline = equals_sign) by done. set_solver.
  - intros c. destruct key; [done|]. apply Hkh.
  - intros c. destruct (rev value) as [|x r] eqn:Er.
    { apply (f_equal (@rev byte)) in Er. rewrite rev_involutive in Er. done. }
    assert (value = rev r ++ [x]) as -> by (rewrite <- (rev_involutive value), Er; done).
    rewrite app_comm_cons, !app_assoc, last_snoc. intros [= <-]. apply Hvl. apply last_snoc.
Qed.

Lemma parse_item w1 key w2 w3 value w4 : entry_ok (EItem w1 key w2 w3 value w4) ->
  parse_line (render_entry (EItem w1 key w2 w3 value w4)) = Some (key, value) /\
  ~ newline ∈ render_entry (EItem w1 key w2 w3 value w4).
Proof.
  cbn [entry_ok render_entry].
  intros ([H1 N1] & [H2 N2] & [H3 N3] & [H4 N4] & Hk & Hv & Heq & Hhash).
  assert (~ newline = equals_sign) as Hne by done.
  pose proof (item_trimmed key w2 w3 value Hk Hv N2 N3) as Ht.
  assert (w1 ++ key ++ w2 ++ equals_sign :: w3 ++ value ++ w4 = w1 ++ (key ++ w2 ++ equals_sign :: w3 ++ value) ++ w4) as ->
    by (rewrite <- !app_assoc; cbn [app]; by rewrite <- app_assoc).
  split; [|destruct Ht as (_ & Ht & _); set_solver].
  unfold parse_line. rewrite conf_trim_skip by done.
  destruct (w1 ++ _ ++ w4) as [|x l] eqn:E; [destruct w1, key; try done; by destruct Hk|]. clear E x l.
  destruct key as [|k0 key]; [by destruct Hk|]. cbn [app]. cbn in Hhash.
  destruct (byte_eqb k0 hash_sign) eqn:Eh; [apply byte_eqb_eq in Eh; congruence|].
  assert (~ equals_sign ∈ (k0 :: key) ++ w2) as Hno.
  { rewrite elem_of_app. intros [?|Hw]; [done|]. rewrite Forall_forall in H2. specialize (H2 _ Hw). done. }
  assert (str_find [equals_sign] (k0 :: key ++ w2 ++ equals_sign :: w3 ++ value) 0 = Some (length ((k0 :: key) ++ w2))) as ->.
  { unfold str_find. cbn [Nat.leb]. rewrite drop_0, find_byte.
    change (k0 :: key ++ w2 ++ equals_sign :: w3 ++ value) with ((k0 :: key) ++ w2 ++ equals_sign :: w3 ++ value).
    rewrite app_assoc, find_if_app by (by apply not_in_forall). cbn. f_equal. lia. }
  change (k0 :: key ++ w2 ++ equals_sign :: w3 ++ value) with ((k0 :: key) ++ w2 ++ equals_sign :: w3 ++ value).
  rewrite (app_assoc (k0 :: key)). set (kw := (k0 :: key) ++ w2) in *.
  replace (length kw =? 0)%nat with false by done.
  destruct (Nat.eqb_spec (length kw) (length (kw ++ equals_sign :: w3 ++ value) - 1)) as [El|_].
  { exfalso. rewrite length_app in El. cbn [length] in El. rewrite length_app in El. destruct value; [by destruct Hv|cbn [length] in El; lia]. }
  cbn [orb]. rewrite take_app_length. replace (length kw + 1)%nat with (length (kw ++ [equals_sign])) by (by rewrite length_app).
  change (equals_sign :: w3 ++ value) with ([equals_sign] ++ w3 ++ value). rewrite (app_assoc kw), drop_app_length.
  unfold kw. rewrite <- (app_nil_l ((k0 :: key) ++ w2)), conf_trim_skip by done.
  rewrite <- (app_nil_r value) at 1. by rewrite conf_trim_skip.
Qed.

Lemma parse_entry e : entry_ok e -> parse_line (render_entry e) = item_of e /\ ~ newline ∈ render_entry e.
Proof.
  destruct e as [ws|ws text|w1 key w2 w3 value w4]; cbn [entry_ok render_entry item_of].
  - intros [Hb Hn]. split; [|done]. unfold parse_line. destruct ws; [done|]. by rewrite conf_trim_blank.
  - intros [[Hb Hn] Ht]. split; [|assert (~ newline = hash_sign) by done; set_solver].
    unfold parse_line. destruct (ws ++ hash_sign :: text) as [|x l] eqn:E; [done|]. rewrite <- E.
    destruct (TrimRight_spec (hash_sign :: text) blanks) as (b & Hs & Hbb & Hl).
    unfold conf_trim. rewrite erase_front_skip; [|done|by intros c [= <-]].
    assert (exists r, TrimRight (hash_sign :: text) blanks = hash_sign :: r) as [r Hr].
    { destruct (TrimRight _ _) as [|y r]; [|injection Hs as <- _; eauto]. cbn in Hs. subst b.
      inversion Hbb as [|?? Hh]. done. }
    change (erase_back (hash_sign :: text)) with (TrimRight (hash_sign :: text) blanks). by rewrite Hr.
  - apply parse_item.
Qed.

Lemma load_render es : Forall entry_ok es ->
  load (render es) = foldl (fun m e => match item_of e with Some (k, v) => <[k := v]> m | None => m end) ∅ es.
Proof.
  intros He. unfold load. generalize (∅ : gmap (list byte) (list byte)).
  induction He as [|e es He _ IH]; intros m; [done|].
  change (render (e :: es)) with ((render_entry e ++ [newline]) ++ render es). rewrite <- app_assoc. cbn [app].
  destruct (parse_entry e He) as [Hp Hn]. rewrite getlines_app by done. cbn [foldl]. unfold add_line at 2. rewrite Hp. apply IH.
Qed.

(** ** Integers *)

Lemma leading_digits_all s : Forall (fun b => is_digit b = true) s -> leading_digits s = s.
Proof. induction 1 as [|b s Hb _ IH]; cbn; [done|]. by rewrite Hb, IH. Qed.

Lemma digit_not_space b : is_digit b = true -> isspace b = false /\ byte_eqb b Byte.x2d = false /\ byte_eqb b Byte.x2b = false.
Proof. by destruct b. Qed.

Lemma atol_fmt_d v : - 2 ^ 63 <= v < 2 ^ 63 -> atol (fmt_d v) = v.
Proof.
  intros Hv. unfold fmt_d, atol. destruct (Z.ltb_spec v 0) as [Hn|Hn].
  - cbn [skip_space]. change (isspace Byte.x2d) with false. cbv iota.
    rewrite (proj2 (byte_eqb_eq _ _)) by done. rewrite leading_digits_all by (apply fmt_u_digits; lia).
    rewrite fmt_u_parse by lia. unfold clamp64. lia.
  - pose proof (fmt_u_digits v Hn) as Hd. pose proof (fmt_u_nonempty v) as Hne. pose proof (fmt_u_parse v Hn) as Hp.
    destruct (fmt_u v) as [|b s]; [cbn in Hne; lia|]. inversion Hd as [|? ? Hb Hs]; subst.
    destruct (digit_not_space b Hb) as (E1 & E2 & E3). cbn [skip_space]. rewrite E1, E2, E3.
    rewrite leading_digits_all by done. unfold clamp64. lia.
Qed.

(** ** What the rest of the program sees *)

(** The index names a map, or nothing has been loaded. *)
Definition idx_ok (c : Config) : Prop := mIdx c = -1 \/ mIdx c = 0 \/ mIdx c = 1.

Definition conf_view (c : Config) : option (gmap (list byte) (list byte)) :=
  if mIdx c =? -1 then None else Some (if mIdx c =? 0 then mConfMap0 c else mConfMap1 c).

(** The items of a configuration; a later line wins. *)
Definition items (es : list conf_entry) : gmap (list byte) (list byte) := list_to_map (rev (omap item_of es)).

Lemma items_foldl es :
  foldl (fun m e => match item_of e with Some (k, v) => <[k := v]> m | None => m end) ∅ es = items es.
Proof.
  unfold items. induction es as [|e es IH] using rev_ind; [done|]. rewrite foldl_app, omap_app, rev_app_distr. cbn.
  destruct (item_of e) as [[k v]|]; cbn; by rewrite IH.
Qed.

Lemma getConfStr_view key c : idx_ok c -> getConfStr key c = Ok (conf_view c ≫= lookup key).
Proof. unfold getConfStr, conf_view, conf_map. by intros [-> | [-> | ->]]. Qed.

Lemma getConfInt_view key c : idx_ok c ->
  getConfInt key c = Ok (match conf_view c ≫= lookup key with Some v => atol v | None => -1 end).
Proof. unfold getConfInt, conf_view, conf_map. by intros [-> | [-> | ->]]. Qed.

Lemma init_view confCheck fn file mtime c b c' : idx_ok c -> init confCheck fn file mtime c = (b, c') ->
  idx_ok c' /\ mConfFn c' = fn /\
  (if b then exists contents, file = Some contents /\ conf_view c' = Some (load contents) /\ mModifiedTime c' = mtime
   else conf_view c' = conf_view c /\ mModifiedTime c' = mModifiedTime c).
Proof.
  intros Hi Hin. unfold init in Hin. destruct file as [contents|]; [|by injection Hin as <- <-].
  destruct (confCheck _ _); injection Hin as <- <-; unfold idx_ok, conf_view, set_conf_map in *;
    destruct Hi as [Hi | [Hi | Hi]]; cbn; rewrite Hi; cbn; rewrite ?Hi; cbn; naive_solver.
Qed.

Lemma setConfItem_view key value c : idx_ok c -> mIdx c <> -1 ->
  exists c', setConfItem key value c = Ok c' /\ idx_ok c' /\
    conf_view c' = (<[key := value]> <$> conf_view c).
Proof.
  intros [Hi | [Hi | Hi]] Hne; [done| |]; unfold setConfItem, conf_map, conf_view, idx_ok; rewrite Hi; cbn; eexists;
    (split; [done|]); cbn; rewrite Hi; cbn; auto.
Qed.

(** C34: loading a configuration is all or nothing. Whatever state the object
    is in, if [init] of a written configuration returns true then the lookups
    give exactly the items of the file, a later line overriding an earlier
    one, blanks around keys and values, blank lines and comments having no
    effect, and if it returns false (the check of the derived class refused
    the file) every lookup gives what it gave before; the same when the file
    cannot be opened, and when the periodic check finds it no newer. The index
    always names one of the two maps or none. *)
Theorem config_reload confCheck fn es mtime c b c' :
  idx_ok c -> Forall entry_ok es -> init confCheck fn (Some (render es)) mtime c = (b, c') ->
  idx_ok c' /\ (forall key, getConfStr key c' = if b then Ok (items es !! key) else getConfStr key c) /\
  (b = false <-> confCheck (set_conf_map (if mIdx c =? 0 then 1 else 0) (items es) (set_fn fn c)) (if mIdx c =? 0 then 1 else 0) = false) /\
  (forall key, getConfStr key (snd (init confCheck fn None mtime c)) = getConfStr key c) /\
  (forall st_mtime file mt, st_mtime <= mModifiedTime c' -> recheck confCheck st_mtime file mt c' = c').
Proof.
  intros Hi He Hin. assert (load (render es) = items es) as Hl by (rewrite load_render by done; apply items_foldl).
  destruct (init_view _ _ _ _ _ _ _ Hi Hin) as (Hi' & Hfn & Hv). split_and!.
  - done.
  - intros key. rewrite !getConfStr_view by done. destruct b; [|by destruct Hv as [-> _]].
    destruct Hv as (contents & [= <-] & -> & _). by rewrite Hl.
  - unfold init in Hin. rewrite Hl in Hin. destruct (confCheck _ _); injection Hin as <- _; done.
  - intros key. by rewrite !getConfStr_view.
  - intros st file mt Hst. unfold recheck. by destruct (Z.ltb_spec (mModifiedTime c') st); [lia|].
Qed.

Definition sample_entries : list conf_entry :=
  [EComment [] (str " log"); EItem [] (str "level") [Byte.x20] [Byte.x20] (str "3") []; EBlank []].

Definition sample_config : Config := snd (init base_confCheck (str "a.conf") (Some (render sample_entries)) 7 (Config_ctor 5)).

Lemma config_reload_witness : Forall entry_ok sample_entries /\ getConfStr (str "level") sample_config = Ok (Some (str "3")).
Proof.
  assert (Forall entry_ok sample_entries) as He.
  { repeat constructor; cbn; try set_solver; try (intros ? [= <-]; done); try done. }
  split; [exact He|].
  destruct (config_reload base_confCheck (str "a.conf") sample_entries 7 (Config_ctor 5) true sample_config) as (_ & H & _);
    [by left|exact He|done|]. rewrite H. vm_compute. reflexivity.
Defined.

(** Once a configuration is loaded, an integer of 64 bits that is set is
    the integer that is read, the other keys being untouched; the range check
    accepts it exactly between its bounds. Before anything is loaded, setting
    an item is an access outside the array of maps. *)
Lemma config_int_roundtrip key v c : idx_ok c -> - 2 ^ 63 <= v < 2 ^ 63 ->
  if mIdx c =? -1 then setConfItem_int key v c = Fail OutOfBounds
  else exists c', setConfItem_int key v c = Ok c' /\ getConfInt key c' = Ok v /\
    (forall key', key' <> key -> getConfInt key' c' = getConfInt key' c) /\
    (forall max min, checkIsInRange (mIdx c') key max min c' = Ok ((min <=? v) && (v <=? max))).
Proof.
  intros Hi Hv. destruct (Z.eqb_spec (mIdx c) (-1)) as [E|E].
  - unfold setConfItem_int, setConfItem, conf_map. by rewrite E.
  - destruct (setConfItem_view key (fmt_d v) c Hi E) as (c' & Hset & Hi' & Hview).
    assert (exists m, conf_view c = Some m) as [m Hm] by (unfold conf_view; destruct (Z.eqb_spec (mIdx c) (-1)); [done|eauto]).
    rewrite Hm in Hview. cbn in Hview. exists c'. split; [done|]. split_and!.
    + rewrite getConfInt_view, Hview by done. cbn. by rewrite lookup_insert_eq, atol_fmt_d.
    + intros key' Hne. rewrite !getConfInt_view, Hview, Hm by done. cbn. by rewrite lookup_insert_ne.
    + intros max min. unfold checkIsInRange, conf_map, conf_view in *.
      destruct Hi' as [Hi' | [Hi' | Hi']]; rewrite Hi' in Hview |- *; cbn in Hview |- *; [done| |];
        injection Hview as ->; rewrite lookup_insert_eq, atol_fmt_d by done; by rewrite andb_comm.
Qed.

Lemma config_int_roundtrip_witness :
  let c := snd (init base_confCheck (str "a.conf") (Some []) 7 (Config_ctor 5)) in
  exists c', setConfItem_int (str "n") (-42) c = Ok c' /\ getConfInt (str "n") c' = Ok (-42).
Proof.
  destruct (config_int_roundtrip (str "n") (-42) (snd (init base_confCheck (str "a.conf") (Some []) 7 (Config_ctor 5))))
    as (c' & H1 & H2 & _); [by right; left|lia|]. exists c'. split; [exact H1|exact H2].
Defined.
