(* ===== verification/ReactorBuffer.v ===== *)
(** * The buffer of the reactor library: src/Reactors/net/buffer.h

    A vector of chars with a read and a write index; unlike the one of
    mynetlib it has no room in front, [Retrieve] takes any length, and
    [MakeSpace] takes its length as an [int]. *)

From S2P Require Import Prelude.

Record Buffer : Type := mkBuffer {
  buffer_ : list byte;
  read_index_ : Z;
  write_index_ : Z;
}.

Definition kInitialSize : Z := 1024.

Definition Buffer_ctor (initialSize : Z) : outcome Buffer :=
  if initialSize <=? max_size then Ok (mkBuffer (replicate (Z.to_nat initialSize) Byte.x00) 0 0) else Fail LengthError.

Definition ReadableBytes (b : Buffer) : Z := u64 (write_index_ b - read_index_ b).

Definition WriteableBytes (b : Buffer) : Z := u64 (zlen (buffer_ b) - write_index_ b).

Definition Retrieve (len : Z) (b : Buffer) : Buffer :=
  if len <? ReadableBytes b then mkBuffer (buffer_ b) (u64 (read_index_ b + len)) (write_index_ b)
  else mkBuffer (buffer_ b) 0 0.

(** The pointer, as an index into the vector. *)
Definition Peek (b : Buffer) : Z := read_index_ b.

(** [len] is an [int]; compared with and added to a [size_t] it is converted. *)
Definition MakeSpace (len : Z) (b : Buffer) : outcome Buffer :=
  if u64 (read_index_ b + WriteableBytes b) <? u64 len then
    vec ← vec_resize Byte.x00 (buffer_ b) (u64 (write_index_ b + len));
    Ok (mkBuffer vec (read_index_ b) (write_index_ b))
  else
    let reads := ReadableBytes b in
    vec ← copy_into (buffer_ b) 0 (slice (buffer_ b) (read_index_ b) (write_index_ b));
    Ok (mkBuffer vec 0 reads).

Definition EnsureWritableBytes (len : Z) (b : Buffer) : outcome Buffer :=
  if WriteableBytes b <? len then MakeSpace (s32 len) b else Ok b.

(** [append(data, len)], [len] the length of [data]. *)
Definition append (data : list byte) (b : Buffer) : outcome Buffer :=
  b1 ← EnsureWritableBytes (zlen data) b;
  vec ← copy_into (buffer_ b1) (write_index_ b1) data;
  Ok (mkBuffer vec (read_index_ b1) (u64 (write_index_ b1 + zlen data))).

(** What [readv] answers: an error number, or the bytes it delivers. *)
Inductive readv_result : Type :=
| ReadvError (errno : Z)
| ReadvBytes (data : list byte).

Definition sizeof_extrabuf : Z := 65536.

(** How many bytes the vectors handed to [readv] can take. *)
Definition readv_room (b : Buffer) : Z :=
  if WriteableBytes b <? sizeof_extrabuf then WriteableBytes b + sizeof_extrabuf else WriteableBytes b.

(** The count returned, the saved errno and the new buffer. *)
Definition ReadFromSocket (r : readv_result) (b : Buffer) : outcome (Z * option Z * Buffer) :=
  let writable := WriteableBytes b in
  match r with
  | ReadvError e => Ok (u64 (-1), Some e, b)
  | ReadvBytes data =>
      let n := zlen data in
      vec ← copy_into (buffer_ b) (write_index_ b) (take (Z.to_nat writable) data);
      if n <=? writable then Ok (n, None, mkBuffer vec (read_index_ b) (u64 (write_index_ b + n)))
      else
        b' ← append (drop (Z.to_nat writable) data) (mkBuffer vec (read_index_ b) (zlen vec));
        Ok (n, None, b')
  end.

(** ** The queue of bytes it is *)

Definition wf (b : Buffer) : Prop :=
  0 <= read_index_ b <= write_index_ b /\ write_index_ b <= zlen (buffer_ b) <= max_size.

Definition readable (b : Buffer) : list byte := slice (buffer_ b) (read_index_ b) (write_index_ b).

#[local] Ltac buf := unfold wf, max_size in *; cbn [buffer_ read_index_ write_index_] in *.

Lemma ReadableBytes_wf b : wf b -> ReadableBytes b = zlen (readable b).
Proof. intros H. unfold ReadableBytes, readable. rewrite zlen_slice by (buf; lia). apply u64_small. buf. lia. Qed.

Lemma WriteableBytes_wf b : wf b -> WriteableBytes b = zlen (buffer_ b) - write_index_ b.
Proof. intros H. unfold WriteableBytes. apply u64_small. buf. lia. Qed.

Lemma buffer_ctor_wf n : 0 <= n <= max_size -> exists b, Buffer_ctor n = Ok b /\ wf b /\ readable b = [] /\ zlen (buffer_ b) = n.
Proof.
  intros Hn. unfold Buffer_ctor. zcases; [|lia]. eexists. split; [done|].
  assert (zlen (replicate (Z.to_nat n) Byte.x00) = n) as Hl by (unfold zlen; rewrite length_replicate; lia).
  split_and!; [buf; lia|by apply slice_nil|done].
Qed.

Lemma Retrieve_ok len b : wf b -> 0 <= len ->
  wf (Retrieve len b) /\ readable (Retrieve len b) = drop (Z.to_nat len) (readable b) /\
  buffer_ (Retrieve len b) = buffer_ b.
Proof.
  intros Hwf Hlen. pose proof (ReadableBytes_wf b Hwf) as Hr. unfold Retrieve.
  assert (zlen (readable b) = write_index_ b - read_index_ b) as Hz by (unfold readable; apply zlen_slice; buf; lia).
  destruct (Z.ltb_spec len (ReadableBytes b)) as [H|H].
  - rewrite u64_small by (buf; lia). split_and!; [buf; lia| |done]. unfold readable. cbn. apply slice_drop; buf; lia.
  - split_and!; [buf; lia| |done]. unfold readable at 1. cbn. rewrite slice_nil. symmetry. apply drop_ge. unfold zlen in *. lia.
Qed.

Lemma slice_zero_data {A} (l l' data : list A) : copy_into l 0 data = Ok l' -> slice l' 0 (zlen data) = data.
Proof. intros H. apply slice_copy_into in H. exact H. Qed.

(** Lengths an [int] holds. *)
Lemma EnsureWritableBytes_ok len b : wf b -> 0 <= len < 2 ^ 31 -> write_index_ b + len <= max_size ->
  exists b', EnsureWritableBytes len b = Ok b' /\ wf b' /\ readable b' = readable b /\
    len <= zlen (buffer_ b') - write_index_ b' /\ zlen (buffer_ b') <= zlen (buffer_ b) + len.
Proof.
  intros Hwf Hlen Hmax. pose proof (WriteableBytes_wf b Hwf) as Hw. unfold EnsureWritableBytes, MakeSpace.
  rewrite s32_small by lia. destruct (Z.ltb_spec (WriteableBytes b) len); [|exists b; split_and!; done || lia].
  rewrite Hw, !u64_small by (buf; lia). destruct (Z.ltb_spec (read_index_ b + (zlen (buffer_ b) - write_index_ b)) len).
  - unfold vec_resize. destruct (Z.leb_spec (write_index_ b + len) max_size); [|lia]. cbn [mbind outcome_bind]. eexists.
    split; [done|]. rewrite take_ge by (unfold zlen in *; lia).
    assert (zlen (buffer_ b ++ replicate (Z.to_nat (write_index_ b + len - zlen (buffer_ b))) Byte.x00) = write_index_ b + len) as Hz
      by (rewrite zlen_app; unfold zlen in *; rewrite length_replicate; lia).
    split_and!; [buf; lia| |cbn; lia|cbn; buf; lia].
    unfold readable, slice. cbn. rewrite drop_app_le, take_app_le by (rewrite ?length_drop; buf; unfold zlen in *; lia). done.
  - rewrite ReadableBytes_wf by done. assert (zlen (readable b) = write_index_ b - read_index_ b) as Hz
      by (unfold readable; apply zlen_slice; buf; lia).
    change (slice (buffer_ b) (read_index_ b) (write_index_ b)) with (readable b).
    destruct (copy_into (buffer_ b) 0 (readable b)) as [vec|] eqn:E; [|rewrite copy_into_ok in E by (buf; lia); done].
    cbn [mbind outcome_bind]. eexists. split; [done|]. pose proof (zlen_copy_into _ _ _ _ E) as Hv.
    split_and!; [buf; lia|apply (slice_zero_data _ _ _ E)|cbn; lia|cbn; lia].
Qed.

Lemma buffer_append_ok data b : wf b -> zlen data < 2 ^ 31 -> write_index_ b + zlen data <= max_size ->
  exists b', append data b = Ok b' /\ wf b' /\ readable b' = readable b ++ data /\
    zlen (buffer_ b') <= zlen (buffer_ b) + zlen data.
Proof.
  intros Hwf Hd Hm. pose proof (zlen_nonneg data). unfold append.
  destruct (EnsureWritableBytes_ok (zlen data) b) as (b1 & -> & Hwf1 & Hr1 & Hl & Hg); [done|lia|done|]. cbn [mbind outcome_bind].
  destruct (copy_into (buffer_ b1) (write_index_ b1) data) as [vec|] eqn:E; [|rewrite copy_into_ok in E by (buf; lia); done].
  cbn [mbind outcome_bind]. pose proof (zlen_copy_into _ _ _ _ E) as Hv. rewrite u64_small by (buf; lia).
  eexists. split; [done|]. split_and!; [buf; lia| |cbn; lia]. unfold readable at 1. cbn.
  rewrite (slice_split _ _ (write_index_ b1)), (slice_copy_into _ _ _ _ E) by (buf; lia).
  rewrite (slice_copy_before _ _ _ _ _ _ E) by (buf; lia). unfold readable in *. by rewrite Hr1.
Qed.

Lemma ReadFromSocket_ok data b : wf b -> zlen data <= readv_room b -> zlen (buffer_ b) + sizeof_extrabuf <= max_size ->
  exists b', ReadFromSocket (ReadvBytes data) b = Ok (zlen data, None, b') /\ wf b' /\ readable b' = readable b ++ data /\
    zlen (buffer_ b') <= zlen (buffer_ b) + sizeof_extrabuf.
Proof.
  intros Hwf Hroom Hm. pose proof (WriteableBytes_wf b Hwf) as Hw. pose proof (zlen_nonneg data).
  unfold ReadFromSocket. cbv zeta. unfold readv_room, sizeof_extrabuf in *. set (first := take (Z.to_nat (WriteableBytes b)) data).
  assert (zlen first = Z.min (WriteableBytes b) (zlen data)) as Hf
    by (subst first; buf; unfold zlen in *; rewrite length_take; lia).
  destruct (copy_into (buffer_ b) (write_index_ b) first) as [vec|] eqn:E; [|rewrite copy_into_ok in E by (buf; lia); done].
  cbn [mbind outcome_bind]. pose proof (zlen_copy_into _ _ _ _ E) as Hv.
  pose proof (slice_copy_into _ _ _ _ E) as Hnew. pose proof (slice_copy_before _ _ _ _ (read_index_ b) (write_index_ b) E) as Hold.
  destruct (Z.leb_spec (zlen data) (WriteableBytes b)) as [Hfit|Hspill].
  - rewrite u64_small by (buf; lia). eexists. split; [done|]. split_and!; [buf; lia| |cbn; lia]. unfold readable at 1. cbn.
    rewrite (slice_split _ _ (write_index_ b)), Hold by (buf; lia). unfold readable. f_equal.
    rewrite Hf, Z.min_r in Hnew by lia. rewrite Hnew. subst first. apply take_ge. unfold zlen in *. lia.
  - assert (zlen (drop (Z.to_nat (WriteableBytes b)) data) = zlen data - WriteableBytes b) as Hz
      by (buf; unfold zlen in *; rewrite length_drop; lia).
    destruct (Z.ltb_spec (WriteableBytes b) 65536) as [Hc|Hc]; [|lia].
    destruct (buffer_append_ok (drop (Z.to_nat (WriteableBytes b)) data) (mkBuffer vec (read_index_ b) (zlen vec)))
      as (b' & -> & Hwf' & Hr' & Hl'); [buf; lia|lia|buf; lia|]. cbn [mbind outcome_bind].
    eexists. split; [done|]. cbn in Hl'. split_and!; [done| |lia]. rewrite Hr'. unfold readable at 1. cbn.
    rewrite (slice_split _ _ (write_index_ b)), Hold by (buf; lia). unfold readable. rewrite <- app_assoc. f_equal.
    replace (zlen vec) with (write_index_ b + zlen first) by (buf; lia). rewrite Hnew. apply take_drop.
Qed.

(** ** Sequences of operations *)

Inductive buffer_op : Type :=
| OpAppend (data : list byte)
| OpRetrieve (len : Z)
| OpRead (r : readv_result).

Definition buffer_exec (b : Buffer) (o : buffer_op) : outcome Buffer :=
  match o with
  | OpAppend data => append data b
  | OpRetrieve len => Ok (Retrieve len b)
  | OpRead r => '(_, _, b') ← ReadFromSocket r b; Ok b'
  end.

(** The same on a plain list. *)
Definition queue_exec (q : list byte) (o : buffer_op) : list byte :=
  match o with
  | OpAppend data => q ++ data
  | OpRetrieve len => drop (Z.to_nat len) q
  | OpRead (ReadvBytes data) => q ++ data
  | OpRead (ReadvError _) => q
  end.

(** The most an operation adds to the vector. *)
Definition op_growth (o : buffer_op) : Z :=
  match o with
  | OpAppend data => zlen data
  | OpRetrieve _ => 0
  | OpRead _ => sizeof_extrabuf
  end.

(** What callers and the kernel keep to: lengths an [int] holds, and no more
    bytes read than there was room for. *)
Definition op_ok (b : Buffer) (o : buffer_op) : Prop :=
  match o with
  | OpAppend data => zlen data < 2 ^ 31
  | OpRetrieve len => 0 <= len
  | OpRead (ReadvBytes data) => zlen data <= readv_room b
  | OpRead (ReadvError _) => True
  end.

Fixpoint ops_ok (b : Buffer) (os : list buffer_op) : Prop :=
  match os with
  | [] => True
  | o :: os' => op_ok b o /\ forall b', buffer_exec b o = Ok b' -> ops_ok b' os'
  end.

Lemma buffer_exec_ok b o : wf b -> op_ok b o -> zlen (buffer_ b) + op_growth o <= max_size ->
  exists b', buffer_exec b o = Ok b' /\ wf b' /\ readable b' = queue_exec (readable b) o /\
    zlen (buffer_ b') <= zlen (buffer_ b) + op_growth o.
Proof.
  intros Hwf Ho Hg. destruct o as [data|len|[e|data]]; cbn [buffer_exec op_ok queue_exec op_growth] in *.
  - apply buffer_append_ok; [done|done|buf; lia].
  - destruct (Retrieve_ok len b Hwf Ho) as (H1 & H2 & H3). eexists. split; [done|]. rewrite H3. split_and!; [done|done|lia].
  - exists b. unfold sizeof_extrabuf. split_and!; [done..|lia].
  - destruct (ReadFromSocket_ok data b) as (b' & -> & H); [done..|]. by exists b'.
Qed.

Lemma buffer_run_ok os : forall b, wf b -> ops_ok b os -> zlen (buffer_ b) + foldr Z.add 0 (op_growth <$> os) <= max_size ->
  exists b', foldM buffer_exec b os = Ok b' /\ wf b' /\ readable b' = foldl queue_exec (readable b) os.
Proof.
  induction os as [|o os IH]; intros b Hwf Hos Hg; cbn [foldM foldl]; [by exists b|]. destruct Hos as [Ho Hos].
  assert (0 <= foldr Z.add 0 (op_growth <$> os)) as Hpos.
  { clear. induction os as [|[data|len|r] os IH]; cbn; unfold sizeof_extrabuf; try pose proof (zlen_nonneg data); lia. }
  cbn [fmap list_fmap foldr] in Hg.
  destruct (buffer_exec_ok b o) as (b' & E & Hwf' & Hr & Hl); [done|done|lia|]. rewrite E. cbn [mbind outcome_bind].
  rewrite <- Hr. apply IH; [done|by apply Hos|lia].
Qed.

(** The buffer is a queue of bytes. Any sequence of appends, of reads from
    a socket that deliver no more than there is room for, and of retrievals of
    any length, starting from a new buffer, neither faults nor leaves the
    vector, and the readable bytes are exactly those of a plain list under the
    same operations, as long as each append is shorter than 2^31 bytes. *)
Lemma reactor_buffer_refines (n : Z) (os : list buffer_op) (b : Buffer) :
  0 <= n -> n + foldr Z.add 0 (op_growth <$> os) <= max_size -> Buffer_ctor n = Ok b -> ops_ok b os ->
  exists b', foldM buffer_exec b os = Ok b' /\ wf b' /\ readable b' = foldl queue_exec [] os /\
    ReadableBytes b' = zlen (foldl queue_exec [] os).
Proof.
  intros Hn Hg Hc Hos. assert (n <= max_size) as Hm by (unfold Buffer_ctor in Hc; destruct (Z.leb_spec n max_size); [lia|done]).
  destruct (buffer_ctor_wf n) as (b0 & E & Hwf & Hr & Hl); [lia|]. rewrite Hc in E. injection E as <-.
  destruct (buffer_run_ok os b) as (b' & E' & Hwf' & Hr'); [done|done|lia|]. rewrite Hr in Hr'.
  exists b'. split_and!; [done..|]. by rewrite ReadableBytes_wf, Hr'.
Qed.

Lemma reactor_buffer_refines_witness :
  exists b', foldM buffer_exec (mkBuffer [Byte.x00; Byte.x00] 0 0)
      [OpAppend [Byte.x41; Byte.x42]; OpRetrieve 1; OpRead (ReadvBytes [Byte.x43]); OpRetrieve 7] = Ok b' /\ readable b' = [].
Proof.
  destruct (reactor_buffer_refines 2 [OpAppend [Byte.x41; Byte.x42]; OpRetrieve 1; OpRead (ReadvBytes [Byte.x43]); OpRetrieve 7]
    (mkBuffer [Byte.x00; Byte.x00] 0 0)) as (b' & E & _ & Hr & _).
  - lia.
  - vm_compute. discriminate.
  - reflexivity.
  - cbn [ops_ok op_ok]. split; [vm_compute; reflexivity|]. intros b1 E1. vm_compute in E1. injection E1 as <-.
    split; [lia|]. intros b2 E2. vm_compute in E2. injection E2 as <-. split; [vm_compute; discriminate|].
    intros b3 E3. vm_compute in E3. injection E3 as <-. split; [lia|done].
  - exists b'. split; [exact E|exact Hr].
Defined.

(** A length that is no [int] makes [append] fault: 2^31 bytes or more,
    up to 2^32, are a negative [int], which [MakeSpace] turns into a size
    beyond what a vector can have when fewer bytes than that are stored. *)
Lemma reactor_append_negative (data : list byte) (b : Buffer) :
  wf b -> 2 ^ 31 <= zlen data < 2 ^ 32 -> zlen (buffer_ b) < 2 ^ 31 -> write_index_ b < 2 ^ 32 - zlen data ->
  append data b = Fail LengthError.
Proof.
  intros Hwf Hd Hs Hw. pose proof (WriteableBytes_wf b Hwf) as Hwr. unfold append, EnsureWritableBytes, MakeSpace.
  destruct (Z.ltb_spec (WriteableBytes b) (zlen data)); [|buf; lia].
  assert (s32 (zlen data) = zlen data - 2 ^ 32) as ->.
  { unfold s32, signed. replace (zlen data + 2 ^ (32 - 1)) with (zlen data + 2 ^ 31 - 2 ^ 32 + 1 * 2 ^ 32) by lia.
    rewrite Z_mod_plus_full, Z.mod_small; lia. }
  assert (forall z, - 2 ^ 64 <= z < 0 -> u64 z = z + 2 ^ 64) as Hneg.
  { intros z Hz. unfold u64. rewrite <- (Z_mod_plus_full z 1), Z.mod_small; lia. }
  rewrite (Hneg (zlen data - 2 ^ 32)) by lia. rewrite (Hneg (write_index_ b + (zlen data - 2 ^ 32))) by (buf; lia).
  rewrite u64_small by (buf; lia).
  destruct (Z.ltb_spec (read_index_ b + WriteableBytes b) (zlen data - 2 ^ 32 + 2 ^ 64)); [|buf; lia].
  unfold vec_resize. destruct (Z.leb_spec (write_index_ b + (zlen data - 2 ^ 32) + 2 ^ 64) max_size); [buf; lia|done].
Qed.
