(* ===== verification/ReactorTimer.v ===== *)
(** * Timers of the reactor library: src/Reactors/net/timer.h, timer.cc

    A map from expiration times to lists of timers, a map from identifiers to
    timers, and a timerfd. Timers are objects of a heap, so that a dangling
    pointer is a fault. User callbacks are sequences of calls of the queue;
    every call of one is recorded, with the timer it was called for. *)

From stdpp Require Import gmap.
From S2P Require Import Prelude Timestamp.

Record Timer : Type := mkTimer {
  repeat_ : bool;
  interval_ : Z;
  ts_ : Timestamp;
  callback_ : option Z;
  id : Z;
}.

Record TimerQueue : Type := mkTimerQueue {
  heap : gmap Z Timer;
  timer_id_ : Z;
  queue_ : list (Timestamp * list Z);
  idtotimers_ : gmap Z Z;
  clock : Timestamp;
  armed : option Z;
}.

Definition TimerQueue_ctor (t : Timestamp) : TimerQueue := mkTimerQueue ∅ 0 [] ∅ t None.

Definition set_heap h q := mkTimerQueue h (timer_id_ q) (queue_ q) (idtotimers_ q) (clock q) (armed q).
Definition set_queue m q := mkTimerQueue (heap q) (timer_id_ q) m (idtotimers_ q) (clock q) (armed q).
Definition set_ids i q := mkTimerQueue (heap q) (timer_id_ q) (queue_ q) i (clock q) (armed q).
Definition set_clock t q := mkTimerQueue (heap q) (timer_id_ q) (queue_ q) (idtotimers_ q) t (armed q).
Definition set_armed a q := mkTimerQueue (heap q) (timer_id_ q) (queue_ q) (idtotimers_ q) (clock q) a.

Definition deref (p : Z) (q : TimerQueue) : outcome Timer :=
  match heap q !! p with Some t => Ok t | None => Fail UseAfterFree end.

(** ** Timer *)

Definition Restart (now : Timestamp) (t : Timer) : Timer :=
  mkTimer (repeat_ t) (interval_ t) (s64 (now + s32 (s32 (interval_ t * 1000) * 1000))) (callback_ t) (id t).

(** ** The ordered map *)

(** [m[k]], inserting an empty list when there is none, changed by [f]. *)
Fixpoint map_at (k : Timestamp) (f : list Z -> list Z) (m : list (Timestamp * list Z)) : list (Timestamp * list Z) :=
  match m with
  | [] => [(k, f [])]
  | (k', l) :: m' =>
      if k <? k' then (k, f []) :: m
      else if k =? k' then (k', f l) :: m'
      else (k', l) :: map_at k f m'
  end.

Definition push_back (p : Z) (l : list Z) : list Z := l ++ [p].

Definition list_remove (p : Z) (l : list Z) : list Z := filter (fun x => x <> p) l.

(** ** timerfd *)

(** What [timerfd_settime] is given, in microseconds from now; zero disarms.
    The timespec is the quotient and the remainder by a second. *)
Definition GetIntervalFromNow (ts now : Timestamp) : Z := u64 (ts - now).

Definition ResetTimerfd (ts : Timestamp) (q : TimerQueue) : TimerQueue :=
  let d := GetIntervalFromNow ts (clock q) in
  set_armed (if d =? 0 then None else Some (clock q + d)) q.

(** ** The queue *)

(** What a callback, or other code of the thread, does with the queue. *)
Inductive action : Type :=
| AAdd (cb : option Z) (ts : Timestamp) (interval : Z)
| ARemove (timerid : Z)
| ATick (t : Timestamp).

Section Queue.

(** [operator new]; the callbacks of the user. *)
Context (alloc : gmap Z Timer -> option Z).
Context (user : Z -> list action).

(** [new Timer]. The static counter has 64 bits; a process that has used them
    all up stops here, like one that has no memory left. *)
Definition new_timer (cb : option Z) (ts : Timestamp) (interval : Z) (q : TimerQueue) : outcome (Z * TimerQueue) :=
  match alloc (heap q) with
  | None => Fail BadAlloc
  | Some p =>
      let i := timer_id_ q + 1 in
      if i <? 2 ^ 64 then
        Ok (p, mkTimerQueue (<[p := mkTimer (0 <? interval) interval ts cb i]> (heap q)) i (queue_ q) (idtotimers_ q) (clock q) (armed q))
      else Fail BadAlloc
  end.

Definition AddTimer (cb : option Z) (ts : Timestamp) (interval : Z) (q : TimerQueue) : outcome (Z * TimerQueue) :=
  '(p, q1) ← new_timer cb ts interval q;
  let change := match queue_ q1 with [] => true | (first, _) :: _ => ts <? first end in
  timer ← deref p q1;
  let q2 := set_ids (<[id timer := p]> (idtotimers_ q1)) (set_queue (map_at ts (push_back p) (queue_ q1)) q1) in
  Ok (id timer, if change then ResetTimerfd ts q2 else q2).

Definition delete_timer (p : Z) (q : TimerQueue) : outcome TimerQueue :=
  _ ← deref p q; Ok (set_heap (delete p (heap q)) q).

Definition RemoveTimer (timerid : Z) (q : TimerQueue) : outcome TimerQueue :=
  match idtotimers_ q !! timerid with
  | None => Ok q
  | Some p =>
      let q1 := set_ids (delete timerid (idtotimers_ q)) q in
      timer ← deref p q1;
      delete_timer p (set_queue (map_at (ts_ timer) (list_remove p) (queue_ q1)) q1)
  end.

Definition run_action (q : TimerQueue) (a : action) : outcome TimerQueue :=
  match a with
  | AAdd cb ts interval => '(_, q') ← AddTimer cb ts interval q; Ok q'
  | ARemove timerid => RemoveTimer timerid q
  | ATick t => Ok (set_clock t q)
  end.

(** The queue, and the calls of callbacks so far: identifier and callback. *)
Definition logged : Type := TimerQueue * list (Z * Z).

Definition DoFunctor (t : Timer) (s : logged) : outcome logged :=
  match callback_ t with
  | Some f => q ← foldM run_action s.1 (user f); Ok (q, s.2 ++ [(id t, f)])
  | None => Ok s
  end.

(** The loop that moves the due lists out. *)
Fixpoint take_expired (now : Timestamp) (m : list (Timestamp * list Z)) : list Z * list (Timestamp * list Z) :=
  match m with
  | (k, l) :: m' =>
      if k <=? now then let '(expired, rest) := take_expired now m' in (l ++ expired, rest) else ([], m)
  | [] => ([], [])
  end.

Definition fire (s : logged) (p : Z) : outcome logged :=
  t ← deref p s.1;
  DoFunctor t (set_ids (delete (id t) (idtotimers_ s.1)) s.1, s.2).

Definition reset_one (q : TimerQueue) (p : Z) : outcome TimerQueue :=
  t ← deref p q;
  if repeat_ t then
    let t' := Restart (clock q) t in
    let ts := ts_ t' in
    let expired_ts := match queue_ q with (first, _) :: _ => if first <? ts then first else ts | [] => ts end in
    let q1 := set_heap (<[p := t']> (heap q)) q in
    let q2 := set_ids (<[id t' := p]> (idtotimers_ q1)) (set_queue (map_at ts (push_back p) (queue_ q1)) q1) in
    Ok (ResetTimerfd expired_ts q2)
  else delete_timer p q.

Definition ResetTimers (reset_timers : list Z) (q : TimerQueue) : outcome TimerQueue := foldM reset_one q reset_timers.

(** [fired]: the timerfd had expired, and reading it rearms nothing. Also
    returns the callbacks that were called. *)
Definition HandleRead (fired : bool) (q : TimerQueue) : outcome (list (Z * Z) * TimerQueue) :=
  let q0 := if fired then set_armed None q else q in
  let now := clock q0 in
  let '(expired, rest) := take_expired now (queue_ q0) in
  '(q1, called) ← foldM fire (set_queue rest q0, []) expired;
  q2 ← ResetTimers expired q1;
  Ok (called, q2).

(** ** Actor's interface to it *)

Definition RunAt (time : Timestamp) (cb : option Z) (q : TimerQueue) : outcome (Z * TimerQueue) := AddTimer cb time 0 q.

Definition delay_us (delay : Z) : Z := s32 (s32 (delay * 1000) * 1000).

Definition RunEvery (delay : Z) (cb : option Z) (q : TimerQueue) : outcome (Z * TimerQueue) :=
  AddTimer cb (s64 (clock q + delay_us delay)) delay q.

Definition RunAfter (interval : Z) (cb : option Z) (q : TimerQueue) : outcome (Z * TimerQueue) :=
  AddTimer cb (s64 (clock q + delay_us interval)) 0 q.

Inductive timer_label : Type :=
| LAction (a : action)
| LHandleRead (fired : bool).

Definition timer_exec (s : logged) (l : timer_label) : outcome logged :=
  match l with
  | LAction a => q ← run_action s.1 a; Ok (q, s.2)
  | LHandleRead fired => '(called, q) ← HandleRead fired s.1; Ok (q, s.2 ++ called)
  end.

End Queue.
