(* ===== verification/ReactorTimerSpec.v ===== *)
(** * Correctness of the reactor library's timers

    The two maps and the heap always agree and no timer is used after it was
    deleted, provided no callback removes a timer that expired together with
    its own and has not run yet; what goes wrong otherwise; and the timers
    that are left without an armed timerfd. *)

From stdpp Require Import gmap sorting.
From S2P Require Import Prelude Timestamp ReactorTimer.

(** ** Results that fail only for want of memory *)

Definition mem_safe {A} (m : outcome A) (P : A -> Prop) : Prop :=
  match m with Ok x => P x | Fail f => f = BadAlloc end.

Lemma mem_safe_bind {A B} (m : outcome A) (k : A -> outcome B) (P : A -> Prop) (Q : B -> Prop) :
  mem_safe m P -> (forall x, P x -> mem_safe (k x) Q) -> mem_safe (m ≫= k) Q.
Proof. destruct m; cbn; [|done]. intros Hx Hk. by apply Hk. Qed.

Lemma mem_safe_impl {A} (m : outcome A) (P Q : A -> Prop) : mem_safe m P -> (forall x, P x -> Q x) -> mem_safe m Q.
Proof. destruct m; cbn; auto. Qed.

Lemma mem_safe_foldM {S A} (step : S -> A -> outcome S) (I : list A -> S -> Prop) :
  (forall s a l, I (a :: l) s -> mem_safe (step s a) (I l)) ->
  forall l s, I l s -> mem_safe (foldM step s l) (I []).
Proof.
  intros Hstep. induction l as [|a l IH]; intros s Hs; cbn [foldM]; [done|].
  eapply mem_safe_bind; [by apply Hstep|]. cbn. intros s' Hs'. by apply IH.
Qed.

(** ** The ordered map *)

Definition entries (m : list (Timestamp * list Z)) : list (Timestamp * Z) := m ≫= fun kl => pair kl.1 <$> kl.2.

Definition key_lt (a b : Timestamp * list Z) : Prop := a.1 < b.1.

Lemma entries_cons k l m : entries ((k, l) :: m) = (pair k <$> l) ++ entries m.
Proof. done. Qed.

Lemma entries_key k p m : (k, p) ∈ entries m -> exists l, (k, l) ∈ m /\ p ∈ l.
Proof.
  unfold entries. intros ([k' l] & Hin & Hm)%list_elem_of_bind. apply list_elem_of_fmap in Hin as (p' & [= -> ->] & Hp). eauto.
Qed.

Lemma entries_push k p m : entries (map_at k (push_back p) m) ≡ₚ (k, p) :: entries m.
Proof.
  induction m as [|[k' l] m IH]; cbn [map_at]; [done|]. destruct (Z.ltb_spec k k'); [done|].
  destruct (Z.eqb_spec k k') as [->|]; rewrite !entries_cons.
  - unfold push_back. rewrite fmap_app. cbn. solve_Permutation.
  - rewrite IH. solve_Permutation.
Qed.

Lemma entries_above k p m : Forall (fun kl => k < kl.1) m -> (k, p) ∉ entries m.
Proof. intros Hm Hin. apply entries_key in Hin as (l & Hin & _). rewrite Forall_forall in Hm. specialize (Hm _ Hin). cbn in Hm. lia. Qed.

Lemma filter_not_in {A} `{!EqDecision A} (x : A) (l : list A) : x ∉ l -> filter (fun y => y <> x) l = l.
Proof.
  induction l as [|y l IH]; [done|]. rewrite not_elem_of_cons. intros [Hy Hl].
  rewrite filter_cons_True by congruence. by rewrite IH.
Qed.

Lemma filter_pair (k : Timestamp) (p : Z) (l : list Z) : filter (fun e => e <> (k, p)) (pair k <$> l) = pair k <$> list_remove p l.
Proof.
  unfold list_remove. induction l as [|y l IH]; [done|]. cbn [fmap list_fmap]. destruct (decide (y = p)) as [->|Hne].
  - by rewrite !filter_cons_False by auto.
  - rewrite !filter_cons_True by congruence. cbn. by rewrite <- IH.
Qed.

Lemma entries_remove k p m : StronglySorted key_lt m ->
  entries (map_at k (list_remove p) m) = filter (fun e => e <> (k, p)) (entries m).
Proof.
  induction 1 as [|[k' l] m Hs IH Hall]; cbn [map_at]; [done|]. rewrite entries_cons, filter_app.
  destruct (Z.ltb_spec k k'); [|destruct (Z.eqb_spec k k') as [->|]]; rewrite ?entries_cons.
  - rewrite !filter_not_in; [done|apply entries_above; eapply Forall_impl; [exact Hall|]; unfold key_lt; cbn; lia|].
    intros (? & [= ? ?] & _)%list_elem_of_fmap. lia.
  - rewrite filter_pair, (filter_not_in _ (entries m)); [done|]. apply entries_above. exact Hall.
  - rewrite IH, (filter_not_in _ (pair k' <$> l)); [done|]. intros (? & [= ? ?] & _)%list_elem_of_fmap. lia.
Qed.

Lemma map_at_keys f k m : forall kl, kl ∈ map_at k f m -> kl.1 = k \/ exists l, (kl.1, l) ∈ m.
Proof.
  induction m as [|[k' l] m IH]; intros kl; cbn [map_at].
  - rewrite list_elem_of_singleton. intros ->. by left.
  - destruct (Z.ltb_spec k k'); [|destruct (Z.eqb_spec k k')]; rewrite elem_of_cons; intros [->|Hin]; cbn; auto.
    + right. exists kl.2. by destruct kl.
    + right. exists kl.2. destruct kl. by right.
    + right. exists l. by left.
    + destruct (IH kl Hin) as [?|[l' ?]]; [by left|right]. exists l'. by right.
Qed.

Lemma sorted_map_at f k m : StronglySorted key_lt m -> StronglySorted key_lt (map_at k f m).
Proof.
  induction 1 as [|[k' l] m Hs IH Hall]; cbn [map_at]; [by repeat constructor|].
  destruct (Z.ltb_spec k k'); [|destruct (Z.eqb_spec k k') as [->|]].
  - constructor; [by constructor|]. constructor; [done|]. eapply Forall_impl; [exact Hall|]. unfold key_lt. cbn. lia.
  - constructor; done.
  - constructor; [done|]. rewrite Forall_forall in Hall |- *. intros kl [E|[l' Hl]]%map_at_keys; unfold key_lt in *; cbn.
    + lia.
    + apply (Hall _ Hl).
Qed.

Lemma take_expired_spec now m e r : take_expired now m = (e, r) ->
  exists due, m = due ++ r /\ e = (entries due).*2 /\ Forall (fun kl => kl.1 <= now) due /\
    (forall kl, head r = Some kl -> now < kl.1).
Proof.
  revert e. induction m as [|[k l] m IH]; intros e; cbn [take_expired].
  - intros [= <- <-]. by exists [].
  - destruct (Z.leb_spec k now) as [Hk|Hk].
    + destruct (take_expired now m) as [e' r']. intros [= <- <-]. destruct (IH e' eq_refl) as (due & -> & -> & Hd & Hr).
      exists ((k, l) :: due). split_and!; [done| |by constructor|done]. rewrite entries_cons, fmap_app. f_equal.
      rewrite <- list_fmap_compose. cbn. by rewrite list_fmap_id.
    + intros [= <- <-]. exists []. split_and!; [done..|]. by intros ? [= <-].
Qed.

Lemma entries_app m1 m2 : entries (m1 ++ m2) = entries m1 ++ entries m2.
Proof. apply bind_app. Qed.

Lemma filter_all {A} (P : A -> Prop) `{!forall x, Decision (P x)} (l : list A) : Forall P l -> filter P l = l.
Proof. induction 1 as [|x l Hx _ IH]; [done|]. rewrite filter_cons_True by done. by rewrite IH. Qed.

Lemma filter_none {A} (P : A -> Prop) `{!forall x, Decision (P x)} (l : list A) : Forall (fun x => ~ P x) l -> filter P l = [].
Proof. induction 1 as [|x l Hx _ IH]; [done|]. by rewrite filter_cons_False by done. Qed.

Lemma rest_later now r k p : StronglySorted key_lt r -> (forall kl, head r = Some kl -> now < kl.1) -> (k, p) ∈ entries r -> now < k.
Proof.
  intros Hs Hr (l & Hin & _)%entries_key. destruct r as [|kl r]; [by apply not_elem_of_nil in Hin|].
  specialize (Hr kl eq_refl). apply StronglySorted_inv in Hs as [_ Hall].
  apply elem_of_cons in Hin as [<-|Hin]; [done|]. rewrite Forall_forall in Hall. specialize (Hall _ Hin). unfold key_lt in Hall. cbn in Hall. lia.
Qed.

(** The expired timers are those whose time has come, in order of time. *)
Lemma take_expired_due now m e r : StronglySorted key_lt m -> take_expired now m = (e, r) ->
  e = (filter (fun x => x.1 <= now) (entries m)).*2.
Proof.
  intros Hs (due & -> & -> & Hd & Hr)%take_expired_spec. rewrite entries_app, filter_app. f_equal.
  rewrite (filter_all _ (entries due)).
  - rewrite (filter_none _ (entries r)); [by rewrite app_nil_r|]. rewrite Forall_forall. intros [k p] Hin.
    pose proof (rest_later now r _ _ (StronglySorted_app_1_r _ _ _ Hs) Hr Hin). cbn. lia.
  - rewrite Forall_forall in Hd. rewrite Forall_forall. intros [k p] Hin. apply entries_key in Hin as (l & Hin & _). apply (Hd _ Hin).
Qed.

Lemma take_expired_rest now m e r : StronglySorted key_lt m -> take_expired now m = (e, r) ->
  filter (fun x => now < x.1) (entries m) = entries r.
Proof.
  intros Hs (due & -> & -> & Hd & Hr)%take_expired_spec. rewrite entries_app, filter_app, (filter_none _ (entries due)), filter_all; [done| |].
  - rewrite Forall_forall. intros [k p] Hin. apply (rest_later now r k p); [by eapply StronglySorted_app_1_r|done|done].
  - rewrite Forall_forall in Hd. rewrite Forall_forall. intros [k p] Hin. apply entries_key in Hin as (l & Hin & _).
    specialize (Hd _ Hin). cbn in *. lia.
Qed.

(** ** The invariant *)

Definition queued (q : TimerQueue) : list Z := (entries (queue_ q)).*2.

(** [out]: timers taken out of the queue by a [HandleRead] in progress; [us]:
    those of them whose callback has not run. *)
Record timers_inv (out us : list Z) (q : TimerQueue) : Prop := {
  inv_sorted : StronglySorted key_lt (queue_ q);
  inv_nodup : NoDup (queued q ++ out);
  inv_heap : forall p, is_Some (heap q !! p) <-> p ∈ queued q \/ p ∈ out;
  inv_ts : forall k p, (k, p) ∈ entries (queue_ q) -> exists t, heap q !! p = Some t /\ ts_ t = k;
  inv_ids : forall i p, idtotimers_ q !! i = Some p <-> (p ∈ queued q \/ p ∈ us) /\ exists t, heap q !! p = Some t /\ id t = i;
  inv_bound : forall p t, heap q !! p = Some t -> id t <= timer_id_ q;
  inv_inj : forall p1 p2 t1 t2, heap q !! p1 = Some t1 -> heap q !! p2 = Some t2 -> id t1 = id t2 -> p1 = p2;
}.

Lemma timers_inv_ctor t : timers_inv [] [] (TimerQueue_ctor t).
Proof.
  assert (forall p : Z, p ∉ (@nil Z)) as Hnil by set_solver.
  split; unfold queued; cbn; intros *; rewrite ?lookup_empty; try done; try constructor; try by intros [? ?].
  all: set_solver.
Qed.

(** The timerfd and the clock are not part of it. *)
Lemma timers_inv_frame out us q q' : timers_inv out us q -> heap q' = heap q -> timer_id_ q' = timer_id_ q -> queue_ q' = queue_ q ->
  idtotimers_ q' = idtotimers_ q -> timers_inv out us q'.
Proof. intros [] Eh Ei Eq Em. split; unfold queued; rewrite ?Eh, ?Ei, ?Eq, ?Em; done. Qed.

Section Inv.

Context (alloc : gmap Z Timer -> option Z) (user : Z -> list action).
Hypothesis alloc_fresh : forall h p, alloc h = Some p -> h !! p = None.

(** What is in the heap stays there. *)
Definition heap_keeps (ps : list Z) (q q' : TimerQueue) : Prop := forall p, p ∈ ps -> heap q' !! p = heap q !! p.

Lemma heap_keeps_trans ps q1 q2 q3 : heap_keeps ps q1 q2 -> heap_keeps ps q2 q3 -> heap_keeps ps q1 q3.
Proof. intros H1 H2 p Hp. by rewrite H2, H1. Qed.

(** Putting a timer, with a fresh identifier or one no other timer has, into
    both maps. *)
Lemma inv_enqueue out us q p t : timers_inv out us q -> p ∉ queued q -> p ∉ out ->
  (forall p' t', heap q !! p' = Some t' -> p' <> p -> id t' <> id t) -> id t <= timer_id_ q ->
  us ⊆ out ->
  timers_inv out us (set_ids (<[id t := p]> (idtotimers_ q))
    (set_queue (map_at (ts_ t) (push_back p) (queue_ q)) (set_heap (<[p := t]> (heap q)) q))).
Proof.
  intros [] Hq Ho Hfresh Hb Hus. pose proof (entries_push (ts_ t) p (queue_ q)) as Hperm.
  assert (forall x, x ∈ (entries (map_at (ts_ t) (push_back p) (queue_ q))).*2 <-> x = p \/ x ∈ queued q) as Hin.
  { intros x. rewrite Hperm. cbn. unfold queued. apply elem_of_cons. }
  split; unfold queued in *; cbn.
  - by apply sorted_map_at.
  - rewrite Hperm. cbn. rewrite NoDup_cons, elem_of_app. naive_solver.
  - intros x. rewrite Hin, lookup_insert_is_Some. destruct (decide (p = x)) as [->|]; naive_solver.
  - intros k x Hkx. rewrite Hperm in Hkx. apply elem_of_cons in Hkx as [[= -> ->]|Hkx].
    + exists t. by rewrite lookup_insert_eq.
    + rewrite lookup_insert_ne; [by eauto|]. intros ->. apply Hq. apply list_elem_of_fmap. by exists (k, x).
  - intros i x. rewrite Hin. destruct (decide (i = id t)) as [->|Hi].
    + rewrite lookup_insert_eq. split.
      * intros [= ->]. split; [by left; left|]. exists t. by rewrite lookup_insert_eq.
      * intros [_ (t' & Ht' & Hid)]. destruct (decide (p = x)) as [->|Hne]; [done|].
        rewrite lookup_insert_ne in Ht' by done. exfalso. by eapply (Hfresh x t').
    + rewrite lookup_insert_ne by done. rewrite inv_ids0. split.
      * intros [Hx (t' & Ht' & Hid)]. destruct (decide (p = x)) as [->|Hne]; [set_solver|].
        split; [tauto|]. exists t'. by rewrite lookup_insert_ne.
      * intros [Hx (t' & Ht' & Hid)]. destruct (decide (p = x)) as [->|Hne].
        { rewrite lookup_insert_eq in Ht'. injection Ht' as <-. done. }
        rewrite lookup_insert_ne in Ht' by done. split; [naive_solver|by eauto].
  - intros x t' Ht'. apply lookup_insert_Some in Ht' as [[-> ->]|[_ Ht']]; eauto.
  - intros p1 p2 t1 t2 H1 H2 Hid.
    apply lookup_insert_Some in H1 as [[-> ->]|[Hn1 H1]]; apply lookup_insert_Some in H2 as [[<- ->]|[Hn2 H2]]; try done; eauto.
    + exfalso. eapply (Hfresh p2 t2); [done|congruence|done].
    + exfalso. eapply (Hfresh p1 t1); [done|congruence|done].
Qed.

Lemma add_safe out us cb ts iv q : timers_inv out us q -> us ⊆ out ->
  mem_safe (AddTimer alloc cb ts iv q) (fun r => timers_inv out us r.2 /\ heap_keeps out q r.2).
Proof.
  intros Hinv Hus. unfold AddTimer, new_timer. destruct (alloc (heap q)) as [p|] eqn:Ea; [|done].
  destruct (Z.ltb_spec (timer_id_ q + 1) (2 ^ 64)); [|done]. cbn [mbind outcome_bind]. unfold deref. cbn [heap].
  rewrite lookup_insert_eq. cbn [mbind outcome_bind mem_safe snd id].
  apply alloc_fresh in Ea. set (t := mkTimer (0 <? iv) iv ts cb (timer_id_ q + 1)).
  assert (forall P : Prop, (p ∈ queued q \/ p ∈ out -> P)) as Hno.
  { intros P Hp. apply (inv_heap _ _ _ Hinv) in Hp as [? ?]. congruence. }
  set (q1 := mkTimerQueue (heap q) (timer_id_ q + 1) (queue_ q) (idtotimers_ q) (clock q) (armed q)).
  assert (timers_inv out us q1) as H1.
  { destruct Hinv. split; try done. cbn. intros p' t' Hp'. specialize (inv_bound0 p' t' Hp'). lia. }
  assert (forall p' t', heap q1 !! p' = Some t' -> p' <> p -> id t' <> id t) as Hid.
  { intros p' t' Hp' _. apply (inv_bound _ _ _ Hinv) in Hp'. cbn. lia. }
  assert (p ∉ queued q1) as Hq by (intros ?; apply Hno; by left). assert (p ∉ out) as Ho by (intros ?; apply Hno; by right).
  pose proof (inv_enqueue out us q1 p t H1 Hq Ho Hid (Z.le_refl _) Hus) as He.
  match goal with |- context [if ?b then _ else _] => destruct b end; (split; [by eapply timers_inv_frame|]);
    intros x Hx; assert (x <> p) by (intros ->; done); cbn; by rewrite lookup_insert_ne.
Qed.

Lemma queued_remove out us q p t : timers_inv out us q -> heap q !! p = Some t ->
  forall k x, (k, x) ∈ entries (map_at (ts_ t) (list_remove p) (queue_ q)) <-> (k, x) ∈ entries (queue_ q) /\ x <> p.
Proof.
  intros [] Hp k x. rewrite entries_remove by done. rewrite list_elem_of_filter. split.
  - intros [Hne Hin]. split; [done|]. intros ->. destruct (inv_ts0 _ _ Hin) as (t' & Ht' & Hk). congruence.
  - intros [Hin Hne]. split; [congruence|done].
Qed.

Lemma sublist_filter_snd (P : Timestamp * Z -> Prop) `{!forall x, Decision (P x)} (l : list (Timestamp * Z)) :
  (filter P l).*2 `sublist_of` l.*2.
Proof.
  induction l as [|x l IH]; [done|]. destruct (decide (P x)).
  - rewrite filter_cons_True by done. cbn. by apply sublist_skip.
  - rewrite filter_cons_False by done. cbn. by apply sublist_cons.
Qed.

Lemma inv_dequeue out us q p t : timers_inv out us q -> p ∈ queued q -> heap q !! p = Some t -> us ⊆ out ->
  timers_inv out us (set_heap (delete p (heap q))
    (set_queue (map_at (ts_ t) (list_remove p) (queue_ q)) (set_ids (delete (id t) (idtotimers_ q)) q))).
Proof.
  intros Hinv Hq Hp Hus. pose proof (queued_remove _ _ _ _ _ Hinv Hp) as Hkx. destruct Hinv.
  assert (forall x, x ∈ (entries (map_at (ts_ t) (list_remove p) (queue_ q))).*2 <-> x ∈ queued q /\ x <> p) as Hin.
  { intros x. unfold queued. rewrite !list_elem_of_fmap. split.
    - intros ([k y] & -> & Hy). apply Hkx in Hy as [Hy Hne]. split; [by exists (k, y)|done].
    - intros [([k y] & -> & Hy) Hne]. exists (k, y). split; [done|]. by apply Hkx. }
  assert (p ∉ out) as Ho by (apply NoDup_app in inv_nodup0 as (_ & Hd & _); by apply Hd).
  split; unfold queued in *; cbn.
  - by apply sorted_map_at.
  - rewrite entries_remove by done. eapply sublist_NoDup; [exact inv_nodup0|]. apply sublist_app; [apply sublist_filter_snd|done].
  - intros x. rewrite Hin, lookup_delete_is_Some, inv_heap0. naive_solver.
  - intros k x [Hold Hne]%Hkx. rewrite lookup_delete_ne by done. eauto.
  - intros i x. rewrite Hin. rewrite lookup_delete_Some, inv_ids0. split.
    + intros [Hi [Hx (t' & Ht' & <-)]]. assert (x <> p) by (intros ->; congruence).
      split; [naive_solver|]. exists t'. by rewrite lookup_delete_ne.
    + intros [Hx (t' & Ht' & <-)]. apply lookup_delete_Some in Ht' as [Hne Ht'].
      split; [|split; [naive_solver|by eauto]]. intros Hid. apply Hne. by eapply inv_inj0.
  - intros x t' [_ Ht']%lookup_delete_Some. eauto.
  - intros p1 p2 t1 t2 [_ H1]%lookup_delete_Some [_ H2]%lookup_delete_Some. eauto.
Qed.

(** No timer still to run is removed. *)
Definition spares (us : list Z) (a : action) (q : TimerQueue) : Prop :=
  forall i p t, a = ARemove i -> p ∈ us -> heap q !! p = Some t -> id t <> i.

Lemma action_safe out us q a : timers_inv out us q -> us ⊆ out -> spares us a q ->
  mem_safe (run_action alloc q a) (fun q' => timers_inv out us q' /\ heap_keeps out q q').
Proof.
  intros Hinv Hus Ha. destruct a as [cb ts iv|i|c]; cbn [run_action].
  - eapply mem_safe_bind; [by apply add_safe|]. intros [j q'] [H1 H2]. by split.
  - unfold RemoveTimer. destruct (idtotimers_ q !! i) as [p|] eqn:Ei; [|by split].
    apply (inv_ids _ _ _ Hinv) in Ei as [Hpq (t & Ht & <-)].
    assert (p ∈ queued q) as Hq. { destruct Hpq as [|Hpu]; [done|]. exfalso. by eapply (Ha (id t) p t). }
    unfold delete_timer, deref. cbn. rewrite Ht. cbn. split.
    + eapply timers_inv_frame; [by apply (inv_dequeue out us q p t)|done..].
    + intros x Hx. cbn. apply lookup_delete_ne. intros ->. apply (inv_nodup _ _ _) in Hinv.
      apply NoDup_app in Hinv as (_ & Hd & _). by eapply Hd.
  - split; [|by intros ? ?]. by eapply timers_inv_frame.
Qed.

Lemma actions_safe out us : us ⊆ out -> forall acts q, timers_inv out us q ->
  (forall a, a ∈ acts -> spares us a q) ->
  mem_safe (foldM (run_action alloc) q acts) (fun q' => timers_inv out us q' /\ heap_keeps out q q').
Proof.
  intros Hus acts q Hinv Hs.
  eapply mem_safe_impl; [apply (mem_safe_foldM _ (fun acts q' => timers_inv out us q' /\ heap_keeps out q q' /\
    forall a, a ∈ acts -> spares us a q))|cbn; tauto].
  - intros q1 a acts1 (H1 & Hk & Ha). eapply mem_safe_impl; [apply (action_safe out us); [done|done|]|].
    + intros i p t -> Hp Ht. eapply (Ha (ARemove i)); [by left|done|done|]. by rewrite <- Hk; [|apply Hus].
    + cbn. intros q2 [H2 Hk2]. split_and!; [done|by eapply heap_keeps_trans|]. intros b Hb. apply Ha. by right.
  - split_and!; [done|by intros ? ?|done].
Qed.

(** The batch: no callback removes a timer that comes after its own. *)
Fixpoint batch_safe (ts : list Timer) : Prop :=
  match ts with
  | [] => True
  | t :: ts' =>
      (forall f t', callback_ t = Some f -> t' ∈ ts' -> ARemove (id t') ∉ user f) /\ batch_safe ts'
  end.

Definition timers_of (q : TimerQueue) (ps : list Z) : list Timer := omap (fun p => heap q !! p) ps.

Lemma timers_of_in q ps p t : p ∈ ps -> heap q !! p = Some t -> t ∈ timers_of q ps.
Proof. intros Hp Ht. apply list_elem_of_omap. by exists p. Qed.

Lemma timers_of_ext q1 q2 ps : (forall p, p ∈ ps -> heap q1 !! p = heap q2 !! p) -> timers_of q1 ps = timers_of q2 ps.
Proof.
  unfold timers_of. induction ps as [|p ps IH]; intros H; [done|]. cbn. rewrite (H p) by (by left).
  rewrite IH; [done|]. intros x Hx. apply H. by right.
Qed.

(** The calls of callbacks for some timers. *)
Definition calls_of (ts : list Timer) : list (Z * Z) := omap (fun t => pair (id t) <$> callback_ t) ts.

Lemma fire_safe out p us q log : timers_inv out (p :: us) q -> p :: us ⊆ out -> NoDup (p :: us) -> batch_safe (timers_of q (p :: us)) ->
  mem_safe (fire alloc user (q, log) p) (fun s => timers_inv out us s.1 /\ heap_keeps out q s.1 /\ batch_safe (timers_of q us) /\
    s.2 ++ calls_of (timers_of q us) = log ++ calls_of (timers_of q (p :: us))).
Proof.
  intros Hinv Hus Hnd Hb. assert (p ∈ out) as Hp by set_solver. assert (us ⊆ out) as Hus' by set_solver.
  destruct (proj2 (inv_heap _ _ _ Hinv p) (or_intror Hp)) as [t Ht]. unfold fire, deref. cbn [fst snd]. rewrite Ht. cbn [mbind outcome_bind].
  assert (timers_of q (p :: us) = t :: timers_of q us) as Eu by (unfold timers_of; cbn [omap list_omap]; by rewrite Ht).
  rewrite Eu in *. destruct Hb as [Hrem Hb].
  assert (timers_inv out us (set_ids (delete (id t) (idtotimers_ q)) q)) as H1.
  { pose proof (inv_nodup _ _ _ Hinv) as Hno. apply NoDup_app in Hno as (_ & Hd & _).
    destruct Hinv. split; try done. intros i x. cbn. change (queued (set_ids _ q)) with (queued q).
    rewrite lookup_delete_Some, inv_ids0. apply NoDup_cons in Hnd as [Hpn _]. split.
    - intros [Hi [Hx (t' & Ht' & <-)]]. split; [|by eauto]. destruct Hx as [|[->|]%elem_of_cons]; [by left|congruence|by right].
    - intros [Hx (t' & Ht' & <-)]. split; [|split; [set_solver|by eauto]].
      intros Hid. assert (p = x) as <- by eauto. destruct Hx; [by eapply Hd|done]. }
  assert (calls_of (t :: timers_of q us) = match callback_ t with Some f => [(id t, f)] | None => [] end ++ calls_of (timers_of q us)) as ->.
  { unfold calls_of. cbn [omap list_omap]. by destruct (callback_ t). }
  unfold DoFunctor. cbn [fst snd]. destruct (callback_ t) as [f|] eqn:Ef; [|split_and!; [done|by intros ? ?|done|done]].
  eapply mem_safe_bind; [apply (actions_safe out us Hus' (user f)); [done|]|].
  2: { intros q' []. split_and!; [done|done|done|]. cbn [snd]. by rewrite <- app_assoc. }
  intros a Ha i x t' -> Hx Ht' <-. eapply Hrem; [done| |exact Ha]. by eapply timers_of_in.
Qed.

Lemma fires_safe out q : timers_inv out out q -> NoDup out -> batch_safe (timers_of q out) ->
  mem_safe (foldM (fire alloc user) (q, []) out) (fun s => timers_inv out [] s.1 /\ s.2 = calls_of (timers_of q out)).
Proof.
  intros Hinv Hnd Hb.
  eapply mem_safe_impl; [apply (mem_safe_foldM _ (fun us s => timers_inv out us s.1 /\ us ⊆ out /\ NoDup us /\ batch_safe (timers_of s.1 us) /\
    s.2 ++ calls_of (timers_of s.1 us) = calls_of (timers_of q out)))|].
  - intros [q1 log] p us (H1 & Hs & Hn & Hb1 & Hl). cbn [fst snd] in *. eapply mem_safe_impl; [by apply fire_safe|].
    intros [q2 log2] (H2 & Hk & Hb2 & Hl2). cbn [fst snd] in *.
    replace (timers_of q2 us) with (timers_of q1 us) by (apply timers_of_ext; intros x Hx; symmetry; apply Hk; set_solver).
    split_and!; [done|set_solver|by apply NoDup_cons in Hn as []|done|by rewrite Hl2].
  - done.
  - intros [q' log] (? & _ & _ & _ & Hl). split; [done|]. cbn [fst snd] in *. by rewrite <- Hl, app_nil_r.
Qed.

(** Taking the timer that is next to be reset out of the ones in progress. *)
Lemma inv_release p out q : timers_inv (p :: out) [] q -> timers_inv out [] (set_heap (delete p (heap q)) q).
Proof.
  intros []. assert ((p ∉ queued q) /\ (p ∉ out)) as [Hq Ho].
  { apply NoDup_app in inv_nodup0 as (_ & Hd & Hn). apply NoDup_cons in Hn as [Hn _]. split; [|done]. intros Hx. eapply Hd; [exact Hx|by left]. }
  assert (forall k, (k, p) ∉ entries (queue_ q)) as Hk by (intros k Hk; apply Hq; apply list_elem_of_fmap; by exists (k, p)).
  split; cbn; change (queued (set_heap _ q)) with (queued q).
  - done.
  - apply NoDup_app in inv_nodup0 as (H1 & H2 & H3). apply NoDup_app. apply NoDup_cons in H3 as [_ H3]. split_and!; [done| |done]. set_solver.
  - intros x. rewrite lookup_delete_is_Some, inv_heap0. set_solver.
  - intros k x Hx. rewrite lookup_delete_ne; [by eauto|]. intros ->. by eapply Hk.
  - intros i x. rewrite inv_ids0. split; intros [Hx (t & Ht & Hi)].
    + split; [done|]. exists t. rewrite lookup_delete_ne; [done|]. intros ->. set_solver.
    + apply lookup_delete_Some in Ht as [? ?]. eauto.
  - intros x t [_ Ht]%lookup_delete_Some. eauto.
  - intros p1 p2 t1 t2 [_ H1]%lookup_delete_Some [_ H2]%lookup_delete_Some. eauto.
Qed.

Lemma reset_safe p out q : timers_inv (p :: out) [] q -> mem_safe (reset_one q p) (timers_inv out []).
Proof.
  intros Hinv. destruct (proj2 (inv_heap _ _ _ Hinv p)) as [t Ht]; [right; by left|].
  pose proof (inv_release _ _ _ Hinv) as Hrel. unfold reset_one, delete_timer, deref. rewrite Ht. cbn [mbind outcome_bind].
  destruct (repeat_ t); [|done]. cbn [mem_safe].
  assert ((p ∉ queued q) /\ (p ∉ out)) as [Hq Ho].
  { split; intros Hx; assert (is_Some (delete p (heap q) !! p)) as [? Hs] by (apply (inv_heap _ _ _ Hrel); auto);
      by rewrite lookup_delete_eq in Hs. }
  eapply timers_inv_frame; [apply (inv_enqueue out [] (set_heap (delete p (heap q)) q) p (Restart (clock q) t) Hrel Hq Ho)|..]; cbn.
  - intros p' t' Hp' Hne Hid. apply lookup_delete_Some in Hp' as [_ Hp']. apply Hne. by eapply (inv_inj _ _ _ Hinv).
  - by apply (inv_bound _ _ _ Hinv p).
  - set_solver.
  - by rewrite insert_delete_eq.
  - done.
  - done.
  - done.
Qed.

Lemma resets_safe out q : timers_inv out [] q -> mem_safe (ResetTimers out q) (timers_inv [] []).
Proof. intros Hinv. apply (mem_safe_foldM _ (fun out q => timers_inv out [] q)); [|done]. intros. by apply reset_safe. Qed.

(** Moving the due timers out. *)
Lemma inv_take q expired rest : timers_inv [] [] q -> take_expired (clock q) (queue_ q) = (expired, rest) ->
  timers_inv expired expired (set_queue rest q) /\ NoDup expired.
Proof.
  clear alloc_fresh alloc user. intros [] (due & Hq & -> & _)%take_expired_spec. unfold queued in *. rewrite Hq, entries_app in *. rewrite fmap_app, app_nil_r in *.
  assert (forall x, x ∈ (entries due).*2 ++ (entries rest).*2 <-> x ∈ (entries rest).*2 \/ x ∈ (entries due).*2) as Hx by set_solver.
  split; [|by apply NoDup_app in inv_nodup0 as (? & _)]. split; unfold queued; cbn.
  - by eapply StronglySorted_app_1_r.
  - by rewrite Permutation_app_comm.
  - intros x. rewrite inv_heap0, Hx. set_solver.
  - intros k x Hin. apply inv_ts0. set_solver.
  - intros i x. rewrite inv_ids0, Hx. set_solver.
  - done.
  - done.
Qed.

(** The timers that are due, as [HandleRead] will run them. *)
Definition due (q : TimerQueue) : list Z := (filter (fun e => e.1 <= clock q) (entries (queue_ q))).*2.

Lemma HandleRead_safe fired q : timers_inv [] [] q -> batch_safe (timers_of q (due q)) ->
  mem_safe (HandleRead alloc user fired q) (fun r => r.1 = calls_of (timers_of q (due q)) /\ timers_inv [] [] r.2).
Proof.
  intros Hinv Hb. unfold HandleRead. set (q0 := if fired then set_armed None q else q).
  assert (timers_inv [] [] q0) as H0 by (subst q0; destruct fired; [by eapply timers_inv_frame|done]).
  assert (queue_ q0 = queue_ q /\ clock q0 = clock q /\ heap q0 = heap q) as (Eq & Ec & Eh) by (subst q0; by destruct fired).
  destruct (take_expired (clock q0) (queue_ q0)) as [expired rest] eqn:Et.
  assert (expired = due q) as ->.
  { unfold due. rewrite <- Eq, <- Ec. eapply take_expired_due; [apply (inv_sorted _ _ _ H0)|exact Et]. }
  destruct (inv_take q0 _ _ H0 Et) as [H1 Hnd].
  assert (timers_of (set_queue rest q0) (due q) = timers_of q (due q)) as Et' by (apply timers_of_ext; intros x _; cbn; by rewrite Eh).
  eapply mem_safe_bind; [apply fires_safe; [exact H1|done|by rewrite Et']|].
  intros [q1 called] [Hq1 Hl]. cbn [fst snd] in *. eapply mem_safe_bind; [by apply resets_safe|]. intros q2 Hq2. by rewrite Hl, Et'.
Qed.

(** Every [HandleRead] of a run meets a safe batch. *)
Fixpoint run_safe (s : logged) (ls : list timer_label) : Prop :=
  match ls with
  | [] => True
  | l :: ls' =>
      match l with LHandleRead _ => batch_safe (timers_of s.1 (due s.1)) | LAction _ => True end /\
      forall s', timer_exec alloc user s l = Ok s' -> run_safe s' ls'
  end.

Lemma exec_safe s l : timers_inv [] [] s.1 ->
  match l with LHandleRead _ => batch_safe (timers_of s.1 (due s.1)) | LAction _ => True end ->
  mem_safe (timer_exec alloc user s l) (fun s' => timers_inv [] [] s'.1).
Proof.
  intros Hinv Hl. destruct l as [a|fired]; cbn [timer_exec].
  - eapply mem_safe_bind; [apply (action_safe [] [])|by intros q' []]; [done|done|]. intros i p t _ Hp. by apply not_elem_of_nil in Hp.
  - eapply mem_safe_bind; [by apply HandleRead_safe|]. by intros [e q'] [_ Hq'].
Qed.

Lemma run_safe_ok ls : forall s, timers_inv [] [] s.1 -> run_safe s ls ->
  mem_safe (foldM (timer_exec alloc user) s ls) (fun s' => timers_inv [] [] s'.1).
Proof.
  induction ls as [|l ls IH]; intros s Hinv Hs; cbn [foldM]; [done|]. destruct Hs as [Hl Hs].
  pose proof (exec_safe s l Hinv Hl) as He. destruct (timer_exec alloc user s l) as [s'|f]; cbn; [|done]. apply IH; [done|by apply Hs].
Qed.

(** The identifier was used, and no timer has it any more. *)
Definition gone (i : Z) (q : TimerQueue) : Prop :=
  i <= timer_id_ q /\ forall p t, heap q !! p = Some t -> id t <> i.

(** Steps that succeed keep a property. *)
Lemma foldM_keeps {S A} (step : S -> A -> outcome S) (I : S -> Prop) :
  (forall s a s', I s -> step s a = Ok s' -> I s') -> forall l s s', I s -> foldM step s l = Ok s' -> I s'.
Proof.
  intros Hstep. induction l as [|a l IH]; intros s s' Hs; cbn [foldM]; [by intros [= <-]|].
  destruct (step s a) as [s1|] eqn:E; cbn [mbind outcome_bind]; [|done]. eauto.
Qed.

Lemma gone_delete i p q q' : gone i q -> delete_timer p q = Ok q' -> gone i q'.
Proof.
  intros [Hi Hg]. unfold delete_timer. destruct (deref p q); cbn; [|done]. intros [= <-]. split; [done|].
  cbn. intros p' t' [_ H]%lookup_delete_Some. by eapply Hg.
Qed.

Lemma gone_action i q a q' : gone i q -> run_action alloc q a = Ok q' -> gone i q'.
Proof.
  intros [Hi Hg]. destruct a as [cb ts iv|j|c]; cbn [run_action].
  - unfold AddTimer, new_timer. destruct (alloc (heap q)) as [p|]; [|done].
    destruct (_ <? _); [|done]. cbn [mbind outcome_bind]. unfold deref. cbn [heap]. rewrite lookup_insert_eq.
    cbn [mbind outcome_bind]. intros [= <-].
    match goal with |- context [if ?b then _ else _] => destruct b end; (split; [cbn; lia|]); cbn;
      intros p' t' [[_ <-]|[_ H]]%lookup_insert_Some; (cbn; lia) || by eapply Hg.
  - unfold RemoveTimer. destruct (idtotimers_ q !! j) as [p|]; [|by intros [= <-]]. destruct (deref _ _) as [t|]; [|done].
    cbn [mbind outcome_bind]. by apply gone_delete.
  - by intros [= <-].
Qed.

Lemma gone_fire i s p s' : gone i s.1 /\ i ∉ s.2.*1 -> fire alloc user s p = Ok s' -> gone i s'.1 /\ i ∉ s'.2.*1.
Proof.
  intros [Hg Hl]. unfold fire, deref. destruct (heap s.1 !! p) as [t|] eqn:Et; [|done]. cbn [mbind outcome_bind].
  unfold DoFunctor. cbn [fst snd]. destruct (callback_ t) as [f|]; [|by intros [= <-]].
  destruct (foldM _ _ _) as [q|] eqn:E; cbn [mbind outcome_bind]; [|done]. intros [= <-]. cbn [fst snd]. split.
  - revert E. apply (foldM_keeps _ (gone i)); [by apply gone_action|done].
  - rewrite fmap_app, not_elem_of_app. split; [done|]. cbn. rewrite list_elem_of_singleton. intros ->. by eapply (proj2 Hg).
Qed.

Lemma gone_reset i q p q' : gone i q -> reset_one q p = Ok q' -> gone i q'.
Proof.
  intros Hg. unfold reset_one. destruct (deref p q) as [t|] eqn:Et; [|done]. cbn [mbind outcome_bind].
  destruct (repeat_ t); [|by apply gone_delete]. intros [= <-]. destruct Hg as [Hi Hg]. split; [done|].
  unfold deref in Et. destruct (heap q !! p) eqn:Ep; [|done]. injection Et as ->. cbn.
  intros p' t' [[_ <-]|[_ H]]%lookup_insert_Some; cbn; by eapply Hg.
Qed.

Lemma gone_exec i s l s' : gone i s.1 /\ i ∉ s.2.*1 -> timer_exec alloc user s l = Ok s' -> gone i s'.1 /\ i ∉ s'.2.*1.
Proof.
  intros [Hg Hl]. destruct l as [a|fired]; cbn [timer_exec].
  - destruct (run_action _ _ _) as [q|] eqn:E; cbn; [|done]. intros [= <-]. split; [by eapply gone_action|done].
  - unfold HandleRead. set (q0 := if fired then _ else _). assert (gone i q0) as H0 by (subst q0; by destruct fired).
    destruct (take_expired _ _) as [expired rest]. destruct (foldM (fire _ _) _ _) as [[q1 called]|] eqn:E1; cbn [mbind outcome_bind]; [|done].
    apply (foldM_keeps _ (fun s => gone i s.1 /\ i ∉ s.2.*1) (gone_fire i)) in E1 as [H1 Hc]; [|by split; [|apply not_elem_of_nil]].
    destruct (ResetTimers _ _) as [q2|] eqn:E2; cbn [mbind outcome_bind]; [|done]. intros [= <-]. cbn [fst snd] in *. split.
    + revert E2. by apply (foldM_keeps _ (gone i) (gone_reset i)).
    + rewrite fmap_app, not_elem_of_app. done.
Qed.

End Inv.

(** ** Theorems *)

Lemma remove_final alloc q i : timers_inv [] [] q -> i <= timer_id_ q ->
  exists q', run_action alloc q (ARemove i) = Ok q' /\ gone i q'.
Proof.
  intros Hinv Hi. cbn. unfold RemoveTimer. destruct (idtotimers_ q !! i) as [p|] eqn:Ei.
  - apply (inv_ids _ _ _ Hinv) in Ei as [_ (t & Ht & <-)]. unfold delete_timer, deref. cbn. rewrite Ht. cbn. eexists. split; [done|]. split; [done|].
    cbn. intros p' t' [Hne Hp']%lookup_delete_Some Hid. apply Hne. by eapply (inv_inj _ _ _ Hinv).
  - exists q. split; [done|]. split; [done|]. intros p t Hp Hid. assert (p ∈ queued q) as Hq.
    { assert (is_Some (heap q !! p)) as Hs by (by exists t). apply (inv_heap _ _ _ Hinv) in Hs as [|Hs]; [done|]. by apply not_elem_of_nil in Hs. }
    assert (idtotimers_ q !! i = Some p) as E by (apply (inv_ids _ _ _ Hinv); eauto). congruence.
Qed.

(** C35: as long as no callback removes a timer that expired together with its
    own and comes after it ([run_safe]; otherwise [remove_coexpired_faults]),
    every sequence of additions, removals and timerfd events, the callbacks
    adding and removing timers too, uses no timer after it was deleted and
    leaks none, unless memory or the 64-bit identifiers run out: the queue,
    the identifiers and the heap describe the same timers. [HandleRead] then
    calls exactly the callbacks of the timers that are due, in the order of
    their times and, at equal times, of their insertion. A timer that is
    removed between two timerfd events is never called again, whatever happens
    later; a removal by the timer's own callback is not meant here, it is
    ignored when the timer repeats ([remove_itself_ignored]). *)
Theorem reactor_timers_safe alloc user t ls :
  (forall h p, alloc h = Some p -> h !! p = None) -> run_safe alloc user (TimerQueue_ctor t, []) ls ->
  mem_safe (foldM (timer_exec alloc user) (TimerQueue_ctor t, []) ls) (fun s =>
    let q := s.1 in
    timers_inv [] [] q /\
    (forall fired, batch_safe user (timers_of q (due q)) ->
      mem_safe (HandleRead alloc user fired q) (fun r => r.1 = calls_of (timers_of q (due q)))) /\
    (forall i, i <= timer_id_ q -> exists q', run_action alloc q (ARemove i) = Ok q' /\
      forall ls' s', foldM (timer_exec alloc user) (q', []) ls' = Ok s' -> gone i s'.1 /\ i ∉ s'.2.*1)).
Proof.
  intros Ha Hs. eapply mem_safe_impl; [apply run_safe_ok; [done|apply timers_inv_ctor|done]|]. intros s Hinv q. split_and!; [done| |].
  - intros fired Hb. eapply mem_safe_impl; [by apply HandleRead_safe|]. by intros r [? _].
  - intros i Hi. destruct (remove_final alloc q i Hinv Hi) as (q' & E & Hg). exists q'. split; [done|]. intros ls' s'.
    apply (foldM_keeps _ (fun s => gone i s.1 /\ i ∉ s.2.*1) (gone_exec alloc user i)). by split; [|apply not_elem_of_nil].
Qed.

(** An allocator: one past the largest address in use. *)
Definition next_address (h : gmap Z Timer) : option Z := Some (1 + foldr Z.max 0 (elements (dom h))).

Lemma next_address_fresh h p : next_address h = Some p -> h !! p = None.
Proof.
  intros [= <-]. apply not_elem_of_dom. intros Hin. apply elem_of_elements in Hin.
  assert (forall l x, x ∈ l -> x <= foldr Z.max 0 l) as Hmax.
  { clear. induction l as [|y l IH]; intros x Hx; [by apply not_elem_of_nil in Hx|]. cbn. apply elem_of_cons in Hx as [->|Hx]; [lia|].
    specialize (IH x Hx). lia. }
  specialize (Hmax _ _ Hin). lia.
Qed.

(** Callback 1 adds a timer a second later, callback 2 removes timer 1. *)
Definition sample_user (f : Z) : list action :=
  if f =? 1 then [AAdd (Some 1) 2000000 0] else if f =? 2 then [ARemove 1] else [].

Definition sample_labels : list timer_label :=
  [LAction (AAdd (Some 1) 1000000 0); LAction (AAdd (Some 2) 3000000 5); LAction (ATick 1500000); LHandleRead true].

Lemma reactor_timers_safe_witness :
  exists q, foldM (timer_exec next_address sample_user) (TimerQueue_ctor 0, []) sample_labels = Ok (q, [(1, 1)]) /\
    timers_inv [] [] q /\ entries (queue_ q) = [(2000000, 3); (3000000, 2)].
Proof.
  pose proof (reactor_timers_safe next_address sample_user 0 sample_labels next_address_fresh) as H.
  assert (run_safe next_address sample_user (TimerQueue_ctor 0, []) sample_labels) as Hs.
  { unfold sample_labels. cbn [run_safe]. split; [done|]. intros q1 E1. split; [done|]. intros q2 E2. split; [done|]. intros q3 E3.
    vm_compute in E1. injection E1 as <-. vm_compute in E2. injection E2 as <-. vm_compute in E3. injection E3 as <-.
    split; [|done]. vm_compute. split; [|done]. intros f t' _ Hin. inversion Hin. }
  specialize (H Hs). eexists. split; [vm_compute; reflexivity|].
  replace (foldM (timer_exec next_address sample_user) (TimerQueue_ctor 0, []) sample_labels) with
    (Ok (match foldM (timer_exec next_address sample_user) (TimerQueue_ctor 0, []) sample_labels with Ok s => s | Fail _ => (TimerQueue_ctor 0, []) end)) in H
    by (vm_compute; reflexivity).
  destruct H as [H _]. vm_compute in H |- *. split; [exact H|reflexivity].
Defined.

(** ** A timerfd that is not armed again *)

Definition only_ticks (user : Z -> list action) (t : Timer) : Prop :=
  forall f a, callback_ t = Some f -> a ∈ user f -> exists c, a = ATick c.

Lemma ticks_frame alloc acts : forall q, (forall a, a ∈ acts -> exists c, a = ATick c) ->
  exists q', foldM (run_action alloc) q acts = Ok q' /\ heap q' = heap q /\ queue_ q' = queue_ q /\ armed q' = armed q.
Proof.
  induction acts as [|a acts IH]; intros q Ha; cbn [foldM]; [by exists q|].
  destruct (Ha a) as [c ->]; [by left|]. cbn. destruct (IH (set_clock c q)) as (q' & ? & ? & ? & ?); [|by exists q'].
  intros b Hb. apply Ha. by right.
Qed.

Lemma fires_frame alloc user ps : forall q log, Forall (fun p => exists t, heap q !! p = Some t /\ only_ticks user t) ps ->
  exists q' log', foldM (fire alloc user) (q, log) ps = Ok (q', log') /\ heap q' = heap q /\ queue_ q' = queue_ q /\ armed q' = armed q.
Proof.
  induction ps as [|p ps IH]; intros q log Hps; cbn [foldM]; [by exists q, log|]. apply Forall_cons in Hps as [(t & Ht & Ho) Hps].
  unfold fire at 2, deref. cbn [fst snd]. rewrite Ht. cbn [mbind outcome_bind].
  set (q1 := set_ids (delete (id t) (idtotimers_ q)) q).
  assert (exists q2 log2, DoFunctor alloc user t (q1, log) = Ok (q2, log2) /\ heap q2 = heap q /\ queue_ q2 = queue_ q /\ armed q2 = armed q) as (q2 & log2 & -> & Hh & Hq & Ha).
  { unfold DoFunctor. destruct (callback_ t) as [f|] eqn:Ef; [|by exists q1, log]. cbn [fst snd].
    destruct (ticks_frame alloc (user f) q1) as (q2 & E & ? & ? & ?); [intros a Hin; by eapply Ho|]. rewrite E. by exists q2, (log ++ [(id t, f)]). }
  cbn. destruct (IH q2 log2) as (q' & log' & -> & Hh' & Hq' & Ha'); [by rewrite Hh|]. exists q', log'. split_and!; congruence.
Qed.

Lemma resets_delete ps : forall q, NoDup ps -> Forall (fun p => exists t, heap q !! p = Some t /\ repeat_ t = false) ps ->
  exists q', ResetTimers ps q = Ok q' /\ queue_ q' = queue_ q /\ armed q' = armed q.
Proof.
  unfold ResetTimers. induction ps as [|p ps IH]; intros q Hnd Hps; cbn [foldM]; [by exists q|].
  apply Forall_cons in Hps as [(t & Ht & Hr) Hps]. apply NoDup_cons in Hnd as [Hp Hnd].
  unfold reset_one at 2, delete_timer, deref. rewrite Ht. cbn [mbind outcome_bind]. rewrite Hr. cbn.
  destruct (IH (set_heap (delete p (heap q)) q)) as (q' & -> & ? & ?); [done| |by exists q'].
  rewrite Forall_forall in Hps |- *. intros x Hx. cbn. rewrite lookup_delete_ne; [by apply Hps|]. intros ->. done.
Qed.

(** When the timerfd fires and every due timer is a one-shot whose
    callback adds none, [HandleRead] leaves the timerfd disarmed, whatever is
    still queued: the timers that are due later stay in the queue and nothing
    is armed to run them. *)
Lemma reactor_timers_stall alloc user q :
  timers_inv [] [] q -> Forall (fun t => repeat_ t = false /\ only_ticks user t) (timers_of q (due q)) ->
  exists called q', HandleRead alloc user true q = Ok (called, q') /\ armed q' = None /\
    entries (queue_ q') = filter (fun e => clock q < e.1) (entries (queue_ q)).
Proof.
  intros Hinv Hone. unfold HandleRead. cbn [set_armed clock queue_].
  destruct (take_expired (clock q) (queue_ q)) as [expired rest] eqn:Et.
  pose proof (take_expired_due _ _ _ _ (inv_sorted _ _ _ Hinv) Et) as Ed. change (expired = due q) in Ed.
  destruct (inv_take q expired rest Hinv Et) as [Hinv1 Hnd]. rewrite Forall_forall in Hone.
  assert (Forall (fun p => exists t, heap q !! p = Some t /\ repeat_ t = false /\ only_ticks user t) expired) as Hall.
  { rewrite Forall_forall. intros p Hp. destruct (proj2 (inv_heap _ _ _ Hinv1 p) (or_intror Hp)) as [t Ht].
    exists t. split; [done|]. apply Hone. rewrite <- Ed. by eapply timers_of_in. }
  destruct (fires_frame alloc user expired (set_queue rest (set_armed None q)) []) as (q1 & called & -> & Hh & Hq & Ha).
  { eapply Forall_impl; [exact Hall|]. intros p (t & ? & _ & ?). by exists t. }
  cbn [mbind outcome_bind]. destruct (resets_delete expired q1) as (q2 & -> & Hq2 & Ha2); [done| |].
  { rewrite Hh. eapply Forall_impl; [exact Hall|]. intros p (t & ? & ? & _). by exists t. }
  cbn [mbind outcome_bind]. exists called, q2. split_and!; [done|by rewrite Ha2, Ha|]. rewrite Hq2, Hq. cbn.
  symmetry. eapply take_expired_rest; [apply (inv_sorted _ _ _ Hinv)|done].
Qed.

Definition stalling_queue : TimerQueue :=
  match foldM (timer_exec next_address (fun _ => [])) (TimerQueue_ctor 0, [])
          [LAction (AAdd (Some 7) 1000000 0); LAction (AAdd None 2000000 0); LAction (ATick 1000000)] with
  | Ok s => s.1
  | Fail _ => TimerQueue_ctor 0
  end.

Lemma reactor_timers_stall_witness :
  exists q', HandleRead next_address (fun _ => []) true stalling_queue = Ok ([(1, 7)], q') /\ armed q' = None /\
    entries (queue_ q') = [(2000000, 2)].
Proof.
  destruct (reactor_timers_stall next_address (fun _ => []) stalling_queue) as (called & q' & H1 & H2 & H3).
  - pose proof (run_safe_ok next_address (fun _ => []) next_address_fresh
      [LAction (AAdd (Some 7) 1000000 0); LAction (AAdd None 2000000 0); LAction (ATick 1000000)] (TimerQueue_ctor 0, []) (timers_inv_ctor 0)) as H.
    apply H. cbn [run_safe]. repeat (split; [done|intros ? _]). done.
  - vm_compute. constructor; [|constructor]. split; [reflexivity|]. intros f a _ H. inversion H.
  - exists q'. assert (called = [(1, 7)]) as -> by (vm_compute in H1; by injection H1 as <- _). split; [exact H1|]. split; [exact H2|]. rewrite H3. vm_compute. reflexivity.
Defined.

(** Two timers of the same time; the first one's callback removes the second. *)
Lemma remove_coexpired_faults :
  foldM (timer_exec next_address (fun _ => [ARemove 2])) (TimerQueue_ctor 0, [])
    [LAction (AAdd (Some 0) 10 0); LAction (AAdd None 10 0); LAction (ATick 10); LHandleRead true] = Fail UseAfterFree.
Proof. vm_compute. reflexivity. Qed.

(** A repeating timer that removes itself in its callback goes on. *)
Lemma remove_itself_ignored :
  exists q, foldM (timer_exec next_address (fun _ => [ARemove 1])) (TimerQueue_ctor 0, [])
    [LAction (AAdd (Some 0) 10 3); LAction (ATick 10); LHandleRead true] = Ok (q, [(1, 0)]) /\ entries (queue_ q) = [(3000010, 1)].
Proof. eexists. split; [vm_compute; reflexivity|vm_compute; reflexivity]. Qed.
