(* ===== verification/ReactorPoller.v ===== *)
(** * Channels and the select poller of the reactor library:
    src/Reactors/net/channel.h, channel.cc, pollers/selectpoller.h, selectpoller.cc

    Channels are objects shared by their owner and the poller, found by
    address. The constructor leaves members uninitialised: what the memory
    held is an argument. The answer of [select] is an argument of [Poll]. *)

From stdpp Require Import gmap.
From S2P Require Import Prelude Channel.

(** ** Channel *)

Record Channel : Type := mkChannel {
  fd_ : Z;
  events_ : Z;
  revents_ : Z;
  index_ : Z;
  tied_ : bool;
}.

(** Only the index and the descriptor are set. *)
Definition Channel_ctor (garbage_events garbage_revents : Z) (garbage_tied : bool) (fd : Z) : Channel :=
  mkChannel fd garbage_events garbage_revents (-1) garbage_tied.

Definition set_events (ev : Z) (c : Channel) : Channel := mkChannel (fd_ c) ev (revents_ c) (index_ c) (tied_ c).
Definition set_revents (ev : Z) (c : Channel) : Channel := mkChannel (fd_ c) (events_ c) ev (index_ c) (tied_ c).
Definition set_index (i : Z) (c : Channel) : Channel := mkChannel (fd_ c) (events_ c) (revents_ c) i (tied_ c).

Inductive interest : Set := EnableReading | DisableReading | EnableWriting | DisableWriting | DisableAll.

(** [events_ |= ...], [events_ &= ~...]. *)
Definition change_events (i : interest) (ev : Z) : Z :=
  match i with
  | EnableReading => Z.lor ev kReadEvent
  | DisableReading => Z.land ev (Z.lnot kReadEvent)
  | EnableWriting => Z.lor ev kWriteEvent
  | DisableWriting => Z.land ev (Z.lnot kWriteEvent)
  | DisableAll => kNoneEvent
  end.

(** The callbacks run, in order. *)
Definition HandleEventWithGuard (c : Channel) : list callback :=
  (if has (revents_ c) POLLHUP && negb (has (revents_ c) POLLIN) then [CloseCallback] else []) ++
  (if has (revents_ c) (Z.lor POLLERR POLLNVAL) then [ErrorCallback] else []) ++
  (if has (revents_ c) (Z.lor (Z.lor POLLIN POLLPRI) POLLRDHUP) then [ReadCallback] else []) ++
  (if has (revents_ c) POLLOUT then [WriteCallback] else []).

(** [tie_] is never set: its [lock] gives null. *)
Definition HandleEvent (c : Channel) : list callback := if tied_ c then [] else HandleEventWithGuard c.

(** ** SelectPoller *)

Record SelectPoller : Type := mkSelectPoller {
  channels_ : gmap Z Z;
  readfds_ : gset Z;
  writefds_ : gset Z;
  fds_ : list Z;
  max_fd_ : Z;
}.

Definition SelectPoller_ctor : SelectPoller := mkSelectPoller ∅ ∅ ∅ [] 3.

Abbreviation store := (gmap Z Channel).

Definition FD_SETSIZE : Z := 1024.

Definition in_fd_set (fd : Z) : bool := (0 <=? fd) && (fd <? FD_SETSIZE).

Definition FD_SET (fd : Z) (s : gset Z) : outcome (gset Z) := if in_fd_set fd then Ok ({[fd]} ∪ s) else Fail OutOfBounds.
Definition FD_CLR (fd : Z) (s : gset Z) : outcome (gset Z) := if in_fd_set fd then Ok (s ∖ {[fd]}) else Fail OutOfBounds.
Definition FD_ISSET (fd : Z) (s : gset Z) : outcome bool := if in_fd_set fd then Ok (bool_decide (fd ∈ s)) else Fail OutOfBounds.

Definition get_channel (p : Z) (m : store) : outcome Channel :=
  match m !! p with Some c => Ok c | None => Fail UseAfterFree end.

Definition UpdateChannel (p : Z) (s : SelectPoller) (m : store) : outcome (SelectPoller * store) :=
  c ← get_channel p m;
  let fd := fd_ c in
  if index_ c <? 0 then
    r ← (if has (events_ c) kReadEvent then FD_SET fd (readfds_ s) else Ok (readfds_ s));
    w ← (if has (events_ c) kWriteEvent then FD_SET fd (writefds_ s) else Ok (writefds_ s));
    Ok (mkSelectPoller (<[fd := p]> (channels_ s)) r w (fds_ s ++ [fd]) (if max_fd_ s <? fd then fd else max_fd_ s),
        <[p := set_index 1 c]> m)
  else
    r ← (if has (events_ c) kReadEvent then FD_SET fd (readfds_ s) else FD_CLR fd (readfds_ s));
    w ← (if has (events_ c) kWriteEvent then FD_SET fd (writefds_ s) else FD_CLR fd (writefds_ s));
    Ok (mkSelectPoller (<[fd := p]> (channels_ s)) r w (fds_ s) (max_fd_ s), m).

Definition RemoveChannel (p : Z) (s : SelectPoller) (m : store) : outcome SelectPoller :=
  c ← get_channel p m;
  let fd := fd_ c in
  r ← FD_CLR fd (readfds_ s);
  w ← FD_CLR fd (writefds_ s);
  Ok (mkSelectPoller (delete fd (channels_ s)) r w (filter (fun x => x <> fd) (fds_ s)) (max_fd_ s)).

(** The sets handed to [select]. *)
Definition interest_add (set acc : gset Z) (fd : Z) : outcome (gset Z) :=
  b ← FD_ISSET fd set; if (b : bool) then FD_SET fd acc else Ok acc.

Definition interest_set (s : SelectPoller) (set : gset Z) : outcome (gset Z) := foldM (interest_add set) ∅ (fds_ s).

(** One iteration of the loop over [fds_]; [channels_[fd]] inserts a null
    pointer when there is none. *)
Definition fill_one (readset writeset : gset Z) (st : SelectPoller * store * list Z) (fd : Z) : outcome (SelectPoller * store * list Z) :=
  let '(s, m, active) := st in
  let p := default 0 (channels_ s !! fd) in
  let s1 := mkSelectPoller (<[fd := p]> (channels_ s)) (readfds_ s) (writefds_ s) (fds_ s) (max_fd_ s) in
  rd ← FD_ISSET fd readset;
  wr ← FD_ISSET fd writeset;
  m1 ← (if (rd : bool) then c ← get_channel p m; Ok (<[p := set_revents kReadEvent c]> m) else Ok m);
  m2 ← (if (wr : bool) then c ← get_channel p m1; Ok (<[p := set_revents kWriteEvent c]> m1) else Ok m1);
  Ok (s1, m2, if rd || wr then active ++ [p] else active).

Definition FillActiveChannels (readset writeset : gset Z) (s : SelectPoller) (m : store) : outcome (SelectPoller * store * list Z) :=
  foldM (fill_one readset writeset) (s, m, []) (fds_ s).

(** What [select] answers, given its sets and its first argument. *)
Inductive select_result : Type :=
| SelectError (errno : Z)
| SelectTimeout
| SelectReady (readset writeset : gset Z).

Definition Poll (select : gset Z -> gset Z -> Z -> select_result) (s : SelectPoller) (m : store) :
    outcome (SelectPoller * store * list Z) :=
  read_set ← interest_set s (readfds_ s);
  write_set ← interest_set s (writefds_ s);
  match select read_set write_set (max_fd_ s + 1) with
  | SelectReady r w => FillActiveChannels r w s m
  | _ => Ok (s, m, [])
  end.

(** ** What owners do *)

Inductive poller_op : Type :=
| PNew (p fd garbage_events garbage_revents : Z) (garbage_tied : bool)
| PChange (p : Z) (i : interest)
| PRemove (p : Z).

Definition poller_exec (st : SelectPoller * store) (o : poller_op) : outcome (SelectPoller * store) :=
  let '(s, m) := st in
  match o with
  | PNew p fd ge gr gt => Ok (s, <[p := Channel_ctor ge gr gt fd]> m)
  | PChange p i =>
      c ← get_channel p m;
      UpdateChannel p s (<[p := set_events (change_events i (events_ c)) c]> m)
  | PRemove p => s' ← RemoveChannel p s m; Ok (s', m)
  end.

(** ** The poller's invariant *)

Record poller_inv (st : SelectPoller * store) : Prop := {
  pi_nodup : NoDup (fds_ st.1);
  pi_fds : forall fd, fd ∈ fds_ st.1 <-> is_Some (channels_ st.1 !! fd);
  pi_chan : forall fd p, channels_ st.1 !! fd = Some p -> exists c, st.2 !! p = Some c /\ fd_ c = fd /\ index_ c = 1 /\
    (fd ∈ readfds_ st.1 <-> has (events_ c) kReadEvent = true) /\ (fd ∈ writefds_ st.1 <-> has (events_ c) kWriteEvent = true);
  pi_max : forall fd, fd ∈ fds_ st.1 -> 0 <= fd < FD_SETSIZE /\ fd <= max_fd_ st.1;
  pi_sets : forall fd, fd ∈ readfds_ st.1 \/ fd ∈ writefds_ st.1 -> fd ∈ fds_ st.1;
}.

(** What owners keep to: a new channel takes an unused address, a descriptor
    the sets can hold; a channel is registered only while no other has its
    descriptor, removed only while it is registered and not used afterwards. *)
Definition op_legal (st : SelectPoller * store) (o : poller_op) : Prop :=
  match o with
  | PNew p fd _ _ _ => st.2 !! p = None /\ 0 <= fd < FD_SETSIZE
  | PChange p _ => exists c, st.2 !! p = Some c /\
      ((index_ c = -1 /\ channels_ st.1 !! fd_ c = None /\ 0 <= fd_ c < FD_SETSIZE) \/ channels_ st.1 !! fd_ c = Some p)
  | PRemove p => exists c, st.2 !! p = Some c /\ channels_ st.1 !! fd_ c = Some p
  end.

Lemma in_fd_set_true fd : 0 <= fd < FD_SETSIZE -> in_fd_set fd = true.
Proof. intros H. unfold in_fd_set. destruct (Z.leb_spec 0 fd), (Z.ltb_spec fd FD_SETSIZE); done || lia. Qed.

Lemma inv_address st fd1 fd2 p : poller_inv st -> channels_ st.1 !! fd1 = Some p -> channels_ st.1 !! fd2 = Some p -> fd1 = fd2.
Proof. intros Hi H1 H2. destruct (pi_chan _ Hi _ _ H1) as (c1 & ? & ? & _), (pi_chan _ Hi _ _ H2) as (c2 & ? & ? & _). congruence. Qed.

Lemma register_inv s m p c : poller_inv (s, m) -> m !! p = Some c -> index_ c = -1 -> channels_ s !! fd_ c = None ->
  (forall fd, channels_ s !! fd <> Some p) -> 0 <= fd_ c < FD_SETSIZE ->
  exists st', UpdateChannel p s m = Ok st' /\ poller_inv st'.
Proof.
  intros Hi Hc Hix Hnone Hfresh Hfd. unfold UpdateChannel, get_channel, FD_SET. rewrite Hc. cbn [mbind outcome_bind].
  rewrite Hix, in_fd_set_true by done. cbn [Z.ltb Z.compare].
  assert (fd_ c ∉ fds_ s) as Hnf by (rewrite (pi_fds _ Hi); cbn; rewrite Hnone; by intros []).
  assert ((fd_ c ∉ readfds_ s) /\ (fd_ c ∉ writefds_ s)) as [Hnr Hnw] by (split; intros ?; apply Hnf, (pi_sets _ Hi); cbn; auto).
  assert (exists r, (if has (events_ c) kReadEvent then Ok ({[fd_ c]} ∪ readfds_ s) else Ok (readfds_ s)) = Ok r /\
    forall x, x ∈ r <-> (x = fd_ c /\ has (events_ c) kReadEvent = true) \/ x ∈ readfds_ s) as (r & -> & Hr)
    by (destruct (has (events_ c) kReadEvent); eexists; split; [done|set_solver|done|set_solver]).
  assert (exists w, (if has (events_ c) kWriteEvent then Ok ({[fd_ c]} ∪ writefds_ s) else Ok (writefds_ s)) = Ok w /\
    forall x, x ∈ w <-> (x = fd_ c /\ has (events_ c) kWriteEvent = true) \/ x ∈ writefds_ s) as (w & -> & Hw)
    by (destruct (has (events_ c) kWriteEvent); eexists; split; [done|set_solver|done|set_solver]).
  cbn [mbind outcome_bind]. eexists. split; [done|]. destruct Hi as [Hnd Hfds Hch Hmx Hst]; cbn in *. split; cbn.
  - apply NoDup_app. split_and!; [done|set_solver|apply NoDup_singleton].
  - intros fd. rewrite elem_of_app, list_elem_of_singleton, Hfds, lookup_insert_is_Some. destruct (decide (fd_ c = fd)); naive_solver.
  - intros fd q [[<- <-]|[Hne Hq]]%lookup_insert_Some.
    + exists (set_index 1 c). rewrite lookup_insert_eq. cbn. rewrite Hr, Hw. naive_solver.
    + assert (q <> p) by (intros ->; by eapply Hfresh). rewrite lookup_insert_ne by done.
      destruct (Hch _ _ Hq) as (c' & ? & ? & ? & ? & ?). exists c'. rewrite Hr, Hw. naive_solver.
  - intros fd. rewrite elem_of_app, list_elem_of_singleton. intros [Hin| ->]; [specialize (Hmx _ Hin)|]; zcases; lia.
  - intros fd. rewrite Hr, Hw, elem_of_app, list_elem_of_singleton. naive_solver.
Qed.

Lemma update_inv s m p c ev : poller_inv (s, m) -> m !! p = Some c -> channels_ s !! fd_ c = Some p ->
  exists st', UpdateChannel p s (<[p := set_events ev c]> m) = Ok st' /\ poller_inv st'.
Proof.
  intros Hi Hc Hreg. destruct (pi_chan _ Hi _ _ Hreg) as (c' & Hc' & _ & Hix & _). cbn in Hc'. simplify_eq.
  assert (fd_ c ∈ fds_ s) as Hin by (apply (pi_fds _ Hi); cbn; eauto).
  assert (in_fd_set (fd_ c) = true) as Hset by (apply in_fd_set_true; by apply (pi_max _ Hi)).
  unfold UpdateChannel, get_channel, FD_SET, FD_CLR. rewrite lookup_insert_eq. cbn [mbind outcome_bind fd_ events_ index_ set_events].
  rewrite Hix, Hset. cbn [Z.ltb Z.compare].
  assert (forall (b : bool) (X : gset Z), exists r, (if b then Ok ({[fd_ c]} ∪ X) else Ok (X ∖ {[fd_ c]})) = Ok r /\
    (fd_ c ∈ r <-> b = true) /\ forall x, x <> fd_ c -> (x ∈ r <-> x ∈ X)) as Hupd
    by (intros [] X; eexists; split_and!; [done|set_solver..|done|set_solver|set_solver]).
  destruct (Hupd (has ev kReadEvent) (readfds_ s)) as (r & -> & Hr1 & Hr2).
  destruct (Hupd (has ev kWriteEvent) (writefds_ s)) as (w & -> & Hw1 & Hw2).
  cbn [mbind outcome_bind]. eexists. split; [done|]. destruct Hi as [Hnd Hfds Hch Hmx Hst]; cbn in *. split; cbn.
  - done.
  - intros fd. rewrite Hfds, lookup_insert_is_Some. destruct (decide (fd_ c = fd)) as [<-|]; naive_solver.
  - intros fd q [[<- <-]|[Hne Hq]]%lookup_insert_Some.
    + exists (set_events ev c). rewrite lookup_insert_eq. cbn. by rewrite Hr1, Hw1.
    + destruct (Hch _ _ Hq) as (c2 & Hc2 & Hf & ?). assert (q <> p) by (intros ->; congruence).
      exists c2. rewrite lookup_insert_ne, Hr2, Hw2 by congruence. done.
  - done.
  - intros fd. destruct (decide (fd = fd_ c)) as [->|]; [done|]. rewrite Hr2, Hw2 by done. apply Hst.
Qed.

Lemma remove_inv s m p c : poller_inv (s, m) -> m !! p = Some c -> channels_ s !! fd_ c = Some p ->
  exists s', RemoveChannel p s m = Ok s' /\ poller_inv (s', m).
Proof.
  intros Hi Hc Hreg. assert (fd_ c ∈ fds_ s) as Hin by (apply (pi_fds _ Hi); cbn; eauto).
  assert (in_fd_set (fd_ c) = true) as Hset by (apply in_fd_set_true; by apply (pi_max _ Hi)).
  unfold RemoveChannel, get_channel, FD_CLR. rewrite Hc. cbn [mbind outcome_bind]. rewrite Hset. cbn [mbind outcome_bind].
  eexists. split; [done|]. destruct Hi as [Hnd Hfds Hch Hmx Hst]; cbn in *. split; cbn.
  - by apply NoDup_filter.
  - intros fd. rewrite list_elem_of_filter, Hfds, lookup_delete_is_Some. naive_solver.
  - intros fd q [Hne Hq]%lookup_delete_Some. destruct (Hch _ _ Hq) as (c2 & ? & ? & ? & ? & ?). exists c2. set_solver.
  - intros fd [_ Hf]%list_elem_of_filter. by apply Hmx.
  - intros fd Hf. apply list_elem_of_filter. set_solver.
Qed.

Lemma poller_exec_inv st o : poller_inv st -> op_legal st o -> exists st', poller_exec st o = Ok st' /\ poller_inv st'.
Proof.
  destruct st as [s m]. intros Hi Ho. destruct o as [p fd ge gr gt|p i|p]; cbn [poller_exec op_legal fst snd] in *.
  - eexists. split; [done|]. destruct Hi as [Hnd Hfds Hch Hmx Hst]. split; cbn in *; try done.
    intros fd' q Hq. destruct (Hch _ _ Hq) as (c & ? & ?). exists c. rewrite lookup_insert_ne; [done|]. intros ->. naive_solver.
  - destruct Ho as (c & Hc & Hcase). unfold get_channel. rewrite Hc. cbn [mbind outcome_bind].
    destruct Hcase as [(Hix & Hno & Hfd)|Hreg]; [|by apply update_inv].
    assert (forall fd, channels_ s !! fd <> Some p) as Hfresh.
    { intros fd Hp. destruct (pi_chan _ Hi _ _ Hp) as (c' & Hc' & _ & Hix' & _). cbn in Hc'. congruence. }
    apply (register_inv s _ p (set_events (change_events i (events_ c)) c)); try done; [|by rewrite lookup_insert_eq].
    destruct Hi as [Hnd Hfds Hch Hmx Hst]. split; cbn in *; try done. intros fd q Hq. destruct (Hch _ _ Hq) as (c' & ? & ?).
    exists c'. rewrite lookup_insert_ne; [done|]. intros ->. by eapply Hfresh.
  - destruct Ho as (c & Hc & Hreg). destruct (remove_inv s m p c Hi Hc Hreg) as (s' & -> & Hi'). by eexists.
Qed.

Fixpoint ops_legal (st : SelectPoller * store) (os : list poller_op) : Prop :=
  match os with
  | [] => True
  | o :: os' => op_legal st o /\ forall st', poller_exec st o = Ok st' -> ops_legal st' os'
  end.

Lemma poller_run_inv os : forall st, poller_inv st -> ops_legal st os ->
  exists st', foldM poller_exec st os = Ok st' /\ poller_inv st'.
Proof.
  induction os as [|o os IH]; intros st Hi Hl; cbn [foldM]; [by exists st|]. destruct Hl as [Ho Hl].
  destruct (poller_exec_inv st o Hi Ho) as (st' & E & Hi'). rewrite E. cbn. apply IH; [done|by apply Hl].
Qed.

Lemma poller_inv_ctor : poller_inv (SelectPoller_ctor, ∅).
Proof.
  split; cbn; intros *; rewrite ?lookup_empty; try done; try constructor; set_solver.
Qed.

(** ** What a poll reports *)

(** The sets handed to [select] are the interest of the registered channels. *)
Lemma interest_set_ok st (X : gset Z) : poller_inv st ->
  exists R, interest_set st.1 X = Ok R /\ forall fd, fd ∈ R <-> fd ∈ fds_ st.1 /\ fd ∈ X.
Proof.
  intros Hi. unfold interest_set. assert (Forall (fun fd => in_fd_set fd = true) (fds_ st.1)) as Hok
    by (rewrite Forall_forall; intros fd Hfd; apply in_fd_set_true; by apply (pi_max _ Hi)).
  assert (forall l acc, Forall (fun fd => in_fd_set fd = true) l -> exists R,
    foldM (interest_add X) acc l = Ok R /\
    forall fd, fd ∈ R <-> fd ∈ acc \/ (fd ∈ l /\ fd ∈ X)) as H.
  { induction l as [|fd l IH]; intros acc Hl; cbn [foldM]; [exists acc; split; [done|set_solver]|].
    apply Forall_cons in Hl as [Hfd Hl]. 
    assert (interest_add X acc fd = Ok (if bool_decide (fd ∈ X) then {[fd]} ∪ acc else acc)) as ->
      by (unfold interest_add, FD_ISSET, FD_SET; rewrite Hfd; cbn; by case_bool_decide).
    cbn [mbind outcome_bind]. case_bool_decide as Hx; [destruct (IH ({[fd]} ∪ acc) Hl) as (R & -> & HR)|destruct (IH acc Hl) as (R & -> & HR)];
      exists R; (split; [done|]); intros x; rewrite HR, elem_of_cons; [set_solver|]. split; [tauto|].
    intros [?|[[->|?] ?]]; tauto. }
  destruct (H (fds_ st.1) ∅ Hok) as (R & -> & HR). exists R. split; [done|]. set_solver.
Qed.

(** Both ready: the write event replaces the read event. *)
Definition mark (r w : gset Z) (c : Channel) : Channel :=
  if decide (fd_ c ∈ w) then set_revents kWriteEvent c else if decide (fd_ c ∈ r) then set_revents kReadEvent c else c.

Definition ready_channel (s : SelectPoller) (r w : gset Z) (fd : Z) : option Z :=
  if decide (fd ∈ r \/ fd ∈ w) then channels_ s !! fd else None.

Lemma fill_one_ok s m active r w fd p c : channels_ s !! fd = Some p -> m !! p = Some c -> fd_ c = fd -> 0 <= fd < FD_SETSIZE ->
  fill_one r w (s, m, active) fd =
    Ok (s, <[p := mark r w c]> m, active ++ option_list (ready_channel s r w fd)).
Proof.
  intros Hp Hc Hfd Hb. unfold fill_one, FD_ISSET, ready_channel, mark. rewrite Hp, in_fd_set_true by done.
  change (default 0 (Some p)) with p. cbn [mbind outcome_bind].
  rewrite (insert_id _ _ _ Hp), Hfd. unfold get_channel.
  assert (mkSelectPoller (channels_ s) (readfds_ s) (writefds_ s) (fds_ s) (max_fd_ s) = s) as -> by (by destruct s).
  destruct (decide (fd ∈ r)) as [Hr|Hr], (decide (fd ∈ w)) as [Hw|Hw];
    rewrite ?(bool_decide_eq_true_2 (fd ∈ r)), ?(bool_decide_eq_false_2 (fd ∈ r)),
            ?(bool_decide_eq_true_2 (fd ∈ w)), ?(bool_decide_eq_false_2 (fd ∈ w)) by done;
    repeat (progress (cbn [mbind outcome_bind orb]; rewrite ?Hc, ?lookup_insert_eq));
    rewrite ?(decide_True (P := fd ∈ r \/ fd ∈ w)), ?(decide_False (P := fd ∈ r \/ fd ∈ w)) by tauto.
  - by rewrite insert_insert_eq.
  - done.
  - done.
  - by rewrite (insert_id _ _ _ Hc), app_nil_r.
Qed.

Lemma fill_list s r w l : forall m active, NoDup l ->
  (forall fd, fd ∈ l -> exists p c, channels_ s !! fd = Some p /\ m !! p = Some c /\ fd_ c = fd /\ 0 <= fd < FD_SETSIZE) ->
  exists m', foldM (fill_one r w) (s, m, active) l = Ok (s, m', active ++ omap (ready_channel s r w) l) /\
    forall fd p c, channels_ s !! fd = Some p -> m !! p = Some c -> fd_ c = fd -> m' !! p = Some (if decide (fd ∈ l) then mark r w c else c).
Proof.
  induction l as [|fd l IH]; intros m active Hnd Hl; cbn [foldM].
  - exists m. split; [by rewrite app_nil_r|]. intros fd p c _ Hc _. rewrite decide_False; [done|by apply not_elem_of_nil].
  - apply NoDup_cons in Hnd as [Hn Hnd]. destruct (Hl fd) as (p & c & Hp & Hc & Hfd & Hb); [by left|].
    rewrite (fill_one_ok s m active r w fd p c) by done. cbn [mbind outcome_bind].
    assert (fd_ (mark r w c) = fd) as Hmf by (unfold mark; by repeat case_decide).
    destruct (IH (<[p := mark r w c]> m) (active ++ option_list (ready_channel s r w fd)) Hnd) as (m' & -> & Hm').
    { intros fd' Hin. destruct (Hl fd') as (p' & c' & ? & ? & ? & ?); [by right|]. exists p', c'. rewrite lookup_insert_ne; [done|]. intros ->.
      assert (c = c') by congruence. subst c'. apply Hn. congruence. }
    exists m'. split; [rewrite <- app_assoc; do 3 f_equal; cbn; by destruct (ready_channel s r w fd)|].
    intros fd' p' c' Hp' Hc' Hf'. destruct (decide (fd' = fd)) as [->|Hne].
    + assert (p' = p) as -> by congruence. assert (c' = c) as -> by congruence.
      rewrite (Hm' fd p (mark r w c)) by (try done; apply lookup_insert_eq). rewrite decide_False, decide_True by (done || by left). done.
    + assert (p' <> p) by (intros ->; congruence). rewrite (Hm' fd' p' c') by (try done; by rewrite lookup_insert_ne).
      destruct (decide (fd' ∈ l)); [rewrite decide_True by (by right)|rewrite decide_False by set_solver]; done.
Qed.

(** The select poller under any sequence of registrations, changes of
    interest and removals that never reuses a descriptor without removing its
    channel: nothing leaves the descriptor sets, [select] is asked about
    exactly the descriptors whose channels are interested, and for any answer
    the active channels are the ready ones, once each, in the order of their
    registration; a channel that is ready for both is told of the write
    only. *)
Lemma select_poller_exact (os : list poller_op) (select : gset Z -> gset Z -> Z -> select_result) :
  ops_legal (SelectPoller_ctor, ∅) os ->
  exists s m, foldM poller_exec (SelectPoller_ctor, ∅) os = Ok (s, m) /\
    exists R W, (forall fd, (fd ∈ R \/ fd ∈ W) -> fd < max_fd_ s + 1) /\
      (forall fd p c, channels_ s !! fd = Some p -> m !! p = Some c ->
         (fd ∈ R <-> has (events_ c) kReadEvent = true) /\ (fd ∈ W <-> has (events_ c) kWriteEvent = true)) /\
      match select R W (max_fd_ s + 1) with
      | SelectReady r w =>
          exists m', Poll select s m = Ok (s, m', omap (ready_channel s r w) (fds_ s)) /\ NoDup (fds_ s) /\
            forall fd p c, channels_ s !! fd = Some p -> m !! p = Some c -> m' !! p = Some (mark r w c)
      | _ => Poll select s m = Ok (s, m, [])
      end.
Proof.
  intros Hl. destruct (poller_run_inv os _ poller_inv_ctor Hl) as ([s m] & E & Hi). exists s, m. split; [done|].
  destruct (interest_set_ok (s, m) (readfds_ s) Hi) as (R & ER & HR), (interest_set_ok (s, m) (writefds_ s) Hi) as (W & EW & HW).
  cbn [fst] in *. exists R, W. split_and!.
  - intros fd Hfd. assert (fd ∈ fds_ s) as Hin by set_solver. apply (pi_max _ Hi) in Hin. cbn in Hin. lia.
  - intros fd p c Hp Hc. destruct (pi_chan _ Hi _ _ Hp) as (c' & Hc' & _ & _ & H1 & H2). cbn in Hc', H1, H2. simplify_eq.
    assert (fd ∈ fds_ s) by (apply (pi_fds _ Hi); cbn; eauto). rewrite HR, HW. tauto.
  - unfold Poll. rewrite ER, EW. cbn [mbind outcome_bind].
    destruct (select R W (max_fd_ s + 1)) as [e| |r w]; [done|done|]. unfold FillActiveChannels.
    destruct (fill_list s r w (fds_ s) m [] (pi_nodup _ Hi)) as (m' & -> & Hm').
    { intros fd Hin. pose proof (pi_max _ Hi _ Hin) as [Hb _]. apply (pi_fds _ Hi) in Hin as [p Hp]. cbn in Hp.
      destruct (pi_chan _ Hi _ _ Hp) as (c & ? & ? & _). by exists p, c. }
    exists m'. split_and!; [done|apply (pi_nodup _ Hi)|]. intros fd p c Hp Hc. destruct (pi_chan _ Hi _ _ Hp) as (c' & Hc' & Hf & _). cbn in Hc'. simplify_eq.
    rewrite (Hm' (fd_ c) p c) by done. rewrite decide_True; [done|]. apply (pi_fds _ Hi). cbn. eauto.
Qed.

Definition sample_ops : list poller_op :=
  [PNew 100 5 0 0 false; PChange 100 EnableReading; PNew 200 7 0 0 false; PChange 200 EnableReading; PChange 200 EnableWriting; PRemove 100].

(** A kernel for which everything asked about is ready. *)
Definition all_ready (r w : gset Z) (n : Z) : select_result := SelectReady r w.

Lemma select_poller_exact_witness :
  exists s m m', foldM poller_exec (SelectPoller_ctor, ∅) sample_ops = Ok (s, m) /\ Poll all_ready s m = Ok (s, m', [200]) /\
    (HandleEvent <$> m' !! 200) = Some [WriteCallback].
Proof.
  assert (ops_legal (SelectPoller_ctor, ∅) sample_ops) as Hl.
  { unfold sample_ops. cbn [ops_legal op_legal]. split; [done|]. intros ? [= <-].
    split; [eexists; split; [reflexivity|left; done]|]. intros st2 E2. vm_compute in E2. injection E2 as <-.
    split; [done|]. intros ? [= <-]. split; [eexists; split; [vm_compute; reflexivity|left; done]|].
    intros st4 E4. vm_compute in E4. injection E4 as <-. split; [eexists; split; [vm_compute; reflexivity|right; done]|].
    intros st5 E5. vm_compute in E5. injection E5 as <-. split; [eexists; split; [vm_compute; reflexivity|done]|done]. }
  destruct (select_poller_exact sample_ops all_ready Hl) as (s & m & E & R & W & _ & _ & Hp).
  vm_compute in E. injection E as <- <-. cbn in Hp. destruct Hp as (m' & Hp & _). vm_compute in Hp.
  do 3 eexists. split; [vm_compute; reflexivity|]. split; vm_compute; reflexivity.
Defined.

(** A channel for a descriptor whose previous channel was not removed is
    reported twice by every poll. *)
Lemma select_reuse_duplicates s m p c : poller_inv (s, m) -> m !! p = Some c -> index_ c = -1 -> fd_ c ∈ fds_ s ->
  exists s' m', UpdateChannel p s m = Ok (s', m') /\ fds_ s' = fds_ s ++ [fd_ c] /\
    forall r w, fd_ c ∈ r -> (2 <= length (filter (fun x => x = p) (omap (ready_channel s' r w) (fds_ s'))))%nat.
Proof.
  intros Hi Hc Hix Hin. unfold UpdateChannel, get_channel, FD_SET. rewrite Hc. cbn [mbind outcome_bind].
  rewrite Hix, in_fd_set_true by (by apply (pi_max _ Hi)). cbn [Z.ltb Z.compare].
  set (rs := if has (events_ c) kReadEvent then Ok ({[fd_ c]} ∪ readfds_ s) else Ok (readfds_ s)).
  set (ws := if has (events_ c) kWriteEvent then Ok ({[fd_ c]} ∪ writefds_ s) else Ok (writefds_ s)).
  assert (exists x y, rs = Ok x /\ ws = Ok y) as (x & y & -> & ->)
    by (subst rs ws; destruct (has (events_ c) kReadEvent), (has (events_ c) kWriteEvent); eauto).
  cbn [mbind outcome_bind]. do 2 eexists. split; [done|]. split; [done|]. intros r w Hr. cbn [fds_].
  match goal with |- context [ready_channel ?S r w] => set (s' := S) end.
  assert (ready_channel s' r w (fd_ c) = Some p) as Hp
    by (unfold ready_channel; rewrite decide_True by auto; cbn; apply lookup_insert_eq).
  assert (omap (ready_channel s' r w) [fd_ c] = [p]) as He by (cbn; by rewrite Hp).
  rewrite omap_app, filter_app, length_app, He, filter_cons_True by done.
  assert (p ∈ filter (fun x => x = p) (omap (ready_channel s' r w) (fds_ s))) as Hf.
  { apply list_elem_of_filter. split; [done|]. apply list_elem_of_omap. by exists (fd_ c). }
  destruct (filter _ (omap _ (fds_ s))) as [|? ?]; [by apply not_elem_of_nil in Hf|]. cbn [length]. lia.
Qed.

(** A channel whose [tied_] happens to start as true handles no event. *)
Lemma garbage_tied_ignored ge gr fd ev : HandleEvent (set_revents ev (Channel_ctor ge gr true fd)) = [].
Proof. done. Qed.
