(* ===== verification/ReactorActor.v ===== *)
(** * Loops and workers of the reactor library: src/Reactors/net/actor.h,
    actor.cc, eventloopthread.h, eventloopthread.cc, workers.h

    An actor runs one thread's loop: it polls, lets the active channels handle
    their events, and runs the functors other threads queued when [pending_]
    says so. An event-loop thread adds an eventfd whose channel sets
    [pending_]. Steps of the loop and of other threads interleave at the
    accesses to the shared queue and the eventfd. Functors are identified by
    number, running one records it. *)

From S2P Require Import Prelude Monitor Mutex.

(** ** Actor *)

(** What an active channel does: the notification channel calls
    [ReadNotifyEvents], another one runs its callbacks, which may hand
    functors to the loop they run in. *)
Inductive active_event : Type :=
| ENotify
| EOther (direct : list Z).

(** Where the loop is: at the top, among its active channels, before the swap
    of [DoPendingFunctors], or among the functors it swapped out. *)
Inductive loop_pc : Type :=
| PcTop
| PcHandle (active : list active_event)
| PcSwap
| PcRun (tmp : list Z).

Record Actor : Type := mkActor {
  pending_ : bool;
  queue_ : list Z;
  notify_fd_ : Z;
  writing : nat;
  pc : loop_pc;
  ran : list Z;
  ran_direct : list Z;
}.

(** [pending_] is not initialised. *)
Definition Actor_ctor (garbage_pending : bool) : Actor := mkActor garbage_pending [] 0 0 PcTop [] [].

Definition SetPending (a : Actor) : Actor := mkActor true (queue_ a) (notify_fd_ a) (writing a) (pc a) (ran a) (ran_direct a).
Definition set_pc p (a : Actor) : Actor := mkActor (pending_ a) (queue_ a) (notify_fd_ a) (writing a) p (ran a) (ran_direct a).

(** The part under the lock. *)
Definition QueueInActor (func : Z) (a : Actor) : Actor :=
  mkActor (pending_ a) (queue_ a ++ [func]) (notify_fd_ a) (writing a) (pc a) (ran a) (ran_direct a).

(** [QueueInLoop] in the loop's own thread runs the functor; in another it
    queues it, and the write to the eventfd is still to come. *)
Definition QueueInLoop (in_loop : bool) (func : Z) (a : Actor) : Actor :=
  if in_loop
  then mkActor (pending_ a) (queue_ a) (notify_fd_ a) (writing a) (pc a) (ran a) (ran_direct a ++ [func])
  else let a' := QueueInActor func a in
       mkActor (pending_ a') (queue_ a') (notify_fd_ a') (S (writing a')) (pc a') (ran a') (ran_direct a').

(** The write to the eventfd of one of the threads that still have to. *)
Definition NotifyEvent (a : Actor) : Actor :=
  match writing a with
  | O => a
  | S n => mkActor (pending_ a) (queue_ a) (notify_fd_ a + 1) n (pc a) (ran a) (ran_direct a)
  end.

(** Reading the eventfd takes its whole count; a count of zero is an error. *)
Definition ReadNotifyEvents (a : Actor) : Actor :=
  if notify_fd_ a =? 0 then a
  else SetPending (mkActor (pending_ a) (queue_ a) 0 (writing a) (pc a) (ran a) (ran_direct a)).

Definition HandleEvent (e : active_event) (a : Actor) : Actor :=
  match e with
  | ENotify => ReadNotifyEvents a
  | EOther direct => foldl (fun a f => QueueInLoop true f a) a direct
  end.

(** The steps of [DoPendingFunctors]: the swap under the lock, the functors,
    the reset of [pending_]. *)
Definition DoPendingFunctors_step (a : Actor) : Actor :=
  match pc a with
  | PcSwap => mkActor (pending_ a) [] (notify_fd_ a) (writing a) (PcRun (queue_ a)) (ran a) (ran_direct a)
  | PcRun (f :: tmp) => mkActor (pending_ a) (queue_ a) (notify_fd_ a) (writing a) (PcRun tmp) (ran a ++ [f]) (ran_direct a)
  | PcRun [] => mkActor false (queue_ a) (notify_fd_ a) (writing a) PcTop (ran a) (ran_direct a)
  | _ => a
  end.

(** The next step of the loop's thread; [active] is what [Poll] found, if the
    loop is about to poll. *)
Definition loop_step (active : list active_event) (a : Actor) : Actor :=
  match pc a with
  | PcTop => set_pc (PcHandle active) a
  | PcHandle (e :: es) => set_pc (PcHandle es) (HandleEvent e a)
  | PcHandle [] => set_pc (if pending_ a then PcSwap else PcTop) a
  | PcSwap | PcRun _ => DoPendingFunctors_step a
  end.

Inductive actor_label : Type :=
| ALoop (active : list active_event)
| AQueue (func : Z)
| ANotify
| AQueueOnly (func : Z).

(** [AQueueOnly]: [QueueInActor] on an actor that no event-loop thread owns. *)
Definition actor_step (a : Actor) (l : actor_label) : Actor :=
  match l with
  | ALoop active => loop_step active a
  | AQueue func => QueueInLoop false func a
  | ANotify => NotifyEvent a
  | AQueueOnly func => QueueInActor func a
  end.

Definition actor_run (a : Actor) (ls : list actor_label) : Actor := foldl actor_step a ls.

(** The functors given to the actor, in order. *)
Definition queued_by (l : actor_label) : list Z :=
  match l with AQueue f | AQueueOnly f => [f] | _ => [] end.

(** ** Nothing is lost, repeated or reordered *)

Definition swapped (p : loop_pc) : list Z := match p with PcRun tmp => tmp | _ => [] end.

Lemma direct_frame fs a : let a' := foldl (fun a f => QueueInLoop true f a) a fs in
  pending_ a' = pending_ a /\ queue_ a' = queue_ a /\ notify_fd_ a' = notify_fd_ a /\ writing a' = writing a /\ pc a' = pc a /\ ran a' = ran a.
Proof. revert a. induction fs as [|f fs IH]; intros a; cbn [foldl]; [done|]. destruct (IH (QueueInLoop true f a)) as (? & ? & ? & ? & ? & ?). naive_solver. Qed.

Lemma HandleEvent_frame e a :
  queue_ (HandleEvent e a) = queue_ a /\ writing (HandleEvent e a) = writing a /\ ran (HandleEvent e a) = ran a /\
  (pending_ a = true -> pending_ (HandleEvent e a) = true) /\
  (0 <= notify_fd_ a -> 0 <= notify_fd_ (HandleEvent e a)) /\
  (0 < notify_fd_ a -> 0 < notify_fd_ (HandleEvent e a) \/ pending_ (HandleEvent e a) = true).
Proof.
  destruct e as [|fs]; cbn [HandleEvent].
  - unfold ReadNotifyEvents. destruct (Z.eqb_spec (notify_fd_ a) 0); cbn; split_and!; try done; intros; try lia; by right.
  - destruct (direct_frame fs a) as (-> & -> & -> & -> & _ & ->). naive_solver.
Qed.

Lemma fifo_step a l : ran (actor_step a l) ++ swapped (pc (actor_step a l)) ++ queue_ (actor_step a l) =
  (ran a ++ swapped (pc a) ++ queue_ a) ++ queued_by l.
Proof.
  destruct l as [active|f| |f]; cbn [actor_step queued_by].
  - rewrite app_nil_r. unfold loop_step, DoPendingFunctors_step. destruct (pc a) as [|[|e es]| |[|f tmp]] eqn:Ep; cbn; rewrite ?Ep; cbn.
    + done.
    + by destruct (pending_ a).
    + by destruct (HandleEvent_frame e a) as (-> & _ & -> & _).
    + by rewrite app_nil_r.
    + done.
    + by rewrite <- app_assoc.
  - cbn. by rewrite <- !app_assoc.
  - unfold NotifyEvent. destruct (writing a); cbn; by rewrite app_nil_r.
  - cbn. by rewrite <- !app_assoc.
Qed.

Lemma fifo_run ls : forall a, ran (actor_run a ls) ++ swapped (pc (actor_run a ls)) ++ queue_ (actor_run a ls) =
  (ran a ++ swapped (pc a) ++ queue_ a) ++ (ls ≫= queued_by).
Proof.
  induction ls as [|l ls IH]; intros a; cbn; [by rewrite app_nil_r|]. unfold actor_run in *. rewrite IH, fifo_step.
  by rewrite <- !app_assoc.
Qed.

(** ** The loop does not sleep on queued functors *)

(** Some thread has yet to write, the eventfd is readable, or the loop will
    get to the queue without polling. *)
Definition will_run (a : Actor) : Prop :=
  (0 < writing a)%nat \/ 0 < notify_fd_ a \/ (pending_ a = true /\ match pc a with PcHandle _ => True | _ => False end) \/ pc a = PcSwap.

Definition awake_inv (a : Actor) : Prop := 0 <= notify_fd_ a /\ (queue_ a <> [] -> will_run a).

Definition notifies (l : actor_label) : Prop := match l with AQueueOnly _ => False | _ => True end.

Lemma awake_step a l : awake_inv a -> notifies l -> awake_inv (actor_step a l).
Proof.
  intros [Hn Hq] Hl. unfold will_run in Hq. destruct l as [active|f| |f]; cbn [actor_step]; [| | |done].
  - unfold loop_step, DoPendingFunctors_step. destruct (pc a) as [|[|e es]| |[|f tmp]] eqn:Ep; (split; [|intros Hne; unfold will_run]); cbn in *; try done.
    + naive_solver.
    + destruct (pending_ a); naive_solver.
    + by destruct (HandleEvent_frame e a) as (_ & _ & _ & _ & H & _); apply H.
    + destruct (HandleEvent_frame e a) as (H1 & H2 & _ & H3 & _ & H4). rewrite H1 in Hne. rewrite H2. naive_solver.
    + naive_solver.
    + naive_solver.
  - split; [done|]. intros _. left. cbn. lia.
  - unfold NotifyEvent. destruct (writing a) eqn:Ew; [split; [done|unfold will_run; by rewrite Ew]|]. split; [cbn; lia|]. intros _. right; left. cbn. lia.
Qed.

Lemma awake_run ls : forall a, awake_inv a -> Forall notifies ls -> awake_inv (actor_run a ls).
Proof.
  induction ls as [|l ls IH]; intros a Ha Hl; [done|]. apply Forall_cons in Hl as [Hl Hls]. cbn. apply IH; [|done]. by apply awake_step.
Qed.

Lemma run_swapped tmp : forall a, pc a = PcRun tmp ->
  actor_run a (replicate (S (length tmp)) (ALoop [])) = mkActor false (queue_ a) (notify_fd_ a) (writing a) PcTop (ran a ++ tmp) (ran_direct a).
Proof.
  induction tmp as [|f tmp IH]; intros a Hp; cbn [length replicate].
  - cbn. unfold loop_step, DoPendingFunctors_step. rewrite Hp. by rewrite app_nil_r.
  - change (actor_run a (ALoop [] :: ?l)) with (actor_run (loop_step [] a) l). unfold loop_step, DoPendingFunctors_step. rewrite Hp.
    rewrite IH by done. cbn. by rewrite <- app_assoc.
Qed.

(** One turn of the loop that starts with the eventfd readable. *)
Definition notified_turn (a : Actor) : list actor_label :=
  replicate 4 (ALoop [ENotify]) ++ replicate (S (length (queue_ a))) (ALoop []).

Lemma notified_turn_runs a : pc a = PcTop -> 0 < notify_fd_ a ->
  ran (actor_run a (notified_turn a)) = ran a ++ queue_ a /\ queue_ (actor_run a (notified_turn a)) = [].
Proof.
  destruct a as [pe q n w p r rd]. cbn [pc notify_fd_]. intros -> Hn. unfold notified_turn, actor_run. rewrite foldl_app. cbn [queue_].
  assert (foldl actor_step (mkActor pe q n w PcTop r rd) (replicate 4 (ALoop [ENotify])) = mkActor true [] 0 w (PcRun q) r rd) as ->.
  { destruct n as [|n|n]; [lia|done|lia]. }
  pose proof (run_swapped q (mkActor true [] 0 w (PcRun q) r rd) eq_refl) as H. unfold actor_run in H. by rewrite H.
Qed.

(** Functors handed to an event-loop thread by any number of other
    threads, whatever the interleaving and whatever [pending_] held at first:
    they run once each, in the order they were queued, and none is forgotten -
    when the loop is about to poll, some are still queued and every thread has
    finished its call, the eventfd is readable, and the turn that reads it
    runs them all. *)
Lemma actor_runs_all (garbage : bool) (ls : list actor_label) (a : Actor) :
  Forall notifies ls -> a = actor_run (Actor_ctor garbage) ls ->
  ls ≫= queued_by = ran a ++ swapped (pc a) ++ queue_ a /\
  (pc a = PcTop -> queue_ a <> [] -> writing a = 0%nat ->
     0 < notify_fd_ a /\ ran (actor_run a (notified_turn a)) = ls ≫= queued_by).
Proof.
  intros Hl ->. pose proof (fifo_run ls (Actor_ctor garbage)) as Hf. cbn in Hf. split; [done|].
  assert (awake_inv (Actor_ctor garbage)) as H0 by (by split).
  destruct (awake_run ls _ H0 Hl) as [Hn Hq]. intros Hp Hne Hw. specialize (Hq Hne). unfold will_run in Hq. rewrite Hp, Hw in Hq.
  assert (0 < notify_fd_ (actor_run (Actor_ctor garbage) ls)) as Hpos by (destruct Hq as [?|[?|[[_ []]|?]]]; [lia|done|done]).
  split; [done|]. rewrite Hp in Hf. cbn in Hf. rewrite <- Hf. by apply notified_turn_runs.
Qed.

Lemma actor_runs_all_witness :
  let a := actor_run (Actor_ctor false) [AQueue 7; ALoop []; AQueue 8; ALoop []; ANotify; ANotify] in
  0 < notify_fd_ a /\ ran (actor_run a (notified_turn a)) = [7; 8].
Proof.
  destruct (actor_runs_all false [AQueue 7; ALoop []; AQueue 8; ALoop []; ANotify; ANotify] _ ltac:(repeat constructor) eq_refl) as [_ H].
  apply H; [reflexivity|vm_compute; discriminate|reflexivity].
Defined.

(** ** Starting an event-loop thread *)

Definition STOPPED : Z := 0.
Definition STARTED : Z := 1.

(** The two blocks under [mutex_]: the wait of [Run] and the store of
    [ThreadLoopFunc]. The data is [state_], which the constructor does not
    initialise. *)
Inductive start_call : Set := RunWait | LoopStarted.

Definition start_attempt (state : Z) (c : start_call) : outcome (segment (D := Z) (Res := unit) (Cv := unit)) :=
  match c with
  | RunWait => if state =? STARTED then Ok (Returns state tt []) else Ok (Waits tt)
  | LoopStarted => Ok (Returns STARTED tt [NotifyOne tt])
  end.

Definition has_started (log : list (Z * start_call * unit)) : Prop := exists t, (t, LoopStarted, tt) ∈ log.

(** [Run] returned only after the thread stored STARTED. *)
Definition start_inv (garbage state : Z) (log : list (Z * start_call * unit)) : Prop :=
  (has_started log /\ state = STARTED \/ state = garbage) /\
  forall l1 t r l2, log = l1 ++ (t, RunWait, r) :: l2 -> has_started l1.

Lemma start_keeps garbage state log t c state' r ns : garbage <> STARTED -> start_inv garbage state log ->
  start_attempt state c = Ok (Returns state' r ns) -> start_inv garbage state' (log ++ [(t, c, r)]).
Proof.
  intros Hg [Hs Hw] E. split.
  - destruct c; cbn in E.
    + destruct (Z.eqb_spec state STARTED); [|done]. injection E as <- <- <-. destruct Hs as [[(t' & Ht) ->]|Hs]; [left|by right]. split; [|done]. exists t'. set_solver.
    + injection E as <- <- <-. left. split; [|done]. exists t. set_solver.
  - intros l1 t' r' l2 Hl. destruct l2 as [|x l2 _] using rev_ind.
    + apply app_inj_tail in Hl as [-> [= -> -> ->]]. cbn in E. destruct (Z.eqb_spec state STARTED) as [->|]; [|done]. destruct Hs as [[H _]|H]; [done|congruence].
    + rewrite app_comm_cons, app_assoc in Hl. apply app_inj_tail in Hl as [-> _]. by eapply Hw.
Qed.

(** However the owner and the thread interleave, [Run] returns after the thread
    is in its loop function, unless [state_] happened to hold STARTED. *)
Lemma run_returns_started garbage (ls : list (cstep (Call := start_call))) : garbage <> STARTED ->
  exists s, foldM (sys_step start_attempt) (sys_init garbage) ls = Ok s /\
    forall l1 t r l2, returned (mon s) = l1 ++ (t, RunWait, r) :: l2 -> has_started l1.
Proof.
  intros Hg. apply (locks_transfer start_attempt (fun m => forall l1 t r l2, returned m = l1 ++ (t, RunWait, r) :: l2 -> has_started l1)). intros mls.
  destruct (monitor_run_keeps start_attempt (start_inv garbage)) with (ls := mls) (d := garbage) as (m & E & _ & HP).
  - intros d log [] _; cbn; [destruct (_ =? _)|]; eauto.
  - intros. by eapply start_keeps.
  - split; [by right|]. intros l1 t r l2 H. by destruct l1.
  - by exists m.
Qed.

(** The store wakes the owner if it waits, and from then on [Run] does not
    wait. *)
Lemma started_wakes t pick m w : waiting m = [w] ->
  exists m', run_segment start_attempt t LoopStarted pick m = Ok m' /\ waiting m' = [] /\ w ∈ woken m' /\
    start_attempt (data m') RunWait = Ok (Returns STARTED tt []).
Proof.
  intros Hw. unfold run_segment. cbn [start_attempt mbind outcome_bind]. eexists. split; [done|]. cbn [foldr].
  assert (choose tt pick [w] = Some (0%nat, w)) as Hc.
  { destruct (choose tt pick [w]) as [[i x]|] eqn:Ec.
    - apply choose_some in Ec as [Hi _]. apply list_lookup_singleton_Some in Hi as [-> ->]. done.
    - assert (w_cv w = tt) as Hcv by (by destruct (w_cv w)). apply choose_none in Ec. rewrite cv_count_one, decide_True in Ec by done. done. }
  cbn [wake waiting]. rewrite Hw, Hc. cbn. split_and!; [done|set_solver|done].
Qed.

(** A thread object whose memory held STARTED: [Run] does not wait. *)
Lemma run_may_not_wait : exists s, foldM (sys_step start_attempt) (sys_init STARTED) (CCall 5 RunWait :: replicate 6 (CRun 5 0)) = Ok s /\
  returned (mon s) = [(5, RunWait, tt)].
Proof. eexists. split; vm_compute; reflexivity. Qed.
