(* ===== verification/ReactorWorkers.v ===== *)
(** * Worker threads of the reactor library: src/Reactors/net/workers.h

    A list of jobs under one mutex and one condition. [QueueJob] and the loop
    of [Worker::Work] up to the job it takes are the member functions of a
    monitor; jobs are numbers. *)

From S2P Require Import Prelude Monitor.

Inductive worker_cv : Set := condition_.

#[export] Instance worker_cv_eq_dec : EqDecision worker_cv.
Proof. solve_decision. Defined.

(** [GetJob]: one turn of the loop of [Work], until the job it will run. *)
Inductive worker_call : Type :=
| QueueJob (job : Z)
| GetJob.

Inductive worker_result : Type :=
| WVoid
| WJob (job : Z).

Abbreviation worker_segment := (segment (D := list Z) (Res := worker_result) (Cv := worker_cv)).

Definition queue_job (job : Z) (job_list_ : list Z) : worker_segment :=
  Returns (job_list_ ++ [job]) WVoid [NotifyOne condition_].

Definition work_turn (job_list_ : list Z) : worker_segment :=
  match job_list_ with
  | [] => Waits condition_
  | job :: rest => Returns rest (WJob job) []
  end.

Definition worker_attempt (job_list_ : list Z) (c : worker_call) : outcome worker_segment :=
  match c with
  | QueueJob job => Ok (queue_job job job_list_)
  | GetJob => Ok (work_turn job_list_)
  end.

(** [StartWork]: the counter is a [uint8_t], [worker_num_] a [uint32_t]. The
    identifiers of the workers started; no answer when the fuel runs out. *)
Fixpoint start_loop (fuel : nat) (worker_num_ i : Z) (started : list Z) : option (list Z) :=
  match fuel with
  | O => None
  | S f => if i <? worker_num_ then start_loop f worker_num_ ((i + 1) mod 256) (started ++ [i]) else Some started
  end.

Definition StartWork (fuel : nat) (worker_num : Z) : option (list Z) := start_loop fuel (u32 worker_num) 0 [].

(** ** Jobs *)

Definition queued_jobs (log : list (Z * worker_call * worker_result)) : list Z :=
  omap (fun e => match e with (_, QueueJob j, _) => Some j | _ => None end) log.

Definition taken_jobs (log : list (Z * worker_call * worker_result)) : list Z :=
  omap (fun e => match e with (_, GetJob, WJob j) => Some j | _ => None end) log.

Definition worker_waits_on (c : worker_call) : option worker_cv :=
  match c with GetJob => Some condition_ | QueueJob _ => None end.

#[export] Instance worker_notifies : NotifiesEnough worker_attempt worker_waits_on (fun jobs _ => length jobs).
Proof.
  split.
  - intros jobs [j|] cv; cbn; [done|]. by destruct jobs; intros [= <-].
  - intros jobs c jobs' r ns [] E _. right. destruct c as [j|]; cbn in E.
    + injection E as <- <- <-. rewrite ones_one, length_app. cbn. case_decide; [done|lia].
    + destruct jobs as [|j jobs]; [done|]. injection E as <- <- <-. rewrite decide_True by done. cbn. lia.
Qed.

Lemma jobs_run ls : exists m, foldM (monitor_step worker_attempt) (monitor_init []) ls = Ok m /\
  queued_jobs (returned m) = taken_jobs (returned m) ++ data m.
Proof.
  apply (monitor_run_keeps worker_attempt (fun jobs log => queued_jobs log = taken_jobs log ++ jobs)); [| |done].
  - intros jobs log [j|] _; cbn; [by eauto|]. destruct jobs; eauto.
  - unfold queued_jobs, taken_jobs. intros jobs log t [j|] jobs' r ns HP; cbn; rewrite !omap_app, HP; cbn.
    + intros [= <- <- <-]. by rewrite <- !app_assoc.
    + destruct jobs as [|j jobs]; [done|]. intros [= <- <- <-]. by rewrite <- !app_assoc, app_nil_r.
Qed.

Lemma start_loop_S f n i started :
  start_loop (S f) n i started = if i <? n then start_loop f n ((i + 1) mod 256) (started ++ [i]) else Some started.
Proof. done. Qed.

Lemma start_loop_ok n : 0 <= n <= 255 -> forall k i started, Z.of_nat k = n - i -> 0 <= i ->
  start_loop (S k) n i started = Some (started ++ ((fun d => i + Z.of_nat d) <$> seq 0 k)).
Proof.
  intros Hn. induction k as [|k IH]; intros i started Hk Hi; rewrite start_loop_S.
  - destruct (Z.ltb_spec i n); [lia|]. by rewrite app_nil_r.
  - destruct (Z.ltb_spec i n); [|lia]. rewrite Z.mod_small by lia.
    rewrite IH by lia. rewrite <- app_assoc. do 2 f_equal. cbn.
    rewrite Z.add_0_r. f_equal. rewrite <- fmap_S_seq, <- list_fmap_compose. apply list_fmap_ext. intros _ d _. cbn. lia.
Qed.

Lemma start_loop_diverges n : 256 <= n -> forall fuel i started, 0 <= i < 256 -> start_loop fuel n i started = None.
Proof.
  intros Hn. induction fuel as [|f IH]; intros i started Hi; cbn; [done|]. destruct (Z.ltb_spec i n); [|lia].
  apply IH. apply Z.mod_pos_bound. lia.
Qed.

(** Under every schedule, with spurious wakeups, jobs are taken in the
    order they were queued, each by one worker, and no job waits while idle
    workers sleep: at least as many workers are awake as there are jobs, if
    any waits. Starting up to 255 workers ends, with one worker for each
    number; starting 256 or more never ends. *)
Lemma worker_jobs_exact (ls : list (mstep (Call := worker_call))) (n : Z) : 0 <= n < 2 ^ 32 ->
  (exists m, foldM (monitor_step worker_attempt) (monitor_init []) ls = Ok m /\
    queued_jobs (returned m) = taken_jobs (returned m) ++ data m /\
    ((0 < cv_count condition_ (waiting m))%nat -> (length (data m) <= cv_count condition_ (woken m))%nat)) /\
  (if n <? 256 then StartWork (S (Z.to_nat n)) n = Some (Z.of_nat <$> seq 0 (Z.to_nat n))
   else forall fuel, StartWork fuel n = None).
Proof.
  intros Hn. split.
  - destruct (jobs_run ls) as (m & E & HP). exists m. split_and!; [done|done|]. intros Hw.
    destruct (run_progress worker_attempt worker_waits_on (fun jobs _ => length jobs) ls [] m E) as (_ & _ & H). by apply H.
  - unfold StartWork, u32. rewrite Z.mod_small by done. destruct (Z.ltb_spec n 256).
    + rewrite (start_loop_ok n) by lia. done.
    + intros fuel. apply start_loop_diverges; lia.
Qed.

Lemma worker_jobs_exact_witness : StartWork 4 3 = Some [0; 1; 2] /\ StartWork 1000 256 = None.
Proof.
  split.
  - exact (proj2 (worker_jobs_exact [] 3 ltac:(lia))).
  - exact (proj2 (worker_jobs_exact [] 256 ltac:(lia)) 1000%nat).
Defined.
