(* ===== verification/ReactorConnection.v ===== *)
(** * Connections of the reactor library: src/Reactors/net/connection.h, connection.cc

    The state, the two flags, the two buffers and the channel's interest; each
    operation takes what the kernel answers to its system call. [wire],
    [accepted], [received] and [handed] record the bytes the kernel took, the
    messages [Send] took, the bytes the kernel delivered and the bytes the
    message callback retrieved; [events] records the user's callbacks. *)

From S2P Require Import Prelude Channel ReactorBuffer.

Inductive conn_state : Set := CLOSED | CONNECTING | ESTABLISHED | CLOSING.

#[export] Instance conn_state_eq_dec : EqDecision conn_state.
Proof. solve_decision. Defined.

Inductive conn_event : Set := OnEstablished | OnMessage | OnWriteComplete | OnDisconnected | OnClosed.

Record TcpConnection : Type := mkConnection {
  state_ : conn_state;
  writeable_ : bool;
  readable_ : bool;
  interest_ : Z;
  send_buffer_ : Buffer;
  recv_buffer_ : Buffer;
  wire : list byte;
  accepted : list (list byte);
  received : list byte;
  handed : list byte;
  events : list conn_event;
}.

Definition set_state s c := mkConnection s (writeable_ c) (readable_ c) (interest_ c) (send_buffer_ c) (recv_buffer_ c)
  (wire c) (accepted c) (received c) (handed c) (events c).
Definition set_flags w r c := mkConnection (state_ c) w r (interest_ c) (send_buffer_ c) (recv_buffer_ c)
  (wire c) (accepted c) (received c) (handed c) (events c).
Definition set_interest i c := mkConnection (state_ c) (writeable_ c) (readable_ c) i (send_buffer_ c) (recv_buffer_ c)
  (wire c) (accepted c) (received c) (handed c) (events c).
Definition set_send b c := mkConnection (state_ c) (writeable_ c) (readable_ c) (interest_ c) b (recv_buffer_ c)
  (wire c) (accepted c) (received c) (handed c) (events c).
Definition set_recv b c := mkConnection (state_ c) (writeable_ c) (readable_ c) (interest_ c) (send_buffer_ c) b
  (wire c) (accepted c) (received c) (handed c) (events c).
Definition put_wire bs c := mkConnection (state_ c) (writeable_ c) (readable_ c) (interest_ c) (send_buffer_ c) (recv_buffer_ c)
  (wire c ++ bs) (accepted c) (received c) (handed c) (events c).
Definition accept_message m c := mkConnection (state_ c) (writeable_ c) (readable_ c) (interest_ c) (send_buffer_ c) (recv_buffer_ c)
  (wire c) (accepted c ++ [m]) (received c) (handed c) (events c).
Definition put_received bs c := mkConnection (state_ c) (writeable_ c) (readable_ c) (interest_ c) (send_buffer_ c) (recv_buffer_ c)
  (wire c) (accepted c) (received c ++ bs) (handed c) (events c).
Definition put_handed bs c := mkConnection (state_ c) (writeable_ c) (readable_ c) (interest_ c) (send_buffer_ c) (recv_buffer_ c)
  (wire c) (accepted c) (received c) (handed c ++ bs) (events c).
Definition callback e c := mkConnection (state_ c) (writeable_ c) (readable_ c) (interest_ c) (send_buffer_ c) (recv_buffer_ c)
  (wire c) (accepted c) (received c) (handed c) (events c ++ [e]).

Definition TcpConnection_ctor (garbage_events : Z) : outcome TcpConnection :=
  sb ← Buffer_ctor kInitialSize;
  rb ← Buffer_ctor kInitialSize;
  Ok (mkConnection CLOSED false false garbage_events sb rb [] [] [] [] []).

(** The channel's interest. *)
Definition enableReading c := set_interest (Z.lor (interest_ c) kReadEvent) c.
Definition enableWriting c := set_interest (Z.lor (interest_ c) kWriteEvent) c.
Definition disableWriting c := set_interest (Z.land (interest_ c) (Z.lnot kWriteEvent)) c.
Definition disableAll c := set_interest kNoneEvent c.

(** What [write] answers: an error, or how many bytes it took. *)
Inductive write_result : Type :=
| WriteError (errno : Z)
| WriteCount (n : Z).

Definition ConnectionEstablished (c : TcpConnection) : TcpConnection :=
  set_flags true true (set_state ESTABLISHED (enableReading (callback OnEstablished c))).

(** A failed [write] is logged and the message is not kept. *)
Definition SendInLoop (data : list byte) (w : write_result) (c : TcpConnection) : outcome TcpConnection :=
  if decide (state_ c = ESTABLISHED) then
    if 0 <? ReadableBytes (send_buffer_ c) then
      b ← append data (send_buffer_ c);
      Ok (accept_message data (set_send b c))
    else
      match w with
      | WriteCount write_cnt =>
          let c1 := put_wire (take (Z.to_nat write_cnt) data) (accept_message data c) in
          if write_cnt <? zlen data then
            b ← append (drop (Z.to_nat write_cnt) data) (send_buffer_ c1);
            Ok (enableWriting (set_send b c1))
          else Ok (callback OnWriteComplete c1)
      | WriteError _ => Ok c
      end
  else Ok c.

(** [shutdown(fd_, SHUT_WR)] can only log its failure. *)
Definition ShutdownInLoop (c : TcpConnection) : TcpConnection :=
  if writeable_ c then set_flags false (readable_ c) c else c.

Definition HandleClose (c : TcpConnection) : TcpConnection :=
  callback OnClosed (callback OnDisconnected (disableAll (set_state CLOSED c))).

Definition HandleError (c : TcpConnection) : TcpConnection := c.

(** [taken]: how many bytes the message callback retrieves. *)
Definition HandleRead (r : readv_result) (taken : Z) (c : TcpConnection) : outcome TcpConnection :=
  '(n, saved_errno, b) ← ReadFromSocket r (recv_buffer_ c);
  let c1 := match r with ReadvBytes data => put_received data (set_recv b c) | ReadvError _ => set_recv b c end in
  let cnt := s32 n in
  if 0 <? cnt then
    Ok (set_recv (Retrieve taken (recv_buffer_ c1)) (put_handed (take (Z.to_nat taken) (readable (recv_buffer_ c1))) (callback OnMessage c1)))
  else if cnt =? 0 then Ok (HandleClose c1)
  else Ok (HandleError c1).

Definition HandleWrite (w : write_result) (c : TcpConnection) : TcpConnection :=
  if writeable_ c then
    match w with
    | WriteCount cnt =>
        let c1 := set_send (Retrieve cnt (send_buffer_ c)) (put_wire (take (Z.to_nat cnt) (readable (send_buffer_ c))) c) in
        if ReadableBytes (send_buffer_ c1) =? 0 then callback OnWriteComplete (disableWriting c1) else c1
    | WriteError _ => c
    end
  else c.

(** What the loop runs: the functors [Send] and [Shutdown] queue, the second
    only when the connection was established at the call, and the events of
    the channel. *)
Inductive conn_op : Type :=
| OSend (data : list byte) (w : write_result)
| OWritable (w : write_result)
| OReadable (r : readv_result) (taken : Z)
| OShutdown
| OClose.

Definition conn_exec (c : TcpConnection) (o : conn_op) : outcome TcpConnection :=
  match o with
  | OSend data w => SendInLoop data w c
  | OWritable w => Ok (HandleWrite w c)
  | OReadable r taken => HandleRead r taken c
  | OShutdown => Ok (ShutdownInLoop c)
  | OClose => Ok (HandleClose c)
  end.

(** ** What the kernel and the callers keep to *)

Definition write_ok (w : write_result) (len : Z) : Prop := match w with WriteCount n => 0 <= n <= len | WriteError _ => True end.

Definition conn_op_ok (c : TcpConnection) (o : conn_op) : Prop :=
  match o with
  | OSend data w => write_ok w (zlen data) /\ zlen data < 2 ^ 31
  | OWritable w => write_ok w (ReadableBytes (send_buffer_ c))
  | OReadable r taken => 0 <= taken /\
      match r with ReadvBytes data => zlen data <= readv_room (recv_buffer_ c) /\ zlen data < 2 ^ 31 | ReadvError _ => True end
  | OShutdown | OClose => True
  end.

Definition conn_growth (o : conn_op) : Z :=
  match o with OSend data _ => zlen data | OReadable _ _ => sizeof_extrabuf | _ => 0 end.

(** ** The two streams *)

Record conn_inv (bound : Z) (c : TcpConnection) : Prop := {
  ci_send : wf (send_buffer_ c);
  ci_recv : wf (recv_buffer_ c);
  ci_out : wire c ++ readable (send_buffer_ c) = concat (accepted c);
  ci_in : handed c ++ readable (recv_buffer_ c) = received c;
  ci_interest : state_ c = ESTABLISHED -> readable (send_buffer_ c) <> [] -> has (interest_ c) kWriteEvent = true;
  ci_bound : zlen (buffer_ (send_buffer_ c)) <= bound /\ zlen (buffer_ (recv_buffer_ c)) <= bound;
}.

Lemma has_writing ev : has (Z.lor ev kWriteEvent) kWriteEvent = true.
Proof.
  unfold has. rewrite Z.land_lor_distr_l, Z.land_diag. destruct (Z.eqb_spec (Z.lor (Z.land ev kWriteEvent) kWriteEvent) 0) as [E|]; [|done].
  by apply Z.lor_eq_0_iff in E as [_ ?].
Qed.

Lemma readable_empty b : wf b -> (0 <? ReadableBytes b) = false -> readable b = [].
Proof. intros Hb. rewrite ReadableBytes_wf by done. destruct (Z.ltb_spec 0 (zlen (readable b))) as [|H]; [done|]. intros _. apply zlen_nil_iff. pose proof (zlen_nonneg (readable b)). lia. Qed.

Lemma readable_nonempty b : wf b -> (0 <? ReadableBytes b) = true -> readable b <> [].
Proof. intros Hb. rewrite ReadableBytes_wf by done. intros H Hnil. by rewrite Hnil in H. Qed.

Lemma append_bound data b bound : wf b -> zlen data < 2 ^ 31 -> zlen (buffer_ b) <= bound -> bound + zlen data <= max_size ->
  exists b', append data b = Ok b' /\ wf b' /\ readable b' = readable b ++ data /\ zlen (buffer_ b') <= bound + zlen data.
Proof.
  intros Hwf Hd Hb Hm. destruct (buffer_append_ok data b) as (b' & ? & ? & ? & ?); [done|done|unfold wf in Hwf; lia|].
  exists b'. split_and!; [done..|lia].
Qed.

Lemma inv_widen bound bound' c : conn_inv bound c -> bound <= bound' -> conn_inv bound' c.
Proof. intros [] Hle. split; try done. lia. Qed.

Lemma send_inv bound data w c : conn_inv bound c -> write_ok w (zlen data) -> zlen data < 2 ^ 31 -> bound + zlen data <= max_size ->
  exists c', SendInLoop data w c = Ok c' /\ conn_inv (bound + zlen data) c'.
Proof.
  intros Hinv Hw Hd Hm. pose proof (zlen_nonneg data) as Hpos. unfold SendInLoop.
  destruct (decide (state_ c = ESTABLISHED)) as [Hst|Hst]; [|eexists; split; [done|]; eapply inv_widen; [done|lia]].
  pose proof Hinv as [Hs Hr Ho Hi Hn [Hb1 Hb2]]. destruct (0 <? ReadableBytes (send_buffer_ c)) eqn:E.
  - destruct (append_bound data _ bound Hs) as (b & -> & Hwf & Hrd & Hl); [done..|]. cbn [mbind outcome_bind]. eexists. split; [done|].
    split; cbn; try done; [|by intros _ _; apply Hn; [|apply readable_nonempty]|split; lia].
    rewrite Hrd, concat_app, app_assoc, Ho. cbn. by rewrite app_nil_r.
  - apply readable_empty in E; [|done]. rewrite E, app_nil_r in Ho. destruct w as [e|n].
    + eexists. split; [done|]. eapply inv_widen; [done|lia].
    + cbn in Hw. destruct (Z.ltb_spec n (zlen data)) as [Hlt|Hge].
      * assert (zlen (drop (Z.to_nat n) data) <= zlen data) as Hdrop by (unfold zlen; rewrite length_drop; lia).
        destruct (append_bound (drop (Z.to_nat n) data) (send_buffer_ c) bound Hs) as (b & Eb & Hwf & Hrd & Hl); [lia|done|lia|].
        cbn [send_buffer_ put_wire accept_message]. rewrite Eb. cbn [mbind outcome_bind]. eexists. split; [done|]. rewrite E in Hrd. cbn in Hrd.
        split; cbn; try done; [|by intros _ _; apply has_writing|split; lia].
        rewrite Hrd, concat_app, <- app_assoc, take_drop, Ho. cbn. by rewrite app_nil_r.
      * eexists. split; [done|]. split; cbn; try done; [|split; lia].
        rewrite E, app_nil_r, take_ge by (unfold zlen in *; lia). rewrite concat_app, Ho. cbn. by rewrite app_nil_r.
Qed.

Lemma write_inv bound w c : conn_inv bound c -> write_ok w (ReadableBytes (send_buffer_ c)) -> conn_inv bound (HandleWrite w c).
Proof.
  intros Hinv Hw. unfold HandleWrite. destruct (writeable_ c); [|done]. destruct w as [e|n]; [done|]. cbn in Hw.
  pose proof Hinv as [Hs Hr Ho Hi Hn [Hb1 Hb2]]. destruct (Retrieve_ok n (send_buffer_ c) Hs) as (Hwf & Hrd & Hbuf); [lia|].
  assert (conn_inv bound (set_send (Retrieve n (send_buffer_ c)) (put_wire (take (Z.to_nat n) (readable (send_buffer_ c))) c))) as Hinv'.
  { split; cbn; try done.
    - by rewrite Hrd, <- app_assoc, take_drop.
    - intros Hst Hne. apply Hn; [done|]. intros E. apply Hne. rewrite Hrd, E. by rewrite drop_nil.
    - by rewrite Hbuf. }
  cbn [send_buffer_ set_send]. destruct (Z.eqb_spec (ReadableBytes (Retrieve n (send_buffer_ c))) 0) as [E|]; [|done].
  destruct Hinv' as [Hs' Hr' Ho' Hi' Hn' Hb']. split; cbn in *; try done.
  intros _ Hne. exfalso. apply Hne. apply zlen_nil_iff. by rewrite <- ReadableBytes_wf.
Qed.

Lemma close_inv bound c : conn_inv bound c -> conn_inv bound (HandleClose c).
Proof. intros []. split; cbn; done. Qed.

Lemma read_inv bound r taken c : conn_inv bound c -> conn_op_ok c (OReadable r taken) -> bound + sizeof_extrabuf <= max_size ->
  exists c', HandleRead r taken c = Ok c' /\ conn_inv (bound + sizeof_extrabuf) c'.
Proof.
  intros Hinv [Ht Hr0] Hm. pose proof Hinv as [Hs Hr Ho Hi Hn [Hb1 Hb2]]. unfold sizeof_extrabuf in *. unfold HandleRead. destruct r as [e|data].
  - cbn [ReadFromSocket mbind outcome_bind]. change (0 <? s32 (u64 (-1))) with false. change (s32 (u64 (-1)) =? 0) with false. cbv iota.
    eexists. split; [done|]. apply (inv_widen bound); [|lia]. by destruct c.
  - destruct Hr0 as [Hroom Hlen]. pose proof (zlen_nonneg data) as Hpos.
    destruct (ReadFromSocket_ok data (recv_buffer_ c) Hr Hroom) as (b & -> & Hwf & Hrd & Hl); [unfold sizeof_extrabuf; lia|].
    unfold sizeof_extrabuf in Hl. cbn [mbind outcome_bind]. rewrite s32_small by lia.
    assert (conn_inv (bound + 65536) (put_received data (set_recv b c))) as Hinv1.
    { split; cbn; try done; [|split; lia]. by rewrite Hrd, app_assoc, Hi. }
    destruct (Z.ltb_spec 0 (zlen data)) as [Hp|Hz].
    + eexists. split; [done|]. cbn [recv_buffer_ put_received set_recv]. destruct (Retrieve_ok taken b Hwf Ht) as (Hwf' & Hrd' & Hbuf).
      destruct Hinv1 as [Hs' Hr' Ho' Hi' Hn' Hb']. split; cbn in *; try done; [|by rewrite Hbuf].
      by rewrite <- app_assoc, Hrd', take_drop.
    + destruct (Z.eqb_spec (zlen data) 0); [|lia]. eexists. split; [done|]. by apply close_inv.
Qed.

Lemma conn_exec_inv bound c o : conn_inv bound c -> conn_op_ok c o -> bound + conn_growth o <= max_size ->
  exists c', conn_exec c o = Ok c' /\ conn_inv (bound + conn_growth o) c'.
Proof.
  intros Hinv Ho Hg. destruct o as [data w|w|r taken| |]; cbn [conn_exec conn_growth] in *; rewrite ?Z.add_0_r.
  - destruct Ho. by apply send_inv.
  - eexists. split; [done|]. by apply write_inv.
  - by apply read_inv.
  - eexists. split; [done|]. unfold ShutdownInLoop. destruct (writeable_ c); [|done]. by destruct Hinv.
  - eexists. split; [done|]. by apply close_inv.
Qed.

Fixpoint conn_ops_ok (c : TcpConnection) (os : list conn_op) : Prop :=
  match os with
  | [] => True
  | o :: os' => conn_op_ok c o /\ forall c', conn_exec c o = Ok c' -> conn_ops_ok c' os'
  end.

Definition total_growth (os : list conn_op) : Z := foldr (fun o n => conn_growth o + n) 0 os.

Lemma total_growth_nonneg os : 0 <= total_growth os.
Proof.
  unfold total_growth. induction os as [|o os IH]; cbn [foldr]; [lia|].
  assert (0 <= conn_growth o); [|lia]. destruct o; cbn; unfold sizeof_extrabuf; try apply zlen_nonneg; lia.
Qed.

Lemma conn_ops_inv os : forall bound c, conn_inv bound c -> conn_ops_ok c os -> bound + total_growth os <= max_size ->
  exists c', foldM conn_exec c os = Ok c' /\ conn_inv (bound + total_growth os) c'.
Proof.
  induction os as [|o os IH]; intros bound c Hinv Hos Hg; cbn [foldM].
  - exists c. split; [done|]. cbn. by rewrite Z.add_0_r.
  - destruct Hos as [Ho Hos]. cbn [total_growth foldr] in *. change (foldr _ 0 os) with (total_growth os) in *.
    pose proof (total_growth_nonneg os). destruct (conn_exec_inv bound c o Hinv Ho) as (c1 & E & H1); [lia|]. rewrite E. cbn [mbind outcome_bind].
    rewrite Z.add_assoc. apply IH; [done|by apply Hos|lia].
Qed.

Lemma new_conn_inv ge : exists c, TcpConnection_ctor ge = Ok c /\ conn_inv kInitialSize (ConnectionEstablished c) /\
  state_ (ConnectionEstablished c) = ESTABLISHED /\ readable (send_buffer_ (ConnectionEstablished c)) = [].
Proof.
  unfold TcpConnection_ctor. destruct (buffer_ctor_wf kInitialSize) as (b & -> & Hwf & Hr & Hl); [unfold kInitialSize, max_size; lia|].
  cbn [mbind outcome_bind]. eexists. split; [done|]. split; [|split; [done|exact Hr]].
  split; cbn; rewrite ?Hr; try done. unfold kInitialSize in *. lia.
Qed.

(** Whether [Send] takes a message: the connection is established, and bytes
    are waiting or the [write] does not fail. *)
Definition takes (w : write_result) (c : TcpConnection) : bool :=
  bool_decide (state_ c = ESTABLISHED) &&
  ((0 <? zlen (readable (send_buffer_ c))) || match w with WriteCount _ => true | WriteError _ => false end).

(** C36: from its establishment on, whatever the kernel answers to each call
    and whatever the message callback consumes, a connection keeps both
    streams in order: what the kernel took followed by what the send buffer
    holds is the concatenation of the messages [Send] took, what the callback
    retrieved followed by what the receive buffer holds is what the kernel
    delivered, and while the connection is established the channel asks for
    write events whenever bytes are waiting. [Send] does not take every
    message: it drops those sent when the connection is not established and
    those whose own [write] fails, also with EWOULDBLOCK
    ([would_block_drops]). That the send buffer is emptied is not claimed: after
    [Shutdown] its bytes are stranded ([reactor_shutdown_strands]). The buffers
    stay below the largest size of a vector. *)
Theorem reactor_connection_streams ge c os : TcpConnection_ctor ge = Ok c -> conn_ops_ok (ConnectionEstablished c) os ->
  kInitialSize + total_growth os <= max_size ->
  exists c', foldM conn_exec (ConnectionEstablished c) os = Ok c' /\
    wire c' ++ readable (send_buffer_ c') = concat (accepted c') /\
    handed c' ++ readable (recv_buffer_ c') = received c' /\
    (state_ c' = ESTABLISHED -> readable (send_buffer_ c') <> [] -> has (interest_ c') kWriteEvent = true) /\
    (forall data w c'', SendInLoop data w c' = Ok c'' ->
       accepted c'' = accepted c' ++ (if takes w c' then [data] else [])).
Proof.
  intros Hc Hos Hg. destruct (new_conn_inv ge) as (c0 & E & Hinv & _). rewrite Hc in E. injection E as <-.
  destruct (conn_ops_inv os _ _ Hinv Hos Hg) as (c' & -> & H'). exists c'. pose proof H' as [Hs Hr Ho Hi Hn _].
  split_and!; [done..|]. intros data w c'' Hsend. unfold SendInLoop in Hsend. unfold takes. rewrite ReadableBytes_wf in Hsend by done.
  destruct (decide (state_ c' = ESTABLISHED)) as [Hst|Hst].
  2: { injection Hsend as <-. rewrite bool_decide_eq_false_2 by done. by rewrite app_nil_r. }
  rewrite bool_decide_eq_true_2 by done. cbn [andb]. destruct (0 <? zlen (readable (send_buffer_ c'))).
  - cbn [orb]. destruct (append _ _); [|done]. by injection Hsend as <-.
  - destruct w as [e|n]; [injection Hsend as <-; by rewrite app_nil_r|]. destruct (n <? zlen data); [|by injection Hsend as <-].
    cbn [orb]. destruct (append _ _); [|done]. by injection Hsend as <-.
Qed.

Definition sample_conn_ops : list conn_op :=
  [OSend [Byte.x41; Byte.x42] (WriteCount 1); OSend [Byte.x43] (WriteError 11); OReadable (ReadvBytes [Byte.x44]) 0; OWritable (WriteCount 1);
   OWritable (WriteCount 1); OSend [Byte.x45] (WriteError 11)].

Lemma reactor_connection_streams_witness :
  exists c c', TcpConnection_ctor 0 = Ok c /\ foldM conn_exec (ConnectionEstablished c) sample_conn_ops = Ok c' /\
    wire c' ++ readable (send_buffer_ c') = concat (accepted c') /\ accepted c' = [[Byte.x41; Byte.x42]; [Byte.x43]].
Proof.
  destruct (new_conn_inv 0) as (c & Hc & _). 
  destruct (reactor_connection_streams 0 c sample_conn_ops Hc) as (c' & E & Hw & _).
  - vm_compute in Hc. injection Hc as <-. unfold sample_conn_ops. cbn [conn_ops_ok].
    split; [vm_compute; split; [split; discriminate|reflexivity]|]. intros c1 E1. vm_compute in E1. injection E1 as <-.
    split; [vm_compute; split; [done|reflexivity]|]. intros c2 E2. vm_compute in E2. injection E2 as <-.
    split; [vm_compute; split; [discriminate|split; [discriminate|reflexivity]]|]. intros c3 E3. vm_compute in E3. injection E3 as <-.
    split; [vm_compute; split; discriminate|]. intros c4 E4. vm_compute in E4. injection E4 as <-.
    split; [vm_compute; split; discriminate|]. intros c5 E5. vm_compute in E5. injection E5 as <-.
    split; [vm_compute; split; [done|reflexivity]|]. intros; exact I.
  - vm_compute. discriminate.
  - exists c, c'. split; [exact Hc|]. split; [exact E|]. split; [exact Hw|].
    vm_compute in Hc. injection Hc as <-. vm_compute in E. injection E as <-. reflexivity.
Defined.

(** ** Data left behind *)

Definition stranded (c : TcpConnection) : Prop := writeable_ c = false /\ wf (send_buffer_ c) /\ readable (send_buffer_ c) <> [].

Lemma stranded_step c o c' bound : stranded c -> conn_inv bound c -> conn_op_ok c o -> bound + conn_growth o <= max_size ->
  conn_exec c o = Ok c' -> stranded c' /\ wire c' = wire c /\ exists more, readable (send_buffer_ c') = readable (send_buffer_ c) ++ more.
Proof.
  intros (Hw & Hwf & Hne) Hinv Hop Hg. destruct o as [data w|w|r taken| |]; cbn [conn_exec conn_growth conn_op_ok] in *.
  - unfold SendInLoop. destruct (decide (state_ c = ESTABLISHED)); [|by intros [= <-]; split_and!; [done..|exists []; by rewrite app_nil_r]].
    destruct (0 <? ReadableBytes (send_buffer_ c)) eqn:E; [|apply readable_empty in E; done].
    destruct (append_bound data (send_buffer_ c) bound Hwf) as (b & -> & Hwf' & Hrd & _); [by destruct Hop|by destruct (ci_bound _ _ Hinv)|done|].
    intros [= <-]. split_and!; cbn; [split_and!; [done|done|]|done|by eexists]. cbn. rewrite Hrd. by destruct (readable (send_buffer_ c)).
  - unfold HandleWrite. rewrite Hw. intros [= <-]. split_and!; [done..|]. exists []. by rewrite app_nil_r.
  - unfold HandleRead. intros H. assert (send_buffer_ c' = send_buffer_ c /\ wire c' = wire c /\ writeable_ c' = writeable_ c) as (E1 & E2 & E3).
    { destruct (ReadFromSocket r (recv_buffer_ c)) as [[[n e] b]|]; [|done]. cbn [mbind outcome_bind] in H.
      destruct r; repeat case_match; injection H as <-; done. }
    unfold stranded. rewrite E1, E2, E3. split_and!; [done..|]. exists []. by rewrite app_nil_r.
  - intros [= <-]. unfold ShutdownInLoop. rewrite Hw. split_and!; [done..|]. exists []. by rewrite app_nil_r.
  - intros [= <-]. split_and!; [done..|]. exists []. by rewrite app_nil_r.
Qed.

(** [Shutdown] with bytes still waiting loses them: once the write side is
    shut down, no later event sends a byte of the send buffer, which only
    grows, whatever the kernel is willing to take. *)
Lemma reactor_shutdown_strands bound c os c' :
  conn_inv bound c -> state_ c = ESTABLISHED -> writeable_ c = true -> readable (send_buffer_ c) <> [] ->
  conn_ops_ok (ShutdownInLoop c) os -> bound + total_growth os <= max_size ->
  foldM conn_exec c (OShutdown :: os) = Ok c' ->
  wire c' = wire c /\ exists more, readable (send_buffer_ c') = readable (send_buffer_ c) ++ more.
Proof.
  intros Hinv Hst Hw Hne Hos Hg Hrun. cbn [foldM conn_exec mbind outcome_bind] in Hrun.
  assert (conn_inv bound (ShutdownInLoop c) /\ stranded (ShutdownInLoop c) /\ wire (ShutdownInLoop c) = wire c /\
    send_buffer_ (ShutdownInLoop c) = send_buffer_ c) as (Hi & Hs & <- & <-).
  { unfold ShutdownInLoop, stranded. rewrite Hw. split_and!; try done; [by destruct Hinv|]. by destruct Hinv. }
  clear Hinv Hst Hw Hne. revert bound Hi Hg. generalize dependent (ShutdownInLoop c). clear c.
  induction os as [|o os IH]; intros c Hos Hrun Hs bound Hi Hg; cbn [foldM] in Hrun.
  - injection Hrun as <-. split; [done|]. exists []. by rewrite app_nil_r.
  - destruct Hos as [Ho Hos]. cbn [total_growth foldr] in Hg. change (foldr _ 0 os) with (total_growth os) in Hg.
    pose proof (total_growth_nonneg os). destruct (conn_exec_inv bound c o Hi Ho) as (c1 & E & H1); [lia|].
    destruct (stranded_step c o c1 bound Hs Hi Ho) as (Hs1 & Hw1 & more1 & Hr1); [lia|done|].
    rewrite E in Hrun. cbn [mbind outcome_bind] in Hrun.
    destruct (IH c1 (Hos c1 E) Hrun Hs1 _ H1) as (Hw2 & more2 & Hr2); [lia|]. split; [congruence|].
    exists (more1 ++ more2). by rewrite Hr2, Hr1, app_assoc.
Qed.

(** A message sent while the socket is full is lost. *)
Lemma would_block_drops data errno c : state_ c = ESTABLISHED -> wf (send_buffer_ c) -> readable (send_buffer_ c) = [] ->
  SendInLoop data (WriteError errno) c = Ok c.
Proof.
  intros Hst Hwf Hr. unfold SendInLoop. rewrite decide_True by done. by rewrite ReadableBytes_wf, Hr.
Qed.

Lemma reactor_shutdown_strands_witness :
  exists c c', state_ c = ESTABLISHED /\ readable (send_buffer_ c) = [Byte.x42] /\
    foldM conn_exec c [OShutdown; OWritable (WriteCount 1)] = Ok c' /\ wire c' = wire c.
Proof.
  destruct (new_conn_inv 0) as (c0 & Hc & Hinv & _).
  destruct (conn_exec_inv kInitialSize (ConnectionEstablished c0) (OSend [Byte.x41; Byte.x42] (WriteCount 1)) Hinv) as (c & E & Hi);
    [vm_compute; split; [split; discriminate|reflexivity]|vm_compute; discriminate|].
  vm_compute in Hc. injection Hc as <-. vm_compute in E. injection E as <-.
  eexists. eexists. split; [|split; [|split]].
  4: { eapply (reactor_shutdown_strands _ _ [OWritable (WriteCount 1)] _ Hi); [reflexivity|reflexivity| | | |reflexivity].
    - vm_compute. discriminate.
    - cbn [conn_ops_ok]. split; [vm_compute; split; discriminate|]. intros; exact I.
    - vm_compute. discriminate. }
  - reflexivity.
  - vm_compute. reflexivity.
  - reflexivity.
Defined.
