(* ===== verification/ReactorServer.v ===== *)
(** * The server of the reactor library: src/Reactors/net/tcpserver.h, tcpserver.cc

    The master thread accepts connections and hands each to the next
    event-loop thread; a closing connection queues its removal on the master's
    actor. The master's actor has no notification channel. A connection is
    known by its descriptor, and so is the functor that removes it. *)

From stdpp Require Import gmap.
From S2P Require Import Prelude ReactorActor ReactorWorkers.

Record TcpServer : Type := mkServer {
  thread_num_ : Z;
  next_id_ : Z;
  conns_ : gmap Z Z;
  actor_ : Actor;
  assigned : list Z;
}.

(** After [Start]: [thread_num_] threads run. *)
Definition TcpServer_start (thread_num : Z) (garbage_pending : bool) : TcpServer :=
  mkServer thread_num 0 ∅ (Actor_ctor garbage_pending) [].

(** The thread that gets the connection is recorded with it. *)
Definition NewConnectionEstablished (fd : Z) (s : TcpServer) : outcome TcpServer :=
  if (0 <=? next_id_ s) && (next_id_ s <? thread_num_ s) then
    Ok (mkServer (thread_num_ s) (if next_id_ s =? thread_num_ s - 1 then 0 else next_id_ s + 1)
          (<[fd := next_id_ s]> (conns_ s)) (actor_ s) (assigned s ++ [next_id_ s]))
  else Fail OutOfBounds.

(** What [accept4] answers. *)
Inductive accept_result : Set :=
| AcceptFd (connfd : Z)
| AcceptError (errno : Z).

Definition HandleReadEvent (r : accept_result) (s : TcpServer) : outcome TcpServer :=
  match r with
  | AcceptFd connfd => NewConnectionEstablished connfd s
  | AcceptError _ => Ok s
  end.

(** Called in the connection's thread. *)
Definition RemoveTcpConnection (fd : Z) (s : TcpServer) : TcpServer :=
  mkServer (thread_num_ s) (next_id_ s) (conns_ s) (QueueInActor fd (actor_ s)) (assigned s).

Definition RemoveTcpConnectionInLoop (fd : Z) (s : TcpServer) : TcpServer :=
  mkServer (thread_num_ s) (next_id_ s) (delete fd (conns_ s)) (actor_ s) (assigned s).

(** A step of the master's loop; the functor it runs, if any, is a removal. *)
Definition master_step (active : list active_event) (s : TcpServer) : TcpServer :=
  let s' := mkServer (thread_num_ s) (next_id_ s) (conns_ s) (loop_step active (actor_ s)) (assigned s) in
  match pc (actor_ s) with
  | PcRun (fd :: _) => RemoveTcpConnectionInLoop fd s'
  | _ => s'
  end.

Inductive server_label : Type :=
| SAccept (r : accept_result)
| SClosed (fd : Z)
| SMaster (timers : nat).

(** The master's channels are the listening socket and its timers: none of
    them is a notification. *)
Definition server_step (s : TcpServer) (l : server_label) : outcome TcpServer :=
  match l with
  | SAccept r => HandleReadEvent r s
  | SClosed fd => Ok (RemoveTcpConnection fd s)
  | SMaster timers => Ok (master_step (replicate timers (EOther [])) s)
  end.

(** ** Properties *)

(** The master's loop, once [pending_] is false, never reaches its queue. *)
Definition idle (a : Actor) : Prop :=
  pending_ a = false /\
  match pc a with
  | PcTop => True
  | PcHandle es => Forall (fun e => e = EOther []) es
  | _ => False
  end.

Lemma idle_step a n : idle a -> idle (loop_step (replicate n (EOther [])) a) /\ queue_ (loop_step (replicate n (EOther [])) a) = queue_ a.
Proof.
  intros [Hp Hpc]. unfold loop_step, DoPendingFunctors_step, idle. destruct (pc a) as [|[|e es]| |[|f tmp]] eqn:Ep; cbn in *; try done.
  - split; [|done]. split; [done|]. apply Forall_replicate. done.
  - rewrite Hp. done.
  - apply Forall_cons in Hpc as [-> Hes]. done.
Qed.

Lemma server_next s : 0 < thread_num_ s -> 0 <= next_id_ s < thread_num_ s ->
  (if next_id_ s =? thread_num_ s - 1 then 0 else next_id_ s + 1) = (next_id_ s + 1) mod thread_num_ s.
Proof.
  intros Hn Hi. destruct (Z.eqb_spec (next_id_ s) (thread_num_ s - 1)) as [->|Hne].
  - replace (thread_num_ s - 1 + 1) with (thread_num_ s) by lia. by rewrite Z_mod_same_full.
  - by rewrite Z.mod_small by lia.
Qed.

Record server_inv (n : Z) (accepted : list Z) (closed : list Z) (s : TcpServer) : Prop := {
  si_threads : thread_num_ s = n;
  si_next : next_id_ s = zlen accepted mod n;
  si_assigned : assigned s = (fun k => Z.of_nat k mod n) <$> seq 0 (length accepted);
  si_conns : forall fd, fd ∈ accepted -> is_Some (conns_ s !! fd);
  si_idle : idle (actor_ s);
  si_queue : queue_ (actor_ s) = closed;
}.

Definition accepted_by (l : server_label) : list Z := match l with SAccept (AcceptFd fd) => [fd] | _ => [] end.
Definition closed_by (l : server_label) : list Z := match l with SClosed fd => [fd] | _ => [] end.

Lemma server_step_inv n acc cls s l : 0 < n -> server_inv n acc cls s ->
  exists s', server_step s l = Ok s' /\ server_inv n (acc ++ accepted_by l) (cls ++ closed_by l) s'.
Proof.
  intros Hn [Ht Hx Ha Hc Hi Hq]. destruct l as [[fd|e]|fd|k]; cbn [server_step HandleReadEvent accepted_by closed_by]; rewrite ?app_nil_r.
  - pose proof (Z.mod_pos_bound (zlen acc) n Hn) as Hb. unfold NewConnectionEstablished. rewrite (server_next s) by (rewrite ?Ht, ?Hx; lia).
    rewrite Ht, Hx. destruct (Z.leb_spec 0 (zlen acc mod n)), (Z.ltb_spec (zlen acc mod n) n); try lia. cbn [andb].
    eexists. split; [done|]. split; cbn.
    + done.
    + rewrite Z.add_mod_idemp_l by lia. rewrite zlen_app, zlen_singleton. done.
    + rewrite Ha, length_app, Nat.add_1_r, seq_S, fmap_app. done.
    + intros x [Hin|Hin]%elem_of_app; [apply lookup_insert_is_Some'; right; by apply Hc|].
      apply list_elem_of_singleton in Hin as ->. rewrite lookup_insert_eq. eauto.
    + done.
    + done.
  - eexists. split; [done|]. by split.
  - eexists. split; [done|]. split; cbn; try done. by rewrite Hq.
  - eexists. split; [done|]. destruct (idle_step (actor_ s) k Hi) as [Hi' Hq']. unfold master_step.
    destruct (pc (actor_ s)) as [| | |[|fd tmp]] eqn:Ep; try (split; cbn; congruence || done).
    destruct Hi as [_ Hpc]. by rewrite Ep in Hpc.
Qed.

(** Connections go to the threads in turn, starting with the first. But
    once the master's [pending_] is false, as it is at the latest after its
    first pending batch, no connection is ever forgotten again: whatever
    closes, the map still holds every connection accepted, and the removals
    pile up in the master's queue. With no thread at all the first connection
    indexes an empty vector. *)
Lemma reactor_server_keeps_all (n : Z) (ls : list server_label) : 0 < n ->
  (exists s, foldM server_step (TcpServer_start n false) ls = Ok s /\
    assigned s = (fun k => Z.of_nat k mod n) <$> seq 0 (length (ls ≫= accepted_by)) /\
    (forall fd, fd ∈ ls ≫= accepted_by -> is_Some (conns_ s !! fd)) /\
    queue_ (actor_ s) = ls ≫= closed_by) /\
  (forall fd garbage, server_step (TcpServer_start 0 garbage) (SAccept (AcceptFd fd)) = Fail OutOfBounds).
Proof.
  intros Hn. split; [|done].
  assert (forall acc cls s, server_inv n acc cls s -> exists s', foldM server_step s ls = Ok s' /\
    server_inv n (acc ++ (ls ≫= accepted_by)) (cls ++ (ls ≫= closed_by)) s') as H.
  { induction ls as [|l ls IH]; intros acc cls s Hs; cbn [foldM]; [exists s; cbn; by rewrite !app_nil_r|].
    destruct (server_step_inv n acc cls s l Hn Hs) as (s1 & -> & H1). cbn [mbind outcome_bind].
    destruct (IH _ _ _ H1) as (s' & E & H'). exists s'. split; [done|]. cbn. by rewrite !app_assoc. }
  assert (server_inv n [] [] (TcpServer_start n false)) as H0.
  { split; cbn; try done. intros fd Hin. by apply not_elem_of_nil in Hin. }
  destruct (H [] [] _ H0) as (s & E & []). exists s. by split_and!.
Qed.

Lemma reactor_server_keeps_all_witness :
  exists s, foldM server_step (TcpServer_start 2 false) [SAccept (AcceptFd 5); SAccept (AcceptFd 6); SClosed 5; SMaster 1; SMaster 0; SMaster 0] = Ok s /\
    assigned s = [0; 1] /\ is_Some (conns_ s !! 5).
Proof.
  destruct (reactor_server_keeps_all 2 [SAccept (AcceptFd 5); SAccept (AcceptFd 6); SClosed 5; SMaster 1; SMaster 0; SMaster 0] ltac:(lia))
    as [(s & E & Ha & Hc & _) _].
  exists s. split; [exact E|]. split; [exact Ha|]. apply Hc. cbn. left.
Defined.

(** ** Start *)

(** The descriptor [listenfd] through [Start]: made, bound, listened on. What
    is left open when [Start] gives up is [left_open]. *)
Inductive start_result : Type :=
| Gives_up (left_open : list Z)
| Runs (listen_fd_ : Z) (workers : option (list Z)) (s : TcpServer)
| Never_returns.

(** [socket]: the descriptor, if one was made. [workers_num] above 0 starts
    that many workers (StartWork of ReactorWorkers, with fuel for one turn per
    worker). *)
Definition TcpServer_Start (thread_num workers_num : Z) (garbage_pending : bool) (socket : option Z) (bind_ok listen_ok : bool) : start_result :=
  match socket with
  | None => Gives_up []
  | Some listenfd =>
      if negb bind_ok then Gives_up [listenfd]
      else if negb listen_ok then Gives_up [listenfd]
      else
        let s := TcpServer_start (thread_num mod 2 ^ 16) garbage_pending in
        if 0 <? workers_num then
          match StartWork (S (Z.to_nat workers_num)) workers_num with
          | Some ws => Runs listenfd (Some ws) s
          | None => Never_returns
          end
        else Runs listenfd None s
  end.

(** With the calls succeeding and fewer than 256 workers the server runs, with
    a worker for each number; with 256 or more it never gets to its loop. A
    bind or listen that fails leaves the socket open. *)
Lemma start_exact thread_num workers_num garbage fd : 0 <= workers_num < 2 ^ 31 ->
  TcpServer_Start thread_num workers_num garbage (Some fd) true true =
    (if workers_num <? 256
     then Runs fd (if 0 <? workers_num then Some (Z.of_nat <$> seq 0 (Z.to_nat workers_num)) else None) (TcpServer_start (thread_num mod 2 ^ 16) garbage)
     else Never_returns) /\
  TcpServer_Start thread_num workers_num garbage (Some fd) false true = Gives_up [fd] /\
  TcpServer_Start thread_num workers_num garbage (Some fd) true false = Gives_up [fd].
Proof.
  intros Hn. split; [|done]. unfold TcpServer_Start. cbn [negb]. destruct (Z.ltb_spec 0 workers_num) as [Hp|Hp]; cycle 1.
  { assert (workers_num = 0) as -> by lia. done. }
  unfold StartWork, u32. rewrite (Z.mod_small workers_num (2 ^ 32)) by lia. destruct (Z.ltb_spec workers_num 256).
  - rewrite (start_loop_ok workers_num) by lia. done.
  - by rewrite start_loop_diverges by lia.
Qed.
