(* ===== verification/EasyTcp.v ===== *)
(** * The libevent thread pool: src/easytcp/threadpool.h, threadpool.cpp

    A main thread accepts connections and writes them into the pipes of worker
    threads; a worker keeps a [Client] per connection and reads and writes in
    libevent's callbacks. libevent is a class whose laws are the documented
    ones of pending, persistent and one-shot events; the answers of [recv] and
    [send] are arguments. Clients are heap objects, [cl_fd] is the descriptor
    their events were set with, [cl_wire] and [cl_sent] record the bytes the
    kernel took and the messages given to [Send]. *)

From stdpp Require Import gmap.
From S2P Require Import Prelude.

Definition MAXRECVLEN : Z := 1500.

Definition u16 (z : Z) : Z := z mod 2 ^ 16.

(** ** BufDesc *)

Record BufDesc : Type := mkBufDesc { buf_ : list byte; len_ : Z; pos_ : Z }.

Definition BufDesc_ctor (buf : list byte) : BufDesc :=
  if (zlen buf <=? 0) || (MAXRECVLEN <? zlen buf) then mkBufDesc [] 0 0 else mkBufDesc buf (u16 (zlen buf)) 0.

(** ** Clients and libevent *)

Inductive ev_kind : Set := EvRead | EvWrite.

#[export] Instance ev_kind_eq_dec : EqDecision ev_kind.
Proof. solve_decision. Defined.

#[export] Instance ev_kind_countable : Countable ev_kind.
Proof.
  refine (inj_countable' (fun k => match k with EvRead => true | EvWrite => false end) (fun b => if b then EvRead else EvWrite) _).
  by intros [].
Defined.

(** An event is a client's [pEvRead], which is persistent, or its [pEvWrite],
    which is not. *)
Class Libevent (B : Type) : Type := {
  ev_pending : B -> gset (Z * ev_kind);
  event_add : Z * ev_kind -> B -> B;
  event_del : Z * ev_kind -> B -> B;
  event_activate : Z * ev_kind -> B -> B;
}.

Class LibeventLaws (B : Type) `{!Libevent B} : Prop := {
  pending_add e b : ev_pending (event_add e b) = {[e]} ∪ ev_pending b;
  pending_del e b : ev_pending (event_del e b) = ev_pending b ∖ {[e]};
  pending_activate e b :
    ev_pending (event_activate e b) = match e.2 with EvRead => ev_pending b | EvWrite => ev_pending b ∖ {[e]} end;
}.

Definition READ_EVENT_ON : Z := 1.
Definition WRITE_EVENT_ON : Z := 2.

Record Client : Type := mkClient {
  EventFlag : Z;
  sendBufList : list BufDesc;
  cl_fd : Z;
  cl_wire : list byte;
  cl_sent : list (list byte);
}.

Definition Client_ctor (fd : Z) : Client := mkClient 0 [] fd [] [].

Definition set_flag f c := mkClient f (sendBufList c) (cl_fd c) (cl_wire c) (cl_sent c).
Definition set_list l c := mkClient (EventFlag c) l (cl_fd c) (cl_wire c) (cl_sent c).
Definition put_wire bs c := mkClient (EventFlag c) (sendBufList c) (cl_fd c) (cl_wire c ++ bs) (cl_sent c).
Definition put_sent m c := mkClient (EventFlag c) (sendBufList c) (cl_fd c) (cl_wire c) (cl_sent c ++ [m]).

Definition flag_on (f mask : Z) : bool := negb (Z.land f mask =? 0).

Section Worker.

Context {B : Type} `{!Libevent B}.
(** [operator new] *)
Context (alloc : gmap Z Client -> Z).

Record Worker : Type := mkWorker {
  base : B;
  clients : gmap Z Client;
  closed_fds : list Z;
}.

Definition set_base b w := mkWorker b (clients w) (closed_fds w).
Definition set_client p c w := mkWorker (base w) (<[p := c]> (clients w)) (closed_fds w).

Definition get_client (p : Z) (w : Worker) : outcome Client :=
  match clients w !! p with Some c => Ok c | None => Fail UseAfterFree end.

Definition SetWriteEvent (p : Z) (w : Worker) : outcome Worker :=
  c ← get_client p w;
  Ok (set_client p (set_flag (Z.lor (EventFlag c) WRITE_EVENT_ON) c) (set_base (event_add (p, EvWrite) (base w)) w)).

(** [Send]: the value returned and the new state. *)
Definition Send (p : Z) (data : list byte) (w : Worker) : outcome (Z * Worker) :=
  if zlen data <=? 0 then Ok (-1, w)
  else
    c ← get_client p w;
    w1 ← SetWriteEvent p (set_client p (put_sent data (set_list (sendBufList c ++ [BufDesc_ctor data]) c)) w);
    Ok (0, w1).

(** What [send] answers. *)
Inductive send_result : Type :=
| SendAgain
| SendError
| SendCount (n : Z).

(** One iteration of the loop of [OnWrite] over the front buffer, and whether
    the loop goes on. The bytes are taken from the start of [buf_]. *)
Definition write_once (p : Z) (r : send_result) (w : Worker) : outcome (Worker * bool) :=
  c ← get_client p w;
  match sendBufList c with
  | [] => Ok (w, false)
  | b :: rest =>
      let left := len_ b - pos_ b in
      if (left <? 0) || (zlen (buf_ b) <? left) then Fail OutOfBounds
      else
        match r with
        | SendAgain => w1 ← SetWriteEvent p w; Ok (w1, false)
        | SendError => Ok (w, false)
        | SendCount n =>
            let c1 := put_wire (take (Z.to_nat n) (buf_ b)) c in
            if n =? left then Ok (set_client p (set_list rest c1) w, true)
            else
              let b1 := mkBufDesc (buf_ b) (len_ b) (u16 (pos_ b + (n + pos_ b))) in
              w1 ← SetWriteEvent p (set_client p (set_list (b1 :: rest) c1) w);
              Ok (w1, true)
        end
  end.

(** The loop, one answer per call of [send]; it ends when the list is empty or
    an answer is an error. *)
Fixpoint write_loop (p : Z) (rs : list send_result) (w : Worker) : outcome Worker :=
  match rs with
  | [] => Ok w
  | r :: rs' => '(w1, more) ← write_once p r w; if (more : bool) then write_loop p rs' w1 else Ok w1
  end.

Definition OnWrite (p : Z) (rs : list send_result) (w : Worker) : outcome Worker :=
  c ← get_client p w;
  write_loop p rs (set_client p (set_flag (Z.land (EventFlag c) (Z.lnot WRITE_EVENT_ON)) c) w).

(** [delete client]: the destructor takes its events out of libevent. *)
Definition delete_client (p : Z) (w : Worker) : outcome Worker :=
  c ← get_client p w;
  let b1 := if flag_on (EventFlag c) READ_EVENT_ON then event_del (p, EvRead) (base w) else base w in
  let b2 := if flag_on (EventFlag c) WRITE_EVENT_ON then event_del (p, EvWrite) b1 else b1 in
  Ok (mkWorker b2 (delete p (clients w)) (closed_fds w)).

(** [OnRead]: [len] is what [recv] returns, [replies] what the registered job
    sends on this client. *)
Definition OnRead (p : Z) (len : Z) (replies : list (list byte)) (w : Worker) : outcome Worker :=
  c ← get_client p w;
  if len <=? 0 then
    w1 ← delete_client p w;
    Ok (mkWorker (base w1) (clients w1) (closed_fds w1 ++ [cl_fd c]))
  else foldM (fun w data => '(_, w') ← Send p data w; Ok w') w replies.

(** [nonblocking]: whether both calls of [fcntl] succeed. *)
Definition ProcessNewConnect (fd : Z) (nonblocking : bool) (w : Worker) : Worker :=
  if nonblocking then
    let p := alloc (clients w) in
    mkWorker (event_add (p, EvRead) (base w)) (<[p := set_flag (Z.lor 0 READ_EVENT_ON) (Client_ctor fd)]> (clients w)) (closed_fds w)
  else w.

(** What a read of the pipe gives: a whole [ConnInfo], or something else. *)
Inductive pipe_result : Type :=
| PipeConn (fd : Z) (nonblocking : bool)
| PipeShort
| PipeEmpty.

Fixpoint OnAccept (rs : list pipe_result) (w : Worker) : Worker :=
  match rs with
  | [] | PipeEmpty :: _ => w
  | PipeShort :: rs' => OnAccept rs' w
  | PipeConn fd nonblocking :: rs' => OnAccept rs' (ProcessNewConnect fd nonblocking w)
  end.

(** ** What happens in a worker thread *)

Inductive worker_label : Type :=
| WAccept (rs : list pipe_result)
| WRead (p len : Z) (replies : list (list byte))
| WWrite (p : Z) (rs : list send_result)
| WSend (p : Z) (data : list byte).

Definition worker_step (w : Worker) (l : worker_label) : outcome Worker :=
  match l with
  | WAccept rs => Ok (OnAccept rs w)
  | WRead p len replies => OnRead p len replies (set_base (event_activate (p, EvRead) (base w)) w)
  | WWrite p rs => OnWrite p rs (set_base (event_activate (p, EvWrite) (base w)) w)
  | WSend p data => '(_, w') ← Send p data w; Ok w'
  end.

(** libevent calls back for pending events only; a job sends on the client it
    was called for or on another that still exists; the kernel takes whole
    buffers or none. *)
Definition whole (b : BufDesc) (r : send_result) : Prop := match r with SendCount n => n = len_ b - pos_ b | _ => True end.

Fixpoint all_whole (bs : list BufDesc) (rs : list send_result) : Prop :=
  match bs, rs with
  | b :: bs', r :: rs' => whole b r /\ all_whole bs' rs'
  | _, _ => True
  end.

Definition label_ok (w : Worker) (l : worker_label) : Prop :=
  match l with
  | WAccept _ => True
  | WRead p _ _ => (p, EvRead) ∈ ev_pending (base w)
  | WWrite p rs => (p, EvWrite) ∈ ev_pending (base w) /\ forall c, clients w !! p = Some c -> all_whole (sendBufList c) rs
  | WSend p _ => is_Some (clients w !! p)
  end.

End Worker.

Arguments Worker B : clear implicits.

(** ** The main thread *)

Record Threadpool : Type := mkThreadpool {
  thread_num_ : Z;
  next_ : Z;
  pipes : list (list Z);
}.

(** After [CreateThreads] and [StartThreads]. *)
Definition Threadpool_start (thread_num : Z) : Threadpool :=
  mkThreadpool (u16 thread_num) 0 (replicate (Z.to_nat (u16 thread_num)) []).

(** The body of the accept loop: [new_fd] is written into the pipe of
    [threads_[next_]], a failed [accept]'s -1 too. *)
Definition dispatch (pool : Threadpool) (new_fd : Z) : outcome Threadpool :=
  match pipes pool !! Z.to_nat (next_ pool) with
  | None => Fail OutOfBounds
  | Some q =>
      Ok (mkThreadpool (thread_num_ pool)
            (if next_ pool =? thread_num_ pool then 0 else u16 (next_ pool + 1))
            (<[Z.to_nat (next_ pool) := q ++ [new_fd]]> (pipes pool)))
  end.

(** ** Starting the pool *)

(** [Thread]: without its function and its base. *)
Record Thread : Set := mkThread { tid_ : Z; state_ : Z; readfd_ : Z; timeout_ : Z }.

Definition STATE_START : Z := 0.
Definition STATE_STOP : Z := 1.
Definition STATE_RUN : Z := 2.

(** [garbage]: what the memory of [tid_] held. *)
Definition Thread_ctor (garbage read_fd timeout : Z) : Thread := mkThread garbage STATE_STOP read_fd (u16 timeout).

(** [Thread::Start]: [pthread_create] stores a handle of 64 bits at the address
    of the [int] [tid_]; [state_] is the byte after it, and three bytes of
    padding follow. *)
Definition Thread_Start (handle : option Z) (t : Thread) : bool * Thread :=
  match handle with
  | Some h => (true, mkThread (s32 h) (Z.land (Z.shiftr h 32) 255) (readfd_ t) (timeout_ t))
  | None => (false, t)
  end.

(** [StartThreads]: stops at the first failure. *)
Fixpoint StartThreads (handles : list (option Z)) (ts : list Thread) : bool * list Thread :=
  match ts, handles with
  | t :: ts', h :: hs' =>
      let '(ok, t') := Thread_Start h t in
      if ok then let '(r, ts'') := StartThreads hs' ts' in (r, t' :: ts'') else (false, t' :: ts')
  | _, _ => (true, ts)
  end.

(** The calls on the listening socket, with what they answered. *)
Inductive sock_call : Set := CSocket (ok : bool) | CSetsockopt (ok : bool) | CBind (ok : bool) | CListen (ok : bool) | CClose.

(** [Threadpool::Start] up to the accept loop; [true]: the loop is entered. *)
Definition open_listener (socket_ok reuse_ok bind_ok listen_ok : bool) : bool * list sock_call :=
  if negb socket_ok then (false, [CSocket false])
  else
    let l := [CSocket true; CSetsockopt reuse_ok] ++ (if reuse_ok then [] else [CClose]) in
    if negb bind_ok then (false, l ++ [CBind false; CClose])
    else if negb listen_ok then (false, l ++ [CBind true; CListen false; CClose])
    else (true, l ++ [CBind true; CListen true]).

(** Calls after a close. *)
Fixpoint after_close (l : list sock_call) : list sock_call :=
  match l with
  | [] => []
  | CClose :: l' => l'
  | _ :: l' => after_close l'
  end.

Definition Threadpool_Start (created : bool) (handles : list (option Z)) (ts : list Thread) (socket_ok reuse_ok bind_ok listen_ok : bool) :
    bool * list Thread * list sock_call :=
  if negb created then (false, ts, [])
  else
    let '(ok, ts) := StartThreads handles ts in
    if ok then let '(r, calls) := open_listener socket_ok reuse_ok bind_ok listen_ok in (r, ts, calls) else (false, ts, []).

(** The accept loop is reached exactly when every thread was created and
    started and socket, bind and listen succeeded; on every failure after the
    socket was made it is closed. *)
Lemma pool_start_exact handles ts so re bi li : length handles = length ts ->
  let '(r, _, calls) := Threadpool_Start true handles ts so re bi li in
  r = forallb (fun h => match h with Some _ => true | None => false end) handles && so && bi && li /\
  (r = false -> CSocket true ∈ calls -> CClose ∈ calls).
Proof.
  intros Hl. unfold Threadpool_Start. cbn [negb].
  assert (fst (StartThreads handles ts) = forallb (fun h => match h with Some _ => true | None => false end) handles) as Hs.
  { revert ts Hl. induction handles as [|h hs IH]; intros [|t ts] Hl; try done. cbn. specialize (IH ts ltac:(cbn in Hl; lia)). destruct h; cbn; [|done].
    by destruct (StartThreads hs ts). }
  destruct (StartThreads handles ts) as [ok ts']. cbn in Hs. subst ok. destruct (forallb _ handles); [|split; [done|intros _ H; by apply elem_of_nil in H]].
  destruct so, re, bi, li; cbn; split; try done; intros; set_solver.
Qed.

(** A failed [SO_REUSEADDR] closes the socket and goes on: it is bound and
    listened on, and then accepted from, after its close. Otherwise nothing
    follows a close. *)
Lemma reuse_failure_uses_closed so re bi li : after_close (open_listener so re bi li).2 <> [] <-> so = true /\ re = false.
Proof. destruct so, re, bi, li; cbn; intuition discriminate. Qed.

(** The handle overwrites [state_]; the descriptor of the pipe survives. *)
Lemma start_clobbers_state h t : 0 <= h < 2 ^ 64 ->
  (Thread_Start (Some h) t).2 = mkThread (s32 h) ((h / 2 ^ 32) mod 256) (readfd_ t) (timeout_ t).
Proof.
  intros H. unfold Thread_Start. cbn [snd]. f_equal. rewrite Z.shiftr_div_pow2 by lia. change 255 with (Z.ones 8). by rewrite Z.land_ones by lia.
Qed.
