(* ===== verification/EasyTcpSpec.v ===== *)
(** * Correctness of the libevent thread pool

    No callback of a worker touches a deleted client, libevent knows exactly
    the events the flags say, messages leave in order as long as the kernel
    takes them whole; what a partial [send] does to a message, and where the
    dispatcher leaves its vector. *)

From stdpp Require Import gmap.
From S2P Require Import Prelude EasyTcp.

Definition mask (k : ev_kind) : Z := match k with EvRead => READ_EVENT_ON | EvWrite => WRITE_EVENT_ON end.

(** What of a message is kept: one that is too long is dropped. *)
Definition kept (m : list byte) : list byte := if MAXRECVLEN <? zlen m then [] else m.

Definition buf_whole (b : BufDesc) : Prop := pos_ b = 0 /\ len_ b = zlen (buf_ b) /\ zlen (buf_ b) <= MAXRECVLEN.

Record client_ok (c : Client) : Prop := {
  co_flag : 0 <= EventFlag c < 4;
  co_bufs : Forall buf_whole (sendBufList c);
  co_stream : cl_wire c ++ concat (buf_ <$> sendBufList c) = concat (kept <$> cl_sent c);
}.

Lemma flag_cases f : 0 <= f < 4 -> f = 0 \/ f = 1 \/ f = 2 \/ f = 3.
Proof. lia. Qed.

Lemma flag_set f k : 0 <= f < 4 ->
  0 <= Z.lor f WRITE_EVENT_ON < 4 /\ flag_on (Z.lor f WRITE_EVENT_ON) (mask k) = (flag_on f (mask k) || bool_decide (k = EvWrite)).
Proof. intros [-> | [-> | [-> | ->]]]%flag_cases; destruct k; vm_compute; repeat split; done. Qed.

Lemma flag_clear f k : 0 <= f < 4 ->
  0 <= Z.land f (Z.lnot WRITE_EVENT_ON) < 4 /\
  flag_on (Z.land f (Z.lnot WRITE_EVENT_ON)) (mask k) = (flag_on f (mask k) && bool_decide (k = EvRead)).
Proof. intros [-> | [-> | [-> | ->]]]%flag_cases; destruct k; vm_compute; repeat split; done. Qed.

Lemma BufDesc_whole m : 0 < zlen m -> buf_whole (BufDesc_ctor m) /\ buf_ (BufDesc_ctor m) = kept m.
Proof.
  intros Hm. unfold BufDesc_ctor, buf_whole, kept, MAXRECVLEN. destruct (Z.leb_spec (zlen m) 0); [lia|]. cbn [orb].
  destruct (Z.ltb_spec 1500 (zlen m)); cbn [buf_ len_ pos_]; [done|]. unfold u16. rewrite Z.mod_small by lia. repeat split. lia.
Qed.

Section Spec.

Context {B : Type} `{!Libevent B, !LibeventLaws B}.
Context (alloc : gmap Z Client -> Z).
Hypothesis alloc_fresh : forall h, h !! alloc h = None.

Record worker_inv (w : Worker B) : Prop := {
  wi_clients : forall p c, clients w !! p = Some c -> client_ok c;
  wi_events : forall p k, (p, k) ∈ ev_pending (base w) <-> exists c, clients w !! p = Some c /\ flag_on (EventFlag c) (mask k) = true;
}.

Lemma tcp_update_inv w p c c' : worker_inv w -> clients w !! p = Some c -> client_ok c' -> EventFlag c' = EventFlag c ->
  worker_inv (set_client p c' w).
Proof.
  intros [Hc He] Hp Hok Hf. split; cbn.
  - intros q d [[<- <-]|[_ Hq]]%lookup_insert_Some; [done|by eapply Hc].
  - intros q k. rewrite He. destruct (decide (q = p)) as [->|Hne].
    + rewrite lookup_insert_eq. rewrite Hp. split; intros (d & [= <-] & Hd); eexists; (split; [done|congruence]).
    + by rewrite lookup_insert_ne.
Qed.

Lemma set_write_inv w p c : worker_inv w -> clients w !! p = Some c ->
  exists w', SetWriteEvent p w = Ok w' /\ worker_inv w' /\ clients w' !! p = Some (set_flag (Z.lor (EventFlag c) WRITE_EVENT_ON) c) /\
    forall q, q <> p -> clients w' !! q = clients w !! q.
Proof.
  intros [Hc He] Hp. unfold SetWriteEvent, get_client. rewrite Hp. cbn [mbind outcome_bind]. eexists. split; [done|].
  pose proof (Hc _ _ Hp) as [Hf Hb Hs]. split_and!; [split; cbn| |].
  - intros q d [[<- <-]|[_ Hq]]%lookup_insert_Some; [|by eapply Hc]. destruct (flag_set (EventFlag c) EvRead Hf) as [? _]. by split.
  - intros q k. rewrite pending_add, elem_of_union, elem_of_singleton, He. destruct (decide (q = p)) as [->|Hne].
    + rewrite lookup_insert_eq, Hp. destruct (flag_set (EventFlag c) k Hf) as [_ Hk]. split.
      * intros [[= ->]|(d & [= <-] & Hd)]; eexists; (split; [done|]); cbn [EventFlag set_flag]; rewrite Hk; [by rewrite bool_decide_eq_true_2, orb_true_r|by rewrite Hd].
      * intros (d & [= <-] & Hd). cbn [EventFlag set_flag] in Hd. rewrite Hk in Hd. apply orb_true_iff in Hd as [Hd|Hd]; [right; eauto|].
        apply bool_decide_eq_true in Hd as ->. by left.
    + rewrite lookup_insert_ne by done. set_solver.
  - cbn. by rewrite lookup_insert_eq.
  - intros q Hq. cbn. by rewrite lookup_insert_ne.
Qed.

Lemma tcp_send_inv w p data : worker_inv w -> is_Some (clients w !! p) ->
  exists r w', Send p data w = Ok (r, w') /\ worker_inv w' /\ is_Some (clients w' !! p).
Proof.
  intros Hinv [c Hp]. unfold Send, get_client. destruct (Z.leb_spec (zlen data) 0); [by eauto 10|]. rewrite Hp. cbn [mbind outcome_bind].
  pose proof (wi_clients _ Hinv _ _ Hp) as [Hf Hb Hs]. destruct (BufDesc_whole data) as [Hw Hk]; [done|].
  destruct (set_write_inv (set_client p (put_sent data (set_list (sendBufList c ++ [BufDesc_ctor data]) c)) w) p
    (put_sent data (set_list (sendBufList c ++ [BufDesc_ctor data]) c))) as (w' & -> & Hi & Hc & _).
  - eapply tcp_update_inv; [done|done| |done]. split; cbn; [done|by apply Forall_app_2; [|constructor]|].
    rewrite !fmap_app, !concat_app, app_assoc, Hs. cbn. by rewrite Hk.
  - cbn. by rewrite lookup_insert_eq.
  - cbn. eauto 10.
Qed.

Lemma sends_inv p replies : forall w, worker_inv w -> is_Some (clients w !! p) ->
  exists w', foldM (fun w data => '(_, w') ← Send p data w; Ok w') w replies = Ok w' /\ worker_inv w'.
Proof.
  induction replies as [|m ms IH]; intros w Hi Hp; cbn [foldM]; [by eauto|].
  destruct (tcp_send_inv w p m Hi Hp) as (r & w1 & -> & H1 & Hp1). cbn. by apply IH.
Qed.

Lemma write_loop_inv p rs : forall w c, worker_inv w -> clients w !! p = Some c -> all_whole (sendBufList c) rs ->
  exists w', write_loop p rs w = Ok w' /\ worker_inv w'.
Proof.
  induction rs as [|r rs IH]; intros w c Hi Hp Ha; cbn [write_loop]; [by eauto|]. unfold write_once, get_client. rewrite Hp. cbn [mbind outcome_bind].
  pose proof (wi_clients _ Hi _ _ Hp) as [Hf Hb Hs]. destruct (sendBufList c) as [|b bs] eqn:El; [by eauto|].
  apply Forall_cons in Hb as [(Hpos & Hlen & Hmax) Hb]. cbn in Ha. destruct Ha as [Hw Ha].
  pose proof (zlen_nonneg (buf_ b)). destruct (Z.ltb_spec (len_ b - pos_ b) 0), (Z.ltb_spec (zlen (buf_ b)) (len_ b - pos_ b)); try lia. cbn [orb].
  destruct r as [| |n]; [| |].
  - destruct (set_write_inv w p c Hi Hp) as (w' & -> & Hi' & _). by eauto.
  - by eauto.
  - cbn in Hw. subst n. rewrite Z.eqb_refl. cbn [mbind outcome_bind]. eapply IH; [| |].
    + eapply (tcp_update_inv w p c); [done|done| |done]. split; cbn; [done|done|]. rewrite <- Hs. cbn [fmap list_fmap concat].
      rewrite <- app_assoc. f_equal. f_equal. apply take_ge. unfold zlen in *. lia.
    + cbn. apply lookup_insert_eq.
    + done.
Qed.

Lemma activate_write_inv w p c : worker_inv w -> clients w !! p = Some c ->
  worker_inv (set_client p (set_flag (Z.land (EventFlag c) (Z.lnot WRITE_EVENT_ON)) c) (set_base (event_activate (p, EvWrite) (base w)) w)).
Proof.
  intros [Hc He] Hp. pose proof (Hc _ _ Hp) as [Hf Hb Hs]. split; cbn.
  - intros q d [[<- <-]|[_ Hq]]%lookup_insert_Some; [|by eapply Hc]. destruct (flag_clear (EventFlag c) EvRead Hf) as [? _]. by split.
  - intros q k. rewrite pending_activate. cbn [snd]. rewrite elem_of_difference, elem_of_singleton, He. destruct (decide (q = p)) as [->|Hne].
    + rewrite lookup_insert_eq, Hp. destruct (flag_clear (EventFlag c) k Hf) as [_ Hk]. split.
      * intros [(d & [= <-] & Hd) Hn]. eexists. split; [done|]. cbn [EventFlag set_flag]. rewrite Hk, Hd. destruct k; [done|by destruct Hn].
      * intros (d & [= <-] & Hd). cbn [EventFlag set_flag] in Hd. rewrite Hk in Hd. apply andb_true_iff in Hd as [Hd Hr]. apply bool_decide_eq_true in Hr as ->. naive_solver.
    + rewrite lookup_insert_ne by done. naive_solver.
Qed.

Lemma activate_read_inv w p : worker_inv w -> worker_inv (set_base (event_activate (p, EvRead) (base w)) w).
Proof. intros [Hc He]. split; cbn; [done|]. intros q k. rewrite pending_activate. apply He. Qed.

Lemma delete_inv w p c : worker_inv w -> clients w !! p = Some c ->
  exists w', delete_client p w = Ok w' /\ worker_inv w' /\ clients w' = delete p (clients w).
Proof.
  intros [Hc He] Hp. unfold delete_client, get_client. rewrite Hp. cbn [mbind outcome_bind]. eexists. split; [done|].
  split; [|done]. split; cbn.
  - intros q d [_ Hq]%lookup_delete_Some. by eapply Hc.
  - set (b1 := if flag_on (EventFlag c) READ_EVENT_ON then event_del (p, EvRead) (base w) else base w).
    set (b2 := if flag_on (EventFlag c) WRITE_EVENT_ON then event_del (p, EvWrite) b1 else b1).
    assert (forall q k, (q, k) ∈ ev_pending b1 <-> (q, k) ∈ ev_pending (base w) /\ (q, k) <> (p, EvRead)) as H1.
    { intros q k. subst b1. destruct (flag_on (EventFlag c) READ_EVENT_ON) eqn:E; [rewrite pending_del; set_solver|]. split; [|tauto].
      intros Hin. split; [done|]. intros [= -> ->]. apply He in Hin as (d & Hd & Hf). cbn in Hf. congruence. }
    assert (forall q k, (q, k) ∈ ev_pending b2 <-> (q, k) ∈ ev_pending b1 /\ (q, k) <> (p, EvWrite)) as H2.
    { intros q k. subst b2. destruct (flag_on (EventFlag c) WRITE_EVENT_ON) eqn:E; [rewrite pending_del; set_solver|]. split; [|tauto].
      intros Hin. split; [done|]. intros [= -> ->]. apply H1 in Hin as [Hin _]. apply He in Hin as (d & Hd & Hf). cbn in Hf. congruence. }
    intros q k. rewrite H2, H1, He. destruct (decide (q = p)) as [->|Hne].
    + rewrite lookup_delete_eq. split; [|by intros (? & ? & _)]. intros [[_ ?] ?]. by destruct k.
    + rewrite lookup_delete_ne by done. naive_solver.
Qed.

Lemma connect_inv w fd nb : worker_inv w -> worker_inv (ProcessNewConnect alloc fd nb w).
Proof.
  intros Hi. unfold ProcessNewConnect. destruct nb; [|done]. destruct Hi as [Hc He]. pose proof (alloc_fresh (clients w)) as Hf. split; cbn.
  - intros q d [[<- <-]|[_ Hq]]%lookup_insert_Some; [by split|by eapply Hc].
  - intros q k. rewrite pending_add, elem_of_union, elem_of_singleton, He. destruct (decide (q = alloc (clients w))) as [->|Hne].
    + rewrite lookup_insert_eq, Hf. split.
      * intros [[= ->]|(d & [=] & _)]. by eexists.
      * intros (d & [= <-] & Hd). left. by destruct k.
    + rewrite lookup_insert_ne by done. set_solver.
Qed.

Lemma accept_inv rs : forall w, worker_inv w -> worker_inv (OnAccept alloc rs w).
Proof. induction rs as [|[fd nb| |] rs IH]; intros w Hi; cbn; [done| |by apply IH|done]. apply IH. by apply connect_inv. Qed.

Lemma worker_step_inv w l : worker_inv w -> label_ok w l -> exists w', worker_step alloc w l = Ok w' /\ worker_inv w'.
Proof.
  intros Hi Hl. destruct l as [rs|p len replies|p rs|p data]; cbn [worker_step label_ok] in *.
  - eexists. split; [done|]. by apply accept_inv.
  - apply (wi_events _ Hi) in Hl as (c & Hp & _). pose proof (activate_read_inv w p Hi) as H1. unfold OnRead, get_client. cbn [clients set_base]. rewrite Hp.
    cbn [mbind outcome_bind]. destruct (Z.leb_spec len 0); [|by apply sends_inv].
    destruct (delete_inv _ p c H1 Hp) as (w' & -> & [Hc He] & _). eexists. split; [done|]. by split.
  - destruct Hl as [Hp Hw]. apply (wi_events _ Hi) in Hp as (c & Hp & _). unfold OnWrite, get_client. cbn [clients set_base]. rewrite Hp. cbn [mbind outcome_bind].
    eapply write_loop_inv; [by apply activate_write_inv|cbn; apply lookup_insert_eq|]. exact (Hw c Hp).
  - destruct (tcp_send_inv w p data Hi Hl) as (r & w' & -> & Hi' & _). by eauto.
Qed.

Fixpoint labels_ok (w : Worker B) (ls : list worker_label) : Prop :=
  match ls with
  | [] => True
  | l :: ls' => label_ok w l /\ forall w', worker_step alloc w l = Ok w' -> labels_ok w' ls'
  end.


End Spec.

(** A base that is the set of its pending events. *)
#[local] Instance set_libevent : Libevent (gset (Z * ev_kind)) := {
  ev_pending := fun b => b;
  event_add := fun e b => {[e]} ∪ b;
  event_del := fun e b => b ∖ {[e]};
  event_activate := fun e b => match e.2 with EvRead => b | EvWrite => b ∖ {[e]} end;
}.

#[local] Instance set_libevent_laws : LibeventLaws (gset (Z * ev_kind)).
Proof. by split. Qed.

Definition next_client (h : gmap Z Client) : Z := 1 + foldr Z.max 0 (elements (dom h)).

Lemma next_client_fresh h : h !! next_client h = None.
Proof.
  apply not_elem_of_dom. intros Hin. apply elem_of_elements in Hin. unfold next_client in Hin.
  assert (forall l x, x ∈ l -> x <= foldr Z.max 0 l) as Hmax.
  { clear. induction l as [|y l IH]; intros x Hx; [by apply not_elem_of_nil in Hx|]. cbn. apply elem_of_cons in Hx as [->|Hx]; [lia|].
    specialize (IH x Hx). lia. }
  specialize (Hmax _ _ Hin). lia.
Qed.

Definition echo_labels : list worker_label :=
  [WAccept [PipeConn 9 true; PipeEmpty]; WRead 1 3 [[Byte.x61]; [Byte.x62; Byte.x63]]; WWrite 1 [SendCount 1; SendAgain];
   WWrite 1 [SendCount 2]; WRead 1 0 []].

Definition echo_start : Worker (gset (Z * ev_kind)) := mkWorker ∅ ∅ [].


(** ** Partial sends *)

Lemma write_once_all {B} `{!Libevent B} p n (w : Worker B) c b rest :
  clients w !! p = Some c -> sendBufList c = b :: rest -> 0 <= len_ b - pos_ b <= zlen (buf_ b) -> n = len_ b - pos_ b ->
  write_once p (SendCount n) w = Ok (set_client p (set_list rest (put_wire (take (Z.to_nat n) (buf_ b)) c)) w, true).
Proof.
  intros Hp Hl Hb ->. unfold write_once, get_client. rewrite Hp. cbn [mbind outcome_bind]. rewrite Hl.
  destruct (Z.ltb_spec (len_ b - pos_ b) 0), (Z.ltb_spec (zlen (buf_ b)) (len_ b - pos_ b)); try lia. cbn [orb]. by rewrite Z.eqb_refl.
Qed.

Lemma write_once_part {B} `{!Libevent B} p n (w : Worker B) c b rest :
  clients w !! p = Some c -> sendBufList c = b :: rest -> 0 <= len_ b - pos_ b <= zlen (buf_ b) -> n <> len_ b - pos_ b ->
  exists w', write_once p (SendCount n) w = Ok (w', true) /\
    clients w' !! p = Some (set_flag (Z.lor (EventFlag c) WRITE_EVENT_ON)
      (set_list (mkBufDesc (buf_ b) (len_ b) (u16 (pos_ b + (n + pos_ b))) :: rest) (put_wire (take (Z.to_nat n) (buf_ b)) c))).
Proof.
  intros Hp Hl Hb Hn. unfold write_once, get_client. rewrite Hp. cbn [mbind outcome_bind]. rewrite Hl.
  destruct (Z.ltb_spec (len_ b - pos_ b) 0), (Z.ltb_spec (zlen (buf_ b)) (len_ b - pos_ b)); try lia. cbn [orb].
  destruct (Z.eqb_spec n (len_ b - pos_ b)); [done|]. unfold SetWriteEvent, get_client. cbn. rewrite lookup_insert_eq. cbn.
  eexists. split; [done|]. cbn. apply lookup_insert_eq.
Qed.

(** When the kernel takes only [n] bytes of a message and then the rest it
    is asked for, the message is gone from the queue and what went out is its
    first [n] bytes followed by its first bytes again: [OnWrite] always sends
    from the start of the buffer. *)
Lemma easytcp_partial_send {B} `{!Libevent B} p (w : Worker B) c m n :
  clients w !! p = Some c -> sendBufList c = [BufDesc_ctor m] -> 0 < n < zlen m -> zlen m <= MAXRECVLEN ->
  exists w' c', OnWrite p [SendCount n; SendCount (zlen m - n)] w = Ok w' /\ clients w' !! p = Some c' /\
    sendBufList c' = [] /\ cl_wire c' = cl_wire c ++ take (Z.to_nat n) m ++ take (Z.to_nat (zlen m - n)) m.
Proof.
  intros Hp Hl Hn Hm. unfold OnWrite, get_client. rewrite Hp. cbn [mbind outcome_bind]. unfold MAXRECVLEN in *.
  assert (BufDesc_ctor m = mkBufDesc m (zlen m) 0) as Eb.
  { unfold BufDesc_ctor, MAXRECVLEN. destruct (Z.leb_spec (zlen m) 0), (Z.ltb_spec 1500 (zlen m)); try lia. cbn. unfold u16. by rewrite Z.mod_small by lia. }
  rewrite Eb in Hl. cbn [write_loop].
  set (c0 := set_flag (Z.land (EventFlag c) (Z.lnot WRITE_EVENT_ON)) c). set (w0 := set_client p c0 w).
  destruct (write_once_part p n w0 c0 (mkBufDesc m (zlen m) 0) []) as (w1 & -> & Hc1); [apply lookup_insert_eq|done|cbn; lia|cbn; lia|].
  cbn [mbind outcome_bind len_ pos_ buf_] in *. assert (u16 (0 + (n + 0)) = n) as E by (unfold u16; rewrite Z.mod_small; lia). rewrite E in Hc1.
  erewrite (write_once_all p _ w1 _ _ []); [|exact Hc1|done|cbn; lia|done]. cbn [mbind outcome_bind].
  do 2 eexists. split; [done|]. cbn. rewrite lookup_insert_eq. split; [done|]. cbn. split; [done|]. by rewrite <- app_assoc.
Qed.

Lemma easytcp_partial_send_witness :
  let w := mkWorker (∅ : gset (Z * ev_kind)) {[1 := mkClient 3 [BufDesc_ctor [Byte.x61; Byte.x62; Byte.x63]] 9 [] []]} [] in
  exists w' c', OnWrite 1 [SendCount 1; SendCount 2] w = Ok w' /\ clients w' !! 1 = Some c' /\ cl_wire c' = [Byte.x61; Byte.x61; Byte.x62].
Proof.
  destruct (easytcp_partial_send 1 (mkWorker (∅ : gset (Z * ev_kind)) {[1 := mkClient 3 [BufDesc_ctor [Byte.x61; Byte.x62; Byte.x63]] 9 [] []]} [])
    (mkClient 3 [BufDesc_ctor [Byte.x61; Byte.x62; Byte.x63]] 9 [] []) [Byte.x61; Byte.x62; Byte.x63] 1) as (w' & c' & H1 & H2 & _ & H4);
    [reflexivity|reflexivity|split; vm_compute; reflexivity|vm_compute; discriminate|].
  exists w', c'. split; [exact H1|]. split; [exact H2|exact H4].
Defined.

(** A job that keeps its message and replies after the client closed. *)
Lemma send_after_close_faults :
  (w ← foldM (worker_step next_client) echo_start echo_labels; worker_step next_client w (WSend 1 [Byte.x61])) = Fail UseAfterFree.
Proof. vm_compute. reflexivity. Qed.

(** ** The dispatcher *)

(** After [k] connections each of the first [k] pipes holds one. *)
Definition spread (n : nat) (fds : list Z) : list (list Z) := ((fun fd => [fd]) <$> fds) ++ replicate (n - length fds) [].

Lemma dispatch_run (n : nat) fds : Z.of_nat n < 2 ^ 16 -> (length fds <= n)%nat ->
  foldM dispatch (Threadpool_start (Z.of_nat n)) fds = Ok (mkThreadpool (Z.of_nat n) (zlen fds) (spread n fds)).
Proof.
  intros Hn. induction fds as [|fd fds IH] using rev_ind; intros Hl.
  - unfold Threadpool_start, spread, u16. cbn. rewrite Z.mod_small by lia. by rewrite Nat2Z.id, Nat.sub_0_r.
  - rewrite length_app in Hl. cbn in Hl. rewrite foldM_app, IH by lia. cbn [mbind outcome_bind foldM]. unfold dispatch. cbn [pipes next_ thread_num_].
    assert (Z.to_nat (zlen fds) = length fds) as El by (unfold zlen; lia). rewrite El. unfold spread at 1 2. replace (n - length fds)%nat with (S (n - S (length fds))) by lia. cbn [replicate].
    rewrite list_lookup_middle by (by rewrite length_fmap). rewrite insert_app_r_alt by (rewrite length_fmap; lia). rewrite length_fmap, Nat.sub_diag. cbn [insert list_insert].
    destruct (Z.eqb_spec (zlen fds) (Z.of_nat n)) as [E|_]; [unfold zlen in E; lia|]. cbn [mbind outcome_bind]. unfold u16. rewrite Z.mod_small by (unfold zlen; lia).
    unfold spread. rewrite zlen_app, zlen_singleton, fmap_app, length_app, <- app_assoc. cbn. by rewrite Nat.add_1_r.
Qed.

(** With [n] worker threads the first [n] connections go to one thread
    each, and the next one indexes past the end of the vector of threads: the
    counter is compared with the number of threads after the last valid index
    was used. *)
Lemma easytcp_dispatch (n : nat) fds fd : Z.of_nat n < 2 ^ 16 -> length fds = n ->
  foldM dispatch (Threadpool_start (Z.of_nat n)) fds = Ok (mkThreadpool (Z.of_nat n) (Z.of_nat n) ((fun fd => [fd]) <$> fds)) /\
  foldM dispatch (Threadpool_start (Z.of_nat n)) (fds ++ [fd]) = Fail OutOfBounds.
Proof.
  intros Hn Hl. rewrite foldM_app, dispatch_run by lia. unfold spread. rewrite Hl, Nat.sub_diag. cbn [replicate]. rewrite app_nil_r.
  unfold zlen. rewrite Hl. split; [done|]. cbn [mbind outcome_bind foldM]. unfold dispatch. cbn [pipes next_].
  rewrite Nat2Z.id, lookup_ge_None_2; [done|]. rewrite length_fmap. lia.
Qed.

Lemma easytcp_dispatch_witness : foldM dispatch (Threadpool_start 2) [5; 6; 7] = Fail OutOfBounds.
Proof. exact (proj2 (easytcp_dispatch 2 [5; 6] 7 ltac:(lia) eq_refl)). Defined.
