(* ===== verification/SpinLock.v ===== *)
(** * The spin lock: src/common/lock.h, atomic_op.h

    Threads run [lock], [tryLock] and [unlock] one atomic access at a time:
    the interlocked increments and decrements, and the three separate reads of
    [needWait]. A thread is its place in the code; any thread may go next. The
    constructor does not initialise the counters: they start as whatever the
    storage holds. *)

From S2P Require Import Prelude.

(** ** The lock word by word *)

(** Where a thread is. [R1 k], [R2 k] and [R3 k w] are the three reads of
    [needWait], in the test of the outer loop when [k] is [None] and in the
    inner loop with [i = k] otherwise; [w] is what was read in
    [m_nNumWaitThread]. *)
Inductive place : Type :=
| Out
| FastLock
| SlowWait
| R1 (k : option Z)
| R2 (k : option Z)
| R3 (k : option Z) (w : Z)
| LeaveWait
| SlowLock
| BackOff
| Inside
| Unlock2
| Try2
| TryFail2
| TryFail1.

Record SpinLock : Type := mkSpinLock {
  m_nNumEnterThread : Z;
  m_nNumWaitThread : Z;
  m_bLocked : Z;
  threads : list place;
}.

(** The constructor leaves the three words as they are in memory. *)
Definition SpinLock_ctor (enter wait locked : Z) (n : nat) : SpinLock := mkSpinLock enter wait locked (replicate n Out).

Definition set_enter e s := mkSpinLock e (m_nNumWaitThread s) (m_bLocked s) (threads s).
Definition set_wait w s := mkSpinLock (m_nNumEnterThread s) w (m_bLocked s) (threads s).
Definition set_locked l s := mkSpinLock (m_nNumEnterThread s) (m_nNumWaitThread s) l (threads s).
Definition go (i : nat) (p : place) (s : SpinLock) : SpinLock :=
  mkSpinLock (m_nNumEnterThread s) (m_nNumWaitThread s) (m_bLocked s) (<[i := p]> (threads s)).

(** What a thread outside calls next. *)
Inductive call : Set := CallLock | CallTryLock.

Definition nNumSpin : Z := 2000.

(** After a [needWait] that gave true, and after one that gave false: the
    outer loop goes into the inner one with [i = 0], the inner one counts its
    turns and hands back to the outer test. *)
Definition waited (k : option Z) : place :=
  match k with
  | None => R1 (Some 0)
  | Some i => R1 (if i + 1 <? nNumSpin then Some (i + 1) else None)
  end.
Definition passed (k : option Z) : place :=
  match k with None => LeaveWait | Some _ => R1 None end.

(** The first access of [lock]. *)
Definition lock_enter (i : nat) (s : SpinLock) : SpinLock :=
  let e := m_nNumEnterThread s + 1 in
  go i (if 1 <? e then SlowWait else FastLock) (set_enter e s).

(** The rest of [lock]. *)
Definition lock_step (i : nat) (p : place) (s : SpinLock) : SpinLock :=
  match p with
  | FastLock => go i Inside (set_locked (m_bLocked s + 1) s)
  | SlowWait => go i (R1 None) (set_wait (m_nNumWaitThread s + 1) s)
  | R1 k => go i (if m_bLocked s =? 0 then R2 k else waited k) s
  | R2 k => go i (R3 k (m_nNumWaitThread s)) s
  | R3 k w => go i (if w =? m_nNumEnterThread s then passed k else waited k) s
  | LeaveWait => go i SlowLock (set_wait (m_nNumWaitThread s - 1) s)
  | SlowLock => let l := m_bLocked s + 1 in go i (if 1 <? l then BackOff else Inside) (set_locked l s)
  | BackOff => go i SlowWait (set_locked (m_bLocked s - 1) s)
  | _ => s
  end.

Definition tryLock_step (i : nat) (p : place) (s : SpinLock) : SpinLock :=
  match p with
  | Out => let l := m_bLocked s + 1 in go i (if 1 <? l then TryFail1 else Try2) (set_locked l s)
  | Try2 => let e := m_nNumEnterThread s + 1 in go i (if 1 <? e then TryFail2 else Inside) (set_enter e s)
  | TryFail2 => go i TryFail1 (set_enter (m_nNumEnterThread s - 1) s)
  | TryFail1 => go i Out (set_locked (m_bLocked s - 1) s)
  | _ => s
  end.

Definition unlock_step (i : nat) (p : place) (s : SpinLock) : SpinLock :=
  match p with
  | Inside => go i Unlock2 (set_enter (m_nNumEnterThread s - 1) s)
  | Unlock2 => go i Out (set_locked (m_bLocked s - 1) s)
  | _ => s
  end.

(** Thread [i] makes its next access. *)
Definition spin_step (s : SpinLock) (l : nat * call) : SpinLock :=
  match threads s !! l.1 with
  | None => s
  | Some Out => match l.2 with CallTryLock => tryLock_step l.1 Out s | _ => lock_enter l.1 s end
  | Some ((Try2 | TryFail2 | TryFail1) as p) => tryLock_step l.1 p s
  | Some ((Inside | Unlock2) as p) => unlock_step l.1 p s
  | Some p => lock_step l.1 p s
  end.

Definition spin_run (s : SpinLock) (ls : list (nat * call)) : SpinLock := foldl spin_step s ls.

(** ** Counting threads by place *)

Definition in_enter (p : place) : bool :=
  match p with FastLock | SlowWait | R1 _ | R2 _ | R3 _ _ | LeaveWait | SlowLock | BackOff | Inside | TryFail2 => true | _ => false end.
Definition in_wait (p : place) : bool := match p with R1 _ | R2 _ | R3 _ _ | LeaveWait => true | _ => false end.
Definition in_locked (p : place) : bool := match p with Inside | BackOff | Unlock2 | TryFail1 | Try2 | TryFail2 => true | _ => false end.
Definition in_slow (p : place) : bool :=
  match p with SlowWait | R1 _ | R2 _ | R3 _ _ | LeaveWait | SlowLock | BackOff => true | _ => false end.
Definition is_fast (p : place) : bool := match p with FastLock => true | _ => false end.
Definition is_inside (p : place) : bool := match p with Inside => true | _ => false end.
Definition is_passing (p : place) : bool := match p with LeaveWait | SlowLock => true | _ => false end.

Definition b2z (b : bool) : Z := if b then 1 else 0.

Fixpoint tally (f : place -> bool) (ps : list place) : Z :=
  match ps with
  | [] => 0
  | p :: ps' => b2z (f p) + tally f ps'
  end.

Lemma tally_nonneg f ps : 0 <= tally f ps.
Proof. induction ps as [|p ps IH]; cbn; [lia|]. destruct (f p); cbn; lia. Qed.

Lemma tally_insert f ps i p q : ps !! i = Some p -> tally f (<[i := q]> ps) = tally f ps - b2z (f p) + b2z (f q).
Proof.
  revert i. induction ps as [|x ps IH]; intros [|i] Hi; cbn in Hi; [done|done| |].
  - injection Hi as ->. cbn. lia.
  - change (<[S i := q]> (x :: ps)) with (x :: <[i := q]> ps). cbn [tally]. rewrite (IH i Hi). lia.
Qed.

Lemma tally_lookup f ps i p : ps !! i = Some p -> f p = true -> 1 <= tally f ps.
Proof.
  revert i. induction ps as [|x ps IH]; intros [|i] Hi Hf; cbn in Hi; [done|done| |]; cbn [tally].
  - injection Hi as ->. rewrite Hf. pose proof (tally_nonneg f ps). cbn. lia.
  - specialize (IH i Hi Hf). destruct (f x); cbn; lia.
Qed.

Lemma tally_le f g ps : (forall p, f p = true -> g p = true) -> tally f ps <= tally g ps.
Proof. intros H. induction ps as [|p ps IH]; cbn; [lia|]. specialize (H p). destruct (f p), (g p); cbn; lia. Qed.

Lemma tally_replicate f n : f Out = false -> tally f (replicate n Out) = 0.
Proof. intros H. induction n; cbn; [done|]. by rewrite H, IHn. Qed.

(** Every entered thread is slow, fast, inside, or on its way out of a failed
    [tryLock]. *)
Lemma enter_split ps : tally in_enter ps =
  tally in_slow ps + tally is_fast ps + tally is_inside ps + tally (fun p => match p with TryFail2 => true | _ => false end) ps.
Proof. induction ps as [|p ps IH]; cbn; [done|]. rewrite IH. destruct p; cbn; lia. Qed.

(** ** The invariant *)

Record spin_inv (s : SpinLock) : Prop := {
  sp_enter : m_nNumEnterThread s = tally in_enter (threads s);
  sp_wait : m_nNumWaitThread s = tally in_wait (threads s);
  sp_locked : m_bLocked s = tally in_locked (threads s);
  sp_owner : tally is_fast (threads s) + tally is_inside (threads s) <= 1;
  sp_passing : 0 < tally is_fast (threads s) -> tally is_passing (threads s) = 0;
  sp_stale : forall i k w, 0 < tally is_fast (threads s) -> threads s !! i = Some (R3 k w) -> w <= tally in_slow (threads s);
}.

(** The counters after a move, and the numbers a proof compares. *)
#[local] Ltac count Hi :=
  cbn [m_nNumEnterThread m_nNumWaitThread m_bLocked threads go set_enter set_wait set_locked] in *;
  rewrite ?(tally_insert in_enter _ _ _ _ Hi), ?(tally_insert in_wait _ _ _ _ Hi), ?(tally_insert in_locked _ _ _ _ Hi),
    ?(tally_insert is_fast _ _ _ _ Hi), ?(tally_insert is_inside _ _ _ _ Hi), ?(tally_insert is_passing _ _ _ _ Hi),
    ?(tally_insert in_slow _ _ _ _ Hi) in *; cbn [b2z in_enter in_wait in_locked in_slow is_fast is_inside is_passing] in *.

(** A move of thread [i] from [p] to [q]: the counters follow, and what is
    left to show of the owner and of stale reads. *)
Lemma move_inv s i p q e w l : spin_inv s -> threads s !! i = Some p ->
  e = m_nNumEnterThread s - b2z (in_enter p) + b2z (in_enter q) ->
  w = m_nNumWaitThread s - b2z (in_wait p) + b2z (in_wait q) ->
  l = m_bLocked s - b2z (in_locked p) + b2z (in_locked q) ->
  (is_fast q = true -> tally in_enter (threads s) = 0) ->
  (is_inside q = true -> is_fast p = false -> tally is_fast (threads s) + tally is_inside (threads s) = 0) ->
  (is_passing q = true -> is_passing p = false -> tally is_fast (threads s) = 0) ->
  (in_slow p = true -> in_slow q = false -> tally is_fast (threads s) = 0) ->
  (forall k x, q = R3 k x -> 0 < tally is_fast (threads s) -> x <= tally in_slow (threads s) - b2z (in_slow p) + b2z (in_slow q)) ->
  spin_inv (mkSpinLock e w l (<[i := q]> (threads s))).
Proof.
  intros [He Hw Hl Ho Hp Hs] Hi -> -> -> Hfast Hin Hpass Hslow Hr3. pose proof (tally_nonneg is_fast (threads s)) as Hf0.
  pose proof (tally_nonneg is_inside (threads s)). pose proof (tally_nonneg is_passing (threads s)).
  assert (forall f, (forall x, f x = true -> in_enter x = true) -> is_fast q = true -> tally f (threads s) = 0) as Hnone.
  { intros f Hf Hq. pose proof (tally_le f in_enter (threads s) Hf). pose proof (tally_nonneg f (threads s)). specialize (Hfast Hq). lia. }
  assert (is_fast q = true -> is_fast p = false) as Hqp.
  { intros Hq. destruct (is_fast p) eqn:E; [|done]. pose proof (tally_lookup is_fast _ _ _ Hi E). rewrite Hnone in H1; [lia|by intros []|done]. }
  split; count Hi.
  - by rewrite He.
  - by rewrite Hw.
  - by rewrite Hl.
  - destruct (is_fast q) eqn:Eq.
    + rewrite (Hnone is_fast), (Hnone is_inside) by (done || by intros []). destruct q; cbn in *; try done. rewrite Hqp by done. destruct (is_inside p) eqn:E; cbn; [|lia].
      pose proof (tally_lookup is_inside _ _ _ Hi E). rewrite (Hnone is_inside) in H1; [lia|by intros []|done].
    + destruct (is_inside q) eqn:E; cbn; [|destruct (is_fast p), (is_inside p); cbn; lia].
      destruct (is_fast p) eqn:Ep; cbn; [destruct p; try done; cbn; lia|]. specialize (Hin eq_refl eq_refl). destruct (is_inside p); cbn; lia.
  - intros Hf. destruct (is_fast q) eqn:Eq.
    + rewrite (Hnone is_passing) by (done || by intros []). destruct q; try done. cbn. destruct (is_passing p) eqn:E; cbn; [|done].
      pose proof (tally_lookup is_passing _ _ _ Hi E). rewrite (Hnone is_passing) in H1; [lia|by intros []|done].
    + cbn in Hf. destruct (is_passing q) eqn:E; [|].
      * destruct (is_passing p) eqn:E'; cbn; [rewrite Hp by (destruct (is_fast p); cbn in Hf; lia); lia|]. specialize (Hpass eq_refl eq_refl). destruct (is_fast p); cbn in Hf; lia.
      * destruct (is_passing p) eqn:E'; cbn; rewrite Hp by (destruct (is_fast p); cbn in Hf; lia); [|done].
        pose proof (tally_lookup is_passing _ _ _ Hi E'). rewrite Hp in H1; [lia|]. destruct (is_fast p); cbn in Hf; lia.
  - intros j k x Hf Hj. destruct (decide (i = j)) as [<-|Hne].
    + rewrite list_lookup_insert_eq in Hj by (by eapply lookup_lt_Some). injection Hj as ->. cbn in Hf. apply (Hr3 k); [done|]. destruct (is_fast p); cbn in Hf; lia.
    + rewrite list_lookup_insert_ne in Hj by done. destruct (is_fast q) eqn:Eq.
      * pose proof (tally_lookup in_slow _ _ _ Hj eq_refl). rewrite (Hnone in_slow) in H1; [lia|by intros []|done].
      * cbn in Hf. assert (0 < tally is_fast (threads s)) as Hpos by (destruct (is_fast p); cbn in Hf; lia). specialize (Hs j k x Hpos Hj).
        destruct (in_slow p) eqn:Ep, (in_slow q) eqn:Eq'; cbn; lia.
Qed.

Lemma waited_quiet k : (forall x w, waited k <> R3 x w) /\ in_enter (waited k) = true /\ in_wait (waited k) = true
  /\ in_locked (waited k) = false /\ in_slow (waited k) = true /\ is_passing (waited k) = false
  /\ is_fast (waited k) = false /\ is_inside (waited k) = false.
Proof. destruct k; done. Qed.

Lemma slow_below ps : tally in_wait ps <= tally in_slow ps.
Proof. apply tally_le. by intros []. Qed.

(** A read that lets a thread pass shows that nobody is on the fast path: the
    fast thread counts as entered and never as waiting. *)
Lemma pass_alone s i k w : spin_inv s -> threads s !! i = Some (R3 k w) -> w = m_nNumEnterThread s -> tally is_fast (threads s) = 0.
Proof.
  intros Hs Hi Hw. pose proof (tally_nonneg is_fast (threads s)). destruct (decide (0 < tally is_fast (threads s))) as [Hf|]; [|lia].
  pose proof (sp_stale s Hs i k w Hf Hi) as Hle. rewrite Hw, (sp_enter s Hs), enter_split in Hle.
  pose proof (tally_nonneg is_inside (threads s)).
  pose proof (tally_nonneg (fun p => match p with TryFail2 => true | _ => false end) (threads s)). lia.
Qed.

(** The three counters never exceed the number of threads. *)
Lemma tally_bound f ps : 0 <= tally f ps <= Z.of_nat (length ps).
Proof. split; [apply tally_nonneg|]. induction ps as [|p ps IH]; cbn [tally length]; [lia|]. destruct (f p); cbn [b2z]; lia. Qed.

(** The thread at [Hi] makes its move; what automation leaves is about the owner. *)
#[local] Ltac moved Hi := eapply move_inv; [done|exact Hi|cbn; lia..|try done|try done|try done|try done|try done].
#[local] Ltac move_waited k Hi :=
  let H1 := fresh in let H2 := fresh in let H3 := fresh in let H4 := fresh in
  destruct (waited_quiet k) as (H1 & H2 & H3 & H4 & ? & ? & ? & ?);
  eapply move_inv; [done|exact Hi|rewrite ?H2, ?H3, ?H4; cbn; lia..|congruence|congruence|congruence|congruence|congruence].

Lemma lock_step_inv s i p : spin_inv s -> threads s !! i = Some p -> spin_inv (lock_step i p s).
Proof.
  intros Hs Hi. assert (threads s = <[i := p]> (threads s)) as Hid by (by rewrite list_insert_id).
  pose proof (tally_bound is_inside (threads s)). pose proof (tally_bound is_fast (threads s)).
  destruct p as [| | |k|k|k w| | | | | | | |]; cbn [lock_step]; try done; unfold go, set_enter, set_wait, set_locked;
    cbn [m_nNumEnterThread m_nNumWaitThread m_bLocked threads].
  - moved Hi.
  - moved Hi.
  - destruct (m_bLocked s =? 0) eqn:E; [moved Hi|].
    move_waited k Hi.
  - moved Hi.
    intros x y [= <- <-] _. cbn. rewrite (sp_wait s Hs). pose proof (slow_below (threads s)). lia.
  - destruct (w =? m_nNumEnterThread s) eqn:E.
    + apply Z.eqb_eq in E. pose proof (pass_alone s i k w Hs Hi E).
      destruct k; moved Hi.
    + move_waited k Hi.
  - moved Hi.
  - assert (tally is_fast (threads s) = 0) as Hf.
    { pose proof (tally_lookup is_passing _ _ _ Hi eq_refl). destruct (decide (0 < tally is_fast (threads s))) as [Hf|]; [|lia].
      rewrite (sp_passing s Hs Hf) in H1. lia. }
    destruct (1 <? m_bLocked s + 1) eqn:E; moved Hi.
    intros _ _. rewrite Hf. apply Z.ltb_ge in E. rewrite (sp_locked s Hs) in E.
    pose proof (tally_le is_inside in_locked (threads s) ltac:(by intros [])). lia.
  - moved Hi.
Qed.

Lemma spin_step_inv s l : spin_inv s -> spin_inv (spin_step s l).
Proof.
  intros Hs. unfold spin_step. destruct l as [i c]. cbn [fst snd]. destruct (threads s !! i) as [p|] eqn:Hi; [|done].
  pose proof (tally_bound is_inside (threads s)). pose proof (tally_bound is_fast (threads s)).
  pose proof (tally_le is_inside in_enter (threads s) ltac:(by intros [])). pose proof (tally_le is_fast in_enter (threads s) ltac:(by intros [])).
  pose proof (sp_enter s Hs) as He. pose proof (tally_bound in_enter (threads s)).
  destruct p; try (by apply lock_step_inv); cbn [tryLock_step unlock_step]; unfold lock_enter, go, set_enter, set_wait, set_locked;
    cbn [m_nNumEnterThread m_nNumWaitThread m_bLocked threads].
  - destruct c; [destruct (1 <? m_nNumEnterThread s + 1) eqn:E; moved Hi; lia|].
    destruct (1 <? m_bLocked s + 1) eqn:E; moved Hi.
  - moved Hi.
  - moved Hi.
  - destruct (1 <? m_nNumEnterThread s + 1) eqn:E; moved Hi. lia.
  - moved Hi.
  - moved Hi.
Qed.

Lemma spin_run_inv ls s : spin_inv s -> spin_inv (spin_run s ls).
Proof. revert s. induction ls as [|l ls IH]; intros s Hs; [done|]. apply IH. by apply spin_step_inv. Qed.

Lemma spin_ctor_inv n : spin_inv (SpinLock_ctor 0 0 0 n).
Proof.
  split; cbn [SpinLock_ctor m_nNumEnterThread m_nNumWaitThread m_bLocked threads]; rewrite ?tally_replicate by done; try done; try lia.
Qed.

Lemma step_length s l : length (threads (spin_step s l)) = length (threads s).
Proof.
  unfold spin_step, lock_enter, lock_step, tryLock_step, unlock_step. destruct (threads s !! l.1) as [[]|]; try destruct l.2; cbn; by rewrite ?length_insert.
Qed.

(** ** Waiters get in *)

Definition spinning (p : place) : bool := match p with R1 _ | R2 _ | R3 _ _ => true | _ => false end.
Definition quiet (p : place) : bool := match p with Out => true | _ => spinning p end.

Definition solo (i n : nat) (s : SpinLock) : SpinLock := spin_run s (replicate n (i, CallLock)).

Lemma solo_S i n s : solo i (S n) s = solo i n (spin_step s (i, CallLock)).
Proof. done. Qed.

(** With everybody outside or spinning, the lock word is free and every
    thread that entered waits. *)
Lemma quiet_counts s : spin_inv s -> Forall (fun p => quiet p = true) (threads s) ->
  m_bLocked s = 0 /\ m_nNumWaitThread s = m_nNumEnterThread s.
Proof.
  intros Hs Hq. rewrite (sp_locked s Hs), (sp_wait s Hs), (sp_enter s Hs). induction Hq as [|p ps Hp _ [IH1 IH2]]; [done|].
  cbn [tally]. rewrite IH1, IH2. by destruct p.
Qed.

(** [s] is such a state, with thread [i] at [p]. *)
Definition at_spin (i : nat) (p : place) (s : SpinLock) : Prop :=
  spin_inv s /\ Forall (fun x => quiet x = true) (threads s) /\ threads s !! i = Some p.

Lemma at_spin_go i p q s : at_spin i p s -> spinning q = true -> spin_step s (i, CallLock) = go i q s ->
  at_spin i q (spin_step s (i, CallLock)).
Proof.
  intros (Hs & Hq & Hi) Hsq E. split; [by apply spin_step_inv|]. rewrite E. split; cbn [go threads].
  - apply Forall_insert; [done|]. by destruct q.
  - apply list_lookup_insert_eq. by eapply lookup_lt_Some.
Qed.

Lemma solo_app i m n s : solo i (m + n) s = solo i n (solo i m s).
Proof. unfold solo, spin_run. by rewrite replicate_add, foldl_app. Qed.

(** A step of a thread whose place is known. *)
Lemma step_at i p s : threads s !! i = Some p -> in_slow p = true -> spin_step s (i, CallLock) = lock_step i p s.
Proof. intros Hi Hp. unfold spin_step. cbn [fst]. rewrite Hi. by destruct p. Qed.

Lemma go_at i p q s : threads s !! i = Some p -> threads (go i q s) !! i = Some q.
Proof. intros Hi. apply list_lookup_insert_eq. by eapply lookup_lt_Some. Qed.

(** From the last read of the outer test with the right count. *)
Lemma solo_pass i s : at_spin i (R3 None (m_nNumEnterThread s)) s -> threads (solo i 3 s) !! i = Some Inside.
Proof.
  intros (Hs & Hq & Hi). destruct (quiet_counts s Hs Hq) as [HL _]. rewrite solo_S, (step_at _ _ _ Hi) by done. cbn [lock_step].
  rewrite Z.eqb_refl. cbn [passed]. pose proof (go_at i _ LeaveWait s Hi) as Hi2.
  rewrite solo_S, (step_at _ _ _ Hi2) by done. cbn [lock_step]. set (s2 := set_wait _ _).
  assert (threads s2 !! i = Some LeaveWait) as Hi3 by done. pose proof (go_at i _ SlowLock s2 Hi3) as Hi4.
  rewrite solo_S, (step_at _ _ _ Hi4) by done. unfold lock_step. replace (m_bLocked (go i SlowLock s2)) with 0 by done.
  by apply (go_at i SlowLock).
Qed.

Lemma solo_R2 i k s : at_spin i (R2 k) s -> at_spin i (R3 k (m_nNumEnterThread s)) (solo i 1 s) /\ m_nNumEnterThread (solo i 1 s) = m_nNumEnterThread s.
Proof.
  intros H. pose proof H as (Hs & Hq & Hi). destruct (quiet_counts s Hs Hq) as [_ HW]. rewrite <- HW. rewrite solo_S.
  assert (spin_step s (i, CallLock) = go i (R3 k (m_nNumWaitThread s)) s) as E by by rewrite (step_at _ _ _ Hi).
  split; [by apply (at_spin_go _ _ _ _ H)|]. by rewrite E.
Qed.

Lemma solo_R1 i k s : at_spin i (R1 k) s -> at_spin i (R2 k) (solo i 1 s).
Proof.
  intros H. pose proof H as (Hs & Hq & Hi). destruct (quiet_counts s Hs Hq) as [HL _]. rewrite solo_S.
  apply (at_spin_go _ _ _ _ H); [done|]. rewrite (step_at _ _ _ Hi) by done. cbn [lock_step]. by rewrite HL.
Qed.

(** Out of the inner loop and through the outer test. *)
Lemma solo_R3_inner i j s : at_spin i (R3 (Some j) (m_nNumEnterThread s)) s -> at_spin i (R1 None) (solo i 1 s).
Proof.
  intros H. pose proof H as (Hs & Hq & Hi). rewrite solo_S. apply (at_spin_go _ _ _ _ H); [done|].
  rewrite (step_at _ _ _ Hi) by done. cbn [lock_step]. by rewrite Z.eqb_refl.
Qed.

Lemma solo_R1_None i s : at_spin i (R1 None) s -> threads (solo i 5 s) !! i = Some Inside.
Proof.
  intros H. change 5%nat with (1 + (1 + 3))%nat. rewrite 2 solo_app. apply solo_R1, solo_R2 in H as [H E].
  apply solo_pass. by rewrite E.
Qed.

Lemma solo_R1_in i k s : at_spin i (R1 k) s -> exists n, (n <= 8)%nat /\ threads (solo i n s) !! i = Some Inside.
Proof.
  intros H. destruct k as [j|]; [|exists 5%nat; split; [lia|by apply solo_R1_None]]. exists (1 + (1 + (1 + 5)))%nat. split; [lia|].
  rewrite 3 solo_app. apply solo_R1, solo_R2 in H as [H E]. apply solo_R1_None, (solo_R3_inner i j). by rewrite E.
Qed.

Lemma solo_R3_in i k w s : at_spin i (R3 k w) s -> exists n, (n <= 9)%nat /\ threads (solo i n s) !! i = Some Inside.
Proof.
  intros H. destruct (decide (w = m_nNumEnterThread s)) as [->|Hw].
  - destruct k as [j|]; [|exists 3%nat; split; [lia|by apply solo_pass]]. exists (1 + 5)%nat. split; [lia|].
    rewrite solo_app. by apply solo_R1_None, (solo_R3_inner i j).
  - pose proof H as (Hs & Hq & Hi). assert (exists k', waited k = R1 k') as [k' Ek] by (destruct k; by eexists).
    destruct (solo_R1_in i k' (solo i 1 s)) as (n & Hn & Hin).
    + rewrite solo_S. apply (at_spin_go _ _ _ _ H); [done|]. rewrite (step_at _ _ _ Hi) by done. cbn [lock_step].
      rewrite (proj2 (Z.eqb_neq _ _) Hw). by rewrite Ek.
    + exists (1 + n)%nat. split; [lia|]. by rewrite solo_app.
Qed.

Lemma solo_spin_in i p s : at_spin i p s -> spinning p = true -> exists n, (n <= 10)%nat /\ threads (solo i n s) !! i = Some Inside.
Proof.
  intros H Hp. destruct p; try done.
  - destruct (solo_R1_in _ _ _ H) as (n & Hn & E). exists n. split; [lia|done].
  - apply solo_R2 in H as [H _]. destruct (solo_R3_in _ _ _ _ H) as (n & Hn & E). exists (1 + n)%nat. split; [lia|]. by rewrite solo_app.
  - destruct (solo_R3_in _ _ _ _ H) as (n & Hn & E). exists n. split; [lia|done].
Qed.

Lemma run_length ls s : length (threads (spin_run s ls)) = length (threads s).
Proof. revert s. induction ls as [|l ls IH]; intros s; [done|]. change (spin_run s (l :: ls)) with (spin_run (spin_step s l) ls). by rewrite IH, step_length. Qed.

(** C21: the spin lock of any number of threads, in storage that was zeroed
    before (the constructor does not initialise the counters; with -1 in
    [m_nNumEnterThread] two threads get in, [garbage_enter_two_inside], with 1
    in [m_bLocked] nobody does, [garbage_word_blocks]), whatever the
    interleaving of their atomic accesses: at most one thread is inside
    (through [lock] or [tryLock]); the three counters stay between zero and
    the number of threads, so that fewer than 2^31 threads never wrap them;
    and the lock is never stuck: when all the others are outside or spinning,
    a spinning thread left to itself is inside after at most ten accesses. *)
Theorem spin_lock_correct enter wait locked n ls : enter = 0 -> wait = 0 -> locked = 0 ->
  let s := spin_run (SpinLock_ctor enter wait locked n) ls in
  tally is_inside (threads s) <= 1
  /\ (0 <= m_nNumEnterThread s <= Z.of_nat n /\ 0 <= m_nNumWaitThread s <= Z.of_nat n /\ 0 <= m_bLocked s <= Z.of_nat n)
  /\ (Forall (fun p => quiet p = true) (threads s) -> forall i p, threads s !! i = Some p -> spinning p = true ->
      exists k, (k <= 10)%nat /\ threads (solo i k s) !! i = Some Inside).
Proof.
  intros -> -> -> s. assert (spin_inv s) as Hs by apply spin_run_inv, spin_ctor_inv.
  assert (length (threads s) = n) as Hn by (unfold s; rewrite run_length; apply length_replicate).
  rewrite (sp_enter s Hs), (sp_wait s Hs), (sp_locked s Hs), <- Hn. split; [|split].
  - pose proof (sp_owner s Hs). pose proof (tally_nonneg is_fast (threads s)). lia.
  - auto using tally_bound.
  - intros Hq i p Hi Hp. by apply (solo_spin_in i p).
Qed.

(** The first thread holds the lock, the second spins, the first leaves: the
    second gets in. *)
Definition contended : list (nat * call) :=
  [(0, CallLock); (0, CallLock); (1, CallLock); (1, CallLock); (1, CallLock); (0, CallLock); (0, CallLock)]%nat.

Lemma spin_lock_correct_witness :
  threads (spin_run (SpinLock_ctor 0 0 0 2) contended) = [Out; R1 (Some 0)]
  /\ exists k, (k <= 10)%nat /\ threads (solo 1 k (spin_run (SpinLock_ctor 0 0 0 2) contended)) !! 1%nat = Some Inside.
Proof.
  split; [reflexivity|]. apply (spin_lock_correct 0 0 0 2 contended eq_refl eq_refl eq_refl) with (p := R1 (Some 0)); [|reflexivity|reflexivity].
  change (threads (spin_run (SpinLock_ctor 0 0 0 2) contended)) with [Out; R1 (Some 0)]. repeat constructor.
Defined.

(** [tryLock] may fail with nobody inside: a waiter that backs off, or another
    failing [tryLock], holds the word for a moment. *)
Lemma tryLock_spurious : threads (spin_run (SpinLock_ctor 0 0 0 3)
  [(0, CallLock); (1, CallTryLock); (2, CallTryLock); (1, CallLock); (1, CallLock); (1, CallLock); (2, CallLock)]%nat) = [FastLock; Out; Out].
Proof. reflexivity. Qed.

(** A counter of entered threads that storage left at -1 lets two threads in. *)
Lemma garbage_enter_two_inside : threads (spin_run (SpinLock_ctor (-1) 0 0 2)
  [(0, CallLock); (0, CallLock); (1, CallLock); (1, CallLock)]%nat) = [Inside; Inside].
Proof. reflexivity. Qed.

(** A word that storage left at 1 keeps a waiter spinning for ever: alone, it
    only ever reads it. *)
Lemma garbage_word_blocks n : let s := spin_run (SpinLock_ctor 0 0 1 2) contended in
  exists k, threads (solo 1 n s) = [Out; R1 k] /\ m_bLocked (solo 1 n s) = 1.
Proof.
  cbn zeta. set (s := spin_run _ _). assert (exists k, threads s = [Out; R1 k] /\ m_bLocked s = 1) as H by (by exists (Some 0)).
  clearbody s. revert s H. induction n as [|n IH]; intros s (k & Ht & HL); [by exists k|]. rewrite solo_S. apply IH.
  assert (threads s !! 1%nat = Some (R1 k)) as Hi by (by rewrite Ht). rewrite (step_at _ _ _ Hi) by done.
  unfold lock_step. rewrite HL. cbn [Z.eqb go threads m_bLocked]. rewrite Ht. destruct k; cbn; by eexists.
Qed.

(** ** The mutex lock *)

(** [Lock] over a pthread mutex, which is held by at most one thread.
    [None]: the call blocks. *)
Record Lock : Type := mkLock { m_Mutex : option nat; m_nLockCount : Z }.

Definition Lock_ctor : Lock := mkLock None 0.
Definition Lock_lock (t : nat) (k : Lock) : option Lock :=
  match m_Mutex k with None => Some (mkLock (Some t) (m_nLockCount k + 1)) | Some _ => None end.
Definition Lock_unlock (k : Lock) : Lock := mkLock None (m_nLockCount k - 1).
Definition Lock_tryLock (t : nat) (k : Lock) : bool * Lock :=
  match m_Mutex k with None => (true, mkLock (Some t) (m_nLockCount k + 1)) | Some _ => (false, k) end.
Definition Lock_isLocked (t : nat) (k : Lock) : bool * Lock :=
  let '(bLocked, k) := Lock_tryLock t k in
  (bLocked, if bLocked then Lock_unlock k else k).

(** [isLocked] says the opposite of its name, and leaves the lock as it was. *)
Lemma isLocked_inverted t k : Lock_isLocked t k = (match m_Mutex k with None => true | Some _ => false end, k).
Proof.
  destruct k as [[o|] c]; unfold Lock_isLocked, Lock_tryLock, Lock_unlock; cbn; [done|]. do 2 f_equal. lia.
Qed.
