(* ===== verification/RefPtr.v ===== *)
(** * Reference-counted pointers: src/common/RefPtr.h

    [Object] keeps the count, [RefPtr] the pointer. Each thread owns its
    [RefPtr]s and runs the member functions one access at a time: the
    interlocked [ref] and the decrement of [unref] are atomic, and the
    [delete] that follows a decrement to zero is a step of its own. A
    reference reaches another thread by a [RefPtr] constructed for it. Objects
    are numbered in the order of their allocation. *)

From stdpp Require Import gmap.
From S2P Require Import Prelude.

(** ** Threads, pointers, objects *)

(** What follows [rep->ref()]: the constructor leaves the new [RefPtr] to
    thread [t]; [bind] goes on with [setNull] of [d]. *)
Inductive after_ref : Set := KCtor (t : nat) | KBind (d : nat).

(** What follows [setNull]: nothing, or the last line of [bind]. *)
Inductive after_null : Set := KDone | KStore (d : nat) (rep : option nat).

(** The next access. [Ref src a k] increments the count of [a], which was read
    in the thread's own [RefPtr] [src], or was just allocated. *)
Inductive place : Set :=
| Idle
| Ref (src : option nat) (a : nat) (k : after_ref)
| SetNull (d : nat) (k : after_null)
| Unref (p : nat) (k : after_null)
| Delete (p : nat) (k : after_null)
| Store (d : nat) (rep : option nat).

(** [pReps]: the [pRep] of each [RefPtr] of the thread; a destroyed one is
    null and not used again. *)
Record Thread : Type := mkThread { pReps : list (option nat); pc : place }.

(** [m_nRefCount] maps the objects that are not deleted to their counts. *)
Record Memory : Type := mkMemory { m_nRefCount : gmap nat Z; next_object : nat; threads : list Thread }.

Definition no_objects (n : nat) : Memory := mkMemory ∅ 0 (replicate n (mkThread [] Idle)).

Definition goto (i : nat) (th : Thread) (s : Memory) : Memory :=
  mkMemory (m_nRefCount s) (next_object s) (<[i := th]> (threads s)).
Definition set_counts (m : gmap nat Z) (s : Memory) : Memory := mkMemory m (next_object s) (threads s).

(** [new T]: an [Object] with count 0. *)
Definition Object_new (s : Memory) : nat * Memory :=
  (next_object s, mkMemory (<[next_object s := 0]> (m_nRefCount s)) (S (next_object s)) (threads s)).

(** [Object::ref] and the decrement of [Object::unref]: [None] is an access to
    a deleted object. *)
Definition Object_ref (a : nat) (s : Memory) : option Memory :=
  match m_nRefCount s !! a with
  | None => None
  | Some c => Some (set_counts (<[a := c + 1]> (m_nRefCount s)) s)
  end.
Definition Object_dec (a : nat) (s : Memory) : option (Z * Memory) :=
  match m_nRefCount s !! a with
  | None => None
  | Some c => Some (c - 1, set_counts (<[a := c - 1]> (m_nRefCount s)) s)
  end.
Definition Object_delete (a : nat) (s : Memory) : option Memory :=
  match m_nRefCount s !! a with
  | None => None
  | Some _ => Some (set_counts (delete a (m_nRefCount s)) s)
  end.

(** ** The member functions *)

(** The calls a thread makes. [cast]: the [dynamic_cast] of the templates for
    another [U] succeeds. *)
Inductive call : Set :=
| CtorNew (t : nat)
| CtorCopy (v t : nat) (cast : bool)
| Assign (d v : nat) (cast : bool)
| AssignNew (d : nat)
| Reset (d : nat)
| Destroy (d : nat)
| Swap (d e : nat).

Definition dynamic_cast (cast : bool) (p : option nat) : option nat := if cast then p else None.

(** The constructed [RefPtr] belongs to thread [t]. *)
Definition hand_over (t : nat) (p : option nat) (s : Memory) : Memory :=
  match threads s !! t with
  | Some th => goto t (mkThread (pReps th ++ [p]) (pc th)) s
  | None => s
  end.

(** [RefPtr(rep)] and the copy constructors. *)
Definition RefPtr_ctor (i : nat) (th : Thread) (src rep : option nat) (t : nat) (s : Memory) : Memory :=
  match rep with
  | Some a => goto i (mkThread (pReps th) (Ref src a (KCtor t))) s
  | None => hand_over t None s
  end.

(** [bind(rep)] up to its [ref]. *)
Definition bind (i : nat) (th : Thread) (src rep : option nat) (d : nat) (s : Memory) : Memory :=
  match rep with
  | Some a => goto i (mkThread (pReps th) (Ref src a (KBind d))) s
  | None => goto i (mkThread (pReps th) (SetNull d (KStore d None))) s
  end.

(** A thread between calls. A call on a [RefPtr] it does not have is none. *)
Definition call_step (i : nat) (th : Thread) (c : call) (s : Memory) : Memory :=
  match c with
  | CtorNew t =>
      if (t <? length (threads s))%nat then let '(a, s) := Object_new s in RefPtr_ctor i th None (Some a) t s else s
  | CtorCopy v t cast =>
      match pReps th !! v with
      | Some p => if (t <? length (threads s))%nat then RefPtr_ctor i th (Some v) (dynamic_cast cast p) t s else s
      | None => s
      end
  | Assign d v cast =>
      match pReps th !! v, pReps th !! d with
      | Some p, Some _ => bind i th (Some v) (dynamic_cast cast p) d s
      | _, _ => s
      end
  | AssignNew d =>
      match pReps th !! d with
      | Some _ => let '(a, s) := Object_new s in bind i th None (Some a) d s
      | None => s
      end
  | Reset d => match pReps th !! d with Some _ => bind i th None None d s | None => s end
  | Destroy d => match pReps th !! d with Some _ => goto i (mkThread (pReps th) (SetNull d KDone)) s | None => s end
  | Swap d e =>
      match pReps th !! d, pReps th !! e with
      | Some p, Some q => goto i (mkThread (<[e := p]> (<[d := q]> (pReps th))) Idle) s
      | _, _ => s
      end
  end.

(** After [setNull]. *)
Definition resume (k : after_null) : place :=
  match k with KDone => Idle | KStore d rep => Store d rep end.

(** The next access of a running call. *)
Definition run_step (i : nat) (th : Thread) (s : Memory) : option Memory :=
  match pc th with
  | Idle => Some s
  | Ref src a k =>
      match Object_ref a s with
      | None => None
      | Some s =>
          Some (match k with
                | KCtor t => hand_over t (Some a) (goto i (mkThread (pReps th) Idle) s)
                | KBind d => goto i (mkThread (pReps th) (SetNull d (KStore d (Some a)))) s
                end)
      end
  | SetNull d k =>
      match pReps th !! d with
      | Some (Some p) => Some (goto i (mkThread (<[d := None]> (pReps th)) (Unref p k)) s)
      | _ => Some (goto i (mkThread (pReps th) (resume k)) s)
      end
  | Unref p k =>
      match Object_dec p s with
      | None => None
      | Some (c, s) => Some (goto i (mkThread (pReps th) (if c <=? 0 then Delete p k else resume k)) s)
      end
  | Delete p k =>
      match Object_delete p s with
      | None => None
      | Some s => Some (goto i (mkThread (pReps th) (resume k)) s)
      end
  | Store d rep => Some (goto i (mkThread (<[d := rep]> (pReps th)) Idle) s)
  end.

Definition refptr_step (s : Memory) (l : nat * call) : option Memory :=
  match threads s !! l.1 with
  | None => Some s
  | Some th => match pc th with Idle => Some (call_step l.1 th l.2 s) | _ => run_step l.1 th s end
  end.

Fixpoint refptr_run (s : Memory) (ls : list (nat * call)) : option Memory :=
  match ls with
  | [] => Some s
  | l :: ls' => match refptr_step s l with None => None | Some s' => refptr_run s' ls' end
  end.

(** ** What the pointers guarantee

    The count of an object is the number of references to it: the [RefPtr]s
    that point to it and the ones in flight in a [bind] or a [setNull]. *)

(** ** Sums over threads *)

Fixpoint zsum {A} (f : A -> Z) (l : list A) : Z :=
  match l with
  | [] => 0
  | x :: l' => f x + zsum f l'
  end.

Lemma zsum_app {A} (f : A -> Z) l1 l2 : zsum f (l1 ++ l2) = zsum f l1 + zsum f l2.
Proof. induction l1 as [|x l1 IH]; cbn; [done|]. rewrite IH. lia. Qed.

Lemma zsum_insert {A} (f : A -> Z) l i x y : l !! i = Some x -> zsum f (<[i := y]> l) = zsum f l - f x + f y.
Proof.
  revert i. induction l as [|z l IH]; intros [|i] Hi; cbn in Hi; [done|done| |].
  - injection Hi as ->. cbn. lia.
  - change (<[S i := y]> (z :: l)) with (z :: <[i := y]> l). cbn [zsum]. rewrite (IH i Hi). lia.
Qed.

Lemma zsum_nonneg {A} (f : A -> Z) l : (forall x, 0 <= f x) -> 0 <= zsum f l.
Proof. intros H. induction l as [|x l IH]; cbn; [lia|]. specialize (H x). lia. Qed.

Lemma zsum_lookup {A} (f : A -> Z) l i x : (forall x, 0 <= f x) -> l !! i = Some x -> f x <= zsum f l.
Proof.
  intros H. revert i. induction l as [|y l IH]; intros [|i] Hi; cbn in Hi; [done|done| |]; cbn [zsum].
  - injection Hi as ->. pose proof (zsum_nonneg f l H). lia.
  - specialize (IH i Hi). specialize (H y). lia.
Qed.

Lemma zsum_zero {A} (f : A -> Z) l : (forall x, x ∈ l -> f x = 0) -> zsum f l = 0.
Proof. induction l as [|x l IH]; intros H; cbn; [done|]. rewrite H by set_solver. rewrite IH; [done|]. set_solver. Qed.

Lemma zsum_le {A} (f g : A -> Z) l : (forall x, f x <= g x) -> zsum f l <= zsum g l.
Proof. intros H. induction l as [|x l IH]; cbn; [lia|]. specialize (H x). lia. Qed.

(** ** References *)

Definition is_ref (a : nat) (p : option nat) : Z := if decide (p = Some a) then 1 else 0.

(** The [RefPtr]s of a thread that point to [a], and the reference of its
    running call. *)
Definition pointers (a : nat) (th : Thread) : Z := zsum (is_ref a) (pReps th).
Definition pending_store (a : nat) (k : after_null) : Z :=
  match k with KDone => 0 | KStore _ rep => is_ref a rep end.
Definition in_flight (a : nat) (th : Thread) : Z :=
  match pc th with
  | Idle | Ref _ _ _ => 0
  | SetNull _ k | Delete _ k => pending_store a k
  | Unref p k => is_ref a (Some p) + pending_store a k
  | Store _ rep => is_ref a rep
  end.
Definition references (a : nat) (th : Thread) : Z := pointers a th + in_flight a th.

(** A thread that is about to count a new object, or to delete one. *)
Definition keeper (a : nat) (th : Thread) : Z :=
  match pc th with
  | Ref None b _ | Delete b _ => is_ref a (Some b)
  | _ => 0
  end.

(** The indices of a running call are the thread's own; what it will store
    goes over a null pointer. *)
Definition null_ok (th : Thread) (k : after_null) : Prop :=
  match k with KDone => True | KStore d _ => pReps th !! d = Some None end.
Definition thread_ok (n : nat) (th : Thread) : Prop :=
  match pc th with
  | Idle => True
  | Ref src a k =>
      (forall v, src = Some v -> pReps th !! v = Some (Some a))
      /\ match k with KCtor t => (t < n)%nat | KBind d => is_Some (pReps th !! d) end
  | SetNull d k => is_Some (pReps th !! d) /\ match k with KDone => True | KStore e _ => e = d end
  | Unref _ k | Delete _ k => null_ok th k
  | Store d _ => pReps th !! d = Some None
  end.

(** A count, and whether it is zero on an object that is still there. *)
Definition count (o : option Z) : Z := default 0 o.
Definition unheld (o : option Z) : Z := match o with Some c => if decide (c = 0) then 1 else 0 | None => 0 end.

(** The counts are the references of the threads and the reference [x] that is
    being handed over; an object without references has exactly one keeper. *)
Definition counted (m : gmap nat Z) (ths : list Thread) (x : option nat) : Prop :=
  forall b, count (m !! b) = zsum (references b) ths + is_ref b x /\ unheld (m !! b) = zsum (keeper b) ths.

Definition all_ok (ths : list Thread) : Prop := forall i th, ths !! i = Some th -> thread_ok (length ths) th.

Record refptr_inv (s : Memory) : Prop := {
  ri_count : counted (m_nRefCount s) (threads s) None;
  ri_next : forall a, (next_object s <= a)%nat -> m_nRefCount s !! a = None;
  ri_threads : all_ok (threads s);
}.

Lemma is_ref_nonneg a p : 0 <= is_ref a p.
Proof. unfold is_ref. by destruct (decide _). Qed.

Lemma pointers_nonneg a th : 0 <= pointers a th.
Proof. apply zsum_nonneg, is_ref_nonneg. Qed.

Lemma in_flight_nonneg a th : 0 <= in_flight a th.
Proof.
  pose proof (is_ref_nonneg a). unfold in_flight, pending_store. destruct (pc th) as [| |d []|p []|p []|d rep];
    try apply Z.add_nonneg_nonneg; done || apply H.
Qed.

Lemma references_nonneg a th : 0 <= references a th.
Proof. unfold references. pose proof (pointers_nonneg a th). pose proof (in_flight_nonneg a th). lia. Qed.

Lemma keeper_nonneg a th : 0 <= keeper a th.
Proof. unfold keeper. destruct (pc th) as [|[]| | | |]; try done; apply is_ref_nonneg. Qed.

#[export] Hint Resolve is_ref_nonneg pointers_nonneg in_flight_nonneg references_nonneg keeper_nonneg : easylib.

Lemma is_ref_same a : is_ref a (Some a) = 1.
Proof. unfold is_ref. by rewrite decide_True. Qed.

Lemma is_ref_other a b : a <> b -> is_ref a (Some b) = 0.
Proof. intros H. unfold is_ref. rewrite decide_False by congruence. done. Qed.

Lemma pointers_lookup a th v : pReps th !! v = Some (Some a) -> 1 <= pointers a th.
Proof. intros Hv. rewrite <- (is_ref_same a). unfold pointers. by eapply zsum_lookup; [apply is_ref_nonneg|]. Qed.

(** ** One thread moves *)

Lemma all_ok_insert ths i th' : all_ok ths -> thread_ok (length ths) th' -> all_ok (<[i := th']> ths).
Proof.
  intros H H' j th Hj. rewrite length_insert. apply list_lookup_insert_Some in Hj as [(_ & <- & _)|[_ Hj]]; [done|by eapply H].
Qed.

(** What a move of thread [i] changes in the counts is what it changes in the
    references. *)
Lemma counted_move m m' ths i th th' x x' : counted m ths x -> ths !! i = Some th ->
  (forall b, count (m' !! b) - count (m !! b) = (references b th' + is_ref b x') - (references b th + is_ref b x)
             /\ unheld (m' !! b) - unheld (m !! b) = keeper b th' - keeper b th) ->
  counted m' (<[i := th']> ths) x'.
Proof.
  intros Hc Hi Hd b. rewrite !(zsum_insert _ _ _ _ th' Hi). destruct (Hc b), (Hd b). split; lia.
Qed.

(** A move that passes references on within the thread. *)
Lemma quiet_move s i th th' : refptr_inv s -> threads s !! i = Some th ->
  (forall b, references b th' = references b th) -> (forall b, keeper b th' = keeper b th) -> thread_ok (length (threads s)) th' ->
  refptr_inv (goto i th' s).
Proof.
  intros Hs Hi Hr Hk Hok. split; cbn [goto m_nRefCount threads next_object].
  - eapply counted_move; [apply (ri_count s Hs)|done|]. intros b. rewrite Hr, Hk. lia.
  - apply (ri_next s Hs).
  - by apply all_ok_insert; [apply (ri_threads s Hs)|].
Qed.

Lemma app_pointers_ok n th p : thread_ok n th -> thread_ok n (mkThread (pReps th ++ [p]) (pc th)).
Proof.
  assert (forall d x, pReps th !! d = Some x -> (pReps th ++ [p]) !! d = Some x) as Happ by (intros; by apply lookup_app_l_Some).
  unfold thread_ok, null_ok. cbn [pReps pc]. destruct (pc th) as [|src a []|d k|q []|q []|d rep]; try done; try (by apply Happ).
  - intros [H1 H2]. split; [|done]. intros v Hv. by apply Happ, H1.
  - intros [H1 [x H2]]. split; [|by eexists; apply Happ]. intros v Hv. by apply Happ, H1.
  - intros [[x H1] H2]. split; [|done]. by eexists; apply Happ.
Qed.

Lemma references_append b th p : references b (mkThread (pReps th ++ [p]) (pc th)) = references b th + is_ref b p.
Proof. unfold references, pointers, in_flight. cbn [pReps pc]. rewrite zsum_app. cbn [zsum]. lia. Qed.

(** The new [RefPtr] takes up the reference that was handed over. *)
Lemma hand_over_inv t p s : (t < length (threads s))%nat ->
  counted (m_nRefCount s) (threads s) p -> (forall a, (next_object s <= a)%nat -> m_nRefCount s !! a = None) -> all_ok (threads s) ->
  refptr_inv (hand_over t p s).
Proof.
  intros Ht Hc Hn Hok. unfold hand_over. apply lookup_lt_is_Some in Ht as [th Ht]. rewrite Ht.
  split; cbn [goto m_nRefCount threads next_object]; [|done|].
  - eapply counted_move; [done|done|]. intros b. rewrite references_append.
    change (is_ref b None) with 0. change (keeper b (mkThread (pReps th ++ [p]) (pc th))) with (keeper b th). lia.
  - apply all_ok_insert; [done|]. by apply app_pointers_ok, (Hok t).
Qed.

Lemma pointers_insert b reps c d p q : reps !! d = Some p ->
  pointers b (mkThread (<[d := q]> reps) c) = pointers b (mkThread reps c) - is_ref b p + is_ref b q.
Proof. intros Hd. unfold pointers. cbn [pReps]. by apply zsum_insert. Qed.

(** ** Calls *)

(** An idle thread begins with an object it has just allocated. *)
Lemma begin_new s i th k : refptr_inv s -> threads s !! i = Some th -> pc th = Idle ->
  thread_ok (length (threads s)) (mkThread (pReps th) (Ref None (next_object s) k)) ->
  refptr_inv (goto i (mkThread (pReps th) (Ref None (next_object s) k)) (Object_new s).2).
Proof.
  intros Hs Hi Hpc Hok. pose proof (ri_next s Hs (next_object s) (le_n _)) as Hfresh. split; cbn [goto Object_new snd m_nRefCount threads next_object].
  - eapply counted_move; [apply (ri_count s Hs)|done|]. intros b.
    unfold references, in_flight, keeper. rewrite Hpc. cbn [pc pReps]. change (pointers b (mkThread (pReps th) _)) with (pointers b th).
    destruct (decide (b = next_object s)) as [->|Hb].
    + rewrite lookup_insert_eq, Hfresh, is_ref_same. change (unheld (Some 0)) with 1. change (unheld None) with 0. change (count _) with 0. change (count None) with 0. lia.
    + rewrite lookup_insert_ne, is_ref_other by done. lia.
  - intros a Ha. rewrite lookup_insert_ne by lia. apply (ri_next s Hs). lia.
  - apply all_ok_insert; [apply (ri_threads s Hs)|done].
Qed.

(** An idle thread begins anything else. *)
Lemma begin_call s i th p : refptr_inv s -> threads s !! i = Some th -> pc th = Idle ->
  match p with Ref (Some _) _ _ | SetNull _ KDone | SetNull _ (KStore _ None) => True | _ => False end ->
  thread_ok (length (threads s)) (mkThread (pReps th) p) -> refptr_inv (goto i (mkThread (pReps th) p) s).
Proof.
  intros Hs Hi Hpc Hp Hok. eapply quiet_move; [done|done| | |done]; intros b; unfold references, in_flight, keeper; rewrite Hpc; cbn [pc].
  - by destruct p as [|[]| ? [|? []] | | |].
  - by destruct p as [|[]| ? [|? []] | | |].
Qed.

Lemma swap_inv s i th d e p q : refptr_inv s -> threads s !! i = Some th -> pc th = Idle ->
  pReps th !! d = Some p -> pReps th !! e = Some q -> refptr_inv (goto i (mkThread (<[e := p]> (<[d := q]> (pReps th))) Idle) s).
Proof.
  intros Hs Hi Hpc Hd He. eapply quiet_move; [done|done| | |done]; intros b.
  - unfold references, in_flight. rewrite Hpc. cbn [pc]. assert ((<[d:=q]> (pReps th)) !! e = Some q) as He'.
    { destruct (decide (d = e)) as [->|]; [|by rewrite list_lookup_insert_ne].
      rewrite list_lookup_insert_eq; [congruence|by eapply lookup_lt_Some]. }
    rewrite (pointers_insert _ _ _ _ _ _ He'), (pointers_insert _ _ _ _ _ _ Hd). unfold pointers. cbn [pReps]. lia.
  - unfold keeper. by rewrite Hpc.
Qed.

Lemma refptr_ctor_inv s i th src rep t : refptr_inv s -> threads s !! i = Some th -> pc th = Idle -> (t < length (threads s))%nat ->
  (forall a, rep = Some a -> pReps th !! src = Some (Some a)) -> refptr_inv (RefPtr_ctor i th (Some src) rep t s).
Proof.
  intros Hs Hi Hpc Ht Hsrc. unfold RefPtr_ctor. destruct rep as [a|].
  - apply begin_call; [done..|]. split; [|done]. intros v [= <-]. by apply Hsrc.
  - apply hand_over_inv; [done|apply Hs|apply Hs|apply Hs].
Qed.

Lemma bind_inv s i th src rep d : refptr_inv s -> threads s !! i = Some th -> pc th = Idle -> is_Some (pReps th !! d) ->
  (forall a, rep = Some a -> exists v, src = Some v /\ pReps th !! v = Some (Some a)) -> refptr_inv (bind i th src rep d s).
Proof.
  intros Hs Hi Hpc Hd Hsrc. unfold bind. destruct rep as [a|].
  - destruct (Hsrc a eq_refl) as (v & -> & Hv). apply begin_call; [done..|]. split; [|done]. by intros v' [= <-].
  - apply begin_call; [done..|]. by split.
Qed.

Lemma cast_src cast (p : option nat) (l : list (option nat)) v : l !! v = Some p -> forall a, dynamic_cast cast p = Some a -> l !! v = Some (Some a).
Proof. intros Hv a. destruct cast; cbn; [|done]. by intros ->. Qed.

Lemma call_step_inv s i th c : refptr_inv s -> threads s !! i = Some th -> pc th = Idle -> refptr_inv (call_step i th c s).
Proof.
  intros Hs Hi Hpc. destruct c as [t|v t cast|d v cast|d|d|d|d e]; cbn [call_step].
  - destruct (t <? length (threads s))%nat eqn:Et; [|done]. apply Nat.ltb_lt in Et. by apply begin_new.
  - destruct (pReps th !! v) as [p|] eqn:Ev; [|done]. destruct (t <? length (threads s))%nat eqn:Et; [|done]. apply Nat.ltb_lt in Et.
    apply refptr_ctor_inv; [done..|]. by eapply cast_src.
  - destruct (pReps th !! v) as [p|] eqn:Ev; [|done]. destruct (pReps th !! d) as [q|] eqn:Ed; [|done].
    apply bind_inv; [done..|by eexists|]. intros a Ha. exists v. split; [done|]. by eapply cast_src.
  - destruct (pReps th !! d) as [q|] eqn:Ed; [|done]. apply begin_new; [done..|]. split; [done|]. by eexists.
  - destruct (pReps th !! d) as [q|] eqn:Ed; [|done]. apply bind_inv; [done..|by eexists|done].
  - destruct (pReps th !! d) as [q|] eqn:Ed; [|done]. apply begin_call; [done..|]. split; [by eexists|done].
  - destruct (pReps th !! d) as [p|] eqn:Ed; [|done]. destruct (pReps th !! e) as [q|] eqn:Ee; [|done]. by apply swap_inv.
Qed.

(** ** The accesses of a running call *)

Lemma counted_refs m ths i th a : counted m ths None -> ths !! i = Some th -> references a th <= count (m !! a).
Proof.
  intros Hc Hi. destruct (Hc a) as [-> _]. pose proof (zsum_lookup (references a) ths i th (references_nonneg a) Hi).
  pose proof (is_ref_nonneg a None). lia.
Qed.

Lemma counted_keeper m ths i th a : counted m ths None -> ths !! i = Some th -> keeper a th <= unheld (m !! a).
Proof. intros Hc Hi. destruct (Hc a) as [_ ->]. apply (zsum_lookup (keeper a) ths i th); [apply keeper_nonneg|done]. Qed.

Lemma held_live (o : option Z) : 1 <= count o -> exists c, o = Some c /\ 1 <= c /\ unheld o = 0.
Proof.
  destruct o as [c|]; [|cbn; lia]. intros Hc. exists c. repeat split; [exact Hc|]. cbn [unheld]. rewrite decide_False; [done|].
  cbn in Hc. lia.
Qed.

Lemma kept_live (o : option Z) : 1 <= unheld o -> o = Some 0.
Proof. destruct o as [c|]; cbn [unheld]; [|lia]. by destruct (decide (c = 0)) as [->|]; [|lia]. Qed.

Lemma unheld_pos c : 1 <= c -> unheld (Some c) = 0.
Proof. intros Hc. cbn [unheld]. rewrite decide_False by lia. done. Qed.

(** The object of a [ref] is there: a [RefPtr] of the thread keeps it, or
    the thread has just allocated it. *)
Lemma ref_live s i th src a k : refptr_inv s -> threads s !! i = Some th -> pc th = Ref src a k ->
  exists c, m_nRefCount s !! a = Some c /\ 0 <= c /\ unheld (Some c) = keeper a th.
Proof.
  intros Hs Hi Hpc. pose proof (ri_threads s Hs i th Hi) as Hok. unfold thread_ok in Hok. rewrite Hpc in Hok.
  destruct Hok as [Hsrc _]. destruct src as [v|].
  - pose proof (pointers_lookup a th v (Hsrc v eq_refl)). pose proof (counted_refs _ _ _ _ a (ri_count s Hs) Hi) as Hr.
    unfold references in Hr. pose proof (in_flight_nonneg a th). destruct (held_live (m_nRefCount s !! a)) as (c & Hc & Hc1 & Hu); [lia|].
    exists c. rewrite <- Hc, Hu. unfold keeper. rewrite Hpc. split; [done|]. by split; [lia|].
  - pose proof (counted_keeper _ _ _ _ a (ri_count s Hs) Hi) as Hk. unfold keeper in *. rewrite Hpc, is_ref_same in *.
    exists 0. by rewrite (kept_live _ Hk).
Qed.

Lemma ref_inv s i th src a k : refptr_inv s -> threads s !! i = Some th -> pc th = Ref src a k ->
  exists s', run_step i th s = Some s' /\ refptr_inv s'.
Proof.
  intros Hs Hi Hpc. destruct (ref_live s i th src a k Hs Hi Hpc) as (c & Hc & Hc0 & Hu).
  pose proof (ri_threads s Hs i th Hi) as Hok. unfold thread_ok in Hok. rewrite Hpc in Hok. destruct Hok as [_ Hk].
  unfold run_step, Object_ref. rewrite Hpc, Hc. eexists. split; [done|].
  assert (forall th' x, pReps th' = pReps th -> (forall b, keeper b th' = 0) -> (forall b, in_flight b th' + is_ref b x = is_ref b (Some a)) ->
    counted (<[a := c + 1]> (m_nRefCount s)) (<[i := th']> (threads s)) x) as Hcount.
  { intros th' x Hp Hk' Hf. eapply counted_move; [apply (ri_count s Hs)|done|]. intros b. unfold references at 2, in_flight at 1. rewrite Hpc.
    specialize (Hf b). unfold references, pointers. rewrite Hp, Hk'. fold (pointers b th). change (is_ref b None) with 0.
    destruct (decide (b = a)) as [->|Hb].
    - rewrite lookup_insert_eq, Hc, Hu, (unheld_pos (c + 1)) by lia. rewrite is_ref_same in Hf.
      change (count (Some (c + 1))) with (c + 1). change (count (Some c)) with c. lia.
    - rewrite lookup_insert_ne by done. rewrite is_ref_other in Hf by done. unfold keeper. rewrite Hpc.
      destruct src; [|rewrite is_ref_other by done]; lia. }
  destruct k as [t|d].
  - apply hand_over_inv; cbn [goto set_counts m_nRefCount threads next_object]; rewrite ?length_insert; [done|by apply Hcount| |].
    + intros b Hb. rewrite lookup_insert_ne; [by apply (ri_next s Hs)|]. intros <-. rewrite (ri_next s Hs) in Hc; done.
    + by apply all_ok_insert; [apply (ri_threads s Hs)|].
  - split; cbn [goto set_counts m_nRefCount threads next_object].
    + apply Hcount; [done|done|]. intros b. cbn. change (is_ref b None) with 0. lia.
    + intros b Hb. rewrite lookup_insert_ne; [by apply (ri_next s Hs)|]. intros <-. rewrite (ri_next s Hs) in Hc; done.
    + apply all_ok_insert; [apply (ri_threads s Hs)|]. by split.
Qed.

Lemma resume_ok n th k : null_ok th k -> thread_ok n (mkThread (pReps th) (resume k)).
Proof. by destruct k. Qed.

Lemma resume_refs b reps k : in_flight b (mkThread reps (resume k)) = pending_store b k /\ keeper b (mkThread reps (resume k)) = 0.
Proof. by destruct k. Qed.

Lemma setnull_inv s i th d k : refptr_inv s -> threads s !! i = Some th -> pc th = SetNull d k ->
  exists s', run_step i th s = Some s' /\ refptr_inv s'.
Proof.
  intros Hs Hi Hpc. pose proof (ri_threads s Hs i th Hi) as Hok. unfold thread_ok in Hok. rewrite Hpc in Hok. destruct Hok as [[p Hd] Hk].
  unfold run_step. rewrite Hpc, Hd. destruct p as [p|].
  - eexists. split; [done|]. eapply quiet_move; [done|done| | |].
    + intros b. unfold references. rewrite (pointers_insert _ _ _ _ _ _ Hd). unfold in_flight. rewrite Hpc. cbn [pc].
      change (pointers b (mkThread (pReps th) _)) with (pointers b th). change (is_ref b None) with 0. lia.
    + intros b. unfold keeper. by rewrite Hpc.
    + unfold thread_ok, null_ok. cbn [pc pReps]. destruct k as [|e rep]; [done|]. subst e.
      apply list_lookup_insert_eq. by eapply lookup_lt_Some.
  - eexists. split; [done|]. eapply quiet_move; [done|done| | |].
    + intros b. unfold references. destruct (resume_refs b (pReps th) k) as [-> _]. unfold in_flight. by rewrite Hpc.
    + intros b. destruct (resume_refs b (pReps th) k) as [_ ->]. unfold keeper. by rewrite Hpc.
    + apply resume_ok. destruct k; [done|]. cbn. by subst.
Qed.

Lemma unref_inv s i th p k : refptr_inv s -> threads s !! i = Some th -> pc th = Unref p k ->
  exists s', run_step i th s = Some s' /\ refptr_inv s'.
Proof.
  intros Hs Hi Hpc. pose proof (ri_threads s Hs i th Hi) as Hok. unfold thread_ok in Hok. rewrite Hpc in Hok.
  destruct (held_live (m_nRefCount s !! p)) as (c & Hc & Hc1 & Hu).
  { pose proof (counted_refs _ _ _ _ p (ri_count s Hs) Hi) as Hr. unfold references, in_flight in Hr. rewrite Hpc, is_ref_same in Hr.
    pose proof (pointers_nonneg p th). assert (0 <= pending_store p k) by (destruct k; [done|apply is_ref_nonneg]). lia. }
  unfold run_step, Object_dec. rewrite Hpc, Hc. eexists. split; [done|]. split; cbn [goto set_counts m_nRefCount threads next_object].
  - eapply counted_move; [apply (ri_count s Hs)|done|]. intros b. unfold references.
    change (pointers b (mkThread (pReps th) _)) with (pointers b th). change (is_ref b None) with 0.
    destruct (resume_refs b (pReps th) k) as [Hf Hkp].
    assert (in_flight b th = is_ref b (Some p) + pending_store b k) as -> by (unfold in_flight; by rewrite Hpc).
    assert (keeper b th = 0) as -> by (unfold keeper; by rewrite Hpc).
    assert (in_flight b (mkThread (pReps th) (if c - 1 <=? 0 then Delete p k else resume k)) = pending_store b k) as ->
      by (destruct (c - 1 <=? 0); [done|exact Hf]).
    assert (keeper b (mkThread (pReps th) (if c - 1 <=? 0 then Delete p k else resume k)) = if c - 1 <=? 0 then is_ref b (Some p) else 0) as ->
      by (destruct (c - 1 <=? 0); [done|exact Hkp]).
    destruct (decide (b = p)) as [->|Hb].
    + rewrite lookup_insert_eq, Hu, Hc, is_ref_same. change (count (Some (c - 1))) with (c - 1). change (count (Some c)) with c.
      destruct (Z.leb_spec (c - 1) 0) as [Hle|Hle]; [replace c with 1 by lia; change (unheld (Some (1 - 1))) with 1; lia|rewrite unheld_pos by lia; lia].
    + rewrite lookup_insert_ne, is_ref_other by done. destruct (c - 1 <=? 0); lia.
  - intros b Hb. rewrite lookup_insert_ne; [by apply (ri_next s Hs)|]. intros <-. rewrite (ri_next s Hs) in Hc; done.
  - apply all_ok_insert; [apply (ri_threads s Hs)|]. destruct (c - 1 <=? 0); [done|]. by apply resume_ok.
Qed.

Lemma object_delete_inv s i th p k : refptr_inv s -> threads s !! i = Some th -> pc th = Delete p k ->
  exists s', run_step i th s = Some s' /\ refptr_inv s'.
Proof.
  intros Hs Hi Hpc. pose proof (ri_threads s Hs i th Hi) as Hok. unfold thread_ok in Hok. rewrite Hpc in Hok.
  assert (m_nRefCount s !! p = Some 0) as Hc.
  { apply kept_live. pose proof (counted_keeper _ _ _ _ p (ri_count s Hs) Hi) as Hk. unfold keeper in Hk. by rewrite Hpc, is_ref_same in Hk. }
  unfold run_step, Object_delete. rewrite Hpc, Hc. eexists. split; [done|]. split; cbn [goto set_counts m_nRefCount threads next_object].
  - eapply counted_move; [apply (ri_count s Hs)|done|]. intros b. unfold references. destruct (resume_refs b (pReps th) k) as [-> ->].
    unfold in_flight, keeper. rewrite Hpc. change (pointers b (mkThread (pReps th) _)) with (pointers b th).
    destruct (decide (b = p)) as [->|Hb].
    + rewrite lookup_delete_eq, Hc, is_ref_same. change (unheld (Some 0)) with 1. change (unheld None) with 0. change (count (Some 0)) with 0. change (count None) with 0. change (is_ref p None) with 0. lia.
    + rewrite lookup_delete_ne, is_ref_other by done. lia.
  - intros b Hb. rewrite lookup_delete_ne; [by apply (ri_next s Hs)|]. intros <-. rewrite (ri_next s Hs) in Hc; done.
  - apply all_ok_insert; [apply (ri_threads s Hs)|]. by apply resume_ok.
Qed.

Lemma store_inv s i th d rep : refptr_inv s -> threads s !! i = Some th -> pc th = Store d rep ->
  exists s', run_step i th s = Some s' /\ refptr_inv s'.
Proof.
  intros Hs Hi Hpc. pose proof (ri_threads s Hs i th Hi) as Hok. unfold thread_ok in Hok. rewrite Hpc in Hok.
  unfold run_step. rewrite Hpc. eexists. split; [done|]. eapply quiet_move; [done|done| | |done].
  - intros b. unfold references. rewrite (pointers_insert _ _ _ _ _ _ Hok). unfold in_flight. rewrite Hpc. cbn [pc].
    change (pointers b (mkThread (pReps th) _)) with (pointers b th). change (is_ref b None) with 0. lia.
  - intros b. unfold keeper. by rewrite Hpc.
Qed.

Lemma refptr_step_inv s l : refptr_inv s -> exists s', refptr_step s l = Some s' /\ refptr_inv s'.
Proof.
  intros Hs. unfold refptr_step. destruct (threads s !! l.1) as [th|] eqn:Hi; [|by eexists].
  destruct (pc th) eqn:Hpc; [eexists; split; [done|]; by apply call_step_inv|..];
    eauto using ref_inv, setnull_inv, unref_inv, object_delete_inv, store_inv.
Qed.

Lemma refptr_run_inv ls s : refptr_inv s -> exists s', refptr_run s ls = Some s' /\ refptr_inv s'.
Proof.
  revert s. induction ls as [|l ls IH]; intros s Hs; [by eexists|]. cbn [refptr_run].
  destruct (refptr_step_inv s l Hs) as (s' & -> & Hs'). by apply IH.
Qed.

Lemma no_objects_inv n : refptr_inv (no_objects n).
Proof.
  split; cbn [no_objects m_nRefCount threads next_object].
  - intros b. rewrite lookup_empty, !zsum_zero; [done|intros x Hx; apply elem_of_replicate in Hx as [-> _]; reflexivity..].
  - intros a _. apply lookup_empty.
  - intros i th Hi. apply lookup_replicate in Hi as [-> _]. exact I.
Qed.

(** ** What holds of every run *)

(** The [RefPtr]s of all threads that point to [a], and all [RefPtr]s. *)
Definition pointing (a : nat) (s : Memory) : Z := zsum (pointers a) (threads s).
Definition refptrs (s : Memory) : Z := zsum (fun th => zlen (pReps th)) (threads s).

Lemma pointers_bound a th : pointers a th <= zlen (pReps th).
Proof.
  unfold pointers, zlen. induction (pReps th) as [|p l IH]; cbn [zsum length]; [lia|]. unfold is_ref at 1. destruct (decide _); lia.
Qed.

Lemma zsum_plus {A} (f g : A -> Z) l : zsum (fun x => f x + g x) l = zsum f l + zsum g l.
Proof. induction l as [|x l IH]; cbn; [done|]. rewrite IH. lia. Qed.

Lemma zsum_const {A} (k : Z) (l : list A) : zsum (fun _ => k) l = k * zlen l.
Proof. unfold zlen. induction l as [|x l IH]; cbn [zsum length]; [lia|]. rewrite IH. lia. Qed.

Lemma references_bound a s : zsum (references a) (threads s) <= refptrs s + 2 * zlen (threads s).
Proof.
  rewrite <- zsum_const. unfold refptrs. rewrite <- zsum_plus. apply zsum_le. intros th.
  unfold references. pose proof (pointers_bound a th). enough (in_flight a th <= 2) by lia.
  assert (forall p, is_ref a p <= 1) as H1 by (intros p; unfold is_ref; by destruct (decide _)).
  unfold in_flight, pending_store. destruct (pc th) as [| |d []|p []|p []|d rep]; try lia;
    repeat match goal with |- context[is_ref a ?p] => let H := fresh in pose proof (H1 p) as H; revert H; generalize (is_ref a p); intros end; lia.
Qed.

Lemma idle_references a ths : (forall i th, ths !! i = Some th -> pc th = Idle) ->
  zsum (references a) ths = zsum (pointers a) ths /\ zsum (keeper a) ths = 0.
Proof.
  induction ths as [|th ths IH]; intros Hidle; [done|]. cbn [zsum]. destruct IH as [-> ->]; [intros i; apply (Hidle (S i))|].
  pose proof (Hidle 0%nat th eq_refl) as Hpc. unfold references, in_flight, keeper. rewrite Hpc. lia.
Qed.

Lemma live_iff s : refptr_inv s -> (forall i th, threads s !! i = Some th -> pc th = Idle) ->
  forall a, m_nRefCount s !! a = if decide (pointing a s = 0) then None else Some (pointing a s).
Proof.
  intros Hs Hidle a. destruct (idle_references a (threads s) Hidle) as [Hr Hk]. destruct (ri_count s Hs a) as [Hc Hu].
  rewrite Hr in Hc. rewrite Hk in Hu. change (is_ref a None) with 0 in Hc. fold (pointing a s) in Hc.
  destruct (m_nRefCount s !! a) as [c|]; cbn [unheld] in Hu.
  - destruct (decide (c = 0)); [done|]. change (count (Some c)) with c in Hc. rewrite decide_False by lia. f_equal. change (count (Some c)) with c in Hc. lia.
  - rewrite decide_True; [done|]. change (count None) with 0 in Hc. lia.
Qed.

(** C20: reference-counted pointers used by any number of threads, whatever
    the interleaving of their accesses: no access ever reaches a deleted
    object and none is deleted twice; a [RefPtr] that is not null points to an
    object that is there; no count exceeds the number of [RefPtr]s by more
    than the references in flight; and when no call is running, the objects
    that are not deleted are exactly those some [RefPtr] points to, each with
    the number of those [RefPtr]s as its count. *)
Theorem refptr_safe n ls : exists s, refptr_run (no_objects n) ls = Some s
  /\ (forall i th v a, threads s !! i = Some th -> pReps th !! v = Some (Some a) -> is_Some (m_nRefCount s !! a))
  /\ (forall a c, m_nRefCount s !! a = Some c -> 0 <= c <= refptrs s + 2 * zlen (threads s))
  /\ ((forall i th, threads s !! i = Some th -> pc th = Idle) ->
      forall a, m_nRefCount s !! a = if decide (pointing a s = 0) then None else Some (pointing a s)).
Proof.
  destruct (refptr_run_inv ls (no_objects n) (no_objects_inv n)) as (s & Hrun & Hs). exists s. split; [done|]. split; [|split].
  - intros i th v a Hi Hv. pose proof (counted_refs _ _ _ _ a (ri_count s Hs) Hi) as Hr. pose proof (pointers_lookup a th v Hv).
    pose proof (in_flight_nonneg a th). unfold references in Hr. destruct (held_live (m_nRefCount s !! a)) as (c & -> & _); [lia|by eexists].
  - intros a c Hc. destruct (ri_count s Hs a) as [Hr _]. rewrite Hc in Hr. change (is_ref a None) with 0 in Hr. change (count (Some c)) with c in Hr.
    pose proof (references_bound a s). pose proof (zsum_nonneg (references a) (threads s) (references_nonneg a)). lia.
  - by apply live_iff.
Qed.

(** Two threads: an object is made, copied to the other thread, assigned to
    itself and dropped by both: it goes with the last [RefPtr]. *)
Definition share_and_drop : list (nat * call) :=
  [(0, CtorNew 0); (0, Reset 0); (0, CtorCopy 0 1 true); (0, Reset 0);
   (0, Assign 0 0 true); (0, Reset 0); (0, Reset 0); (0, Reset 0); (0, Reset 0);
   (0, Destroy 0); (1, Destroy 0); (0, Reset 0); (1, Reset 0); (0, Reset 0); (1, Reset 0)]%nat.

Lemma share_and_drop_run :
  (fun s => (map_to_list (m_nRefCount s), threads s)) <$> refptr_run (no_objects 2) (take 9 share_and_drop)
    = Some ([(0%nat, 2)], [mkThread [Some 0%nat] Idle; mkThread [Some 0%nat] Idle])
  /\ (fun s => (map_to_list (m_nRefCount s), threads s)) <$> refptr_run (no_objects 2) (share_and_drop ++ [(1%nat, Reset 0)])
    = Some ([], [mkThread [None] Idle; mkThread [None] Idle]).
Proof. split; vm_compute; reflexivity. Qed.
