(* ===== verification/ThreadLoop.v ===== *)
(** * The libevent loop with a pipe: src/thread/EventLoop.cpp, EventLoopThreadPool.cpp

    A loop keeps a queue of functors under a mutex and a pipe that wakes it:
    [QueueInLoop] pushes and writes a byte, [PipeProcess] reads a byte and runs
    what is queued. Other threads push and write between any two instructions
    of the loop. [A] is the work a functor does; a functor may also call
    [RunInLoop] and [QueueInLoop] of its own loop. *)

From S2P Require Import Prelude.

Section Loop.
Context {A : Type}.

(** ** Functors *)

Inductive functor : Type :=
| User (work : A) (acts : list action)
| FStopInLoop
with action : Type :=
| ARunInLoop (f : functor)
| AQueueInLoop (f : functor).

(** What the loop thread has left to do in the current callback. [IRun] is a
    functor of a batch, [ICall] one that [RunInLoop] calls at once. *)
Inductive instr : Type :=
| ISetCalling
| ISwap
| IRun (f : functor)
| ICall (f : functor)
| IQueue (f : functor)
| INotifyIf
| IEnd
| IStopCheck.

(** [tid_]: [Run] has been called. [pipe]: bytes in the pipe. [posting]: other
    threads between the push and the [Notify] of [QueueInLoop]. [pushed] and
    [ran] record the queue operations, [done_] the work in its order. *)
Record EventLoop : Type := mkEventLoop {
  tid_ : bool;
  calling_pending_functors_ : bool;
  functors_queue_ : list functor;
  pipe : Z;
  loopexit : bool;
  code : list instr;
  posting : nat;
  pushed : list functor;
  ran : list functor;
  done_ : list A;
}.

Definition EventLoop_ctor : EventLoop := mkEventLoop false false [] 0 false [] 0 [] [] [].

Definition set_code c s := mkEventLoop (tid_ s) (calling_pending_functors_ s) (functors_queue_ s) (pipe s) (loopexit s) c
  (posting s) (pushed s) (ran s) (done_ s).
Definition set_calling b s := mkEventLoop (tid_ s) b (functors_queue_ s) (pipe s) (loopexit s) (code s)
  (posting s) (pushed s) (ran s) (done_ s).
Definition set_exit s := mkEventLoop (tid_ s) (calling_pending_functors_ s) (functors_queue_ s) (pipe s) true (code s)
  (posting s) (pushed s) (ran s) (done_ s).
Definition set_posting n s := mkEventLoop (tid_ s) (calling_pending_functors_ s) (functors_queue_ s) (pipe s) (loopexit s) (code s)
  n (pushed s) (ran s) (done_ s).
Definition set_pipe n s := mkEventLoop (tid_ s) (calling_pending_functors_ s) (functors_queue_ s) n (loopexit s) (code s)
  (posting s) (pushed s) (ran s) (done_ s).
Definition set_queue q s := mkEventLoop (tid_ s) (calling_pending_functors_ s) q (pipe s) (loopexit s) (code s)
  (posting s) (pushed s) (ran s) (done_ s).

(** [Run]: from here on [pthread_self() == tid_] in the loop's callbacks. *)
Definition Run s := mkEventLoop true (calling_pending_functors_ s) (functors_queue_ s) (pipe s) (loopexit s) (code s)
  (posting s) (pushed s) (ran s) (done_ s).

(** ** The queue and the pipe *)

(** The locked part of [QueueInLoop]. *)
Definition push (f : functor) s := mkEventLoop (tid_ s) (calling_pending_functors_ s) (functors_queue_ s ++ [f]) (pipe s) (loopexit s) (code s)
  (posting s) (pushed s ++ [f]) (ran s) (done_ s).

Definition Notify (s : EventLoop) : EventLoop := set_pipe (pipe s + 1) s.

(** [RunInLoop] and [QueueInLoop] of another thread, up to its [Notify]. *)
Definition QueueInLoop_push (f : functor) (s : EventLoop) : EventLoop := set_posting (S (posting s)) (push f s).
Definition QueueInLoop_notify (s : EventLoop) : EventLoop :=
  match posting s with O => s | S n => Notify (set_posting n s) end.

(** The body of a functor, as instructions. *)
Definition act_code (a : action) : list instr :=
  match a with
  | ARunInLoop f => [ICall f]
  | AQueueInLoop f => [IQueue f; INotifyIf]
  end.

(** [DoPendingFunctors]: [ISwap] puts the batch in front of [IEnd]. *)
Definition DoPendingFunctors : list instr := [ISetCalling; ISwap; IEnd].

Definition functor_code (f : functor) : list instr :=
  match f with
  | User _ acts => concat (map act_code acts)
  | FStopInLoop => DoPendingFunctors ++ [IStopCheck]
  end.

Definition log_work (f : functor) s := mkEventLoop (tid_ s) (calling_pending_functors_ s) (functors_queue_ s) (pipe s) (loopexit s) (code s)
  (posting s) (pushed s) (ran s) (done_ s ++ match f with User a _ => [a] | FStopInLoop => [] end).
Definition log_ran (f : functor) s := mkEventLoop (tid_ s) (calling_pending_functors_ s) (functors_queue_ s) (pipe s) (loopexit s) (code s)
  (posting s) (pushed s) (ran s ++ [f]) (done_ s).

(** One instruction of the loop thread. *)
Definition exec_instr (i : instr) (rest : list instr) (s : EventLoop) : EventLoop :=
  match i with
  | ISetCalling => set_code rest (set_calling true s)
  | ISwap => set_code (map IRun (functors_queue_ s) ++ rest) (set_queue [] s)
  | IRun f => set_code (functor_code f ++ rest) (log_work f (log_ran f s))
  | ICall f => set_code (functor_code f ++ rest) (log_work f s)
  | IQueue f => set_code rest (push f s)
  | INotifyIf => set_code rest (if calling_pending_functors_ s then Notify s else s)
  | IEnd => set_code rest (set_calling false s)
  | IStopCheck =>
      match functors_queue_ s with
      | [] => set_code rest (set_exit s)
      | _ => set_code (DoPendingFunctors ++ IStopCheck :: rest) s
      end
  end.

(** The loop thread: the next instruction, or the next byte of the pipe
    ([PipeProcess], whose event is armed again when its code is done). *)
Definition loop_step (s : EventLoop) : EventLoop :=
  match code s with
  | i :: rest => exec_instr i rest s
  | [] => if tid_ s && (0 <? pipe s) && negb (loopexit s) then set_code DoPendingFunctors (set_pipe (pipe s - 1) s) else s
  end.

(** An event of the loop other than the pipe calls [acts]. *)
Definition callback (acts : list action) (s : EventLoop) : EventLoop :=
  match code s with
  | [] => if tid_ s && negb (loopexit s) then set_code (concat (map act_code acts)) s else s
  | _ => s
  end.

Inductive label : Type :=
| LRun
| LLoop
| LPush (f : functor)
| LNotify
| LCallback (acts : list action).

Definition step (s : EventLoop) (l : label) : EventLoop :=
  match l with
  | LRun => Run s
  | LLoop => loop_step s
  | LPush f => QueueInLoop_push f s
  | LNotify => QueueInLoop_notify s
  | LCallback acts => callback acts s
  end.

Definition steps (s : EventLoop) (ls : list label) : EventLoop := foldl step s ls.

(** ** Size: what running everything costs *)

Fixpoint fsize (f : functor) : nat :=
  match f with
  | User _ acts => S ((fix sum (l : list action) : nat := match l with [] => O | a :: l' => (asize a + sum l')%nat end) acts)
  | FStopInLoop => 6
  end
with asize (a : action) : nat :=
  match a with
  | ARunInLoop f => S (fsize f)
  | AQueueInLoop f => (11 + fsize f)%nat
  end.

Definition isize (i : instr) : nat :=
  match i with
  | IRun f => S (fsize f)
  | ICall f => S (fsize f)
  | IQueue f => (6 + fsize f)%nat
  | INotifyIf => 5
  | IStopCheck => 2
  | _ => 1
  end.

Fixpoint total (l : list nat) : nat := match l with [] => O | n :: l' => (n + total l')%nat end.

Definition qsize (f : functor) : nat := (5 + fsize f)%nat.

(** Bounds the instructions left to run when nobody else posts. *)
Definition measure (s : EventLoop) : nat :=
  (total (map isize (code s)) + total (map qsize (functors_queue_ s)) + 4 * Z.to_nat (pipe s))%nat.

(** ** Without [StopInLoop] *)

Fixpoint no_stop (f : functor) : bool :=
  match f with
  | User _ acts => (fix all (l : list action) : bool := match l with [] => true | a :: l' => no_stop_act a && all l' end) acts
  | FStopInLoop => false
  end
with no_stop_act (a : action) : bool :=
  match a with
  | ARunInLoop f | AQueueInLoop f => no_stop f
  end.

End Loop.

Arguments functor : clear implicits.
Arguments action : clear implicits.
Arguments instr : clear implicits.
Arguments EventLoop : clear implicits.
Arguments label : clear implicits.

(** ** The pool of loops *)

Record EventLoopThreadPool : Type := mkThreadPool {
  base_loop_ : option nat;
  started_ : bool;
  threads_num_ : Z;
  next_ : Z;
  threads_ : list nat;
}.

(** The constructor drops its argument. *)
Definition EventLoopThreadPool_ctor (base_loop : option nat) : EventLoopThreadPool := mkThreadPool None false 0 0 [].

Definition SetThreadNum (n : Z) (p : EventLoopThreadPool) : EventLoopThreadPool :=
  mkThreadPool (base_loop_ p) (started_ p) n (next_ p) (threads_ p).

(** [Start]: the loops of the new threads are numbered from [i]; [oks] is what
    each [thread_ptr->Start] returns. *)
Fixpoint start_threads (oks : list bool) (i : nat) (k : nat) (ths : list nat) : bool * list nat :=
  match k with
  | O => (true, ths)
  | S k' => if default true (oks !! i) then start_threads oks (S i) k' (ths ++ [i]) else (false, ths)
  end.
Definition Start (oks : list bool) (p : EventLoopThreadPool) : bool * EventLoopThreadPool :=
  if started_ p then (true, p)
  else
    let '(ok, ths) := start_threads oks 0 (Z.to_nat (threads_num_ p)) (threads_ p) in
    (ok, mkThreadPool (base_loop_ p) (if ok then true else started_ p) (threads_num_ p) (next_ p) ths).

(** [Stop]: indexing [threads_] past its end is undefined. *)
Definition Stop (p : EventLoopThreadPool) : outcome EventLoopThreadPool :=
  if threads_num_ p <=? zlen (threads_ p) then
    Ok (mkThreadPool (base_loop_ p) (started_ p) (threads_num_ p) (next_ p) [])
  else Fail OutOfBounds.

(** [InterlockedInc32] returns the new value, in 32 bits. *)
Definition GetNextLoop (p : EventLoopThreadPool) : option nat * EventLoopThreadPool :=
  match threads_ p with
  | [] => (base_loop_ p, p)
  | _ =>
      let n := s32 (next_ p + 1) in
      let next := u32 n mod zlen (threads_ p) in
      (threads_ p !! Z.to_nat next, mkThreadPool (base_loop_ p) (started_ p) (threads_num_ p) n (threads_ p))
  end.

Definition GetNextLoopWithHash (hash : Z) (p : EventLoopThreadPool) : option nat :=
  match threads_ p with
  | [] => base_loop_ p
  | _ => threads_ p !! Z.to_nat (hash mod zlen (threads_ p))
  end.
