(* ===== verification/ThreadLoopSpec.v ===== *)
(** * The libevent loop with a pipe: what it runs

    Functors posted by other threads or by functors run once each, in the
    order of the queue, and the loop is woken for them. *)

From S2P Require Import Prelude ThreadLoop.

Section Spec.
Context {A : Type}.

(** The work of a functor: its own, then that of what it runs at once. *)
Fixpoint works (f : functor A) : list A :=
  match f with
  | User a acts => a :: (fix go (l : list (action A)) : list A := match l with [] => [] | x :: l' => act_works x ++ go l' end) acts
  | FStopInLoop => []
  end
with act_works (x : action A) : list A :=
  match x with
  | ARunInLoop f => works f
  | AQueueInLoop _ => []
  end.

Lemma works_User a acts : works (User a acts) = a :: concat (map act_works acts).
Proof. cbn [works]. f_equal. induction acts as [|x l IH]; [done|]. cbn. by rewrite IH. Qed.

Lemma no_stop_User (a : A) acts : no_stop (User a acts) = forallb no_stop_act acts.
Proof. cbn [no_stop]. induction acts as [|x l IH]; [done|]. cbn. by rewrite IH. Qed.

Lemma fsize_User (a : A) acts : fsize (User a acts) = S (total (map asize acts)).
Proof. cbn [fsize]. f_equal. induction acts as [|x l IH]; [done|]. cbn. by rewrite IH. Qed.

Lemma total_app l1 l2 : total (l1 ++ l2) = (total l1 + total l2)%nat.
Proof. induction l1 as [|x l1 IH]; cbn; [done|]. rewrite IH. lia. Qed.

Lemma total_code (acts : list (action A)) : total (map isize (concat (map act_code acts))) = total (map asize acts).
Proof. induction acts as [|[f|f] l IH]; cbn; [done|lia|lia]. Qed.

(** ** The shape of the loop's code *)

(** [pre]: a push whose [Notify] is next; [acts]: the rest of the current
    functor; [b]: the rest of the batch. *)
Definition body (pre : list (instr A)) (acts : list (action A)) (b : list (functor A)) : list (instr A) :=
  pre ++ concat (map act_code acts) ++ map IRun b ++ [IEnd].

Inductive shape : EventLoop A -> list (instr A) -> list (action A) -> list (functor A) -> Prop :=
| ShIdle s : code s = [] -> shape s [] [] []
| ShWoken s : code s = DoPendingFunctors -> shape s [] [] []
| ShSwap s : calling_pending_functors_ s = true -> code s = [ISwap; IEnd] -> shape s [] [] []
| ShBody s pre acts b : calling_pending_functors_ s = true -> code s = body pre acts b ->
    pre = [] \/ pre = [INotifyIf] -> forallb no_stop_act acts = true -> Forall (fun f => no_stop f = true) b -> shape s pre acts b.

(** The loop will look at the queue: a byte is in the pipe or on its way, or
    the swap is still to come. *)
Definition will_look (s : EventLoop A) : Prop :=
  0 < pipe s \/ (0 < posting s)%nat \/ ISwap ∈ code s \/ INotifyIf ∈ code s.

Record loop_inv (s : EventLoop A) (pre : list (instr A)) (acts : list (action A)) (b : list (functor A)) : Prop := {
  li_shape : shape s pre acts b;
  li_fifo : pushed s = ran s ++ b ++ functors_queue_ s;
  li_works : done_ s ++ concat (map act_works acts) = concat (map works (ran s));
  li_wake : functors_queue_ s <> [] -> will_look s;
  li_queue : Forall (fun f => no_stop f = true) (functors_queue_ s);
  li_pipe : 0 <= pipe s;
  li_exit : loopexit s = false;
}.

Definition good (s : EventLoop A) : Prop := exists pre acts b, loop_inv s pre acts b.

(** Labels of the guarantee: posts from other threads, without [StopInLoop]. *)
Definition polite (l : label A) : bool :=
  match l with
  | LPush f => no_stop f
  | LCallback _ => false
  | _ => true
  end.

Lemma ctor_good : good EventLoop_ctor.
Proof. exists [], [], []. split; try done. by constructor. Qed.

Lemma shape_same s s' pre acts b : code s' = code s -> calling_pending_functors_ s' = calling_pending_functors_ s ->
  shape s pre acts b -> shape s' pre acts b.
Proof.
  intros Hc Hcl H. destruct H; [apply ShIdle|apply ShWoken|apply ShSwap|apply ShBody]; congruence.
Qed.

Lemma shape_ok s pre acts b : shape s pre acts b -> forallb no_stop_act acts = true /\ Forall (fun f => no_stop f = true) b.
Proof. by destruct 1. Qed.

Lemma push_good f s : no_stop f = true -> good s -> good (QueueInLoop_push f s).
Proof.
  intros Hf (pre & acts & b & H). exists pre, acts, b. destruct H. split; try done; cbn.
  - by eapply shape_same; [| |exact li_shape0].
  - rewrite li_fifo0. by rewrite <- !app_assoc.
  - intros _. right. left. cbn. lia.
  - by apply Forall_app_2; [|repeat constructor].
Qed.

Lemma notify_good s : good s -> good (QueueInLoop_notify s).
Proof.
  intros (pre & acts & b & H). unfold QueueInLoop_notify. destruct (posting s) as [|n] eqn:En; [by exists pre, acts, b|].
  exists pre, acts, b. destruct H. split; try done; cbn.
  - by eapply shape_same; [| |exact li_shape0].
  - intros _. left. cbn. lia.
  - lia.
Qed.

Lemma run_good s : good s -> good (Run s).
Proof.
  intros (pre & acts & b & H). exists pre, acts, b. destruct H. split; try done.
  by eapply shape_same; [| |exact li_shape0].
Qed.

(** ** The loop thread *)

Lemma code_app (l1 l2 : list (action A)) : concat (map act_code (l1 ++ l2)) = concat (map act_code l1) ++ concat (map act_code l2).
Proof. by rewrite map_app, concat_app. Qed.

(** The rest of the current functor, first an inner call. *)
Lemma call_good s f acts b : loop_inv s [] (ARunInLoop f :: acts) b -> calling_pending_functors_ s = true ->
  code s = body [] (ARunInLoop f :: acts) b -> good (loop_step s).
Proof.
  intros H Hcall Hcode. destruct H as [Hsh Hf Hw Hk Hq Hp He]. destruct (shape_ok _ _ _ _ Hsh) as [H3 Hb].
  assert (exists a l, f = User a l /\ forallb no_stop_act l = true) as (a & l & -> & Hl).
  { cbn [forallb no_stop_act] in H3. apply andb_true_iff in H3 as [H3 _]. clear Hsh. destruct f as [a l|]; [|done]. rewrite no_stop_User in H3. eauto. }
  unfold loop_step. rewrite Hcode. cbn [body app map concat act_code exec_instr functor_code].
  exists [], (l ++ acts), b. split; cbn; try done.
  - apply ShBody; [done| |by left| |done].
    + unfold body. cbn. by rewrite code_app, <- !app_assoc.
    + rewrite forallb_app, Hl. cbn [forallb] in H3. by apply andb_true_iff in H3 as [_ H3].
  - rewrite <- Hw, map_app, concat_app, <- !app_assoc. cbn [map concat act_works]. by rewrite works_User.
  - intros Hne. destruct (Hk Hne) as [Hx|[Hx|[Hx|Hx]]]; [by left|by right; left|..]; rewrite Hcode in Hx.
    + right; right; left. cbn. unfold body in Hx. cbn in Hx. rewrite elem_of_cons in Hx. destruct Hx as [|Hx]; [done|].
      apply elem_of_app. by right.
    + right; right; right. cbn. unfold body in Hx. cbn in Hx. rewrite elem_of_cons in Hx. destruct Hx as [|Hx]; [done|].
      apply elem_of_app. by right.
Qed.

Lemma queue_good s f acts b : loop_inv s [] (AQueueInLoop f :: acts) b -> calling_pending_functors_ s = true ->
  code s = body [] (AQueueInLoop f :: acts) b -> good (loop_step s).
Proof.
  intros H Hcall Hcode. destruct H as [Hsh Hf Hw Hk Hq Hp He]. destruct (shape_ok _ _ _ _ Hsh) as [H3 Hb].
  cbn [forallb no_stop_act] in H3. apply andb_true_iff in H3 as [H3 H3']. unfold loop_step. rewrite Hcode.
  cbn [body app map concat act_code exec_instr]. exists [INotifyIf], acts, b. split; cbn; try done.
  - apply ShBody; [done|done|by right|done|done].
  - rewrite Hf. by rewrite <- !app_assoc.
  - intros _. right; right; right. cbn. by left.
  - by apply Forall_app_2; [|repeat constructor].
Qed.

Lemma notifyif_good s acts b : loop_inv s [INotifyIf] acts b -> good (loop_step s).
Proof.
  intros H. destruct H as [Hsh Hf Hw Hk Hq Hp He]. inversion Hsh; subst. unfold loop_step. rewrite H0. cbn [body app exec_instr].
  rewrite H. exists [], acts, b. split; cbn; try done; [|by left; cbn; lia|lia]. by apply ShBody; [| |left| |].
Qed.

Lemma batch_good s b : loop_inv s [] [] b -> code s = body [] [] b -> calling_pending_functors_ s = true -> good (loop_step s).
Proof.
  intros [Hsh Hf Hw Hk Hq Hp He] Hcode Hcall. unfold loop_step. rewrite Hcode. destruct b as [|f b]; cbn [body app map concat exec_instr].
  - exists [], [], []. split; cbn; try done; [by apply ShIdle|]. intros Hne. destruct (Hk Hne) as [Hx|[Hx|[Hx|Hx]]]; [by left|by right; left|..];
      rewrite Hcode in Hx; cbn in Hx; set_solver.
  - assert (exists a l, f = User a l /\ forallb no_stop_act l = true /\ Forall (fun f => no_stop f = true) b) as (a & l & -> & Hl & Hb).
    { destruct (shape_ok _ _ _ _ Hsh) as [_ H3]. apply Forall_cons in H3 as [H3 H4]. destruct f as [a l|]; [|done]. rewrite no_stop_User in H3. eauto. }
    exists [], l, b. split; cbn; try done.
    + by apply ShBody; [| |left| |].
    + rewrite Hf. by rewrite <- !app_assoc.
    + cbn in Hw. rewrite app_nil_r in Hw. rewrite Hw, map_app, concat_app. cbn [map concat]. rewrite works_User, <- !app_assoc. cbn. by rewrite app_nil_r.
    + intros Hne. destruct (Hk Hne) as [Hx|[Hx|[Hx|Hx]]]; [by left|by right; left|..];
        rewrite Hcode in Hx; cbn in Hx; rewrite elem_of_cons in Hx; destruct Hx as [|Hx]; try done.
      * right; right; left. cbn. set_solver.
      * right; right; right. cbn. set_solver.
Qed.

Lemma swap_good s : loop_inv s [] [] [] -> code s = [ISwap; IEnd] -> calling_pending_functors_ s = true -> good (loop_step s).
Proof.
  intros [Hsh Hf Hw Hk Hq Hp He] Hcode Hcall. unfold loop_step. rewrite Hcode. cbn [exec_instr].
  exists [], [], (functors_queue_ s). split; cbn; try done; [by apply ShBody; [| |left| |]|by rewrite Hf, app_nil_r].
Qed.

Lemma loop_good s : good s -> good (loop_step s).
Proof.
  intros (pre & acts & b & H). pose proof (li_shape _ _ _ _ H) as Hsh. inversion Hsh; subst.
  - unfold loop_step. rewrite H0. destruct (tid_ s && (0 <? pipe s) && negb (loopexit s)) eqn:E; [|by exists [], [], []].
    rewrite !andb_true_iff in E. destruct E as [[_ E] _]. apply Z.ltb_lt in E.
    exists [], [], []. destruct H. split; cbn; try done; [by apply ShWoken| |lia]. intros _. right; right; left. cbn. set_solver.
  - unfold loop_step. rewrite H0. cbn [DoPendingFunctors exec_instr]. exists [], [], []. destruct H. split; cbn; try done; [by apply ShSwap|].
    intros _. right; right; left. cbn. set_solver.
  - by apply swap_good.
  - destruct H2 as [->| ->]; [|by eapply notifyif_good]. destruct acts as [|[f|f] acts]; [by eapply batch_good|by eapply call_good|by eapply queue_good].
Qed.

Lemma step_good s l : polite l = true -> good s -> good (step s l).
Proof. destruct l; cbn; intros Hl Hs; [by apply run_good|by apply loop_good|by apply push_good|by apply notify_good|done]. Qed.

Lemma steps_good ls s : forallb polite ls = true -> good s -> good (steps s ls).
Proof.
  revert s. induction ls as [|l ls IH]; intros s Hl Hs; [done|]. cbn [forallb] in Hl. apply andb_true_iff in Hl as [Hl Hls].
  apply IH; [done|]. by apply step_good.
Qed.

(** ** The loop gets through its work *)

Lemma total_map_IRun (b : list (functor A)) : (total (map isize (map IRun b)) <= total (map qsize b))%nat.
Proof. induction b as [|f b IH]; cbn [map total isize]; [lia|]. unfold qsize at 1. lia. Qed.

Definition busy (s : EventLoop A) : bool := match code s with [] => 0 <? pipe s | _ => true end.

Lemma measure_decreases s : good s -> tid_ s = true -> busy s = true -> (measure (loop_step s) < measure s)%nat.
Proof.
  intros (pre & acts & b & H) Htid Hbusy. pose proof (li_shape _ _ _ _ H) as Hsh. destruct H as [_ _ _ _ _ Hp He]. unfold busy in Hbusy.
  inversion Hsh as [s0 Hc|s0 Hc|s0 Hcl Hc|s0 pre0 acts0 b0 Hcl Hc Hpre Ha Hb]; subst; unfold loop_step; rewrite Hc in *.
  - rewrite Htid, Hbusy, He. apply Z.ltb_lt in Hbusy. unfold measure. rewrite Hc. cbn. lia.
  - unfold measure. rewrite Hc. cbn. lia.
  - unfold measure. rewrite Hc. cbn. rewrite map_app, total_app. pose proof (total_map_IRun (functors_queue_ s)). cbn. lia.
  - unfold measure. rewrite Hc. destruct Hpre as [-> | ->].
    + destruct acts as [|[f|f] acts].
      * destruct b as [|f b]; cbn; [lia|]. apply Forall_cons in Hb as [Hf _]. destruct f as [a l|]; [|done].
        cbn [functor_code]. rewrite !map_app, !total_app, total_code, fsize_User. lia.
      * cbn. cbn [forallb no_stop_act] in Ha. apply andb_true_iff in Ha as [Hf _]. destruct f as [a l|]; [|done].
        cbn [functor_code]. rewrite map_app, total_app, total_code, fsize_User. lia.
      * cbn. rewrite !map_app, !total_app. cbn. lia.
    + cbn. rewrite Hcl. cbn. lia.
Qed.

Definition spin (n : nat) (s : EventLoop A) : EventLoop A := steps s (replicate n LLoop).

Lemma spin_S n s : spin (S n) s = spin n (loop_step s).
Proof. done. Qed.

Lemma loop_step_keeps (s : EventLoop A) : tid_ (loop_step s) = tid_ s /\ posting (loop_step s) = posting s.
Proof.
  unfold loop_step. destruct (code s) as [|i rest]; [by destruct (_ && _)|]. destruct i; cbn; try done.
  - by destruct (calling_pending_functors_ s).
  - by destruct (functors_queue_ s).
Qed.

Lemma loop_finishes s : good s -> tid_ s = true ->
  exists n, good (spin n s) /\ busy (spin n s) = false /\ posting (spin n s) = posting s.
Proof.
  remember (measure s) as m eqn:Em. revert s Em. induction (lt_wf m) as [m _ IH]; intros s -> Hs Ht. destruct (busy s) eqn:Eb.
  - destruct (loop_step_keeps s) as [Ht' Hp']. destruct (IH _ (measure_decreases s Hs Ht Eb) (loop_step s) eq_refl) as (n & Hn & Hb & Hp).
    + by apply loop_good.
    + by rewrite Ht'.
    + exists (S n). rewrite spin_S. split; [done|]. split; [done|]. congruence.
  - by exists 0%nat.
Qed.

(** A loop whose posters are through comes to rest with everything run. *)
Lemma loop_rests s : good s -> tid_ s = true -> posting s = 0%nat -> exists n, let s' := spin n s in
  good s' /\ code s' = [] /\ functors_queue_ s' = [] /\ ran s' = pushed s' /\ done_ s' = concat (map works (pushed s')).
Proof.
  intros Hs Ht Hpost. destruct (loop_finishes s Hs Ht) as (n & Hg & Hb & Hp). exists n. cbn zeta.
  pose proof Hg as (pre & acts & b & H). split; [done|]. set (s' := spin n s) in *. unfold busy in Hb. destruct H as [Hsh Hf Hw Hk _ Hpipe _].
  inversion Hsh as [s0 Hc|s0 Hc|s0 Hcl Hc|s0 pre0 acts0 b0 Hcl Hc Hpre Ha Hbb]; subst; rewrite Hc in Hb; try done; [|by destruct Hpre as [->| ->], acts as [|[]], b].
  apply Z.ltb_ge in Hb. assert (functors_queue_ s' = []) as Hq.
  { destruct (functors_queue_ s') eqn:Eq; [done|]. destruct Hk as [Hx|[Hx|[Hx|Hx]]]; [done|lia|lia|..]; rewrite Hc in Hx; set_solver. }
  rewrite Hq in Hf. cbn in Hf, Hw. rewrite app_nil_r in Hf, Hw. rewrite Hf. done.
Qed.


End Spec.

(** A functor that queues another one, posted before [Run]. *)
Definition two_posts : list (label nat) :=
  [LPush (User 1%nat [AQueueInLoop (User 3%nat []); ARunInLoop (User 2%nat [])]); LNotify; LRun; LLoop; LLoop; LPush (User 4%nat []); LNotify].


Lemma two_posts_order : done_ (spin 30 (steps EventLoop_ctor two_posts)) = [1; 2; 4; 3]%nat.
Proof. reflexivity. Qed.

(** ** Where the wake-up is missing *)

(** A callback of the loop that is not a pending functor queues work: no byte
    is written and the loop does not look at its queue again. *)
Lemma callback_post_not_woken n : let s := steps (A := nat) EventLoop_ctor [LRun; LCallback [AQueueInLoop (User 1%nat [])]] in
  functors_queue_ (spin (2 + n) s) = [User 1%nat []] /\ done_ (spin (2 + n) s) = [].
Proof.
  cbn zeta. set (s2 := mkEventLoop true false [User 1%nat []] 0 false [] 0 [User 1%nat []] [] []). change (spin (2 + n) _) with (spin n s2).
  enough (spin n s2 = s2) as -> by done. induction n as [|n IH]; [done|]. by rewrite spin_S.
Qed.

(** [StopInLoop] runs the pending functors from inside a batch; the flag is
    clear when the rest of the outer batch runs, so that what it queues is not
    notified, and the loop ends without running it. *)
Lemma stop_loses_functor : let s := steps (A := nat) EventLoop_ctor
    [LRun; LPush FStopInLoop; LPush (User 1%nat [AQueueInLoop (User 2%nat [])]); LNotify; LNotify] in
  done_ (spin 40 s) = [1%nat] /\ functors_queue_ (spin 40 s) = [User 2%nat []] /\ loopexit (spin 40 s) = true /\ code (spin 40 s) = [].
Proof. cbn zeta. by vm_compute. Qed.

(** ** The pool *)

Lemma GetNextLoop_in_range p : threads_ p <> [] -> exists l, (GetNextLoop p).1 = Some l /\ l ∈ threads_ p.
Proof.
  intros Hne. unfold GetNextLoop. destruct (threads_ p) as [|x ths] eqn:E; [done|]. cbn [fst].
  assert (Z.to_nat (u32 (s32 (next_ p + 1)) mod zlen (x :: ths)) < length (x :: ths))%nat as Hlt.
  { pose proof (Z.mod_pos_bound (u32 (s32 (next_ p + 1))) (zlen (x :: ths)) ltac:(unfold zlen; cbn; lia)). unfold zlen in *. lia. }
  apply lookup_lt_is_Some in Hlt as [l Hl]. exists l. split; [done|]. by eapply list_elem_of_lookup_2.
Qed.

(** The pool never uses the base loop it was given. *)
Lemma base_loop_dropped base hash : (GetNextLoop (EventLoopThreadPool_ctor base)).1 = None /\ GetNextLoopWithHash hash (EventLoopThreadPool_ctor base) = None.
Proof. done. Qed.

(** A pool that was stopped stays empty: [Start] finds [started_] set; and a
    second [Stop] indexes past the end. *)
Lemma stopped_pool_is_dead oks p : started_ p = true -> 0 < threads_num_ p -> threads_num_ p <= zlen (threads_ p) ->
  exists p', Stop p = Ok p' /\ Start oks p' = (true, p') /\ threads_ p' = [] /\ Stop p' = Fail OutOfBounds.
Proof.
  intros Hs Hn Hl. unfold Stop at 1. rewrite (proj2 (Z.leb_le _ _) Hl). eexists. split; [done|]. split_and!; try done.
  - unfold Start. cbn [started_]. by rewrite Hs.
  - unfold Stop. cbn [threads_num_ threads_]. rewrite zlen_nil. by rewrite (proj2 (Z.leb_gt _ _) Hn).
Qed.
