(* ===== verification/HttpContext.v ===== *)
(** * Requests of the HTTP service: HttpContext in src/http/HttpService.cpp

    The request line, the headers and the body of a request, taken from
    libevent's structures: the URI and the header fields as lists, the input
    buffer as the bytes it holds. Positions are [int] in the source; a URI is
    shorter than 2^31 bytes, so that they are exact. *)

From stdpp Require Import gmap.
From S2P Require Import Prelude CppString.

Record HttpContext : Type := mkContext {
  params_map_ : gmap (list byte) (list byte);
  headers_map_ : gmap (list byte) (list byte);
  url_ : list byte;
  request_ : nat;
  body_ : list byte;
}.

Definition question : byte := Byte.x3f.
Definition ampersand : byte := Byte.x26.
Definition equal_sign : byte := Byte.x3d.

(** ** The URI *)

(** [uri.substr(pos, len)] with an [int] length: a negative one is a huge
    [size_t] and takes the rest. *)
Definition substr_int (uri : list byte) (pos : nat) (len : Z) : list byte :=
  if len <? 0 then drop pos uri else take (Z.to_nat len) (drop pos uri).

(** The parameter of the segment at [pos1], whose value ends at [last]. The
    ["="] is looked for in all the rest of the URI. *)
Definition segment (uri : list byte) (pos1 : nat) (last : Z) : option (list byte * list byte) :=
  match str_find [equal_sign] uri pos1 with
  | None => None
  | Some pos2 =>
      Some (substr_int uri pos1 (Z.of_nat pos2 - Z.of_nat pos1), substr_int uri (pos2 + 1) (last - Z.of_nat pos2 - 1))
  end.

(** The loop over the ampersands, then the last segment. [None] from
    [segment] is the early return, which keeps what was parsed so far. *)
Fixpoint parse_params (fuel : nat) (uri : list byte) (pos1 : nat) (m : gmap (list byte) (list byte)) : gmap (list byte) (list byte) :=
  match fuel with
  | O => m
  | S fuel' =>
      match str_find [ampersand] uri pos1 with
      | Some pos =>
          match segment uri pos1 (Z.of_nat pos) with
          | None => m
          | Some (key, val) => parse_params fuel' uri (pos + 1) (<[key := val]> m)
          end
      | None =>
          if (pos1 =? length uri)%nat then m
          else match segment uri pos1 (zlen uri) with
               | None => m
               | Some (key, val) => <[key := val]> m
               end
      end
  end.

(** Every turn of the loop passes an ampersand, so [length uri] turns are
    enough. Without a ["?"] the position is [npos], -1 as an [int], and the
    parameters are looked for from the start. *)
Definition ParseUri (uri : list byte) (c : HttpContext) : HttpContext :=
  let '(url, pos1) := match str_find [question] uri 0 with
                      | Some pos => (take pos uri, (pos + 1)%nat)
                      | None => (uri, 0%nat)
                      end in
  mkContext (parse_params (S (length uri)) uri pos1 (params_map_ c)) (headers_map_ c) url (request_ c) (body_ c).

(** ** Headers and body *)

Definition read_headers (headers : list (list byte * list byte)) (c : HttpContext) : HttpContext :=
  mkContext (params_map_ c) (foldl (fun m h => <[h.1 := h.2]> m) (headers_map_ c) headers) (url_ c) (request_ c) (body_ c).

(** The C string in an array: up to the first NUL; without one the reading
    runs past the end of the array. *)
Fixpoint array_string (s : list byte) : outcome (list byte) :=
  match s with
  | [] => Fail OutOfBounds
  | b :: s' => if byte_eqb b Byte.x00 then Ok [] else t ← array_string s'; Ok (b :: t)
  end.

(** [evbuffer_remove(buf, cbuf, 127)] until the buffer is empty. [stack i] is
    what the uninitialised array [char cbuf[128]] holds in the [i]-th turn;
    [body_.append(cbuf, 0, n)] makes a string of the whole array first, and
    appends at most [n] bytes of it. *)
Fixpoint read_body (stack : nat -> list byte) (fuel i : nat) (buf : list byte) (body : list byte) : outcome (list byte) :=
  match fuel with
  | O => Ok body
  | S fuel' =>
      match buf with
      | [] => Ok body
      | _ =>
          let chunk := take 127 buf in
          let n := length chunk in
          s ← array_string (chunk ++ drop n (stack i));
          read_body stack fuel' (S i) (drop 127 buf) (body ++ take n s)
      end
  end.

Definition Init (stack : nat -> list byte) (uri : list byte) (headers : list (list byte * list byte)) (buf : list byte) (c : HttpContext) :
    outcome HttpContext :=
  let c := ParseUri uri (read_headers headers c) in
  body ← read_body stack (S (length buf)) 0 buf (body_ c);
  Ok (mkContext (params_map_ c) (headers_map_ c) (url_ c) (request_ c) body).

Definition HttpContext_ctor (request : nat) : HttpContext := mkContext ∅ ∅ [] request [].

Definition GetParamValue (name : list byte) (c : HttpContext) : list byte := default [] (params_map_ c !! name).
Definition GetHeaderValue (name : list byte) (c : HttpContext) : list byte := default [] (headers_map_ c !! name).

(** ** Printing a URI *)

Definition print_param (kv : list byte * list byte) : list byte := kv.1 ++ equal_sign :: kv.2.

Fixpoint print_query (kvs : list (list byte * list byte)) : list byte :=
  match kvs with
  | [] => []
  | [kv] => print_param kv
  | kv :: kvs' => print_param kv ++ ampersand :: print_query kvs'
  end.

Definition print_uri (path : list byte) (kvs : list (list byte * list byte)) : list byte := path ++ question :: print_query kvs.

(** The map a list of parameters stands for: a later one wins. *)
Definition params_of (kvs : list (list byte * list byte)) (m : gmap (list byte) (list byte)) : gmap (list byte) (list byte) :=
  foldl (fun m kv => <[kv.1 := kv.2]> m) m kvs.

Definition param_ok (kv : list byte * list byte) : Prop :=
  (equal_sign ∉ kv.1) /\ (ampersand ∉ kv.1) /\ (ampersand ∉ kv.2).

(** ** What the parser reads *)

(** A segment that has its own ["="]. *)
Lemma segment_param pre k v rest : equal_sign ∉ k ->
  segment (pre ++ k ++ equal_sign :: v ++ rest) (length pre) (Z.of_nat (length pre + length k + 1 + length v)) = Some (k, v).
Proof.
  intros Hk. unfold segment. rewrite str_find_char by done. unfold substr_int.
  rewrite !(proj2 (Z.ltb_ge _ _)) by lia. repeat f_equal.
  - rewrite drop_app_length. replace (Z.to_nat _) with (length k) by lia. by rewrite take_app_length.
  - replace (length pre + length k + 1)%nat with (length (pre ++ k ++ [equal_sign])) by (rewrite !length_app; cbn; lia).
    replace (pre ++ k ++ equal_sign :: v ++ rest) with ((pre ++ k ++ [equal_sign]) ++ v ++ rest) by (by rewrite <- !app_assoc).
    rewrite drop_app_length. replace (Z.to_nat _) with (length v) by (rewrite !length_app; cbn; lia). by rewrite take_app_length.
Qed.

Lemma print_query_cons kv kv2 kvs : print_query (kv :: kv2 :: kvs) = print_param kv ++ ampersand :: print_query (kv2 :: kvs).
Proof. done. Qed.

Lemma print_param_length kv : length (print_param kv) = (length kv.1 + 1 + length kv.2)%nat.
Proof. unfold print_param. rewrite length_app. cbn. lia. Qed.

Lemma print_param_no_amp kv : param_ok kv -> ampersand ∉ print_param kv.
Proof.
  intros (H1 & H2 & H3). unfold print_param. rewrite elem_of_app, elem_of_cons. intros [?|[?|?]]; done.
Qed.

Lemma parse_print kvs : forall fuel pre m, kvs <> [] -> Forall param_ok kvs -> (length kvs <= fuel)%nat ->
  parse_params fuel (pre ++ print_query kvs) (length pre) m = params_of kvs m.
Proof.
  induction kvs as [|kv kvs IH]; intros fuel pre m Hne Hok Hfuel; [done|]. apply Forall_cons in Hok as [Hkv Hok].
  destruct fuel as [|fuel]; [cbn in Hfuel; lia|]. destruct kvs as [|kv2 kvs].
  - cbn [parse_params print_query params_of foldl]. rewrite str_find_char_none by (by apply print_param_no_amp).
    rewrite (proj2 (Nat.eqb_neq _ _)) by (rewrite length_app, print_param_length; lia).
    unfold print_param. replace (pre ++ kv.1 ++ equal_sign :: kv.2) with (pre ++ kv.1 ++ equal_sign :: kv.2 ++ []) by (by rewrite app_nil_r).
    unfold zlen. replace (length (pre ++ kv.1 ++ equal_sign :: kv.2 ++ [])) with (length pre + length kv.1 + 1 + length kv.2)%nat
      by (rewrite !length_app; cbn; rewrite length_app; cbn; lia).
    rewrite segment_param by apply Hkv. done.
  - rewrite print_query_cons. cbn [parse_params]. rewrite str_find_char by (by apply print_param_no_amp).
    rewrite print_param_length. unfold print_param.
    replace (pre ++ (kv.1 ++ equal_sign :: kv.2) ++ ampersand :: print_query (kv2 :: kvs))
      with (pre ++ kv.1 ++ equal_sign :: kv.2 ++ ampersand :: print_query (kv2 :: kvs)) by (by rewrite <- !app_assoc).
    rewrite !Nat.add_assoc, segment_param by apply Hkv.
    replace (pre ++ kv.1 ++ equal_sign :: kv.2 ++ ampersand :: print_query (kv2 :: kvs))
      with ((pre ++ kv.1 ++ equal_sign :: kv.2 ++ [ampersand]) ++ print_query (kv2 :: kvs)) by (rewrite <- !app_assoc; cbn; by rewrite <- app_assoc).
    replace (length pre + length kv.1 + 1 + length kv.2 + 1)%nat with (length (pre ++ kv.1 ++ equal_sign :: kv.2 ++ [ampersand]))
      by (rewrite !length_app; cbn; rewrite length_app; cbn; lia).
    rewrite IH; [done|done|done|cbn in *; lia].
Qed.

Lemma query_long kvs : (length kvs <= length (print_query kvs))%nat.
Proof.
  induction kvs as [|kv kvs IH]; [done|]. destruct kvs as [|kv2 kvs].
  - cbn [print_query length]. rewrite print_param_length. lia.
  - rewrite print_query_cons, length_app. cbn [length] in *. rewrite print_param_length. lia.
Qed.

(** A URI printed from a path without a question mark and parameters
    whose keys have neither ampersand nor equals sign, and whose values have
    no ampersand, is read back exactly: the URL is the path, and the
    parameters are the map of the printed ones, a later one winning. *)
Lemma uri_roundtrip path kvs c : question ∉ path -> Forall param_ok kvs ->
  url_ (ParseUri (print_uri path kvs) c) = path
  /\ params_map_ (ParseUri (print_uri path kvs) c) = params_of kvs (params_map_ c)
  /\ forall name, GetParamValue name (ParseUri (print_uri path kvs) c) = default [] (params_of kvs (params_map_ c) !! name).
Proof.
  intros Hp Hok. assert (params_map_ (ParseUri (print_uri path kvs) c) = params_of kvs (params_map_ c)
    /\ url_ (ParseUri (print_uri path kvs) c) = path) as [Hm Hu].
  { unfold ParseUri, print_uri. pose proof (str_find_char question [] path (print_query kvs) Hp) as E. cbn [app length Nat.add] in E. rewrite E.
    cbn [params_map_ url_]. rewrite take_app_length. split; [|done].
    replace (path ++ question :: print_query kvs) with ((path ++ [question]) ++ print_query kvs) by (by rewrite <- app_assoc).
    replace (length path + 1)%nat with (length (path ++ [question])) by (rewrite length_app; cbn; lia).
    destruct kvs as [|kv kvs]; [|apply parse_print; [done|done|rewrite !length_app; pose proof (query_long (kv :: kvs)); lia]].
    cbn [print_query]. rewrite app_nil_r. cbn [parse_params]. pose proof (str_find_char_none ampersand (path ++ [question]) []) as En.
    rewrite app_nil_r in En. rewrite En by apply not_elem_of_nil. by rewrite Nat.eqb_refl. }
  split; [done|]. split; [done|]. intros name. unfold GetParamValue. by rewrite Hm.
Qed.

(** /a?k=1&k=2&x=b=c *)
Lemma uri_roundtrip_witness :
  let kvs := [([Byte.x6b], [Byte.x31]); ([Byte.x6b], [Byte.x32]); ([Byte.x78], [Byte.x62; Byte.x3d; Byte.x63])] in
  url_ (ParseUri (print_uri [Byte.x2f; Byte.x61] kvs) (HttpContext_ctor 0)) = [Byte.x2f; Byte.x61]
  /\ GetParamValue [Byte.x6b] (ParseUri (print_uri [Byte.x2f; Byte.x61] kvs) (HttpContext_ctor 0)) = [Byte.x32].
Proof.
  cbn zeta. set (kvs := [([Byte.x6b], [Byte.x31]); ([Byte.x6b], [Byte.x32]); ([Byte.x78], [Byte.x62; Byte.x3d; Byte.x63])]).
  assert (question ∉ [Byte.x2f; Byte.x61]) as Hp by (refine (bool_decide_unpack _ _); vm_compute; exact I).
  assert (Forall param_ok kvs) as Hok.
  { repeat apply Forall_cons_2; [..|apply Forall_nil_2]; unfold param_ok; cbn [fst snd];
      (split; [|split]); refine (bool_decide_unpack _ _); vm_compute; exact I. }
  destruct (uri_roundtrip _ kvs (HttpContext_ctor 0) Hp Hok) as (H1 & _ & H2). split; [exact H1|]. rewrite H2. reflexivity.
Defined.

(** A segment without an equals sign takes the next one's: [/p?a&b=c] gives a
    parameter [a&b]. *)
Lemma bare_param_swallows :
  GetParamValue [Byte.x61; Byte.x26; Byte.x62] (ParseUri [Byte.x2f; Byte.x70; Byte.x3f; Byte.x61; Byte.x26; Byte.x62; Byte.x3d; Byte.x63] (HttpContext_ctor 0)) = [Byte.x63].
Proof. vm_compute. reflexivity. Qed.

(** Without a question mark the path itself is searched: [/a=b] has a
    parameter [/a]. *)
Lemma path_param : GetParamValue [Byte.x2f; Byte.x61] (ParseUri [Byte.x2f; Byte.x61; Byte.x3d; Byte.x62] (HttpContext_ctor 0)) = [Byte.x62].
Proof. vm_compute. reflexivity. Qed.

(** ** The body *)

(** The last byte of the array, which no chunk reaches, is a NUL. *)
Definition stack_ok (stack : nat -> list byte) : Prop := forall i, length (stack i) = 128%nat /\ stack i !! 127%nat = Some Byte.x00.

Lemma array_string_ok s : Byte.x00 ∈ s -> exists t, array_string s = Ok t.
Proof.
  induction s as [|b s IH]; intros Hs; [by apply not_elem_of_nil in Hs|]. cbn [array_string].
  destruct (byte_eqb b Byte.x00) eqn:E; [by eexists|]. apply elem_of_cons in Hs as [<-|Hs]; [done|].
  destruct (IH Hs) as [t ->]. by eexists.
Qed.

Lemma array_string_app s r t : Byte.x00 ∉ s -> array_string (s ++ r) = Ok t -> take (length s) t = s.
Proof.
  revert t. induction s as [|b s IH]; intros t Hs; [done|]. cbn [app array_string length].
  assert (byte_eqb b Byte.x00 = false) as -> by (apply not_true_iff_false; rewrite byte_eqb_eq; set_solver).
  destruct (array_string (s ++ r)) as [t'|] eqn:E; cbn [mbind outcome_bind]; [|done]. intros [= <-]. cbn. f_equal. apply IH; [set_solver|done].
Qed.

(** One turn of the loop. *)
Lemma chunk_ok stack i buf : stack_ok stack -> exists t, array_string (take 127 buf ++ drop (length (take 127 buf)) (stack i)) = Ok t.
Proof.
  intros Hst. apply array_string_ok. destruct (Hst i) as [Hl H0]. apply elem_of_app. right.
  assert (length (take 127 buf) <= 127)%nat as Hle by (rewrite length_take; lia).
  apply (list_elem_of_lookup_2 _ (127 - length (take 127 buf))). rewrite lookup_drop. by replace (_ + _)%nat with 127%nat by lia.
Qed.

Lemma read_body_ok stack fuel : stack_ok stack -> forall i buf body, exists b, read_body stack fuel i buf body = Ok b.
Proof.
  intros Hst. induction fuel as [|fuel IH]; intros i buf body; cbn [read_body]; [by eexists|].
  destruct buf as [|x buf]; [by eexists|]. cbv zeta. destruct (chunk_ok stack i (x :: buf) Hst) as [t ->]. cbn [mbind outcome_bind]. apply IH.
Qed.

Lemma read_body_exact stack fuel : stack_ok stack -> forall i buf body, (length buf <= fuel)%nat -> Byte.x00 ∉ buf ->
  read_body stack (S fuel) i buf body = Ok (body ++ buf).
Proof.
  intros Hst. induction fuel as [|fuel IH]; intros i buf body Hl H0.
  - destruct buf; [|cbn in Hl; lia]. cbn. by rewrite app_nil_r.
  - destruct buf as [|b buf]; [cbn; by rewrite app_nil_r|]. set (l := b :: buf) in *.
    change (read_body stack (S (S fuel)) i l body) with
      (s ← array_string (take 127 l ++ drop (length (take 127 l)) (stack i));
       read_body stack (S fuel) (S i) (drop 127 l) (body ++ take (length (take 127 l)) s)).
    destruct (chunk_ok stack i l Hst) as [t Et]. rewrite Et. cbn [mbind outcome_bind].
    rewrite (array_string_app _ _ t ltac:(intros Hin; apply H0; by apply (subseteq_take 127)) Et).
    rewrite IH; [rewrite <- app_assoc; do 2 f_equal; apply take_drop| |].
    + rewrite length_drop. subst l. cbn in *. lia.
    + intros Hin. apply H0. by apply (subseteq_drop 127).
Qed.

Lemma Init_ok stack uri headers buf c : stack_ok stack -> exists c', Init stack uri headers buf c = Ok c'.
Proof. intros Hst. unfold Init. destruct (read_body_ok stack (S (length buf)) Hst 0 buf (body_ (ParseUri uri (read_headers headers c)))) as [b ->]. by eexists. Qed.

(** The context of a request: its body is the input buffer, when that has
    no NUL byte and the array on the stack ends with one; the headers are those
    of the request, a later one winning; and the URI is read as [ParseUri]
    reads it. *)
Lemma context_exact stack uri headers buf r : stack_ok stack -> Byte.x00 ∉ buf ->
  exists c, Init stack uri headers buf (HttpContext_ctor r) = Ok c /\
  body_ c = buf /\ request_ c = r /\ headers_map_ c = params_of headers ∅ /\ url_ c = url_ (ParseUri uri (HttpContext_ctor r)).
Proof.
  intros Hst H0. unfold Init. assert (body_ (ParseUri uri (read_headers headers (HttpContext_ctor r))) = []) as ->
    by (unfold ParseUri; by destruct (str_find [question] uri 0)).
  rewrite read_body_exact by (done || lia). cbn [mbind outcome_bind app]. eexists. split; [done|]. cbn [body_ request_ headers_map_ url_].
  unfold ParseUri, read_headers. by destruct (str_find [question] uri 0).
Qed.

(** A stack of zeros. *)
Definition zero_stack (i : nat) : list byte := replicate 128 Byte.x00.
Lemma zero_stack_ok : stack_ok zero_stack.
Proof. done. Qed.

Lemma context_exact_witness : exists c, Init zero_stack [Byte.x2f] [] [Byte.x61; Byte.x62] (HttpContext_ctor 3) = Ok c /\ body_ c = [Byte.x61; Byte.x62].
Proof.
  destruct (context_exact zero_stack [Byte.x2f] [] [Byte.x61; Byte.x62] 3 zero_stack_ok) as (c & E & Hb & _).
  - refine (bool_decide_unpack _ _). vm_compute. exact I.
  - exists c. split; [exact E|exact Hb].
Defined.

(** A NUL byte hides the rest of its chunk. *)
Lemma nul_truncates_body : body_ <$> (match Init zero_stack [Byte.x2f] [] [Byte.x61; Byte.x00; Byte.x62] (HttpContext_ctor 0) with Ok c => Some c | Fail _ => None end)
  = Some [Byte.x61].
Proof. vm_compute. reflexivity. Qed.

(** On a stack without a NUL in the array, a body is read past its end. *)
Lemma body_reads_past_array : Init (fun _ => replicate 128 Byte.x61) [Byte.x2f] [] [Byte.x61] (HttpContext_ctor 0) = Fail OutOfBounds.
Proof. vm_compute. reflexivity. Qed.
