(* ===== verification/HttpServer.v ===== *)
(** * The HTTP server: src/http/EasyHttp.cpp, HttpService.cpp, Condition.cpp

    The main loop parses a request, picks a worker loop and posts the
    processor of its URL there; a worker's answer goes into a list under a
    mutex, and a byte in the condition's pipe makes the main loop send it. The
    main loop, the workers and the two kinds of notification interleave in any
    order. The registered processors and what each answers are given; a
    processor calls its callback within its own call. *)

From stdpp Require Import gmap.
From S2P Require Import Prelude CppString ThreadLoop ThreadLoopSpec HttpContext.

Section Server.
(** [url_processors_]: the responses a processor passes to its callback. *)
Variable url_processors_ : gmap (list byte) (HttpContext -> list (list byte)).

(** A posted [RunProcessor]: the context and the processor. *)
Definition job : Type := HttpContext * (HttpContext -> list (list byte)).

(** [PendingReply] *)
Record PendingReply : Type := mkReply { req_ : nat; buffer_ : list byte }.

(** The main loop: between events, or inside [Condition::CallBack]. *)
Inductive main_phase : Type :=
| MIdle
| MRead
| MSwap
| MSend (tmp : list PendingReply).

(** [cond_pipe]: bytes in the condition's pipe. [notifying]: threads between
    the push of [SendReply] and its [Notify]. [sent] records the calls of
    [evhttp_send_reply], [accepted] the requests, [rejected] those that no
    processor is registered for. *)
Record HttpServer : Type := mkServer {
  pool : EventLoopThreadPool;
  workers : list (EventLoop job);
  pending_reply_list_ : list PendingReply;
  cond_pipe : Z;
  notifying : nat;
  main : main_phase;
  sent : list PendingReply;
  accepted : list HttpContext;
  rejected : list HttpContext;
}.

(** "invalid url" *)
Definition invalid_url : list byte :=
  [Byte.x69; Byte.x6e; Byte.x76; Byte.x61; Byte.x6c; Byte.x69; Byte.x64; Byte.x20; Byte.x75; Byte.x72; Byte.x6c].

(** [Init] and [Start] with [n] worker threads that all start. *)
Definition HttpServer_start (n : nat) : HttpServer :=
  mkServer (Start [] (SetThreadNum (Z.of_nat n) (EventLoopThreadPool_ctor None))).2 (replicate n EventLoop_ctor) [] 0 0 MIdle [] [] [].

Definition set_workers ws s := mkServer (pool s) ws (pending_reply_list_ s) (cond_pipe s) (notifying s) (main s) (sent s) (accepted s) (rejected s).
Definition set_main p s := mkServer (pool s) (workers s) (pending_reply_list_ s) (cond_pipe s) (notifying s) p (sent s) (accepted s) (rejected s).
Definition set_pool p s := mkServer p (workers s) (pending_reply_list_ s) (cond_pipe s) (notifying s) (main s) (sent s) (accepted s) (rejected s).
Definition set_cond c n s := mkServer (pool s) (workers s) (pending_reply_list_ s) c n (main s) (sent s) (accepted s) (rejected s).
Definition log_accepted c s := mkServer (pool s) (workers s) (pending_reply_list_ s) (cond_pipe s) (notifying s) (main s) (sent s)
  (accepted s ++ [c]) (rejected s).
Definition log_rejected c s := mkServer (pool s) (workers s) (pending_reply_list_ s) (cond_pipe s) (notifying s) (main s) (sent s)
  (accepted s) (rejected s ++ [c]).

(** [SendReply], up to its [Notify]. *)
Definition SendReply (ctx : HttpContext) (s : HttpServer) (response : list byte) : HttpServer :=
  mkServer (pool s) (workers s) (pending_reply_list_ s ++ [mkReply (request_ ctx) response]) (cond_pipe s) (S (notifying s)) (main s)
    (sent s) (accepted s) (rejected s).

(** [Condition::Notify] on a pipe that does not block: a full one takes no
    byte, and has one. *)
Definition pipe_capacity : Z := 65536.
Definition Condition_Notify (s : HttpServer) : HttpServer :=
  match notifying s with
  | O => s
  | S n => set_cond (if cond_pipe s <? pipe_capacity then cond_pipe s + 1 else cond_pipe s) n s
  end.

(** [loop->RunInLoop] of a posted [RunProcessor], up to its [Notify]. *)
Definition post_job (j : job) (w : EventLoop job) : EventLoop job := QueueInLoop_push (User j []) w.

(** [DispatchRequests]: a null loop is dereferenced. *)
Definition DispatchRequests (ctx : HttpContext) (s : HttpServer) : outcome HttpServer :=
  let '(loop, p) := GetNextLoop (pool s) in
  let s := set_pool p s in
  match url_processors_ !! url_ ctx with
  | Some processor =>
      match loop with
      | None => Fail NullPointer
      | Some i =>
          match workers s !! i with
          | None => Fail NullPointer
          | Some w => Ok (set_workers (<[i := post_job (ctx, processor) w]> (workers s)) s)
          end
      end
  | None => Ok (SendReply ctx (log_rejected ctx s) invalid_url)
  end.

(** [GenericCallBack] with only the default callback registered. *)
Definition GenericCallBack (stack : nat -> list byte) (uri : list byte) (headers : list (list byte * list byte)) (buf : list byte) (s : HttpServer) :
    outcome HttpServer :=
  ctx ← Init stack uri headers buf (HttpContext_ctor (length (accepted s)));
  DispatchRequests ctx (log_accepted ctx s).

(** [RunProcessor] for the jobs a step of a worker did. *)
Definition RunProcessor (s : HttpServer) (j : job) : HttpServer := foldl (SendReply j.1) s (j.2 j.1).

Definition worker_step (i : nat) (s : HttpServer) : HttpServer :=
  match workers s !! i with
  | None => s
  | Some w =>
      let w' := loop_step w in
      foldl RunProcessor (set_workers (<[i := w']> (workers s)) s) (drop (length (done_ w)) (done_ w'))
  end.

Definition worker_do (f : EventLoop job -> EventLoop job) (i : nat) (s : HttpServer) : HttpServer :=
  match workers s !! i with None => s | Some w => set_workers (<[i := f w]> (workers s)) s end.

(** [Condition::CallBack] and [SendPendingReply]. *)
Definition main_step (s : HttpServer) : HttpServer :=
  match main s with
  | MIdle => if 0 <? cond_pipe s then set_main MRead s else s
  | MRead => if 0 <? cond_pipe s then set_main MSwap (set_cond (cond_pipe s - 1) (notifying s) s) else set_main MIdle s
  | MSwap => mkServer (pool s) (workers s) [] (cond_pipe s) (notifying s) (MSend (pending_reply_list_ s)) (sent s) (accepted s) (rejected s)
  | MSend [] => set_main MRead s
  | MSend (r :: tmp) => mkServer (pool s) (workers s) (pending_reply_list_ s) (cond_pipe s) (notifying s) (MSend tmp) (sent s ++ [r])
      (accepted s) (rejected s)
  end.

Inductive server_label : Type :=
| HRun (i : nat)
| HRequest (stack : nat -> list byte) (uri : list byte) (headers : list (list byte * list byte)) (buf : list byte)
| HWork (i : nat)
| HWorkNotify (i : nat)
| HNotify
| HMain.

Definition server_step (s : HttpServer) (l : server_label) : outcome HttpServer :=
  match l with
  | HRun i => Ok (worker_do ThreadLoop.Run i s)
  | HRequest stack uri headers buf => match main s with MIdle => GenericCallBack stack uri headers buf s | _ => Ok s end
  | HWork i => Ok (worker_step i s)
  | HWorkNotify i => Ok (worker_do QueueInLoop_notify i s)
  | HNotify => Ok (Condition_Notify s)
  | HMain => Ok (main_step s)
  end.

Definition server_run : HttpServer -> list server_label -> outcome HttpServer := foldM server_step.

(** What a request is to be answered. *)
Definition replies_to (c : HttpContext) : list PendingReply :=
  mkReply (request_ c) <$> match url_processors_ !! url_ c with Some processor => processor c | None => [invalid_url] end.
End Server.

(** ** HttpService by itself *)

Module Service.
Section Service.
Context {CB : Type}.

(** [http_]: the engine exists. Requests belong to the engine and go with it;
    [freed] has those it took along, [replied] what was sent. *)
Record HttpService : Type := mkService {
  base_ : bool;
  http_ : bool;
  bound : bool;
  callback_map_ : gmap (list byte) CB;
  default_callback_ : option CB;
  pending : list PendingReply;
  open_reqs : list nat;
  freed : list nat;
  replied : list PendingReply;
}.

(** [http]: whether [evhttp_new] succeeded. *)
Definition HttpService_ctor (base http : bool) : HttpService := mkService base http false ∅ None [] [] [] [].

(** A failed bind is reported and nothing else. *)
Definition Listen (bind_ok : bool) (s : HttpService) : Z * HttpService :=
  if negb (base_ s) || negb (http_ s) then (-1, s)
  else (0, mkService (base_ s) (http_ s) bind_ok (callback_map_ s) (default_callback_ s) (pending s) (open_reqs s) (freed s) (replied s)).

Definition RegisterRequestCallback (url : list byte) (cb : CB) (s : HttpService) : HttpService :=
  mkService (base_ s) (http_ s) (bound s) (<[url := cb]> (callback_map_ s)) (default_callback_ s) (pending s) (open_reqs s) (freed s) (replied s).
Definition RegisterDefaultCallback (cb : CB) (s : HttpService) : HttpService :=
  mkService (base_ s) (http_ s) (bound s) (callback_map_ s) (Some cb) (pending s) (open_reqs s) (freed s) (replied s).

(** The callback [GenericCallBack] calls; an empty function throws. *)
Definition route (url : list byte) (s : HttpService) : outcome CB :=
  match callback_map_ s !! url with
  | Some cb => Ok cb
  | None => match default_callback_ s with Some cb => Ok cb | None => Fail Fatal end
  end.

(** [SendReply] and [SendPendingReply]; a request that went with the engine is
    followed. *)
Definition queue_reply (r : PendingReply) (s : HttpService) : outcome HttpService :=
  if bool_decide (req_ r ∈ freed s) then Fail UseAfterFree
  else Ok (mkService (base_ s) (http_ s) (bound s) (callback_map_ s) (default_callback_ s) (pending s ++ [r]) (open_reqs s) (freed s) (replied s)).

Definition send_one (s : HttpService) (r : PendingReply) : outcome HttpService :=
  if bool_decide (req_ r ∈ freed s) then Fail UseAfterFree
  else Ok (mkService (base_ s) (http_ s) (bound s) (callback_map_ s) (default_callback_ s) (pending s)
             (filter (fun q => q <> req_ r) (open_reqs s)) (freed s) (replied s ++ [r])).
Definition SendPendingReply (s : HttpService) : outcome HttpService :=
  let tmp := pending s in
  foldM send_one (mkService (base_ s) (http_ s) (bound s) (callback_map_ s) (default_callback_ s) [] (open_reqs s) (freed s) (replied s)) tmp.

(** [Stop]: the engine frees its open requests. *)
Definition Stop (s : HttpService) : HttpService :=
  mkService false false (bound s) (callback_map_ s) (default_callback_ s) [] (if http_ s then [] else open_reqs s)
    (if http_ s then freed s ++ open_reqs s else freed s) (replied s).

(** Registration: the last callback for a URL is called, any other URL goes to
    the default, and without one the process ends. *)
Lemma route_registered url cb s url' :
  route url (RegisterRequestCallback url cb s) = Ok cb /\
  (url' <> url -> route url' (RegisterRequestCallback url cb s) = route url' s) /\
  (callback_map_ s !! url' = None -> route url' (RegisterDefaultCallback cb s) = Ok cb) /\
  route url' (HttpService_ctor true true) = Fail Fatal.
Proof.
  unfold route. cbn. rewrite lookup_insert_eq, lookup_empty. split_and!; [done| |by intros ->|done]. intros Hne. by rewrite lookup_insert_ne.
Qed.

(** Every pending reply is sent once, in order, as long as its request lives. *)
Lemma pending_sent s : (forall r, r ∈ pending s -> req_ r ∉ freed s) ->
  exists s', SendPendingReply s = Ok s' /\ replied s' = replied s ++ pending s /\ pending s' = [] /\
    (forall q, q ∈ open_reqs s' <-> q ∈ open_reqs s /\ (q ∉ req_ <$> pending s)).
Proof.
  intros Hl. unfold SendPendingReply. set (s0 := mkService _ _ _ _ _ [] _ _ _).
  assert (forall rs x, (forall r, r ∈ rs -> req_ r ∉ freed x) -> exists x', foldM send_one x rs = Ok x' /\ replied x' = replied x ++ rs /\ pending x' = pending x /\
    (forall q, q ∈ open_reqs x' <-> q ∈ open_reqs x /\ (q ∉ req_ <$> rs))) as H.
  { clear. induction rs as [|r rs IH]; intros x Hx; cbn [foldM].
    - exists x. rewrite app_nil_r. split_and!; try done. intros q. cbn. rewrite elem_of_nil. tauto.
    - destruct (send_one x r) as [x1|] eqn:E; unfold send_one in E; rewrite bool_decide_eq_false_2 in E by (apply Hx; left); [injection E as E|done].
      cbn [mbind outcome_bind]. destruct (IH x1) as (x' & -> & Hr & Hp & Hq); [subst x1; intros r' Hr'; apply Hx; by right|].
      exists x'. subst x1. cbn in Hr, Hp, Hq. split; [done|]. split; [by rewrite Hr, <- app_assoc|]. split; [done|].
      intros q. rewrite Hq. cbn. rewrite list_elem_of_filter, not_elem_of_cons. tauto. }
  destruct (H (pending s) s0 Hl) as (s' & E & Hr & Hp & Hq). by exists s'.
Qed.

(** A bind that failed still answers 0; and a processor that answers after
    [Stop] follows a request the engine has freed. *)
Lemma listen_hides_bind_error s : base_ s = true -> http_ s = true -> fst (Listen false s) = 0 /\ bound (snd (Listen false s)) = false.
Proof. intros H1 H2. unfold Listen. by rewrite H1, H2. Qed.

Lemma reply_after_stop s r : http_ s = true -> req_ r ∈ open_reqs s -> queue_reply r (Stop s) = Fail UseAfterFree.
Proof. intros Hh Hr. unfold queue_reply, Stop. cbn [freed]. rewrite Hh, bool_decide_eq_true_2; [done|]. apply elem_of_app. by right. Qed.
End Service.
End Service.
