(* ===== verification/HttpServerSpec.v ===== *)
(** * The HTTP server answers its requests

    Whatever the order of the main loop, the workers and the notifications,
    every reply that is sent belongs to a request, and the server left to
    itself sends them all. *)

From stdpp Require Import gmap.
From S2P Require Import Prelude CppString ThreadLoop ThreadLoopSpec HttpContext HttpServer.

(** ** Workers whose functors only work *)

Section Worker.
Context {A : Type}.

Definition plain (f : functor A) : bool := match f with User _ [] => true | _ => false end.
Definition plain_instr (i : instr A) : bool :=
  match i with IRun f => plain f | ISetCalling | ISwap | IEnd => true | _ => false end.

Record plain_loop (w : EventLoop A) : Prop := {
  pl_queue : Forall (fun f => plain f = true) (functors_queue_ w);
  pl_code : Forall (fun i => plain_instr i = true) (code w);
}.

Lemma plain_no_stop f : plain f = true -> no_stop f = true.
Proof. by destruct f as [a [|]|]. Qed.

Lemma plain_works f : plain f = true -> exists a, works f = [a] /\ f = User a [].
Proof. destruct f as [a [|]|]; try done. intros _. by exists a. Qed.

Lemma loop_step_done (w : EventLoop A) : exists d, done_ (loop_step w) = done_ w ++ d.
Proof.
  unfold loop_step. destruct (code w) as [|i rest]; [exists []; rewrite app_nil_r; by destruct (_ && _)|].
  destruct i; cbn; try (exists []; by rewrite app_nil_r); try (by eexists).
  - exists []. rewrite app_nil_r. by destruct (calling_pending_functors_ w).
  - exists []. rewrite app_nil_r. by destruct (functors_queue_ w).
Qed.

Lemma plain_step w : plain_loop w -> plain_loop (loop_step w) /\ pushed (loop_step w) = pushed w.
Proof.
  intros [Hq Hc]. unfold loop_step. destruct (code w) as [|i rest] eqn:Ec.
  - destruct (_ && _); [|split; [split; [done|by rewrite Ec]|done]]. split; [|done]. split; [done|]. repeat constructor.
  - apply Forall_cons in Hc as [Hi Hr]. destruct i; try done.
    + split; [|done]. split; cbn; [constructor|]. apply Forall_app_2; [|done]. by apply Forall_map.
    + destruct (plain_works f Hi) as (a & _ & ->). split; [split; cbn; done|done].
Qed.

Lemma plain_push f w : plain f = true -> plain_loop w -> plain_loop (QueueInLoop_push f w).
Proof. intros Hf [Hq Hc]. split; cbn; [|done]. apply Forall_app_2; [done|]. by repeat constructor. Qed.

(** The labels a worker and its posters go through without new posts. *)
Definition inner (l : label A) : bool := match l with LRun | LLoop | LNotify => true | _ => false end.

Lemma inner_polite ls : forallb inner ls = true -> forallb polite ls = true.
Proof. induction ls as [|l ls IH]; [done|]. cbn. rewrite !andb_true_iff. intros [H1 H2]. split; [by destruct l|auto]. Qed.

Lemma plain_inner w l : inner l = true -> plain_loop w -> plain_loop (step w l) /\ pushed (step w l) = pushed w.
Proof.
  destruct l; intros Hl Hw; try done; cbn.
  - split; [|done]. by destruct Hw.
  - by apply plain_step.
  - unfold QueueInLoop_notify. destruct (posting w); [done|]. split; [|done]. by destruct Hw.
Qed.

Lemma plain_inner_run ls : forall w, forallb inner ls = true -> plain_loop w -> plain_loop (steps w ls) /\ pushed (steps w ls) = pushed w.
Proof.
  induction ls as [|l ls IH]; intros w Hl Hw; [done|]. cbn in Hl. apply andb_true_iff in Hl as [Hl Hls].
  destruct (plain_inner w l Hl Hw) as [Hw' Hp]. destruct (IH (step w l) Hls Hw') as [H1 H2]. split; [done|].
  change (steps w (l :: ls)) with (steps (step w l) ls). congruence.
Qed.

(** A worker is brought to rest. *)
Lemma notify_all n : forall w : EventLoop A, posting w = n -> posting (steps w (replicate n LNotify)) = 0%nat /\ tid_ (steps w (replicate n LNotify)) = tid_ w.
Proof.
  induction n as [|n IH]; intros w Hp; [done|]. change (steps w (replicate (S n) LNotify)) with (steps (QueueInLoop_notify w) (replicate n LNotify)).
  unfold QueueInLoop_notify. rewrite Hp. destruct (IH (Notify (set_posting n w)) eq_refl) as [H1 H2]. by rewrite H1, H2.
Qed.

Lemma steps_app (w : EventLoop A) l1 l2 : steps w (l1 ++ l2) = steps (steps w l1) l2.
Proof. unfold steps. apply foldl_app. Qed.

Lemma forallb_replicate {X} (f : X -> bool) n x : f x = true -> forallb f (replicate n x) = true.
Proof. intros H. induction n; cbn; [done|]. by rewrite H. Qed.

Lemma spin_posting n (s : EventLoop A) : posting (spin n s) = posting s.
Proof. revert s. induction n as [|n IH]; intros s; [done|]. rewrite spin_S, IH. apply (proj2 (loop_step_keeps s)). Qed.

Lemma worker_rests w : good w -> plain_loop w -> exists ls, forallb inner ls = true
  /\ posting (steps w ls) = 0%nat /\ done_ (steps w ls) = concat (map works (pushed w)).
Proof.
  intros Hg Hpl. set (l1 := LRun :: replicate (posting w) LNotify : list (label A)). assert (forallb inner l1 = true) as Hl1 by (by apply (forallb_replicate inner)).
  assert (good (steps w l1)) as Hg1 by (apply steps_good; [by apply inner_polite|done]).
  assert (posting (steps w l1) = 0%nat /\ tid_ (steps w l1) = true) as [Hp1 Ht1].
  { destruct (notify_all (posting w) (Run w) eq_refl) as [H1 H2]. by split. }
  destruct (loop_rests _ Hg1 Ht1 Hp1) as (n & Hgn & _ & _ & _ & Hd). exists (l1 ++ replicate n LLoop).
  assert (forallb inner (l1 ++ replicate n LLoop) = true) as Hin by (rewrite forallb_app, Hl1; by apply forallb_replicate).
  split; [done|]. destruct (plain_inner_run _ w Hin Hpl) as [_ Hpush]. rewrite steps_app in *. fold (spin n (steps w l1)) in *.
  rewrite Hd, Hpush, spin_posting. done.
Qed.
End Worker.

(** ** Lists gathered from all workers *)

Lemma bind_insert {X Y} (f : X -> list Y) l i x x' d : l !! i = Some x -> f x' ≡ₚ f x ++ d -> (<[i := x']> l) ≫= f ≡ₚ (l ≫= f) ++ d.
Proof.
  intros Hi Hf. revert i Hi. induction l as [|y l IH]; intros [|i] Hi; cbn in Hi; [done|done| |].
  - injection Hi as ->. cbn. rewrite Hf. solve_Permutation.
  - change (<[S i := x']> (y :: l)) with (y :: <[i := x']> l). cbn. rewrite (IH i Hi). by rewrite app_assoc.
Qed.

Lemma bind_insert_same {X Y} (f : X -> list Y) l i x x' : l !! i = Some x -> f x' = f x -> (<[i := x']> l) ≫= f = l ≫= f.
Proof.
  intros Hi Hf. revert i Hi. induction l as [|y l IH]; intros [|i] Hi; cbn in Hi; [done|done| |].
  - injection Hi as ->. cbn. by rewrite Hf.
  - change (<[S i := x']> (y :: l)) with (y :: <[i := x']> l). cbn. by rewrite (IH i Hi).
Qed.

Section Server.
Variable url_processors_ : gmap (list byte) (HttpContext -> list (list byte)).
Abbreviation server_run := (server_run url_processors_).
Abbreviation server_step := (server_step url_processors_).
Abbreviation replies_to := (replies_to url_processors_).

Definition job_replies (j : job) : list PendingReply := mkReply (request_ j.1) <$> j.2 j.1.

(** The jobs a worker was given, and the replies of those it has done. *)
Definition given (w : EventLoop job) : list job := concat (map works (pushed w)).
Definition worker_replies (w : EventLoop job) : list PendingReply := done_ w ≫= job_replies.

Definition sending (p : main_phase) : list PendingReply := match p with MSend tmp => tmp | _ => [] end.

Record server_inv (n : nat) (s : HttpServer) : Prop := {
  si_pool : threads_ (pool s) = seq 0 n;
  si_workers : length (workers s) = n;
  si_loops : Forall (fun w => good w /\ plain_loop w) (workers s);
  si_accepted : accepted s ≡ₚ rejected s ++ ((workers s ≫= given) ≫= fun j : job => [j.1]);
  si_jobs : Forall (fun j : job => url_processors_ !! url_ j.1 = Some j.2) (workers s ≫= given);
  si_rejected : Forall (fun c => url_processors_ !! url_ c = None) (rejected s);
  si_replies : sent s ++ sending (main s) ++ pending_reply_list_ s ≡ₚ (rejected s ≫= replies_to) ++ (workers s ≫= worker_replies);
  si_wake : pending_reply_list_ s <> [] -> 0 < cond_pipe s \/ (0 < notifying s)%nat \/ main s = MSwap;
  si_pipe : 0 <= cond_pipe s;
}.

Lemma start_seq k : forall i ths, start_threads [] i k ths = (true, ths ++ seq i k).
Proof.
  induction k as [|k IH]; intros i ths; cbn [start_threads seq]; [by rewrite app_nil_r|].
  rewrite IH. by rewrite <- app_assoc.
Qed.

Lemma bind_replicate_nil {X Y} (f : X -> list Y) n x : f x = [] -> replicate n x ≫= f = [].
Proof. intros Hf. induction n as [|n IH]; [done|]. cbn. by rewrite Hf, IH. Qed.

Lemma start_inv n : server_inv n (HttpServer_start n).
Proof.
  unfold HttpServer_start. split; cbn [pool workers accepted rejected sent main pending_reply_list_ cond_pipe notifying sending].
  - unfold Start, SetThreadNum, EventLoopThreadPool_ctor. cbn [started_ threads_num_ threads_]. rewrite start_seq. cbn. by rewrite Nat2Z.id.
  - apply length_replicate.
  - apply Forall_replicate. split; [apply ctor_good|]. by split.
  - by rewrite bind_replicate_nil.
  - by rewrite bind_replicate_nil.
  - done.
  - by rewrite bind_replicate_nil.
  - done.
  - done.
Qed.

(** ** Steps *)

(** What [SendReply] adds. *)
Lemma run_processors js : forall s, exists k, foldl RunProcessor s js =
  mkServer (pool s) (workers s) (pending_reply_list_ s ++ (js ≫= job_replies)) (cond_pipe s) (k + notifying s) (main s) (sent s) (accepted s) (rejected s)
  /\ (js ≫= job_replies <> [] -> (0 < k)%nat).
Proof.
  assert (forall ctx rs s, foldl (SendReply ctx) s rs = mkServer (pool s) (workers s) (pending_reply_list_ s ++ (mkReply (request_ ctx) <$> rs))
    (cond_pipe s) (length rs + notifying s) (main s) (sent s) (accepted s) (rejected s)) as Hone.
  { intros ctx rs. induction rs as [|r rs IH]; intros s; cbn [foldl length fmap list_fmap]; [rewrite app_nil_r; by destruct s|].
    rewrite IH. unfold SendReply. cbn. rewrite <- app_assoc. f_equal. lia. }
  induction js as [|j js IH]; intros s; cbn [foldl].
  - exists 0%nat. cbn. rewrite app_nil_r. by destruct s.
  - destruct (IH (RunProcessor s j)) as (k & Hk & Hpos). exists (k + length (j.2 j.1))%nat. rewrite Hk. unfold RunProcessor. rewrite Hone. cbn. split.
    + rewrite <- app_assoc. f_equal. lia.
    + unfold job_replies at 1. intros Hne. destruct (j.2 j.1) as [|r rs]; cbn in *; [|lia]. specialize (Hpos Hne). lia.
Qed.

(** A worker changes without doing jobs or being given any. *)
Lemma quiet_worker n s i w w' : server_inv n s -> workers s !! i = Some w -> good w' -> plain_loop w' -> done_ w' = done_ w -> pushed w' = pushed w ->
  server_inv n (set_workers (<[i := w']> (workers s)) s).
Proof.
  intros [] Hi Hg Hp Hd Hpu. assert (given w' = given w) as Hgv by (unfold given; by rewrite Hpu).
  assert (worker_replies w' = worker_replies w) as Hr by (unfold worker_replies; by rewrite Hd).
  split; cbn [set_workers pool workers accepted rejected sent main pending_reply_list_ cond_pipe notifying]; try done.
  - by rewrite length_insert.
  - by apply Forall_insert.
  - by rewrite (bind_insert_same given _ _ _ _ Hi Hgv).
  - by rewrite (bind_insert_same given _ _ _ _ Hi Hgv).
  - by rewrite (bind_insert_same worker_replies _ _ _ _ Hi Hr).
Qed.

Lemma worker_inv n s i : server_inv n s -> server_inv n (worker_step i s).
Proof.
  intros Hs. unfold worker_step. destruct (workers s !! i) as [w|] eqn:Hi; [|done].
  destruct (proj1 (Forall_forall _ _) (si_loops n s Hs) w) as [Hg Hp]; [by eapply list_elem_of_lookup_2|].
  destruct (plain_step w Hp) as [Hp' Hpu]. destruct (loop_step_done w) as [d Hd]. rewrite Hd, drop_app_length.
  destruct (run_processors d (set_workers (<[i := loop_step w]> (workers s)) s)) as (k & -> & Hk). destruct Hs.
  assert (given (loop_step w) = given w) as Hgv by (unfold given; by rewrite Hpu).
  split; cbn [set_workers pool workers accepted rejected sent main pending_reply_list_ cond_pipe notifying]; try done.
  - by rewrite length_insert.
  - apply Forall_insert; [done|]. split; [by apply loop_good|done].
  - by rewrite (bind_insert_same given _ _ _ _ Hi Hgv).
  - by rewrite (bind_insert_same given _ _ _ _ Hi Hgv).
  - rewrite (bind_insert worker_replies _ _ _ _ (d ≫= job_replies) Hi); [rewrite (app_assoc (rejected s ≫= replies_to)), <- si_replies0; by rewrite <- !app_assoc|].
    unfold worker_replies. by rewrite Hd, bind_app.
  - intros Hne. destruct (d ≫= job_replies) eqn:Ed; [|right; left; specialize (Hk ltac:(done)); lia].
    rewrite app_nil_r in Hne. destruct (si_wake0 Hne) as [?|[?|?]]; [by left|right; left; lia|by right; right].
Qed.

Lemma next_loop_ok n p : threads_ p = seq 0 n -> (0 < n)%nat ->
  exists i, (GetNextLoop p).1 = Some i /\ (i < n)%nat /\ threads_ (GetNextLoop p).2 = seq 0 n.
Proof.
  intros Hp Hn. destruct (GetNextLoop_in_range p) as (l & Hl & Hin); [rewrite Hp; by destruct n; [lia|]|].
  exists l. split; [done|]. rewrite Hp in Hin. split; [apply elem_of_seq in Hin; lia|].
  unfold GetNextLoop. destruct (threads_ p) eqn:E; cbn; congruence.
Qed.

Lemma request_inv n s stack uri headers buf : (0 < n)%nat -> stack_ok stack -> server_inv n s -> main s = MIdle ->
  exists s', GenericCallBack url_processors_ stack uri headers buf s = Ok s' /\ server_inv n s'.
Proof.
  intros Hn Hst Hs Hm. unfold GenericCallBack. destruct (Init_ok stack uri headers buf (HttpContext_ctor (length (accepted s))) Hst) as [ctx ->].
  cbn [mbind outcome_bind]. unfold DispatchRequests. cbn [pool log_accepted].
  destruct (next_loop_ok n (pool s) (si_pool n s Hs) Hn) as (i & Hi & Hlt & Hth). destruct (GetNextLoop (pool s)) as [l p] eqn:El.
  cbn in Hi, Hth. subst l. destruct (url_processors_ !! url_ ctx) as [processor|] eqn:Eu.
  - destruct (lookup_lt_is_Some_2 (workers s) i) as [w Hw]; [by rewrite (si_workers n s Hs)|].
    cbn [set_pool log_accepted workers]. rewrite Hw. eexists. split; [done|].
    destruct (proj1 (Forall_forall _ _) (si_loops n s Hs) w) as [Hg Hp]; [by eapply list_elem_of_lookup_2|]. destruct Hs.
    assert (given (post_job (ctx, processor) w) = given w ++ [(ctx, processor)]) as Hgv.
    { unfold given. cbn [post_job QueueInLoop_push push set_posting pushed]. by rewrite map_app, concat_app. }
    assert (workers s !! i = Some w) as Hw' by done.
    pose proof (bind_insert given _ _ _ _ [(ctx, processor)] Hw' ltac:(by rewrite Hgv)) as Hperm.
    split; cbn [set_workers set_pool log_accepted pool workers accepted rejected sent main pending_reply_list_ cond_pipe notifying]; try done.
    + by rewrite length_insert.
    + apply Forall_insert; [done|]. split; [by apply push_good|by apply plain_push].
    + rewrite Hperm, bind_app, si_accepted0. cbn. by rewrite <- app_assoc.
    + rewrite Hperm. apply Forall_app_2; [done|]. by repeat constructor.
    + rewrite (bind_insert_same worker_replies _ _ w); done.
  - eexists. split; [done|]. destruct Hs.
    split; cbn [SendReply log_rejected set_pool log_accepted pool workers accepted rejected sent main pending_reply_list_ cond_pipe notifying]; try done.
    + rewrite si_accepted0. solve_Permutation.
    + apply Forall_app_2; [done|]. by repeat constructor.
    + rewrite bind_app. rewrite Hm in *. cbn [sending app] in *. cbn [mbind list_bind]. unfold HttpServer.replies_to at 2. rewrite Eu. cbn.
      rewrite app_assoc, si_replies0. solve_Permutation.
    + intros _. right; left. lia.
Qed.

Lemma notify_inv n s : server_inv n s -> server_inv n (Condition_Notify s).
Proof.
  intros []. unfold Condition_Notify. destruct (notifying s) as [|k] eqn:Ek; [by split; rewrite ?Ek|].
  split; cbn [set_cond pool workers accepted rejected sent main pending_reply_list_ cond_pipe notifying]; try done.
  - intros Hne. left. unfold pipe_capacity. destruct (Z.ltb_spec (cond_pipe s) 65536); lia.
  - destruct (cond_pipe s <? pipe_capacity); lia.
Qed.

Lemma main_inv n s : server_inv n s -> server_inv n (main_step s).
Proof.
  intros []. unfold main_step. destruct (main s) as [| | |[|r tmp]] eqn:Em.
  - destruct (0 <? cond_pipe s) eqn:Ep; [|by split; rewrite ?Em]. apply Z.ltb_lt in Ep.
    split; cbn [set_main pool workers accepted rejected sent main pending_reply_list_ cond_pipe notifying sending]; try done. by left.
  - destruct (0 <? cond_pipe s) eqn:Ep.
    + apply Z.ltb_lt in Ep. split; cbn [set_main set_cond pool workers accepted rejected sent main pending_reply_list_ cond_pipe notifying sending]; try done;
        [by right; right|lia].
    + split; cbn [set_main pool workers accepted rejected sent main pending_reply_list_ cond_pipe notifying sending]; try done.
      intros Hne. destruct (si_wake0 Hne) as [?|[?|?]]; [by left|by right; left|done].
  - split; cbn [pool workers accepted rejected sent main pending_reply_list_ cond_pipe notifying sending]; try done. cbn in si_replies0. by rewrite app_nil_r.
  - split; cbn [set_main pool workers accepted rejected sent main pending_reply_list_ cond_pipe notifying sending]; try done.
    intros Hne. destruct (si_wake0 Hne) as [?|[?|?]]; [by left|by right; left|done].
  - split; cbn [pool workers accepted rejected sent main pending_reply_list_ cond_pipe notifying sending]; try done.
    + rewrite <- si_replies0. cbn. by rewrite <- app_assoc.
    + intros Hne. destruct (si_wake0 Hne) as [?|[?|?]]; [by left|by right; left|done].
Qed.

Lemma worker_do_inv n s i f : server_inv n s -> (forall w, good w -> plain_loop w ->
    good (f w) /\ plain_loop (f w) /\ done_ (f w) = done_ w /\ pushed (f w) = pushed w) -> server_inv n (worker_do f i s).
Proof.
  intros Hs Hf. unfold worker_do. destruct (workers s !! i) as [w|] eqn:Hi; [|done].
  destruct (proj1 (Forall_forall _ _) (si_loops n s Hs) w) as [Hg Hp]; [by eapply list_elem_of_lookup_2|].
  destruct (Hf w Hg Hp) as (H1 & H2 & H3 & H4). by eapply quiet_worker.
Qed.

(** Of a request: what the stack holds where its body is read. *)
Definition request_ok (l : server_label) : Prop := match l with HRequest stack _ _ _ => stack_ok stack | _ => True end.

Lemma http_step_inv n s l : (0 < n)%nat -> request_ok l -> server_inv n s -> exists s', server_step s l = Ok s' /\ server_inv n s'.
Proof.
  intros Hn Hl Hs. destruct l as [i|stack uri headers buf|i|i| |]; cbn [HttpServer.server_step].
  - eexists. split; [done|]. apply worker_do_inv; [done|]. intros w Hg Hp. split; [by apply run_good|]. split; [by destruct Hp|done].
  - destruct (main s) eqn:Em; [by apply request_inv|by eexists..].
  - eexists. split; [done|]. by apply worker_inv.
  - eexists. split; [done|]. apply worker_do_inv; [done|]. intros w Hg Hp. split; [by apply notify_good|].
    unfold QueueInLoop_notify. destruct (posting w); [done|]. split; [by destruct Hp|done].
  - eexists. split; [done|]. by apply notify_inv.
  - eexists. split; [done|]. by apply main_inv.
Qed.

Lemma server_run_inv n ls : forall s, (0 < n)%nat -> Forall request_ok ls -> server_inv n s -> exists s', server_run s ls = Ok s' /\ server_inv n s'.
Proof.
  induction ls as [|l ls IH]; intros s Hn Hl Hs; [by eexists|]. apply Forall_cons in Hl as [Hl Hls].
  destruct (http_step_inv n s l Hn Hl Hs) as (s' & Hs' & Hi).
  destruct (IH s' Hn Hls Hi) as (s'' & H1 & H2). exists s''. split; [|done]. unfold HttpServer.server_run in *. cbn [foldM]. by rewrite Hs'.
Qed.

(** ** Left to itself, the server answers *)

Lemma run_cons s l ls s' s'' : server_step s l = Ok s' -> server_run s' ls = Ok s'' -> server_run s (l :: ls) = Ok s''.
Proof. intros H1 H2. unfold HttpServer.server_run in *. cbn [foldM]. by rewrite H1. Qed.

Lemma run_app s l1 l2 s' s'' : server_run s l1 = Ok s' -> server_run s' l2 = Ok s'' -> server_run s (l1 ++ l2) = Ok s''.
Proof. intros H1 H2. unfold HttpServer.server_run in *. rewrite foldM_app, H1. exact H2. Qed.

(** The steps of a worker as steps of the server. *)
Definition lift (i : nat) (l : label job) : server_label :=
  match l with LRun => HRun i | LLoop => HWork i | LNotify => HWorkNotify i | _ => HMain end.

Definition no_request (l : server_label) : bool := match l with HRequest _ _ _ _ => false | _ => true end.

Lemma no_request_ok ls : forallb no_request ls = true -> Forall request_ok ls.
Proof. induction ls as [|l ls IH]; cbn; [done|]. intros [H1 H2]%andb_true_iff. constructor; [by destruct l|auto]. Qed.

(** [s'] is [s] with no more requests, maybe with more replies. *)
Definition same_requests (s s' : HttpServer) : Prop := accepted s' = accepted s /\ rejected s' = rejected s.

Lemma lift_step s i w l : workers s !! i = Some w -> inner l = true ->
  exists s', server_step s (lift i l) = Ok s' /\ workers s' = <[i := step w l]> (workers s) /\ same_requests s s'.
Proof.
  intros Hi Hl. destruct l; try done; cbn [lift HttpServer.server_step].
  - eexists. split; [done|]. unfold worker_do. by rewrite Hi.
  - eexists. split; [done|]. unfold worker_step. rewrite Hi.
    destruct (run_processors (drop (length (done_ w)) (done_ (loop_step w))) (set_workers (<[i := loop_step w]> (workers s)) s)) as (k & -> & _). done.
  - eexists. split; [done|]. unfold worker_do. by rewrite Hi.
Qed.

Lemma lift_run ls : forall s i w, workers s !! i = Some w -> forallb inner ls = true ->
  exists s', server_run s (map (lift i) ls) = Ok s' /\ workers s' = <[i := steps w ls]> (workers s) /\ same_requests s s'.
Proof.
  induction ls as [|l ls IH]; intros s i w Hi Hl.
  - exists s. split; [done|]. split; [by rewrite list_insert_id|done].
  - cbn in Hl. apply andb_true_iff in Hl as [Hl Hls]. destruct (lift_step s i w l Hi Hl) as (s1 & Hs1 & Hw1 & Ha1 & Hr1).
    destruct (IH s1 i (step w l)) as (s2 & Hs2 & Hw2 & Ha2 & Hr2); [rewrite Hw1; apply list_lookup_insert_eq; by eapply lookup_lt_Some|done|].
    exists s2. split; [by eapply run_cons|]. rewrite Hw2, Hw1, list_insert_insert_eq. split; [done|]. split; congruence.
Qed.

Definition at_rest (w : EventLoop job) : Prop := done_ w = given w.

Lemma lift_no_request i ls : forallb inner ls = true -> forallb no_request (map (lift i) ls) = true.
Proof. induction ls as [|l ls IH]; [done|]. cbn. rewrite !andb_true_iff. intros [H1 H2]. split; [by destruct l|auto]. Qed.

Lemma workers_rest n k : forall s, (0 < n)%nat -> (k <= n)%nat -> server_inv n s ->
  exists ls s', forallb no_request ls = true /\ server_run s ls = Ok s' /\ server_inv n s' /\ same_requests s s'
  /\ forall j w, (j < k)%nat -> workers s' !! j = Some w -> at_rest w.
Proof.
  induction k as [|k IH]; intros s Hn Hk Hs; [exists [], s; split_and!; try done; lia|].
  destruct (IH s Hn ltac:(lia) Hs) as (ls & s1 & Hl & Hr & Hs1 & Hsame & Hrest).
  destruct (lookup_lt_is_Some_2 (workers s1) k) as [w Hw]; [rewrite (si_workers n s1 Hs1); lia|].
  destruct (proj1 (Forall_forall _ _) (si_loops n s1 Hs1) w) as [Hg Hp]; [by eapply list_elem_of_lookup_2|].
  destruct (worker_rests w Hg Hp) as (wl & Hwl & _ & Hd). destruct (lift_run wl s1 k w Hw Hwl) as (s2 & Hr2 & Hw2 & Ha2 & Hrj2).
  exists (ls ++ map (lift k) wl), s2. assert (server_inv n s2) as Hs2.
  { destruct (server_run_inv n (map (lift k) wl) s1 Hn (no_request_ok _ (lift_no_request k wl Hwl)) Hs1) as (s2' & E & Hi). congruence. }
  split_and!; [rewrite forallb_app, Hl; by apply lift_no_request|by eapply run_app|done|destruct Hsame; split; congruence|].
  intros j w' Hj Hw'. rewrite Hw2 in Hw'. apply list_lookup_insert_Some in Hw' as [(-> & <- & _)|[Hne Hw']].
  - unfold at_rest, given. rewrite Hd. by rewrite (proj2 (plain_inner_run wl w Hwl Hp)).
  - apply (Hrest j); [lia|done].
Qed.

Lemma drain_notify k : forall s, notifying s = k ->
  exists s', server_run s (replicate k HNotify) = Ok s' /\ notifying s' = 0%nat /\ workers s' = workers s /\ same_requests s s'.
Proof.
  induction k as [|k IH]; intros s Hk; [by exists s|]. cbn [replicate].
  destruct (IH (Condition_Notify s)) as (s' & H1 & H2 & H3 & H4 & H5); [unfold Condition_Notify; by rewrite Hk|].
  exists s'. split; [by eapply run_cons|]. unfold Condition_Notify in *. rewrite Hk in *. done.
Qed.

(** What the main loop has left to do once it is reading. *)
Definition main_measure (s : HttpServer) : nat :=
  (4 * Z.to_nat (cond_pipe s) + 2 * length (pending_reply_list_ s)
   + match main s with MIdle | MRead => 0 | MSwap => 2 | MSend tmp => 1 + length tmp end)%nat.

Lemma main_step_keeps s : workers (main_step s) = workers s /\ notifying (main_step s) = notifying s /\ same_requests s (main_step s).
Proof. unfold main_step. destruct (main s) as [| | |[|]]; try destruct (0 <? cond_pipe s); done. Qed.

Lemma drain_main_reading s : main s <> MIdle -> 0 <= cond_pipe s ->
  exists k s', server_run s (replicate k HMain) = Ok s' /\ main s' = MIdle /\ cond_pipe s' = 0 /\ notifying s' = notifying s
  /\ workers s' = workers s /\ same_requests s s'.
Proof.
  remember (main_measure s) as m eqn:Em. revert s Em. induction (lt_wf m) as [m _ IH]; intros s -> Hm Hp.
  destruct (main_step_keeps s) as (Hw & Hn & Ha & Hr).
  assert ((main (main_step s) = MIdle /\ cond_pipe (main_step s) = 0)
    \/ (main (main_step s) <> MIdle /\ 0 <= cond_pipe (main_step s) /\ (main_measure (main_step s) < main_measure s)%nat)) as [[H1 H2]|(H1 & H2 & H3)].
  { unfold main_step, main_measure. destruct (main s) as [| | |[|r tmp]] eqn:E; try done.
    - destruct (0 <? cond_pipe s) eqn:Ep; [|left; apply Z.ltb_ge in Ep; cbn; split; [done|lia]]. apply Z.ltb_lt in Ep.
      right. cbn. split; [done|]. lia.
    - right. cbn. split; [done|]. lia.
    - right. cbn. split; [done|]. lia.
    - right. cbn. split; [done|]. lia. }
  - exists 1%nat, (main_step s). split_and!; done.
  - destruct (IH _ H3 (main_step s) eq_refl H1 H2) as (k & s' & Hk & H4 & H5 & H6 & H7 & H8 & H9). exists (S k), s'.
    split_and!; [by apply (run_cons s HMain _ (main_step s))|done|done|congruence|congruence|]. split; congruence.
Qed.

Lemma drain_main s : 0 <= cond_pipe s -> exists k s', server_run s (replicate k HMain) = Ok s' /\ main s' = MIdle /\ cond_pipe s' = 0
  /\ notifying s' = notifying s /\ workers s' = workers s /\ same_requests s s'.
Proof.
  intros Hp. destruct (main s) eqn:Em; [|apply drain_main_reading; [by rewrite Em|done]..].
  destruct (0 <? cond_pipe s) eqn:Ep; [|exists 0%nat, s; apply Z.ltb_ge in Ep; split_and!; done || lia].
  destruct (drain_main_reading (set_main MRead s)) as (k & s' & Hk & H); [done|done|]. exists (S k), s'.
  split; [|exact H]. apply (run_cons s HMain _ (set_main MRead s)); [|done]. cbn. unfold main_step. by rewrite Em, Ep.
Qed.

Lemma jobs_replies (js : list job) : Forall (fun j : job => url_processors_ !! url_ j.1 = Some j.2) js ->
  js ≫= job_replies = (js ≫= (fun j : job => [j.1])) ≫= replies_to.
Proof.
  induction 1 as [|j js Hj _ IH]; [done|]. cbn. rewrite IH. f_equal. unfold job_replies, HttpServer.replies_to. by rewrite Hj.
Qed.

(** The replies to everything accepted. *)
Lemma accepted_replies n s : server_inv n s -> accepted s ≫= replies_to ≡ₚ (rejected s ≫= replies_to) ++ ((workers s ≫= given) ≫= job_replies).
Proof. intros []. rewrite si_accepted0, bind_app. by rewrite (jobs_replies _ si_jobs0). Qed.

Lemma done_given w : good w -> exists rest, given w = done_ w ++ rest.
Proof.
  intros (pre & acts & b & H). unfold given. rewrite (li_fifo _ _ _ _ H), map_app, concat_app, <- (li_works _ _ _ _ H), <- app_assoc. by eexists.
Qed.

Lemma replies_submseteq ws : Forall (fun w => good w /\ plain_loop w) ws -> ws ≫= worker_replies ⊆+ (ws ≫= given) ≫= job_replies.
Proof.
  induction 1 as [|w ws [Hg _] _ IH]; [done|]. cbn. rewrite bind_app. apply submseteq_app; [|done].
  destruct (done_given w Hg) as [rest ->]. unfold worker_replies. rewrite bind_app. by apply submseteq_inserts_r.
Qed.

Lemma rest_replies ws : (forall j w, ws !! j = Some w -> at_rest w) -> ws ≫= worker_replies = (ws ≫= given) ≫= job_replies.
Proof.
  induction ws as [|w ws IH]; intros H; [done|]. cbn. rewrite bind_app, IH by (intros j; apply (H (S j))).
  unfold worker_replies at 1. by rewrite (H 0%nat w eq_refl).
Qed.

(** C18: the HTTP server with at least one worker, between Start and Stop, for
    any interleaving of requests, the main loop, the workers and the
    notifications, as long as the uninitialised array each body is read through
    ends with a NUL (otherwise the body is read past its end,
    [body_reads_past_array]) and Stop is not called (it frees requests the
    workers still answer, [Service.reply_after_stop]). It does not
    fault; the replies sent are, each at most once, the replies to requests
    it accepted: what the processor registered for the URL answers, or
    "invalid url"; and from every state it reaches, its loops left to
    themselves send exactly the replies to all requests. *)
Theorem http_answers n ls : (0 < n)%nat -> Forall request_ok ls -> exists s, server_run (HttpServer_start n) ls = Ok s
  /\ sent s ⊆+ accepted s ≫= replies_to
  /\ exists ls' s', forallb no_request ls' = true /\ server_run s ls' = Ok s' /\ accepted s' = accepted s
     /\ sent s' ≡ₚ accepted s ≫= replies_to.
Proof.
  intros Hn Hls. destruct (server_run_inv n ls _ Hn Hls (start_inv n)) as (s & Hrun & Hs). exists s. split; [done|]. split.
  - rewrite (accepted_replies n s Hs). trans ((rejected s ≫= replies_to) ++ (workers s ≫= worker_replies)).
    + rewrite <- (si_replies n s Hs). by apply submseteq_inserts_r.
    + apply submseteq_app; [done|]. apply replies_submseteq, (si_loops n s Hs).
  - destruct (workers_rest n n s Hn (le_n n) Hs) as (l1 & s1 & Hl1 & Hr1 & Hs1 & [Ha1 _] & Hrest).
    destruct (drain_notify _ s1 eq_refl) as (s2 & Hr2 & Hn2 & Hw2 & [Ha2 _]).
    assert (server_inv n s2) as Hs2 by (destruct (server_run_inv n (replicate (notifying s1) HNotify) s1 Hn ltac:(by apply Forall_replicate) Hs1) as (x & E & Hx); congruence).
    destruct (drain_main s2 (si_pipe n s2 Hs2)) as (k & s3 & Hr3 & Hm3 & Hp3 & Hn3 & Hw3 & [Ha3 _]).
    assert (server_inv n s3) as Hs3 by (destruct (server_run_inv n (replicate k HMain) s2 Hn ltac:(by apply Forall_replicate) Hs2) as (x & E & Hx); congruence).
    exists (l1 ++ replicate (notifying s1) HNotify ++ replicate k HMain), s3. split_and!.
    + rewrite !forallb_app, Hl1. by rewrite !(forallb_replicate no_request).
    + eapply run_app; [done|]. by eapply run_app.
    + congruence.
    + assert (accepted s = accepted s3) as -> by congruence. rewrite (accepted_replies n s3 Hs3).
      assert (pending_reply_list_ s3 = []) as Hpend.
      { destruct (pending_reply_list_ s3) eqn:Ep; [done|]. destruct (si_wake n s3 Hs3) as [?|[?|?]]; [by rewrite Ep|lia|lia|congruence]. }
      pose proof (si_replies n s3 Hs3) as Hrep. rewrite Hpend, Hm3 in Hrep. cbn in Hrep. rewrite app_nil_r in Hrep. rewrite Hrep.
      rewrite rest_replies; [done|]. intros j w Hj. rewrite Hw3, Hw2 in Hj. apply (Hrest j); [|done].
      rewrite <- (si_workers n s1 Hs1). by eapply lookup_lt_Some.
Qed.
End Server.

(** One processor, for the URL "/e", that echoes the body. *)
Definition echo_url : list byte := [Byte.x2f; Byte.x65].
Definition echo_only : gmap (list byte) (HttpContext -> list (list byte)) := {[ echo_url := fun c => [body_ c] ]}.
Definition two_requests : list server_label :=
  [HRequest zero_stack echo_url [] [Byte.x61]; HRequest zero_stack [Byte.x2f] [] []; HNotify].

Lemma http_answers_witness : exists s, server_run echo_only (HttpServer_start 2) two_requests = Ok s
  /\ exists ls' s', forallb no_request ls' = true /\ server_run echo_only s ls' = Ok s' /\ sent s' ≡ₚ [mkReply 0 [Byte.x61]; mkReply 1 invalid_url].
Proof.
  assert (Forall request_ok two_requests) as Hok by (repeat constructor).
  destruct (http_answers echo_only 2 two_requests ltac:(lia) Hok) as (s & Hr & _ & ls' & s' & H1 & H2 & _ & H4).
  exists s. split; [exact Hr|]. exists ls', s'. split; [exact H1|]. split; [exact H2|]. rewrite H4.
  vm_compute in Hr. injection Hr as <-. reflexivity.
Defined.

(** A server without workers: the pool has no loop to give, and a request for
    a registered URL goes through a null pointer. *)
Lemma no_workers_crash : server_run echo_only (HttpServer_start 0) [HRequest zero_stack echo_url [] []] = Fail NullPointer.
Proof. vm_compute. reflexivity. Qed.
