(* ===== verification/EasyEvent.v ===== *)
(** * Wrappers of libevent events: src/thread/easyevent.h, easyevent.cpp

    [FdEvent] and [TimerEvent] own at most one event of the base each and
    register it for one firing. An event of the base is a handle, pending or
    not; a use of a freed one is a fault.
    What [event_add] returns is an argument; [event_del] succeeds. Handlers
    are numbered. *)

From stdpp Require Import gmap.
From S2P Require Import Prelude.

(** ** The base *)

Record event_base : Type := mkBase { events : gmap nat bool; next_event : nat }.

Definition event_new (b : event_base) : nat * event_base :=
  (next_event b, mkBase (<[next_event b := false]> (events b)) (S (next_event b))).
Definition event_add (e : nat) (ok : bool) (b : event_base) : outcome event_base :=
  match events b !! e with
  | None => Fail UseAfterFree
  | Some p => Ok (mkBase (<[e := p || ok]> (events b)) (next_event b))
  end.
Definition event_del (e : nat) (b : event_base) : outcome event_base :=
  match events b !! e with
  | None => Fail UseAfterFree
  | Some _ => Ok (mkBase (<[e := false]> (events b)) (next_event b))
  end.
Definition event_free (e : nat) (b : event_base) : outcome event_base :=
  match events b !! e with
  | None => Fail UseAfterFree
  | Some _ => Ok (mkBase (delete e (events b)) (next_event b))
  end.

(** ** FdEvent *)

Definition kReadable : Z := 1.
Definition kWritable : Z := 2.
Definition EV_TIMEOUT : Z := 1.
Definition EV_READ : Z := 2.
Definition EV_WRITE : Z := 4.

(** [calls] records the handlers called with their argument, [registered]
    those whose event was added. *)
Record FdEvent : Type := mkFdEvent {
  ev_ : option nat;
  active_ : bool;
  handler_ : option nat;
  flags_ : Z;
  calls : list (nat * Z);
  registered : list nat;
}.

Definition FdEvent_ctor : FdEvent := mkFdEvent None false None 0 [] [].

Definition Cancel (b : event_base) (f : FdEvent) : outcome (event_base * FdEvent) :=
  if negb (active_ f) then Ok (b, f)
  else
    b ← match ev_ f with
        | Some e => b ← event_del e b; event_free e b
        | None => Ok b
        end;
    Ok (b, mkFdEvent None false None (flags_ f) (calls f) (registered f)).

Definition Start (fd events : Z) (add_ok : bool) (b : event_base) (f : FdEvent) : outcome (event_base * FdEvent) :=
  if Z.land events (Z.lor kReadable kWritable) =? 0 then Ok (b, f)
  else
    s ← Cancel b f;
    let '(b, f) := s in
    if 0 <=? fd then
      let '(e, b) := event_new b in
      b ← event_add e add_ok b;
      if add_ok then
        Ok (b, mkFdEvent (Some e) true (handler_ f) (flags_ f) (calls f)
                 (registered f ++ match handler_ f with Some h => [h] | None => [] end))
      else Ok (b, mkFdEvent (Some e) (active_ f) (handler_ f) (flags_ f) (calls f) (registered f))
    else Ok (b, f).

Definition AsyncWait (fd events : Z) (h : nat) (add_ok : bool) (b : event_base) (f : FdEvent) : outcome (event_base * FdEvent) :=
  s ← (if active_ f then Cancel b f else Ok (b, f));
  let '(b, f) := s in
  Start fd events add_ok b (mkFdEvent (ev_ f) (active_ f) (Some h) (flags_ f) (calls f) (registered f)).

(** An [int8_t] field: [flags_ |= v]. *)
Definition or_flags (v : Z) (f : FdEvent) : FdEvent :=
  mkFdEvent (ev_ f) (active_ f) (handler_ f) (s8 (Z.lor (flags_ f) v)) (calls f) (registered f).

(** The callback. An empty handler throws, and the exception is caught. *)
Definition Notify (what : Z) (f : FdEvent) : FdEvent :=
  let call f :=
    if active_ f then
      match handler_ f with
      | Some h => mkFdEvent (ev_ f) (active_ f) (handler_ f) (flags_ f) (calls f ++ [(h, flags_ f)]) (registered f)
      | None => f
      end
    else f in
  if negb (Z.land what EV_READ =? 0) then call (or_flags kReadable f)
  else if negb (Z.land what EV_WRITE =? 0) then call (or_flags kWritable f)
  else if negb (Z.land what EV_TIMEOUT =? 0) then call f
  else f.

(** The dispatcher: a pending event that is not persistent is no longer
    pending when its callback runs. *)
Definition fire (what : Z) (b : event_base) (f : FdEvent) : event_base * FdEvent :=
  match ev_ f with
  | Some e =>
      match events b !! e with
      | Some true => (mkBase (<[e := false]> (events b)) (next_event b), Notify what f)
      | _ => (b, f)
      end
  | None => (b, f)
  end.

Inductive fd_op : Set :=
| OpAsyncWait (fd events : Z) (h : nat) (add_ok : bool)
| OpCancel
| OpFire (what : Z).

Definition fd_step (s : event_base * FdEvent) (o : fd_op) : outcome (event_base * FdEvent) :=
  match o with
  | OpAsyncWait fd evs h add_ok => AsyncWait fd evs h add_ok s.1 s.2
  | OpCancel => Cancel s.1 s.2
  | OpFire what => Ok (fire what s.1 s.2)
  end.

Definition fd_run : event_base * FdEvent -> list fd_op -> outcome (event_base * FdEvent) := foldM fd_step.

(** ** TimerEvent *)

Record TimerEvent : Type := mkTimerEvent {
  timer_ev_ : option nat;
  timer_active_ : bool;
  timer_handler_ : option nat;
  timer_calls : list nat;
  timer_registered : list nat;
}.

Definition TimerEvent_ctor : TimerEvent := mkTimerEvent None false None [] [].

(** Deletes and frees the event, as [Cancel] and [OnTimer] do. *)
Definition timer_release (b : event_base) (t : TimerEvent) : outcome event_base :=
  match timer_ev_ t with
  | Some e => b ← event_del e b; event_free e b
  | None => Ok b
  end.

Definition timer_Cancel (b : event_base) (t : TimerEvent) : outcome (event_base * TimerEvent) :=
  if negb (timer_active_ t) then Ok (b, t)
  else b ← timer_release b t; Ok (b, mkTimerEvent None false None (timer_calls t) (timer_registered t)).

(** [Start] does not look at what [evtimer_add] returns. *)
Definition timer_Start (b : event_base) (t : TimerEvent) : outcome (event_base * TimerEvent) :=
  if timer_active_ t then Ok (b, t)
  else
    let '(e, b) := event_new b in
    b ← event_add e true b;
    Ok (b, mkTimerEvent (Some e) true (timer_handler_ t) (timer_calls t)
             (timer_registered t ++ match timer_handler_ t with Some h => [h] | None => [] end)).

Definition timer_AsyncWait (h : nat) (b : event_base) (t : TimerEvent) : outcome (event_base * TimerEvent) :=
  s ← timer_Cancel b t;
  let '(b, t) := s in
  timer_Start b (mkTimerEvent (timer_ev_ t) (timer_active_ t) (Some h) (timer_calls t) (timer_registered t)).

(** [OnTimer]: an empty handler throws out of the callback. *)
Definition OnTimer (what : Z) (b : event_base) (t : TimerEvent) : outcome (event_base * TimerEvent) :=
  if Z.land what EV_TIMEOUT =? 0 then Ok (b, t)
  else
    b ← timer_release b t;
    match timer_handler_ t with
    | Some h => Ok (b, mkTimerEvent None false (timer_handler_ t) (timer_calls t ++ [h]) (timer_registered t))
    | None => Fail Fatal
    end.

Definition timer_fire (b : event_base) (t : TimerEvent) : outcome (event_base * TimerEvent) :=
  match timer_ev_ t with
  | Some e =>
      match events b !! e with
      | Some true => OnTimer EV_TIMEOUT (mkBase (<[e := false]> (events b)) (next_event b)) t
      | _ => Ok (b, t)
      end
  | None => Ok (b, t)
  end.

Inductive timer_op : Set := TAsyncWait (h : nat) | TCancel | TFire.

Definition timer_step (s : event_base * TimerEvent) (o : timer_op) : outcome (event_base * TimerEvent) :=
  match o with
  | TAsyncWait h => timer_AsyncWait h s.1 s.2
  | TCancel => timer_Cancel s.1 s.2
  | TFire => timer_fire s.1 s.2
  end.

Definition timer_run : event_base * TimerEvent -> list timer_op -> outcome (event_base * TimerEvent) := foldM timer_step.

(** ** What the wrappers guarantee *)

(** The events of the base that belong to others. *)
Definition fresh_from (b : event_base) : Prop := forall k, (next_event b <= k)%nat -> events b !! k = None.

(** An own event [e] besides those of others, pending or not. *)
Definition owns (m0 : gmap nat bool) (b : event_base) (e : nat) (p : bool) : Prop := m0 !! e = None /\ events b = <[e := p]> m0.

Lemma owns_lookup m0 b e p : owns m0 b e p -> events b !! e = Some p.
Proof. intros [_ ->]. apply lookup_insert_eq. Qed.

(** Deleting and freeing the own event leaves the others'. *)
Lemma release_own m0 b e p : owns m0 b e p -> fresh_from b ->
  exists b', (b1 ← event_del e b; event_free e b1) = Ok b' /\ events b' = m0 /\ next_event b' = next_event b /\ fresh_from b'.
Proof.
  intros Ho Hf. pose proof (owns_lookup _ _ _ _ Ho) as Hl. destruct Ho as [Hm He]. unfold event_del. rewrite Hl. cbn [mbind outcome_bind].
  unfold event_free. cbn [events]. rewrite lookup_insert_eq. eexists. split; [done|]. cbn [events next_event].
  assert (delete e (<[e:=false]> (events b)) = m0) as Hd.
  { rewrite He, insert_insert_eq. by rewrite delete_insert_id. }
  split; [done|]. split; [done|]. intros k Hk. cbn [events next_event] in *. rewrite Hd. specialize (Hf k Hk). rewrite He in Hf.
  destruct (decide (k = e)) as [->|]; [done|]. by rewrite lookup_insert_ne in Hf.
Qed.

(** A new event, added. *)
Lemma new_own m0 b ok : events b = m0 -> fresh_from b -> let '(e, b1) := event_new b in
  exists b', event_add e ok b1 = Ok b' /\ owns m0 b' e ok /\ fresh_from b'.
Proof.
  intros <- Hf. cbn. unfold event_add. cbn [events next_event]. rewrite lookup_insert_eq. eexists. split; [done|]. cbn [events next_event orb].
  split; [split; [by apply Hf|by rewrite insert_insert_eq]|]. intros k Hk. cbn [events next_event] in *. rewrite !lookup_insert_ne by lia. apply Hf. lia.
Qed.

Record fd_inv (m0 : gmap nat bool) (s : event_base * FdEvent) : Prop := {
  fi_fresh : fresh_from s.1;
  fi_state : match ev_ s.2 with
    | None => active_ s.2 = false /\ events s.1 = m0 /\ (calls s.2).*1 `sublist_of` registered s.2
    | Some e => active_ s.2 = true /\ exists h p r, handler_ s.2 = Some h /\ owns m0 s.1 e p /\ registered s.2 = r ++ [h]
        /\ (calls s.2).*1 `sublist_of` if p then r else registered s.2
    end;
}.

Lemma fd_Cancel_inv m0 b f : fd_inv m0 (b, f) ->
  exists b' f', Cancel b f = Ok (b', f') /\ fd_inv m0 (b', f') /\ ev_ f' = None /\ (active_ f = false -> f' = f)
  /\ calls f' = calls f /\ registered f' = registered f.
Proof.
  intros [Hf Hs]. cbn [fst snd] in *. unfold Cancel. destruct (ev_ f) as [e|] eqn:Ee.
  - destruct Hs as (Ha & h & p & r & Hh & Ho & Hr & Hc). rewrite Ha. destruct (release_own m0 b e p Ho Hf) as (b' & Hb & He & Hn & Hf').
    cbn [negb mbind outcome_bind] in *. rewrite Hb. eexists _, _. split; [done|]. split; [|by split_and!].
    split; [done|]. cbn. split; [done|]. split; [done|]. destruct p; [|done]. rewrite Hr. by apply sublist_inserts_r.
  - destruct Hs as (Ha & He & Hc). rewrite Ha. cbn [negb]. exists b, f. split; [done|]. split; [|by split_and!].
    split; [done|]. cbn. by rewrite Ee.
Qed.

(** [AsyncWait] ends registered for the new handler, or with no event when it
    was given nothing to wait for. *)
Lemma fd_AsyncWait_inv m0 b f fd evs h : fd_inv m0 (b, f) -> exists s', AsyncWait fd evs h true b f = Ok s' /\ fd_inv m0 s'.
Proof.
  intros Hi. unfold AsyncWait. destruct (fd_Cancel_inv m0 b f Hi) as (b1 & f1 & Hc & Hi1 & He1 & Hsame & Hcalls & Hreg).
  assert ((if active_ f then Cancel b f else Ok (b, f)) = Ok (b1, f1)) as ->.
  { destruct (active_ f) eqn:Ea; [done|]. specialize (Hsame eq_refl) as ->. revert Hc. unfold Cancel. by rewrite Ea. }
  cbn [mbind outcome_bind]. destruct Hi1 as [Hf1 Hs1]. cbn [fst snd] in *. rewrite He1 in Hs1. destruct Hs1 as (Ha1 & Hev1 & Hsub1).
  assert (fd_inv m0 (b1, mkFdEvent (ev_ f1) (active_ f1) (Some h) (flags_ f1) (calls f1) (registered f1))) as Hi1' by (split; [done|]; cbn; by rewrite He1).
  unfold Start. destruct (Z.land evs (Z.lor kReadable kWritable) =? 0); [by eexists|].
  unfold Cancel. cbn [active_]. rewrite Ha1. cbn [negb mbind outcome_bind]. destruct (0 <=? fd); [|eexists; split; [done|]; by rewrite Ha1 in Hi1'].
  pose proof (new_own m0 b1 true Hev1 Hf1) as Hnew. destruct (event_new b1) as [e b2]. destruct Hnew as (b3 & Hadd & Ho & Hf3). rewrite Hadd.
  cbn [mbind outcome_bind handler_ flags_ calls registered]. eexists. split; [done|]. split; [done|]. cbn. split; [done|].
  by exists h, true, (registered f1).
Qed.

Lemma fd_fire_inv m0 b f what : fd_inv m0 (b, f) -> fd_inv m0 (fire what b f).
Proof.
  intros [Hf Hs]. cbn [fst snd] in *. unfold fire. destruct (ev_ f) as [e|] eqn:Ee; [|by split; cbn; rewrite ?Ee].
  destruct Hs as (Ha & h & p & r & Hh & Ho & Hr & Hc). rewrite (owns_lookup _ _ _ _ Ho). destruct p; [|split; [done|]; cbn; rewrite Ee; eauto 10].
  destruct Ho as [Hm He]. split; cbn [fst snd].
  - intros k Hk. cbn [events next_event] in *. specialize (Hf k Hk). destruct (decide (k = e)) as [->|]; [by rewrite He, lookup_insert_eq in Hf|].
    by rewrite lookup_insert_ne.
  - assert (forall g, ev_ g = Some e -> active_ g = true -> handler_ g = Some h -> registered g = r ++ [h] -> (calls g).*1 `sublist_of` r ++ [h] ->
      match ev_ g with
      | None => active_ g = false /\ events (mkBase (<[e := false]> (events b)) (next_event b)) = m0 /\ (calls g).*1 `sublist_of` registered g
      | Some e0 => active_ g = true /\ exists h p r, handler_ g = Some h /\ owns m0 (mkBase (<[e := false]> (events b)) (next_event b)) e0 p
          /\ registered g = r ++ [h] /\ (calls g).*1 `sublist_of` if p then r else registered g
      end) as Hdone.
    { intros g -> -> Hhg -> Hsub. split; [done|]. exists h, false, r. split_and!; try done. split; [done|]. cbn [events]. by rewrite He, insert_insert_eq. }
    assert ((calls f).*1 `sublist_of` r ++ [h]) as Hsub1 by (by apply sublist_inserts_r).
    assert (forall z, ((calls f ++ [(h, z)]).*1) `sublist_of` r ++ [h]) as Hsub2.
    { intros z. rewrite fmap_app. cbn. by apply sublist_app. }
    unfold Notify, or_flags. cbn [active_ handler_]. rewrite Ha, Hh.
    destruct (negb _); [|destruct (negb _); [|destruct (negb _)]]; (apply Hdone; [done..|apply Hsub2 || exact Hsub1]).
Qed.

Definition adds_succeed (o : fd_op) : bool := match o with OpAsyncWait _ _ _ ok => ok | _ => true end.

Lemma fd_run_inv m0 ops : forall s, forallb adds_succeed ops = true -> fd_inv m0 s -> exists s', fd_run s ops = Ok s' /\ fd_inv m0 s'.
Proof.
  induction ops as [|o ops IH]; intros [b f] Hok Hs; [by eexists|]. cbn [forallb] in Hok. apply andb_true_iff in Hok as [Ho Hok].
  assert (exists s1, fd_step (b, f) o = Ok s1 /\ fd_inv m0 s1) as (s1 & H1 & Hs1).
  { destruct o as [fd evs h ok| |what]; cbn [fd_step fst snd].
    - cbn in Ho. subst ok. by apply fd_AsyncWait_inv.
    - destruct (fd_Cancel_inv m0 b f Hs) as (b' & f' & Hc & Hi & _). eauto.
    - eexists. split; [done|]. by apply fd_fire_inv. }
  destruct (IH s1 Hok Hs1) as (s' & H2 & Hi). exists s'. split; [|done]. unfold fd_run in *. cbn [foldM]. by rewrite H1.
Qed.

(** An [FdEvent] on a base that has other events, for any sequence of
    [AsyncWait], [Cancel] and firings where [event_add] succeeds: no event is
    used after it was freed or freed twice; the base has the other events,
    unchanged, and at most one of its own, none after the destructor; and
    the handlers called are, in order and at most once each, those that were
    registered. *)
Lemma fd_event_once b ops : fresh_from b -> forallb adds_succeed ops = true ->
  exists b' f', fd_run (b, FdEvent_ctor) ops = Ok (b', f')
  /\ (events b' = events b \/ exists e p, owns (events b) b' e p /\ ev_ f' = Some e)
  /\ (calls f').*1 `sublist_of` registered f'
  /\ exists b'' f'', Cancel b' f' = Ok (b'', f'') /\ events b'' = events b.
Proof.
  intros Hf Hok. destruct (fd_run_inv (events b) ops (b, FdEvent_ctor) Hok) as ([b' f'] & Hr & Hi); [by split|].
  exists b', f'. split; [done|]. destruct (fd_Cancel_inv _ _ _ Hi) as (b2 & f2 & Hc & [_ Hs2] & He2 & _). cbn [fst snd] in Hs2. rewrite He2 in Hs2.
  destruct Hi as [_ Hs]. cbn [fst snd] in Hs. split; [|split].
  - destruct (ev_ f') as [e|]; [right|left; apply Hs]. destruct Hs as (_ & h & p & r & _ & Ho & _). by exists e, p.
  - destruct (ev_ f') as [e|]; [|apply Hs]. destruct Hs as (_ & h & p & r & _ & _ & -> & Hsub). destruct p; [|done]. by apply sublist_inserts_r.
  - exists b2, f2. split; [done|]. apply Hs2.
Qed.

(** A base with one other event; registered twice, fired twice. *)
Definition other_base : event_base := mkBase {[ 0%nat := true ]} 1.
Definition rearm : list fd_op := [OpAsyncWait 5 1 7 true; OpFire 2; OpFire 2; OpAsyncWait 5 1 8 true; OpFire 2].

Lemma fd_event_once_witness : exists b' f', fd_run (other_base, FdEvent_ctor) rearm = Ok (b', f') /\ (calls f').*1 `sublist_of` registered f'.
Proof.
  destruct (fd_event_once other_base rearm) as (b' & f' & Hr & _ & Hs & _).
  - intros k Hk. cbn in *. by rewrite lookup_singleton_ne by lia.
  - reflexivity.
  - exists b', f'. split; [exact Hr|exact Hs].
Defined.

(** When [event_add] fails the event stays with an inactive wrapper: the next
    [AsyncWait] loses it. *)
Lemma failed_add_leaks : exists b' f', fd_run (mkBase ∅ 0, FdEvent_ctor) [OpAsyncWait 5 1 7 false; OpAsyncWait 5 1 7 true; OpCancel] = Ok (b', f')
  /\ ev_ f' = None /\ events b' = {[ 0%nat := false ]}.
Proof. eexists _, _. split; [vm_compute; reflexivity|]. split; vm_compute; reflexivity. Qed.

(** ** TimerEvent *)

Record timer_inv (m0 : gmap nat bool) (s : event_base * TimerEvent) : Prop := {
  ti_fresh : fresh_from s.1;
  ti_state : match timer_ev_ s.2 with
    | None => timer_active_ s.2 = false /\ events s.1 = m0 /\ timer_calls s.2 `sublist_of` timer_registered s.2
    | Some e => timer_active_ s.2 = true /\ exists h r, timer_handler_ s.2 = Some h /\ owns m0 s.1 e true
        /\ timer_registered s.2 = r ++ [h] /\ timer_calls s.2 `sublist_of` r
    end;
}.

Lemma timer_Cancel_inv m0 b t : timer_inv m0 (b, t) ->
  exists b' t', timer_Cancel b t = Ok (b', t') /\ timer_inv m0 (b', t') /\ timer_ev_ t' = None /\ timer_active_ t' = false.
Proof.
  intros [Hf Hs]. cbn [fst snd] in *. unfold timer_Cancel, timer_release. destruct (timer_ev_ t) as [e|] eqn:Ee.
  - destruct Hs as (Ha & h & r & Hh & Ho & Hr & Hc). rewrite Ha. destruct (release_own m0 b e true Ho Hf) as (b' & Hb & He & Hn & Hf').
    cbn [negb mbind outcome_bind] in *. rewrite Hb. eexists _, _. split; [done|]. split; [|done]. split; [done|]. cbn.
    rewrite Hr. split_and!; [done|done|]. by apply sublist_inserts_r.
  - destruct Hs as (Ha & He & Hc). rewrite Ha. cbn [negb]. exists b, t. split; [done|]. split; [|done]. split; [done|]. cbn. by rewrite Ee.
Qed.

Lemma timer_AsyncWait_inv m0 b t h : timer_inv m0 (b, t) -> exists s', timer_AsyncWait h b t = Ok s' /\ timer_inv m0 s'.
Proof.
  intros Hi. unfold timer_AsyncWait. destruct (timer_Cancel_inv m0 b t Hi) as (b1 & t1 & -> & [Hf1 Hs1] & He1 & Ha1).
  cbn [mbind outcome_bind fst snd] in *. rewrite He1 in Hs1. destruct Hs1 as (_ & Hev1 & Hsub1). unfold timer_Start. cbn [timer_active_]. rewrite Ha1.
  pose proof (new_own m0 b1 true Hev1 Hf1) as Hnew. destruct (event_new b1) as [e b2]. destruct Hnew as (b3 & -> & Ho & Hf3).
  cbn [mbind outcome_bind timer_handler_ timer_calls timer_registered]. eexists. split; [done|]. split; [done|]. cbn. split; [done|].
  by exists h, (timer_registered t1).
Qed.

Lemma timer_fire_inv m0 b t : timer_inv m0 (b, t) -> exists s', timer_fire b t = Ok s' /\ timer_inv m0 s'.
Proof.
  intros [Hf Hs]. cbn [fst snd] in *. unfold timer_fire. destruct (timer_ev_ t) as [e|] eqn:Ee.
  - destruct Hs as (Ha & h & r & Hh & Ho & Hr & Hc). rewrite (owns_lookup _ _ _ _ Ho). unfold OnTimer, timer_release. cbn [Z.land EV_TIMEOUT Pos.land Z.of_N Z.eqb].
    rewrite Ee, Hh. destruct (release_own m0 (mkBase (<[e := false]> (events b)) (next_event b)) e false) as (b' & Hb & He & Hn & Hf').
    + destruct Ho as [Hm He]. split; [done|]. cbn [events]. by rewrite He, insert_insert_eq.
    + intros k Hk. cbn [events next_event] in *. specialize (Hf k Hk). pose proof (owns_lookup _ _ _ _ Ho) as Hl.
      destruct (decide (k = e)) as [->|]; [congruence|]. by rewrite lookup_insert_ne.
    + cbn [mbind outcome_bind] in *. rewrite Hb. eexists. split; [done|]. split; [done|]. cbn. rewrite Hr. split_and!; [done|done|]. by apply sublist_app.
  - eexists. split; [done|]. split; [done|]. cbn. by rewrite Ee.
Qed.

(** A [TimerEvent] on a base that has other events, for any sequence of
    [AsyncWait], [Cancel] and expirations: no event is used after it was freed
    or freed twice, the handlers called are, in order and at most once each,
    those that were registered, none of them is empty, and the destructor
    leaves the other events alone. *)
Lemma timer_event_once b ops : fresh_from b -> exists b' t', timer_run (b, TimerEvent_ctor) ops = Ok (b', t')
  /\ timer_calls t' `sublist_of` timer_registered t'
  /\ exists b'' t'', timer_Cancel b' t' = Ok (b'', t'') /\ events b'' = events b.
Proof.
  intros Hf. assert (forall s, timer_inv (events b) s -> exists s', timer_run s ops = Ok s' /\ timer_inv (events b) s') as Hrun.
  { induction ops as [|o ops IH]; intros [b0 t0] Hs; [by eexists|].
    assert (exists s1, timer_step (b0, t0) o = Ok s1 /\ timer_inv (events b) s1) as (s1 & H1 & Hs1).
    { destruct o; cbn [timer_step fst snd]; [by apply timer_AsyncWait_inv| |by apply timer_fire_inv].
      destruct (timer_Cancel_inv _ _ _ Hs) as (b' & t' & Hc & Hi & _). eauto. }
    destruct (IH s1 Hs1) as (s' & H2 & Hi). exists s'. split; [|done]. unfold timer_run in *. cbn [foldM]. by rewrite H1. }
  destruct (Hrun (b, TimerEvent_ctor)) as ([b' t'] & Hr & Hi); [by split|]. exists b', t'. split; [done|].
  destruct (timer_Cancel_inv _ _ _ Hi) as (b2 & t2 & Hc & [_ Hs2] & He2 & _). cbn [fst snd] in Hs2. rewrite He2 in Hs2. split.
  - destruct Hi as [_ Hs]. cbn [fst snd] in Hs. destruct (timer_ev_ t') as [e|]; [|apply Hs].
    destruct Hs as (_ & h & r & _ & _ & -> & Hsub). by apply sublist_inserts_r.
  - exists b2, t2. split; [done|]. apply Hs2.
Qed.

Lemma timer_event_once_witness : exists b' t', timer_run (other_base, TimerEvent_ctor) [TAsyncWait 3; TAsyncWait 4; TFire; TFire; TCancel] = Ok (b', t')
  /\ timer_calls t' `sublist_of` timer_registered t'.
Proof.
  destruct (timer_event_once other_base [TAsyncWait 3; TAsyncWait 4; TFire; TFire; TCancel]) as (b' & t' & Hr & Hs & _).
  - intros k Hk. cbn in *. by rewrite lookup_singleton_ne by lia.
  - exists b', t'. split; [exact Hr|exact Hs].
Defined.

(** ** SignalEvent

    A [SignalEvent] owns one persistent event of the base per signal it was
    given, in a map ordered by signal. src/frame has the same class; its user
    is the supervisor (Skel.v). What [evsignal_add] returns is an argument. *)

Record SignalEvent : Type := mkSignalEvent {
  sig_ev_ : list (Z * nat);
  sig_handler_ : option nat;
  sig_calls : list (nat * Z);
}.

Definition SignalEvent_ctor : SignalEvent := mkSignalEvent [] None [].

Definition find_sig (signo : Z) (l : list (Z * nat)) : option (nat * (Z * nat)) := list_find (fun x => x.1 = signo) l.

(** [std::map::insert] of a key that is not there. *)
Fixpoint insert_sig (x : Z * nat) (l : list (Z * nat)) : list (Z * nat) :=
  match l with
  | [] => [x]
  | y :: l' => if x.1 <? y.1 then x :: l else y :: insert_sig x l'
  end.

Definition sig_Add (signo : Z) (b : event_base) (s : SignalEvent) : bool * event_base * SignalEvent :=
  match find_sig signo (sig_ev_ s) with
  | Some _ => (false, b, s)
  | None =>
      let '(e, b) := event_new b in
      (true, b, mkSignalEvent (insert_sig (signo, e) (sig_ev_ s)) (sig_handler_ s) (sig_calls s))
  end.

(** [evsignal_del] and [event_free]. *)
Definition release_event (e : nat) (b : event_base) : outcome event_base := b ← event_del e b; event_free e b.

Definition sig_Remove (signo : Z) (b : event_base) (s : SignalEvent) : outcome (bool * event_base * SignalEvent) :=
  match find_sig signo (sig_ev_ s) with
  | None => Ok (false, b, s)
  | Some (i, (_, e)) =>
      b ← release_event e b;
      Ok (true, b, mkSignalEvent (delete i (sig_ev_ s)) (sig_handler_ s) (sig_calls s))
  end.

(** [Clear], which [Cancel] and the destructor call. *)
Definition sig_Clear (b : event_base) (s : SignalEvent) : outcome (event_base * SignalEvent) :=
  b ← foldM (fun b x => release_event x.2 b) b (sig_ev_ s);
  Ok (b, mkSignalEvent [] None (sig_calls s)).

(** The events are added in order until one fails. *)
Fixpoint add_signals (l : list (Z * nat)) (add_ok : Z -> bool) (b : event_base) : outcome event_base :=
  match l with
  | [] => Ok b
  | (signo, e) :: l' =>
      b ← event_add e (add_ok signo) b;
      if add_ok signo then add_signals l' add_ok b else Ok b
  end.

Definition sig_AsyncWait (h : nat) (add_ok : Z -> bool) (b : event_base) (s : SignalEvent) : outcome (event_base * SignalEvent) :=
  b ← add_signals (sig_ev_ s) add_ok b;
  Ok (b, mkSignalEvent (sig_ev_ s) (Some h) (sig_calls s)).

(** [OnSignal]; an empty handler throws. *)
Definition OnSignal (sig : Z) (s : SignalEvent) : outcome SignalEvent :=
  match find_sig sig (sig_ev_ s) with
  | None => Ok s
  | Some _ =>
      match sig_handler_ s with
      | Some h => Ok (mkSignalEvent (sig_ev_ s) (sig_handler_ s) (sig_calls s ++ [(h, sig)]))
      | None => Fail Fatal
      end
  end.

(** The dispatcher: the signal's event, if it is pending. *)
Definition sig_fire (sig : Z) (b : event_base) (s : SignalEvent) : outcome SignalEvent :=
  match find_sig sig (sig_ev_ s) with
  | Some (_, (_, e)) => match events b !! e with Some true => OnSignal sig s | _ => Ok s end
  | None => Ok s
  end.

Inductive sig_op : Type :=
| SAdd (signo : Z)
| SRemove (signo : Z)
| SClear
| SAsyncWait (h : nat) (add_ok : Z -> bool)
| SFire (sig : Z).

Definition sig_step (s : event_base * SignalEvent) (o : sig_op) : outcome (event_base * SignalEvent) :=
  match o with
  | SAdd signo => let '(_, b, s') := sig_Add signo s.1 s.2 in Ok (b, s')
  | SRemove signo => r ← sig_Remove signo s.1 s.2; let '(_, b, s') := r in Ok (b, s')
  | SClear => sig_Clear s.1 s.2
  | SAsyncWait h add_ok => sig_AsyncWait h add_ok s.1 s.2
  | SFire sig => s' ← sig_fire sig s.1 s.2; Ok (s.1, s')
  end.

(** ** Ownership of the events *)

(** [es]: the own events among those [m0] of others; a pending one has a
    handler. *)
Record own_events (m0 : gmap nat bool) (b : event_base) (es : list nat) (has_handler : bool) : Prop := {
  oe_fresh : fresh_from b;
  oe_nodup : NoDup es;
  oe_own : forall e, e ∈ es -> m0 !! e = None /\ exists p, events b !! e = Some p /\ (p = true -> has_handler = true);
  oe_other : forall k, k ∉ es -> events b !! k = m0 !! k;
}.

Definition sig_inv (m0 : gmap nat bool) (s : event_base * SignalEvent) : Prop :=
  own_events m0 s.1 (sig_ev_ s.2).*2 (bool_decide (is_Some (sig_handler_ s.2))).

Lemma insert_sig_perm x l : insert_sig x l ≡ₚ x :: l.
Proof. induction l as [|y l IH]; [done|]. cbn. destruct (_ <? _); [done|]. rewrite IH. apply perm_swap. Qed.

Lemma own_perm m0 b es es' h : es ≡ₚ es' -> own_events m0 b es h -> own_events m0 b es' h.
Proof.
  intros Hp [H1 H2 H3 H4]. split; [done|by rewrite <- Hp| |].
  - intros e He. apply H3. by rewrite Hp.
  - intros k Hk. apply H4. by rewrite Hp.
Qed.

Lemma own_new m0 b es h : own_events m0 b es h -> own_events m0 (event_new b).2 ((event_new b).1 :: es) h.
Proof.
  intros [H1 H2 H3 H4]. unfold event_new. cbn [fst snd]. assert (next_event b ∉ es) as Hn.
  { intros Hin. destruct (H3 _ Hin) as (_ & p & Hp & _). by rewrite (H1 (next_event b)) in Hp by lia. }
  split; cbn [events next_event].
  - intros k Hk. cbn [events next_event] in *. rewrite lookup_insert_ne by lia. apply H1. lia.
  - by constructor.
  - intros e He. apply elem_of_cons in He as [->|He].
    + split; [rewrite <- H4 by done; apply H1; lia|]. exists false. by rewrite lookup_insert_eq.
    + destruct (H3 e He) as (Hm & p & Hp & Hh). split; [done|]. exists p. split; [|done]. rewrite lookup_insert_ne; [done|]. intros <-. done.
  - intros k Hk. rewrite lookup_insert_ne by set_solver. apply H4. set_solver.
Qed.

Lemma own_release m0 b e es h : own_events m0 b (e :: es) h -> exists b', release_event e b = Ok b' /\ own_events m0 b' es h.
Proof.
  intros [H1 H2 H3 H4]. apply NoDup_cons in H2 as [Hn H2]. destruct (H3 e) as (Hm & p & Hp & _); [by left|].
  unfold release_event, event_del. rewrite Hp. cbn [mbind outcome_bind]. unfold event_free. cbn [events]. rewrite lookup_insert_eq. eexists. split; [done|].
  split; cbn [events next_event].
  - intros k Hk. cbn [events next_event] in *. destruct (decide (k = e)) as [->|]; [by rewrite lookup_delete_eq|].
    rewrite lookup_delete_ne, lookup_insert_ne by done. by apply H1.
  - done.
  - intros e' He. destruct (H3 e') as (Hm' & p' & Hp' & Hh); [by right|]. split; [done|]. exists p'. split; [|done].
    assert (e <> e') by (by intros <-). by rewrite lookup_delete_ne, lookup_insert_ne.
  - intros k Hk. destruct (decide (k = e)) as [->|]; [by rewrite lookup_delete_eq|]. rewrite lookup_delete_ne, lookup_insert_ne by done. apply H4. set_solver.
Qed.

Lemma own_add m0 b es e ok h : own_events m0 b es h -> e ∈ es -> exists b', event_add e ok b = Ok b' /\ own_events m0 b' es true.
Proof.
  intros [H1 H2 H3 H4] He. destruct (H3 e He) as (Hm & p & Hp & _). unfold event_add. rewrite Hp. eexists. split; [done|]. split; cbn [events next_event].
  - intros k Hk. cbn [events next_event] in *. rewrite lookup_insert_ne; [by apply H1|]. intros <-. by rewrite (H1 e Hk) in Hp.
  - done.
  - intros e' He'. destruct (H3 e' He') as (Hm' & p' & Hp' & _). split; [done|]. destruct (decide (e' = e)) as [->|];
      [rewrite lookup_insert_eq|rewrite lookup_insert_ne by done]; eauto.
  - intros k Hk. rewrite lookup_insert_ne by (by intros <-). by apply H4.
Qed.

Lemma own_weaken m0 b es h : own_events m0 b es h -> own_events m0 b es true.
Proof. intros [H1 H2 H3 H4]. split; try done. intros e He. destruct (H3 e He) as (? & p & ? & _). eauto. Qed.

Lemma own_clear m0 l : forall b h, own_events m0 b l.*2 h ->
  exists b', foldM (fun b (x : Z * nat) => release_event x.2 b) b l = Ok b' /\ own_events m0 b' [] h.
Proof.
  induction l as [|x l IH]; intros b h Ho; cbn [foldM]; [by eexists|]. cbn in Ho. destruct (own_release _ _ _ _ _ Ho) as (b1 & -> & Ho1).
  cbn [mbind outcome_bind]. by apply IH.
Qed.

Lemma own_add_signals m0 es add_ok l : forall b h, own_events m0 b es h -> (forall e, e ∈ l.*2 -> e ∈ es) ->
  exists b', add_signals l add_ok b = Ok b' /\ own_events m0 b' es true.
Proof.
  induction l as [|[signo e] l IH]; intros b h Ho Hl; cbn [add_signals]; [eexists; split; [done|]; by eapply own_weaken|].
  destruct (own_add m0 b es e (add_ok signo) h Ho) as (b1 & -> & Ho1); [apply Hl; cbn; by left|]. cbn [mbind outcome_bind].
  destruct (add_ok signo); [|by eexists]. eapply IH; [done|]. intros e' He'. apply Hl. cbn. by right.
Qed.

Lemma sig_step_inv m0 s o : sig_inv m0 s -> exists s', sig_step s o = Ok s' /\ sig_inv m0 s'.
Proof.
  intros Hs. destruct s as [b s]. unfold sig_inv in Hs. cbn [fst snd] in Hs. destruct o as [signo|signo| |h add_ok|sig]; cbn [sig_step fst snd].
  - unfold sig_Add. destruct (find_sig signo (sig_ev_ s)); [by eexists|]. pose proof (own_new _ _ _ _ Hs) as Hn. destruct (event_new b) as [e b1].
    eexists. split; [done|]. unfold sig_inv. cbn [fst snd sig_ev_ sig_handler_] in *. eapply own_perm; [|done]. rewrite insert_sig_perm. done.
  - unfold sig_Remove. destruct (find_sig signo (sig_ev_ s)) as [[i [k e]]|] eqn:E; [|by eexists]. apply list_find_Some in E as (E & _ & _).
    assert ((sig_ev_ s).*2 ≡ₚ e :: (delete i (sig_ev_ s)).*2) as Hp.
    { rewrite (list_fmap_delete snd). apply delete_Permutation. by rewrite list_lookup_fmap, E. }
    destruct (own_release _ _ _ _ _ (own_perm _ _ _ _ _ Hp Hs)) as (b1 & -> & Ho). cbn [mbind outcome_bind]. by eexists.
  - unfold sig_Clear. destruct (own_clear _ _ _ _ Hs) as (b1 & -> & Ho). cbn [mbind outcome_bind]. eexists. split; [done|].
    destruct Ho as [H1 H2 H3 H4]. split; try done. intros e He. by apply not_elem_of_nil in He.
  - unfold sig_AsyncWait. destruct (own_add_signals _ _ add_ok (sig_ev_ s) _ _ Hs) as (b1 & -> & Ho); [done|]. cbn [mbind outcome_bind]. by eexists.
  - unfold sig_fire. destruct (find_sig sig (sig_ev_ s)) as [[i [k e]]|] eqn:E; [|by eexists]. destruct (events b !! e) as [[]|] eqn:Ee; [|by eexists..].
    unfold OnSignal. rewrite E. apply list_find_Some in E as (E & _ & _). destruct Hs as [H1 H2 H3 H4] eqn:Es.
    destruct (H3 e) as (_ & p & Hp & Hh); [apply list_elem_of_fmap; exists (k, e); split; [done|]; by eapply list_elem_of_lookup_2|].
    rewrite Ee in Hp. injection Hp as <-. specialize (Hh eq_refl). apply bool_decide_eq_true in Hh as [h Hh]. rewrite Hh. cbn [mbind outcome_bind].
    eexists. split; [done|]. unfold sig_inv. cbn [fst snd sig_ev_ sig_handler_]. clear Es. by rewrite Hh in *.
Qed.

(** A [SignalEvent] on a base that has other events, for any sequence of its
    calls and of signals: no event is used after it was freed or freed twice,
    an empty handler is never called, and [Clear] leaves exactly the other
    events. *)
Lemma signal_event_safe b ops : fresh_from b -> exists b' s', foldM sig_step (b, SignalEvent_ctor) ops = Ok (b', s')
  /\ exists b'' s'', sig_Clear b' s' = Ok (b'', s'') /\ events b'' = events b.
Proof.
  intros Hf. assert (forall s, sig_inv (events b) s -> exists s', foldM sig_step s ops = Ok s' /\ sig_inv (events b) s') as Hrun.
  { induction ops as [|o ops IH]; intros s Hs; [by eexists|]. destruct (sig_step_inv _ _ o Hs) as (s1 & H1 & Hs1).
    destruct (IH s1 Hs1) as (s' & H2 & Hi). exists s'. split; [|done]. cbn [foldM]. by rewrite H1. }
  destruct (Hrun (b, SignalEvent_ctor)) as ([b' s'] & Hr & Hi).
  { split; cbn; try done; [constructor|]. intros e He. by apply not_elem_of_nil in He. }
  exists b', s'. split; [done|]. unfold sig_inv in Hi. cbn [fst snd] in Hi. unfold sig_Clear. destruct (own_clear _ _ _ _ Hi) as (b2 & -> & [_ _ _ H4]). cbn [mbind outcome_bind].
  eexists _, _. split; [done|]. apply map_eq. intros k. apply H4, not_elem_of_nil.
Qed.

(** Three signals, one removed; only those that were added before
    [AsyncWait] reach the handler. *)
Lemma signal_event_example : exists b s, foldM sig_step (mkBase ∅ 0, SignalEvent_ctor)
    [SAdd 15; SAdd 2; SAsyncWait 9 (fun _ => true); SAdd 1; SFire 2; SFire 1; SRemove 2; SFire 2; SFire 15] = Ok (b, s)
  /\ sig_calls s = [(9%nat, 2); (9%nat, 15)] /\ (sig_ev_ s).*1 = [1; 15].
Proof. eexists _, _. split; [vm_compute; reflexivity|]. split; reflexivity. Qed.
