(* ===== verification/LeeCode.v ===== *)
(** * Exercises: src/leecode

    Small algorithms on strings, arrays, trees and linked lists. Linked nodes
    live in a heap of nodes by address; a null or dangling pointer that is
    dereferenced is a fault. *)

From stdpp Require Import gmap.
From S2P Require Import Prelude CppString.

(** ** verifypreorder.cpp: is a string the preorder of a binary tree? *)

Module Preorder.

Definition comma : byte := Byte.x2c.
Definition null_token : list byte := [Byte.x23].

(** The loop that cuts the string at its commas. *)
Fixpoint split_loop (fuel : nat) (preorder : list byte) (start_pos : nat) (vec : list (list byte)) : list (list byte) :=
  match fuel with
  | O => vec
  | S fuel' =>
      match str_find [comma] preorder start_pos with
      | Some sep_pos => split_loop fuel' preorder (sep_pos + 1) (vec ++ [take (sep_pos - start_pos) (drop start_pos preorder)])
      | None => vec ++ [drop start_pos preorder]
      end
  end.

(** The loop over the tokens; [rest = []] is [i == vec.size() - 1]. *)
Fixpoint valid_loop (vec : list (list byte)) (parent : list (list byte)) : bool :=
  match vec with
  | [] => match parent with [] => true | _ => false end
  | cur :: rest =>
      if bool_decide (cur = null_token) then
        match rest, parent with
        | [], _ => valid_loop rest parent
        | _, _ :: parent' => valid_loop rest parent'
        | _, [] => false
        end
      else valid_loop rest (cur :: parent)
  end.

Definition isValidSerialization (preorder : list byte) : bool :=
  valid_loop (split_loop (S (length preorder)) preorder 0 []) [].

(** Binary trees and their preorder. *)
Inductive tree : Type := Null | Node (v : list byte) (l r : tree).

Fixpoint tokens (t : tree) : list (list byte) :=
  match t with
  | Null => [null_token]
  | Node v l r => v :: tokens l ++ tokens r
  end.

(** The values can be told from the empty subtree and from the separator. *)
Fixpoint tree_ok (t : tree) : Prop :=
  match t with
  | Null => True
  | Node v l r => v <> null_token /\ (comma ∉ v) /\ tree_ok l /\ tree_ok r
  end.

Fixpoint join (toks : list (list byte)) : list byte :=
  match toks with
  | [] => []
  | [t] => t
  | t :: toks' => t ++ comma :: join toks'
  end.

Definition serialize (t : tree) : list byte := join (tokens t).

Lemma joined_cons t t2 toks : join (t :: t2 :: toks) = t ++ comma :: join (t2 :: toks).
Proof. done. Qed.

Lemma split_join toks : forall fuel pre vec, toks <> [] -> Forall (fun t => comma ∉ t) toks -> (length toks <= fuel)%nat ->
  split_loop fuel (pre ++ join toks) (length pre) vec = vec ++ toks.
Proof.
  induction toks as [|t toks IH]; intros fuel pre vec Hne Hc Hf; [done|]. apply Forall_cons in Hc as [Ht Hc].
  destruct fuel as [|fuel]; [cbn in Hf; lia|]. destruct toks as [|t2 toks].
  - cbn [split_loop join]. rewrite str_find_char_none by done. by rewrite drop_app_length.
  - rewrite joined_cons. cbn [split_loop]. rewrite str_find_char by done. rewrite drop_app_length.
    replace (length pre + length t - length pre)%nat with (length t) by lia. rewrite take_app_length.
    replace (pre ++ t ++ comma :: join (t2 :: toks)) with ((pre ++ t ++ [comma]) ++ join (t2 :: toks)) by (by rewrite <- !app_assoc).
    replace (length pre + length t + 1)%nat with (length (pre ++ t ++ [comma])) by (rewrite !length_app; cbn; lia).
    rewrite IH; [by rewrite <- app_assoc|done|done|cbn in *; lia].
Qed.

Lemma join_long toks : (length toks <= S (length (join toks)))%nat.
Proof.
  induction toks as [|t toks IH]; [cbn; lia|]. destruct toks as [|t2 toks]; [cbn; lia|].
  rewrite joined_cons, length_app. cbn [length] in *. lia.
Qed.

Lemma split_exact toks : toks <> [] -> Forall (fun t => comma ∉ t) toks -> split_loop (S (length (join toks))) (join toks) 0 [] = toks.
Proof. intros Hne Hc. apply (split_join toks _ [] []); [done|done|apply join_long]. Qed.

(** Every string is the tokens between its commas. *)
Lemma join_exists s : exists toks, toks <> [] /\ Forall (fun t => comma ∉ t) toks /\ s = join toks.
Proof.
  induction s as [|c s (toks & Hne & Hc & ->)]; [exists [[]]; repeat constructor; [done|apply not_elem_of_nil]|].
  destruct toks as [|t toks]; [done|]. apply Forall_cons in Hc as [Ht Hc]. destruct (decide (c = comma)) as [->|Hn].
  - exists ([] :: t :: toks). split; [done|]. split; [|done]. repeat constructor; [apply not_elem_of_nil|done|done].
  - exists ((c :: t) :: toks). split; [done|]. split; [constructor; [|done]; set_solver|]. by destruct toks.
Qed.

(** ** The stack counts the trees still to come *)

Definition forest_tokens (f : list tree) : list (list byte) := concat (map tokens f).

Fixpoint nodes_ok (t : tree) : Prop :=
  match t with Null => True | Node v l r => v <> null_token /\ nodes_ok l /\ nodes_ok r end.

Lemma tokens_ne t : tokens t <> [].
Proof. by destruct t. Qed.

Lemma valid_forest vec : forall parent, vec <> [] ->
  (valid_loop vec parent = true <-> exists f, length f = S (length parent) /\ Forall nodes_ok f /\ vec = forest_tokens f).
Proof.
  induction vec as [|cur rest IH]; intros parent Hne; [done|]. cbn [valid_loop]. destruct (bool_decide_reflect (cur = null_token)) as [->|Hn].
  - destruct rest as [|c rest].
    + cbn [valid_loop]. split.
      * destruct parent; [|done]. intros _. exists [Null]. by repeat constructor.
      * intros (f & Hl & Hok & Hv). destruct parent as [|p parent]; [done|]. destruct f as [|t1 [|t2 f]]; [done|done|].
        apply (f_equal length) in Hv. unfold forest_tokens in Hv. cbn in Hv. rewrite !length_app in Hv.
        pose proof (tokens_ne t1). pose proof (tokens_ne t2). destruct (tokens t1), (tokens t2); cbn in Hv; done || lia.
    + assert (forall f, Forall nodes_ok f -> null_token :: c :: rest = forest_tokens f -> exists f', f = Null :: f' /\ c :: rest = forest_tokens f') as Hinv.
      { intros [|[|v l r] f] Hok Hv; [done| |].
        - exists f. split; [done|]. by injection Hv.
        - apply Forall_cons in Hok as [[Hv' _] _]. injection Hv as Hv _. congruence. }
      destruct parent as [|p parent].
      * split; [done|]. intros (f & Hl & Hok & Hv). destruct (Hinv f Hok Hv) as (f' & -> & Hv'). destruct f'; done.
      * rewrite IH by done. split; intros (f & Hl & Hok & Hv).
        -- exists (Null :: f). cbn [length] in *. split; [lia|]. split; [by constructor|]. rewrite Hv. done.
        -- destruct (Hinv f Hok Hv) as (f' & -> & Hv'). exists f'. apply Forall_cons in Hok as [_ Hok]. cbn in Hl. split; [|done]. cbn. lia.
  - destruct rest as [|c rest].
    + split; [done|]. intros ([|[|v l r] f] & Hl & Hok & Hv); [done|by injection Hv|]. apply (f_equal length) in Hv. unfold forest_tokens in Hv. cbn in Hv.
      rewrite !length_app in Hv. pose proof (tokens_ne l). destruct (tokens l); cbn in Hv; done || lia.
    + rewrite IH by done. split; intros (f & Hl & Hok & Hv).
      * destruct f as [|l [|r f]]; [done|done|]. inversion Hok as [|? ? Hok1 Hok2]; subst. inversion Hok2 as [|? ? Hok3 Hok4]; subst.
        exists (Node cur l r :: f). cbn [length] in *. split; [lia|]. split; [by repeat constructor|]. rewrite Hv. unfold forest_tokens. cbn. by rewrite <- app_assoc.
      * destruct f as [|[|v l r] f]; [done|by injection Hv|]. injection Hv as -> Hv. apply Forall_cons in Hok as [(H1 & H2 & H3) Hok].
        exists (l :: r :: f). cbn [length] in *. split; [lia|]. split; [by repeat constructor|]. rewrite Hv. unfold forest_tokens. cbn. by rewrite <- app_assoc.
Qed.

Lemma tree_ok_split t : tree_ok t <-> nodes_ok t /\ Forall (fun x => comma ∉ x) (tokens t).
Proof.
  induction t as [|v l IHl r IHr]; cbn [tree_ok nodes_ok tokens].
  - split; [|done]. intros _. split; [done|]. repeat constructor. refine (bool_decide_unpack _ _). vm_compute. exact I.
  - rewrite IHl, IHr, Forall_cons, Forall_app. tauto.
Qed.

(** The check accepts a string exactly when it is the preorder
    serialization of a binary tree, with "#" for the empty subtree, whose
    values are neither "#" nor contain a comma. *)
Lemma preorder_exact preorder : isValidSerialization preorder = true <-> exists t, tree_ok t /\ preorder = serialize t.
Proof.
  unfold isValidSerialization. destruct (join_exists preorder) as (toks & Hne & Hc & ->). rewrite split_exact by done.
  rewrite valid_forest by done. split.
  - intros (f & Hl & Hok & Hv). destruct f as [|t [|? f]]; [done| |done]. unfold forest_tokens in Hv. cbn in Hv. rewrite app_nil_r in Hv.
    exists t. apply Forall_cons in Hok as [Hok _]. rewrite tree_ok_split. unfold serialize. by rewrite <- Hv.
  - intros (t & Hok & Hv). rewrite tree_ok_split in Hok. destruct Hok as [Hn Hct]. unfold serialize in Hv. exists [t].
    split; [done|]. split; [by repeat constructor|]. unfold forest_tokens. cbn. rewrite app_nil_r.
    rewrite <- (split_exact toks Hne Hc), Hv. apply split_exact; [apply tokens_ne|done].
Qed.
End Preorder.

(** ** Linked lists *)

Module Linked.

Record ListNode : Type := mkNode { val : Z; next : option nat }.
Abbreviation heap := (gmap nat ListNode).

(** [p->...] *)
Definition load (p : option nat) (h : heap) : outcome ListNode :=
  match p with
  | None => Fail NullPointer
  | Some a => match h !! a with Some n => Ok n | None => Fail UseAfterFree end
  end.

(** [p->next = q] *)
Definition set_next (p q : option nat) (h : heap) : outcome heap :=
  match p with
  | None => Fail NullPointer
  | Some a => match h !! a with Some n => Ok (<[a := mkNode (val n) q]> h) | None => Fail UseAfterFree end
  end.

(** *** reorderlist.cpp *)

(** [while(twostep && twostep->next)] *)
Fixpoint find_middle (fuel : nat) (h : heap) (onestep twostep : option nat) : outcome (option nat) :=
  match fuel with
  | O => Ok onestep
  | S fuel' =>
      match twostep with
      | None => Ok onestep
      | Some _ =>
          two ← load twostep h;
          match next two with
          | None => Ok onestep
          | Some _ =>
              two_next ← load (next two) h;
              one ← load onestep h;
              find_middle fuel' h (next one) (next two_next)
          end
      end
  end.

(** [while(cur != NULL)]: the reversal. *)
Fixpoint reverse_loop (fuel : nat) (h : heap) (prev cur : option nat) : outcome (heap * option nat) :=
  match fuel with
  | O => Ok (h, prev)
  | S fuel' =>
      match cur with
      | None => Ok (h, prev)
      | Some _ =>
          n ← load cur h;
          h ← set_next cur prev h;
          reverse_loop fuel' h cur (next n)
      end
  end.

(** [while(cur1 != NULL && cur2 != NULL)] *)
Fixpoint merge_loop (fuel : nat) (h : heap) (cur1 cur2 : option nat) : outcome heap :=
  match fuel with
  | O => Ok h
  | S fuel' =>
      match cur1, cur2 with
      | Some _, Some _ =>
          n1 ← load cur1 h;
          n2 ← load cur2 h;
          h ← set_next cur1 cur2 h;
          h ← set_next cur2 (next n1) h;
          merge_loop fuel' h (next n1) (next n2)
      | _, _ => Ok h
      end
  end.

Definition reorderList (fuel : nat) (head : option nat) (h : heap) : outcome heap :=
  match head with
  | None => Ok h
  | Some _ =>
      n ← load head h;
      match next n with
      | None => Ok h
      | Some _ =>
          onestep ← find_middle fuel h head head;
          one ← load onestep h;
          let second := next one in
          h ← set_next onestep None h;
          match second with
          | None => Ok h
          | Some _ =>
              s ← reverse_loop fuel h None second;
              merge_loop fuel s.1 head s.2
          end
      end
  end.

(** *** removekthnode.cpp *)

(** [while(curr != NULL && i++ != n)] *)
Fixpoint walk_to (fuel : nat) (h : heap) (curr : option nat) (i n : Z) : outcome (option nat) :=
  match fuel with
  | O => Ok curr
  | S fuel' =>
      match curr with
      | None => Ok None
      | Some _ => if i =? n then Ok curr else c ← load curr h; walk_to fuel' h (next c) (i + 1) n
      end
  end.

(** [while(curr->next != NULL)] *)
Fixpoint advance (fuel : nat) (h : heap) (curr sec prev : option nat) : outcome (option nat * option nat) :=
  match fuel with
  | O => Ok (sec, prev)
  | S fuel' =>
      c ← load curr h;
      match next c with
      | None => Ok (sec, prev)
      | Some _ => s ← load sec h; advance fuel' h (next c) (next s) sec
      end
  end.

(** [delete p] *)
Definition free (p : option nat) (h : heap) : outcome heap :=
  match p with
  | None => Ok h
  | Some a => match h !! a with Some _ => Ok (delete a h) | None => Fail UseAfterFree end
  end.

Definition removeNthFromEnd (fuel : nat) (head : option nat) (n : Z) (h : heap) : outcome (option nat * heap) :=
  if bool_decide (head = None) || (n <? 0) then Ok (head, h)
  else
    curr ← walk_to fuel h head 1 n;
    match curr with
    | None => Ok (head, h)
    | Some _ =>
        s ← advance fuel h curr head None;
        let '(sec, prev) := s in
        s_node ← load sec h;
        if bool_decide (sec = head) then
          h ← free sec h; Ok (next s_node, h)
        else
          h ← set_next prev (next s_node) h;
          h ← free sec h; Ok (head, h)
    end.

(** *** Chains of nodes *)

(** From [p] the nodes are at the addresses [l], in order, ended by null. *)
Fixpoint chain (h : heap) (p : option nat) (l : list nat) : Prop :=
  match l with
  | [] => p = None
  | a :: l' => p = Some a /\ exists n, h !! a = Some n /\ chain h (next n) l'
  end.

Lemma chain_frame h p l a n : a ∉ l -> chain h p l -> chain (<[a := n]> h) p l.
Proof.
  revert p. induction l as [|b l IH]; intros p Ha; [done|]. intros (-> & m & Hm & Hc). split; [done|]. exists m.
  rewrite lookup_insert_ne by set_solver. split; [done|]. apply IH; [set_solver|done].
Qed.

Lemma chain_agree h h' p l : (forall a, a ∈ l -> h' !! a = h !! a) -> chain h p l -> chain h' p l.
Proof.
  revert p. induction l as [|b l IH]; intros p Ha; [done|]. intros (-> & m & Hm & Hc). split; [done|]. exists m.
  rewrite Ha by set_solver. split; [done|]. apply IH; [set_solver|done].
Qed.

Lemma chain_head h p l : chain h p l -> p = head l.
Proof. destruct l; [done|]. by intros [-> _]. Qed.

Lemma chain_lookup h p l i a : chain h p l -> l !! i = Some a -> exists n, h !! a = Some n /\ next n = l !! S i.
Proof.
  revert p i. induction l as [|b l IH]; intros p i; [done|]. intros (-> & n & Hn & Hc) Hi. destruct i as [|i].
  - injection Hi as ->. exists n. split; [done|]. rewrite (chain_head _ _ _ Hc). by destruct l.
  - by apply (IH (next n)).
Qed.

(** Cutting a chain behind its [i]-th node. *)
Lemma chain_cut h p l i a n : chain h p l -> NoDup l -> l !! i = Some a -> h !! a = Some n ->
  chain (<[a := mkNode (val n) None]> h) p (take (S i) l) /\ chain (<[a := mkNode (val n) None]> h) (next n) (drop (S i) l).
Proof.
  revert p i. induction l as [|b l IH]; intros p i; [done|]. intros (-> & m & Hm & Hc) Hnd Hi Hn. apply NoDup_cons in Hnd as [Hb Hnd]. destruct i as [|i].
  - injection Hi as ->. rewrite Hm in Hn. injection Hn as ->. cbn. rewrite take_0, drop_0. split.
    + split; [done|]. eexists. by rewrite lookup_insert_eq.
    + by apply chain_frame.
  - cbn in Hi. destruct (IH (next m) i Hc Hnd Hi Hn) as [H1 H2]. cbn [take drop]. split; [|done]. split; [done|]. exists m.
    split; [|done]. rewrite lookup_insert_ne; [done|]. intros ->. apply Hb. by eapply list_elem_of_lookup_2.
Qed.

(** Only the nodes of [l] may change, and only in their links. *)
Definition relinks (l : list nat) (h h' : heap) : Prop :=
  (forall a, a ∉ l -> h' !! a = h !! a) /\ (forall a, val <$> h' !! a = val <$> h !! a).

Lemma relinks_refl l h : relinks l h h.
Proof. done. Qed.

Lemma relinks_trans l h1 h2 h3 : relinks l h1 h2 -> relinks l h2 h3 -> relinks l h1 h3.
Proof. intros [H1 H2] [H3 H4]. split; [intros a Ha; by rewrite H3, H1|intros a; by rewrite H4, H2]. Qed.

Lemma relinks_mono l l' h h' : l ⊆ l' -> relinks l h h' -> relinks l' h h'.
Proof. intros Hl [H1 H2]. split; [|done]. intros a Ha. apply H1. set_solver. Qed.

Lemma relinks_set l h a n q : a ∈ l -> h !! a = Some n -> relinks l h (<[a := mkNode (val n) q]> h).
Proof.
  intros Ha Hn. split; intros b.
  - intros Hb. rewrite lookup_insert_ne; [done|]. by intros ->.
  - destruct (decide (a = b)) as [<-|]; [by rewrite lookup_insert_eq, Hn|by rewrite lookup_insert_ne].
Qed.

(** *** The loops of reorderList *)

Lemma load_at h p l i a : chain h p l -> l !! i = Some a -> exists n, load (l !! i) h = Ok n /\ h !! a = Some n /\ next n = l !! S i.
Proof. intros Hc Hi. destruct (chain_lookup _ _ _ _ _ Hc Hi) as (n & Hn & Hx). exists n. rewrite Hi. cbn. by rewrite Hn. Qed.

(** The slow pointer is at [i] when the fast one is at [2 * i]. *)
Lemma find_middle_ok h p l k : chain h p l -> forall i fuel, (i + k = length l / 2)%nat -> (0 < length l)%nat -> (k < fuel)%nat ->
  find_middle fuel h (l !! i) (l !! (2 * i)%nat) = Ok (l !! (length l / 2)%nat).
Proof.
  intros Hc. induction k as [|k IH]; intros i fuel Hi Hl Hf; (destruct fuel as [|fuel]; [lia|]); pose proof (Nat.div_mod (length l) 2 ltac:(lia)) as Hdm;
    pose proof (Nat.mod_upper_bound (length l) 2 ltac:(lia)); cbn [find_middle].
  - replace i with (length l / 2)%nat by lia. destruct (l !! (2 * (length l / 2))%nat) as [a|] eqn:E; [|done].
    destruct (load_at _ _ _ _ _ Hc E) as (n & Hn & _ & Hx). rewrite E in Hn. rewrite Hn. cbn [mbind outcome_bind]. rewrite Hx.
    destruct (l !! S _) eqn:E2; [|done]. apply lookup_lt_Some in E2. lia.
  - destruct (lookup_lt_is_Some_2 l (2 * i)%nat) as [a Ea]; [lia|]. destruct (lookup_lt_is_Some_2 l (S (2 * i))%nat) as [b Eb]; [lia|].
    destruct (lookup_lt_is_Some_2 l i) as [c Ec]; [lia|].
    destruct (load_at _ _ _ _ _ Hc Ea) as (n1 & Hn1 & _ & Hx1). destruct (load_at _ _ _ _ _ Hc Eb) as (n2 & Hn2 & _ & Hx2).
    destruct (load_at _ _ _ _ _ Hc Ec) as (n3 & Hn3 & _ & Hx3). rewrite Ea in *. rewrite Hn1. cbn [mbind outcome_bind]. rewrite Hx1, Hn2.
    rewrite Eb. cbn [mbind outcome_bind]. rewrite Hn3. cbn [mbind outcome_bind]. rewrite Hx2, Hx3.
    replace (S (S (2 * i))) with (2 * S i)%nat by lia. apply IH; lia.
Qed.

Lemma reverse_ok l : forall h prev cur r fuel, chain h prev r -> chain h cur l -> NoDup (l ++ r) -> (length l < fuel)%nat ->
  exists h' p', reverse_loop fuel h prev cur = Ok (h', p') /\ chain h' p' (rev l ++ r) /\ relinks l h h'.
Proof.
  induction l as [|a l IH]; intros h prev cur r fuel Hr Hc Hnd Hf; (destruct fuel as [|fuel]; [lia|]); cbn [chain] in Hc.
  - subst cur. by exists h, prev.
  - destruct Hc as (-> & n & Hn & Hc). apply NoDup_cons in Hnd as [Ha Hnd]. rewrite elem_of_app in Ha. cbn [reverse_loop].
    unfold load, set_next. rewrite Hn. cbn [mbind outcome_bind].
    destruct (IH (<[a := mkNode (val n) prev]> h) (Some a) (next n) (a :: r) fuel) as (h' & p' & H1 & H2 & H3).
    + split; [done|]. eexists. rewrite lookup_insert_eq. split; [done|]. apply chain_frame; [tauto|done].
    + apply chain_frame; [tauto|done].
    + apply NoDup_app in Hnd as (Hn1 & Hn2 & Hn3). apply NoDup_app. split_and!; [done|set_solver|]. constructor; [tauto|done].
    + cbn in Hf. lia.
    + exists h', p'. split; [done|]. cbn [rev]. rewrite <- app_assoc. split; [done|].
      apply (relinks_trans _ _ (<[a := mkNode (val n) prev]> h)); [by apply relinks_set; [set_solver|]|].
      eapply relinks_mono; [|done]. set_solver.
Qed.

Fixpoint interleave (l1 l2 : list nat) : list nat :=
  match l1, l2 with
  | a :: l1', b :: l2' => a :: b :: interleave l1' l2'
  | _, _ => l1
  end.

Lemma interleave_nil l1 : interleave l1 [] = l1.
Proof. by destruct l1. Qed.

Lemma interleave_elem l1 l2 a : a ∈ interleave l1 l2 -> a ∈ l1 ++ l2.
Proof.
  revert l2. induction l1 as [|x l1 IH]; intros [|y l2]; cbn; rewrite ?app_nil_r; try done; [set_solver|].
  rewrite !elem_of_cons, elem_of_app, elem_of_cons. intros [?|[?|Ha]]; [tauto|tauto|]. apply IH in Ha. rewrite elem_of_app in Ha. tauto.
Qed.

Lemma merge_ok l1 : forall h c1 c2 l2 fuel, chain h c1 l1 -> chain h c2 l2 -> NoDup (l1 ++ l2) -> (length l2 <= length l1 < fuel)%nat ->
  exists h', merge_loop fuel h c1 c2 = Ok h' /\ chain h' c1 (interleave l1 l2) /\ relinks (l1 ++ l2) h h'.
Proof.
  induction l1 as [|a l1 IH]; intros h c1 c2 l2 fuel H1 H2 Hnd Hf; (destruct fuel as [|fuel]; [lia|]).
  - cbn [chain] in H1. subst c1. by exists h.
  - destruct l2 as [|b l2]; [rewrite interleave_nil; cbn [chain] in H2; subst c2; exists h; cbn [merge_loop]; by destruct c1|].
    destruct H1 as (-> & n1 & Hn1 & H1). destruct H2 as (-> & n2 & Hn2 & H2). cbn [app] in Hnd. apply NoDup_cons in Hnd as [Ha Hnd].
    rewrite elem_of_app, elem_of_cons in Ha. apply NoDup_app in Hnd as (Hnd1 & Hdis & Hnd2). apply NoDup_cons in Hnd2 as [Hb Hnd2].
    assert (b ∉ l1) as Hb1 by (intros Hin; apply (Hdis b Hin); set_solver). assert (a <> b) as Hab by tauto.
    cbn [merge_loop]. unfold load, set_next. rewrite Hn1, Hn2. cbn [mbind outcome_bind].
    rewrite lookup_insert_ne, Hn2 by done. cbn [mbind outcome_bind].
    set (h1 := <[b := mkNode (val n2) (next n1)]> (<[a := mkNode (val n1) (Some b)]> h)).
    destruct (IH h1 (next n1) (next n2) l2 fuel) as (h' & Hm & Hch & [Hr1 Hr2]).
    + apply chain_frame, chain_frame; [done|tauto|done].
    + apply chain_frame, chain_frame; [done|tauto|done].
    + apply NoDup_app. split_and!; [done|set_solver|done].
    + cbn in Hf. lia.
    + exists h'. split; [done|]. assert ((a ∉ l1 ++ l2) /\ (b ∉ l1 ++ l2)) as [Ha' Hb'] by (rewrite !elem_of_app; tauto). split.
      * cbn [interleave chain]. split; [done|]. exists (mkNode (val n1) (Some b)). rewrite Hr1 by done. unfold h1.
        rewrite lookup_insert_ne, lookup_insert_eq by done. split; [done|]. split; [done|]. eexists. rewrite Hr1 by done. unfold h1. by rewrite lookup_insert_eq.
      * apply (relinks_trans _ _ h1); [|eapply relinks_mono; [|split; [exact Hr1|exact Hr2]]; set_solver].
        apply (relinks_trans _ _ (<[a := mkNode (val n1) (Some b)]> h)); [apply relinks_set; [set_solver|done]|].
        apply relinks_set; [set_solver|]. by rewrite lookup_insert_ne.
Qed.

(** On a list of nodes at distinct addresses, [reorderList] ends without
    touching anything but the links of the list, and leaves from the same
    head the first half (the middle node included) interleaved with the
    reversed second half, for every length. *)
Lemma reorderList_correct h l fuel : chain h (head l) l -> NoDup l -> (length l < fuel)%nat ->
  let k := S (length l / 2) in
  exists h', reorderList fuel (head l) h = Ok h' /\ chain h' (head l) (interleave (take k l) (rev (drop k l))) /\ relinks l h h'.
Proof.
  intros Hc Hnd Hf k. destruct l as [|a l']; [by exists h|]. set (l := a :: l') in *. change (head l) with (Some a). unfold reorderList.
  assert (chain h (Some a) l) as Hca by done. destruct (load_at _ _ _ 0%nat a Hca eq_refl) as (n0 & Hn0 & _ & Hx0). change (l !! 0%nat) with (Some a) in Hn0.
  rewrite Hn0. cbn [mbind outcome_bind]. rewrite Hx0. destruct (l !! 1%nat) as [b|] eqn:Eb.
  2:{ assert (l' = []) as -> by (by destruct l'). by exists h. }
  assert (1 < length l)%nat as Hlen by (by eapply lookup_lt_Some). pose proof (Nat.div_mod (length l) 2 ltac:(lia)) as Hdm.
  pose proof (Nat.mod_upper_bound (length l) 2 ltac:(lia)).
  pose proof (find_middle_ok h (Some a) l (length l / 2) Hca 0 fuel ltac:(lia) ltac:(lia) ltac:(lia)) as Hm.
  change (l !! (2 * 0)%nat) with (Some a) in Hm. change (l !! 0%nat) with (Some a) in Hm. rewrite Hm. cbn [mbind outcome_bind].
  destruct (lookup_lt_is_Some_2 l (length l / 2)%nat) as [m Em]; [lia|]. destruct (load_at _ _ _ _ _ Hca Em) as (nm & Hnm & Hhm & Hxm).
  rewrite Hnm. cbn [mbind outcome_bind]. unfold set_next. rewrite Em, Hhm. cbn [mbind outcome_bind].
  destruct (chain_cut h (Some a) l _ m nm Hca Hnd Em Hhm) as [Hc1 Hc2]. set (h1 := <[m := _]> h) in *. fold k in Hc1, Hc2.
  assert (relinks l h h1) as Hr1 by (apply relinks_set; [by eapply list_elem_of_lookup_2|done]).
  assert (NoDup (take k l ++ drop k l)) as Hnd' by (by rewrite take_drop). destruct (next nm) as [s|] eqn:Es.
  - destruct (reverse_ok (drop k l) h1 None (Some s) [] fuel) as (h2 & p2 & Hrev & Hc3 & Hr2); [done|done| |rewrite length_drop; lia|].
    { rewrite app_nil_r. by apply NoDup_app in Hnd' as (_ & _ & ?). }
    rewrite Hrev. cbn [mbind outcome_bind fst snd]. rewrite app_nil_r in Hc3.
    assert (chain h2 (Some a) (take k l)) as Hc1'.
    { eapply chain_agree; [|exact Hc1]. intros x Hx. apply Hr2. intros Hx'. apply NoDup_app in Hnd' as (_ & Hd & _). by apply (Hd x Hx). }
    destruct (merge_ok (take k l) h2 (Some a) p2 (rev (drop k l)) fuel) as (h3 & Hmrg & Hc4 & Hr3); [done|done| | |].
    + rewrite (Permutation_app_head (take k l) (symmetry (Permutation_rev (drop k l)))). done.
    + rewrite length_rev, length_take, length_drop. unfold k. lia.
    + exists h3. split; [done|]. split; [done|]. apply (relinks_trans _ _ h1); [done|]. apply (relinks_trans _ _ h2).
      * eapply relinks_mono; [|exact Hr2]. intros x Hx. by apply (subseteq_drop k).
      * eapply relinks_mono; [|exact Hr3]. intros x Hx. apply elem_of_app in Hx as [Hx|Hx]; [by apply (subseteq_take k)|].
        rewrite <- Permutation_rev in Hx. by apply (subseteq_drop k).
  - exists h1. split; [done|]. split; [|done]. assert (drop k l = []) as ->.
    { destruct (drop k l); [done|]. by destruct Hc2 as [? _]. }
    rewrite interleave_nil. exact Hc1.
Qed.

(** 1, 2, 3, 4, 5 at the addresses 10 to 14. *)
Definition five : gmap nat ListNode :=
  list_to_map [(10, mkNode 1 (Some 11)); (11, mkNode 2 (Some 12)); (12, mkNode 3 (Some 13)); (13, mkNode 4 (Some 14)); (14, mkNode 5 None)]%nat.

Lemma reorderList_correct_witness : exists h', reorderList 9 (Some 10%nat) five = Ok h' /\ chain h' (Some 10%nat) [10; 14; 11; 13; 12]%nat.
Proof.
  destruct (reorderList_correct five [10; 11; 12; 13; 14]%nat 9) as (h' & H1 & H2 & _).
  - repeat (split; [reflexivity|eexists; split; [vm_compute; reflexivity|]]). reflexivity.
  - refine (bool_decide_unpack _ _). vm_compute. exact I.
  - cbn. lia.
  - exists h'. split; [exact H1|exact H2].
Defined.

(** *** The loops of removeNthFromEnd *)

Lemma walk_ok h p l n k : chain h p l -> forall j fuel, (j + k = length l)%nat -> (k < fuel)%nat ->
  walk_to fuel h (l !! j) (Z.of_nat j + 1) n = Ok (if (Z.of_nat j <? n) && (n <=? Z.of_nat (length l)) then l !! Z.to_nat (n - 1) else None).
Proof.
  intros Hc. induction k as [|k IH]; intros j fuel Hj Hf; (destruct fuel as [|fuel]; [lia|]); cbn [walk_to].
  - rewrite lookup_ge_None_2 by lia. destruct (Z.ltb_spec (Z.of_nat j) n), (Z.leb_spec n (Z.of_nat (length l))); try done. lia.
  - destruct (lookup_lt_is_Some_2 l j) as [a Ea]; [lia|]. destruct (load_at _ _ _ _ _ Hc Ea) as (m & Hm & _ & Hx). rewrite Ea in *.
    destruct (Z.eqb_spec (Z.of_nat j + 1) n) as [<-|Hn].
    + rewrite (proj2 (Z.ltb_lt _ _)), (proj2 (Z.leb_le _ _)) by lia. cbn [andb]. replace (Z.to_nat (Z.of_nat j + 1 - 1)) with j by lia. by rewrite Ea.
    + rewrite Hm. cbn [mbind outcome_bind]. rewrite Hx. replace (Z.of_nat j + 1 + 1) with (Z.of_nat (S j) + 1) by lia. rewrite IH by lia.
      destruct (Z.ltb_spec (Z.of_nat (S j)) n), (Z.ltb_spec (Z.of_nat j) n); try done; lia.
Qed.

Lemma advance_ok h p l k : chain h p l -> forall c t prev fuel, (c + k + 1 = length l)%nat -> (t <= c)%nat -> (k < fuel)%nat ->
  advance fuel h (l !! c) (l !! t) prev = Ok (l !! (t + k)%nat, if (k =? 0)%nat then prev else l !! (t + k - 1)%nat).
Proof.
  intros Hc. induction k as [|k IH]; intros c t prev fuel Hck Ht Hf; (destruct fuel as [|fuel]; [lia|]); cbn [advance];
    (destruct (lookup_lt_is_Some_2 l c) as [a Ea]; [lia|]); destruct (load_at _ _ _ _ _ Hc Ea) as (m & -> & _ & Hx); cbn [mbind outcome_bind]; rewrite Hx.
  - rewrite lookup_ge_None_2 by lia. by rewrite Nat.add_0_r.
  - destruct (lookup_lt_is_Some_2 l (S c)) as [b Eb]; [lia|]. destruct (lookup_lt_is_Some_2 l t) as [d Ed]; [lia|]. rewrite Eb, <- Eb.
    destruct (load_at _ _ _ _ _ Hc Ed) as (m2 & -> & _ & Hx2). cbn [mbind outcome_bind]. rewrite Hx2, IH by lia.
    replace (S t + k)%nat with (t + S k)%nat by lia. destruct k; cbn [Nat.eqb]; [by replace (t + 1 - 1)%nat with t by lia|done].
Qed.

(** Taking the node behind [a] out. *)
Lemma chain_unlink h l1 : forall p a b l2 n m, chain h p (l1 ++ a :: b :: l2) -> NoDup (l1 ++ a :: b :: l2) -> h !! a = Some n -> h !! b = Some m ->
  chain (delete b (<[a := mkNode (val n) (next m)]> h)) p (l1 ++ a :: l2).
Proof.
  induction l1 as [|x l1 IH]; intros p a b l2 n m Hc Hnd Hn Hm; cbn [app] in *.
  - destruct Hc as (-> & n' & Hn' & Hx & m' & Hm' & Hc). rewrite Hm in Hm'. injection Hm' as <-. apply NoDup_cons in Hnd as [Ha Hnd]. apply NoDup_cons in Hnd as [Hb Hnd].
    split; [done|]. exists (mkNode (val n) (next m)). rewrite lookup_delete_ne, lookup_insert_eq by set_solver. split; [done|]. cbn [next].
    eapply chain_agree; [|exact Hc]. intros y Hy. rewrite lookup_delete_ne, lookup_insert_ne by set_solver. done.
  - destruct Hc as (-> & n' & Hn' & Hc). apply NoDup_cons in Hnd as [Hx Hnd]. split; [done|]. exists n'.
    rewrite lookup_delete_ne, lookup_insert_ne by set_solver. split; [done|]. by eapply IH.
Qed.

(** On a list of nodes at distinct addresses, [removeNthFromEnd] takes
    the [n]-th node from the end out of the list and frees it, when there is
    one; otherwise it changes nothing. The nodes of other lists keep. *)
Lemma removeNth_correct h l n fuel : chain h (head l) l -> NoDup l -> (length l < fuel)%nat ->
  exists p h', removeNthFromEnd fuel (head l) n h = Ok (p, h')
  /\ (if (0 <? n) && (n <=? zlen l) then
        exists a, l !! Z.to_nat (zlen l - n) = Some a /\ chain h' p (delete (Z.to_nat (zlen l - n)) l) /\ h' !! a = None
      else p = head l /\ h' = h)
  /\ forall b, b ∉ l -> h' !! b = h !! b.
Proof.
  intros Hc Hnd Hf. unfold removeNthFromEnd, zlen. destruct l as [|x l'].
  { exists None, h. split; [done|]. split; [|done]. cbn [length]. change (Z.of_nat 0) with 0.
    destruct (Z.ltb_spec 0 n), (Z.leb_spec n 0); cbn [andb]; done || lia. }
  set (l := x :: l') in *. change (head l) with (l !! 0%nat) in *. assert (bool_decide (l !! 0%nat = None) = false) as -> by (by apply bool_decide_eq_false).
  cbn [orb]. destruct (n <? 0) eqn:En.
  { apply Z.ltb_lt in En. exists (l !! 0%nat), h. split; [done|]. rewrite (proj2 (Z.ltb_ge 0 n)) by lia. done. }
  apply Z.ltb_ge in En. pose proof (walk_ok h (l !! 0%nat) l n (length l) Hc 0 fuel ltac:(lia) ltac:(lia)) as Hw. change (Z.of_nat 0 + 1) with 1 in Hw.
  rewrite Hw. cbn [mbind outcome_bind]. change (Z.of_nat 0) with 0. destruct ((0 <? n) && (n <=? Z.of_nat (length l))) eqn:Eb; [|by exists (l !! 0%nat), h].
  apply andb_true_iff in Eb as [E1 E2]. apply Z.ltb_lt in E1. apply Z.leb_le in E2.
  destruct (lookup_lt_is_Some_2 l (Z.to_nat (n - 1))) as [c Ec]; [lia|]. rewrite Ec, <- Ec.
  set (k := Z.to_nat (Z.of_nat (length l) - n)).
  rewrite (advance_ok h (l !! 0%nat) l k Hc (Z.to_nat (n - 1)) 0 None fuel) by lia. cbn [mbind outcome_bind Nat.add].
  destruct (lookup_lt_is_Some_2 l k) as [b Ekb]; [lia|]. destruct (load_at _ _ _ _ _ Hc Ekb) as (m & -> & Hhm & Hxm). cbn [mbind outcome_bind].
  rewrite Ekb, Hxm. case_bool_decide as Eh.
  - assert (k = 0%nat) as Hk0. { destruct k as [|k']; [done|]. exfalso. assert (0 = S k')%nat by (eapply NoDup_lookup; [exact Hnd|symmetry; exact Eh|exact Ekb]). lia. }
    unfold free. rewrite Hhm. cbn [mbind outcome_bind]. eexists _, _. split; [done|]. rewrite Hk0 in *. cbn in Ekb. injection Ekb as ->. split.
    + exists b. split; [done|]. split; [|apply lookup_delete_eq]. cbn [delete list_delete]. destruct Hc as (_ & m' & Hm' & Hc). unfold l. cbn.
      apply NoDup_cons in Hnd as [Hb Hnd]. rewrite Hhm in Hm'. injection Hm' as <-. change (chain (delete b h) (l !! 1%nat) l'). rewrite <- Hxm.
      eapply chain_agree; [|exact Hc]. intros y Hy. rewrite lookup_delete_ne; [done|]. by intros ->.
    + intros y Hy. rewrite lookup_delete_ne; [done|]. intros ->. apply Hy. set_solver.
  - assert (k <> 0%nat) as Hk0 by (intros Hk0; rewrite Hk0 in Ekb; congruence). clearbody k. destruct k as [|k]; [done|]. cbn [Nat.eqb]. replace (S k - 1)%nat with k by lia.
    destruct (lookup_lt_is_Some_2 l k) as [a Eka]; [apply lookup_lt_Some in Ekb; lia|]. destruct (load_at _ _ _ _ _ Hc Eka) as (na & _ & Hha & Hxa). rewrite Eka. cbn [set_next]. rewrite Hha.
    assert (a <> b) as Hab by (intros ->; pose proof (NoDup_lookup l _ _ b Hnd Eka Ekb); lia). cbn [mbind outcome_bind free]. rewrite lookup_insert_ne, Hhm by done.
    cbn [mbind outcome_bind]. eexists _, _. split; [done|]. split.
    + exists b. split; [done|]. split; [|apply lookup_delete_eq]. rewrite delete_take_drop.
      assert (l = take k l ++ a :: b :: drop (S (S k)) l) as Hsplit by (rewrite <- (take_drop k l) at 1; by rewrite (drop_S _ _ _ Eka), (drop_S _ _ _ Ekb)).
      rewrite (take_S_r _ _ _ Eka), <- app_assoc. cbn [app]. rewrite <- Hxm. apply (chain_unlink h (take k l)); [by rewrite <- Hsplit|by rewrite <- Hsplit|done|done].
    + intros y Hy. rewrite lookup_delete_ne, lookup_insert_ne; [done|..]; intros ->; apply Hy; by eapply list_elem_of_lookup_2.
Qed.

Lemma removeNth_correct_witness : exists p h', removeNthFromEnd 9 (Some 10%nat) 2 five = Ok (p, h') /\ chain h' p [10; 11; 12; 14]%nat.
Proof.
  destruct (removeNth_correct five [10; 11; 12; 13; 14]%nat 2 9) as (p & h' & H1 & (a & _ & H2 & _) & _).
  - repeat (split; [reflexivity|eexists; split; [vm_compute; reflexivity|]]). reflexivity.
  - refine (bool_decide_unpack _ _). vm_compute. exact I.
  - cbn. lia.
  - exists p, h'. split; [exact H1|exact H2].
Defined.
End Linked.

(** ** Arrays, trees, brackets *)

Module Small.

(** *** 2sum.cpp. Sums are taken without overflow. *)

Definition index_map (nums : list Z) : gmap Z nat :=
  foldl (fun m p => <[p.2 := p.1]> m) ∅ (zip (seq 0 (length nums)) nums).

Fixpoint two_loop (hmap : gmap Z nat) (target : Z) (i : nat) (nums : list Z) : list nat :=
  match nums with
  | [] => []
  | x :: nums' =>
      match hmap !! (target - x) with
      | Some j => if (j =? i)%nat then two_loop hmap target (S i) nums' else [i; j]
      | None => two_loop hmap target (S i) nums'
      end
  end.

Definition twoSum (nums : list Z) (target : Z) : list nat := two_loop (index_map nums) target 0 nums.

(** The map has the last index of each value. *)
Lemma index_map_snoc nums x : index_map (nums ++ [x]) = <[x := length nums]> (index_map nums).
Proof.
  unfold index_map. rewrite length_app. cbn [length]. rewrite seq_app, zip_with_app by (by rewrite length_seq). by rewrite foldl_app.
Qed.

Lemma index_map_lookup nums x : match index_map nums !! x with
  | Some j => nums !! j = Some x /\ (forall k, nums !! k = Some x -> (k <= j)%nat)
  | None => forall k, nums !! k <> Some x
  end.
Proof.
  induction nums as [|y nums IH] using rev_ind; [change (index_map []) with (∅ : gmap Z nat); rewrite lookup_empty; intros k; by rewrite lookup_nil|]. rewrite index_map_snoc. destruct (decide (y = x)) as [->|Hn].
  - rewrite lookup_insert_eq. split; [by apply list_lookup_middle|]. intros k Hk. apply lookup_lt_Some in Hk. rewrite length_app in Hk. cbn in Hk. lia.
  - rewrite lookup_insert_ne by done.
    assert (forall k, (nums ++ [y]) !! k = Some x -> nums !! k = Some x) as Hback.
    { intros k Hk. apply lookup_snoc_Some in Hk as [[_ Hk]|[_ Hk]]; [done|congruence]. }
    destruct (index_map nums !! x) as [j|]; [destruct IH as [H1 H2]|].
    + split; [by apply lookup_app_l_Some|]. intros k Hk. by apply H2, Hback.
    + intros k Hk. by apply (IH k), Hback.
Qed.

Lemma two_loop_ok all target : forall nums i, nums = drop i all ->
  (exists a b, two_loop (index_map all) target i nums = [a; b] /\ a <> b /\ exists x y, all !! a = Some x /\ all !! b = Some y /\ x + y = target)
  \/ (two_loop (index_map all) target i nums = [] /\ forall a b x y, (i <= a)%nat -> (a < b)%nat -> all !! a = Some x -> all !! b = Some y -> x + y <> target).
Proof.
  induction nums as [|x nums IH]; intros i Hd; cbn [two_loop].
  - right. split; [done|]. intros a b z y Ha _ Hz. apply lookup_lt_Some in Hz. apply (f_equal length) in Hd. rewrite length_drop in Hd. cbn in Hd. lia.
  - assert (all !! i = Some x) as Hi by (rewrite <- (Nat.add_0_r i), <- lookup_drop, <- Hd; done).
    assert (nums = drop (S i) all) as Hd' by (rewrite (drop_S _ _ _ Hi) in Hd; congruence). pose proof (index_map_lookup all (target - x)) as Hm.
    destruct (index_map all !! (target - x)) as [j|].
    + destruct Hm as [Hj Hlast]. destruct (Nat.eqb_spec j i) as [->|Hne].
      * destruct (IH (S i) Hd') as [H|[H1 H2]]; [by left|]. right. split; [done|]. intros a b z y Ha Hab Hz Hy Hs.
        destruct (decide (a = i)) as [->|]; [|by apply (H2 a b z y); [lia|..]]. rewrite Hi in Hz. injection Hz as <-.
        assert (b <= i)%nat by (apply Hlast; rewrite Hy; f_equal; lia). lia.
      * left. exists i, j. split; [done|]. split; [done|]. exists x, (target - x). split_and!; [done|done|lia].
    + destruct (IH (S i) Hd') as [H|[H1 H2]]; [by left|]. right. split; [done|]. intros a b z y Ha Hab Hz Hy Hs.
      destruct (decide (a = i)) as [->|]; [|by apply (H2 a b z y); [lia|..]]. rewrite Hi in Hz. injection Hz as <-.
      apply (Hm b). rewrite Hy. f_equal. lia.
Qed.

(** [twoSum] returns two different positions whose elements add up to
    the target, and nothing exactly when there are none. *)
Lemma twoSum_correct nums target :
  (exists a b x y, twoSum nums target = [a; b] /\ a <> b /\ nums !! a = Some x /\ nums !! b = Some y /\ x + y = target)
  \/ (twoSum nums target = [] /\ forall a b x y, a <> b -> nums !! a = Some x -> nums !! b = Some y -> x + y <> target).
Proof.
  unfold twoSum. destruct (two_loop_ok nums target nums 0) as [(a & b & H1 & H2 & x & y & H3)|[H1 H2]]; [by rewrite drop_0| |].
  - left. by exists a, b, x, y.
  - right. split; [done|]. intros a b x y Hab Hx Hy Hs. destruct (decide (a < b)%nat); [by apply (H2 a b x y); [lia|..]|].
    apply (H2 b a y x); [lia|lia|done|done|lia].
Qed.

(** *** deletenode.cpp *)

Inductive TreeNode : Type := Empty | TNode (val : Z) (left right : TreeNode).

Fixpoint invertTree (root : TreeNode) : TreeNode :=
  match root with
  | Empty => Empty
  | TNode v l r => TNode v (invertTree r) (invertTree l)
  end.

Fixpoint inorder (t : TreeNode) : list Z :=
  match t with Empty => [] | TNode v l r => inorder l ++ v :: inorder r end.

Lemma invertTree_mirror t : invertTree (invertTree t) = t /\ inorder (invertTree t) = rev (inorder t).
Proof.
  induction t as [|v l [IHl1 IHl2] r [IHr1 IHr2]]; [done|]. cbn. rewrite IHl1, IHr1, IHl2, IHr2. split; [done|].
  rewrite rev_app_distr. cbn. by rewrite <- app_assoc.
Qed.

(** *** validparent.cpp *)

Definition opens (c : byte) : bool := byte_in [Byte.x5b; Byte.x7b; Byte.x28] c.
Definition expect (c : byte) : option byte :=
  if byte_eqb c Byte.x5d then Some Byte.x5b
  else if byte_eqb c Byte.x7d then Some Byte.x7b
  else if byte_eqb c Byte.x29 then Some Byte.x28
  else None.

(** One turn of the loop at position [i]; the position is left where it is
    when a bracket is closed. [None]: the loop goes on. *)
Fixpoint parens_loop (fuel : nat) (str : list byte) (i : nat) (s : list byte) : option bool :=
  match fuel with
  | O => None
  | S fuel' =>
      match str !! i with
      | None => Some (match s with [] => true | _ => false end)
      | Some c =>
          if opens c then parens_loop fuel' str (S i) (c :: s)
          else match expect c with
               | None => Some false
               | Some e =>
                   match s with
                   | [] => Some false
                   | top :: s' => if byte_eqb top e then parens_loop fuel' str i s' else Some false
                   end
               end
      end
  end.

Definition valid_parens (str : list byte) : option bool := parens_loop (S (S (length str) + length str)) str 0 [].

(** At a closing bracket the stack only shrinks until the answer is false. *)
Lemma close_false str i c s : forall fuel, str !! i = Some c -> opens c = false -> (length s < fuel)%nat -> parens_loop fuel str i s = Some false.
Proof.
  induction s as [|top s IH]; intros fuel Hc Ho Hf; (destruct fuel as [|fuel]; [cbn in Hf; lia|]); cbn [parens_loop]; rewrite Hc, Ho; destruct (expect c); try done.
  destruct (byte_eqb top b); [|done]. apply IH; [done|done|cbn in Hf; lia].
Qed.

Lemma parens_false str k : forall i s fuel, (i + k = length str)%nat -> (length s + 2 * k < fuel)%nat -> s <> [] \/ (0 < k)%nat -> parens_loop fuel str i s = Some false.
Proof.
  induction k as [|k IH]; intros i s fuel Hi Hf Hs; (destruct fuel as [|fuel]; [lia|]).
  - cbn [parens_loop]. rewrite lookup_ge_None_2 by lia. destruct s; [|done]. destruct Hs; [done|lia].
  - destruct (lookup_lt_is_Some_2 str i) as [c Hc]; [lia|]. destruct (opens c) eqn:Ho; [|by apply (close_false _ _ c); [| |lia]].
    cbn [parens_loop]. rewrite Hc, Ho. apply IH; [lia|cbn; lia|by left].
Qed.

(** The loop ends, and accepts the empty string alone. *)
Lemma valid_only_empty str : valid_parens str = Some (match str with [] => true | _ => false end).
Proof. destruct str as [|c str]; [done|]. unfold valid_parens. apply (parens_false _ (length (c :: str))); [done|cbn; lia|right; cbn; lia]. Qed.

(** *** onecount.cpp, generate.cpp *)

(** [None]: still in the loop. *)
Fixpoint weight_loop (fuel : nat) (n count : Z) : option Z :=
  match fuel with
  | O => None
  | S fuel' => if Z.land n (u32 (n - 1)) =? 0 then Some (count + 1) else weight_loop fuel' n (count + 1)
  end.
Definition hammingWeight (fuel : nat) (n : Z) : option Z := if n =? 0 then Some 0 else weight_loop fuel n 0.

(** The loop never changes [n]: it does not end for a number with two bits. *)
Lemma hammingWeight_loops fuel n : n <> 0 -> Z.land n (u32 (n - 1)) <> 0 -> hammingWeight fuel n = None.
Proof.
  intros Hn Hl. unfold hammingWeight. rewrite (proj2 (Z.eqb_neq _ _) Hn). generalize 0. induction fuel as [|fuel IH]; intros c; cbn [weight_loop]; [done|].
  by rewrite (proj2 (Z.eqb_neq _ _) Hl).
Qed.

(** [None]: the recursion is deeper than [fuel]. *)
Fixpoint generate (fuel : nat) (leftNum rightNum : Z) (s : list byte) (result : list (list byte)) : option (list (list byte)) :=
  match fuel with
  | O => None
  | S fuel' =>
      if (leftNum =? 0) && (rightNum =? 0) then Some (result ++ [s])
      else
        match (if 0 <? leftNum then generate fuel' (leftNum - 1) rightNum (s ++ [Byte.x28]) result else Some result) with
        | None => None
        | Some result =>
            if leftNum <? rightNum then generate fuel' leftNum rightNum (s ++ [Byte.x29]) result else Some result
        end
  end.

(** A closing bracket does not use up one of [rightNum]: with any to place the
    recursion has no end. *)
Lemma generate_loops fuel leftNum rightNum s result : 0 <= leftNum <= rightNum -> 0 < rightNum -> generate fuel leftNum rightNum s result = None.
Proof.
  revert leftNum s result. induction fuel as [|fuel IH]; intros leftNum s result Hl Hr; cbn [generate]; [done|].
  rewrite (proj2 (Z.eqb_neq rightNum 0)), andb_false_r by lia. destruct (Z.ltb_spec 0 leftNum); [by rewrite IH by lia|].
  rewrite (proj2 (Z.ltb_lt _ _)) by lia. apply IH; lia.
Qed.

(** *** mergeinterval.cpp, after the sort *)

Fixpoint merge_intervals (fuel : nat) (intervals : list (Z * Z)) : list (Z * Z) :=
  match fuel with
  | O => intervals
  | S fuel' =>
      match intervals with
      | curr :: nxt :: rest =>
          if nxt.1 <=? curr.2 then merge_intervals fuel' ((curr.1, nxt.2) :: rest)
          else curr :: merge_intervals fuel' (nxt :: rest)
      | _ => intervals
      end
  end.

(** An interval inside the previous one shortens it. *)
Lemma nested_interval_lost : merge_intervals 3 [(1, 10); (2, 3)] = [(1, 3)].
Proof. reflexivity. Qed.
End Small.
