(* ===== verification/EventLoopThread.v ===== *)
(** * One thread with one loop: src/mynetlib/net/EventLoopThread.cc

    The owner starts the thread, waits for the loop and at last destroys the
    object; the thread makes the loop, hands its address over under a mutex,
    runs it and clears the address. Every access to [loop_] outside the mutex
    is a step of its own. The states are finitely many (Explore.v). *)

From S2P Require Import Prelude.
Import Explore.

(** ** The owner and the thread *)

(** The owner: in [startLoop] (taking the mutex, waiting in [cond_.wait],
    past the loop with the mutex released), with the loop it was given
    ([got]: not null), in the destructor. *)
Inductive owner_pc : Set :=
| OBefore
| OLock
| OWaiting
| OReturn
| OHas (got : bool)
| DCheck
| DQuit
| DJoin
| ODone
| OFault.

(** The thread: in [threadFunc] before the mutex, holding it to publish the
    loop, in [loop.loop()], past it, with [loop_] cleared, ended. *)
Inductive thread_pc : Set :=
| TNone
| TInit
| TPublish
| TLoop
| TLeft
| TCleared
| TEnded.

(** [loop_]: not null. [quit_]: of the loop. *)
Record LoopThread : Set := mkLoopThread { owner : owner_pc; thread : thread_pc; loop_ : bool; quit_ : bool; exiting_ : bool }.

#[export] Instance owner_pc_eq : EqDecision owner_pc.
Proof. solve_decision. Defined.
#[export] Instance thread_pc_eq : EqDecision thread_pc.
Proof. solve_decision. Defined.
#[export] Instance LoopThread_eq : EqDecision LoopThread.
Proof. solve_decision. Defined.

Definition EventLoopThread_ctor : LoopThread := mkLoopThread OBefore TNone false false false.

(** The loop is a local of [threadFunc]: it exists from its first line to its
    end. *)
Definition loop_exists (t : thread_pc) : bool := match t with TInit | TPublish | TLoop | TLeft | TCleared => true | _ => false end.

Definition set_owner o s := mkLoopThread o (thread s) (loop_ s) (quit_ s) (exiting_ s).

(** [startLoop]: [thread_.start()] makes the thread; the test of [loop_] and
    the wait are under the mutex; the value returned is read without it. *)
Definition startLoop (s : LoopThread) : list LoopThread :=
  match owner s with
  | OBefore => [mkLoopThread OLock TInit (loop_ s) (quit_ s) (exiting_ s)]
  | OLock => match thread s with
             | TPublish => []
             | _ => [set_owner (if loop_ s then OReturn else OWaiting) s]
             end
  | OWaiting => [set_owner OLock s]
  | OReturn => [set_owner (OHas (loop_ s)) s]
  | _ => []
  end.

(** The destructor. *)
Definition dtor (s : LoopThread) : list LoopThread :=
  match owner s with
  | OHas _ => [mkLoopThread DCheck (thread s) (loop_ s) (quit_ s) true]
  | DCheck => [set_owner (if loop_ s then DQuit else ODone) s]
  | DQuit => [if loop_exists (thread s) && loop_ s then mkLoopThread DJoin (thread s) (loop_ s) true (exiting_ s) else set_owner OFault s]
  | DJoin => match thread s with TEnded => [set_owner ODone s] | _ => [] end
  | _ => []
  end.

(** [threadFunc]. [TPublish] holds the mutex: it stores the address, notifies
    (the waiting owner competes for the mutex) and unlocks in one step. *)
Definition threadFunc (s : LoopThread) : list LoopThread :=
  match thread s with
  | TNone => []
  | TInit => [mkLoopThread (owner s) TPublish (loop_ s) (quit_ s) (exiting_ s)]
  | TPublish => [mkLoopThread (match owner s with OWaiting => OLock | o => o end) TLoop true (quit_ s) (exiting_ s)]
  | TLoop => if quit_ s then [mkLoopThread (owner s) TLeft (loop_ s) (quit_ s) (exiting_ s)] else []
  | TLeft => [mkLoopThread (owner s) TCleared false (quit_ s) (exiting_ s)]
  | TCleared => [mkLoopThread (owner s) TEnded (loop_ s) (quit_ s) (exiting_ s)]
  | TEnded => []
  end.

(** A callback of the loop calls [quit]. *)
Definition quit_in_loop (s : LoopThread) : list LoopThread :=
  match thread s with TLoop => [mkLoopThread (owner s) (thread s) (loop_ s) true (exiting_ s)] | _ => [] end.

(** With the loop left running until the destructor, and with callbacks that
    may end it before. *)
Definition next_kept (s : LoopThread) : list LoopThread := startLoop s ++ dtor s ++ threadFunc s.
Definition next_any (s : LoopThread) : list LoopThread := next_kept s ++ quit_in_loop s.

(** ** What holds *)

Definition finished (s : LoopThread) : bool := match owner s, thread s with ODone, (TEnded | TNone) => true | _, _ => false end.

(** The owner was not given a null pointer, and nothing dangling was used. *)
Definition well (s : LoopThread) : bool :=
  match owner s with
  | OHas got => got && loop_ s && loop_exists (thread s)
  | OFault => false
  | ODone => match thread s with TEnded => true | _ => false end
  | _ => true
  end.

(** The owner is not asleep once the loop is published. *)
Definition awake (s : LoopThread) : bool :=
  match owner s, thread s with OWaiting, (TInit | TPublish) => true | OWaiting, _ => loop_ s | _, _ => true end.

(** When only the destructor ends the loop, in every interleaving of the
    owner and the thread: [startLoop] returns a loop that exists; the
    destructor calls [quit] on it while it exists, and returns after the
    thread has ended; no wake-up is lost; and from every state the whole can
    run to its end. *)
Lemma loop_thread_safe s : reachable next_kept EventLoopThread_ctor s ->
  well s = true /\ awake s = true /\ exists s', reachable next_kept s s' /\ finished s' = true.
Proof.
  intros Hs. assert (well s && awake s && can_reach next_kept 14 finished s = true) as H.
  { revert s Hs. apply (explore_all next_kept EventLoopThread_ctor 20 (fun s => well s && awake s && can_reach next_kept 14 finished s)). vm_compute. reflexivity. }
  rewrite !andb_true_iff in H. destruct H as [[H1 H2] H3]. split; [done|]. split; [done|]. by eapply can_reach_sound.
Qed.

(** The owner waits, is woken, and has the loop. *)
Lemma loop_thread_safe_witness : well (mkLoopThread (OHas true) TLoop true false false) = true.
Proof.
  apply (loop_thread_safe (mkLoopThread (OHas true) TLoop true false false)).
  apply (reach_step _ _ (mkLoopThread OReturn TLoop true false false)); [|refine (bool_decide_unpack _ _); vm_compute; exact I].
  apply (reach_step _ _ (mkLoopThread OLock TLoop true false false)); [|refine (bool_decide_unpack _ _); vm_compute; exact I].
  apply (reach_step _ _ (mkLoopThread OWaiting TPublish false false false)); [|refine (bool_decide_unpack _ _); vm_compute; exact I].
  apply (reach_step _ _ (mkLoopThread OWaiting TInit false false false)); [|refine (bool_decide_unpack _ _); vm_compute; exact I].
  apply (reach_step _ _ (mkLoopThread OLock TInit false false false)); [|refine (bool_decide_unpack _ _); vm_compute; exact I].
  apply (reach_step _ _ EventLoopThread_ctor); [apply reach_refl|refine (bool_decide_unpack _ _); vm_compute; exact I].
Defined.

(** A loop that a callback ends: the destructor can find the pointer set and
    then use a loop that is gone, and [startLoop] can return null. *)
Lemma quit_race : (exists s, reachable next_any EventLoopThread_ctor s /\ owner s = OFault)
  /\ exists s, reachable next_any EventLoopThread_ctor s /\ owner s = OHas false.
Proof.
  split.
  - destruct (can_reach_sound next_any 12 (fun s => bool_decide (owner s = OFault)) EventLoopThread_ctor) as (s & Hs & H); [vm_compute; reflexivity|].
    exists s. split; [done|]. by apply bool_decide_eq_true in H.
  - destruct (can_reach_sound next_any 12 (fun s => bool_decide (owner s = OHas false)) EventLoopThread_ctor) as (s & Hs & H); [vm_compute; reflexivity|].
    exists s. split; [done|]. by apply bool_decide_eq_true in H.
Qed.
