(* ===== verification/ThreadRunner.v ===== *)
(** * Threads and loop threads: src/thread/Thread.cpp, EventLoopThread.cpp

    A [Thread] object keeps its state and the handle of its pthread in two
    fields that the owner and the thread itself read and write without a lock;
    every access is a step. [EventLoopThread] runs an [EventLoop] in one. The
    owner calls [Start] and then [Stop] or [join]. [pthread_create] stores the
    handle before the thread runs, and may fail. *)

From S2P Require Import Prelude.
Import Explore.

Inductive ThreadState : Set := S_NULL | S_STARTING | S_RUNNING | S_STOPPING.

(** The owner: in [start] (about to create the thread, about to reset the
    state), past it, in [EventLoopThread::Stop] or in [join] ([stop] has read
    the state, the loop waits for S_NULL, the assertion at the end). *)
Inductive owner_pc : Set :=
| OConstructed
| OClearHandle
| OCreate
| OReset
| OStartFalse
| OStarted
| OStopLoop
| OStopRead
| OStopWrite
| OStopPoll
| OStopped
| OJoinTest
| OJoinStopRead
| OJoinStopWrite
| OJoinPoll
| OJoinAssert
| OJoined
| OAssertFail.

(** The thread: before the test of [doWork], before S_RUNNING is stored, in
    [run], before S_NULL is stored, before the handle is cleared, ended. *)
Inductive worker_pc : Set := WNone | WTest | WSetRunning | WRun | WSetNull | WClearHandle | WEnded.

(** [m_hThread]: not 0. [quit]: the loop was told to stop. [ran]: [run] was
    entered. *)
Record Thread : Set := mkThread { m_nState : ThreadState; m_hThread : bool; owner : owner_pc; worker : worker_pc; quit : bool; ran : bool }.

#[export] Instance ThreadState_eq : EqDecision ThreadState.
Proof. solve_decision. Defined.
#[export] Instance owner_pc_eq : EqDecision owner_pc.
Proof. solve_decision. Defined.
#[export] Instance worker_pc_eq : EqDecision worker_pc.
Proof. solve_decision. Defined.
#[export] Instance Thread_eq : EqDecision Thread.
Proof. solve_decision. Defined.

Definition Thread_ctor : Thread := mkThread S_NULL false OConstructed WNone false false.

Definition at_owner o t := mkThread (m_nState t) (m_hThread t) o (worker t) (quit t) (ran t).
Definition store_state st o t := mkThread st (m_hThread t) o (worker t) (quit t) (ran t).

(** [Thread::start]. *)
Definition start (t : Thread) : list Thread :=
  match owner t with
  | OConstructed => [if bool_decide (m_nState t = S_NULL) then store_state S_STARTING OClearHandle t else at_owner OStartFalse t]
  | OClearHandle => [mkThread (m_nState t) false OCreate (worker t) (quit t) (ran t)]
  | OCreate => [mkThread (m_nState t) true OStarted WTest (quit t) (ran t); at_owner OReset t]
  | OReset => [store_state S_NULL OStartFalse t]
  | _ => []
  end.

(** [Thread::stop] reads the state and then stores S_STOPPING. *)
Definition stop_read (write_pc after : owner_pc) (t : Thread) : Thread :=
  at_owner (if bool_decide (m_nState t = S_NULL) then after else write_pc) t.

(** [EventLoopThread::Stop(true)]: the loop, the thread, then [IsStopped]
    until it holds. *)
Definition Stop (t : Thread) : list Thread :=
  match owner t with
  | OStarted => [at_owner OStopLoop t]
  | OStopLoop => [mkThread (m_nState t) (m_hThread t) OStopRead (worker t) true (ran t)]
  | OStopRead => [stop_read OStopWrite OStopPoll t]
  | OStopWrite => [store_state S_STOPPING OStopPoll t]
  | OStopPoll => [at_owner (if bool_decide (m_nState t = S_NULL) then OStopped else OStopPoll) t]
  | _ => []
  end.

(** [Thread::join] with no time limit; the loop is told to stop by other
    means. *)
Definition join (t : Thread) : list Thread :=
  match owner t with
  | OStarted => [mkThread (m_nState t) (m_hThread t) OJoinTest (worker t) true (ran t)]
  | OJoinTest => [at_owner (if m_hThread t then OJoinStopRead else OJoined) t]
  | OJoinStopRead => [stop_read OJoinStopWrite OJoinPoll t]
  | OJoinStopWrite => [store_state S_STOPPING OJoinPoll t]
  | OJoinPoll => [at_owner (if bool_decide (m_nState t = S_NULL) then OJoinAssert else OJoinPoll) t]
  | OJoinAssert => [at_owner (if m_hThread t then OAssertFail else OJoined) t]
  | _ => []
  end.

(** [doWork] in the thread; [run] returns when the loop was told to stop. *)
Definition doWork (t : Thread) : list Thread :=
  match worker t with
  | WNone | WEnded => []
  | WTest => [mkThread (m_nState t) (m_hThread t) (owner t) (if bool_decide (m_nState t = S_STARTING) then WSetRunning else WSetNull) (quit t) (ran t)]
  | WSetRunning => [mkThread S_RUNNING (m_hThread t) (owner t) WRun (quit t) true]
  | WRun => if quit t then [mkThread (m_nState t) (m_hThread t) (owner t) WSetNull (quit t) (ran t)] else []
  | WSetNull => [mkThread S_NULL (m_hThread t) (owner t) WClearHandle (quit t) (ran t)]
  | WClearHandle => [mkThread (m_nState t) false (owner t) WEnded (quit t) (ran t)]
  end.

Definition next_stop (t : Thread) : list Thread := start t ++ Stop t ++ doWork t.
Definition next_join (t : Thread) : list Thread := start t ++ join t ++ doWork t.

(** ** Priority and affinity *)

Inductive ThreadPriority : Set :=
| THREAD_PRIORITY_MAX | THREAD_PRIORITY_HIGH | THREAD_PRIORITY_NORMAL | THREAD_PRIORITY_LOW | THREAD_PRIORITY_MIN | THREAD_PRIORITY_DEFAULT.

(** The priority stored in the attributes, if any. *)
Definition setPriority (nPriority : ThreadPriority) (hThread : bool) : option Z :=
  if negb hThread then None
  else Some (match nPriority with
             | THREAD_PRIORITY_MAX => 99
             | THREAD_PRIORITY_HIGH => 80
             | THREAD_PRIORITY_NORMAL => 70
             | THREAD_PRIORITY_LOW => 60
             | THREAD_PRIORITY_MIN => 50
             | THREAD_PRIORITY_DEFAULT => 70
             end).

(** [allowed]: what [sched_getaffinity] reported, if it succeeded. *)
Definition getProcessAffinity (allowed : option (Z -> bool)) : Z :=
  match allowed with
  | None => 0
  | Some f => foldl (fun mask i => if f i then Z.lor mask (Z.shiftl 1 i) else mask) 0 (seqZ 0 32)
  end.

(** The processors passed to [sched_setaffinity]. *)
Definition setThreadAffinity (allowed : option (Z -> bool)) (nMask : Z) : list Z :=
  let nProcessMask := getProcessAffinity allowed in
  let nMask := if Z.land nMask nProcessMask =? 0 then nProcessMask else nMask in
  let st := filter (fun i => Z.land nProcessMask (Z.shiftl 1 i) <> 0) (seqZ 0 32) in
  match st with [] => [0] | _ => st end.

(** The mask that was asked for has no effect. *)
Lemma affinity_ignores_mask allowed m1 m2 : setThreadAffinity allowed m1 = setThreadAffinity allowed m2.
Proof. done. Qed.

(** [start] clears the handle before it sets the priority, which therefore
    stays at its default. *)
Lemma start_ignores_priority t p : owner t = OClearHandle -> exists t', t' ∈ start t /\ owner t' = OCreate /\ setPriority p (m_hThread t') = None.
Proof. intros Ho. unfold start. rewrite Ho. eexists. split; [by left|]. done. Qed.

(** ** What holds *)

(** The thread is inside [run] only between the start and S_NULL; a start
    that failed leaves nothing; [Stop] returns when [run] is over. *)
Definition sane (t : Thread) : bool :=
  match owner t with
  | OStartFalse => bool_decide (worker t = WNone) && bool_decide (m_nState t = S_NULL) && negb (m_hThread t)
  | OStopped | OJoined => match worker t with WClearHandle | WEnded => true | _ => false end
  | _ => true
  end
  && match worker t with
     | WRun => bool_decide (m_nState t = S_RUNNING) || bool_decide (m_nState t = S_STOPPING)
     | WNone => negb (ran t)
     | WTest => bool_decide (m_nState t = S_STARTING) || bool_decide (m_nState t = S_STOPPING)
     | _ => true
     end.

(** In every interleaving: [Stop] and [join], when they return, return after
    [run], and a failed [start] leaves the object as it was. *)
Lemma thread_sane t : reachable next_stop Thread_ctor t \/ reachable next_join Thread_ctor t -> sane t = true.
Proof.
  intros [H|H]; revert t H.
  - apply (explore_all next_stop Thread_ctor 30 sane). vm_compute. reflexivity.
  - apply (explore_all next_join Thread_ctor 30 sane). vm_compute. reflexivity.
Qed.

(** The thread ends between the two accesses of [stop]: S_STOPPING is stored
    last, and [Stop] polls for ever. *)
Lemma stop_race_hangs : exists t, reachable next_stop Thread_ctor t /\ owner t = OStopPoll /\ worker t = WEnded /\ m_nState t = S_STOPPING
  /\ forall t', reachable next_stop t t' -> t' = t.
Proof.
  destruct (can_reach_sound next_stop 16 (fun t => bool_decide (t = mkThread S_STOPPING false OStopPoll WEnded true true)) Thread_ctor) as (t & Ht & H);
    [vm_compute; reflexivity|].
  apply bool_decide_eq_true in H as ->. exists (mkThread S_STOPPING false OStopPoll WEnded true true). split_and!; try done.
  intros t' H. assert (bool_decide (t' = mkThread S_STOPPING false OStopPoll WEnded true true) = true) as E; [|by apply bool_decide_eq_true in E].
  revert t' H. apply (explore_all next_stop _ 2 (fun t' => bool_decide (t' = mkThread S_STOPPING false OStopPoll WEnded true true))). vm_compute. reflexivity.
Qed.

(** [join] sees S_NULL before the handle is cleared, and its assertion fails. *)
Lemma join_race_asserts : exists t, reachable next_join Thread_ctor t /\ owner t = OAssertFail.
Proof.
  destruct (can_reach_sound next_join 16 (fun t => bool_decide (owner t = OAssertFail)) Thread_ctor) as (t & Ht & H); [vm_compute; reflexivity|].
  exists t. split; [done|]. by apply bool_decide_eq_true in H.
Qed.

(** A stop between the test and the store of S_RUNNING is overwritten: the
    thread runs as if it had not been asked to stop. *)
Lemma stop_overwritten : exists t, reachable next_stop Thread_ctor t /\ owner t = OStopPoll /\ worker t = WRun /\ m_nState t = S_RUNNING.
Proof.
  destruct (can_reach_sound next_stop 16 (fun t => bool_decide (owner t = OStopPoll) && bool_decide (worker t = WRun) && bool_decide (m_nState t = S_RUNNING))
    Thread_ctor) as (t & Ht & H); [vm_compute; reflexivity|].
  exists t. rewrite !andb_true_iff, !bool_decide_eq_true in H. tauto.
Qed.

(** ** The count of threads and the main thread's object *)

(** [live]: [Thread] objects other than the main thread's. *)
Record registry : Set := mkRegistry { s_nNumThreads : Z; s_pMainThread : bool; s_thread_key : bool; live : Z }.

(** The two accesses of the constructor to the count and the pointer: the
    atomic increment, and the creation it may ask for, in which the base
    constructor counts the main thread's object too. *)
Definition ctor_inc (r : registry) : registry * bool :=
  let n := s32 (s_nNumThreads r + 1) in
  (mkRegistry n (s_pMainThread r) (s_thread_key r) (live r + 1), n =? 1).
Definition ctor_main (asked : bool) (r : registry) : registry :=
  if asked && negb (s_pMainThread r) then mkRegistry (s32 (s_nNumThreads r + 1)) true true (live r) else r.

(** The destructor likewise; deleting the main thread's object deletes the key
    and counts down again. *)
Definition dtor_dec (r : registry) : registry * bool :=
  let n := s32 (s_nNumThreads r - 1) in
  (mkRegistry n (s_pMainThread r) (s_thread_key r) (live r - 1), n =? 1).
Definition dtor_main (asked : bool) (r : registry) : registry :=
  if asked && s_pMainThread r then mkRegistry (s32 (s_nNumThreads r - 1)) false false (live r) else r.

(** [Thread::terminate]: SIGKILL takes the process, whichever thread it is sent
    to. *)
Definition terminate (t : Thread) : outcome Thread := if m_hThread t then Fail Fatal else Ok t.

(** [Thread::~Thread] after the count. *)
Definition Thread_dtor (t : Thread) : outcome Thread := if bool_decide (m_nState t = S_NULL) then Ok t else terminate t.

Definition Thread_new (r : registry) : registry := let '(r, asked) := ctor_inc r in ctor_main asked r.
Definition Thread_delete (r : registry) : registry := let '(r, asked) := dtor_dec r in dtor_main asked r.

Definition registry_ok (r : registry) : Prop :=
  0 <= live r /\ s_pMainThread r = (0 <? live r) /\ s_thread_key r = s_pMainThread r /\ s_nNumThreads r = live r + (if s_pMainThread r then 1 else 0).

(** One at a time, the main thread's object and the key exist exactly while
    some [Thread] does. *)
Lemma registry_new r : registry_ok r -> live r < 2 ^ 31 - 2 -> registry_ok (Thread_new r) /\ live (Thread_new r) = live r + 1.
Proof.
  intros (Hl & Hm & Hk & Hn) Hb. unfold Thread_new, ctor_inc, ctor_main. destruct r as [n m k l]. cbn in *. subst. rewrite s32_small by (destruct (0 <? l); lia).
  unfold registry_ok. destruct (Z.ltb_spec 0 l).
  - replace (l + 1 + 1 =? 1) with false by lia. cbn. destruct (Z.ltb_spec 0 (l + 1)); lia.
  - assert (l = 0) as -> by lia. vm_compute. intuition discriminate.
Qed.

Lemma registry_delete r : registry_ok r -> 0 < live r < 2 ^ 31 - 1 -> registry_ok (Thread_delete r) /\ live (Thread_delete r) = live r - 1.
Proof.
  intros (Hl & Hm & Hk & Hn) Hb. unfold Thread_delete, dtor_dec, dtor_main. destruct r as [n m k l]. cbn in *. subst. destruct (Z.ltb_spec 0 l); [|lia].
  rewrite s32_small by lia. replace (l + 1 - 1) with l by lia. unfold registry_ok. destruct (Z.eqb_spec l 1) as [->|Hne].
  - vm_compute. intuition discriminate.
  - cbn. destruct (Z.ltb_spec 0 (l - 1)); lia.
Qed.

(** A thread object made while the last one is being destroyed, between the
    count and the deletion, is left without a main thread's object and
    without a key. *)
Lemma registry_race : let r1 := Thread_new (mkRegistry 0 false false 0) in
  let '(r2, asked_del) := dtor_dec r1 in let '(r3, asked_new) := ctor_inc r2 in
  let r := dtor_main asked_del (ctor_main asked_new r3) in
  live r = 1 /\ s_pMainThread r = false /\ s_thread_key r = false.
Proof. vm_compute. done. Qed.

(** Destroying a [Thread] whose thread still runs ends the process. *)
Lemma destroy_running_kills t : m_nState t <> S_NULL -> m_hThread t = true -> Thread_dtor t = Fail Fatal.
Proof. intros Hs Hh. unfold Thread_dtor, terminate. by rewrite bool_decide_eq_false_2, Hh. Qed.
