(* ===== verification/StringPiece.v ===== *)
(** * String pieces: src/mynetlib/base/StringPiece.h

    A pointer into some bytes and an [int] length. [ptr_] stands for the bytes
    from the pointer to the end of the object it points into. *)

From S2P Require Import Prelude.

Record StringPiece : Type := mkPiece { ptr_ : list byte; length_ : Z }.

Definition content (x : StringPiece) : list byte := take (Z.to_nat (length_ x)) (ptr_ x).

(** The length fits the object. *)
Definition piece_ok (x : StringPiece) : Prop := 0 <= length_ x <= zlen (ptr_ x).

(** ** Operations *)

(** [StringPiece(str)] for a [std::string]. *)
Definition StringPiece_string (s : list byte) : StringPiece := mkPiece s (s32 (zlen s)).
Definition StringPiece_range (offset : list byte) (len : Z) : StringPiece := mkPiece offset len.

Definition clear (x : StringPiece) : StringPiece := mkPiece [] 0.
Definition set (buffer : list byte) (len : Z) (x : StringPiece) : StringPiece := mkPiece buffer len.

(** Moving the pointer past its object is undefined. *)
Definition remove_prefix (n : Z) (x : StringPiece) : outcome StringPiece :=
  if (0 <=? n) && (n <=? zlen (ptr_ x)) then Ok (mkPiece (drop (Z.to_nat n) (ptr_ x)) (s32 (length_ x - n))) else Fail OutOfBounds.
Definition remove_suffix (n : Z) (x : StringPiece) : StringPiece := mkPiece (ptr_ x) (s32 (length_ x - n)).

(** [memcmp]: the sign of the first difference, bytes as unsigned. *)
Fixpoint memcmp (p q : list byte) (n : nat) {struct n} : Z :=
  match n, p, q with
  | S n', a :: p', b :: q' =>
      match Z.compare (byte_to_Z a) (byte_to_Z b) with
      | Eq => memcmp p' q' n'
      | Lt => -1
      | Gt => 1
      end
  | _, _, _ => 0
  end.

Definition common_length (x y : StringPiece) : nat := Z.to_nat (if length_ x <? length_ y then length_ x else length_ y).

Definition piece_eqb (x y : StringPiece) : bool :=
  (length_ x =? length_ y) && (memcmp (ptr_ x) (ptr_ y) (Z.to_nat (length_ x)) =? 0).

Definition piece_ltb (x y : StringPiece) : bool :=
  let r := memcmp (ptr_ x) (ptr_ y) (common_length x y) in (r <? 0) || ((r =? 0) && (length_ x <? length_ y)).
Definition piece_leb (x y : StringPiece) : bool :=
  let r := memcmp (ptr_ x) (ptr_ y) (common_length x y) in (r <? 0) || ((r =? 0) && (length_ x <=? length_ y)).
Definition piece_geb (x y : StringPiece) : bool :=
  let r := memcmp (ptr_ x) (ptr_ y) (common_length x y) in (0 <? r) || ((r =? 0) && (length_ y <=? length_ x)).
Definition piece_gtb (x y : StringPiece) : bool :=
  let r := memcmp (ptr_ x) (ptr_ y) (common_length x y) in (0 <? r) || ((r =? 0) && (length_ y <? length_ x)).

Definition compare (x y : StringPiece) : Z :=
  let r := memcmp (ptr_ x) (ptr_ y) (common_length x y) in
  if r =? 0 then (if length_ x <? length_ y then -1 else if length_ y <? length_ x then 1 else r) else r.

Definition as_string (x : StringPiece) : list byte := content x.

Definition starts_with (x y : StringPiece) : bool :=
  (length_ y <=? length_ x) && (memcmp (ptr_ x) (ptr_ y) (Z.to_nat (length_ y)) =? 0).

(** ** The lexicographic order *)

Fixpoint lex (s t : list byte) : comparison :=
  match s, t with
  | [], [] => Eq
  | [], _ => Lt
  | _, [] => Gt
  | a :: s', b :: t' => match Z.compare (byte_to_Z a) (byte_to_Z b) with Eq => lex s' t' | c => c end
  end.

Lemma byte_to_Z_inj a b : byte_to_Z a = byte_to_Z b -> a = b.
Proof. intros H. by rewrite <- (byte_of_to_Z a), <- (byte_of_to_Z b), H. Qed.

Lemma lex_eq s t : lex s t = Eq <-> s = t.
Proof.
  revert t. induction s as [|a s IH]; intros [|b t]; cbn; try done. destruct (Z.compare_spec (byte_to_Z a) (byte_to_Z b)) as [E|E|E].
  - apply byte_to_Z_inj in E as ->. rewrite IH. split; congruence.
  - split; [done|]. intros [= -> _]. lia.
  - split; [done|]. intros [= -> _]. lia.
Qed.

Lemma lex_opp s t : lex t s = CompOpp (lex s t).
Proof.
  revert t. induction s as [|a s IH]; intros [|b t]; cbn; try done. rewrite Z.compare_antisym.
  destruct (Z.compare (byte_to_Z a) (byte_to_Z b)); cbn; [apply IH|done|done].
Qed.

Lemma lex_trans s t u : lex s t = Lt -> lex t u = Lt -> lex s u = Lt.
Proof.
  revert t u. induction s as [|a s IH]; intros [|b t] [|c u]; cbn; try done.
  destruct (Z.compare_spec (byte_to_Z a) (byte_to_Z b)), (Z.compare_spec (byte_to_Z b) (byte_to_Z c)), (Z.compare_spec (byte_to_Z a) (byte_to_Z c)); try done; try lia.
  apply IH.
Qed.

(** ** memcmp and the order *)

(** [memcmp] over the shorter of two byte strings, and their lengths, decide
    the order. *)
Lemma memcmp_lex s : forall t p q, let m := memcmp (s ++ p) (t ++ q) (Nat.min (length s) (length t)) in
  (m = 0 /\ lex s t = Nat.compare (length s) (length t)) \/ (m = -1 /\ lex s t = Lt) \/ (m = 1 /\ lex s t = Gt).
Proof.
  induction s as [|a s IH]; intros t p q; cbn zeta.
  - destruct t as [|b t]; by left.
  - destruct t as [|b t]; [by left|]. cbn [length Nat.min app memcmp lex Nat.compare].
    destruct (Z.compare (byte_to_Z a) (byte_to_Z b)); [apply IH|right; by left|right; by right].
Qed.

Lemma content_split x : piece_ok x -> ptr_ x = content x ++ drop (Z.to_nat (length_ x)) (ptr_ x) /\ Z.of_nat (length (content x)) = length_ x.
Proof.
  intros [H1 H2]. unfold content. split; [by rewrite take_drop|]. unfold zlen in H2. rewrite length_take. lia.
Qed.

(** What [memcmp] says of two pieces. *)
Lemma piece_cases x y : piece_ok x -> piece_ok y -> let m := memcmp (ptr_ x) (ptr_ y) (common_length x y) in
  (m = 0 /\ lex (content x) (content y) = Z.compare (length_ x) (length_ y))
  \/ (m = -1 /\ lex (content x) (content y) = Lt) \/ (m = 1 /\ lex (content x) (content y) = Gt).
Proof.
  intros Hx Hy. destruct (content_split x Hx) as [Ex Lx]. destruct (content_split y Hy) as [Ey Ly].
  pose proof (memcmp_lex (content x) (content y) (drop (Z.to_nat (length_ x)) (ptr_ x)) (drop (Z.to_nat (length_ y)) (ptr_ y))) as H.
  rewrite <- Ex, <- Ey in H. replace (Nat.min (length (content x)) (length (content y))) with (common_length x y) in H
    by (unfold common_length; destruct (Z.ltb_spec (length_ x) (length_ y)); lia).
  rewrite <- Lx, <- Ly, Nat2Z.inj_compare. exact H.
Qed.

Lemma memcmp_prefix s : forall t p, memcmp (s ++ p) t (length s) = 0 -> (length s <= length t)%nat -> s = take (length s) t.
Proof.
  induction s as [|a s IH]; intros t p; [done|]. destruct t as [|b t]; cbn [length app memcmp]; [intros _; lia|].
  destruct (Z.compare_spec (byte_to_Z a) (byte_to_Z b)) as [E|E|E]; try done. intros H Hl. apply byte_to_Z_inj in E as ->. cbn. f_equal. apply (IH t p H). lia.
Qed.

Lemma memcmp_same s : forall p q, memcmp (s ++ p) (s ++ q) (length s) = 0.
Proof. induction s as [|a s IH]; intros p q; [done|]. cbn. rewrite Z.compare_refl. apply IH. Qed.

Lemma memcmp_sym n : forall p q, memcmp p q n = - memcmp q p n.
Proof.
  induction n as [|n IH]; intros [|a p] [|b q]; try done. cbn [memcmp]. rewrite (Z.compare_antisym (byte_to_Z a)).
  destruct (Z.compare (byte_to_Z a) (byte_to_Z b)); cbn; [apply IH|done|done].
Qed.

(** The first [length s] bytes agree exactly when [s] starts the other. *)
Lemma memcmp_zero s p t : (length s <= length t)%nat -> (memcmp t (s ++ p) (length s) = 0 <-> exists r, t = s ++ r).
Proof.
  intros Hl. split.
  - rewrite memcmp_sym. intros H. exists (drop (length s) t). rewrite (memcmp_prefix s t p) at 1 by (done || lia). by rewrite take_drop.
  - intros [r ->]. apply memcmp_same.
Qed.

(** C38: comparing string pieces is comparing their contents as strings:
    [compare] has the sign of the lexicographic order of unsigned bytes, the
    five operators agree with it, the order is total, and [starts_with] holds
    exactly for prefixes, whatever follows the pieces in memory. *)
Theorem piece_order x y : piece_ok x -> piece_ok y ->
  Z.sgn (compare x y) = match lex (content x) (content y) with Lt => -1 | Eq => 0 | Gt => 1 end
  /\ piece_ltb x y = bool_decide (lex (content x) (content y) = Lt)
  /\ piece_gtb x y = bool_decide (lex (content x) (content y) = Gt)
  /\ piece_leb x y = negb (piece_gtb x y) /\ piece_geb x y = negb (piece_ltb x y)
  /\ piece_eqb x y = bool_decide (content x = content y)
  /\ (starts_with x y = true <-> exists r, content x = content y ++ r).
Proof.
  intros Hx Hy. pose proof (piece_cases x y Hx Hy) as Hc. cbn zeta in Hc. unfold compare, piece_ltb, piece_gtb, piece_leb, piece_geb. cbn zeta.
  set (m := memcmp (ptr_ x) (ptr_ y) (common_length x y)) in *. destruct (content_split x Hx) as [Ex Lx]. destruct (content_split y Hy) as [Ey Ly].
  assert (starts_with x y = true <-> exists r, content x = content y ++ r) as Hsw.
  { unfold starts_with. rewrite andb_true_iff, Z.leb_le, Z.eqb_eq. replace (Z.to_nat (length_ y)) with (length (content y)) by lia. split.
    - intros [Hl Hm]. rewrite Ey in Hm. rewrite memcmp_zero in Hm by (unfold piece_ok, zlen in *; lia). destruct Hm as [r Hr]. rewrite Ex in Hr.
      exists (take (Z.to_nat (length_ x) - length (content y)) r). unfold content at 1. rewrite Ex, Hr at 1. rewrite take_app_ge by lia. done.
    - intros [r Hr]. split; [apply (f_equal length) in Hr; rewrite length_app in Hr; lia|]. rewrite Ex, Ey, Hr, <- app_assoc. apply memcmp_same. }
  assert (piece_eqb x y = bool_decide (content x = content y)) as Heq.
  { unfold piece_eqb. destruct (Z.eqb_spec (length_ x) (length_ y)) as [El|El]; cbn [andb].
    - replace (Z.to_nat (length_ x)) with (common_length x y) by (unfold common_length; destruct (Z.ltb_spec (length_ x) (length_ y)); lia). fold m.
      apply eq_true_iff_eq. rewrite Z.eqb_eq, bool_decide_eq_true, <- lex_eq.
      destruct Hc as [[-> ->]|[[-> ->]|[-> ->]]]; [|done..]. rewrite El, Z.compare_refl. done.
    - symmetry. apply bool_decide_eq_false. intros E. rewrite E in Lx. lia. }
  split_and!; try done.
  - destruct Hc as [[-> ->]|[[-> ->]|[-> ->]]]; cbn [Z.eqb]; try done. destruct (Z.compare_spec (length_ x) (length_ y)), (Z.ltb_spec (length_ x) (length_ y)); try lia;
      destruct (Z.ltb_spec (length_ y) (length_ x)); done || lia.
  - destruct Hc as [[-> ->]|[[-> ->]|[-> ->]]]; try done. cbn [Z.ltb Z.compare Z.eqb orb andb].
    destruct (Z.compare_spec (length_ x) (length_ y)), (Z.ltb_spec (length_ x) (length_ y)); done || lia.
  - destruct Hc as [[-> ->]|[[-> ->]|[-> ->]]]; try done. cbn [Z.ltb Z.compare Z.eqb orb andb].
    destruct (Z.compare_spec (length_ x) (length_ y)), (Z.ltb_spec (length_ y) (length_ x)); done || lia.
  - destruct Hc as [[-> _]|[[-> _]|[-> _]]]; try done. cbn [Z.ltb Z.compare Z.eqb orb andb]. by rewrite Z.leb_antisym.
  - destruct Hc as [[-> _]|[[-> _]|[-> _]]]; try done. cbn [Z.ltb Z.compare Z.eqb orb andb]. by rewrite Z.leb_antisym.
Qed.

(** "ab" in "abc" against "abd", over the high byte 0xff. *)
Lemma piece_order_witness :
  Z.sgn (compare (mkPiece [Byte.x61; Byte.x62; Byte.x63] 2) (mkPiece [Byte.x61; Byte.xff] 2)) = -1
  /\ starts_with (mkPiece [Byte.x61; Byte.x62; Byte.x63] 3) (mkPiece [Byte.x61; Byte.x62; Byte.x64] 2) = true.
Proof.
  split.
  - rewrite (proj1 (piece_order (mkPiece [Byte.x61; Byte.x62; Byte.x63] 2) (mkPiece [Byte.x61; Byte.xff] 2) ltac:(vm_compute; split; discriminate) ltac:(vm_compute; split; discriminate))). reflexivity.
  - apply (piece_order (mkPiece [Byte.x61; Byte.x62; Byte.x63] 3) (mkPiece [Byte.x61; Byte.x62; Byte.x64] 2)); [vm_compute; split; discriminate|vm_compute; split; discriminate|].
    exists [Byte.x63]. reflexivity.
Defined.

(** Cutting a piece at both ends. *)
Lemma remove_exact n x : piece_ok x -> 0 <= n <= length_ x -> length_ x < 2 ^ 31 ->
  (exists y, remove_prefix n x = Ok y /\ piece_ok y /\ content y = drop (Z.to_nat n) (content x))
  /\ piece_ok (remove_suffix n x) /\ content (remove_suffix n x) = take (Z.to_nat (length_ x - n)) (content x).
Proof.
  intros [H1 H2] Hn Hs. unfold remove_prefix, remove_suffix. rewrite s32_small by lia. rewrite (proj2 (Z.leb_le _ _)), (proj2 (Z.leb_le _ _)) by lia. cbn [andb].
  unfold piece_ok, content, zlen in *. cbn [ptr_ length_]. split.
  - eexists. split; [done|]. cbn [ptr_ length_]. split; [rewrite length_drop; lia|]. rewrite skipn_firstn_comm. do 2 f_equal. lia.
  - split; [lia|]. rewrite take_take. f_equal. lia.
Qed.
