(* ===== verification/Skel.v ===== *)
(** * The process supervisor: src/frame/skeleton.h, skeleton.cpp

    A master process that starts one worker process per configured module,
    waits for signals and timers, restarts the workers when one dies and
    reloads them on SIGHUP. The handlers run one at a time in the master's
    event loop; workers die between them. The options of the command line, the
    configuration file (read by Config.v), what dlopen finds and what [fork]
    returns are arguments; logging is left out, except that it reads the fields
    of a module's entry. The last part has the commands that find a running
    master by its pid file. *)

From stdpp Require Import gmap.
From S2P Require Import Prelude Format CppString Strops StropsSpec Config.

(** ** Options *)

Definition RELOAD : Z := 1.
Definition KILL : Z := 2.
Definition STATUS : Z := 4.
Definition FORERUN : Z := 8.

(** An option letter as [getopt] returns it. *)
Inductive opt : Set := Opt_r | Opt_k | Opt_s | Opt_f | Opt_c | Opt_l | Opt_unknown.

(** [ParseOpt]: [None] is the return of -1. *)
Fixpoint ParseOpt (opts : list opt) (optFlag : Z) : option Z :=
  match opts with
  | [] => Some optFlag
  | o :: opts' =>
      match o with
      | Opt_r => ParseOpt opts' (Z.lor optFlag RELOAD)
      | Opt_k => ParseOpt opts' (Z.lor optFlag KILL)
      | Opt_s => ParseOpt opts' (Z.lor optFlag STATUS)
      | Opt_f => ParseOpt opts' (Z.lor optFlag FORERUN)
      | Opt_c | Opt_l => ParseOpt opts' optFlag
      | Opt_unknown => None
      end
  end.

(** [optFlag & RELOAD != 0] is [optFlag & (RELOAD != 0)], which is the same
    because RELOAD is 1. *)
Definition ReloadOpt (f : Z) : bool := negb (Z.land f (if RELOAD =? 0 then 0 else 1) =? 0).
Definition KillOpt (f : Z) : bool := negb (Z.land f KILL =? 0).
Definition StatusOpt (f : Z) : bool := negb (Z.land f STATUS =? 0).
Definition ForeRunOpt (f : Z) : bool := negb (Z.land f FORERUN =? 0).

(** What the process does: [Init] and [Start]. *)
Inductive action : Set := DoNothing | DoReload | DoKill | DoStatus | DoForeRun | DoDaemonRun.

Definition main_action (opts : list opt) : action :=
  match ParseOpt opts 0 with
  | None => DoNothing
  | Some f =>
      if ReloadOpt f then DoReload
      else if KillOpt f then DoKill
      else if StatusOpt f then DoStatus
      else if ForeRunOpt f then DoForeRun
      else DoDaemonRun
  end.

(** ** Configuration and modules *)

Record settings : Type := mkSettings { logConf_ : list byte; modulesConf_ : list byte; autoReboot : Z; rebootTimeout_ : Z }.

(** A [std::string] assigned from a [char] pointer. *)
Definition assign (v : option (list byte)) : outcome (list byte) :=
  match v with Some t => Ok t | None => Fail NullPointer end.

Definition read_config (conf : list byte) (file : option (list byte)) (mtime garbage : Z) : Config :=
  snd (init base_confCheck conf file mtime (Config_ctor garbage)).

(** [ReadConf], up to the set-up of the log. *)
Definition ReadConf (c : Config) (s : settings) : outcome settings :=
  e ← checkIsKeyExist 0 (str "log_conf") c;
  l ← (if (e : bool) then v ← getConfStr (str "log_conf") c; assign v else Ok (logConf_ s));
  e ← checkIsKeyExist 0 (str "modules") c;
  m ← (if (e : bool) then v ← getConfStr (str "modules") c; assign v else Ok (modulesConf_ s));
  e ← checkIsKeyExist 0 (str "autoreboot") c;
  a ← (if (e : bool) then getConfInt (str "autoreboot") c else Ok (autoReboot s));
  e ← checkIsKeyExist 0 (str "reboottimeout") c;
  r ← (if (e : bool) then getConfInt (str "reboottimeout") c else Ok (rebootTimeout_ s));
  Ok (mkSettings l m a r).

(** What [ReloadHandle] reads again. *)
Definition reload_conf (c : Config) : outcome (list byte) :=
  v ← getConfStr (str "modules") c; assign v.

(** What [dlopen] and the two [dlsym] say of a file. *)
Record library : Set := mkLibrary { opens : bool; getModule : bool; destroyModule : bool }.

Definition loads (l : library) : bool := opens l && getModule l && destroyModule l.

Definition split_at (d : byte) (t : list byte) : list (list byte) := default [] (split (S (length t)) t [d] []).

(** [v[i]] of a vector. *)
Definition vec_at {A} (v : list A) (i : nat) : outcome A :=
  match v !! i with Some x => Ok x | None => Fail OutOfBounds end.

(** One turn of the loop of [CheckModules]; with debugging on, the log line
    reads both fields. *)
Definition check_module (debug : bool) (dl : list byte -> library) (entry : list byte) : outcome bool :=
  let tmpVec := split_at Byte.x3a entry in
  _ ← (if debug then _ ← vec_at tmpVec 0; vec_at tmpVec 1 else Ok []);
  path ← vec_at tmpVec 0;
  Ok (loads (dl path)).

Fixpoint check_modules (debug : bool) (dl : list byte -> library) (entries : list (list byte)) : outcome Z :=
  match entries with
  | [] => Ok 0
  | e :: es => ok ← check_module debug dl e; if (ok : bool) then check_modules debug dl es else Ok (-1)
  end.

Definition CheckModules (debug : bool) (dl : list byte -> library) (modulesConf : list byte) : outcome Z :=
  check_modules debug dl (split_at Byte.x3b modulesConf).

(** The child's part of [WorkerRun]: the module runs, or the function returns
    into the loop of the caller; whether [GetModule] was called. *)
Inductive child_end : Set := RunsModule | ReturnsToCaller (made_module : bool).

Definition worker_child (debug : bool) (dl : list byte -> library) (conf : list byte) : outcome child_end :=
  let tmpVec := split_at Byte.x3a conf in
  _ ← (if debug then _ ← vec_at tmpVec 0; vec_at tmpVec 1 else Ok []);
  path ← vec_at tmpVec 0;
  let l := dl path in
  Ok (if negb (opens l) || negb (getModule l) then ReturnsToCaller false
      else if negb (destroyModule l) then ReturnsToCaller true
      else RunsModule).

(** *** What the configuration gives *)

Lemma read_config_lookups conf es mtime garbage : Forall entry_ok es ->
  let c := read_config conf (Some (render es)) mtime garbage in
  (forall key, checkIsKeyExist 0 key c = Ok (match items es !! key with Some _ => true | None => false end)) /\
  (forall key, getConfStr key c = Ok (items es !! key)) /\
  (forall key, getConfInt key c = Ok (match items es !! key with Some v => atol v | None => -1 end)).
Proof.
  intros He. assert (load (render es) = items es) as Hl by (rewrite load_render by done; apply items_foldl).
  unfold read_config, init. cbn. rewrite Hl. by split_and!.
Qed.

(** Every key that is present replaces the setting, and no other changes. *)
Lemma ReadConf_exact conf es mtime garbage st : Forall entry_ok es ->
  ReadConf (read_config conf (Some (render es)) mtime garbage) st =
    Ok (mkSettings (default (logConf_ st) (items es !! str "log_conf")) (default (modulesConf_ st) (items es !! str "modules"))
          (match items es !! str "autoreboot" with Some v => atol v | None => autoReboot st end)
          (match items es !! str "reboottimeout" with Some v => atol v | None => rebootTimeout_ st end)).
Proof.
  intros He. destruct (read_config_lookups conf es mtime garbage He) as (H1 & H2 & H3). unfold ReadConf. rewrite !H1, !H2, !H3.
  cbn [mbind outcome_bind]. destruct (items es !! str "log_conf"), (items es !! str "modules"), (items es !! str "autoreboot"), (items es !! str "reboottimeout"); done.
Qed.

(** Without a file the settings stay, and a reload follows a null pointer; so
    it does when the new file has no list of modules. *)
Lemma conf_missing conf mtime garbage st :
  ReadConf (read_config conf None mtime garbage) st = Ok st /\ reload_conf (read_config conf None mtime garbage) = Fail NullPointer.
Proof. by destruct st. Qed.

Lemma reload_conf_exact conf es mtime garbage : Forall entry_ok es ->
  reload_conf (read_config conf (Some (render es)) mtime garbage) =
    match items es !! str "modules" with Some m => Ok m | None => Fail NullPointer end.
Proof. intros He. destruct (read_config_lookups conf es mtime garbage He) as (_ & H2 & _). unfold reload_conf. rewrite H2. cbn. by destruct (_ !! _). Qed.

(** *** The list of modules *)

Lemma cut_of_pieces d ts : ts <> [] -> Forall (fun t => d ∉ t) ts -> cut [d] (join [d] ts) ts.
Proof.
  intros Hne Hd. induction ts as [|t ts IH]; [done|]. inversion Hd as [|? ? Ht Hts]; subst. destruct ts as [|u ts].
  - constructor. by apply find_char_none.
  - rewrite join_cons by done. constructor; [|by apply IH]. by apply find_char.
Qed.

Lemma split_at_join d ts : ts <> [] -> Forall (fun t => d ∉ t) ts -> split_at d (join [d] ts) = strip_last ts.
Proof.
  intros Hne Hd. unfold split_at, split.
  destruct (split_loop_ok [d] (join [d] ts) ltac:(done) (S (length (join [d] ts))) 0 []) as (ts' & -> & Hc); [lia..|]. rewrite drop_0 in Hc.
  by rewrite (cut_unique _ _ _ _ Hc (cut_of_pieces d ts Hne Hd)).
Qed.

Lemma strip_last_id ts : Forall (fun t => t <> []) ts -> strip_last ts = ts.
Proof. induction 1 as [|t ts Ht _ IH]; [done|]. cbn. destruct ts; [by destruct t|]. by rewrite IH. Qed.

(** A module: its library and its configuration. *)
Definition module_ok (m : list byte * list byte) : Prop :=
  (Byte.x3b ∉ m.1) /\ (Byte.x3a ∉ m.1) /\ (Byte.x3b ∉ m.2) /\ (Byte.x3a ∉ m.2) /\ m.2 <> [].
Definition module_text (m : list byte * list byte) : list byte := m.1 ++ [Byte.x3a] ++ m.2.

Lemma split_module m : module_ok m -> split_at Byte.x3a (module_text m) = [m.1; m.2].
Proof.
  intros (H1 & H2 & H3 & H4 & H5). change (module_text m) with (join [Byte.x3a] [m.1; m.2]).
  rewrite split_at_join by (try done; repeat constructor; done). destruct m as [p c]. cbn in *. by destruct c.
Qed.

Lemma check_module_exact debug dl m : module_ok m -> check_module debug dl (module_text m) = Ok (loads (dl m.1)).
Proof. intros Hm. unfold check_module. rewrite split_module by done. by destruct debug. Qed.

(** One entry per module. *)
Lemma split_modules ms : ms <> [] -> Forall module_ok ms ->
  split_at Byte.x3b (join [Byte.x3b] (module_text <$> ms)) = module_text <$> ms.
Proof.
  intros Hne Hok. rewrite split_at_join.
  - apply strip_last_id. rewrite Forall_fmap. eapply Forall_impl; [exact Hok|]. intros m _. unfold module_text. cbn. by destruct m.1.
  - by destruct ms.
  - rewrite Forall_fmap. eapply Forall_impl; [exact Hok|]. intros m (H1 & H2 & H3 & H4 & H5). unfold module_text. cbn. set_solver.
Qed.

(** A well-formed list of modules is accepted exactly when every library loads,
    with logging on or off. *)
Lemma CheckModules_exact debug dl ms : ms <> [] -> Forall module_ok ms ->
  CheckModules debug dl (join [Byte.x3b] (module_text <$> ms)) = Ok (if forallb (fun m => loads (dl m.1)) ms then 0 else -1).
Proof.
  intros Hne Hok. unfold CheckModules. rewrite split_modules by done.
  clear Hne. induction Hok as [|m ms Hm _ IH]; [done|]. cbn. rewrite check_module_exact by done. cbn. by destruct (loads (dl m.1)).
Qed.

(** After a check that succeeded, with the libraries unchanged, every child
    runs its module. *)
Lemma children_run debug dl ms : ms <> [] -> Forall module_ok ms -> CheckModules debug dl (join [Byte.x3b] (module_text <$> ms)) = Ok 0 ->
  Forall (fun m => worker_child debug dl (module_text m) = Ok RunsModule) ms.
Proof.
  intros Hne Hok. rewrite CheckModules_exact by done. destruct (forallb _ ms) eqn:E; [intros _|done]. rewrite forallb_forall in E.
  rewrite Forall_forall in Hok |- *. intros m Hm. specialize (E m). rewrite <- list_elem_of_In in E. specialize (E Hm).
  unfold loads in E. rewrite !andb_true_iff in E. destruct E as [[E1 E2] E3].
  unfold worker_child. rewrite split_module by (by apply Hok). destruct debug; cbn; by rewrite E1, E2, E3.
Qed.

(** An entry without a colon is read past its end when the log is on, and an
    empty entry in any case. *)
Lemma short_entries dl t : t <> [] -> Byte.x3a ∉ t -> check_module true dl t = Fail OutOfBounds /\ check_module false dl [] = Fail OutOfBounds.
Proof.
  intros Hne Hc. split; [|done]. unfold check_module. pose proof (split_at_join Byte.x3a [t] ltac:(done)) as H. cbn [join] in H. rewrite H by (by constructor).
  by destruct t.
Qed.

(** ** The master *)

Inductive skel_status : Set := STARTING | RUNNING | SUSPENDING.

#[export] Instance skel_status_eq : EqDecision skel_status.
Proof. solve_decision. Defined.

(** How a child ended. [waitpid] without WUNTRACED reports no others. *)
Inductive wait_status : Set := Exited (code : Z) | Signaled (sig : Z).

Definition SIGKILL : Z := 9.

(** [timers]: reboot timers that have not fired. [alive] and [zombies] are the
    kernel's view of the children; [used] has every pid [fork] returned. *)
Record Skel : Type := mkSkel {
  status_ : skel_status;
  autoReboot_ : bool;
  dropPid_ : list nat;
  timers : nat;
  modules_ : list nat;
  exited : bool;
  alive : list nat;
  zombies : list (nat * wait_status);
  used : list nat;
}.

Definition Skel_ctor (autoReboot : bool) : Skel := mkSkel STARTING autoReboot [] 0 [] false [] [] [].

Definition set_status st s := mkSkel st (autoReboot_ s) (dropPid_ s) (timers s) (modules_ s) (exited s) (alive s) (zombies s) (used s).

(** [kill(pid, SIGKILL)] on a child. *)
Definition kill (s : Skel) (p : nat) : Skel :=
  if bool_decide (p ∈ alive s) then
    mkSkel (status_ s) (autoReboot_ s) (dropPid_ s) (timers s) (modules_ s) (exited s)
      (filter (fun q => q <> p) (alive s)) (zombies s ++ [(p, Signaled SIGKILL)]) (used s)
  else s.

(** [WorkerRun] in the master. A [fork] that fails returns -1, and the master
    goes on as the child does. *)
Definition WorkerRun (s : Skel) (fork : option nat) : outcome Skel :=
  match fork with
  | Some pid => Ok (mkSkel (status_ s) (autoReboot_ s) (dropPid_ s) (timers s) (modules_ s ++ [pid]) (exited s)
                      (alive s ++ [pid]) (zombies s) (used s ++ [pid]))
  | None => Fail Fatal
  end.

(** What a start or a reload meets: the path, contents and time of the
    configuration file with the garbage of the new Config object, whether the
    log is on, the libraries, and what the [i]-th [fork] returns. *)
Record surroundings : Type := mkSurroundings {
  su_path : list byte;
  su_file : option (list byte);
  su_mtime : Z;
  su_garbage : Z;
  su_debug : bool;
  su_dl : list byte -> library;
  su_fork : nat -> option nat;
}.

(** One worker per entry of the list of modules. *)
Definition start_workers (u : surroundings) (modulesConf : list byte) (s : Skel) : outcome Skel :=
  foldM WorkerRun s (su_fork u <$> seq 0 (length (split_at Byte.x3b modulesConf))).

Definition MasterRun (u : surroundings) (modulesConf : list byte) (s : Skel) : outcome Skel :=
  r ← CheckModules (su_debug u) (su_dl u) modulesConf;
  if negb (r <? 0) then start_workers u modulesConf s
  else Ok (mkSkel (status_ s) (autoReboot_ s) (dropPid_ s) (timers s) (modules_ s) true (alive s) (zombies s) (used s)).

(** The loop that drops and kills the workers. *)
Definition drop_kill (s : Skel) (p : nat) : Skel :=
  kill (mkSkel (status_ s) (autoReboot_ s) (dropPid_ s ++ [p]) (timers s) (modules_ s) (exited s) (alive s) (zombies s) (used s)) p.

(** [Stop] with [exiting_] set: the master exits. *)
Definition Stop (s : Skel) : Skel :=
  let s := foldl drop_kill s (modules_ s) in
  mkSkel (status_ s) (autoReboot_ s) (dropPid_ s) (timers s) (modules_ s) true (alive s) (zombies s) (used s).

Definition ReloadHandle (u : surroundings) (s : Skel) : outcome Skel :=
  let s := set_status SUSPENDING s in
  modulesConf ← reload_conf (read_config (su_path u) (su_file u) (su_mtime u) (su_garbage u));
  let s := foldl drop_kill s (modules_ s) in
  let s := mkSkel (status_ s) (autoReboot_ s) (dropPid_ s) (timers s) [] (exited s) (alive s) (zombies s) (used s) in
  r ← CheckModules (su_debug u) (su_dl u) modulesConf;
  if negb (r <? 0) then s ← start_workers u modulesConf s; Ok (set_status RUNNING s)
  else Ok (mkSkel (status_ s) (autoReboot_ s) (dropPid_ s) (timers s) (modules_ s) true (alive s) (zombies s) (used s)).

(** [vector::erase] of the first match. *)
Fixpoint erase_pid (p : nat) (l : list nat) : list nat :=
  match l with
  | [] => []
  | q :: l' => if bool_decide (q = p) then l' else q :: erase_pid p l'
  end.

(** One turn of [WaitChildren] for a child that ended. The kill of its
    process group finds none: workers do not make one. *)
Definition reap (s : Skel) (z : nat * wait_status) : Skel :=
  if bool_decide (z.1 ∈ dropPid_ s) then
    mkSkel (status_ s) (autoReboot_ s) (erase_pid z.1 (dropPid_ s)) (timers s) (modules_ s) (exited s) (alive s) (zombies s) (used s)
  else if autoReboot_ s && negb (bool_decide (status_ s = SUSPENDING)) then
    mkSkel SUSPENDING (autoReboot_ s) (dropPid_ s) (S (timers s)) (modules_ s) (exited s) (alive s) (zombies s) (used s)
  else s.

(** [waitpid] until it has no more. *)
Fixpoint wait_loop (zs : list (nat * wait_status)) (s : Skel) : Skel :=
  match zs with
  | [] => s
  | z :: zs' =>
      wait_loop zs' (reap (mkSkel (status_ s) (autoReboot_ s) (dropPid_ s) (timers s) (modules_ s) (exited s) (alive s) zs' (used s)) z)
  end.
Definition WaitChildren (s : Skel) : Skel := wait_loop (zombies s) s.

(** ** Events *)

Inductive skel_event : Type :=
| EDies (p : nat) (st : wait_status)
| EChld
| ETimer (u : surroundings)
| EHup (u : surroundings)
| ETerm.

Definition set_timers (n : nat) (s : Skel) : Skel :=
  mkSkel (status_ s) (autoReboot_ s) (dropPid_ s) n (modules_ s) (exited s) (alive s) (zombies s) (used s).

(** [SignalHandle], the timers, and the deaths of workers. *)
Definition skel_step (s : Skel) (e : skel_event) : outcome Skel :=
  if exited s then Ok s
  else match e with
  | EDies p st =>
      Ok (if bool_decide (p ∈ alive s) then
            mkSkel (status_ s) (autoReboot_ s) (dropPid_ s) (timers s) (modules_ s) (exited s)
              (filter (fun q => q <> p) (alive s)) (zombies s ++ [(p, st)]) (used s)
          else s)
  | EChld => Ok (WaitChildren s)
  | ETimer u => match timers s with O => Ok s | S n => ReloadHandle u (set_timers n s) end
  | EHup u => ReloadHandle u s
  | ETerm => Ok (Stop s)
  end.

Definition skel_run : Skel -> list skel_event -> outcome Skel := foldM skel_step.

(** ** Supervision *)

(** The first forks succeed with these pids. *)
Definition forks_as (u : surroundings) (ps : list nat) : Prop := su_fork u <$> seq 0 (length ps) = Some <$> ps.

(** A list of modules that is well formed, as the configuration has it; when
    all their libraries load, the forks succeed with pids never used before. *)
Definition reload_ok (s : Skel) (u : surroundings) (ms : list (list byte * list byte)) (ps : list nat) : Prop :=
  ms <> [] /\ Forall module_ok ms /\ length ps = length ms /\
  reload_conf (read_config (su_path u) (su_file u) (su_mtime u) (su_garbage u)) = Ok (join [Byte.x3b] (module_text <$> ms)) /\
  (forallb (fun m => loads (su_dl u m.1)) ms = true -> forks_as u ps /\ NoDup ps /\ forall p, p ∈ ps -> p ∉ used s).

Definition event_ok (s : Skel) (e : skel_event) : Prop :=
  match e with
  | ETimer u | EHup u => exists ms ps, reload_ok s u ms ps
  | _ => True
  end.

Fixpoint events_ok (s : Skel) (es : list skel_event) : Prop :=
  match es with
  | [] => True
  | e :: es' => event_ok s e /\ match skel_step s e with Ok s' => events_ok s' es' | Fail _ => True end
  end.

(** What holds of the master between two events. *)
Record skel_inv (s : Skel) : Prop := {
  sk_alive : forall p, p ∈ alive s -> p ∈ modules_ s;
  sk_nodup : NoDup (modules_ s);
  sk_zombies : forall p, p ∈ (zombies s).*1 -> p ∈ modules_ s \/ p ∈ dropPid_ s;
  sk_once : NoDup (zombies s).*1;
  sk_apart : forall p, p ∈ alive s -> p ∉ (zombies s).*1;
  sk_drop : forall p, p ∈ modules_ s -> p ∉ dropPid_ s;
  sk_kept : forall p, p ∈ modules_ s -> p ∈ alive s \/ p ∈ (zombies s).*1 \/ (autoReboot_ s = true -> (0 < timers s)%nat);
  sk_status : status_ s = SUSPENDING -> (0 < timers s)%nat;
  sk_used : forall p, p ∈ modules_ s \/ p ∈ dropPid_ s -> p ∈ used s;
}.

Lemma skel_ctor_inv b : skel_inv (Skel_ctor b).
Proof. split; cbn; try done; try (intros p Hp; set_solver); [constructor|constructor]. Qed.

Lemma erase_pid_keep p q l : p <> q -> q ∈ l -> q ∈ erase_pid p l.
Proof. intros Hn. induction l as [|x l IH]; [done|]. cbn. case_bool_decide; set_solver. Qed.

Lemma erase_pid_sub p q l : q ∈ erase_pid p l -> q ∈ l.
Proof. induction l as [|x l IH]; [done|]. cbn. case_bool_decide; set_solver. Qed.

(** A worker ends. *)
Lemma dies_inv s p st : skel_inv s -> p ∈ alive s ->
  skel_inv (mkSkel (status_ s) (autoReboot_ s) (dropPid_ s) (timers s) (modules_ s) (exited s)
    (filter (fun q => q <> p) (alive s)) (zombies s ++ [(p, st)]) (used s)).
Proof.
  intros [] Hp. assert (p ∉ (zombies s).*1) as Hz by auto. split; cbn [alive modules_ zombies dropPid_ timers autoReboot_ status_ used]; try done;
    try (rewrite fmap_app; cbn [fmap list_fmap fst]).
  - intros q Hq. apply list_elem_of_filter in Hq as [_ Hq]. auto.
  - intros q Hq. apply elem_of_app in Hq as [Hq|Hq]; [auto|]. apply list_elem_of_singleton in Hq as ->. auto.
  - apply NoDup_app. split_and!; [done|set_solver|apply NoDup_singleton].
  - intros q Hq. apply list_elem_of_filter in Hq as [Hn Hq]. rewrite elem_of_app, list_elem_of_singleton. intros [H|H]; [by apply (sk_apart0 q)|done].
  - intros q Hq. rewrite list_elem_of_filter, elem_of_app, list_elem_of_singleton. destruct (decide (q = p)) as [->|Hn]; [auto|].
    destruct (sk_kept0 q Hq) as [H|[H|H]]; auto.
Qed.

(** One child is waited for. *)
Lemma reap_inv s z zs : skel_inv s -> zombies s = z :: zs ->
  skel_inv (reap (mkSkel (status_ s) (autoReboot_ s) (dropPid_ s) (timers s) (modules_ s) (exited s) (alive s) zs (used s)) z).
Proof.
  intros [] Hz. rewrite Hz in *. cbn [fmap list_fmap] in *. apply NoDup_cons in sk_once0 as [Hzn Hnd].
  unfold reap. cbn [dropPid_ autoReboot_ status_ modules_ timers alive zombies used exited].
  case_bool_decide as Hd.
  - split; cbn [dropPid_ autoReboot_ status_ modules_ timers alive zombies used exited]; try done.
    + intros p Hp. destruct (sk_zombies0 p ltac:(set_solver)) as [H|H]; [by left|]. right. apply erase_pid_keep; [|done]. intros <-. done.
    + intros p Hp Hz'. apply (sk_apart0 p Hp). set_solver.
    + intros p Hp Hd'. apply (sk_drop0 p Hp). by eapply erase_pid_sub.
    + intros p Hp. destruct (sk_kept0 p Hp) as [H|[H|H]]; [by left| |by right; right]. right; left.
      apply elem_of_cons in H as [->|H]; [|done]. by destruct (sk_drop0 _ Hp).
    + intros p [Hp|Hp]; [apply sk_used0; by left|]. apply sk_used0. right. by eapply erase_pid_sub.
  - assert (forall (st : skel_status) n, (st = SUSPENDING -> (0 < n)%nat) -> (autoReboot_ s = true -> (0 < n)%nat) ->
      skel_inv (mkSkel st (autoReboot_ s) (dropPid_ s) n (modules_ s) (exited s) (alive s) zs (used s))) as Hgen.
    { intros st n Hst Hn. split; cbn [dropPid_ autoReboot_ status_ modules_ timers alive zombies used exited]; try done.
      - intros p Hp. apply sk_zombies0. set_solver.
      - intros p Hp Hz'. apply (sk_apart0 p Hp). set_solver.
      - intros p Hp. right; right. exact Hn. }
    destruct (autoReboot_ s) eqn:Ea; cbn [andb]; [|by apply Hgen].
    case_bool_decide as Es; cbn [negb]; [apply Hgen; auto|]. apply Hgen; lia.
Qed.

Lemma wait_inv zs : forall s, skel_inv s -> zombies s = zs -> skel_inv (wait_loop zs s) /\ zombies (wait_loop zs s) = []
  /\ modules_ (wait_loop zs s) = modules_ s /\ alive (wait_loop zs s) = alive s.
Proof.
  induction zs as [|z zs IH]; intros s Hs Hz; [done|]. cbn [wait_loop]. pose proof (reap_inv s z zs Hs Hz) as Hr.
  set (s1 := mkSkel _ _ _ _ _ _ _ zs _) in *. assert (zombies (reap s1 z) = zs /\ modules_ (reap s1 z) = modules_ s /\ alive (reap s1 z) = alive s) as (E1 & E2 & E3).
  { unfold reap, s1. by destruct (bool_decide _); [|destruct (_ && _)]. }
  destruct (IH (reap s1 z) Hr E1) as (H1 & H2 & H3 & H4). by rewrite H3, H4.
Qed.

(** All workers are dropped and killed. *)
Record dropped (s s' : Skel) (ps : list nat) : Prop := {
  dr_drop : forall p, p ∈ dropPid_ s' <-> p ∈ dropPid_ s \/ p ∈ ps;
  dr_alive : forall p, p ∈ alive s' <-> p ∈ alive s /\ p ∉ ps;
  dr_zombies : forall p, p ∈ (zombies s').*1 <-> p ∈ (zombies s).*1 \/ (p ∈ alive s /\ p ∈ ps);
  dr_once : NoDup (zombies s).*1 -> (forall p, p ∈ alive s -> p ∉ (zombies s).*1) -> NoDup (zombies s').*1;
  dr_same : timers s' = timers s /\ autoReboot_ s' = autoReboot_ s /\ used s' = used s /\ exited s' = exited s;
}.

Lemma drop_one s p : dropped s (drop_kill s p) [p].
Proof.
  unfold drop_kill, kill. cbn [alive]. case_bool_decide as Ha; split; cbn [dropPid_ alive zombies timers autoReboot_ used exited]; try done;
    try (intros q; rewrite ?fmap_app, ?elem_of_app, ?list_elem_of_filter, ?list_elem_of_singleton; cbn; rewrite ?list_elem_of_singleton).
  - done.
  - tauto.
  - split; [intros [?| ->]|intros [?|[? ->]]]; auto.
  - intros Hap. apply NoDup_app. split_and!; [done| |apply NoDup_singleton].
    intros x Hx. rewrite list_elem_of_singleton. intros ->. by apply (Hap p).
  - done.
  - split; [intros Hq; split; [done|intros ->; done]|by intros [? _]].
  - split; [by left|intros [?|[? ->]]; done].
Qed.

Lemma dropped_app s s1 s2 ps qs : dropped s s1 ps -> dropped s1 s2 qs -> dropped s s2 (ps ++ qs).
Proof.
  intros [A1 A2 A3 A4 A5] [B1 B2 B3 B4 B5]. split.
  - intros p. rewrite B1, A1, elem_of_app. tauto.
  - intros p. rewrite B2, A2, elem_of_app. tauto.
  - intros p. rewrite B3, A3, A2, elem_of_app. destruct (decide (p ∈ ps)); tauto.
  - intros Hnd Hap. apply B4; [by apply A4|]. intros p. rewrite A2, A3. intros [H1 H2] [H3|[_ H3]]; [by apply (Hap p)|done].
  - destruct A5 as (? & ? & ? & ?), B5 as (? & ? & ? & ?). split_and!; congruence.
Qed.

Lemma drop_all ps : forall s, dropped s (foldl drop_kill s ps) ps.
Proof.
  induction ps as [|p ps IH]; intros s; cbn [foldl].
  - split; try done; intros q; rewrite ?elem_of_nil; tauto.
  - apply (dropped_app s (drop_kill s p) _ [p] ps); [apply drop_one|apply IH].
Qed.

Lemma workers_run ps : forall s, foldM WorkerRun s (map Some ps) = Ok (mkSkel (status_ s) (autoReboot_ s) (dropPid_ s) (timers s) (modules_ s ++ ps)
  (exited s) (alive s ++ ps) (zombies s) (used s ++ ps)).
Proof.
  induction ps as [|p ps IH]; intros s; cbn [map foldM].
  - rewrite !app_nil_r. by destruct s.
  - cbn [WorkerRun mbind outcome_bind]. rewrite IH. cbn [status_ autoReboot_ dropPid_ timers modules_ exited alive zombies used]. by rewrite <- !app_assoc.
Qed.

Lemma start_workers_eq u ms ps s : ms <> [] -> Forall module_ok ms -> length ps = length ms -> forks_as u ps ->
  start_workers u (join [Byte.x3b] (module_text <$> ms)) s =
    Ok (mkSkel (status_ s) (autoReboot_ s) (dropPid_ s) (timers s) (modules_ s ++ ps) (exited s) (alive s ++ ps) (zombies s) (used s ++ ps)).
Proof.
  intros Hne Hok Hl Hf. unfold start_workers. rewrite split_modules, length_fmap, <- Hl by done. rewrite Hf. apply workers_run.
Qed.

(** A reload that finds its modules: every module has a new live worker. *)
Lemma reload_inv s n u ms ps : skel_inv s -> reload_ok s u ms ps -> forallb (fun m => loads (su_dl u m.1)) ms = true ->
  exists s', ReloadHandle u (set_timers n s) = Ok s' /\ skel_inv s' /\ modules_ s' = ps /\ alive s' = ps /\ exited s' = exited s.
Proof.
  intros [] (Hne & Hmod & Hlen & Hconf & Hforks) Hload. destruct (Hforks Hload) as (Hf & Hnd & Hfresh).
  unfold ReloadHandle. rewrite Hconf. cbn [mbind outcome_bind]. rewrite CheckModules_exact, Hload by done.
  cbn [mbind outcome_bind Z.ltb Z.compare negb]. cbn [set_status set_timers modules_].
  pose proof (drop_all (modules_ s) (set_status SUSPENDING (set_timers n s))) as Hdr.
  set (s1 := foldl drop_kill (set_status SUSPENDING (set_timers n s)) (modules_ s)) in *. destruct Hdr as [A1 A2 A3 A4 (A5 & A6 & A7 & A8)].
  assert (alive s1 = []) as Halive.
  { apply elem_of_nil_inv. intros p. rewrite A2. cbn. intros [Hp Hn]. apply Hn. by apply sk_alive0. }
  rewrite (start_workers_eq u ms ps) by done. cbn [mbind outcome_bind]. eexists. split; [done|].
  cbn [set_status status_ autoReboot_ dropPid_ timers modules_ exited alive zombies used app]. rewrite Halive. cbn [app]. split; [|done].
  assert (forall p, p ∈ dropPid_ s1 -> p ∈ used s) as Hdu by (intros p; rewrite A1; cbn; intros [H|H]; apply sk_used0; auto).
  split; cbn [set_status status_ autoReboot_ dropPid_ timers modules_ exited alive zombies used]; try done.
  - intros p Hp. rewrite A3 in Hp. cbn in Hp. right. rewrite A1. cbn. destruct Hp as [Hp|[_ Hp]]; [destruct (sk_zombies0 p Hp); auto|auto].
  - by apply A4.
  - intros p Hp Hz. rewrite A3 in Hz. cbn in Hz. apply (Hfresh p Hp). destruct Hz as [Hz|[_ Hz]]; apply sk_used0; [destruct (sk_zombies0 p Hz); auto|auto].
  - intros p Hp Hd. by apply (Hfresh p Hp), Hdu.
  - intros p Hp. by left.
  - rewrite A7. intros p. rewrite elem_of_app. cbn. intros [Hp|Hp]; [by right|left; by apply Hdu].
Qed.

(** Whatever is not a reload that fails, and not the end, keeps the invariant. *)
Lemma skel_step_inv s e : skel_inv s -> exited s = false -> event_ok s e ->
  exists s', skel_step s e = Ok s' /\ (exited s' = true \/ (exited s' = false /\ skel_inv s')).
Proof.
  intros Hs Hex Hok. unfold skel_step. rewrite Hex.
  assert (forall n u, event_ok s (EHup u) ->
    exists s', ReloadHandle u (set_timers n s) = Ok s' /\ (exited s' = true \/ (exited s' = false /\ skel_inv s'))) as Hreload.
  { intros n u (ms & ps & Hr). destruct (forallb (fun m => loads (su_dl u m.1)) ms) eqn:El.
    - destruct (reload_inv s n u ms ps Hs Hr El) as (s' & H1 & H2 & _ & _ & H5). exists s'. split; [done|]. right. split; [congruence|done].
    - destruct Hr as (Hne & Hmod & _ & Hconf & _). unfold ReloadHandle. rewrite Hconf. cbn [mbind outcome_bind].
      rewrite CheckModules_exact, El by done. eexists. split; [reflexivity|by left]. }
  destruct e as [p st| |u|u|].
  - eexists. split; [done|]. right. case_bool_decide as Ha; [|done]. split; [done|]. rewrite <- Hex. by apply dies_inv.
  - eexists. split; [done|]. right. destruct (wait_inv (zombies s) s Hs eq_refl) as (H1 & _). split; [|done].
    unfold WaitChildren. clear -Hex. generalize (zombies s). intros zs. revert s Hex. induction zs as [|z zs IH]; intros s Hex; [done|]. cbn [wait_loop]. apply IH.
    unfold reap. by destruct (bool_decide _); [|destruct (_ && _)].
  - destruct (timers s) as [|n] eqn:En; [eexists; split; [done|by right]|]. by apply Hreload.
  - destruct (Hreload (timers s) u Hok) as (s' & H1 & H2). exists s'. split; [|done]. rewrite <- H1. by destruct s.
  - eexists. split; [done|]. by left.
Qed.

Lemma exited_stays s es : exited s = true -> skel_run s es = Ok s.
Proof.
  intros Hx. assert (forall e, skel_step s e = Ok s) as Hstep by (intros e; unfold skel_step; by rewrite Hx).
  unfold skel_run. induction es as [|e es IH]; [done|]. cbn [foldM]. rewrite Hstep. exact IH.
Qed.

Lemma skel_run_inv es : forall s, skel_inv s -> exited s = false -> events_ok s es ->
  exists s', skel_run s es = Ok s' /\ (exited s' = true \/ skel_inv s').
Proof.
  induction es as [|e es IH]; intros s Hs Hex Hok; [exists s; auto|]. cbn [events_ok] in Hok. destruct Hok as [He Hok].
  destruct (skel_step_inv s e Hs Hex He) as (s1 & H1 & [Hx|[Hx Hs1]]); rewrite H1 in Hok; unfold skel_run; cbn [foldM]; rewrite H1; cbn [mbind outcome_bind].
  - exists s1. split; [by apply exited_stays|by left].
  - by apply IH.
Qed.

Lemma master_start_inv b u ms ps : ms <> [] -> Forall module_ok ms -> length ps = length ms ->
  forallb (fun m => loads (su_dl u m.1)) ms = true -> forks_as u ps -> NoDup ps ->
  exists s, MasterRun u (join [Byte.x3b] (module_text <$> ms)) (Skel_ctor b) = Ok s /\ skel_inv s /\ exited s = false.
Proof.
  intros Hne Hmod Hlen Hload Hf Hnd. unfold MasterRun. rewrite CheckModules_exact, Hload by done.
  cbn [mbind outcome_bind Z.ltb Z.compare negb]. rewrite (start_workers_eq u ms ps) by done. eexists. split; [done|]. split; [|done].
  split; cbn; try done; [intros p Hp; set_solver|constructor|intros p Hp; set_solver|intros p Hp; set_solver|by left|intros p [Hp|Hp]; [done|set_solver]].
Qed.

(** C39: the master, started on a well-formed list of modules whose libraries
    load, and then driven by any sequence of deaths of workers, signals and
    timers: it does not fault, and as long as it runs, every live worker is
    one it lists, no worker is listed twice, none that it lists is marked as
    dropped, and every listed worker is alive or waits to be waited for, or,
    when [autoReboot_] is set, a restart is scheduled (without it a worker
    that died stays listed and nothing is promised); and a reload whose
    libraries load replaces the workers by one new live worker for each module
    of the configuration. Conditions ([events_ok]): every fork succeeds with a
    pid that was never used before ([stale_pid_hides_crash],
    [failed_fork_runs_on]), and on every reload the configuration has a list
    of modules and it is well formed ([reload_without_modules_faults]). *)
Theorem skel_supervises b u ms ps es s0 : ms <> [] -> Forall module_ok ms -> length ps = length ms ->
  forallb (fun m => loads (su_dl u m.1)) ms = true -> forks_as u ps -> NoDup ps ->
  MasterRun u (join [Byte.x3b] (module_text <$> ms)) (Skel_ctor b) = Ok s0 -> events_ok s0 es ->
  exists s, skel_run s0 es = Ok s /\ (exited s = true
    \/ ((forall p, p ∈ alive s -> p ∈ modules_ s) /\ NoDup (modules_ s) /\ (forall p, p ∈ modules_ s -> p ∉ dropPid_ s)
        /\ (forall p, p ∈ modules_ s -> p ∈ alive s \/ p ∈ (zombies s).*1 \/ (autoReboot_ s = true -> (0 < timers s)%nat))
        /\ forall u' ms' ps', reload_ok s u' ms' ps' -> forallb (fun m => loads (su_dl u' m.1)) ms' = true ->
             exists s', ReloadHandle u' s = Ok s' /\ modules_ s' = ps' /\ alive s' = ps' /\ length (modules_ s') = length ms')).
Proof.
  intros Hne Hmod Hlen Hload Hf Hnd Hm Hok. destruct (master_start_inv b u ms ps Hne Hmod Hlen Hload Hf Hnd) as (s1 & H1 & Hs1 & Hex).
  rewrite Hm in H1. injection H1 as <-.
  destruct (skel_run_inv es s0 Hs1 Hex Hok) as (s & Hr & H). exists s. split; [done|]. destruct H as [?|Hs]; [by left|right].
  split_and!; try apply Hs. intros u' ms' ps' Hr' Hl'. destruct (reload_inv s (timers s) u' ms' ps' Hs Hr' Hl') as (s' & E & _ & Em & Ea & _).
  exists s'. split; [by destruct s|]. split_and!; [done|done|]. rewrite Em. apply Hr'.
Qed.

(** *** Examples *)

Definition demo_conf : list byte := str "modules = /a.so:a.conf;/b.so:b.conf" ++ [newline].
Definition demo_modules : list (list byte * list byte) := [(str "/a.so", str "a.conf"); (str "/b.so", str "b.conf")].

(** All libraries load; the forks return these pids. *)
Definition demo_at (file : option (list byte)) (ps : list nat) : surroundings :=
  mkSurroundings (str "skel.conf") file 0 0 true (fun _ => mkLibrary true true true) (fun i => ps !! i).

Definition demo_start (ps : list nat) : outcome Skel :=
  MasterRun (demo_at (Some demo_conf) ps) (join [Byte.x3b] (module_text <$> demo_modules)) (Skel_ctor true).

Lemma demo_modules_ok : Forall module_ok demo_modules.
Proof. repeat constructor; cbn; try done; refine (bool_decide_unpack _ _); vm_compute; exact I. Qed.

(** Two workers; the first crashes, the timer restarts both. *)
Lemma skel_supervises_witness : exists s0 s, demo_start [10; 11]%nat = Ok s0
  /\ skel_run s0 [EDies 10 (Signaled 11); EChld; ETimer (demo_at (Some demo_conf) [12; 13]%nat); EChld] = Ok s
  /\ NoDup (modules_ s) /\ modules_ s = [12; 13]%nat.
Proof.
  eexists _, _. split; [vm_compute; reflexivity|]. split; [vm_compute; reflexivity|]. split; [|reflexivity].
  edestruct (skel_supervises true (demo_at (Some demo_conf) [10; 11]%nat) demo_modules [10; 11]%nat
    [EDies 10 (Signaled 11); EChld; ETimer (demo_at (Some demo_conf) [12; 13]%nat); EChld]) as (s & Hr & H).
  - discriminate.
  - exact demo_modules_ok.
  - reflexivity.
  - reflexivity.
  - reflexivity.
  - refine (bool_decide_unpack _ _). vm_compute. exact I.
  - vm_compute. reflexivity.
  - split; [exact I|]. vm_compute (skel_step _ _). split; [exact I|]. vm_compute (skel_step _ _). split; [|vm_compute (skel_step _ _); by split].
    exists demo_modules, [12; 13]%nat. split; [discriminate|]. split; [exact demo_modules_ok|]. split; [reflexivity|]. split; [vm_compute; reflexivity|].
    intros _. split; [reflexivity|]. split; [refine (bool_decide_unpack _ _); vm_compute; exact I|].
    intros p Hp. change (used _) with [10; 11]%nat. set_solver.
  - vm_compute in Hr. injection Hr as <-. destruct H as [H|(_ & H & _)]; [discriminate|exact H].
Defined.

(** A worker that crashed and was waited for is dropped again by the restart,
    and its pid stays in [dropPid_]: when a later worker gets that pid, its
    crash is taken for one the master asked for and is not followed by a
    restart. *)
Lemma stale_pid_hides_crash : exists s0 s, demo_start [10; 11]%nat = Ok s0
  /\ skel_run s0 [EDies 10 (Signaled 11); EChld; ETimer (demo_at (Some demo_conf) [12; 13]%nat);
                  EHup (demo_at (Some demo_conf) [10; 14]%nat); EChld; EDies 10 (Signaled 11); EChld] = Ok s
  /\ modules_ s = [10; 14]%nat /\ alive s = [14]%nat /\ zombies s = [] /\ timers s = 0%nat.
Proof. eexists _, _. split; [vm_compute; reflexivity|]. split; [vm_compute; reflexivity|]. split_and!; reflexivity. Qed.

(** A failed fork: the master goes on into the code of the worker, loads the
    module and runs it; it no longer supervises. *)
Lemma failed_fork_runs_on : demo_start [10]%nat = Fail Fatal.
Proof. vm_compute. reflexivity. Qed.

(** A SIGHUP when the configuration has no list of modules, or is not there. *)
Lemma reload_without_modules_faults : exists s0, demo_start [10; 11]%nat = Ok s0
  /\ skel_run s0 [EHup (demo_at (Some (str "autoreboot = 1" ++ [newline])) [12; 13]%nat)] = Fail NullPointer
  /\ skel_run s0 [EHup (demo_at None [12; 13]%nat)] = Fail NullPointer.
Proof. eexists. split; [vm_compute; reflexivity|]. split; vm_compute; reflexivity. Qed.

(** ** Commands *)

Module Command.

(** [fgets(buf, n, f)]: up to a newline, which is kept. *)
Fixpoint fgets (n : nat) (t : list byte) : list byte :=
  match n, t with
  | S n', c :: t' => if byte_eqb c newline then [c] else c :: fgets n' t'
  | _, _ => []
  end.

Definition slash : byte := Byte.x2f.

(** [GetProcessNameById], with what the command printed ([None]: [popen]
    failed, and its null result is closed). *)
Definition GetProcessNameById (link : option (list byte)) : outcome (list byte) :=
  match link with
  | None => Fail NullPointer
  | Some text =>
      let pathName := fgets 511 text in
      let name := match str_rfind [slash] pathName with Some pos => drop (S pos) pathName | None => pathName end in
      if zlen name <? 256 then Ok name else Fail OutOfBounds
  end.

(** [input >> pid]: [None] leaves the variable as it was. *)
Definition extract_int (t : list byte) : option Z :=
  let digits := match skip_space t with
                | c :: t' => leading_digits (if byte_eqb c Byte.x2d || byte_eqb c Byte.x2b then t' else c :: t')
                | [] => []
                end in
  if bool_decide (digits = []) then None
  else if (- 2 ^ 31 <=? atol t) && (atol t <? 2 ^ 31) then Some (atol t) else None.

(** The pid file, which processes exist, and their executables. *)
Record host : Type := mkHost { pid_file : option (list byte); proc : Z -> bool; exe : Z -> option (list byte) }.

(** [Status]: whether a master is alive, and [pid], which starts as [garbage]. *)
Definition Status (h : host) (garbage : Z) : outcome (bool * Z) :=
  match pid_file h with
  | None => Ok (false, garbage)
  | Some text =>
      let pid := default garbage (extract_int text) in
      if proc h pid then
        name ← GetProcessNameById (exe h pid);
        match str_find (str "skel") name 0 with
        | Some _ => Ok (true, pid)
        | None => Ok (false, pid)
        end
      else Ok (false, pid)
  end.

Definition SIGHUP : Z := 1.
Definition SIGTERM : Z := 15.

(** [Reload] and [Kill]: the signal sent, if any. *)
Definition signal_master (sig : Z) (h : host) (garbage : Z) : outcome (option (Z * Z)) :=
  '(alive, pid) ← Status h garbage;
  Ok (if alive : bool then Some (pid, sig) else None).
Definition Reload : host -> Z -> outcome (option (Z * Z)) := signal_master SIGHUP.
Definition Kill : host -> Z -> outcome (option (Z * Z)) := signal_master SIGTERM.

(** What [DaemonRun] leaves in the pid file. *)
Definition DaemonRun (pid : Z) (h : host) : host := mkHost (Some (fmt_d pid)) (proc h) (exe h).

(** *** Finding the master *)

Lemma extract_pid pid : 0 <= pid < 2 ^ 31 -> extract_int (fmt_d pid) = Some pid.
Proof.
  intros H. unfold extract_int. rewrite atol_fmt_d by lia. unfold fmt_d. destruct (Z.ltb_spec pid 0); [lia|].
  pose proof (fmt_u_digits pid ltac:(lia)) as Hd. pose proof (fmt_u_nonempty pid) as Hne. destruct (fmt_u pid) as [|b u]; [cbn in Hne; lia|].
  inversion Hd as [|? ? Hb Hs]; subst. destruct (digit_not_space b Hb) as (E1 & E2 & E3). cbn [skip_space]. rewrite E1, E2, E3. cbn [orb leading_digits]. rewrite Hb.
  rewrite bool_decide_eq_false_2 by done. by rewrite (proj2 (Z.leb_le _ _)), (proj2 (Z.ltb_lt _ _)) by lia.
Qed.

Lemma fgets_line n t u : newline ∉ t -> (length t < n)%nat -> fgets n (t ++ newline :: u) = t ++ [newline].
Proof.
  revert n. induction t as [|c t IH]; intros n Hn Hl; (destruct n as [|n]; [cbn in Hl; lia|]); cbn; [done|].
  destruct (byte_eqb c newline) eqn:E; [apply byte_eqb_eq in E; set_solver|]. f_equal. apply IH; [set_solver|cbn in Hl; lia].
Qed.

(** A master that runs as [skel] in some directory and wrote its pid is found
    by its commands, and gets their signals. *)
Lemma master_found pid dir h garbage sig : 0 <= pid < 2 ^ 31 -> proc h pid = true ->
  exe h pid = Some (dir ++ str "/skel" ++ [newline]) -> newline ∉ dir -> (length dir < 505)%nat ->
  Status (DaemonRun pid h) garbage = Ok (true, pid) /\ signal_master sig (DaemonRun pid h) garbage = Ok (Some (pid, sig)).
Proof.
  intros Hp Hproc Hexe Hd Hl. assert (Status (DaemonRun pid h) garbage = Ok (true, pid)) as H; [|split; [done|]; unfold signal_master; by rewrite H].
  unfold Status, DaemonRun. cbn [pid_file proc exe]. rewrite extract_pid by done. cbn. rewrite Hproc, Hexe. unfold GetProcessNameById.
  assert (newline ∉ str "/skel") as Hs by (refine (bool_decide_unpack _ _); vm_compute; exact I).
  assert (fgets 511 (dir ++ str "/skel" ++ [newline]) = dir ++ slash :: str "skel" ++ [newline]) as ->.
  { rewrite app_assoc, fgets_line; [by rewrite <- app_assoc|rewrite elem_of_app; tauto|rewrite length_app; cbn; lia]. }
  rewrite rfind_char by (refine (bool_decide_unpack _ _); vm_compute; exact I).
  replace (S (length dir)) with (length (dir ++ [slash])) by (rewrite length_app; cbn; lia).
  change (dir ++ slash :: str "skel" ++ [newline]) with (dir ++ [slash] ++ str "skel" ++ [newline]). rewrite app_assoc, drop_app_length. reflexivity.
Qed.

(** No pid file, or a process that is gone: no signal is sent. *)
Lemma master_gone h garbage sig : pid_file h = None \/ (exists pid, 0 <= pid < 2 ^ 31 /\ pid_file h = Some (fmt_d pid) /\ proc h pid = false) ->
  signal_master sig h garbage = Ok None.
Proof.
  unfold signal_master, Status. intros [->|(pid & Hp & -> & Hg)]; [done|]. rewrite extract_pid by done. cbn. by rewrite Hg.
Qed.

(** The copy of the last part of the path overflows the buffer of 256 bytes for
    a file name of 255. *)
Lemma long_name_overflows : exists name, length name = 255%nat /\ GetProcessNameById (Some (str "/" ++ name ++ [newline])) = Fail OutOfBounds.
Proof. exists (replicate 255 Byte.x61). split; vm_compute; reflexivity. Qed.

End Command.
