(* ===== verification/ZlibStream.v ===== *)
(** * Compression into a buffer: src/mynetlib/net/ZlibStream.h

    [ZlibOutputStream] feeds strings to zlib's [deflate] and appends what it
    produces to a [Buffer], whose tail [deflate] writes directly. zlib is the
    class [Deflate]; [DeflateLaws] states what its manual says. The members of
    [ZlibInputStream] are declared and never defined. *)

From S2P Require Import Prelude Buffer.

Definition Z_NO_FLUSH : Z := 0.
Definition Z_FINISH : Z := 4.
Definition Z_OK : Z := 0.
Definition Z_STREAM_END : Z := 1.

(** ** zlib *)

(** One call of [deflate]: how many input bytes it took, what it wrote, and
    what it returned. *)
Record deflated (zst : Type) : Type := mkDeflated { d_st : zst; d_in : nat; d_out : list byte; d_code : Z }.
Arguments mkDeflated {_} _ _ _ _.
Arguments d_st {_} _.
Arguments d_in {_} _.
Arguments d_out {_} _.
Arguments d_code {_} _.

(** [deflate st flush input avail_out]. *)
Class Deflate : Type := {
  zst : Type;
  zst_init : zst;
  deflate : zst -> Z -> list byte -> Z -> deflated zst;
  deflateEnd : zst -> Z;
}.

(** [zin] and [zout] are what a stream has taken and produced, [inflate] the
    decompression of a whole stream. *)
Class DeflateLaws (D : Deflate) : Type := {
  zin : zst -> list byte;
  zout : zst -> list byte;
  (** Before the first [Z_FINISH]; then, with what is left of the input. *)
  zrun : zst -> Prop;
  zfin : zst -> list byte -> Prop;
  inflate : list byte -> option (list byte);
  (** What is left to do, given the input that is available. *)
  work : zst -> nat -> nat;
  out_bound : Z -> Z;
  z_init : zrun zst_init /\ zin zst_init = [] /\ zout zst_init = [];
  z_mono : forall n m, n <= m -> out_bound n <= out_bound m;
  z_bound : forall st, zrun st -> zlen (zout st) <= out_bound (zlen (zin st));
  (** It takes a prefix of the input, and writes at most what fits. *)
  z_io : forall st fl input avail, zrun st \/ (fl = Z_FINISH /\ zfin st input) -> 0 < avail ->
    let d := deflate st fl input avail in
    (d_in d <= length input)%nat /\ zlen (d_out d) <= avail
    /\ zin (d_st d) = zin st ++ take (d_in d) input /\ zout (d_st d) = zout st ++ d_out d
    /\ zlen (zout (d_st d)) <= out_bound (zlen (zin (d_st d)));
  (** With room and something to do it makes progress. *)
  z_no_flush : forall st input avail, zrun st -> 0 < avail -> input <> [] ->
    let d := deflate st Z_NO_FLUSH input avail in
    d_code d = Z_OK /\ zrun (d_st d) /\ (work (d_st d) (length input - d_in d) < work st (length input))%nat;
  (** Finishing ends in a complete stream for all of the input. *)
  z_finish : forall st input avail, zrun st \/ zfin st input -> 0 < avail ->
    let d := deflate st Z_FINISH input avail in
    (d_code d = Z_OK /\ zfin (d_st d) (drop (d_in d) input) /\ (work (d_st d) (length input - d_in d) < work st (length input))%nat)
    \/ (d_code d = Z_STREAM_END /\ d_in d = length input /\ inflate (zout (d_st d)) = Some (zin (d_st d)) /\ deflateEnd (d_st d) = Z_OK);
}.

(** ** The stream *)

Section Stream.
Context {D : Deflate}.

(** [zstream_] is [z], [next_in] with the bytes it leads to ([avail_in] is
    their number), and the output position, which each call sets anew. *)
Record ZlibOutputStream : Type := mkZlib {
  output_ : Buffer;
  z : zst;
  next_in : option (list byte);
  zerror_ : Z;
  bufferSize_ : Z;
}.

Definition avail_in (s : ZlibOutputStream) : list byte := default [] (next_in s).

(** [init_code] is what [deflateInit] returned. *)
Definition ZlibOutputStream_ctor (output : Buffer) (init_code : Z) : ZlibOutputStream :=
  mkZlib output zst_init None init_code 1024.

Definition compress (flush : Z) (s : ZlibOutputStream) : outcome (Z * ZlibOutputStream) :=
  b ← ensureWritableBytes (output_ s) (bufferSize_ s);
  let avail_out := u32 (writableBytes b) in
  let d := deflate (z s) flush (avail_in s) avail_out in
  vec ← copy_into (buffer_ b) (beginWrite b) (d_out d);
  let b := mkBuffer vec (readerIndex_ b) (writerIndex_ b) in
  b ← hasWritten b (u64 (writableBytes b - (avail_out - zlen (d_out d))));
  let size := if (writableBytes b =? 0) && (bufferSize_ s <? 65536) then bufferSize_ s * 2 else bufferSize_ s in
  Ok (d_code d, mkZlib b (d_st d) (drop (d_in d) <$> next_in s) (zerror_ s) size).

Definition set_zerror (e : Z) (s : ZlibOutputStream) : ZlibOutputStream :=
  mkZlib (output_ s) (z s) (next_in s) e (bufferSize_ s).
Definition set_next_in (p : option (list byte)) (s : ZlibOutputStream) : ZlibOutputStream :=
  mkZlib (output_ s) (z s) p (zerror_ s) (bufferSize_ s).

(** The loop of [write]; [None] is out of fuel. *)
Fixpoint write_loop (fuel : nat) (s : ZlibOutputStream) : option (outcome ZlibOutputStream) :=
  if (0 <? zlen (avail_in s)) && (zerror_ s =? Z_OK) then
    match fuel with
    | O => None
    | S fuel' =>
        match compress Z_NO_FLUSH s with
        | Ok (e, s') => write_loop fuel' (set_zerror e s')
        | Fail f => Some (Fail f)
        end
    end
  else Some (Ok s).

(** [write(StringPiece)]. The assertion that [next_in] ended at the end of the
    string is what [avail_in] being 0 means here. *)
Definition write (fuel : nat) (str : list byte) (s : ZlibOutputStream) : option (outcome (bool * ZlibOutputStream)) :=
  if negb (zerror_ s =? Z_OK) then Some (Ok (false, s))
  else if negb (bool_decide (next_in s = None)) then Some (Fail AssertFail)
  else
    match write_loop fuel (set_next_in (Some str) s) with
    | None => None
    | Some (Fail f) => Some (Fail f)
    | Some (Ok s') =>
        let s' := if zlen (avail_in s') =? 0 then set_next_in None s' else s' in
        Some (Ok (zerror_ s' =? Z_OK, s'))
    end.

(** [write] of a buffer, with an input that is another buffer than the output. *)
Definition write_buffer (input : Buffer) (s : ZlibOutputStream) : outcome (bool * Buffer * ZlibOutputStream) :=
  if negb (zerror_ s =? Z_OK) then Ok (false, input, s)
  else
    let s := set_next_in (Some (take (Z.to_nat (u32 (readableBytes input))) (readable input))) s in
    s ← (if (0 <? zlen (avail_in s)) && (zerror_ s =? Z_OK) then '(e, s') ← compress Z_NO_FLUSH s; Ok (set_zerror e s')
         else Ok s);
    input ← retrieve input (u64 (readableBytes input - zlen (avail_in s)));
    Ok (zerror_ s =? Z_OK, input, s).

Fixpoint finish_loop (fuel : nat) (s : ZlibOutputStream) : option (outcome ZlibOutputStream) :=
  if zerror_ s =? Z_OK then
    match fuel with
    | O => None
    | S fuel' =>
        match compress Z_FINISH s with
        | Ok (e, s') => finish_loop fuel' (set_zerror e s')
        | Fail f => Some (Fail f)
        end
    end
  else Some (Ok s).

Definition finish (fuel : nat) (s : ZlibOutputStream) : option (outcome (bool * ZlibOutputStream)) :=
  if negb (zerror_ s =? Z_OK) then Some (Ok (false, s))
  else
    match finish_loop fuel s with
    | None => None
    | Some (Fail f) => Some (Fail f)
    | Some (Ok s') => Some (Ok (deflateEnd (z s') =? Z_OK, set_zerror Z_STREAM_END s'))
    end.

(** A client that writes strings and finishes; the answers of the calls. *)
Fixpoint write_all (fuel : nat) (strs : list (list byte)) (s : ZlibOutputStream) : option (outcome (list bool * ZlibOutputStream)) :=
  match strs with
  | [] =>
      match finish fuel s with
      | Some (Ok (r, s')) => Some (Ok ([r], s'))
      | Some (Fail f) => Some (Fail f)
      | None => None
      end
  | str :: strs' =>
      match write fuel str s with
      | Some (Ok (r, s')) =>
          match write_all fuel strs' s' with
          | Some (Ok (rs, s'')) => Some (Ok (r :: rs, s''))
          | o => o
          end
      | Some (Fail f) => Some (Fail f)
      | None => None
      end
  end.
End Stream.

(** ** What a compressed stream holds

    For every zlib that satisfies [DeflateLaws]: the strings written and
    finished come out as one complete compressed stream behind what the buffer
    held. The codec at the end satisfies the laws. *)

(** Making room never moves the content towards the end. *)
Lemma makeSpace_reader b len b' : makeSpace b len = Ok b' -> readerIndex_ b' <= readerIndex_ b.
Proof.
  unfold makeSpace. destruct (_ <? _).
  - destruct (vec_resize _ _ _); cbn [mbind outcome_bind]; [|done]. by intros [= <-].
  - unfold c_assert. destruct (Z.ltb_spec kCheapPrepend (readerIndex_ b)); cbn [mbind outcome_bind]; [|done].
    destruct (copy_into _ _ _); cbn [mbind outcome_bind]; [|done]. destruct (_ =? _); cbn [mbind outcome_bind]; [|done].
    intros [= <-]. cbn [readerIndex_]. lia.
Qed.

Lemma ensureWritable_reader b len b' : ensureWritableBytes b len = Ok b' -> readerIndex_ b' <= readerIndex_ b.
Proof.
  unfold ensureWritableBytes. destruct (_ <? _).
  - destruct (makeSpace b len) as [b1|] eqn:E; cbn [mbind outcome_bind]; [|done]. unfold c_assert.
    destruct (_ <=? _); cbn [mbind outcome_bind]; [|done]. intros [= <-]. by eapply makeSpace_reader.
  - cbn [mbind outcome_bind]. unfold c_assert. destruct (_ <=? _); cbn [mbind outcome_bind]; [|done]. by intros [= <-].
Qed.

Lemma take_app_drop {A} (l c : list A) n : (l ++ take n c) ++ drop n c = l ++ c.
Proof. by rewrite <- app_assoc, take_drop. Qed.

Section Stream.
Context {D : Deflate} {L : DeflateLaws D}.
(** What the buffer held, where its content starts at most, and the most that
    is written to the stream. *)
Variables (pre : list byte) (r0 total : Z).
Hypothesis Hroom : r0 + zlen pre + out_bound total + 65536 < 2 ^ 32.

Record zs_inv (s : ZlibOutputStream) : Prop := {
  zi_wf : wf (output_ s);
  zi_reader : readerIndex_ (output_ s) <= r0;
  zi_cap : zlen (buffer_ (output_ s)) < 2 ^ 32;
  zi_out : readable (output_ s) = pre ++ zout (z s);
  zi_bound : zlen (zout (z s)) <= out_bound (zlen (zin (z s)));
  zi_size : exists k, 0 <= k <= 6 /\ bufferSize_ s = 1024 * 2 ^ k;
}.

Lemma size_range k : 0 <= k <= 6 -> 1024 <= 1024 * 2 ^ k <= 65536 /\ (1024 * 2 ^ k < 65536 -> k < 6).
Proof.
  intros Hk. assert (2 ^ 0 <= 2 ^ k <= 2 ^ 6) as H by (split; apply Z.pow_le_mono_r; lia). split; [lia|].
  intros Hlt. destruct (decide (k = 6)) as [->|]; lia.
Qed.

Lemma avail_in_drop n s b st e e' size : avail_in (set_zerror e' (mkZlib b st (drop n <$> next_in s) e size)) = drop n (avail_in s).
Proof. unfold avail_in. cbn [set_zerror next_in]. destruct (next_in s); [done|]. by destruct n. Qed.

(** One call of [deflate] through the buffer. *)
Lemma compress_ok fl s : zs_inv s -> zrun (z s) \/ (fl = Z_FINISH /\ zfin (z s) (avail_in s)) -> zlen (zin (z s)) + zlen (avail_in s) <= total ->
  exists avail b' size, 0 < avail /\ let d := deflate (z s) fl (avail_in s) avail in
    compress fl s = Ok (d_code d, mkZlib b' (d_st d) (drop (d_in d) <$> next_in s) (zerror_ s) size)
    /\ forall e p, zs_inv (mkZlib b' (d_st d) p e size).
Proof.
  intros [Hwf Hr Hc Ho Hb (k & Hk & Hs)] Hrun Htot. destruct (size_range k Hk) as [Hsz Hsz'].
  pose proof (zlen_nonneg (avail_in s)). assert (out_bound (zlen (zin (z s))) <= out_bound total) as Hm by (apply z_mono; lia).
  assert (writerIndex_ (output_ s) <= r0 + zlen pre + out_bound total) as Hwi.
  { pose proof (zlen_readable _ Hwf) as Hl. rewrite (readableBytes_wf _ Hwf), Ho, zlen_app in Hl. lia. }
  unfold compress. destruct (ensureWritableBytes_ok (output_ s) (bufferSize_ s)) as (b1 & E1 & Hwf1 & Hr1 & Hw1 & _ & Hl1);
    [done|lia|unfold max_size; lia|].
  pose proof (ensureWritable_reader _ _ _ E1) as Hrd. rewrite E1. cbn [mbind outcome_bind].
  pose proof (writableBytes_wf _ Hwf1) as Hw1'. unfold u32. rewrite Z.mod_small by (buf; lia).
  exists (writableBytes b1). set (d := deflate (z s) fl (avail_in s) (writableBytes b1)).
  destruct (z_io (z s) fl (avail_in s) (writableBytes b1) Hrun ltac:(lia)) as (Hin & Hout & Ezi & Ezo & Hbd). fold d in Hin, Hout, Ezi, Ezo, Hbd.
  destruct (write_tail_ok b1 (d_out d) Hwf1 Hout) as (vec & -> & Hw2 & Hh & Hwf2 & Hr2 & Hl2). cbn [mbind outcome_bind].
  pose proof (zlen_nonneg (d_out d)). rewrite Hw2. replace (writableBytes b1 - (writableBytes b1 - zlen (d_out d))) with (zlen (d_out d)) by lia.
  rewrite u64_small by (buf; lia). rewrite Hh. cbn [mbind outcome_bind].
  set (b2 := mkBuffer vec _ (_ + zlen (d_out d))) in *. eexists b2, _. split; [lia|]. split; [reflexivity|]. intros e p. split; cbn [output_ z bufferSize_]; try done.
  - cbn [b2 readerIndex_]. lia.
  - cbn [b2 buffer_]. lia.
  - by rewrite Hr2, Hr1, Ho, Ezo, app_assoc.
  - destruct (_ =? 0); cbn [andb]; [|by exists k]. destruct (Z.ltb_spec (bufferSize_ s) 65536); [|by exists k].
    exists (k + 1). rewrite Z.pow_add_r by lia. lia.
Qed.

(** A string is taken completely. *)
Lemma write_loop_ok fuel : forall s c, zs_inv s -> zrun (z s) -> zerror_ s = Z_OK -> is_Some (next_in s) ->
  zin (z s) ++ avail_in s = c -> zlen c <= total -> (work (z s) (length (avail_in s)) <= fuel)%nat ->
  exists s', write_loop fuel s = Some (Ok s') /\ zs_inv s' /\ zrun (z s') /\ zerror_ s' = Z_OK /\ avail_in s' = [] /\ zin (z s') = c.
Proof.
  induction fuel as [|fuel IH]; intros s c Hs Hrun He [l Hl] Hc Htot Hf; cbn [write_loop]; rewrite He, Z.eqb_refl, andb_true_r;
    (destruct (Z.ltb_spec 0 (zlen (avail_in s))) as [Hin|Hin];
     [|assert (avail_in s = []) as Hnil by (apply zlen_nil_iff; pose proof (zlen_nonneg (avail_in s)); lia);
       exists s; rewrite Hnil, app_nil_r in Hc; done]).
  - exfalso. destruct (z_no_flush (z s) (avail_in s) 1 Hrun ltac:(lia)) as (_ & _ & Hw); [intros E; by rewrite E in Hin|]. lia.
  - destruct (compress_ok Z_NO_FLUSH s Hs (or_introl Hrun)) as (avail & b' & size & Hav & -> & Hinv); [by rewrite <- zlen_app, Hc|].
    destruct (z_no_flush (z s) (avail_in s) avail Hrun Hav) as (Hok & Hrun' & Hw); [intros E; by rewrite E in Hin|].
    destruct (z_io (z s) Z_NO_FLUSH (avail_in s) avail (or_introl Hrun) Hav) as (_ & _ & Ezi & _ & _).
    set (d := deflate (z s) Z_NO_FLUSH (avail_in s) avail) in *. apply IH; cbn [set_zerror output_ z next_in zerror_ bufferSize_].
    + apply Hinv.
    + done.
    + done.
    + rewrite Hl. by eexists.
    + by rewrite avail_in_drop, Ezi, take_app_drop.
    + done.
    + rewrite avail_in_drop, length_drop. lia.
Qed.

(** Finishing produces the whole stream. *)
Lemma finish_loop_ok fuel : forall s c, zs_inv s -> zrun (z s) \/ zfin (z s) (avail_in s) -> zerror_ s = Z_OK ->
  zin (z s) ++ avail_in s = c -> zlen c <= total -> (work (z s) (length (avail_in s)) < fuel)%nat ->
  exists s', finish_loop fuel s = Some (Ok s') /\ zs_inv s' /\ zerror_ s' = Z_STREAM_END /\ zin (z s') = c
    /\ inflate (zout (z s')) = Some c /\ deflateEnd (z s') = Z_OK.
Proof.
  induction fuel as [|fuel IH]; intros s c Hs Hrun He Hc Htot Hf; [lia|]. cbn [finish_loop]. rewrite He, Z.eqb_refl.
  assert (zrun (z s) \/ (Z_FINISH = Z_FINISH /\ zfin (z s) (avail_in s))) as Hrun2 by tauto.
  destruct (compress_ok Z_FINISH s Hs Hrun2) as (avail & b' & size & Hav & -> & Hinv); [by rewrite <- zlen_app, Hc|].
  destruct (z_io (z s) Z_FINISH (avail_in s) avail Hrun2 Hav) as (_ & _ & Ezi & _ & _).
  destruct (z_finish (z s) (avail_in s) avail Hrun Hav) as [(Hok & Hrun' & Hw)|(Hend & Hall & Hinf & Hde)];
    set (d := deflate (z s) Z_FINISH (avail_in s) avail) in *.
  - apply IH; try done; [apply Hinv|right; by rewrite avail_in_drop| |rewrite avail_in_drop, length_drop; cbn [set_zerror z]; lia]. cbn [set_zerror z].
    by rewrite avail_in_drop, Ezi, take_app_drop.
  - assert (zin (d_st d) = c) as Hc' by (by rewrite Ezi, Hall, firstn_all).
    exists (set_zerror (d_code d) (mkZlib b' (d_st d) (drop (d_in d) <$> next_in s) (zerror_ s) size)).
    rewrite Hend. split; [by destruct fuel|]. split; [apply Hinv|]. cbn [set_zerror z zerror_]. by rewrite <- Hc' at 2.
Qed.

Definition fuel_enough (fuel : nat) : Prop := forall st n, zrun st -> zlen (zin st) + Z.of_nat n <= total -> (work st n < fuel)%nat.

Lemma zlib_write_ok fuel str s : fuel_enough fuel -> zs_inv s -> zrun (z s) -> zerror_ s = Z_OK -> next_in s = None -> zlen (zin (z s)) + zlen str <= total ->
  exists s', write fuel str s = Some (Ok (true, s')) /\ zs_inv s' /\ zrun (z s') /\ zerror_ s' = Z_OK /\ next_in s' = None /\ zin (z s') = zin (z s) ++ str.
Proof.
  intros Hf Hs Hrun He Hn Htot. unfold write. rewrite He, Z.eqb_refl, Hn. cbn [negb].
  rewrite bool_decide_true by done. cbn [negb].
  destruct (write_loop_ok fuel (set_next_in (Some str) s) (zin (z s) ++ str) ltac:(by destruct Hs)) as (s' & -> & Hs' & Hrun' & He' & Ha' & Hz'); try done.
  - by rewrite zlen_app.
  - apply Nat.lt_le_incl, Hf; [done|]. cbn. exact Htot.
  - rewrite Ha'. exists (set_next_in None s'). split; [change (zlen [] =? 0) with true; cbn [set_next_in zerror_]; by rewrite He'|].
    split; [by destruct Hs'|]. done.
Qed.

Lemma write_all_ok fuel strs : forall s, fuel_enough fuel -> zs_inv s -> zrun (z s) -> zerror_ s = Z_OK -> next_in s = None ->
  zlen (zin (z s)) + zlen (concat strs) <= total ->
  exists s', write_all fuel strs s = Some (Ok (replicate (S (length strs)) true, s')) /\ zs_inv s' /\ zerror_ s' = Z_STREAM_END
    /\ inflate (zout (z s')) = Some (zin (z s) ++ concat strs).
Proof.
  induction strs as [|str strs IH]; intros s Hf Hs Hrun He Hn Htot; cbn [write_all concat length] in *.
  - unfold finish. rewrite He, Z.eqb_refl. cbn [negb]. unfold zlen at 2 in Htot. cbn in Htot.
    destruct (finish_loop_ok fuel s (zin (z s)) Hs (or_introl Hrun) He) as (s' & -> & Hs' & He' & _ & Hinf & Hde); try done.
    + unfold avail_in. rewrite Hn. cbn. by rewrite app_nil_r.
    + lia.
    + apply Hf; [done|]. unfold avail_in. rewrite Hn. cbn. lia.
    + rewrite Hde, app_nil_r. eexists. split; [done|]. split; [by destruct Hs'|]. done.
  - rewrite zlen_app in Htot. pose proof (zlen_nonneg (concat strs)).
    destruct (zlib_write_ok fuel str s Hf Hs Hrun He Hn ltac:(lia)) as (s1 & -> & Hs1 & Hrun1 & He1 & Hn1 & Hz1).
    destruct (IH s1 Hf Hs1 Hrun1 He1 Hn1) as (s' & -> & Hs' & He' & Hinf); [rewrite Hz1, zlen_app; lia|].
    exists s'. split; [done|]. split; [done|]. split; [done|]. by rewrite Hinf, Hz1, <- app_assoc.
Qed.

(** Writing from a buffer takes a prefix of it and leaves the rest. *)
Lemma write_buffer_ok input s : zs_inv s -> zrun (z s) -> zerror_ s = Z_OK -> wf input -> readableBytes input < 2 ^ 32 ->
  zlen (zin (z s)) + zlen (readable input) <= total ->
  exists input' s' taken, write_buffer input s = Ok (true, input', s') /\ wf input' /\ readable input = taken ++ readable input'
    /\ zs_inv s' /\ zrun (z s') /\ zin (z s') = zin (z s) ++ taken /\ next_in s' = Some (readable input').
Proof.
  intros Hs Hrun He Hwf Hlt Htot. unfold write_buffer. rewrite He, Z.eqb_refl. cbn [negb].
  pose proof (zlen_readable _ Hwf) as Hlr. pose proof (readableBytes_wf _ Hwf) as Hrw.
  unfold u32. rewrite Z.mod_small by (buf; lia). rewrite take_ge by (unfold zlen in Hlr; lia).
  set (s0 := set_next_in (Some (readable input)) s). assert (zs_inv s0) as Hs0 by (by destruct Hs). assert (avail_in s0 = readable input) as Ha by done. assert (zerror_ s0 = Z_OK) as He0 by done.
  rewrite Ha, He0, Z.eqb_refl, andb_true_r. destruct (Z.ltb_spec 0 (zlen (readable input))) as [Hpos|Hpos].
  - destruct (compress_ok Z_NO_FLUSH s0 Hs0 (or_introl Hrun)) as (avail & b' & size & Hav & -> & Hinv); [by rewrite Ha|].
    destruct (z_no_flush (z s0) (avail_in s0) avail Hrun Hav) as (Hok & Hrun' & _); [intros E; rewrite <- Ha, E in Hpos; done|].
    destruct (z_io (z s0) Z_NO_FLUSH (avail_in s0) avail (or_introl Hrun) Hav) as (Hin & _ & Ezi & _ & _).
    set (d := deflate (z s0) Z_NO_FLUSH (avail_in s0) avail) in *. cbn [mbind outcome_bind]. rewrite avail_in_drop, Ha in *.
    assert (zlen (drop (d_in d) (readable input)) = zlen (readable input) - Z.of_nat (d_in d)) as Hd by (unfold zlen; rewrite length_drop; lia).
    rewrite Hd, <- Hlr. replace (_ - _) with (Z.of_nat (d_in d)) by lia. rewrite u64_small by (unfold zlen in *; lia).
    destruct (retrieve_ok input (Z.of_nat (d_in d)) Hwf) as (input' & -> & Hwf' & Hr' & _); [unfold zlen in *; lia|]. cbn [mbind outcome_bind].
    rewrite Nat2Z.id in Hr'. eexists input', _, _. cbn [set_zerror zerror_]. rewrite Hok. split; [done|]. split; [done|].
    split; [rewrite Hr'; by rewrite (take_drop (d_in d))|]. split; [apply Hinv|]. split; [done|]. split; [exact Ezi|]. cbn. by rewrite Hr'.
  - assert (readable input = []) as Hnil by (apply zlen_nil_iff; pose proof (zlen_nonneg (readable input)); lia).
    cbn [mbind outcome_bind]. rewrite Ha, <- Hlr, Hnil. change (u64 (zlen [] - zlen [])) with 0.
    destruct (retrieve_ok input 0 Hwf) as (input' & -> & Hwf' & Hr' & _); [rewrite <- Hlr, Hnil; done|]. rewrite Hnil in Hr'.
    cbn [mbind outcome_bind]. rewrite He0. exists input', s0, []. split; [done|]. rewrite Hr'. cbn [drop Z.to_nat app]. rewrite app_nil_r. split_and!; try done.
    subst s0. cbn [set_next_in next_in]. by rewrite Hnil.
Qed.
End Stream.

(** ** The streams of a client *)

(** C24: over every zlib that satisfies its manual, a client that constructs
    the stream on a buffer, writes any strings and finishes: every call
    returns true after finitely many calls of [deflate], nothing faults, and
    the buffer holds what it held followed by exactly one complete compressed
    stream, which decompresses to the strings in their order. The size asked
    of the buffer per call stays between 1 and 64 KiB. *)
Theorem zlib_stream_complete {D : Deflate} {L : DeflateLaws D} (b : Buffer) (strs : list (list byte)) (fuel : nat) :
  wf b -> zlen (buffer_ b) < 2 ^ 32 ->
  readerIndex_ b + zlen (readable b) + out_bound (zlen (concat strs)) + 65536 < 2 ^ 32 ->
  fuel_enough (zlen (concat strs)) fuel ->
  exists s packed, write_all fuel strs (ZlibOutputStream_ctor b Z_OK) = Some (Ok (replicate (S (length strs)) true, s))
    /\ wf (output_ s) /\ readable (output_ s) = readable b ++ packed /\ inflate packed = Some (concat strs)
    /\ zerror_ s = Z_STREAM_END /\ 1024 <= bufferSize_ s <= 65536.
Proof.
  intros Hwf Hcap Hroom Hf. destruct z_init as (Hrun & Hi & Ho).
  assert (zs_inv (readable b) (readerIndex_ b) (ZlibOutputStream_ctor b Z_OK)) as Hs.
  { split; cbn [ZlibOutputStream_ctor output_ z bufferSize_]; try done; [by rewrite Ho, app_nil_r|by apply z_bound|exists 0; lia]. }
  destruct (write_all_ok (readable b) (readerIndex_ b) (zlen (concat strs)) Hroom fuel strs _ Hf Hs Hrun) as (s & Hw & Hs' & He & Hinf); try done.
  { cbn. rewrite Hi. done. }
  destruct Hs' as [Hwf' _ _ Ho' _ (k & Hk & Hk')]. exists s, (zout (z s)). cbn in Hinf. rewrite Hi in Hinf. destruct (size_range k Hk).
  split_and!; try done; lia.
Qed.

(** ** A codec that satisfies the laws

    Every byte is stored behind a 1, the stream ends with a 0. A call takes at
    most four bytes. *)

Fixpoint stored (l : list byte) : list byte :=
  match l with [] => [] | a :: l' => Byte.x01 :: a :: stored l' end.
Fixpoint unstored (l : list byte) : option (list byte) :=
  match l with
  | [Byte.x00] => Some []
  | Byte.x01 :: a :: l' => cons a <$> unstored l'
  | _ => None
  end.

Record codec : Type := mkCodec { c_in : list byte; c_out : list byte; c_pending : list byte }.

Definition codec_step (st : codec) (flush : Z) (input : list byte) (avail : Z) : deflated codec :=
  let n := Nat.min 4 (length input) in
  let pending := c_pending st ++ stored (take n input) in
  if (flush =? Z_FINISH) && bool_decide (n = length input) && (zlen pending <? avail) then
    mkDeflated (mkCodec (c_in st ++ take n input) (c_out st ++ pending ++ [Byte.x00]) []) n (pending ++ [Byte.x00]) Z_STREAM_END
  else
    let out := take (Z.to_nat avail) pending in
    mkDeflated (mkCodec (c_in st ++ take n input) (c_out st ++ out) (drop (Z.to_nat avail) pending)) n out Z_OK.

#[export] Instance codec_deflate : Deflate :=
  {| zst := codec; zst_init := mkCodec [] [] []; deflate := codec_step; deflateEnd := fun _ => Z_OK |}.

Definition codec_ok (st : codec) : Prop := c_out st ++ c_pending st = stored (c_in st).

Lemma stored_app l1 l2 : stored (l1 ++ l2) = stored l1 ++ stored l2.
Proof. induction l1 as [|a l1 IH]; [done|]. cbn. by rewrite IH. Qed.

Lemma zlen_stored l : zlen (stored l) = 2 * zlen l.
Proof. induction l as [|a l IH]; [done|]. cbn [stored]. rewrite !zlen_cons, IH. lia. Qed.

Lemma unstored_stored l : unstored (stored l ++ [Byte.x00]) = Some l.
Proof. induction l as [|a l IH]; [done|]. cbn. by rewrite IH. Qed.

Lemma codec_next st input : codec_ok st ->
  c_out st ++ c_pending st ++ stored (take (Nat.min 4 (length input)) input) = stored (c_in st ++ take (Nat.min 4 (length input)) input).
Proof. intros H. by rewrite app_assoc, H, stored_app. Qed.

Lemma codec_progress st input avail : 0 < avail -> input <> [] \/ avail <= zlen (c_pending st) ->
  (length (drop (Z.to_nat avail) (c_pending st ++ stored (take (Nat.min 4 (length input)) input))) + 3 * (length input - Nat.min 4 (length input))
   < length (c_pending st) + 3 * length input)%nat.
Proof.
  intros Hav Hin. pose proof (zlen_stored (take (Nat.min 4 (length input)) input)) as Hl. unfold zlen in *.
  rewrite length_take in Hl. rewrite length_drop, length_app. destruct Hin as [Hin|Hin]; [destruct input; [done|]|]; cbn [length] in *; lia.
Qed.

Lemma codec_bound st : codec_ok st -> zlen (c_out st) <= 2 * zlen (c_in st).
Proof. intros H. apply (f_equal zlen) in H. rewrite zlen_app, zlen_stored in H. pose proof (zlen_nonneg (c_pending st)). lia. Qed.

Lemma codec_io st fl input avail : codec_ok st -> 0 < avail -> let d := codec_step st fl input avail in
  (d_in d <= length input)%nat /\ zlen (d_out d) <= avail /\ c_in (d_st d) = c_in st ++ take (d_in d) input
  /\ c_out (d_st d) = c_out st ++ d_out d /\ zlen (c_out (d_st d)) <= 2 * zlen (c_in (d_st d)) + 1.
Proof.
  intros Hok Hav. pose proof (codec_next st input Hok) as Hn. unfold codec_step. cbn zeta.
  set (n := Nat.min 4 (length input)) in *. set (pending := c_pending st ++ stored (take n input)) in *.
  apply (f_equal zlen) in Hn. rewrite zlen_app, zlen_stored in Hn. pose proof (zlen_nonneg pending).
  destruct (_ && (zlen pending <? avail)) eqn:E; cbn [d_in d_out d_st c_in c_out].
  - apply andb_prop in E as [_ E]. rewrite !zlen_app in *. cbn [zlen length Z.of_nat]. split_and!; try done; unfold zlen in *; cbn [length]; lia.
  - split_and!; try done; unfold zlen in *; rewrite ?length_app, ?length_take in *; lia.
Qed.

Lemma codec_goes_on st fl input avail : codec_ok st -> 0 < avail -> (fl <> Z_FINISH /\ input <> []) \/ fl = Z_FINISH ->
  let d := codec_step st fl input avail in
  (d_code d = Z_OK /\ codec_ok (d_st d)
   /\ (length (c_pending (d_st d)) + 3 * (length input - d_in d) < length (c_pending st) + 3 * length input)%nat)
  \/ (fl = Z_FINISH /\ d_code d = Z_STREAM_END /\ d_in d = length input /\ unstored (c_out (d_st d)) = Some (c_in (d_st d))).
Proof.
  intros Hok Hav Hfl. pose proof (codec_next st input Hok) as Hn. pose proof (codec_progress st input avail Hav) as Hp. unfold codec_step. cbn zeta.
  set (n := Nat.min 4 (length input)) in *. set (pending := c_pending st ++ stored (take n input)) in *.
  destruct (_ && (zlen pending <? avail)) eqn:E; cbn [d_in d_out d_st d_code c_in c_out c_pending].
  - right. apply andb_prop in E as [E1 E2]. apply andb_prop in E1 as [E0 E1]. apply Z.eqb_eq in E0. apply bool_decide_eq_true in E1.
    split_and!; try done. rewrite app_assoc, Hn. apply unstored_stored.
  - left. split; [done|]. split; [unfold codec_ok; cbn [c_out c_pending c_in]; rewrite <- app_assoc, take_drop; exact Hn|]. apply Hp.
    destruct input as [|a input]; [right|by left]. destruct Hfl as [[_ ?]| ->]; [done|].
    rewrite Z.eqb_refl, bool_decide_true in E by done. cbn [andb] in E. apply Z.ltb_ge in E. unfold pending in E. cbn [length Nat.min take stored n] in E.
    by rewrite app_nil_r in E.
Qed.

#[export] Instance codec_laws : DeflateLaws codec_deflate.
Proof.
  refine {| zin := c_in : zst -> _; zout := c_out; zrun := codec_ok; zfin := fun st _ => codec_ok st; inflate := unstored;
            work := fun st n => (length (c_pending st) + 3 * n)%nat; out_bound := fun n => 2 * n + 1 |}.
  - done.
  - lia.
  - intros st H. pose proof (codec_bound st H). lia.
  - intros st fl input avail [H|[_ H]] Hav; by apply codec_io.
  - intros st input avail H Hav Hin. destruct (codec_goes_on st Z_NO_FLUSH input avail H Hav) as [?|[? _]]; [by left|done|done].
  - intros st input avail H Hav. assert (codec_ok st) as Hst by tauto.
    destruct (codec_goes_on st Z_FINISH input avail Hst Hav) as [?|(_ & ? & ? & ?)]; [by right|by left|by right].
Defined.

Lemma codec_fuel total : fuel_enough total (Z.to_nat (5 * total + 1)).
Proof.
  intros st n H Ht. cbn in *. apply (f_equal zlen) in H. rewrite zlen_app, zlen_stored in H.
  pose proof (zlen_nonneg (c_out st)). pose proof (zlen_nonneg (c_in st)). unfold zlen in *. lia.
Qed.

Definition demo_buffer : Buffer := mkBuffer (zero_vector 1032) 8 10.

(** Two strings of six and one bytes, into a buffer that holds two. *)
Lemma zlib_stream_complete_witness : exists s,
  write_all 40 [[Byte.x61; Byte.x62; Byte.x63; Byte.x64; Byte.x65; Byte.x66]; [Byte.x67]] (ZlibOutputStream_ctor demo_buffer Z_OK)
    = Some (Ok ([true; true; true], s))
  /\ unstored (drop 2 (readable (output_ s))) = Some [Byte.x61; Byte.x62; Byte.x63; Byte.x64; Byte.x65; Byte.x66; Byte.x67].
Proof.
  destruct (zlib_stream_complete demo_buffer [[Byte.x61; Byte.x62; Byte.x63; Byte.x64; Byte.x65; Byte.x66]; [Byte.x67]] 40)
    as (s & packed & Hw & _ & Hr & Hi & _).
  - unfold wf. vm_compute. repeat split; discriminate.
  - reflexivity.
  - reflexivity.
  - intros st n H Ht. pose proof (codec_fuel 7 st n H Ht) as Hf. change (Z.to_nat (5 * 7 + 1)) with 36%nat in Hf. lia.
  - exists s. split; [exact Hw|]. rewrite Hr. exact Hi.
Defined.

(** Writing from a buffer leaves [next_in] set: a string written afterwards
    fails the assertion. *)
Lemma mixed_writes_assert :
  match write_buffer (mkBuffer (zero_vector 1032) 8 10) (ZlibOutputStream_ctor demo_buffer Z_OK) with
  | Ok (true, _, s) => write 40 [Byte.x61] s = Some (Fail AssertFail)
  | _ => False
  end.
Proof. vm_compute. reflexivity. Qed.

(** What a write from a buffer did not take is compressed by [finish], and is
    still in the buffer. *)
Lemma finish_takes_leftover :
  match write_buffer (mkBuffer (zero_vector 1032) 8 14) (ZlibOutputStream_ctor demo_buffer Z_OK) with
  | Ok (true, input, s) =>
      zlen (readable input) = 2 /\
      match finish 40 s with
      | Some (Ok (true, s')) => unstored (drop 2 (readable (output_ s'))) = Some (replicate 6 Byte.x00)
      | _ => False
      end
  | _ => False
  end.
Proof. vm_compute. split; reflexivity. Qed.
