(* ===== verification/MysqlPool.v ===== *)
(** * The pool of MySQL connections: src/common/MysqlPool.h, MysqlPool.cpp;
    Factory.h and DoubleBuffer.h

    Threads take connections from a queue and give them back. The mutex makes
    [get], up to its return or its next wait, one step, and so the push of
    [release]; the signal of [release] comes after the mutex is unlocked and is
    a step of its own. A connection is the number [mysql_init] gave it. *)

From stdpp Require Import gmap.
From S2P Require Import Prelude Mutex.

(** [held]: which thread has which connection. [signals]: threads between the
    unlock and the signal of [release]. [closed]: calls of [mysql_close]. *)
Record MysqlPool : Type := mkPool {
  mQueue : list nat;
  waiting : list nat;
  woken : list nat;
  signals : nat;
  held : list (nat * nat);
  closed : list nat;
}.

Definition MysqlPool_ctor : MysqlPool := mkPool [] [] [] 0 [] [].

(** What [mysql_init] and [mysql_real_connect] answer for one connection. *)
Inductive connect_answer : Set := InitNull | ConnectFails (h : nat) | Connected (h : nat).

(** [init] with one answer per turn of its loop. *)
Fixpoint pool_init (answers : list connect_answer) (p : MysqlPool) : bool * MysqlPool :=
  match answers with
  | [] => (true, p)
  | InitNull :: _ => (false, p)
  | ConnectFails _ :: _ => (false, p)
  | Connected h :: answers' => pool_init answers' (mkPool (mQueue p ++ [h]) (waiting p) (woken p) (signals p) (held p) (closed p))
  end.

(** [get], from taking the lock to the return or the wait. *)
Definition get_attempt (t : nat) (p : MysqlPool) : MysqlPool :=
  match mQueue p with
  | [] => mkPool [] (waiting p ++ [t]) (woken p) (signals p) (held p) (closed p)
  | h :: q => mkPool q (waiting p) (woken p) (signals p) (held p ++ [(t, h)]) (closed p)
  end.

Definition release_push (h : nat) (p : MysqlPool) : MysqlPool :=
  mkPool (mQueue p ++ [h]) (waiting p) (woken p) (S (signals p)) (held p) (closed p).

(** [pthread_cond_signal]: the [i]-th waiter, if there is one. *)
Definition wake_waiter (i : nat) (p : MysqlPool) : MysqlPool :=
  match waiting p !! i with
  | Some t => mkPool (mQueue p) (delete i (waiting p)) (woken p ++ [t]) (signals p) (held p) (closed p)
  | None => p
  end.

(** The destructor. *)
Definition MysqlPool_dtor (p : MysqlPool) : MysqlPool :=
  mkPool [] (waiting p) (woken p) (signals p) (held p) (closed p ++ mQueue p).

Inductive pool_event : Set :=
| PGet (t : nat)
| PRelease (t : nat)
| PSignal (i : nat)
| PSpurious (i : nat)
| PResume (i : nat).

(** The first connection of thread [t]. *)
Definition first_held (t : nat) (l : list (nat * nat)) : option (nat * (nat * nat)) := list_find (fun x => x.1 = t) l.

Definition pool_step (p : MysqlPool) (e : pool_event) : MysqlPool :=
  match e with
  | PGet t => get_attempt t p
  | PRelease t =>
      match first_held t (held p) with
      | Some (i, (_, h)) => release_push h (mkPool (mQueue p) (waiting p) (woken p) (signals p) (delete i (held p)) (closed p))
      | None => p
      end
  | PSignal i =>
      match signals p with
      | O => p
      | S n =>
          wake_waiter (if bool_decide (i < length (waiting p))%nat then i else 0)
            (mkPool (mQueue p) (waiting p) (woken p) n (held p) (closed p))
      end
  | PSpurious i => wake_waiter i p
  | PResume i =>
      match woken p !! i with
      | Some t => get_attempt t (mkPool (mQueue p) (waiting p) (delete i (woken p)) (signals p) (held p) (closed p))
      | None => p
      end
  end.

Definition pool_run : MysqlPool -> list pool_event -> MysqlPool := foldl pool_step.

(** ** Correctness *)

Record pool_inv (hs : list nat) (p : MysqlPool) : Prop := {
  pl_all : mQueue p ++ (held p).*2 ≡ₚ hs;
  pl_awake : waiting p <> [] -> (length (mQueue p) <= length (woken p) + signals p)%nat;
}.

Lemma length_delete_lookup {A} (l : list A) i x : l !! i = Some x -> S (length (delete i l)) = length l.
Proof. intros H. rewrite length_delete by (by eexists). apply lookup_lt_Some in H. lia. Qed.

Lemma get_attempt_inv hs t p : mQueue p ++ (held p).*2 ≡ₚ hs -> (waiting p <> [] -> (length (mQueue p) <= S (length (woken p) + signals p))%nat) ->
  pool_inv hs (get_attempt t p).
Proof.
  intros Ha Hw. unfold get_attempt. destruct (mQueue p) as [|h q] eqn:Eq; split; cbn [mQueue held waiting woken signals length] in *.
  - done.
  - lia.
  - rewrite fmap_app. cbn. rewrite <- Ha, app_assoc. symmetry. apply Permutation_cons_append.
  - intros H. specialize (Hw H). lia.
Qed.

Lemma wake_waiter_inv hs i p : mQueue p ++ (held p).*2 ≡ₚ hs ->
  (waiting p <> [] -> (length (mQueue p) <= length (woken p) + signals p + (if bool_decide (i < length (waiting p))%nat then 1 else 0))%nat) ->
  pool_inv hs (wake_waiter i p).
Proof.
  intros Ha Hw. unfold wake_waiter. destruct (waiting p !! i) as [t|] eqn:E; split; cbn [mQueue held waiting woken signals]; try done.
  - intros _. rewrite length_app. cbn. assert (waiting p <> []) as H by (by intros H; rewrite H in E). specialize (Hw H). case_bool_decide; lia.
  - intros H. specialize (Hw H). apply lookup_ge_None in E. case_bool_decide; lia.
Qed.

Lemma pool_step_inv hs p e : pool_inv hs p -> pool_inv hs (pool_step p e).
Proof.
  intros [Ha Hw]. destruct e as [t|t|i|i|i]; cbn [pool_step].
  - apply get_attempt_inv; [done|]. intros H. specialize (Hw H). lia.
  - destruct (first_held t (held p)) as [[i [t' h]]|] eqn:E; [|done]. apply list_find_Some in E as (E & _ & _).
    split; cbn [release_push mQueue held waiting woken signals].
    + rewrite <- Ha. rewrite (list_fmap_delete snd), <- app_assoc. f_equiv. cbn. symmetry. apply delete_Permutation. by rewrite list_lookup_fmap, E.
    + intros H. specialize (Hw H). rewrite length_app. cbn. lia.
  - destruct (signals p) as [|n] eqn:En; [split; [done|]; by rewrite En|]. apply wake_waiter_inv; cbn [mQueue held waiting woken signals]; [done|].
    intros H. specialize (Hw H). destruct (waiting p) as [|w ws]; [done|]. repeat (case_bool_decide; cbn [length] in *); lia.
  - apply wake_waiter_inv; [done|]. intros H. specialize (Hw H). lia.
  - destruct (woken p !! i) as [t|] eqn:E; [|done]. apply get_attempt_inv; cbn [mQueue held waiting woken signals]; [done|].
    intros H. specialize (Hw H). pose proof (length_delete_lookup _ _ _ E). lia.
Qed.

Lemma pool_run_inv hs es : forall p, pool_inv hs p -> pool_inv hs (pool_run p es).
Proof. induction es as [|e es IH]; intros p Hp; [done|]. apply IH. by apply pool_step_inv. Qed.

Lemma closed_run es : forall p, closed (pool_run p es) = closed p.
Proof.
  induction es as [|e es IH]; intros p; [done|]. unfold pool_run in *. cbn [foldl]. rewrite IH. unfold pool_step, get_attempt, wake_waiter, release_push.
  by repeat case_match.
Qed.

(** Every signal is delivered, then every woken thread goes on. *)
Definition settle_events (p : MysqlPool) : list pool_event :=
  replicate (signals p) (PSignal 0) ++ replicate (length (woken p) + signals p) (PResume 0).

Lemma signals_settle n : forall p, signals p = n ->
  let p' := pool_run p (replicate n (PSignal 0)) in signals p' = 0%nat /\ (length (woken p') <= length (woken p) + n)%nat.
Proof.
  induction n as [|n IH]; intros p Hp; [cbn; lia|]. cbn [replicate]. unfold pool_run. cbn [foldl].
  assert (signals (pool_step p (PSignal 0)) = n /\ (length (woken (pool_step p (PSignal 0))) <= S (length (woken p)))%nat) as [E1 E2].
  { cbn [pool_step]. rewrite Hp. unfold wake_waiter. cbn [waiting woken]. destruct (waiting p !! _); cbn [signals woken]; rewrite ?length_app; cbn; lia. }
  destruct (IH _ E1) as [H1 H2]. split; [exact H1|]. unfold pool_run in H2. lia.
Qed.

Lemma resumes_settle n : forall p, signals p = 0%nat -> (length (woken p) <= n)%nat ->
  let p' := pool_run p (replicate n (PResume 0)) in signals p' = 0%nat /\ woken p' = [].
Proof.
  induction n as [|n IH]; intros p Hp Hn; [split; [done|]; by apply nil_length_inv, Nat.le_0_r|]. cbn [replicate]. unfold pool_run. cbn [foldl].
  apply IH; cbn [pool_step]; destruct (woken p) as [|t ws] eqn:E; cbn [lookup list_lookup delete list_delete length] in *;
    unfold get_attempt; cbn [mQueue]; try (destruct (mQueue p)); cbn [signals woken]; try done; rewrite ?E; cbn; lia.
Qed.

Lemma pool_init_all hs : forall q, pool_init (Connected <$> hs) (mkPool q [] [] 0 [] []) = (true, mkPool (q ++ hs) [] [] 0 [] []).
Proof. induction hs as [|h hs IH]; intros q; cbn; [by rewrite app_nil_r|]. rewrite IH. by rewrite <- app_assoc. Qed.

(** Threads that take connections from the pool and give back what they
    took, under every interleaving, order of signals and spurious wakeup: each
    connection is in the queue or with exactly one thread, and none is lost;
    and when the pending signals are delivered and the woken threads have
    gone on, no thread waits while the queue has a connection. The destructor
    closes every connection that was given back, once. *)
Lemma mysql_pool_correct (hs : list nat) (es : list pool_event) : NoDup hs ->
  pool_init (Connected <$> hs) MysqlPool_ctor = (true, mkPool hs [] [] 0 [] []) /\
  let p := pool_run (mkPool hs [] [] 0 [] []) es in
  NoDup (mQueue p ++ (held p).*2) /\ mQueue p ++ (held p).*2 ≡ₚ hs
  /\ (let p' := pool_run p (settle_events p) in signals p' = 0%nat /\ woken p' = [] /\ (waiting p' = [] \/ mQueue p' = []))
  /\ closed (MysqlPool_dtor p) ++ (held p).*2 ≡ₚ hs.
Proof.
  intros Hnd. split; [apply pool_init_all|].
  cbn zeta. set (p := pool_run _ es). assert (pool_inv hs p) as Hp by (apply pool_run_inv; split; cbn; [by rewrite app_nil_r|done]).
  pose proof (pl_all _ _ Hp) as Ha. split; [by rewrite Ha|]. split; [done|].
  split; [|unfold p, MysqlPool_dtor; cbn [closed]; by rewrite closed_run].
  unfold settle_events, pool_run. rewrite foldl_app. destruct (signals_settle (signals p) p eq_refl) as [H1 H2].
  destruct (resumes_settle (length (woken p) + signals p) _ H1 H2) as [H3 H4]. unfold pool_run in *. split; [done|]. split; [done|].
  assert (pool_inv hs (pool_run (pool_run p (replicate (signals p) (PSignal 0))) (replicate (length (woken p) + signals p) (PResume 0)))) as [_ Hw]
    by (by do 2 apply pool_run_inv).
  unfold pool_run in Hw. rewrite H3, H4 in Hw. destruct (waiting _) as [|w ws]; [by left|right]. apply nil_length_inv.
  specialize (Hw ltac:(done)). cbn in Hw. lia.
Qed.

(** Two connections, three threads. *)
Lemma mysql_pool_correct_witness :
  let p := pool_run (mkPool [7; 8] [] [] 0 [] [])%nat [PGet 1; PGet 2; PGet 3; PRelease 1; PSignal 0; PResume 0]%nat in
  NoDup (mQueue p ++ (held p).*2) /\ held p = [(2, 8); (3, 7)]%nat.
Proof.
  split; [|reflexivity].
  apply (mysql_pool_correct [7; 8]%nat [PGet 1; PGet 2; PGet 3; PRelease 1; PSignal 0; PResume 0]%nat).
  refine (bool_decide_unpack _ _). vm_compute. exact I.
Defined.

(** A connection that cannot be made: [init] gives up, and the handle
    [mysql_init] returned is neither in the queue nor closed. *)
Lemma failed_connect_leaks : exists p, pool_init [Connected 7; ConnectFails 8; Connected 9]%nat MysqlPool_ctor = (false, p)
  /\ mQueue p = [7]%nat /\ closed (MysqlPool_dtor p) = [7]%nat.
Proof. eexists. split; [reflexivity|]. done. Qed.

(** ** Factory *)

Module Factory.
Section Factory.
Context {Product : Type}.

(** A producer makes a new object of its class at every call. *)
Abbreviation factory := (gmap (list byte) (unit -> Product)).

Definition RegisterProducer (name : list byte) (produce : unit -> Product) (producers : factory) : factory := <[name := produce]> producers.

Definition Produce (name : list byte) (producers : factory) : option Product :=
  match producers !! name with Some produce => Some (produce tt) | None => None end.

(** The last class registered under a name is produced; other names are not
    affected, and a name nobody registered gives a null pointer. *)
Lemma produce_registered regs name :
  Produce name (foldl (fun f r => RegisterProducer r.1 r.2 f) ∅ regs) =
    match list_find (fun r => r.1 = name) (rev regs) with Some (_, r) => Some (r.2 tt) | None => None end.
Proof.
  induction regs as [|[n f] regs IH] using rev_ind; [done|]. rewrite foldl_app, rev_unit. cbn. unfold Produce, RegisterProducer in *.
  destruct (decide (n = name)) as [->|Hne]; [by rewrite lookup_insert_eq|]. rewrite lookup_insert_ne, IH by done. by destruct (list_find _ (rev regs)) as [[]|].
Qed.
End Factory.
End Factory.

(** ** DoubleBuffer *)

Module DoubleBuffer.
Section DoubleBuffer.
Context {T : Type}.

(** A call before its first lock, before the access, and before its second
    lock; the third mutex call of a call that returned would be needed to
    unlock. *)
Inductive call_pc : Type :=
| GetLock | GetRead | GetLockAgain (tmp : T)
| ReloadLock (dataptr : T) | ReloadStore (dataptr : T) | ReloadLockAgain.

Record DoubleBuffer : Type := mkDB { lock_ : MutexLock; ptr_ : T; calls : gmap Z call_pc; results : list (Z * option T) }.

Definition DoubleBuffer_ctor (ptr : T) : DoubleBuffer := mkDB MutexLock_ctor ptr ∅ [].

Inductive db_label : Type := DGet (t : Z) | DReload (t : Z) (dataptr : T) | DRun (t : Z).

Definition enter (t : Z) (p : call_pc) (s : DoubleBuffer) : DoubleBuffer :=
  match calls s !! t with Some _ => s | None => mkDB (lock_ s) (ptr_ s) (<[t := p]> (calls s)) (results s) end.

(** A lock that blocks leaves everything as it is. *)
Definition locking (t : Z) (p : call_pc) (s : DoubleBuffer) : DoubleBuffer :=
  match pthread_mutex_lock t (lock_ s) with
  | Some m => mkDB m (ptr_ s) (<[t := p]> (calls s)) (results s)
  | None => s
  end.

(** The second lock of [Get] and [Reload], and their return. *)
Definition locking_again (t : Z) (r : option T) (s : DoubleBuffer) : DoubleBuffer :=
  match pthread_mutex_lock t (lock_ s) with
  | Some m => mkDB m (ptr_ s) (delete t (calls s)) (results s ++ [(t, r)])
  | None => s
  end.

Definition db_step (s : DoubleBuffer) (l : db_label) : DoubleBuffer :=
  match l with
  | DGet t => enter t GetLock s
  | DReload t dataptr => enter t (ReloadLock dataptr) s
  | DRun t =>
      match calls s !! t with
      | None => s
      | Some GetLock => locking t GetRead s
      | Some GetRead => mkDB (lock_ s) (ptr_ s) (<[t := GetLockAgain (ptr_ s)]> (calls s)) (results s)
      | Some (GetLockAgain tmp) => locking_again t (Some tmp) s
      | Some (ReloadLock d) => locking t (ReloadStore d) s
      | Some (ReloadStore d) => mkDB (lock_ s) d (<[t := ReloadLockAgain]> (calls s)) (results s)
      | Some ReloadLockAgain => locking_again t None s
      end
  end.

Definition past_lock (p : call_pc) : bool := match p with GetLock | ReloadLock _ => false | _ => true end.

(** No call returns, and after one thread took the lock every thread stops at
    a lock for good. *)
Lemma never_returns ls ptr : let s := foldl db_step (DoubleBuffer_ctor ptr) ls in
  results s = [] /\ forall t p, calls s !! t = Some p -> past_lock p = true -> mutex_ (lock_ s) <> None.
Proof.
  cbn zeta. induction ls as [|l ls [IH1 IH2]] using rev_ind; [split; [done|intros t p; cbn; by rewrite lookup_empty]|]. rewrite foldl_app. cbn [foldl].
  set (s := foldl db_step (DoubleBuffer_ctor ptr) ls) in *. clearbody s.
  assert (forall t r p, calls s !! t = Some p -> past_lock p = true -> locking_again t r s = s) as Ha.
  { intros t r p Hp Hpast. unfold locking_again, pthread_mutex_lock. specialize (IH2 t p Hp Hpast). by destruct (mutex_ (lock_ s)). }
  assert (forall t p, past_lock p = false -> results (enter t p s) = [] /\ forall t' p', calls (enter t p s) !! t' = Some p' -> past_lock p' = true ->
    mutex_ (lock_ (enter t p s)) <> None) as He.
  { intros t p Hp. unfold enter. destruct (calls s !! t); [done|]. split; [done|]. cbn. intros t' p'. rewrite lookup_insert_Some.
    intros [[<- <-]|[_ H]]; [by rewrite Hp|by apply IH2 with (t := t')]. }
  destruct l as [t|t d|t]; cbn [db_step]; [by apply He..|].
  assert (forall p, results (locking t p s) = [] /\ forall t' p', calls (locking t p s) !! t' = Some p' -> past_lock p' = true ->
    mutex_ (lock_ (locking t p s)) <> None) as Hk.
  { intros p. unfold locking, pthread_mutex_lock. destruct (mutex_ (lock_ s)) eqn:Em; [|done]. split; [done|]. intros t' p' H1 H2. by rewrite Em. }
  assert (forall d p p', calls s !! t = Some p -> past_lock p = true -> let s' := mkDB (lock_ s) d (<[t := p']> (calls s)) (results s) in
    results s' = [] /\ forall t' q, calls s' !! t' = Some q -> past_lock q = true -> mutex_ (lock_ s') <> None) as Hm.
  { intros d p p' Hp Hpast. split; [done|]. intros t' q _ _. by apply (IH2 t p). }
  destruct (calls s !! t) as [[]|] eqn:Et; [apply Hk|by eapply Hm| |apply Hk|by eapply Hm| |by split].
  all: by rewrite (Ha t _ _ Et).
Qed.
End DoubleBuffer.
End DoubleBuffer.
