(* ===== verification/Redis.v ===== *)
(** * The Redis client: src/common/redis.h, redis.cpp

    A client object with one hiredis context. Every command is sent, and when
    it has no reply the client connects again and sends it once more. hiredis
    is the environment: contexts and replies are objects that are allocated
    and freed, the server is a parameter, and the outcome of every call of the
    library is the next of a list of answers. Logging is left out, host, port
    and time-out go to the library unchanged. *)

From stdpp Require Import gmap.
From S2P Require Import Prelude CppString HttpContext.

(** ** hiredis and the server *)

(** The reply was received; the connection broke, after the server had
    executed the command or before; memory ran out. *)
Inductive answer : Set := Good | Lost (executed : bool) | OutOfMemory.

Inductive command : Type :=
| AUTH (passwd : list byte)
| GET (key : list byte)
| SET (key value : list byte)
| EXPIRE (key : list byte) (seconds : Z)
| LRANGE (key : list byte) (first last : Z)
| RPUSH (key value : list byte)
| DEL (key : list byte).

Inductive reply : Type :=
| RStatus (s : list byte)
| RError (s : list byte)
| RString (s : list byte)
| RInteger (n : Z)
| RNil
| RArray (elements : list (list byte)).

(** [reply->str]: null unless the reply is a text. *)
Definition reply_str (r : reply) : option (list byte) :=
  match r with RStatus s | RError s | RString s => Some s | _ => None end.
Definition reply_elements (r : reply) : list (list byte) := match r with RArray l => l | _ => [] end.
Definition is_error (r : reply) : bool := match r with RError _ => true | _ => false end.

Section Client.
Context {Srv : Type} (serve : Srv -> command -> Srv * reply).

(** [ctxs]: the live contexts, with [err]. [replies]: the live replies.
    [connect_], [passwd] and [auth_enable] are the object's. *)
Record Redis : Type := mkRedis {
  connect_ : option nat;
  passwd : list byte;
  auth_enable : bool;
  ctxs : gmap nat bool;
  replies : gset nat;
  next_id : nat;
  srv : Srv;
  answers : list answer;
}.

Definition M (A : Type) : Type := Redis -> outcome (A * Redis).

#[local] Instance M_ret : MRet M := fun A a s => Ok (a, s).
#[local] Instance M_bind : MBind M := fun A B k m s => match m s with Ok (a, s') => k a s' | Fail f => Fail f end.

Definition fail {A} (f : fault) : M A := fun _ => Fail f.
Definition get_connect : M (option nat) := fun s => Ok (connect_ s, s).
Definition put_connect (c : option nat) : M unit := fun s =>
  Ok (tt, mkRedis c (passwd s) (auth_enable s) (ctxs s) (replies s) (next_id s) (srv s) (answers s)).
Definition get_auth : M (option (list byte)) := fun s => Ok (if auth_enable s then Some (passwd s) else None, s).
Definition put_auth (p : list byte) (enable : bool) : M unit := fun s =>
  Ok (tt, mkRedis (connect_ s) p enable (ctxs s) (replies s) (next_id s) (srv s) (answers s)).

(** The next answer; a list that is used up goes on with [Good]. *)
Definition next_answer : M answer := fun s =>
  Ok (match answers s with a :: _ => a | [] => Good end,
      mkRedis (connect_ s) (passwd s) (auth_enable s) (ctxs s) (replies s) (next_id s) (srv s) (drop 1 (answers s))).

Definition new_context (err : bool) : M (option nat) := fun s =>
  Ok (Some (next_id s),
      mkRedis (connect_ s) (passwd s) (auth_enable s) (<[next_id s := err]> (ctxs s)) (replies s) (S (next_id s)) (srv s) (answers s)).

Definition redisConnect : M (option nat) :=
  a ← next_answer;
  match a with
  | Good => new_context false
  | Lost _ => new_context true
  | OutOfMemory => mret None
  end.

Definition context_err (c : nat) : M bool := fun s =>
  match ctxs s !! c with Some e => Ok (e, s) | None => Fail UseAfterFree end.
Definition set_err (c : nat) : M unit := fun s =>
  Ok (tt, mkRedis (connect_ s) (passwd s) (auth_enable s) (<[c := true]> (ctxs s)) (replies s) (next_id s) (srv s) (answers s)).
Definition redisFree (c : nat) : M unit := fun s =>
  match ctxs s !! c with
  | Some _ => Ok (tt, mkRedis (connect_ s) (passwd s) (auth_enable s) (delete c (ctxs s)) (replies s) (next_id s) (srv s) (answers s))
  | None => Fail UseAfterFree
  end.

Definition execute (cmd : command) : M reply := fun s =>
  let '(v, r) := serve (srv s) cmd in
  Ok (r, mkRedis (connect_ s) (passwd s) (auth_enable s) (ctxs s) (replies s) (next_id s) v (answers s)).
Definition new_reply (r : reply) : M (option (nat * reply)) := fun s =>
  Ok (Some (next_id s, r),
      mkRedis (connect_ s) (passwd s) (auth_enable s) (ctxs s) ({[next_id s]} ∪ replies s) (S (next_id s)) (srv s) (answers s)).
Definition freeReplyObject (r : nat * reply) : M unit := fun s =>
  if decide (r.1 ∈ replies s) then
    Ok (tt, mkRedis (connect_ s) (passwd s) (auth_enable s) (ctxs s) (replies s ∖ {[r.1]}) (next_id s) (srv s) (answers s))
  else Fail UseAfterFree.

(** [redisCommand]: no reply over a context that has seen an error; an error
    marks the context. *)
Definition redisCommand (c : option nat) (cmd : command) : M (option (nat * reply)) :=
  match c with
  | None => fail NullPointer
  | Some c =>
      err ← context_err c;
      if err : bool then mret None
      else
        a ← next_answer;
        match a with
        | Good => r ← execute cmd; new_reply r
        | Lost executed => (if executed : bool then _ ← execute cmd; mret tt else mret tt);; set_err c;; mret None
        | OutOfMemory => set_err c;; mret None
        end
  end.

(** ** The client *)

Definition RESULT_OK : bool := false.
Definition RESULT_ERROR : bool := true.
Definition MAX_TRY_COUNT : nat := 3.

(** One turn of the loop of [Connect] and of [ReConnect]: whether it returns. *)
Definition try_connect : M bool :=
  c ← redisConnect;
  put_connect c;;
  match c with
  | None => mret false
  | Some ctx =>
      err ← context_err ctx;
      if err : bool then mret false
      else
        p ← get_auth;
        match p with
        | None => mret true
        | Some p =>
            r ← redisCommand (Some ctx) (AUTH (c_string p));
            match r with
            | None => redisFree ctx;; put_connect None;; mret false
            | Some r =>
                freeReplyObject r;;
                if is_error r.2 then redisFree ctx;; put_connect None;; mret false else mret true
            end
        end
  end.

Fixpoint connect_loop (tries : nat) : M bool :=
  match tries with
  | O => mret RESULT_ERROR
  | S tries' => ok ← try_connect; if ok : bool then mret RESULT_OK else connect_loop tries'
  end.

Definition Connect (p : list byte) (enable : bool) : M bool := put_auth p enable;; connect_loop MAX_TRY_COUNT.

(** The destructor and [Close]. *)
Definition Close : M unit :=
  c ← get_connect;
  (match c with Some c => redisFree c | None => mret tt end);; put_connect None.

Definition ReConnect : M bool := Close;; connect_loop MAX_TRY_COUNT.

(** A command, sent once more after [ReConnect] when it has no reply. *)
Definition command_retry (cmd : command) : M (option (nat * reply)) :=
  c ← get_connect;
  r ← redisCommand c cmd;
  match r with
  | Some _ => mret r
  | None => _ ← ReConnect; c ← get_connect; redisCommand c cmd
  end.

(** The value is assigned only where the result is RESULT_OK. *)
Definition Get (key : list byte) : M (bool * list byte) :=
  r ← command_retry (GET (c_string key));
  match r with
  | None => mret (RESULT_ERROR, [])
  | Some r =>
      match reply_str r.2 with
      | None => freeReplyObject r;; mret (RESULT_ERROR, [])
      | Some s => freeReplyObject r;; mret (RESULT_OK, c_string s)
      end
  end.

Definition Expire (key : list byte) (expiretime : Z) : M bool :=
  r ← command_retry (EXPIRE (c_string key) expiretime);
  match r with
  | None => mret RESULT_ERROR
  | Some r => freeReplyObject r;; mret RESULT_OK
  end.

Definition Set_ (key value : list byte) (expiretime : Z) : M bool :=
  r ← command_retry (SET (c_string key) (c_string value));
  match r with
  | None => mret RESULT_ERROR
  | Some r =>
      freeReplyObject r;;
      (if 0 <? expiretime then _ ← Expire key expiretime; mret tt else mret tt);;
      mret RESULT_OK
  end.

(** An empty reply is not freed. *)
Definition Lrange (key : list byte) : M (bool * list (list byte)) :=
  r ← command_retry (LRANGE (c_string key) 0 (-1));
  match r with
  | None => mret (RESULT_ERROR, [])
  | Some r =>
      match reply_elements r.2 with
      | [] => mret (RESULT_ERROR, [])
      | l => freeReplyObject r;; mret (RESULT_OK, c_string <$> l)
      end
  end.

(** The push of [Rpush]. The reply of the second attempt is not freed. *)
Definition rpush_command (cmd : command) : M bool :=
  c ← get_connect;
  r ← redisCommand c cmd;
  match r with
  | Some r => freeReplyObject r;; mret true
  | None =>
      _ ← ReConnect;
      c ← get_connect;
      r ← redisCommand c cmd;
      mret (match r with Some _ => true | None => false end)
  end.

Definition Rpush (key value : list byte) (expiretime : Z) : M bool :=
  ok ← rpush_command (RPUSH (c_string key) (c_string value));
  if ok : bool then
    (if 0 <? expiretime then _ ← Expire key expiretime; mret tt else mret tt);;
    mret RESULT_OK
  else mret RESULT_ERROR.

Definition Delete (key : list byte) : M bool :=
  r ← command_retry (DEL (c_string key));
  match r with
  | None => mret RESULT_ERROR
  | Some r => freeReplyObject r;; mret RESULT_OK
  end.

Definition Redis_ctor (v : Srv) (a : list answer) : Redis := mkRedis None [] false ∅ ∅ 0 v a.
End Client.

(** ** What the client guarantees

    Without authentication and with memory for the contexts: the client never
    uses a context or a reply that was freed, whatever connections break;
    every operation sends its commands at most twice each, in order; and an
    operation that reports success was executed. *)

Section Client.
Context {Srv : Type} (serve : Srv -> command -> Srv * reply).
Abbreviation state := (@Redis Srv).
#[local] Existing Instance M_ret.
#[local] Existing Instance M_bind.

(** The server after a list of commands. *)
Definition executes (v : Srv) (l : list command) : Srv := foldl (fun v c => (serve v c).1) v l.

Lemma executes_app v l1 l2 : executes v (l1 ++ l2) = executes (executes v l1) l2.
Proof. apply foldl_app. Qed.

(** No fault, and what holds then. *)
Definition runs {A} (m : @M Srv A) (s : state) (Q : A -> state -> Prop) : Prop := exists a s', m s = Ok (a, s') /\ Q a s'.

Lemma runs_bind {A B} (m : @M Srv A) (k : A -> @M Srv B) s P Q : runs m s P -> (forall a s', P a s' -> runs (k a) s' Q) -> runs (m ≫= k) s Q.
Proof.
  intros (a & s' & Hm & HP) Hk. destruct (Hk a s' HP) as (b & s'' & Hb & HQ). exists b, s''. split; [|done].
  unfold mbind, M_bind. by rewrite Hm.
Qed.

Lemma runs_ret {A} (a : A) s (Q : A -> state -> Prop) : Q a s -> runs (mret a) s Q.
Proof. intros H. by exists a, s. Qed.

Lemma runs_weaken {A} (m : @M Srv A) s (P Q : A -> state -> Prop) : runs m s P -> (forall a s', P a s' -> Q a s') -> runs m s Q.
Proof. intros (a & s' & H & HP) HQ. exists a, s'. auto. Qed.

(** Ids are new, no authentication, memory suffices. *)
Record base (s : state) : Prop := {
  ba_auth : auth_enable s = false;
  ba_mem : Forall (fun a => a <> OutOfMemory) (answers s);
  ba_ctxs : forall k, (next_id s <= k)%nat -> ctxs s !! k = None;
  ba_replies : forall k, (next_id s <= k)%nat -> k ∉ replies s;
}.

(** The client's context exists. *)
Definition live (s : state) : Prop := base s /\ exists c e, connect_ s = Some c /\ ctxs s !! c = Some e.

(** From [s] to [s']: the replies that are live, the commands executed. *)
Definition goes (s : state) (R : gset nat) (l : list command) (s' : state) : Prop :=
  live s' /\ replies s' = R /\ srv s' = executes (srv s) l.

Lemma live_intro (s : state) c p cx rep n v a : Forall (fun a => a <> OutOfMemory) a -> is_Some (cx !! c) ->
  (forall k, (n <= k)%nat -> cx !! k = None) -> (forall k, (n <= k)%nat -> k ∉ rep) -> live (mkRedis (Some c) p false cx rep n v a).
Proof. intros H1 [e H2] H3 H4. split; [by split|]. by exists c, e. Qed.

(** The next answer is a reply or a broken connection. *)
Lemma next_answer_ok (s : state) : Forall (fun a => a <> OutOfMemory) (answers s) ->
  exists a, next_answer s = Ok (a, mkRedis (connect_ s) (passwd s) (auth_enable s) (ctxs s) (replies s) (next_id s) (srv s) (drop 1 (answers s)))
  /\ a <> OutOfMemory /\ Forall (fun a => a <> OutOfMemory) (drop 1 (answers s)).
Proof.
  intros H. unfold next_answer. eexists. split; [done|]. destruct (answers s) as [|a l]; [done|]. apply Forall_cons in H as [? ?]. done.
Qed.

Lemma insert_none (m : gmap nat bool) n c e : is_Some (m !! c) -> (forall k, (n <= k)%nat -> m !! k = None) ->
  forall k, (n <= k)%nat -> <[c := e]> m !! k = None.
Proof. intros [x Hx] H k Hk. rewrite lookup_insert_ne; [by apply H|]. intros ->. by rewrite H in Hx. Qed.

(** A command over the client's context. *)
Lemma redisCommand_runs c cmd s : live s -> connect_ s = Some c ->
  runs (redisCommand serve (Some c) cmd) s (fun r s' =>
    match r with
    | None => exists l, goes s (replies s) l s' /\ sublist l [cmd]
    | Some (id, r) => goes s ({[id]} ∪ replies s) [cmd] s' /\ (id ∉ replies s) /\ r = (serve (srv s) cmd).2
    end).
Proof.
  intros Hl Ec. pose proof Hl as [[Ha Hm Hc Hr] (c' & e & Ec' & He)]. rewrite Ec in Ec'. injection Ec' as <-. unfold runs, redisCommand.
  unfold mbind, M_bind, context_err. rewrite He. destruct e.
  { exists None, s. split; [done|]. exists []. split; [|apply sublist_nil_l]. by split. }
  destruct (next_answer_ok s Hm) as (a & -> & Hna & Hm'). rewrite Ec, Ha in *.
  assert (is_Some (ctxs s !! c)) as Hsome by (by eexists).
  destruct a as [|ex|]; [| |done].
  - unfold execute, new_reply. cbn [srv]. destruct (serve (srv s) cmd) as [v r] eqn:Es. cbn. eexists (Some (_, _)), _. split; [reflexivity|].
    split; [split; [|split; [done|cbn; by rewrite Es]]|split; [by apply Hr|done]].
    apply (live_intro s); [done|done|intros k Hk; apply Hc; lia|]. intros k Hk. apply not_elem_of_union. split; [set_solver by lia|apply Hr; lia].
  - exists None. destruct ex; unfold execute, set_err; cbn [srv].
    + destruct (serve (srv s) cmd) as [v r] eqn:Es. cbn. eexists. split; [reflexivity|]. exists [cmd]. split; [|done].
      split; [|split; [done|cbn; by rewrite Es]]. apply (live_intro s); [done|by rewrite lookup_insert_eq|by apply insert_none|done].
    + cbn. eexists. split; [reflexivity|]. exists []. split; [|apply sublist_nil_l]. split; [|done].
      apply (live_intro s); [done|by rewrite lookup_insert_eq|by apply insert_none|done].
Qed.

Lemma freeReply_runs id r s l R s' : id ∉ R -> goes s ({[id]} ∪ R) l s' ->
  runs (freeReplyObject (id, r)) s' (fun _ s'' => goes s R l s'').
Proof.
  intros Hid [[[Ha Hm Hc Hr] (c & e & Ec & He)] [HR Hs]]. unfold runs, freeReplyObject. cbn [fst].
  rewrite decide_True by (rewrite HR; set_solver). eexists _, _. split; [reflexivity|].
  split; [|split; [cbn; rewrite HR; set_solver|done]]. rewrite Ec, Ha. apply (live_intro s); [done|by eexists|done|]. intros k Hk. cbn. specialize (Hr k Hk). set_solver.
Qed.

(** Connecting again ends with a context, connected or not. *)
Lemma try_connect_runs s : base s -> runs (try_connect serve) s (fun _ s' => goes s (replies s) [] s').
Proof.
  intros [Ha Hm Hc Hr]. unfold runs, try_connect, redisConnect. unfold mbind, M_bind.
  destruct (next_answer_ok s Hm) as (a & -> & Hna & Hm').
  assert (forall e, live (mkRedis (Some (next_id s)) (passwd s) false (<[next_id s := e]> (ctxs s)) (replies s) (S (next_id s)) (srv s) (drop 1 (answers s)))) as Hl.
  { intros e. apply (live_intro s); [done|by rewrite lookup_insert_eq| |intros k Hk; apply Hr; lia].
    intros k Hk. rewrite lookup_insert_ne by lia. apply Hc. lia. }
  destruct a as [|ex|]; [| |done]; unfold new_context, put_connect, context_err, get_auth; cbn; rewrite lookup_insert_eq, ?Ha.
  - eexists _, _. split; [reflexivity|]. split; [apply Hl|done].
  - eexists _, _. split; [reflexivity|]. split; [apply Hl|done].
Qed.

Lemma goes_trans s R1 l1 s1 R2 l2 s2 : goes s R1 l1 s1 -> goes s1 R2 l2 s2 -> goes s R2 (l1 ++ l2) s2.
Proof. intros (_ & _ & E1) (H1 & H2 & E2). split; [done|]. split; [done|]. by rewrite executes_app, <- E1. Qed.

Lemma connect_loop_runs n : forall s, base s -> runs (connect_loop serve (S n)) s (fun _ s' => goes s (replies s) [] s').
Proof.
  induction n as [|n IH]; intros s Hs; cbn [connect_loop]; (eapply runs_bind; [by apply try_connect_runs|]); intros [] s1 Hg.
  1-3: by apply runs_ret.
  pose proof Hg as [[Hb _] [HR _]]. eapply runs_weaken; [by apply IH|]. cbn. intros ? s2 Hg2; cbn beta in Hg2. rewrite HR in Hg2. by eapply (goes_trans s _ [] s1 _ []).
Qed.

Lemma ReConnect_runs s : live s -> runs (ReConnect serve) s (fun _ s' => goes s (replies s) [] s').
Proof.
  intros [[Ha Hm Hc Hr] (c & e & Ec & He)]. unfold ReConnect, Close.
  set (s1 := mkRedis None (passwd s) (auth_enable s) (delete c (ctxs s)) (replies s) (next_id s) (srv s) (answers s)).
  eapply (runs_bind _ _ _ (fun _ s' => s' = s1)).
  - exists tt, s1. split; [|done]. unfold mbind, M_bind, get_connect, redisFree, put_connect. by rewrite Ec, He.
  - intros _ s' ->. eapply runs_weaken; [apply connect_loop_runs|by intros]. split; try done. intros k Hk. cbn in *.
    destruct (decide (k = c)) as [->|]; [by rewrite lookup_delete_eq|]. rewrite lookup_delete_ne by done. by apply Hc.
Qed.

(** A command and, where it had no reply, once more. *)
Lemma command_retry_runs cmd s : live s ->
  runs (command_retry serve cmd) s (fun r s' =>
    match r with
    | None => exists l, goes s (replies s) l s' /\ sublist l [cmd; cmd]
    | Some (id, r) => exists l, goes s ({[id]} ∪ replies s) (l ++ [cmd]) s' /\ (id ∉ replies s) /\ sublist l [cmd] /\ r = (serve (executes (srv s) l) cmd).2
    end).
Proof.
  intros Hl. pose proof Hl as [_ (c & e & Ec & _)]. unfold command_retry. eapply (runs_bind _ _ _ (fun a s' => a = Some c /\ s' = s)).
  { exists (Some c), s. unfold get_connect. by rewrite Ec. }
  intros _ _ [-> ->]. eapply runs_bind; [by apply redisCommand_runs|]. intros [[id r]|] s1 H1.
  - apply runs_ret. exists []. destruct H1 as (Hg & Hid & ->). split; [done|]. split; [done|]. split; [apply sublist_nil_l|done].
  - destruct H1 as (l1 & Hg1 & Hs1). pose proof Hg1 as (Hl1 & HR1 & Ev1). eapply runs_bind; [by apply ReConnect_runs|]. intros ? s2 Hg2; cbn beta in Hg2. rewrite HR1 in Hg2.
    pose proof (goes_trans _ _ _ _ _ _ _ Hg1 Hg2) as Hg12. rewrite app_nil_r in Hg12. pose proof Hg12 as (Hl2 & HR2 & Ev2). pose proof Hl2 as [_ (c2 & e2 & Ec2 & _)].
    eapply (runs_bind _ _ _ (fun a s' => a = Some c2 /\ s' = s2)); [exists (Some c2), s2; unfold get_connect; by rewrite Ec2|]. intros _ _ [-> ->].
    eapply runs_weaken; [by apply redisCommand_runs|]. intros [[id r]|] s3 H3; cbn beta iota in *.
    + destruct H3 as (Hg3 & Hid & ->). rewrite HR2 in *. exists l1. split; [by eapply goes_trans|]. split; [done|]. split; [done|]. by rewrite Ev2.
    + destruct H3 as (l3 & Hg3 & Hs3). rewrite HR2 in *. exists (l1 ++ l3). split; [by eapply goes_trans|]. by apply (sublist_app l1 [cmd] l3 [cmd]).
Qed.

(** ** The operations *)

Inductive redis_op : Type :=
| OGet (key : list byte)
| OSet (key value : list byte) (expiretime : Z)
| OExpire (key : list byte) (expiretime : Z)
| OLrange (key : list byte)
| ORpush (key value : list byte) (expiretime : Z)
| ODelete (key : list byte).

Definition run_op (o : redis_op) : @M Srv bool :=
  match o with
  | OGet k => r ← Get serve k; mret r.1
  | OSet k v t => Set_ serve k v t
  | OExpire k t => Expire serve k t
  | OLrange k => r ← Lrange serve k; mret r.1
  | ORpush k v t => Rpush serve k v t
  | ODelete k => Delete serve k
  end.

(** The command an operation is for, and the one that may follow it. *)
Definition main_command (o : redis_op) : command :=
  match o with
  | OGet k => GET (c_string k)
  | OSet k v _ => SET (c_string k) (c_string v)
  | OExpire k t => EXPIRE (c_string k) t
  | OLrange k => LRANGE (c_string k) 0 (-1)
  | ORpush k v _ => RPUSH (c_string k) (c_string v)
  | ODelete k => DEL (c_string k)
  end.
Definition expire_command (o : redis_op) : list command :=
  match o with
  | OSet k _ t | ORpush k _ t => if 0 <? t then [EXPIRE (c_string k) t] else []
  | _ => []
  end.
Definition frees_replies (o : redis_op) : bool := match o with OLrange _ | ORpush _ _ _ => false | _ => true end.

(** [l]: the commands the server executed for the operation. *)
Definition op_spec (o : redis_op) (s : state) (res : bool) (l : list command) (s' : state) : Prop :=
  exists R, goes s R l s' /\ replies s ⊆ R /\ (frees_replies o = true -> R = replies s)
  /\ sublist l ((main_command o :: expire_command o) ≫= fun c => [c; c])
  /\ (res = RESULT_OK -> main_command o ∈ l).

(** An operation that is one command and frees its reply. *)
Lemma simple_op cmd s (Q : bool -> state -> Prop) : live s ->
  (forall l s', goes s (replies s) l s' -> sublist l [cmd; cmd] -> Q RESULT_ERROR s') ->
  (forall l s', goes s (replies s) (l ++ [cmd]) s' -> sublist l [cmd] -> Q RESULT_OK s') ->
  runs (r ← command_retry serve cmd; match r with None => mret RESULT_ERROR | Some r => freeReplyObject r;; mret RESULT_OK end) s Q.
Proof.
  intros Hl Herr Hok. eapply runs_bind; [by apply command_retry_runs|]. intros [[id r]|] s1 H1.
  - destruct H1 as (l & Hg & Hid & Hs & _). eapply runs_bind; [by eapply freeReply_runs|]. intros ? s2 Hg2; cbn beta in Hg2. apply runs_ret. by eapply Hok.
  - destruct H1 as (l & Hg & Hs). apply runs_ret. by eapply Herr.
Qed.

Lemma sublist_twice (c : command) l : sublist l [c] -> sublist (l ++ [c]) [c; c].
Proof. intros H. by apply (sublist_app l [c] [c] [c]). Qed.

Lemma Expire_runs k t s : live s -> runs (Expire serve k t) s (fun res s' => exists l, op_spec (OExpire k t) s res l s').
Proof.
  intros Hl. apply simple_op; [done| |].
  - intros l s' Hg Hs. exists l, (replies s). split_and!; try done.
  - intros l s' Hg Hs. exists (l ++ [EXPIRE (c_string k) t]), (replies s). split_and!; try done; [by apply sublist_twice|]. intros _. cbn. set_solver.
Qed.

Lemma Get_runs k s : live s -> runs (Get serve k) s (fun res s' => (exists l, op_spec (OGet k) s res.1 l s')
  /\ (res.1 = RESULT_OK -> exists l str, reply_str (serve (executes (srv s) l) (GET (c_string k))).2 = Some str /\ res.2 = c_string str)).
Proof.
  intros Hl. unfold Get. eapply runs_bind; [by apply command_retry_runs|]. intros [[id r]|] s1 H1.
  - destruct H1 as (l & Hg & Hid & Hs & ->). cbn [snd].
    assert (forall res s', goes s (replies s) (l ++ [GET (c_string k)]) s' -> op_spec (OGet k) s res (l ++ [GET (c_string k)]) s') as Hop.
    { intros res s' Hg'. exists (replies s). split_and!; try done; [by apply sublist_twice|]. intros _. cbn. set_solver. }
    destruct (reply_str _) as [str|] eqn:Er; (eapply runs_bind; [by eapply freeReply_runs|]); intros ? s2 Hg2; cbn beta in Hg2; apply runs_ret; cbn [fst snd]; (split; [eauto|]); [eauto|done].
  - destruct H1 as (l & Hg & Hs). apply runs_ret. cbn [fst snd]. split; [|done]. exists l, (replies s). by split_and!.
Qed.

Lemma Lrange_runs k s : live s -> runs (Lrange serve k) s (fun res s' => exists l, op_spec (OLrange k) s res.1 l s').
Proof.
  intros Hl. unfold Lrange. eapply runs_bind; [by apply command_retry_runs|]. intros [[id r]|] s1 H1.
  - destruct H1 as (l & Hg & Hid & Hs & ->). cbn [snd]. set (cmd := LRANGE (c_string k) 0 (-1)) in *.
    assert (forall R res s', replies s ⊆ R -> goes s R (l ++ [cmd]) s' -> op_spec (OLrange k) s res (l ++ [cmd]) s') as Hop.
    { intros R res s' HR Hg'. exists R. split_and!; try done; [by apply sublist_twice|]. intros _. cbn. set_solver. }
    destruct (reply_elements _) as [|x xs]; [apply runs_ret; cbn [fst]; exists (l ++ [cmd]); eapply Hop; [|done]; set_solver|].
    eapply runs_bind; [by eapply freeReply_runs|]. intros ? s2 Hg2; cbn beta in Hg2. apply runs_ret. cbn [fst]. exists (l ++ [cmd]). by eapply Hop.
  - destruct H1 as (l & Hg & Hs). apply runs_ret. cbn [fst]. exists l, (replies s). by split_and!.
Qed.

Lemma sublist_main (c : command) cs : sublist [c; c] ((c :: cs) ≫= fun c => [c; c]).
Proof. cbn. change (c :: c :: ?x) with ([c; c] ++ x). by apply sublist_inserts_r. Qed.

(** The expiry that follows a command: its own failure is not reported. *)
Lemma expire_after o k t s s1 l R : main_command o ∈ l -> sublist l [main_command o; main_command o] -> expire_command o = (if 0 <? t then [EXPIRE (c_string k) t] else []) ->
  goes s R l s1 -> replies s ⊆ R -> (frees_replies o = true -> R = replies s) ->
  runs ((if 0 <? t then _ ← Expire serve k t; mret tt else mret tt);; mret RESULT_OK) s1 (fun res s' => exists l, op_spec o s res l s').
Proof.
  intros Hin Hs He Hg HR Hf. pose proof Hg as (Hl & HR1 & _). destruct (0 <? t).
  - eapply (runs_bind _ _ _ (fun _ s2 => exists l, op_spec (OExpire k t) s1 RESULT_ERROR l s2)).
    { eapply runs_bind; [by apply Expire_runs|]. intros res s2 (l2 & R2 & H2 & H3 & H4 & H5 & _). apply runs_ret. by exists l2, R2. }
    intros ? s2 (l2 & R2 & Hg2 & _ & Hf2 & Hs2 & _). rewrite (Hf2 eq_refl), HR1 in Hg2. apply runs_ret. exists (l ++ l2), R. split; [by eapply goes_trans|].
    split; [done|]. split; [done|]. split; [|intros _; by apply elem_of_app; left]. rewrite He. cbn. by apply (sublist_app l [_; _] l2).
  - eapply runs_bind; [by apply (runs_ret tt s1 (fun _ s2 => s2 = s1))|]. intros ? ? ->. apply runs_ret. exists l, R. split_and!; try done. by rewrite He.
Qed.

Lemma Set_runs k v t s : live s -> runs (Set_ serve k v t) s (fun res s' => exists l, op_spec (OSet k v t) s res l s').
Proof.
  intros Hl. unfold Set_. eapply runs_bind; [by apply command_retry_runs|]. intros [[id r]|] s1 H1.
  - destruct H1 as (l & Hg & Hid & Hs & _). eapply runs_bind; [by eapply freeReply_runs|]. intros ? s2 Hg2; cbn beta in Hg2.
    eapply expire_after; [|by apply sublist_twice|done|done|done|done]. cbn. set_solver.
  - destruct H1 as (l & Hg & Hs). apply runs_ret. exists l, (replies s). split_and!; try done. etrans; [done|]. apply sublist_main.
Qed.

Lemma Delete_runs k s : live s -> runs (Delete serve k) s (fun res s' => exists l, op_spec (ODelete k) s res l s').
Proof.
  intros Hl. apply simple_op; [done| |].
  - intros l s' Hg Hs. exists l, (replies s). split_and!; try done.
  - intros l s' Hg Hs. exists (l ++ [DEL (c_string k)]), (replies s). split_and!; try done; [by apply sublist_twice|]. intros _. cbn. set_solver.
Qed.

Lemma rpush_runs cmd s : live s -> runs (rpush_command serve cmd) s (fun ok s' =>
  exists l R, goes s R l s' /\ replies s ⊆ R /\ sublist l [cmd; cmd] /\ (ok = true -> cmd ∈ l)).
Proof.
  intros Hl. pose proof Hl as [_ (c & e & Ec & _)]. eapply (runs_bind _ _ _ (fun a s' => a = Some c /\ s' = s)).
  { exists (Some c), s. unfold get_connect. by rewrite Ec. }
  intros _ _ [-> ->]. eapply runs_bind; [by apply redisCommand_runs|]. intros [[id r]|] s1 H1.
  - destruct H1 as (Hg & Hid & _). eapply runs_bind; [by eapply freeReply_runs|]. intros ? s2 Hg2; cbn beta in Hg2. apply runs_ret. exists [cmd], (replies s).
    split_and!; try done; [by apply sublist_skip, sublist_nil_l|]. set_solver.
  - destruct H1 as (l1 & Hg1 & Hs1). pose proof Hg1 as (Hl1 & HR1 & Ev1). eapply runs_bind; [by apply ReConnect_runs|]. intros ? s2 Hg2; cbn beta in Hg2.
    rewrite HR1 in Hg2. pose proof (goes_trans _ _ _ _ _ _ _ Hg1 Hg2) as Hg12. rewrite app_nil_r in Hg12. pose proof Hg12 as (Hl2 & HR2 & Ev2).
    pose proof Hl2 as [_ (c2 & e2 & Ec2 & _)].
    eapply (runs_bind _ _ _ (fun a s' => a = Some c2 /\ s' = s2)); [exists (Some c2), s2; unfold get_connect; by rewrite Ec2|]. intros _ _ [-> ->].
    eapply runs_bind; [by apply redisCommand_runs|]. intros [[id r]|] s3 H3; apply runs_ret; cbn beta iota in *.
    + destruct H3 as (Hg3 & Hid & _). rewrite HR2 in *. exists (l1 ++ [cmd]), ({[id]} ∪ replies s). split; [by eapply goes_trans|].
      split_and!; [set_solver|by apply sublist_twice|set_solver].
    + destruct H3 as (l3 & Hg3 & Hs3). rewrite HR2 in *. exists (l1 ++ l3), (replies s). split; [by eapply goes_trans|].
      split_and!; [done|by apply (sublist_app l1 [cmd] l3 [cmd])|done].
Qed.

Lemma Rpush_runs k v t s : live s -> runs (Rpush serve k v t) s (fun res s' => exists l, op_spec (ORpush k v t) s res l s').
Proof.
  intros Hl. eapply runs_bind; [by apply rpush_runs|]. intros [] s1 (l & R & Hg & HR & Hs & Hok).
  - eapply expire_after; try done. by apply Hok.
  - apply runs_ret. exists l, R. split_and!; try done. etrans; [done|]. apply sublist_main.
Qed.

Lemma run_op_runs o s : live s -> runs (run_op o) s (fun res s' => exists l, op_spec o s res l s').
Proof.
  intros Hl. destruct o as [k|k v t|k t|k|k v t|k]; cbn [run_op].
  - eapply runs_bind; [by apply Get_runs|]. intros res s1 [Hop _]. by apply runs_ret.
  - by apply Set_runs.
  - by apply Expire_runs.
  - eapply runs_bind; [by apply Lrange_runs|]. intros res s1 Hop. by apply runs_ret.
  - by apply Rpush_runs.
  - by apply Delete_runs.
Qed.

(** A client: connect, then operations; their results. *)
Fixpoint run_ops (ops : list redis_op) : @M Srv (list bool) :=
  match ops with
  | [] => mret []
  | o :: ops' => res ← run_op o; rs ← run_ops ops'; mret (res :: rs)
  end.
Definition session_auth (p : list byte) (enable : bool) (ops : list redis_op) : @M Srv (list bool) :=
  _ ← Connect serve p enable; run_ops ops.
Definition session (ops : list redis_op) : @M Srv (list bool) := session_auth [] false ops.

(** What the server executed for an operation with result [res]. *)
Definition sent (o : redis_op) (res : bool) (l : list command) : Prop :=
  sublist l ((main_command o :: expire_command o) ≫= fun c => [c; c]) /\ (res = RESULT_OK -> main_command o ∈ l).

Lemma run_ops_runs ops : forall s, live s -> runs (run_ops ops) s (fun rs s' =>
  live s' /\ (Forall (fun o => frees_replies o = true) ops -> replies s' = replies s)
  /\ exists ls, srv s' = executes (srv s) (concat ls) /\ Forall3 sent ops rs ls).
Proof.
  induction ops as [|o ops IH]; intros s Hl; cbn [run_ops].
  - apply runs_ret. split; [done|]. split; [done|]. exists []. split; [done|constructor].
  - eapply runs_bind; [by apply run_op_runs|]. intros res s1 (l & R & (Hl1 & HR1 & Ev1) & _ & Hf & Hs & Hok).
    eapply runs_bind; [by apply IH|]. intros rs s2 (Hl2 & Hr2 & ls & Ev2 & Hls). apply runs_ret. split; [done|]. split.
    + intros HF. apply Forall_cons in HF as [H1 H2]. by rewrite Hr2, HR1, Hf.
    + exists (l :: ls). cbn [concat]. rewrite executes_app, <- Ev1. split; [done|]. constructor; [by split|done].
Qed.
End Client.


(** ** A server, and what happens outside *)

Definition demo_serve (m : gmap (list byte) (list byte + list (list byte))) (c : command) :
  gmap (list byte) (list byte + list (list byte)) * reply :=
  match c with
  | AUTH _ => (m, RStatus [])
  | GET k => (m, match m !! k with Some (inl v) => RString v | Some (inr _) => RError [Byte.x57] | None => RNil end)
  | SET k v => (<[k := inl v]> m, RStatus [])
  | EXPIRE _ _ => (m, RInteger 1)
  | LRANGE k _ _ => (m, match m !! k with Some (inr l) => RArray l | Some _ => RError [Byte.x57] | None => RArray [] end)
  | RPUSH k v =>
      match m !! k with
      | Some (inl _) => (m, RError [Byte.x57])
      | Some (inr l) => (<[k := inr (l ++ [v])]> m, RInteger (zlen l + 1))
      | None => (<[k := inr [v]]> m, RInteger 1)
      end
  | DEL k => (delete k m, RInteger 1)
  end.


(** What is set is got. *)
Lemma redis_set_get : exists s, session demo_serve [OSet [Byte.x6b] [Byte.x76] 0] (Redis_ctor ∅ []) = Ok ([RESULT_OK], s)
  /\ exists s', Get demo_serve [Byte.x6b] s = Ok ((RESULT_OK, [Byte.x76]), s').
Proof. eexists. split; [vm_compute; reflexivity|]. eexists. vm_compute. reflexivity. Qed.

(** The reply to a push is lost after the server executed it: the value is
    pushed twice, and the reply of the second attempt is never freed. *)
Lemma rpush_twice : exists s, session demo_serve [ORpush [Byte.x6b] [Byte.x76] 0] (Redis_ctor ∅ [Good; Lost true; Good; Good]) = Ok ([RESULT_OK], s)
  /\ srv s !! [Byte.x6b] = Some (inr [[Byte.x76]; [Byte.x76]]) /\ replies s <> ∅.
Proof. eexists. split; [vm_compute; reflexivity|]. split; [reflexivity|]. by vm_compute. Qed.

(** Getting a key that holds a list: the text of the error is the value. *)
Lemma get_returns_error_text : exists s s', session demo_serve [ORpush [Byte.x6b] [Byte.x76] 0] (Redis_ctor ∅ []) = Ok ([RESULT_OK], s)
  /\ Get demo_serve [Byte.x6b] s = Ok ((RESULT_OK, [Byte.x57]), s').
Proof. eexists _, _. split; [vm_compute; reflexivity|]. vm_compute. reflexivity. Qed.

(** When no context can be made, the repeated command gets a null pointer. *)
Lemma reconnect_null_crashes :
  session demo_serve [OGet [Byte.x6b]] (Redis_ctor ∅ [Good; Lost false; OutOfMemory; OutOfMemory; OutOfMemory]) = Fail NullPointer.
Proof. vm_compute. reflexivity. Qed.

(** With authentication: the connection breaks, and breaks again in the AUTH
    of each of the three attempts; the repeated command gets a null pointer. *)
Lemma auth_break_crashes :
  session_auth demo_serve [Byte.x70] true [OGet [Byte.x6b]]
    (Redis_ctor ∅ [Good; Good; Lost false; Good; Lost false; Good; Lost false; Good; Lost false]) = Fail NullPointer.
Proof. vm_compute. reflexivity. Qed.

(** Attempts to connect that failed leave their contexts. *)
Lemma connect_leaks_contexts : exists s, session demo_serve [] (Redis_ctor ∅ [Lost false; Lost false; Good]) = Ok ([], s)
  /\ ctxs s = {[ 0%nat := true; 1%nat := true; 2%nat := false ]} /\ connect_ s = Some 2%nat.
Proof. eexists. split; [vm_compute; reflexivity|]. split; reflexivity. Qed.
