(* ===== verification/ZkClient.v ===== *)
(** * The ZooKeeper client: src/zkclient/SyncZkClient.h, SyncZkClient.cpp

    Synchronous calls of the ZooKeeper library, whose answers are arguments.
    src/zkclient/client and server hold the same text. *)

From S2P Require Import Prelude CppString HttpContext.

Definition BUF_LEN : Z := 1024 * 4.
Definition ZOK : Z := 0.

(** [handle_]: not null. [zk_open]: handles opened and not closed. *)
Record ZkClient : Type := mkZk { handle_ : bool; zk_open : nat }.

Definition ZkClient_ctor : ZkClient := mkZk false 0.

(** [init_ok]: [zookeeper_init] returned a handle. *)
Definition Init (init_ok : bool) (c : ZkClient) : bool * ZkClient :=
  (init_ok, mkZk init_ok (if init_ok then S (zk_open c) else zk_open c)).

Definition ZkClient_dtor (c : ZkClient) : ZkClient := mkZk false (if handle_ c then Nat.pred (zk_open c) else zk_open c).

(** [rc]: what [zoo_create] returned. *)
Definition RegisterNode (rc : Z) : bool := if negb (rc =? 0) then false else true.

(** [str_vec], which is empty unless the call filled it. *)
Definition GetChildrenNodes (ret : Z) (str_vec : list (list byte)) (children_nodes : list (list byte)) : Z * list (list byte) :=
  (ret, children_nodes ++ (c_string <$> str_vec)).

(** [zoo_get]: what it returned, the bytes it wrote to the buffer and the
    length it set, if it set it: the data's, or -1 when there is none. *)
Record zoo_answer : Type := mkZoo { zoo_ret : Z; zoo_data : list byte; zoo_len : option Z }.

(** [GetNodeInfo] and [GetNodeInfoW]; [garbage] is what the allocated buffer
    held. [None]: [malloc] failed. *)
Definition GetNodeInfo (garbage : option (list byte)) (a : zoo_answer) : outcome (Z * option (list byte)) :=
  match garbage with
  | None => Ok (-1, None)
  | Some buf =>
      let len := default BUF_LEN (zoo_len a) in
      buf ← copy_into buf 0 (zoo_data a);
      if (0 <=? len) && (len <? zlen buf) then
        Ok (zoo_ret a, Some (c_string (<[Z.to_nat len := Byte.x00]> buf)))
      else Fail OutOfBounds
  end.

(** The library's answer for a node with [data]. *)
Definition found (data : list byte) : zoo_answer := mkZoo ZOK data (Some (zlen data)).

Lemma c_string_app s t : Byte.x00 ∉ s -> c_string (s ++ Byte.x00 :: t) = s.
Proof.
  induction s as [|b s IH]; intros H; [done|]. cbn [app c_string]. destruct (byte_eqb b Byte.x00) eqn:E.
  - apply byte_eqb_eq in E as ->. exfalso. apply H. by left.
  - rewrite IH; [done|]. intros Hin. apply H. by right.
Qed.

(** Data without a NUL that leaves room for one is returned as it is. *)
Lemma node_info_exact buf data : zlen buf = BUF_LEN -> zlen data < BUF_LEN -> Byte.x00 ∉ data ->
  GetNodeInfo (Some buf) (found data) = Ok (ZOK, Some data).
Proof.
  intros Hb Hd Hn. pose proof (zlen_nonneg data). unfold GetNodeInfo, found. cbn [zoo_len zoo_data zoo_ret default from_option]. unfold id.
  rewrite copy_into_ok by lia. cbn [mbind outcome_bind].
  change (take (Z.to_nat 0) buf) with (@nil byte). cbn [app]. rewrite Z.add_0_l, zlen_app. assert (zlen (drop (Z.to_nat (zlen data)) buf) = BUF_LEN - zlen data) as Hl.
  { unfold zlen in *. rewrite length_drop. lia. }
  rewrite Hl, (proj2 (Z.leb_le 0 _)), (proj2 (Z.ltb_lt _ _)) by lia. cbn [andb]. do 3 f_equal. unfold zlen. rewrite Nat2Z.id.
  destruct (drop (length data) buf) as [|x t] eqn:E; [unfold zlen in *; rewrite Nat2Z.id, E in Hl; cbn [length] in Hl; lia|].
  rewrite insert_app_r_alt, Nat.sub_diag by lia. cbn. by apply c_string_app.
Qed.

(** A node that does not exist: the length stays 4096, and the byte behind the
    buffer is written. *)
Lemma missing_node_overflows buf ret : zlen buf = BUF_LEN -> ret <> ZOK -> GetNodeInfo (Some buf) (mkZoo ret [] None) = Fail OutOfBounds.
Proof.
  intros Hb _. unfold GetNodeInfo. cbn [zoo_len zoo_data default from_option]. rewrite copy_into_ok by (rewrite ?Hb; done).
  cbn [mbind outcome_bind]. change (take (Z.to_nat 0) buf) with (@nil byte). cbn [app]. change (Z.to_nat (0 + zlen [])) with 0%nat. rewrite drop_0. rewrite Hb. done.
Qed.

(** A node without data: the length is -1. *)
Lemma null_node_underflows buf : zlen buf = BUF_LEN -> GetNodeInfo (Some buf) (mkZoo ZOK [] (Some (-1))) = Fail OutOfBounds.
Proof.
  intros Hb. unfold GetNodeInfo. cbn [zoo_len zoo_data default from_option]. by rewrite copy_into_ok by (rewrite ?Hb; done).
Qed.

(** Initialising again, as the session's watcher does, loses the first
    handle. *)
Lemma second_init_leaks : zk_open (ZkClient_dtor (Init true (Init true ZkClient_ctor).2).2) = 1%nat.
Proof. reflexivity. Qed.
