(* ===== verification/ProcessInfo.v ===== *)
(** * Facts about the process: src/mynetlib/base/ProcessInfo.cc

    What the kernel's files and directories hold is an argument; the functions
    that only pass on a system call's answer are left out. *)

From stdpp Require Import sorting.
From S2P Require Import Prelude Format CppString Strops.

(** [atoi]: spaces, a sign, and the digits that follow. *)
Fixpoint span_digits (s : list byte) : list byte :=
  match s with
  | [] => []
  | c :: s' => if is_digit c then c :: span_digits s' else []
  end.
Fixpoint skip_spaces (s : list byte) : list byte :=
  match s with
  | [] => []
  | c :: s' => if isspace c then skip_spaces s' else s
  end.
Definition atoi (s : list byte) : Z :=
  match skip_spaces s with
  | [] => 0
  | c :: s' =>
      if byte_eqb c Byte.x2d then s32 (- parse_u (span_digits s'))
      else if byte_eqb c Byte.x2b then s32 (parse_u (span_digits s'))
      else s32 (parse_u (span_digits (c :: s')))
  end.

Definition first_is_digit (name : list byte) : bool := match name with c :: _ => is_digit c | [] => false end.

(** The filters of [scandir] return 0 for every entry and work by their
    effects: a counter, a vector. *)
Definition fdDirFilter (t_numOpenedFiles : Z) (d_name : list byte) : Z :=
  if first_is_digit d_name then s32 (t_numOpenedFiles + 1) else t_numOpenedFiles.
Definition taskDirFilter (t_pids : list Z) (d_name : list byte) : list Z :=
  if first_is_digit d_name then t_pids ++ [atoi d_name] else t_pids.

Definition scanDir {S} (filter : S -> list byte -> S) (entries : list (list byte)) (s : S) : S := foldl filter s entries.

Definition openedFiles (entries : list (list byte)) : Z := scanDir fdDirFilter entries 0.

(** [limit]: the soft limit, if [getrlimit] succeeded. *)
Definition maxOpenFiles (limit : option Z) (entries : list (list byte)) : Z :=
  match limit with
  | None => openedFiles entries
  | Some rlim_cur => s32 rlim_cur
  end.

(** The name between the first and the last parenthesis. *)
Definition procname (stat : list byte) : list byte :=
  match str_find [Byte.x28] stat 0, str_rfind [Byte.x29] stat with
  | Some lp, Some rp => if (lp <? rp)%nat then take (Z.to_nat (s32 (Z.of_nat (rp - lp - 1)))) (drop (lp + 1) stat) else []
  | _, _ => []
  end.

Definition threads_label : list byte := str "Threads:".

Definition numThreads (status : list byte) : Z :=
  match str_find threads_label status 0 with
  | Some pos => atoi (drop (pos + 8) status)
  | None => 0
  end.

Definition threads (entries : list (list byte)) : list Z := merge_sort Z.le (scanDir taskDirFilter entries []).

(** ** Correctness *)

(** The name of the executable is found, parentheses and spaces in it
    included. *)
Lemma procname_exact pre name rest : Byte.x28 ∉ pre -> Byte.x29 ∉ rest -> zlen name < 2 ^ 31 ->
  procname (pre ++ Byte.x28 :: name ++ Byte.x29 :: rest) = name.
Proof.
  intros Hp Hr Hl. unfold procname. pose proof (str_find_char Byte.x28 [] pre (name ++ Byte.x29 :: rest) Hp) as Hf.
  cbn [app length Nat.add] in Hf. rewrite Hf.
  replace (pre ++ Byte.x28 :: name ++ Byte.x29 :: rest) with ((pre ++ Byte.x28 :: name) ++ Byte.x29 :: rest) at 1 by (by rewrite <- app_assoc).
  rewrite rfind_char by done. rewrite length_app. cbn [length]. destruct (Nat.ltb_spec (length pre) (length pre + S (length name))); [|lia].
  replace (length pre + S (length name) - length pre - 1)%nat with (length name) by lia.
  change (Z.of_nat (length name)) with (zlen name). pose proof (zlen_nonneg name). rewrite s32_small by lia. unfold zlen. rewrite Nat2Z.id.
  replace (pre ++ Byte.x28 :: name ++ Byte.x29 :: rest) with ((pre ++ [Byte.x28]) ++ name ++ Byte.x29 :: rest) by (by rewrite <- app_assoc).
  rewrite drop_app_length' by (rewrite length_app; cbn; lia). by rewrite take_app_length.
Qed.

Lemma span_digits_app s t : Forall (fun b => is_digit b = true) s -> first_is_digit t = false -> span_digits (s ++ t) = s.
Proof.
  induction 1 as [|c s Hc _ IH]; intros Ht; cbn [app span_digits]; [destruct t as [|d t]; [done|]; cbn in *; by rewrite Ht|]. by rewrite Hc, IH.
Qed.

Lemma digit_plain c : is_digit c = true -> isspace c = false /\ byte_eqb c Byte.x2d = false /\ byte_eqb c Byte.x2b = false.
Proof. by destruct c. Qed.

(** A printed number is read back, whatever follows that is not a digit. *)
Lemma atoi_fmt n rest : 0 <= n < 2 ^ 31 -> first_is_digit rest = false -> atoi (fmt_u n ++ rest) = n.
Proof.
  intros Hn Hr. pose proof (fmt_u_digits n ltac:(lia)) as Hd. pose proof (fmt_u_parse n ltac:(lia)) as Hp. pose proof (fmt_u_nonempty n) as Hne.
  assert (span_digits (fmt_u n ++ rest) = fmt_u n) as Hs by (by apply span_digits_app).
  destruct (fmt_u n) as [|c s] eqn:E; [cbn in Hne; lia|]. apply Forall_cons in Hd as [Hc Hd]. destruct (digit_plain c Hc) as (H1 & H2 & H3).
  cbn [app] in *. unfold atoi. cbn [skip_spaces]. rewrite H1, H2, H3, Hs, Hp. apply s32_small. lia.
Qed.

Lemma first_digit_fmt n : 0 <= n -> first_is_digit (fmt_u n) = true.
Proof. intros Hn. pose proof (fmt_u_digits n Hn) as Hd. pose proof (fmt_u_nonempty n). destruct (fmt_u n); [cbn in *; lia|]. by apply Forall_cons in Hd as [? _]. Qed.

(** The line [Threads:] of the status file. *)
Lemma numThreads_exact pre n rest : 0 <= n < 2 ^ 31 ->
  (forall j, (j < length pre)%nat -> is_prefix threads_label (drop j (pre ++ threads_label ++ Byte.x09 :: fmt_u n ++ Byte.x0a :: rest)) = false) ->
  numThreads (pre ++ threads_label ++ Byte.x09 :: fmt_u n ++ Byte.x0a :: rest) = n.
Proof.
  intros Hn Hp. unfold numThreads, str_find. rewrite drop_0, (find_at_intro threads_label pre) by done. cbn [fmap option_fmap option_map Nat.leb].
  rewrite Nat.add_0_l. change 8%nat with (length threads_label).
  rewrite app_assoc, drop_app_length' by (by rewrite length_app). transitivity (atoi (fmt_u n ++ Byte.x0a :: rest)); [|by apply atoi_fmt].
  unfold atoi. by cbn [skip_spaces isspace].
Qed.

(** The thread ids, sorted, whatever order the directory is read in. *)
Lemma threads_exact tids entries : Forall (fun t => 0 <= t < 2 ^ 31) tids ->
  filter (fun e => first_is_digit e = true) entries ≡ₚ fmt_u <$> tids ->
  Sorted Z.le (threads entries) /\ threads entries ≡ₚ tids.
Proof.
  intros Ht He. assert (forall acc, scanDir taskDirFilter entries acc = acc ++ (atoi <$> filter (fun e => first_is_digit e = true) entries)) as Hs.
  { clear. induction entries as [|e es IH]; intros acc; [by rewrite app_nil_r|]. unfold scanDir in *. cbn [foldl]. rewrite IH. unfold taskDirFilter at 1.
    destruct (first_is_digit e) eqn:E.
    - rewrite filter_cons_True by done. cbn. by rewrite <- app_assoc.
    - by rewrite filter_cons_False by (by rewrite E). }
  unfold threads. rewrite Hs. cbn [app]. split; [apply Sorted_merge_sort; intros x y; lia|]. rewrite merge_sort_Permutation, He, <- list_fmap_compose.
  replace ((atoi ∘ fmt_u) <$> tids) with tids; [done|]. rewrite <- (list_fmap_id tids) at 1. apply list_fmap_ext. intros i t Hi.
  rewrite Forall_lookup in Ht. unfold compose, id. symmetry. rewrite <- (app_nil_r (fmt_u t)). apply atoi_fmt; [by eapply Ht|done].
Qed.
