(* ===== verification/ThreadData.v ===== *)
(** * Per-thread and per-process objects: src/mynetlib/base/ThreadLocal.h,
    ThreadLocalSingleton.h, Singleton.h, WeakCallback.h, Atomic.h, Thread.*

    Threads are numbered, and so are the objects made by [new]; every call is
    one step, since it touches only what belongs to its thread, runs under
    [pthread_once], or is one atomic instruction. *)

From stdpp Require Import gmap.
From S2P Require Import Prelude Format LogStream.

(** Live objects, and the next number. *)
Record heap : Type := mkHeap { objs : gset nat; next_obj : nat }.

Definition heap_new (h : heap) : nat * heap := (next_obj h, mkHeap ({[next_obj h]} ∪ objs h) (S (next_obj h))).
Definition heap_delete (o : nat) (h : heap) : outcome heap :=
  if decide (o ∈ objs h) then Ok (mkHeap (objs h ∖ {[o]}) (next_obj h)) else Fail UseAfterFree.

Definition heap_ok (h : heap) : Prop := forall o, o ∈ objs h -> (o < next_obj h)%nat.

(** ** ThreadLocal *)

(** [slots]: the thread-specific values of [pkey_]. *)
Record ThreadLocal : Type := mkTL { slots : gmap nat nat; tl_heap : heap }.

Definition tl_value (t : nat) (s : ThreadLocal) : nat * ThreadLocal :=
  match slots s !! t with
  | Some o => (o, s)
  | None => let '(o, h) := heap_new (tl_heap s) in (o, mkTL (<[t := o]> (slots s)) h)
  end.

(** A thread that ends: its slot is cleared, then [destructor] runs. *)
Definition tl_exit (t : nat) (s : ThreadLocal) : outcome ThreadLocal :=
  match slots s !! t with
  | Some o => h ← heap_delete o (tl_heap s); Ok (mkTL (delete t (slots s)) h)
  | None => Ok s
  end.

(** ** ThreadLocalSingleton *)

(** [t_value_] of every thread; the deleter's key is a [ThreadLocal]. *)
Record TLSingleton : Type := mkTLS { t_value_ : gmap nat nat; deleter_ : ThreadLocal }.

Definition deleter_set (t o : nat) (d : ThreadLocal) : outcome ThreadLocal :=
  c_assert (bool_decide (slots d !! t = None));;
  Ok (mkTL (<[t := o]> (slots d)) (tl_heap d)).

Definition tls_instance (t : nat) (s : TLSingleton) : outcome (nat * TLSingleton) :=
  match t_value_ s !! t with
  | Some o => Ok (o, s)
  | None =>
      let '(o, h) := heap_new (tl_heap (deleter_ s)) in
      d ← deleter_set t o (mkTL (slots (deleter_ s)) h);
      Ok (o, mkTLS (<[t := o]> (t_value_ s)) d)
  end.

(** The end of a thread with [destructor]. *)
Definition tls_exit (t : nat) (s : TLSingleton) : outcome TLSingleton :=
  match slots (deleter_ s) !! t with
  | None => Ok s
  | Some obj =>
      c_assert (bool_decide (t_value_ s !! t = Some obj));;
      h ← heap_delete obj (tl_heap (deleter_ s));
      Ok (mkTLS (delete t (t_value_ s)) (mkTL (delete t (slots (deleter_ s))) h))
  end.

Inductive tls_event : Set := TlsUse (t : nat) | TlsExit (t : nat).

Definition tls_step (s : TLSingleton) (e : tls_event) : outcome TLSingleton :=
  match e with
  | TlsUse t => '(_, s') ← tls_instance t s; Ok s'
  | TlsExit t => tls_exit t s
  end.

(** Every slot has a live object of its own, and there are no others. *)
Record tl_inv (s : ThreadLocal) : Prop := {
  tl_ok : heap_ok (tl_heap s);
  tl_live : forall o, o ∈ objs (tl_heap s) <-> exists t, slots s !! t = Some o;
  tl_own : forall t t' o, slots s !! t = Some o -> slots s !! t' = Some o -> t = t';
}.

Lemma tl_add s t : tl_inv s -> slots s !! t = None ->
  tl_inv (mkTL (<[t := next_obj (tl_heap s)]> (slots s)) (heap_new (tl_heap s)).2).
Proof.
  intros [H1 H2 H3] Ht. assert (forall t o, slots s !! t = Some o -> (o < next_obj (tl_heap s))%nat) as Hlt by (intros t' o H; apply H1, H2; eauto).
  split; cbn [slots tl_heap heap_new snd objs next_obj].
  - intros o Ho. cbn [objs next_obj] in *. apply elem_of_union in Ho as [Ho|Ho]; [set_solver by lia|]. specialize (H1 o Ho). lia.
  - intros o. rewrite elem_of_union, elem_of_singleton, H2. split.
    + intros [->|[t' H]]; [exists t; by rewrite lookup_insert_eq|]. exists t'. rewrite lookup_insert_ne; [done|]. intros <-. congruence.
    + intros [t' H]. destruct (decide (t' = t)) as [->|]; [rewrite lookup_insert_eq in H; left; congruence|]. rewrite lookup_insert_ne in H by done. eauto.
  - intros t1 t2 o Ha Hb. apply lookup_insert_Some in Ha as [[<- Ea]|[_ Ha]]; apply lookup_insert_Some in Hb as [[<- Eb]|[_ Hb]]; [done| | |by eapply H3].
    + apply Hlt in Hb. lia.
    + apply Hlt in Ha. lia.
Qed.

Lemma tl_remove s t o : tl_inv s -> slots s !! t = Some o ->
  exists h, heap_delete o (tl_heap s) = Ok h /\ tl_inv (mkTL (delete t (slots s)) h).
Proof.
  intros [H1 H2 H3] Ht. unfold heap_delete. rewrite decide_True by (apply H2; eauto). eexists. split; [done|].
  split; cbn [slots tl_heap objs next_obj].
  - intros o' Ho. apply H1. cbn in Ho. set_solver.
  - intros o'. rewrite elem_of_difference, elem_of_singleton, H2. split.
    + intros [[t' H] Hn]. exists t'. rewrite lookup_delete_ne; [done|]. intros <-. congruence.
    + intros [t' H]. destruct (decide (t' = t)) as [->|]; [by rewrite lookup_delete_eq in H|]. rewrite lookup_delete_ne in H by done.
      split; [eauto|]. intros ->. by specialize (H3 _ _ _ H Ht).
  - intros t1 t2 o' Ha Hb. destruct (decide (t1 = t)) as [->|]; [by rewrite lookup_delete_eq in Ha|]. destruct (decide (t2 = t)) as [->|];
      [by rewrite lookup_delete_eq in Hb|]. rewrite lookup_delete_ne in Ha, Hb by done. by eapply H3.
Qed.

(** [ThreadLocal]: a thread gets one object, the same until it ends, and no
    other thread's; when it ends exactly that object is deleted. *)
Lemma thread_local_exact s t : tl_inv s ->
  (let '(o, s') := tl_value t s in tl_inv s' /\ slots s' !! t = Some o /\ tl_value t s' = (o, s')
    /\ forall t', t' <> t -> slots s' !! t' = slots s !! t')
  /\ exists s', tl_exit t s = Ok s' /\ tl_inv s' /\ slots s' = delete t (slots s).
Proof.
  intros Hs. split.
  - unfold tl_value. destruct (slots s !! t) as [o|] eqn:E; [by rewrite E|]. pose proof (tl_add s t Hs E). cbn [heap_new] in *.
    split; [done|]. cbn [slots]. rewrite lookup_insert_eq. split_and!; try done. intros t' Hn. by rewrite lookup_insert_ne.
  - unfold tl_exit. destruct (slots s !! t) as [o|] eqn:E; [|exists s; by rewrite delete_id].
    destruct (tl_remove s t o Hs E) as (h & -> & Hi). cbn [mbind outcome_bind]. by eexists.
Qed.

(** [ThreadLocalSingleton]: in every sequence of uses and ends of threads no
    assertion fails, and the live objects are one per thread that used it. *)
Lemma tls_run_inv es : forall s, tl_inv (deleter_ s) -> t_value_ s = slots (deleter_ s) ->
  exists s', foldM tls_step s es = Ok s' /\ tl_inv (deleter_ s') /\ t_value_ s' = slots (deleter_ s').
Proof.
  induction es as [|e es IH]; intros s Hs He; [by eexists|]. cbn [foldM].
  assert (exists s1, tls_step s e = Ok s1 /\ tl_inv (deleter_ s1) /\ t_value_ s1 = slots (deleter_ s1)) as (s1 & -> & Hs1 & He1); [|by apply IH].
  destruct e as [t|t]; cbn [tls_step].
  - unfold tls_instance. destruct (t_value_ s !! t) as [o|] eqn:E; [by eexists|]. cbn [heap_new]. unfold deleter_set. cbn [slots].
    rewrite He in E. rewrite bool_decide_true by done. cbn [c_assert mbind outcome_bind]. eexists. split; [done|]. cbn [deleter_ t_value_ slots].
    split; [by apply tl_add|by rewrite He].
  - unfold tls_exit. destruct (slots (deleter_ s) !! t) as [o|] eqn:E; [|by eexists]. rewrite He, bool_decide_true by done. cbn [c_assert mbind outcome_bind].
    destruct (tl_remove _ t o Hs E) as (h & -> & Hi). cbn [mbind outcome_bind]. eexists. split; [done|]. done.
Qed.

(** ** Singleton *)

Record Singleton : Type := mkSingleton { once : bool; value_ : option nat; at_exit : bool; s_heap : heap }.

Definition singleton_init (has_no_destroy : bool) (s : Singleton) : Singleton :=
  let '(o, h) := heap_new (s_heap s) in mkSingleton true (Some o) (negb has_no_destroy) h.

Definition singleton_instance (has_no_destroy : bool) (s : Singleton) : outcome (nat * Singleton) :=
  let s := if once s then s else singleton_init has_no_destroy s in
  match value_ s with
  | Some o => Ok (o, s)
  | None => Fail AssertFail
  end.

(** [destroy], which runs when the process exits. *)
Definition singleton_destroy (s : Singleton) : outcome Singleton :=
  if at_exit s then
    h ← match value_ s with Some o => heap_delete o (s_heap s) | None => Ok (s_heap s) end;
    Ok (mkSingleton (once s) None false h)
  else Ok s.

(** Every call returns the one object. After the exit handler ran, a class
    that is destroyed has none, and a call fails the assertion. *)
Lemma singleton_once nd h : heap_ok h -> exists o s, singleton_instance nd (mkSingleton false None false h) = Ok (o, s)
  /\ singleton_instance nd s = Ok (o, s) /\ o ∈ objs (s_heap s)
  /\ exists s', singleton_destroy s = Ok s' /\ singleton_instance nd s' = if nd then Ok (o, s') else Fail AssertFail.
Proof.
  intros Hh. exists (next_obj h). unfold singleton_instance at 1, singleton_init. cbn [once s_heap heap_new value_]. eexists. split; [done|].
  split; [done|]. split; [cbn; set_solver|]. unfold singleton_destroy. cbn [at_exit value_ s_heap once]. destruct nd; cbn [negb]; [by eexists|].
  unfold heap_delete. rewrite decide_True by (cbn; set_solver). cbn [mbind outcome_bind]. by eexists.
Qed.

(** ** WeakCallback *)

(** [owners]: how many shared pointers keep the object; [lock] adds one for
    the duration of the call. *)
Definition weak_call {S} (owners : nat) (f : S -> S) (s : S) : S := if (0 <? owners)%nat then f s else s.

(** ** AtomicIntegerT *)

Section Atomic.
Context (wrap : Z -> Z).

Definition atomic_get (v : Z) : Z * Z := (v, v).
Definition getAndAdd (x v : Z) : Z * Z := (v, wrap (v + x)).
Definition addAndGet (x v : Z) : Z * Z := let '(old, v') := getAndAdd x v in (wrap (old + x), v').
Definition incrementAndGet (v : Z) : Z * Z := addAndGet 1 v.
Definition decrementAndGet (v : Z) : Z * Z := addAndGet (-1) v.
Definition getAndSet (newValue v : Z) : Z * Z := (v, newValue).

(** The results of a sequence of increments by any threads. *)
Fixpoint increments (n : nat) (v : Z) : list Z * Z :=
  match n with
  | O => ([], v)
  | S n' => let '(r, v1) := incrementAndGet v in let '(rs, v') := increments n' v1 in (r :: rs, v')
  end.

(** Each increment returns a number of its own, in order, as long as the
    width suffices. *)
Lemma increments_tickets bound n : (forall z, 0 <= z <= bound -> wrap z = z) -> forall v, 0 <= v -> v + Z.of_nat n <= bound ->
  increments n v = (seqZ (v + 1) (Z.of_nat n), v + Z.of_nat n).
Proof.
  intros Hw. induction n as [|n IH]; intros v Hv Hb; [cbn; by rewrite Z.add_0_r|]. cbn [increments]. unfold incrementAndGet, addAndGet, getAndAdd.
  rewrite Hw by lia. rewrite IH by lia. rewrite (seqZ_cons (v + 1)) by lia.
  rewrite <- Z.add_1_r. replace (Z.pred (Z.of_nat (S n))) with (Z.of_nat n) by lia. f_equal. lia.
Qed.
End Atomic.

(** ** Thread: src/mynetlib/base/Thread.h, Thread.cc *)

Module BaseThread.

(** How [func_] ends. *)
Inductive func_result : Set := FReturns | FException | FStdException | FUnknown.

(** [startThread]: before the thread id is stored ([RLock], and [RStore] with
    the pointer locked), before the name is set, before [func_], before the
    [ThreadData] is deleted, ended. *)
Inductive run_pc : Set := RLock | RStore | RName | RFunc | RDelete | REnded.
Inductive pthread : Set := PtNone | PtJoinable (pc : run_pc) | PtDetached (pc : run_pc) | PtJoined.

#[export] Instance run_pc_eq : EqDecision run_pc.
Proof. solve_decision. Defined.
#[export] Instance pthread_eq : EqDecision pthread.
Proof. solve_decision. Defined.

Record Thread : Set := mkThread { started_ : bool; joined_ : bool }.

(** The [Thread] object until its destructor, the [pid_t] it shares and the
    number of its owners, the pthread, whether the [ThreadData] exists, whether
    the owner is inside [pthread_join], [t_threadName], and the number of
    complete runs of [func_]. *)
Record world : Type := mkWorld {
  obj : option Thread; tid_ : Z; refs : nat; pth : pthread; data_live : bool; joining : bool; t_threadName : list byte; runs : nat;
}.

Inductive thread_label : Set := TStart (created : bool) | TJoin | TJoinReturns | TDtor | TWork.

(** [setDefaultName], with the count of threads created before. *)
Definition setDefaultName (numCreated : Z) (name_ : list byte) : list byte * Z :=
  let '(num, n) := incrementAndGet s32 numCreated in
  (match name_ with [] => snprintf 32 (str "Thread" ++ fmt_d num) | _ => name_ end, n).

Definition Thread_ctor : world := mkWorld (Some (mkThread false false)) 0 1 PtNone false false (str "unknown") 0.

Definition pt_pc (p : pthread) : option run_pc :=
  match p with PtNone => None | PtJoinable pc | PtDetached pc => Some pc | PtJoined => Some REnded end.
Definition with_pc (pc : run_pc) (p : pthread) : pthread :=
  match p with PtJoinable _ => PtJoinable pc | PtDetached _ => PtDetached pc | p => p end.

Section Thread.
Context (tid : Z) (name_ : list byte) (func_ : func_result).

(** [Thread::start]. *)
Definition start (created : bool) (th : Thread) (w : world) : outcome world :=
  c_assert (negb (started_ th));;
  if created
  then Ok (mkWorld (Some (mkThread true (joined_ th))) (tid_ w) (refs w) (PtJoinable RLock) true (joining w) (t_threadName w) (runs w))
  else Fail Fatal.

(** [Thread::join] up to [pthread_join], which a pthread allows once. *)
Definition join (th : Thread) (w : world) : outcome world :=
  c_assert (started_ th);;
  c_assert (negb (joined_ th));;
  match pth w with
  | PtJoinable _ => Ok (mkWorld (Some (mkThread (started_ th) true)) (tid_ w) (refs w) (pth w) (data_live w) true (t_threadName w) (runs w))
  | _ => Fail UseAfterFree
  end.

(** [Thread::~Thread]. *)
Definition Thread_dtor (th : Thread) (w : world) : outcome world :=
  p ← (if started_ th && negb (joined_ th)
       then match pth w with PtJoinable pc => Ok (PtDetached pc) | _ => Fail UseAfterFree end
       else Ok (pth w));
  Ok (mkWorld None (tid_ w) (pred (refs w)) p (data_live w) (joining w) (t_threadName w) (runs w)).

Definition set_pc (pc : run_pc) (w : world) : world :=
  mkWorld (obj w) (tid_ w) (refs w) (with_pc pc (pth w)) (data_live w) (joining w) (t_threadName w) (runs w).
Definition set_name (n : list byte) (w : world) : world :=
  mkWorld (obj w) (tid_ w) (refs w) (pth w) (data_live w) (joining w) n (runs w).

(** [ThreadData::runInThread] and [startThread]. *)
Definition runInThread (pc : run_pc) (w : world) : outcome world :=
  match pc with
  | RLock =>
      if (0 <? refs w)%nat
      then Ok (set_pc RStore (mkWorld (obj w) (tid_ w) (S (refs w)) (pth w) (data_live w) (joining w) (t_threadName w) (runs w)))
      else Ok (set_pc RName w)
  | RStore =>
      if (0 <? refs w)%nat
      then Ok (set_pc RName (mkWorld (obj w) tid (pred (refs w)) (pth w) (data_live w) (joining w) (t_threadName w) (runs w)))
      else Fail UseAfterFree
  | RName =>
      if data_live w then Ok (set_pc RFunc (set_name (match name_ with [] => str "muduoThread" | _ => name_ end) w)) else Fail UseAfterFree
  | RFunc =>
      if data_live w then
        match func_ with
        | FReturns =>
            let w := set_name (str "finished") w in
            Ok (set_pc RDelete (mkWorld (obj w) (tid_ w) (refs w) (pth w) (data_live w) (joining w) (t_threadName w) (S (runs w))))
        | _ => Fail Fatal
        end
      else Fail UseAfterFree
  | RDelete =>
      if data_live w
      then Ok (set_pc REnded (mkWorld (obj w) (tid_ w) (refs w) (pth w) false (joining w) (t_threadName w) (runs w)))
      else Fail UseAfterFree
  | REnded => Ok w
  end.

(** The owner calls the object while it exists and it is not inside
    [pthread_join]; that call returns when the thread has ended. *)
Definition step (w : world) (l : thread_label) : outcome world :=
  match l, obj w with
  | TWork, _ => match pt_pc (pth w) with Some pc => runInThread pc w | None => Ok w end
  | TJoinReturns, _ =>
      match pth w with
      | PtJoinable REnded =>
          if joining w then Ok (mkWorld (obj w) (tid_ w) (refs w) PtJoined (data_live w) false (t_threadName w) (runs w)) else Ok w
      | _ => Ok w
      end
  | _, None => Ok w
  | TStart created, Some th => if joining w then Ok w else start created th w
  | TJoin, Some th => if joining w then Ok w else join th w
  | TDtor, Some th => if joining w then Ok w else Thread_dtor th w
  end.

(** The owners of the shared [pid_t]; who may still join; when the
    [ThreadData] exists; how often [func_] ran; the stored id. *)
Definition world_ok (w : world) : bool :=
  (refs w =? match obj w with Some _ => 1 | None => 0 end + (if bool_decide (pt_pc (pth w) = Some RStore) then 1 else 0))%nat
  && match obj w with
     | Some (mkThread false j) => negb j && negb (joining w) && bool_decide (pth w = PtNone)
     | Some (mkThread true false) => negb (joining w) && match pth w with PtJoinable _ => true | _ => false end
     | Some (mkThread true true) => if joining w then match pth w with PtJoinable _ => true | _ => false end else bool_decide (pth w = PtJoined)
     | None => negb (joining w) && match pth w with PtJoinable _ => false | _ => true end
     end
  && eqb (data_live w) (match pt_pc (pth w) with None | Some REnded => false | _ => true end)
  && (runs w =? match pt_pc (pth w) with Some (RDelete | REnded) => 1 | _ => 0 end)%nat
  && match pt_pc (pth w) with
     | Some (RName | RFunc | RDelete | REnded) => match obj w with Some _ => tid_ w =? tid | None => true end
     | _ => true
     end.

Lemma step_world_ok w l : world_ok w = true ->
  match step w l with Ok w' => world_ok w' = true | Fail f => f = AssertFail \/ f = Fatal end.
Proof.
  destruct w as [o i r p d j n k]. unfold world_ok. cbn [obj tid_ refs pth data_live joining runs]. rewrite !andb_true_iff. intros [[[[Hr Ho] Hd] Hk] Hi].
  apply Nat.eqb_eq in Hr as ->. apply Nat.eqb_eq in Hk as ->. apply eqb_prop in Hd as ->.
  destruct o as [[[] []]|], p as [|pc|pc|]; try destruct pc; destruct j; try discriminate Ho; destruct l as [[]| | | |];
    cbn in *; rewrite ?Hi, ?Z.eqb_refl; try (destruct func_); cbn; rewrite ?Hi, ?Z.eqb_refl; auto.
Qed.

Lemma run_world_ok ls : forall w, world_ok w = true ->
  match foldM step w ls with Ok w' => world_ok w' = true | Fail f => f = AssertFail \/ f = Fatal end.
Proof.
  induction ls as [|l ls IH]; intros w Hw; [done|]. cbn [foldM]. pose proof (step_world_ok w l Hw) as H. destruct (step w l); [by apply IH|done].
Qed.

(** Whatever the owner calls and whenever the thread runs, the process stops
    only by an assertion on misuse, a failed creation or an exception: the
    stored id, the [ThreadData] and the pthread are never used after their
    end. [func_] runs once; after [join] it has run and the id is the thread's;
    an object that is gone leaves nothing to join, and when the thread has
    ended too, nothing is left. *)
Lemma thread_safe ls :
  match foldM step Thread_ctor ls with
  | Ok w => (runs w <= 1)%nat
      /\ (pth w = PtJoined -> runs w = 1%nat /\ data_live w = false /\ (obj w <> None -> tid_ w = tid))
      /\ (obj w = None -> forall pc, pth w <> PtJoinable pc)
      /\ (obj w = None -> pt_pc (pth w) = Some REnded -> refs w = 0%nat /\ data_live w = false)
  | Fail f => f = AssertFail \/ f = Fatal
  end.
Proof.
  pose proof (run_world_ok ls Thread_ctor eq_refl) as H. destruct (foldM step Thread_ctor ls) as [w|f]; [|done].
  destruct w as [o i r p d j n k]. unfold world_ok in H. cbn [obj tid_ refs pth data_live joining runs] in *. rewrite !andb_true_iff in H.
  destruct H as [[[[->%Nat.eqb_eq Ho] ->%eqb_prop] ->%Nat.eqb_eq] Hi].
  split_and!; destruct o as [[[] []]|], p as [|pc|pc|]; try destruct pc; destruct j; try discriminate Ho; cbn in *; intros; try lia; try discriminate;
    split_and!; try done; intros; by apply Z.eqb_eq.
Qed.
End Thread.

(** [CurrentThread::sleepUsec]: the two fields given to [nanosleep]. *)
Definition sleepUsec (usec : Z) : Z * Z := (Z.quot usec 1000000, Z.rem usec 1000000 * 1000).

Lemma sleepUsec_exact usec : 0 <= usec < 2 ^ 63 ->
  let '(sec, nsec) := sleepUsec usec in sec * 1000000000 + nsec = usec * 1000 /\ 0 <= nsec < 1000000000.
Proof.
  intros H. unfold sleepUsec. pose proof (Z.quot_rem' usec 1000000). pose proof (Z.rem_bound_pos usec 1000000). lia.
Qed.

(** Names: a thread without one is called by its number, which fits. *)
Lemma default_name numCreated name : 0 <= numCreated < 2 ^ 31 - 1 ->
  setDefaultName numCreated name = (match name with [] => str "Thread" ++ fmt_d (numCreated + 1) | _ => name end, numCreated + 1).
Proof.
  intros H. unfold setDefaultName, incrementAndGet, addAndGet, getAndAdd. rewrite s32_small by lia. destruct name; [|done]. f_equal.
  pose proof (fmt_d_length (numCreated + 1) ltac:(lia)). unfold snprintf. apply take_ge. rewrite length_app. unfold zlen in *. change (length (str "Thread")) with 6%nat. lia.
Qed.

End BaseThread.
