(* ===== verification/TcpPair.v ===== *)
(** * Two connections and the network between them

    A [TcpConnection] at either end of a TCP stream. What the kernel of one
    end took is delivered to the reads of the other in order, in pieces of any
    size; the end of the stream is reported when the writing side was shut
    down or its connection is down, and everything was read. Both ends are driven by any events, functors
    and calls of other threads. *)

From stdpp Require Import gmap.
From S2P Require Import Prelude Format Buffer BufferSpec Channel Poller TcpConnection TcpConnectionInv TcpConnectionExamples.

(** ** What a connection does with its input and its wire *)

Section Frame.
Context {B : Type} `{!ByteQueue B}.
Context (chan : Z) (user : cevent -> list uaction).
Abbreviation conn := (TcpConnection B).

(** The wire and the record of shutdowns only grow; a shutdown is recorded
    with what was on the wire. A closed connection stays closed. *)
Definition fins_grow (c c' : conn) : Prop :=
  (exists l, fins c' = fins c ++ l /\ Forall (fun f => f.2.1 `prefix_of` wire c') l) /\
  (state_ c = kDisconnected -> state_ c' = kDisconnected).

Lemma fins_grow_refl c c' : fins c' = fins c -> (state_ c = kDisconnected -> state_ c' = kDisconnected) -> fins_grow c c'.
Proof. intros H Hs. split; [|done]. exists []. split; [by rewrite app_nil_r|by constructor]. Qed.

Lemma fins_grow_trans c1 c2 c3 : wire c2 `prefix_of` wire c3 -> fins_grow c1 c2 -> fins_grow c2 c3 -> fins_grow c1 c3.
Proof.
  intros Hw [(l1 & E1 & H1) S1] [(l2 & E2 & H2) S2]. split; [|tauto]. exists (l1 ++ l2). rewrite E2, E1, app_assoc. split; [done|]. apply Forall_app. split; [|done].
  eapply Forall_impl; [exact H1|]. intros f Hf. exact (transitivity Hf Hw).
Qed.

(** The input buffer holds a suffix of what it held. *)
Record io_frame (c c' : conn) : Prop := mkIoFrame {
  io_wire : wire c `prefix_of` wire c';
  io_fins : fins_grow c c';
  io_wf : wf (inputBuffer_ c');
  io_input : exists eaten, readable (inputBuffer_ c) = eaten ++ readable (inputBuffer_ c');
}.

Lemma io_refl c : wf (inputBuffer_ c) -> io_frame c c.
Proof. intros H. split; try done; [by apply fins_grow_refl|by exists []]. Qed.

Lemma io_trans c1 c2 c3 : io_frame c1 c2 -> io_frame c2 c3 -> io_frame c1 c3.
Proof.
  intros [H1 H2 H3 [e1 E1]] [G1 G2 G3 [e2 E2]]. split; [by etrans|by eapply fins_grow_trans|done|]. exists (e1 ++ e2). by rewrite E1, E2, app_assoc.
Qed.

(** Operations that leave the input alone. *)
Definition keeps (c c' : conn) : Prop := wire c `prefix_of` wire c' /\ fins_grow c c' /\ inputBuffer_ c' = inputBuffer_ c.

Lemma conn_keeps_refl c : keeps c c.
Proof. split_and!; try done. by apply fins_grow_refl. Qed.
Lemma conn_keeps_trans c1 c2 c3 : keeps c1 c2 -> keeps c2 c3 -> keeps c1 c3.
Proof. intros (H1 & H2 & H3) (G1 & G2 & G3). split_and!; [by etrans|by eapply fins_grow_trans|congruence]. Qed.
Lemma keeps_io c c' : wf (inputBuffer_ c) -> keeps c c' -> io_frame c c'.
Proof. intros Hw (H1 & H2 & H3). split; rewrite ?H3; try done. by exists []. Qed.

(** A connection tested to be up is not down. *)
Ltac simplify_states :=
  intros; repeat match goal with
  | H : (_ || _) = true |- _ => apply orb_true_iff in H as [H|H]
  | H : state_eqb _ _ = true |- _ => apply state_eqb_true in H
  end; try congruence.

Ltac keeping := repeat case_match; unfold keeps; cbn; split_and!; try done; try (by apply prefix_app_r); try (apply fins_grow_refl; cbn; [done|simplify_states; done]);
  try (split; [eexists; split; [done|by constructor]|cbn; simplify_states; done]).

Lemma keeps_queueFunctor f c : keeps c (queueFunctor f c).
Proof. keeping. Qed.
Lemma keeps_startRead c : keeps c (startReadInLoop chan c).
Proof. unfold startReadInLoop. keeping. Qed.
Lemma keeps_stopRead c : keeps c (stopReadInLoop chan c).
Proof. unfold stopReadInLoop. keeping. Qed.
Lemma keeps_shutdownInLoop c : keeps c (shutdownInLoop c).
Proof. unfold shutdownInLoop. keeping. Qed.
Lemma keeps_shutdown c : keeps c (shutdown c).
Proof. unfold shutdown, shutdownInLoop. keeping. Qed.
Lemma keeps_remotes rs c : keeps c (set_remotes rs c).
Proof. keeping. Qed.
Lemma keeps_forceClose c : keeps c (forceClose c).
Proof. unfold forceClose. keeping. Qed.
Lemma keeps_forceCloseWithDelay c : keeps c (forceCloseWithDelay c).
Proof. unfold forceCloseWithDelay. keeping. Qed.
Lemma alive_up (c : conn) : alive c = true -> state_ c <> kDisconnected.
Proof. unfold alive. intros H E. rewrite E in H. done. Qed.
Lemma keeps_remote i r (c : conn) : remote_ok r c -> keeps c (remote_access i r c).
Proof. intros Hok. destruct r as [data|[]|[]|[]]; cbn [remote_access remote_ok] in *; try apply alive_up in Hok; keeping. Qed.

Lemma keeps_direct_write data wr c : keeps c (direct_write data wr c).2.
Proof. unfold direct_write. keeping. Qed.

Lemma keeps_sendInLoop data wr c c' : sendInLoop chan data wr c = Ok c' -> keeps c c'.
Proof.
  unfold sendInLoop. destruct (state_eqb _ _); [intros [= <-]; apply conn_keeps_refl|]. pose proof (keeps_direct_write data wr c) as Hk.
  destruct (direct_write data wr c) as [[[n rem] flt] c1]. cbn [snd] in Hk. destruct (rem <=? zlen data); cbn [c_assert mbind outcome_bind]; [|done].
  destruct (negb flt && (0 <? rem)).
  - match goal with |- context [bq_append (outputBuffer_ (if ?b then ?x else ?y))] => set (c2 := if b then x else y) end.
    assert (keeps c c2) as Hk2.
    { eapply conn_keeps_trans; [done|]. unfold c2. destruct (_ && _); [apply keeps_queueFunctor|apply conn_keeps_refl]. }
    clearbody c2. destruct (bq_append _ _) as [out|]; cbn [mbind outcome_bind]; [|done]. intros [= <-]. eapply conn_keeps_trans; [done|]. keeping.
  - intros [= <-]. eapply conn_keeps_trans; [done|]. keeping.
Qed.

Lemma keeps_handleWrite wr c c' : handleWrite chan wr c = Ok c' -> keeps c c'.
Proof.
  unfold handleWrite. destruct (isWriting (channel_ c)); [|intros [= <-]; apply conn_keeps_refl]. destruct (wr _) as [n|]; [|intros [= <-]; apply conn_keeps_refl].
  destruct (0 <? n); [|intros [= <-]; apply conn_keeps_refl]. cbn [outputBuffer_ set_wire]. destruct (bq_retrieve _ _) as [out|]; cbn [mbind outcome_bind]; [|done].
  unfold shutdownInLoop. destruct (bq_readable out =? 0); intros [= <-]; keeping.
Qed.

(** User code may consume input; nothing else removes any. *)
Lemma io_uaction c a c' : wf (inputBuffer_ c) -> run_uaction chan c a = Ok c' -> io_frame c c'.
Proof.
  intros Hw. destruct a as [data wr| | | | | |n]; cbn [run_uaction]; try (intros [= <-]; apply keeps_io; [done|]).
  - unfold send. destruct (state_eqb _ _); [intros H; apply keeps_io; [done|]; by eapply keeps_sendInLoop|intros [= <-]; by apply io_refl].
  - apply keeps_shutdown.
  - apply keeps_forceClose.
  - apply keeps_forceCloseWithDelay.
  - apply keeps_startRead.
  - apply keeps_stopRead.
  - destruct ((0 <=? n) && (n <=? readableBytes (inputBuffer_ c))) eqn:E.
    + apply andb_true_iff in E as [?%Z.leb_le ?%Z.leb_le]. destruct (retrieve_ok (inputBuffer_ c) n Hw) as (b & -> & Hwf & Hr & _); [done|].
      intros [= <-]. split; cbn; try done; [by apply fins_grow_refl|]. exists (take (Z.to_nat n) (readable (inputBuffer_ c))). by rewrite Hr, take_drop.
    + intros [= <-]. destruct (retrieveAll_wf (inputBuffer_ c) Hw) as [Hwf Hr]. split; cbn; try done; [by apply fins_grow_refl|]. eexists. by rewrite Hr, app_nil_r.
Qed.

Lemma io_uactions l : forall c c', wf (inputBuffer_ c) -> foldM (run_uaction chan) c l = Ok c' -> io_frame c c'.
Proof.
  induction l as [|a l IH]; intros c c' Hw; cbn [foldM]; [intros [= <-]; by apply io_refl|].
  destruct (run_uaction chan c a) as [c1|] eqn:E; cbn [mbind outcome_bind]; [|done]. intros H.
  pose proof (io_uaction _ _ _ Hw E) as H1. eapply io_trans; [done|]. apply IH; [apply H1|done].
Qed.

Lemma io_call_user e c c' : wf (inputBuffer_ c) -> call_user chan user e c = Ok c' -> io_frame c c'.
Proof. intros Hw H. apply (io_trans _ (report e c)); [by apply keeps_io; [|keeping]|by eapply io_uactions]. Qed.

Lemma io_handleClose c c' : wf (inputBuffer_ c) -> handleClose chan user c = Ok c' -> io_frame c c'.
Proof.
  intros Hw. unfold handleClose. destruct (_ || _); cbn [c_assert mbind outcome_bind]; [|done].
  set (c0 := ch_disableAll chan _). assert (io_frame c c0) as H0 by (by apply keeps_io; [|unfold c0; keeping]). clearbody c0.
  unfold connectionCallback. destruct (call_user chan user _ c0) as [c1|] eqn:E1; cbn [mbind outcome_bind]; [|done].
  apply io_call_user in E1 as H1; [|apply H0]. unfold closeCallback. destruct (call_user chan user EvClose c1) as [c2|] eqn:E2; cbn [mbind outcome_bind]; [|done].
  apply io_call_user in E2 as H2; [|apply H1]. intros [= <-].
  do 3 (eapply io_trans; [done|]). apply keeps_io; [apply H2|apply keeps_queueFunctor].
Qed.

Lemma io_handleRead readv c c' : readv_spec readv -> wf (inputBuffer_ c) -> in_room c -> conn_handleRead chan user readv c = Ok c' ->
  exists b, wf b /\ readable b = readable (inputBuffer_ c) ++ rv_data (readv (readFd_iov (inputBuffer_ c))) /\ io_frame (set_input b c) c'.
Proof.
  intros Hrv Hw Hin. unfold conn_handleRead. destruct (readFd_ok readv Hrv (inputBuffer_ c) Hw Hin) as (saved & b & -> & Hwf & Hr & _).
  cbn [mbind outcome_bind]. intros H. exists b. split; [done|]. split; [done|]. destruct (0 <? rv_n _); [by eapply io_call_user|].
  destruct (rv_n _ =? 0); [by apply io_handleClose|]. injection H as <-. by apply io_refl.
Qed.

Definition reads (r : Z) : bool := has r (Z.lor POLLIN (Z.lor POLLPRI POLLRDHUP)).

(** The bytes an event handler read. *)
Definition got (r : Z) (readv : list Z -> readv_result) (c : conn) : list byte :=
  if reads r then rv_data (readv (readFd_iov (inputBuffer_ c))) else [].

(** What remains in the input buffer after an event is a suffix of what it
    held and what was read. *)
Record io_event (extra : list byte) (c c' : conn) : Prop := mkIoEvent {
  ie_wire : wire c `prefix_of` wire c';
  ie_fins : fins_grow c c';
  ie_wf : wf (inputBuffer_ c');
  ie_input : exists eaten, readable (inputBuffer_ c) ++ extra = eaten ++ readable (inputBuffer_ c');
}.

Lemma io_event_frame c c' : io_frame c c' -> io_event [] c c'.
Proof. intros [H1 H2 H3 [e E]]. split; try done. exists e. by rewrite app_nil_r. Qed.

Lemma io_event_pre x c1 c2 c3 : keeps c1 c2 -> io_event x c2 c3 -> io_event x c1 c3.
Proof. intros (H1 & H2 & H3) [G1 G2 G3 [e E]]. split; [by etrans|by eapply fins_grow_trans|done|]. exists e. by rewrite <- H3. Qed.

Lemma io_event_post x c1 c2 c3 : io_event x c1 c2 -> keeps c2 c3 -> io_event x c1 c3.
Proof. intros [H1 H2 H3 [e E]] (G1 & G2 & G3). split; [by etrans|by eapply fins_grow_trans|by rewrite G3|]. exists e. by rewrite G3. Qed.

(** The end of [handleEventWithGuard]: the write callback. *)
Lemma keeps_write_stage readv wr c c' : conn_inv chan c ->
  (s4 ← fire channel_ (channel_callback chan user readv wr) (fun r => has r POLLOUT) WriteCallback c;
   Ok (set_channel (set_eventHandling false (channel_ s4)) s4)) = Ok c' -> keeps c c'.
Proof.
  intros Hi. rewrite (fire_eq chan _ _ _ c Hi). destruct (has _ POLLOUT); cbn [channel_callback].
  - destruct (handleWrite chan wr c) as [c4|] eqn:E; cbn [mbind outcome_bind]; [|done]. intros [= <-]. eapply conn_keeps_trans; [by eapply keeps_handleWrite|keeping].
  - cbn [mbind outcome_bind]. intros [= <-]. keeping.
Qed.

Context (U : Z).
Hypothesis Huser : user_ok user.
Hypothesis Hcost : forall e, ua_costs (user e) <= U.
Hypothesis Hdown : quiet_on user (EvConnection false).
Hypothesis Hclose : quiet_on user EvClose.

Lemma io_LEvent r readv wr c c' : conn_inv chan c -> life c -> step_ok user U c (LEvent r readv wr) ->
  conn_step chan user c (LEvent r readv wr) = Ok c' -> io_event (got r readv c) c c'.
Proof.
  intros Hi Hl (He & Hrv & Hwr & Hr & Hin & Hroom). pose proof (events_alive chan c Hi He) as Ha. cbn [conn_step].
  set (c1 := set_channel (set_revents r (channel_ c)) c). intros H.
  assert (handleEventWithGuard channel_ set_channel (channel_callback chan user readv wr) c1 = Ok c') as Hg by (revert H; unfold handleEvent; by destruct (tied_ _)).
  clear H. revert Hg. unfold handleEventWithGuard. set (c0 := set_channel _ c1). pose proof (U_nonneg user U Hcost) as HU.
  assert (conn_inv chan c1) as Hi1 by (by apply set_channel_inv). assert (conn_inv chan c0) as Hi0 by (by apply set_channel_inv).
  assert (life c1) as Hl1 by (by apply set_channel_life). assert (life c0) as Hl0 by (by apply set_channel_life).
  assert (keeps c c0) as Hk0 by keeping. assert (got r readv c = got r readv c0) as -> by done.
  rewrite (fire_eq chan _ _ _ c0 Hi0). change (revents_ (channel_ c0)) with r. destruct (has r POLLHUP && negb (has r POLLIN)) eqn:Eh.
  - destruct (handleClose_inv chan user U Huser Hcost Hdown Hclose c0) as (c2 & E2 & Hi2 & _ & _ & D2 & _); [done..|].
    cbn [channel_callback]. rewrite E2. cbn [mbind outcome_bind]. assert (revents_ (channel_ c2) = r) as Hr2 by (by rewrite (df_revents _ _ D2)).
    rewrite (fire_eq chan _ _ _ c2 Hi2), Hr2. cbn [channel_callback]. unfold handleError.
    assert ((if has r (Z.lor POLLERR POLLNVAL) then Ok c2 else Ok c2) = Ok c2) as -> by (by case_match). cbn [mbind outcome_bind].
    rewrite (fire_eq chan _ _ _ c2 Hi2), Hr2. unfold got, reads. rewrite (Hr Eh). cbn [mbind outcome_bind]. intros H.
    apply (io_event_pre _ c c0 _ Hk0). eapply io_event_post; [|by eapply keeps_write_stage]. apply io_event_frame. apply io_handleClose; [apply Hi0|done].
  - cbn [mbind outcome_bind]. rewrite (fire_eq chan _ _ _ c0 Hi0). cbn [channel_callback]. unfold handleError.
    assert ((if has (revents_ (channel_ c0)) (Z.lor POLLERR POLLNVAL) then Ok c0 else Ok c0) = Ok c0) as -> by (by case_match).
    cbn [mbind outcome_bind]. rewrite (fire_eq chan _ _ _ c0 Hi0). change (revents_ (channel_ c0)) with r. unfold got, reads.
    destruct (has r (Z.lor POLLIN (Z.lor POLLPRI POLLRDHUP))).
    + destruct (conn_handleRead_inv chan user U Huser Hcost Hdown Hclose readv c0 Hrv Hi0 Hl0 Ha Hin Hroom) as (c3 & E3 & Hi3 & _).
      cbn [channel_callback]. rewrite E3. cbn [mbind outcome_bind]. intros H. apply (io_event_pre _ c c0 _ Hk0).
      eapply io_event_post; [|by eapply keeps_write_stage].
      destruct (io_handleRead readv c0 c3 Hrv (ci_input _ _ Hi0) Hin E3) as (b & _ & Hb & [G1 G2 G3 [e G4]]). cbn in G4.
      split; [exact G1|exact G2|done|]. exists e. by rewrite <- Hb.
    + cbn [mbind outcome_bind]. intros H. apply (io_event_pre _ c c0 _ Hk0). eapply io_event_post; [|by eapply keeps_write_stage].
      apply io_event_frame, io_refl. apply Hi0.
Qed.

Definition is_event (l : conn_label) : bool := match l with LEvent _ _ _ => true | _ => false end.

Lemma io_local l c c' : wf (inputBuffer_ c) -> is_event l = false -> step_ok user U c l -> conn_step chan user c l = Ok c' -> io_frame c c'.
Proof.
  intros Hw. destruct l as [| wr | |data| | | |i| |]; cbn [conn_step is_event step_ok]; [done|intros _ Hok..].
  - destruct (queue c) as [|f fs]; [intros [= <-]; by apply io_refl|]. intros H. apply (io_trans _ (set_queue fs c)); [by apply keeps_io; [|keeping]|].
    destruct f; cbn [run_cfunctor] in H.
    + apply keeps_io; [done|]. by eapply keeps_sendInLoop.
    + injection H as <-. apply keeps_io; [done|apply keeps_shutdownInLoop].
    + unfold forceCloseInLoop in H. destruct (_ || _); [by apply io_handleClose|]. injection H as <-. by apply io_refl.
    + injection H as <-. apply keeps_io; [done|apply keeps_startRead].
    + injection H as <-. apply keeps_io; [done|apply keeps_stopRead].
    + by eapply io_call_user.
    + by eapply io_call_user.
    + unfold connectDestroyed in H. destruct (if state_eqb _ _ then _ else _) as [c1|] eqn:E1; cbn [mbind outcome_bind] in H; [|done].
      assert (io_frame (set_queue fs c) c1) as H1.
      { destruct (state_eqb _ _); [|injection E1 as <-; by apply io_refl]. unfold connectionCallback in E1.
        eapply io_trans; [|eapply io_call_user; [|exact E1]; done]. by apply keeps_io; [|keeping]. }
      unfold ch_remove in H. destruct (isNoneEvent (channel_ c1)); cbn [c_assert mbind outcome_bind] in H; [|done]. injection H as <-.
      eapply io_trans; [done|]. apply keeps_io; [apply H1|keeping].
  - destruct (0 <? delayed c); intros [= <-]; [|by apply io_refl]. apply keeps_io; [done|]. eapply conn_keeps_trans; [|apply keeps_forceClose]. keeping.
  - intros [= <-]. apply keeps_io; [done|]. unfold send_remote. destruct (state_eqb _ _); [apply keeps_remotes|apply conn_keeps_refl].
  - intros [= <-]. apply keeps_io; [done|]. unfold shutdown_remote. destruct (state_eqb _ _); [apply keeps_remotes|apply conn_keeps_refl].
  - intros [= <-]. apply keeps_io; [done|]. unfold forceClose_remote. destruct (_ || _); [apply keeps_remotes|apply conn_keeps_refl].
  - intros [= <-]. apply keeps_io; [done|]. unfold forceCloseWithDelay_remote. destruct (_ || _); [apply keeps_remotes|apply conn_keeps_refl].
  - intros [= <-]. apply keeps_io; [done|]. destruct (remotes c !! i) as [r|]; [by apply keeps_remote|apply conn_keeps_refl].
  - intros [= <-]. apply keeps_io; [done|apply keeps_queueFunctor].
  - intros [= <-]. apply keeps_io; [done|apply keeps_queueFunctor].
Qed.
End Frame.

Lemma io_connectEstablished {B} `{!ByteQueue B} chan user (c c' : TcpConnection B) : wf (inputBuffer_ c) ->
  connectEstablished chan user c = Ok c' -> io_frame c c'.
Proof.
  intros Hw. unfold connectEstablished. destruct (state_eqb _ _) eqn:Es; cbn [c_assert mbind outcome_bind]; [|done]. unfold connectionCallback. intros H.
  eapply io_trans; [|eapply io_call_user; [|exact H]; done]. apply keeps_io; [done|]. unfold keeps. cbn. split_and!; try done. apply fins_grow_refl; [done|].
  apply state_eqb_true in Es. congruence.
Qed.

(** ** The network *)

(** A read of a stream of which [flight] is still to come, when the kernel has
    [k] bytes of it at hand (none yet when negative); [fin] tells that the
    peer's side is over. *)
Definition net_readv (flight : list byte) (k : Z) (fin : bool) (iov : list Z) : readv_result :=
  let room := foldr Z.add 0 iov in
  let n := Z.min k (Z.min (zlen flight) room) in
  if 0 <? n then mkReadv n 0 (take (Z.to_nat n) flight)
  else if fin && bool_decide (flight = []) && (0 <=? Z.min k room) then mkReadv 0 0 [] else mkReadv (-1) EWOULDBLOCK [].

Lemma net_readv_prefix flight k fin iov : rv_data (net_readv flight k fin iov) `prefix_of` flight.
Proof. unfold net_readv. destruct (0 <? _); cbn; [apply prefix_take|]. destruct (_ && _); cbn; apply prefix_nil. Qed.

Lemma net_readv_spec flight k fin : readv_spec (net_readv flight k fin).
Proof.
  intros iov r. subst r. unfold net_readv. pose proof (zlen_nonneg flight). set (room := foldr Z.add 0 iov).
  destruct (Z.ltb_spec 0 (Z.min k (Z.min (zlen flight) room))) as [H'|H']; cbn.
  - right. split; [|lia]. unfold zlen in *. rewrite length_take. lia.
  - destruct (_ && _) eqn:E; cbn; [|left; split; [lia|done]]. right. split; [done|]. apply andb_true_iff in E as [_ ?%Z.leb_le]. lia.
Qed.

Lemma net_readv_eof flight k fin iov : rv_n (net_readv flight k fin iov) = 0 -> flight = [] /\ fin = true.
Proof.
  unfold net_readv. destruct (Z.ltb_spec 0 (Z.min k (Z.min (zlen flight) (foldr Z.add 0 iov)))) as [H'|H']; cbn; [lia|].
  destruct (_ && _) eqn:E; cbn; [|done]. intros _. apply andb_true_iff in E as [[-> ?%bool_decide_eq_true]%andb_true_iff _]. done.
Qed.

(** ** Two connected ends *)

Section Pair.
Context {B : Type} `{!ByteQueue B}.

(** An end: its connection, what its reads returned so far, and whether one
    of them returned the end of the stream. *)
Record endpoint : Type := mkEnd { ep_conn : TcpConnection B; received : list byte; at_eof : bool }.

(** What the sender's kernel took and the reader has not read. *)
Definition in_flight (tx rx : endpoint) : list byte := drop (length (received rx)) (wire (ep_conn tx)).

(** A direction of the stream. *)
Record dir_inv (tx rx : endpoint) : Prop := mkDirInv {
  di_received : received rx `prefix_of` wire (ep_conn tx);
  di_input : exists eaten, received rx = eaten ++ readable (inputBuffer_ (ep_conn rx));
  di_fins : Forall (fun f => f.2.1 `prefix_of` wire (ep_conn tx)) (fins (ep_conn tx));
  di_eof : at_eof rx = true -> disconnected (ep_conn tx) = true \/ exists f, f ∈ fins (ep_conn tx) /\ f.2.1 `prefix_of` received rx;
}.

Lemma dir_flight tx rx : dir_inv tx rx -> wire (ep_conn tx) = received rx ++ in_flight tx rx.
Proof. intros [[k Hk] _ _ _]. unfold in_flight. by rewrite Hk, drop_app_length. Qed.

(** The sender moves. *)
Lemma dir_tx tx tx' rx : dir_inv tx rx -> wire (ep_conn tx) `prefix_of` wire (ep_conn tx') -> fins_grow (ep_conn tx) (ep_conn tx') ->
  dir_inv tx' rx.
Proof.
  intros [H1 H2 H3 H4] Hw [(l & El & Hl) Hs]. split; [by etrans|done| |].
  - rewrite El. apply Forall_app. split; [|done]. eapply Forall_impl; [exact H3|]. intros f Hf. exact (transitivity Hf Hw).
  - intros He. destruct (H4 He) as [Hx|(f & Hf & Hp)]; [left; unfold disconnected in *; rewrite state_eqb_true in *; tauto|].
    right. exists f. split; [|done]. rewrite El. apply elem_of_app. by left.
Qed.

(** The reader consumes, reads what is in flight, or sees the end. *)
Lemma dir_rx tx rx c extra eof : dir_inv tx rx -> extra `prefix_of` in_flight tx rx ->
  (exists eaten, readable (inputBuffer_ (ep_conn rx)) ++ extra = eaten ++ readable (inputBuffer_ c)) ->
  (eof = true -> at_eof rx = true \/ disconnected (ep_conn tx) = true \/ in_flight tx rx = [] /\ fins (ep_conn tx) <> []) ->
  dir_inv tx (mkEnd c (received rx ++ extra) eof).
Proof.
  intros Hd [k Hk] [e2 E2] Heof. pose proof (dir_flight _ _ Hd) as Hw. destruct Hd as [H1 [e1 E1] H3 H4].
  split; cbn [received at_eof ep_conn]; [|by exists (e1 ++ e2); rewrite E1, <- !app_assoc, E2|done|].
  - exists k. by rewrite Hw, Hk, app_assoc.
  - intros He. destruct (Heof He) as [Ha|[Hx|[Hn Hf]]]; [|by left|].
    + destruct (H4 Ha) as [?|(f & Hf & Hp)]; [by left|right]. exists f. split; [done|]. by apply prefix_app_r.
    + destruct (fins (ep_conn tx)) as [|f l] eqn:E; [done|]. right. exists f. split; [left|]. apply prefix_app_r.
      apply Forall_cons in H3 as [Hp _]. rewrite Hw, Hn, app_nil_r in Hp. done.
Qed.

Inductive side : Set := Client | Server.
Definition other (s : side) : side := match s with Client => Server | Server => Client end.

Record pair : Type := mkPair { client : endpoint; server : endpoint }.
Definition endp (p : pair) (s : side) : endpoint := match s with Client => client p | Server => server p end.
Definition set_end (p : pair) (s : side) (e : endpoint) : pair :=
  match s with Client => mkPair e (server p) | Server => mkPair (client p) e end.

Context (chan : side -> Z) (user : side -> cevent -> list uaction).

(** A step: poll reports events at one end, with [k] bytes of the stream at
    hand there, or an end runs a functor or is called by another thread. *)
Inductive pair_label : Type :=
| PEvent (s : side) (revents : Z) (k : Z) (wr : list byte -> wresult)
| PLocal (s : side) (l : conn_label).

(** The stream of an end is over: it was shut down, or the connection is down
    and its descriptor may be closed. *)
Definition has_fin (e : endpoint) : bool :=
  disconnected (ep_conn e) || match fins (ep_conn e) with [] => false | _ => true end.

Definition pair_readv (p : pair) (s : side) (k : Z) : list Z -> readv_result :=
  net_readv (in_flight (endp p (other s)) (endp p s)) k (has_fin (endp p (other s))).

Definition pair_step (p : pair) (l : pair_label) : outcome pair :=
  match l with
  | PEvent s r k wr =>
      let me := endp p s in
      let readv := pair_readv p s k in
      let n := rv_n (readv (readFd_iov (inputBuffer_ (ep_conn me)))) in
      c' ← conn_step (chan s) (user s) (ep_conn me) (LEvent r readv wr);
      Ok (set_end p s (mkEnd c' (received me ++ got r readv (ep_conn me)) (at_eof me || reads r && (n =? 0))))
  | PLocal s l =>
      c' ← conn_step (chan s) (user s) (ep_conn (endp p s)) l;
      Ok (set_end p s (mkEnd c' (received (endp p s)) (at_eof (endp p s))))
  end.

Definition pair_run : pair -> list pair_label -> outcome pair := foldM pair_step.

(** Both ends as [connectEstablished] leaves them. *)
Definition pair_start (fd : side -> Z) (input : side -> Buffer) (output : side -> B) : outcome pair :=
  let up s := connectEstablished (chan s) (user s) (TcpConnection_ctor (chan s) (fd s) (input s) (output s) true true) in
  c ← up Client; c' ← up Server; Ok (mkPair (mkEnd c [] false) (mkEnd c' [] false)).

Context (U : Z).
Hypothesis Huser : forall s, user_ok (user s).
Hypothesis Hcost : forall s e, ua_costs (user s e) <= U.
Hypothesis Hdown : forall s, quiet_on (user s) (EvConnection false).
Hypothesis Hclose : forall s, quiet_on (user s) EvClose.

(** The conditions of a step: those of the connection that takes it. *)
Definition pair_step_ok (p : pair) (l : pair_label) : Prop :=
  match l with
  | PEvent s r k wr => step_ok (user s) U (ep_conn (endp p s)) (LEvent r (pair_readv p s k) wr)
  | PLocal s l => is_event l = false /\ step_ok (user s) U (ep_conn (endp p s)) l
  end.

Fixpoint pair_ok (p : pair) (ls : list pair_label) : Prop :=
  match ls with
  | [] => True
  | l :: ls' => pair_step_ok p l /\ match pair_step p l with Ok p' => pair_ok p' ls' | Fail _ => True end
  end.

Record end_inv (s : side) (e : endpoint) : Prop := mkEndInv {
  ei_conn : conn_inv (chan s) (ep_conn e);
  ei_life : life (ep_conn e);
  ei_handling : eventHandling_ (channel_ (ep_conn e)) = false;
}.

Definition pair_inv (p : pair) : Prop := forall s, end_inv s (endp p s) /\ dir_inv (endp p (other s)) (endp p s).

(** One end moves: its own stream only grows, and what it read came from the
    other. *)
Lemma pair_inv_move p s c extra eof :
  pair_inv p -> end_inv s (mkEnd c (received (endp p s) ++ extra) eof) -> io_event extra (ep_conn (endp p s)) c ->
  extra `prefix_of` in_flight (endp p (other s)) (endp p s) ->
  (eof = true -> at_eof (endp p s) = true \/ disconnected (ep_conn (endp p (other s))) = true \/
    in_flight (endp p (other s)) (endp p s) = [] /\ fins (ep_conn (endp p (other s))) <> []) ->
  pair_inv (set_end p s (mkEnd c (received (endp p s) ++ extra) eof)).
Proof.
  intros Hp He [Hw Hf _ Hin] Hx Heof. pose proof (Hp s) as [_ Hme]. pose proof (Hp (other s)) as [Hpeer Hback].
  set (e := mkEnd c _ eof) in *. assert (dir_inv (endp p (other s)) e) as Hrx by (by apply dir_rx).
  assert (dir_inv e (endp p (other s))) as Htx.
  { apply (dir_tx (endp p s)); [|done|done]. by destruct s. }
  intros s'. by destruct s, s'; cbn in *.
Qed.

Lemma pair_step_inv p l : pair_inv p -> pair_step_ok p l -> exists p', pair_step p l = Ok p' /\ pair_inv p'.
Proof.
  intros Hp Hok. destruct l as [s r k wr|s l]; cbn [pair_step pair_step_ok] in *; pose proof (Hp s) as [[Hi Hl Hh] Hd].
  - destruct (conn_step_inv (chan s) (user s) U (Huser s) (Hcost s) (Hdown s) (Hclose s) _ _ Hi Hl Hh Hok) as (c' & E & Hi' & Hl' & Hh' & _).
    rewrite E. eexists. split; [done|]. pose proof (io_LEvent (chan s) (user s) U (Huser s) (Hcost s) (Hdown s) (Hclose s) _ _ _ _ _ Hi Hl Hok E) as Hio.
    apply pair_inv_move; [done|by split|done| |].
    + unfold got. destruct (reads r); [apply net_readv_prefix|apply prefix_nil].
    + intros [?|[_ ?%Z.eqb_eq]%andb_true_iff]%orb_true_iff; [by left|right]. destruct (net_readv_eof _ _ _ _ H) as [? Hf].
      apply orb_true_iff in Hf as [Hf|Hf]; [by left|right]. split; [done|]. intros Hn. by rewrite Hn in Hf.
  - destruct Hok as [Hev Hok].
    destruct (conn_step_inv (chan s) (user s) U (Huser s) (Hcost s) (Hdown s) (Hclose s) _ _ Hi Hl Hh Hok) as (c' & E & Hi' & Hl' & Hh' & _).
    rewrite E. eexists. split; [done|]. pose proof (io_local (chan s) (user s) U _ _ _ (ci_input _ _ Hi) Hev Hok E) as Hio.
    pose proof (pair_inv_move p s c' [] (at_eof (endp p s))) as Hm. rewrite app_nil_r in Hm.
    apply Hm; [done|by split|by apply io_event_frame|apply prefix_nil|by left].
Qed.

Lemma pair_run_inv ls : forall p, pair_inv p -> pair_ok p ls -> exists p', pair_run p ls = Ok p' /\ pair_inv p'.
Proof.
  induction ls as [|l ls IH]; intros p Hp Hok; cbn [pair_run foldM pair_ok] in *; [by exists p|].
  destruct Hok as [H1 H2]. destruct (pair_step_inv p l Hp H1) as (p1 & E & Hp1). rewrite E in H2. unfold pair_run. cbn [foldM]. rewrite E. by apply IH.
Qed.

(** Fresh buffers at an end. *)
Definition start_ok (input : Buffer) (output : B) : Prop :=
  wf input /\ readable input = [] /\ bq_wf output /\ bq_contents output = [] /\ bq_size output + U <= max_size.

Lemma up_inv s fd input output : start_ok input output ->
  exists c, connectEstablished (chan s) (user s) (TcpConnection_ctor (chan s) fd input output true true) = Ok c /\
    end_inv s (mkEnd c [] false) /\ Forall (fun f => f.2.1 `prefix_of` wire c) (fins c) /\ readable (inputBuffer_ c) = [].
Proof.
  intros (H1 & H2 & H3 & H4 & H5).
  destruct (established_inv (chan s) (user s) U (Huser s) (Hcost s) (Hdown s) (Hclose s) fd input output true true H1 H3 H4 H5) as (c & E & Hi & Hl & _ & Hh).
  exists c. split; [done|]. split; [done|]. apply io_connectEstablished in E as [_ [(l & -> & Hf) _] _ [e He]]; [|done].
  split; [done|]. cbn in He. rewrite H2 in He. by destruct e.
Qed.

Lemma pair_start_inv fd input output : (forall s, start_ok (input s) (output s)) ->
  exists p, pair_start fd input output = Ok p /\ pair_inv p.
Proof.
  intros H. destruct (up_inv Client (fd Client) _ _ (H Client)) as (c & E & Hc & Hf & Hr).
  destruct (up_inv Server (fd Server) _ _ (H Server)) as (c' & E' & Hc' & Hf' & Hr').
  unfold pair_start. rewrite E. cbn [mbind outcome_bind]. rewrite E'. eexists. split; [done|].
  assert (forall t u, received u = [] -> at_eof u = false -> readable (inputBuffer_ (ep_conn u)) = [] ->
    Forall (fun f => f.2.1 `prefix_of` wire (ep_conn t)) (fins (ep_conn t)) -> dir_inv t u) as Hd.
  { intros t u E1 E2 E3 Hx. split; rewrite ?E1, ?E2, ?E3; [apply prefix_nil|by exists []|done|done]. }
  intros s. destruct s; (split; [done|by apply Hd]).
Qed.


End Pair.

Arguments endpoint B : clear implicits.
Arguments pair B : clear implicits.

(** ** A conversation *)

Definition demo_chan (s : side) : Z := match s with Client => 7 | Server => 8 end.
Definition demo_fd (s : side) : Z := match s with Client => 21 | Server => 22 end.

(** The client greets and shuts its side down; the server answers. *)
Definition demo_talk (s : side) : cevent -> list uaction :=
  match s with
  | Client => fun e => match e with EvConnection true => [USend (str "hello") wr_two; UShutdown] | _ => [] end
  | Server => fun e => match e with EvMessage _ => [USend (str "ok") wr_two; UConsume 2] | _ => [] end
  end.

Definition demo_pair_labels : list pair_label :=
  [PEvent Server POLLIN 1 wr_two; PEvent Client POLLOUT 9 wr_two; PEvent Server POLLIN 9 wr_two;
   PEvent Client POLLIN 9 wr_two; PEvent Client POLLOUT 9 wr_two; PEvent Server POLLIN 9 wr_two; PEvent Server POLLIN 9 wr_two;
   PLocal Server (LRunFunctor wr_two)].

Lemma demo_talk_ok s : user_ok (demo_talk s).
Proof. intros e. destruct s, e as [[]| | | |]; repeat constructor; try apply wr_two_spec; vm_compute; discriminate. Qed.
Lemma demo_talk_cost s e : ua_costs (demo_talk s e) <= 5.
Proof. destruct s, e as [[]| | | |]; vm_compute; discriminate. Qed.
Lemma demo_talk_down s : quiet_on (demo_talk s) (EvConnection false).
Proof. destruct s; constructor. Qed.
Lemma demo_talk_close s : quiet_on (demo_talk s) EvClose.
Proof. destruct s; constructor. Qed.

Lemma pair_ok_cons {B} `{!ByteQueue B} chan user U (p p' : pair B) l ls :
  pair_step_ok user U p l -> pair_step chan user p l = Ok p' -> pair_ok chan user U p' ls -> pair_ok chan user U p (l :: ls).
Proof. intros H E Hs. cbn. by rewrite E. Qed.

Lemma demo_pair_ok p0 : pair_start demo_chan demo_talk demo_fd (fun _ => demo_input) (fun _ => demo_output) = Ok p0 ->
  pair_ok demo_chan demo_talk 5 p0 demo_pair_labels.
Proof.
  intros E. vm_compute in E. injection E as <-. unfold demo_pair_labels.
  repeat (eapply pair_ok_cons;
    [cbn [pair_step_ok step_ok endp server client ep_conn queue functor_room functor_ok];
     try split_and!; first [apply net_readv_spec | concrete_step]
    |vm_compute; reflexivity|]).
  exact I.
Qed.

Lemma demo_start_ok (s : side) : start_ok 5 demo_input demo_output.
Proof. unfold start_ok. split_and!; vm_compute; intuition discriminate. Qed.

